(* ===== verification/_CoqProject ===== *)
-Q . S2P
Prelude.v
Decimal.v
Scope.v
LeaseCache.v
Sql.v
IsoTime.v
ApprovalStore.v
ApprovalService.v
ExecAuth.v
Automation.v
Receipts.v
Usage.v
Regex.v
Redaction.v
Outbox.v
Flush.v
WorkRecords.v
Segments.v
UsageStats.v
OrgTree.v
ChatClient.v
Schedule.v
Conversations.v
JwtAuth.v
Todo.v
Groups.v
Projections.v
Paths.v
Sandbox.v
Async.v
Directories.v
DirectoryService.v
DirectorySafety.v
ManagerJwks.v
Layout.v
Migration.v
Redact.v
EventSse.v
EventSafety.v
Codec.v
ReadCursor.v
History.v
ConversationReads.v
PathSearch.v
Geometry.v
Navigator.v
EditorPath.v
GroupContext.v
Delivery.v
SessionRuns.v
ContextReset.v
ManagerConfig.v
GrantSync.v
RelayAddress.v
TaskCreation.v
