(* ===== verification/Prelude.v ===== *)
(** * AI Team: the Agent service and its desktop client

    AI Team is a local-first platform of AI employees.  The Agent service
    (server/agent_service, TypeScript) runs on the member's machine: it drives model sessions,
    keeps conversations, approvals, schedules, work records and usage in one SQLite file, asks
    the remote Manager for identities, employee projections and runtime leases, and uploads
    usage.  The desktop client (clients/desktop) queues messages, follows group rounds, edits the
    organisation tree and walks employees over an office map drawn in the map editor
    (clients/office-map-edit-tool).  This library models the service's core and the client's pure
    logic, function by function, and proves what makes them correct.

    ** Conventions

    A JavaScript function that returns or throws is a function into [result]; a transaction
    returns the database it leaves and its outcome.  SQL statements are the functions of Sql.v
    over lists of rows.  A clock reading, a random identifier and the answer of the network are
    arguments.  Asynchronous code is cut at its [await]s, either into explicit continuations
    run by events (LeaseCache, ApprovalService, ManagerJwks) or as programs of Async.v under
    arbitrary interference (DirectoryService).  A tick of the scheduler (Schedule) is one step.  Paths below are under server/agent_service/src
    unless they begin with clients/.

    ** Files

    - Prelude: [result], maps as association lists, [num] (a JavaScript number as far as the
      code looks at it), tactics ([boolify], [split_ifs]) and list lemmas.  Decimal, IsoTime,
      Sql, Regex, Paths, Async: numerals, UTC texts, tables, regular expressions over UTF-16
      units, [node:path], and asynchronous programs with their weakest preconditions.
    - Scope, LeaseCache: runtime-lease-cache.ts.  Keys are injective encodings; a load that is
      in flight when its scope is revoked can never store its value; hits are of the current
      generation and within the lease.
    - ApprovalStore, ApprovalService, Redaction: the approval table of storage/sqlite.ts, the
      gate of approval-service.ts and pi/approval-extension.ts, argument hashes and previews.
      Every execution is authorised, an approval executes at most once, terminal records never
      execute, the store refines an abstract lifecycle, and previews are bounded.
    - ExecAuth: execution-authorization.ts and clock.ts; the registry refines a plain table.
    - Receipts: prompt receipts of storage/sqlite.ts; a prompt is accepted at most once per key
      unless its receipt was released or went with its conversation, and a one-shot schedule
      fires once.
    - Automation, Schedule: storage/automation-tasks.ts, schedule.ts, schedule-calendar.ts; each
      tick accounts for every due occurrence, which is the latest one due.
    - Conversations, Projections: conversations, participants, workspace moves, failures and
      employee projections of storage/sqlite.ts and storage/conversation-failures.ts; deletion
      is complete and confined, membership changes are exact, pages are complete, revocation
      wins over repeated data and a sync stays within its owner.
    - Usage, Outbox, Flush, UsageStats: usage.ts, the outbox of storage/sqlite.ts,
      usage-flush.ts, services/usage-statistics.ts; costs are exact, usage is conserved from
      the summaries to the Manager, every claimed row is settled, statistics add up.
    - WorkRecords, Segments: storage/work-records.ts, services/work-records.ts,
      pi/work-history.ts, storage/context-segments.ts; polling converges, imports are exact,
      usage is counted once, published counts are current.
    - JwtAuth, ManagerJwks: http/auth.ts and http/manager-jwks.ts; a caller is accepted exactly
      under a published key of its own tenant that is current, and the key cache is bounded.
    - Directories, DirectoryService, DirectorySafety: storage/local-directories.ts,
      services/local-directories.ts and the host interface of local-directory-host.ts; text is
      returned only while the grant behind it stands, whatever runs in between, and searches
      end.
    - Sandbox: pi/sandbox.ts over a file system with symbolic links; tool calls stay inside the
      workspace when no link in it is dangling, and an example shows how one leads outside.
    - Todo, Groups: tools/todo.ts, pi/todo-reminder.ts, pi/todo-reconcile.ts,
      groups/orchestration.ts.
    - OrgTree, ChatClient: clients/desktop/src/pages/OrgChart/orgTree.ts,
      lib/chatSendQueue.ts, lib/groupStreamLifecycle.ts; moving a department changes
      its place and no other, the queue conserves messages, a round completes exactly once.
    - Layout, Migration: workspace-layout.ts, [safePathSegment] of local-files.ts,
      services/workspace-migration.ts; every folder name is a valid key, and the start-up
      migration loses no folder wherever a crash strikes, unless a folder cannot be examined.
    - Redact, EventSse, EventSafety: pi/event-sse.ts, what the client sees of runtime events and
      history entries; no credential, path or runtime object by name, at most 24 KiB beside
      message bodies.
    - Codec, ReadCursor, History, ConversationReads: storage/read-cursor.ts,
      pi/session-history.ts, services/conversation-reads.ts, with base64url, UTF-8 and
      [JSON.parse] of the standard library; cursors lead back to their boundary, the history
      shows every stored message once except those it is to hide, its pages lose nothing, search stays with the owner.
    - PathSearch, Geometry, Navigator, EditorPath: geometry.ts and [simplifyPath] of the desktop's
      office map, with the search and history of the map editor's model.js; the search is
      sound, complete and shortest for any tests, and the editor finds the scene's routes.
    - GroupContext, Delivery, SessionRuns, ContextReset: pi/session-host.ts and
      services/group-message-delivery.ts; whom a message runs and who may not, what a
      coordinator may pass on, one run at a time and its session, that every context a reset
      drops is on record, and what it offers to the memory.
    - ManagerConfig, GrantSync, RelayAddress: [normalizeAuthorizedConfig] and
      [normalizeRuntimeProviderConfigWithDns] of manager-client.ts, [syncGrants] of
      http/server.ts; what is accepted of the Manager's answers, that an employee the Manager
      refuses does not run for that member until a sync restores it, and that models are called
      outside the special address blocks the code knows.
    - TaskCreation: [create] of services/automation-tasks.ts with the checks of connectors.ts; one
      task and one answer per idempotency key.

    ** Parameters

    Code outside the repository is a parameter, with the laws the sources rely on as named
    hypotheses that an instance in the same file satisfies: the time zone database behind
    Temporal ([ZoneLaws] of Schedule), [sha256], [JSON.parse] of token parts and the RSA check
    (JwtAuth, ManagerJwks), the file system, the sandbox library and the directory host
    (Sandbox, DirectoryService), Unicode normalisation and collation ([fold], [nfkc], [lower],
    [localeCompare]) and the stream of random identifiers ([uuid], injective where it matters).
    The session file of the agent runtime is the class [SessionManager] of ContextReset with its
    laws; the session files and directories a record opens and the branches of other members
    are arguments of Delivery; the rotation of a piece of furniture, a cosine and a sine, is an
    argument of Geometry.  The Manager's answers, the URL
    parser, the name service and the readers of keys, dates and prices are arguments of
    ManagerConfig, GrantSync and RelayAddress.

    ** Numbers

    JavaScript numbers are integers or exact values where the code keeps them exact (counts,
    times, identifiers, micro amounts).  The coordinates of Geometry, Navigator and
    [editorFindPath] are exact rationals, the doubles of the code without their rounding; facts
    of Geometry and Navigator that rest on it, such as the symmetry of [clearSegment] and the
    agreement of Navigator with [findPath], fail in doubles and are not claimed of the scene.  The
    search of PathSearch is proved for any tests of points and lines, and the agreement of the
    editor with the scene does not depend on what the tests answer.

    ** Bounds and fuel

    The calendar search looks 370 days ahead, as the code does.  The matcher of Regex is given
    the length of the text, and an iteration of a repetition that consumes nothing ends it.
    The JSON parser is given the length of its text, and [parseValue_fuel] shows that more
    changes nothing.  Cursor walks take one unit per page and the completeness theorems hold
    for the number of rows.  The walk of a directory search has 8002 iterations: each examines one of at most
    8000 entries or takes one of the queued directories, and [search_always_ends] shows that
    the bound is never the reason a search stops.  The parent loop of [assertWorkspacePath]
    takes one unit per path segment.  A route search visits every cell of the grid at most once and
    is given one unit more than there are cells; the search for where a transcript starts is
    given the length of the text, more than its halvings.

    ** Not modelled

    HTTP routing and request schemas (http/server.ts and the other handlers), the tools, leases and
    files of the session host and the adapters to the third-party agent runtime
    (pi/session-host.ts, pi/resources.ts and others), the Manager HTTP client, skill archives, file contents and avatars, schema
    migrations, start-up and logging, the React and Phaser user interfaces, the Python services
    and the native shell: they are I/O, glue over libraries, or in other languages.
    Left out for size rather than kind: editing and listing of services/automation-tasks.ts, the local files of
    storage/sqlite.ts, crowds and meetings of the office map and most pure libraries of the
    desktop client. *)

From stdpp Require Export base tactics list option strings gmap numbers relations.
From Stdlib Require Export ZArith Lia.

Open Scope Z_scope.

(** ** Outcomes of code that may throw

    A TypeScript function that returns or throws is a function into [result E A];
    [E] is the inductive type of the errors the component throws.  stdpp's monad
    notation [x ← c; k] sequences such computations, and [require b e] is the
    guard [if (!b) throw e]. *)

Inductive result (E A : Type) : Type :=
| Ok (a : A)
| Err (e : E).
Arguments Ok {E A} a.
Arguments Err {E A} e.

#[export] Instance result_ret E : MRet (result E) := fun A a => Ok a.
#[export] Instance result_bind E : MBind (result E) := fun A B f m =>
  match m with Ok a => f a | Err e => Err e end.
#[export] Instance result_fmap E : FMap (result E) := fun A B f m =>
  match m with Ok a => Ok (f a) | Err e => Err e end.

Definition require {E} (b : bool) (e : E) : result E unit :=
  if b then Ok tt else Err e.

Lemma bind_Ok {E A B} (m : result E A) (f : A -> result E B) b :
  (m ≫= f) = Ok b <-> exists a, m = Ok a /\ f a = Ok b.
Proof. destruct m; cbn; split; intros; destruct_and?; naive_solver. Qed.

Lemma bind_Err {E A B} (m : result E A) (f : A -> result E B) e :
  (m ≫= f) = Err e <-> m = Err e \/ exists a, m = Ok a /\ f a = Err e.
Proof. destruct m; cbn; naive_solver. Qed.

Lemma require_Ok {E} b (e : E) u : require b e = Ok u <-> b = true.
Proof. destruct b, u; cbn; naive_solver. Qed.

Lemma require_Err {E} b (e e' : E) : require b e = Err e' <-> b = false /\ e = e'.
Proof. destruct b; cbn; naive_solver. Qed.

(** [mapM_result f l]: a [map] whose callback may throw; the first throw wins. *)
Fixpoint mapM_result {E A B} (f : A -> result E B) (l : list A) : result E (list B) :=
  match l with
  | [] => Ok []
  | a :: l => b ← f a; bs ← mapM_result f l; Ok (b :: bs)
  end.

Lemma mapM_result_Ok {E A B} (f : A -> result E B) l bs :
  mapM_result f l = Ok bs <-> Forall2 (fun a b => f a = Ok b) l bs.
Proof.
  split.
  - revert bs; induction l as [|a l IH]; intros bs; cbn.
    + intros [= <-]; constructor.
    + rewrite bind_Ok; intros (b & Hb & (bs' & Hbs & [= <-])%bind_Ok).
      constructor; auto.
  - induction 1 as [|a b l bs Hab _ IH]; cbn; [done|]. by rewrite Hab; cbn; rewrite IH.
Qed.

(** ** Small shared vocabulary *)

(** [s.length]; strings are sequences of code units, one [ascii] each. *)
Definition slen (s : string) : Z := Z.of_nat (String.length s).

(** [Math.min(Math.max(x, lo), hi)], the clamp the sources write. *)
Definition clamp (lo hi x : Z) : Z := Z.min (Z.max x lo) hi.

Lemma clamp_bounds lo hi x : lo <= hi -> lo <= clamp lo hi x <= hi.
Proof. unfold clamp; lia. Qed.

(** [o ?? d]. *)
Definition nullish {A} (o : option A) (d : A) : A := default d o.

Lemma slen_nonneg s : 0 <= slen s.
Proof. unfold slen; lia. Qed.

Lemma elem_take {A} (x : A) n l : x ∈ take n l -> x ∈ l.
Proof. intros H. rewrite <- (take_drop n l). apply elem_of_app. by left. Qed.

(** JavaScript numbers where the code tests for [NaN] and infinities: a finite value is
    the integer the code computes with (milliseconds, counters). *)
Inductive num : Type := Fin (z : Z) | PosInf | NegInf | NaN.

(** [Number.isFinite] of a possibly missing number, with the number. *)
Definition finite_of (x : option num) : option Z :=
  match x with Some (Fin z) => Some z | _ => None end.

(** [Math.min] and [Math.max] of two numbers. *)
Definition num_min (a b : num) : num :=
  match a, b with
  | NaN, _ | _, NaN => NaN
  | NegInf, _ | _, NegInf => NegInf
  | PosInf, x | x, PosInf => x
  | Fin x, Fin y => Fin (Z.min x y)
  end.
Definition num_max (a b : num) : num :=
  match a, b with
  | NaN, _ | _, NaN => NaN
  | PosInf, _ | _, PosInf => PosInf
  | NegInf, x | x, NegInf => x
  | Fin x, Fin y => Fin (Z.max x y)
  end.

(** [z > x] for a finite left operand. *)
Definition Zgt_num (z : Z) (x : num) : bool :=
  match x with Fin y => y <? z | NegInf => true | PosInf | NaN => false end.

(** ** JavaScript [Map]: a list of bindings in insertion order

    [set] on a present key keeps its position, [set] on a new key appends, which is
    what makes the first key the oldest one. *)

Section JsMap.
Context {V : Type}.
Implicit Types (m : list (string * V)) (k : string) (v : V).

Fixpoint mget k m : option V :=
  match m with
  | [] => None
  | (k', v) :: m => if String.eqb k k' then Some v else mget k m
  end.

Fixpoint mset k v m : list (string * V) :=
  match m with
  | [] => [(k, v)]
  | (k', v') :: m => if String.eqb k k' then (k, v) :: m else (k', v') :: mset k v m
  end.

Fixpoint mdelete k m : list (string * V) :=
  match m with
  | [] => []
  | (k', v') :: m => if String.eqb k k' then mdelete k m else (k', v') :: mdelete k m
  end.

Definition mkeys m : list string := m.*1.

Lemma mget_mset_eq k v m : mget k (mset k v m) = Some v.
Proof.
  induction m as [|[k' v'] m IH]; cbn; [by rewrite String.eqb_refl|].
  destruct (String.eqb_spec k k'); cbn.
  - by rewrite String.eqb_refl.
  - by apply String.eqb_neq in n as ->.
Qed.

Lemma mget_mset_ne k k' v m : k <> k' -> mget k (mset k' v m) = mget k m.
Proof.
  intros Hne; induction m as [|[k1 v1] m IH]; cbn.
  - by apply String.eqb_neq in Hne as ->.
  - destruct (String.eqb_spec k' k1); cbn; repeat case_match; try done;
      repeat match goal with H : String.eqb _ _ = true |- _ => apply String.eqb_eq in H end;
      congruence.
Qed.

Lemma mget_mset k k' v m : mget k (mset k' v m) = if String.eqb k k' then Some v else mget k m.
Proof.
  destruct (String.eqb_spec k k'); subst; [apply mget_mset_eq|by apply mget_mset_ne].
Qed.

Lemma mget_mdelete_eq k m : mget k (mdelete k m) = None.
Proof.
  induction m as [|[k' v'] m IH]; cbn; [done|].
  destruct (String.eqb k k') eqn:E; cbn; by rewrite ?E.
Qed.

Lemma mget_mdelete_ne k k' m : k <> k' -> mget k (mdelete k' m) = mget k m.
Proof.
  intros Hne; induction m as [|[k1 v1] m IH]; cbn; [done|].
  destruct (String.eqb_spec k' k1) as [->|]; cbn; rewrite IH; [|done].
  by apply String.eqb_neq in Hne as ->.
Qed.

Lemma mget_mdelete k k' m : mget k (mdelete k' m) = if String.eqb k k' then None else mget k m.
Proof.
  destruct (String.eqb_spec k k'); subst; [apply mget_mdelete_eq|by apply mget_mdelete_ne].
Qed.

Lemma mget_In k v m : mget k m = Some v -> (k, v) ∈ m.
Proof.
  induction m as [|[k' v'] m IH]; cbn; [done|].
  destruct (String.eqb_spec k k'); [intros [= ->]; subst; left|right; auto].
Qed.

Lemma In_mget k v m : NoDup (mkeys m) -> (k, v) ∈ m -> mget k m = Some v.
Proof.
  induction m as [|[k' v'] m IH]; cbn; [set_solver|].
  intros [Hn Hd]%NoDup_cons [[= -> ->]|Hin]%elem_of_cons; [by rewrite String.eqb_refl|].
  destruct (String.eqb_spec k k') as [->|]; [|auto].
  destruct Hn. apply list_elem_of_fmap. by exists (k', v).
Qed.

Lemma mset_fresh k v m : mget k m = None -> mset k v m = m ++ [(k, v)].
Proof.
  induction m as [|[k' v'] m IH]; cbn; [done|].
  destruct (String.eqb k k'); [done|]. intros; f_equal; auto.
Qed.

Lemma mget_None_notin k m : mget k m = None -> k ∉ mkeys m.
Proof.
  induction m as [|[k' v'] m IH]; cbn; [set_solver|].
  destruct (String.eqb_spec k k'); [done|]. rewrite not_elem_of_cons; auto.
Qed.

Lemma mkeys_mdelete_sublist k m : mkeys (mdelete k m) `sublist_of` mkeys m.
Proof.
  induction m as [|[k' v'] m IH]; cbn; [constructor|].
  destruct (String.eqb k k'); by constructor.
Qed.

Lemma NoDup_mdelete k m : NoDup (mkeys m) -> NoDup (mkeys (mdelete k m)).
Proof. intros; by eapply sublist_NoDup; [|apply mkeys_mdelete_sublist]. Qed.

Lemma length_mdelete k m : (length (mdelete k m) <= length m)%nat.
Proof.
  induction m as [|[k' v'] m IH]; cbn; [lia|]. destruct (String.eqb k k'); cbn; lia.
Qed.

Lemma mdelete_subset k m x : x ∈ mdelete k m -> x ∈ m.
Proof.
  induction m as [|[k' v'] m IH]; cbn; [done|].
  destruct (String.eqb k k'); rewrite ?elem_of_cons; naive_solver.
Qed.

Lemma length_mdelete_present k v m :
  mget k m = Some v -> (length (mdelete k m) < length m)%nat.
Proof.
  induction m as [|[k' v'] m IH]; cbn; [done|].
  destruct (String.eqb k k'); cbn; [|intros ?%IH; lia].
  intros _. pose proof (length_mdelete k m). lia.
Qed.

Lemma mget_snoc k v m : k ∉ mkeys m -> mget k (m ++ [(k, v)]) = Some v.
Proof.
  induction m as [|[k' v'] m IH]; cbn; [by rewrite String.eqb_refl|].
  rewrite not_elem_of_cons. intros [?%String.eqb_neq ?]. rewrite H. auto.
Qed.

Lemma elem_of_mkeys k m : k ∈ mkeys m <-> exists v, mget k m = Some v.
Proof.
  split.
  - destruct (mget k m) as [v|] eqn:E; [eauto|]. intros Hk. by apply mget_None_notin in E.
  - intros [v Hv%mget_In]. apply list_elem_of_fmap. by exists (k, v).
Qed.

Lemma mkeys_mset k v m : mkeys (mset k v m) = if bool_decide (k ∈ mkeys m) then mkeys m else mkeys m ++ [k].
Proof.
  induction m as [|[k' v'] m IH]; cbn.
  - rewrite bool_decide_eq_false_2; [done|]. apply not_elem_of_nil.
  - destruct (String.eqb_spec k k') as [->|Hne]; cbn.
    + rewrite bool_decide_eq_true_2; [done|]. by left.
    + fold (mkeys (mset k v m)). rewrite IH. case_bool_decide as H1; case_bool_decide as H2; cbn; try done.
      * destruct H2. by right.
      * apply elem_of_cons in H2 as [->|?]; done.
Qed.

Lemma NoDup_mset k v m : NoDup (mkeys m) -> NoDup (mkeys (mset k v m)).
Proof.
  intros H. rewrite mkeys_mset. case_bool_decide; [done|]. apply NoDup_app. split_and!; [done| |apply NoDup_singleton].
  intros x Hx Hk. apply list_elem_of_singleton in Hk as ->. done.
Qed.

(** [map.delete(k); map.set(k, v)]: move to the newest position. *)
Definition mrefresh k v m : list (string * V) := mset k v (mdelete k m).

Lemma mrefresh_app k v m : mrefresh k v m = mdelete k m ++ [(k, v)].
Proof. apply mset_fresh, mget_mdelete_eq. Qed.

Lemma NoDup_mrefresh k v m : NoDup (mkeys m) -> NoDup (mkeys (mrefresh k v m)).
Proof.
  intros Hd. rewrite mrefresh_app; unfold mkeys; rewrite fmap_app.
  apply NoDup_app; repeat split.
  - by apply NoDup_mdelete.
  - cbn; intros k' Hk' [->|[]%not_elem_of_nil]%elem_of_cons.
    by apply (mget_None_notin k (mdelete k m)) in Hk'; [|apply mget_mdelete_eq].
  - apply NoDup_singleton.
Qed.

Lemma mget_mrefresh k k' v m :
  mget k (mrefresh k' v m) = if String.eqb k k' then Some v else mget k m.
Proof.
  unfold mrefresh; rewrite mget_mset. destruct (String.eqb_spec k k'); [done|].
  by apply mget_mdelete_ne.
Qed.
End JsMap.

(** ** Proof automation of the development *)

Create HintDb aiteam.
#[export] Hint Rewrite @mget_mset @mget_mdelete @mget_mrefresh : aiteam.
#[export] Hint Resolve @NoDup_mdelete @NoDup_mrefresh : aiteam.

(** [boolify]: turn every boolean test in the context into the proposition it
    decides. *)
Ltac boolify :=
  repeat match goal with
  | H : andb _ _ = true |- _ => apply andb_true_iff in H as [? ?]
  | H : orb _ _ = false |- _ => apply orb_false_iff in H as [? ?]
  | H : negb _ = true |- _ => apply negb_true_iff in H
  | H : negb _ = false |- _ => apply negb_false_iff in H
  | H : String.eqb _ _ = true |- _ => apply String.eqb_eq in H
  | H : String.eqb _ _ = false |- _ => apply String.eqb_neq in H
  | H : (_ <=? _) = true |- _ => apply Z.leb_le in H
  | H : (_ <=? _) = false |- _ => apply Z.leb_gt in H
  | H : (_ <? _) = true |- _ => apply Z.ltb_lt in H
  | H : (_ <? _) = false |- _ => apply Z.ltb_ge in H
  | H : (_ =? _) = true |- _ => apply Z.eqb_eq in H
  | H : (_ =? _) = false |- _ => apply Z.eqb_neq in H
  | H : bool_decide _ = true |- _ => apply bool_decide_eq_true in H
  | H : bool_decide _ = false |- _ => apply bool_decide_eq_false in H
  end.

(** [split_ifs]: case on every [if] and [match] of the goal, then [boolify]. *)
Ltac split_ifs := repeat (case_match; boolify; simplify_eq/=); try done.

(** [split_ifs_in H]: the same for a hypothesis. *)
Ltac split_ifs_in H :=
  repeat match type of H with
  | context [match ?x with _ => _ end] => destruct x eqn:?; boolify; simplify_eq/=
  end.
