(* ===== verification/Decimal.v ===== *)
(** Decimal numerals: how the sources print and read integers.

    [String(n)] of a non-negative integer and [bigint.toString()] are stdpp's
    [pretty]; [BigInt(digits)] is [digits_val].  The file proves that reading a
    printed numeral gives the number back and that printing uses digits only, which
    the scope encoding and the exact-cost arithmetic rely on. *)

From S2P Require Import Prelude.
From stdpp Require Export pretty.
From Stdlib Require Import Ascii.
From Stdlib Require String.
Local Open Scope Z_scope.

(** The code units of a string. *)
Definition chars (s : string) : list ascii := String.list_ascii_of_string s.

Lemma chars_app s t : chars (s +:+ t) = chars s ++ chars t.
Proof. unfold chars. induction s as [|c s IH]; simpl; [done|]. by rewrite IH. Qed.

Lemma chars_inj s t : chars s = chars t -> s = t.
Proof.
  intros H. rewrite <- (String.string_of_list_ascii_of_string s), <- (String.string_of_list_ascii_of_string t).
  unfold chars in H. by rewrite H.
Qed.

Lemma length_chars s : length (chars s) = String.length s.
Proof. unfold chars. induction s; cbn; auto. Qed.

Lemma append_length s t : String.length (s +:+ t) = (String.length s + String.length t)%nat.
Proof. by rewrite <- !length_chars, chars_app, length_app. Qed.

Lemma append_assoc s t u : (s +:+ t) +:+ u = s +:+ (t +:+ u).
Proof. apply chars_inj. by rewrite !chars_app, app_assoc. Qed.

Lemma append_nil_r s : s +:+ "" = s.
Proof. apply chars_inj. by rewrite chars_app, app_nil_r. Qed.

(** [\d]. *)
Definition is_digit (c : ascii) : bool :=
  (48 <=? Z.of_N (N_of_ascii c)) && (Z.of_N (N_of_ascii c) <=? 57).

Definition digit_val (c : ascii) : N := N_of_ascii c - 48.

(** [BigInt(s)] for a string of digits; [BigInt("")] is [0n]. *)
Definition digits_fold (acc : N) (l : list ascii) : N :=
  fold_left (fun acc c => acc * 10 + digit_val c)%N l acc.
Definition digits_val (s : string) : N := digits_fold 0 (chars s).

Definition all_digits (s : string) : bool := forallb is_digit (chars s).

Lemma all_digits_app s t : all_digits (s +:+ t) = all_digits s && all_digits t.
Proof. unfold all_digits. by rewrite chars_app, forallb_app. Qed.

Lemma digits_fold_app acc l k : digits_fold acc (l ++ k) = digits_fold (digits_fold acc l) k.
Proof. apply fold_left_app. Qed.

Lemma digits_fold_shift acc l :
  digits_fold acc l = (acc * 10 ^ N.of_nat (length l) + digits_fold 0 l)%N.
Proof.
  unfold digits_fold. revert acc; induction l as [|c l IH]; intros acc; cbn [fold_left length].
  - cbn. lia.
  - rewrite (IH (acc * 10 + digit_val c)%N), (IH (0 * 10 + digit_val c)%N).
    rewrite Nat2N.inj_succ, N.pow_succ_r'. lia.
Qed.

Lemma digits_val_app s t :
  digits_val (s +:+ t) = (digits_val s * 10 ^ N.of_nat (String.length t) + digits_val t)%N.
Proof.
  unfold digits_val. rewrite chars_app, digits_fold_app, digits_fold_shift.
  by rewrite length_chars.
Qed.

Lemma digits_fold_lt l : forallb is_digit l = true ->
  (digits_fold 0 l < 10 ^ N.of_nat (length l))%N.
Proof.
  induction l as [|c l IH] using rev_ind; intros Hd; [by cbn|].
  rewrite forallb_app in Hd. apply andb_true_iff in Hd as [Hl Hc].
  rewrite digits_fold_app, length_app, Nat.add_1_r, Nat2N.inj_succ, N.pow_succ_r'.
  specialize (IH Hl). change (digits_fold ?a [c]) with (a * 10 + digit_val c)%N.
  cbn in Hc. rewrite andb_true_r in Hc. unfold is_digit in Hc; boolify.
  unfold digit_val. lia.
Qed.

Lemma digits_val_lt s : all_digits s = true -> (digits_val s < 10 ^ N.of_nat (String.length s))%N.
Proof. intros H. rewrite <- length_chars. by apply digits_fold_lt. Qed.

Lemma digit_char x : (x < 10)%N ->
  is_digit (pretty_N_char x) = true /\ digit_val (pretty_N_char x) = x.
Proof.
  intros H. assert (x = 0 \/ x = 1 \/ x = 2 \/ x = 3 \/ x = 4 \/ x = 5 \/ x = 6 \/ x = 7 \/ x = 8 \/ x = 9)%N
    as Hx by lia.
  by repeat (destruct Hx as [->|Hx]; [split; reflexivity|]); subst.
Qed.

Lemma pretty_N_go_digits x s : exists d,
  pretty_N_go x s = d +:+ s /\ all_digits d = true /\ digits_val d = x.
Proof.
  revert s. induction (N.lt_wf_0 x) as [x _ IH]; intros s.
  assert (x = 0 \/ 0 < x)%N as [->|Hx] by lia.
  { exists "". by rewrite pretty_N_go_0. }
  rewrite pretty_N_go_step by done.
  destruct (IH (x / 10)%N ltac:(by apply N.div_lt)
    (String (pretty_N_char (x mod 10)) s)) as (d & Hgo & Hd & Hv).
  exists (d +:+ String (pretty_N_char (x mod 10)) ""). rewrite Hgo.
  destruct (digit_char (x mod 10)) as [Hdig Hval]; [by apply N.mod_lt|].
  split_and!.
  - by rewrite append_assoc.
  - rewrite all_digits_app, Hd. cbn. by rewrite Hdig.
  - rewrite digits_val_app, Hv. cbn [String.length]. unfold digits_val at 1. cbn -[N.div N.modulo].
    rewrite Hval. pose proof (N.div_mod x 10 ltac:(done)). lia.
Qed.

Lemma pretty_N_spec x :
  all_digits (pretty x) = true /\ digits_val (pretty x) = x /\ pretty x <> "".
Proof.
  unfold pretty, pretty_N. case_decide as Hx; [by subst|].
  destruct (pretty_N_go_digits x "") as (d & -> & Hd & Hv). rewrite append_nil_r.
  split_and!; [done..|]. intros ->. by cbn in Hv.
Qed.

Lemma pretty_nat_digits (n : nat) : all_digits (pretty n) = true /\ pretty n <> "".
Proof. destruct (pretty_N_spec (N.of_nat n)) as (? & _ & ?). done. Qed.

Lemma pretty_N_go_length (k : nat) x s : (x < 10 ^ N.of_nat k)%N ->
  (String.length (pretty_N_go x s) <= k + String.length s)%nat.
Proof.
  revert x s. induction k as [|k IH]; intros x s Hx.
  - cbn in Hx. replace x with 0%N by lia. by rewrite pretty_N_go_0.
  - assert (x = 0 \/ 0 < x)%N as [->|Hpos] by lia; [rewrite pretty_N_go_0; lia|].
    rewrite pretty_N_go_step by done. rewrite Nat2N.inj_succ, N.pow_succ_r' in Hx.
    specialize (IH (x / 10)%N (String (pretty_N_char (x mod 10)) s)
      ltac:(apply N.Div0.div_lt_upper_bound; lia)). cbn [String.length] in IH. lia.
Qed.

(** A number below [10 ^ k] prints in at most [k] digits. *)
Lemma pretty_N_length (k : nat) x : (1 <= k)%nat -> (x < 10 ^ N.of_nat k)%N ->
  (String.length (pretty x) <= k)%nat.
Proof.
  intros Hk Hx. unfold pretty, pretty_N. case_decide as Hz; [cbn; lia|].
  pose proof (pretty_N_go_length k x "" Hx). change (String.length "") with 0%nat in H. lia.
Qed.

(** [s.trim()] is empty: only white space and line terminators. *)
Definition isBlank (s : string) : bool :=
  forallb (fun c => let n := Ascii.N_of_ascii c in ((9 <=? n) && (n <=? 13) || (n =? 32) || (n =? 160))%N) (chars s).
