(* ===== verification/Scope.v ===== *)
(** Scope keys (runtime-lease-cache.ts, [encodeScope]): the length-prefixed encoding
    that every owner-scoped key of the Agent is built from, its injectivity, and the
    exactness of the prefix test that clears one owner's keys. *)

From S2P Require Import Prelude Decimal.
From Stdlib Require Import Ascii.
From Stdlib Require String.
Local Open Scope Z_scope.

Definition encodePart (part : string) : string :=
  pretty (String.length part) +:+ ":" +:+ part.

Definition encodeScope (parts : list string) : string :=
  String.concat "|" (map encodePart parts).

(** [key.startsWith(prefix)]. *)
Definition startsWith (p s : string) : bool := String.prefix p s.

Lemma encodeScope_cons p q ps :
  encodeScope (p :: q :: ps) = encodePart p +:+ "|" +:+ encodeScope (q :: ps).
Proof. done. Qed.

Lemma startsWith_spec p s : startsWith p s = true <-> exists t, s = p +:+ t.
Proof.
  unfold startsWith. revert s; induction p as [|c p IH]; intros s; cbn.
  - split; eauto. by destruct s.
  - destruct s as [|c' s]; cbn.
    + split; [done|]. by intros [t ?].
    + destruct (ascii_dec c c') as [->|Hne].
      * rewrite IH. split; intros [t Ht]; exists t; [by rewrite Ht|by injection Ht].
      * split; [done|]. intros [t [=]]. by destruct Hne.
Qed.

(** A numeral ends at the first [:]. *)
Lemma digits_colon_inj a b x y :
  all_digits a = true -> all_digits b = true ->
  a +:+ ":" +:+ x = b +:+ ":" +:+ y -> a = b /\ x = y.
Proof.
  revert b; induction a as [|c a IH]; intros [|d b] Ha Hb Heq; simpl in Heq.
  - by injection Heq.
  - injection Heq as <- _. discriminate Hb.
  - injection Heq as -> _. discriminate Ha.
  - injection Heq as -> Heq. apply andb_true_iff in Ha as [_ Ha]. apply andb_true_iff in Hb as [_ Hb].
    destruct (IH b Ha Hb Heq) as [-> ->]; auto.
Qed.

Lemma append_inj_len s s' t t' :
  String.length s = String.length s' -> s +:+ t = s' +:+ t' -> s = s' /\ t = t'.
Proof.
  intros Hl Heq. apply (f_equal chars) in Heq. rewrite !chars_app in Heq.
  rewrite <- !length_chars in Hl.
  apply app_inj_1 in Heq as [?%chars_inj ?%chars_inj]; done.
Qed.

(** The encoding of one component determines it and what follows. *)
Lemma encodePart_app_inj p q x y :
  encodePart p +:+ x = encodePart q +:+ y -> p = q /\ x = y.
Proof.
  unfold encodePart. rewrite !append_assoc. cbn [String.append].
  intros [Hn Hrest]%digits_colon_inj; [|apply pretty_nat_digits..].
  apply (inj pretty) in Hn. by apply append_inj_len.
Qed.

Lemma encodePart_nonempty p x : encodePart p +:+ x <> "".
Proof.
  unfold encodePart. destruct (pretty_nat_digits (String.length p)) as [_ Hne].
  by destruct (pretty (String.length p)).
Qed.

Lemma encodeScope_nonempty p ps : encodeScope (p :: ps) <> "".
Proof.
  destruct ps as [|q ps].
  - intros H. apply (encodePart_nonempty p ""). by rewrite append_nil_r.
  - rewrite encodeScope_cons. apply encodePart_nonempty.
Qed.

Lemma encodeScope_inj_aux ps qs : encodeScope ps = encodeScope qs -> ps = qs.
Proof.
  revert qs; induction ps as [|p ps IH]; intros qs Heq.
  - destruct qs; [done|]. by destruct (encodeScope_nonempty s qs).
  - destruct qs as [|q qs]; [by destruct (encodeScope_nonempty p ps)|].
    destruct ps as [|p' ps], qs as [|q' qs].
    + cbn in Heq. rewrite <- (append_nil_r (encodePart p)), <- (append_nil_r (encodePart q)) in Heq.
      by apply encodePart_app_inj in Heq as [-> _].
    + rewrite encodeScope_cons in Heq. cbn in Heq.
      rewrite <- (append_nil_r (encodePart p)) in Heq.
      by apply encodePart_app_inj in Heq as [_ ?].
    + rewrite encodeScope_cons in Heq. cbn in Heq.
      rewrite <- (append_nil_r (encodePart q)) in Heq.
      by apply encodePart_app_inj in Heq as [_ ?].
    + rewrite !encodeScope_cons in Heq. apply encodePart_app_inj in Heq as [-> Heq].
      injection Heq as Heq. by rewrite (IH (q' :: qs)).
Qed.

#[export] Instance encodeScope_inj : Inj (=) (=) encodeScope.
Proof. intros ps qs. apply encodeScope_inj_aux. Qed.

(** The test of [clearOwner]: [key === scope || key.startsWith(`${scope}|`)]. *)
Definition inOwnerScope (scope key : string) : bool :=
  String.eqb key scope || startsWith (scope +:+ "|") key.

Lemma startsWith_scope sc ps : sc <> [] ->
  startsWith (encodeScope sc +:+ "|") (encodeScope ps) = true <->
  exists p rest, ps = sc ++ p :: rest.
Proof.
  intros Hsc. rewrite startsWith_spec. split.
  - intros [t Ht]. revert ps Ht; induction sc as [|s sc IH]; intros ps Ht; [done|].
    rewrite append_assoc in Ht.
    destruct ps as [|p ps]; [by destruct (encodePart_nonempty s
      (match sc with [] => "|" +:+ t | q :: sc' => "|" +:+ encodeScope (q :: sc') +:+ "|" +:+ t end));
      destruct sc; rewrite ?encodeScope_cons, ?append_assoc in Ht|].
    destruct sc as [|s' sc].
    + destruct ps as [|p' ps].
      * cbn in Ht. rewrite <- (append_nil_r (encodePart p)) in Ht.
        by apply encodePart_app_inj in Ht as [_ ?].
      * rewrite encodeScope_cons in Ht. cbn [encodeScope] in Ht.
        apply encodePart_app_inj in Ht as [-> _]. by exists p', ps.
    + rewrite encodeScope_cons, append_assoc in Ht.
      destruct ps as [|p' ps].
      * cbn in Ht. rewrite <- (append_nil_r (encodePart p)) in Ht.
        by apply encodePart_app_inj in Ht as [_ ?].
      * rewrite encodeScope_cons in Ht. apply encodePart_app_inj in Ht as [-> Ht].
        injection Ht as Ht. rewrite <- append_assoc in Ht.
        destruct (IH ltac:(done) _ Ht) as (x & rest & ->). by exists x, rest.
  - intros (p & rest & ->). induction sc as [|s sc IH]; [done|].
    destruct sc as [|s' sc].
    + exists (encodeScope (p :: rest)). cbn [app]. rewrite encodeScope_cons. by rewrite append_assoc.
    + destruct (IH ltac:(done)) as [t Ht]. exists t. cbn [app] in *.
      rewrite !encodeScope_cons, Ht, !append_assoc. done.
Qed.

Lemma inOwnerScope_iff sc ps : sc <> [] ->
  inOwnerScope (encodeScope sc) (encodeScope ps) = true <-> exists rest, ps = sc ++ rest.
Proof.
  intros Hsc. unfold inOwnerScope. rewrite orb_true_iff, String.eqb_eq, startsWith_scope by done.
  split.
  - intros [->%(inj encodeScope)|(p & rest & ->)]; [exists []; by rewrite app_nil_r|eauto].
  - intros [[|p rest] ->]; [left; by rewrite app_nil_r|eauto].
Qed.

(** Two components, such as tenant and member, never collide with two others. *)
Lemma encodeScope_pair_inj t m t' m' :
  encodeScope [t; m] = encodeScope [t'; m'] -> t = t' /\ m = m'.
Proof. by intros [= -> ->]%(inj encodeScope). Qed.
