(* ===== verification/LeaseCache.v ===== *)
(** Runtime lease cache (runtime-lease-cache.ts, [RuntimeLeaseCache]).

    The cache keeps authorised runtime material in process memory.  Its state is three
    JavaScript maps; the clocks are explicit arguments, wall-clock readings in
    milliseconds and monotonic readings in nanoseconds.  [getOrLoad] is split at its two
    [await]s: [getOrLoad_begin] (the synchronous prefix), [operation_settle] (the
    continuation of [await loader()]) and [getOrLoad_finish] (the continuation of
    [await operation]); [step] lets every other call happen between them. *)

From S2P Require Import Prelude Decimal Scope.
Local Open Scope Z_scope.

Definition MAX_RUNTIME_LEASE_TTL_MS : Z := 300000.
Definition MAX_RUNTIME_LEASE_ENTRIES : Z := 128.
Definition NS_PER_MS : Z := 1000000.

(** [boundedLeaseTtl]: the shortest of the local bound, the user's token and the
    upstream lease; nothing when one of them is missing, infinite or already past. *)
Definition boundedLeaseTtl (now : num) (userJwtExpiresAt upstreamExpiresAt maxTtlMs : option num)
    : option Z :=
  match now, finite_of userJwtExpiresAt, finite_of upstreamExpiresAt with
  | Fin n, Some jwt, Some up =>
      let ttl := num_min (num_min (num_min
        (num_max (nullish maxTtlMs (Fin MAX_RUNTIME_LEASE_TTL_MS)) (Fin 1))
        (Fin MAX_RUNTIME_LEASE_TTL_MS)) (Fin (jwt - n))) (Fin (up - n)) in
      match ttl with
      | Fin t => if 0 <? t then Some t else None
      | _ => None
      end
  | _, _, _ => None
  end.

(** The value [expiryMillis] receives: a JSON number, a string with what [Date.parse]
    makes of it, or anything else. *)
Inductive expiry_value : Type :=
| ExpNumber (n : num)
| ExpString (parsed : num)
| ExpOther.

Definition expiryMillis (value : expiry_value) : option Z :=
  match value with
  | ExpNumber (Fin v) => Some (if 10000000000 <? v then v else v * 1000)
  | ExpString (Fin parsed) => Some parsed
  | _ => None
  end.

Section Cache.
Context {T E : Type}.

Record RuntimeLeaseCacheEntry : Type := mkEntry {
  e_key : string;
  e_value : T;
  loadedAt : Z;
  expiresAt : Z;
  ttlMs : Z;
  loadedMonotonic : Z;
  e_generation : Z;
}.

Record RuntimeLeasePutOptions : Type := mkPutOptions {
  po_now : option num;
  po_userJwtExpiresAt : option num;
  po_upstreamExpiresAt : option num;
  po_maxTtlMs : option num;
  po_loadedMonotonic : option Z;
}.

(** Constructor options of the cache. *)
Record CacheOptions : Type := mkCacheOptions {
  co_maxEntries : option num;
  co_maxTtlMs : option num;
}.

Record RuntimeLeaseCache : Type := mkCache {
  entries : list (string * RuntimeLeaseCacheEntry);
  generations : list (string * Z);
  pending : list (string * nat);
}.

Definition emptyCache : RuntimeLeaseCache := mkCache [] [] [].

(** One reading of the wall clock and of the monotonic clock. *)
Record Clock : Type := mkClock { wall : Z; mono : Z }.

Definition generation (c : RuntimeLeaseCache) (key : string) : Z :=
  nullish (mget key (generations c)) 0.

Definition get (c : RuntimeLeaseCache) (key : string) (t : Clock)
    : RuntimeLeaseCache * option RuntimeLeaseCacheEntry :=
  match mget key (entries c) with
  | None => (c, None)
  | Some entry =>
      if negb (e_generation entry =? generation c key) || (expiresAt entry <=? wall t)
         || (ttlMs entry * NS_PER_MS <=? mono t - loadedMonotonic entry)
      then (mkCache (mdelete key (entries c)) (generations c) (pending c), None)
      else (mkCache (mrefresh key entry (entries c)) (generations c) (pending c), Some entry)
  end.

(** [evict]: drop oldest entries while there are more than the clamped maximum. *)
Definition evictMax (o : CacheOptions) : num :=
  num_min (num_max (nullish (co_maxEntries o) (Fin MAX_RUNTIME_LEASE_ENTRIES)) (Fin 1))
    (Fin MAX_RUNTIME_LEASE_ENTRIES).

Fixpoint evict (max : num) (m : list (string * RuntimeLeaseCacheEntry)) :=
  if Zgt_num (Z.of_nat (length m)) max
  then match m with [] => [] | _ :: m => evict max m end
  else m.

Definition put (o : CacheOptions) (c : RuntimeLeaseCache) (key : string) (value : T)
    (po : RuntimeLeasePutOptions) (t : Clock)
    : RuntimeLeaseCache * option RuntimeLeaseCacheEntry :=
  let now := nullish (po_now po) (Fin (wall t)) in
  match finite_of (po_upstreamExpiresAt po), finite_of (po_userJwtExpiresAt po) with
  | Some _, Some _ =>
      match now, boundedLeaseTtl now (po_userJwtExpiresAt po) (po_upstreamExpiresAt po)
              (match po_maxTtlMs po with Some m => Some m | None => co_maxTtlMs o end) with
      | Fin n, Some ttl =>
          let entry := mkEntry key value n (n + ttl) ttl
            (nullish (po_loadedMonotonic po) (mono t)) (generation c key) in
          (mkCache (evict (evictMax o) (mrefresh key entry (entries c)))
             (generations c) (pending c), Some entry)
      | _, _ => (c, None)
      end
  | _, _ => (c, None)
  end.

Definition bump (c : RuntimeLeaseCache) (key : string) : list (string * Z) :=
  mset key (generation c key + 1) (generations c).

Definition clear (c : RuntimeLeaseCache) (key : string) : RuntimeLeaseCache :=
  mkCache (mdelete key (entries c)) (bump c key) (mdelete key (pending c)).

(** [new Set([...entries.keys(), ...generations.keys(), ...pending.keys()])]; [clearAll]
    builds the same set with its three parts in another order, which nothing observes. *)
Definition knownKeys (c : RuntimeLeaseCache) : list string :=
  remove_dups (mkeys (entries c) ++ mkeys (generations c) ++ mkeys (pending c)).

Definition clearOwner (c : RuntimeLeaseCache) (scope : string) : RuntimeLeaseCache :=
  fold_left (fun c key => if inOwnerScope scope key then clear c key else c) (knownKeys c) c.

Definition clearAll (c : RuntimeLeaseCache) : RuntimeLeaseCache :=
  fold_left (fun c key => mkCache (entries c) (bump c key) (pending c)) (knownKeys c)
    (mkCache [] (generations c) []).

(** *** [getOrLoad] *)

Record LoadOptions : Type := mkLoadOptions {
  allowReuseOnFailure : bool;
  forceRefresh : bool;
  isDenial : option (E -> bool);
  isRetryableFailure : option (E -> bool);
}.

(** What the initiating call captures before it awaits the loader. *)
Record Operation : Type := mkOperation {
  op_id : nat;
  op_key : string;
  op_generation : Z;
  op_loadedAt : Z;
  op_loadedMonotonic : Z;
  op_fallback : option T;
  op_options : LoadOptions;
}.

Inductive load_error : Type :=
| LoaderError (e : E)
| RuntimeLeaseInvalidatedError.

Inductive begin_result : Type :=
| Hit (value : T)
| Join (id : nat)
| Started (op : Operation).

Definition getOrLoad_begin (c : RuntimeLeaseCache) (key : string) (opts : LoadOptions)
    (id : nat) (tget tload : Clock) : RuntimeLeaseCache * begin_result :=
  let (c, cached) := get c key tget in
  match cached, forceRefresh opts with
  | Some e, false => (c, Hit (e_value e))
  | _, _ =>
      match mget key (pending c) with
      | Some p => (c, Join p)
      | None =>
          let op := mkOperation id key (generation c key) (wall tload) (mono tload)
                      (e_value <$> cached) opts in
          (mkCache (entries c) (generations c) (mset key id (pending c)), Started op)
      end
  end.

Definition mayReuse (opts : LoadOptions) (e : E) : bool :=
  allowReuseOnFailure opts && match isRetryableFailure opts with None => true | Some f => f e end.

Definition operation_settle (c : RuntimeLeaseCache) (op : Operation) (r : result E T) (t : Clock)
    : RuntimeLeaseCache * result load_error T :=
  match r with
  | Ok v => (c, Ok v)
  | Err e =>
      if match isDenial (op_options op) with Some f => f e | None => false end
      then (clear c (op_key op), Err (LoaderError e))
      else if negb (generation c (op_key op) =? op_generation op)
      then (c, Err RuntimeLeaseInvalidatedError)
      else if mayReuse (op_options op) e
      then match op_fallback op with
           | Some v => (c, Ok v)
           | None => let (c, current) := get c (op_key op) t in
               match current with
               | Some cur => (c, Ok (e_value cur))
               | None => (c, Err (LoaderError e))
               end
           end
      else (c, Err (LoaderError e))
  end.

(** The [finally] of [getOrLoad]. *)
Definition detach (c : RuntimeLeaseCache) (op : Operation) : RuntimeLeaseCache :=
  if bool_decide (mget (op_key op) (pending c) = Some (op_id op))
  then mkCache (entries c) (generations c) (mdelete (op_key op) (pending c))
  else c.

Definition withLoadedMonotonic (po : RuntimeLeasePutOptions) (m : Z) : RuntimeLeasePutOptions :=
  mkPutOptions (po_now po) (po_userJwtExpiresAt po) (po_upstreamExpiresAt po) (po_maxTtlMs po) (Some m).

Definition getOrLoad_finish (o : CacheOptions) (c : RuntimeLeaseCache) (op : Operation)
    (r : result load_error T) (putOptions : T -> Z -> RuntimeLeasePutOptions) (t : Clock)
    : RuntimeLeaseCache * result load_error T :=
  match r with
  | Err e => (detach c op, Err e)
  | Ok value =>
      if negb (generation c (op_key op) =? op_generation op)
      then (detach c op, Err RuntimeLeaseInvalidatedError)
      else
        let c' := (put o c (op_key op) value
          (withLoadedMonotonic (putOptions value (op_loadedAt op)) (op_loadedMonotonic op)) t).1 in
        (detach c' op, Ok value)
  end.

(** *** The cache among concurrent callers *)

(** Operations that have started and whose initiating call has not returned. *)
Record World : Type := mkWorld {
  w_cache : RuntimeLeaseCache;
  w_live : list Operation;
}.

Inductive step (o : CacheOptions) : World -> World -> Prop :=
| StepGet c ops key t :
    step o (mkWorld c ops) (mkWorld (get c key t).1 ops)
| StepPut c ops key v po t :
    step o (mkWorld c ops) (mkWorld (put o c key v po t).1 ops)
| StepClear c ops key :
    step o (mkWorld c ops) (mkWorld (clear c key) ops)
| StepClearOwner c ops scope :
    step o (mkWorld c ops) (mkWorld (clearOwner c scope) ops)
| StepClearAll c ops :
    step o (mkWorld c ops) (mkWorld (clearAll c) ops)
| StepBegin c ops key opts id t1 t2 c' r :
    id ∉ op_id <$> ops ->
    getOrLoad_begin c key opts id t1 t2 = (c', r) ->
    step o (mkWorld c ops)
      (mkWorld c' (match r with Started op => op :: ops | _ => ops end))
| StepSettle c ops op r t :
    op ∈ ops ->
    step o (mkWorld c ops) (mkWorld (operation_settle c op r t).1 ops)
| StepFinish c ops1 ops2 op r putOptions t :
    step o (mkWorld c (ops1 ++ op :: ops2))
      (mkWorld (getOrLoad_finish o c op r putOptions t).1 (ops1 ++ ops2)).

Definition initialWorld : World := mkWorld emptyCache [].

Definition reachable (o : CacheOptions) (w : World) : Prop := rtc (step o) initialWorld w.

(** ** Facts about the single operations *)

Implicit Types (c : RuntimeLeaseCache) (key k : string) (op : Operation) (w : World).

Lemma boundedLeaseTtl_Some now jwt up mx t :
  boundedLeaseTtl now jwt up mx = Some t ->
  exists n j u, now = Fin n /\ jwt = Some (Fin j) /\ up = Some (Fin u) /\
    0 < t <= MAX_RUNTIME_LEASE_TTL_MS /\ n + t <= j /\ n + t <= u /\
    (forall m, mx = Some (Fin m) -> t <= Z.max m 1).
Proof.
  unfold boundedLeaseTtl, finite_of, nullish. intros H.
  destruct now as [n| | |], jwt as [[j| | |]|], up as [[u| | |]|]; try done.
  exists n, j, u.
  destruct mx as [[m| | |]|]; cbn in H; split_ifs_in H; split_and!; try done; try lia;
    unfold MAX_RUNTIME_LEASE_TTL_MS in *; try lia; intros; simplify_eq; lia.
Qed.

Lemma get_Some c key t c' e : get c key t = (c', Some e) ->
  mget key (entries c) = Some e /\ e_generation e = generation c key /\
  wall t < expiresAt e /\ mono t - loadedMonotonic e < ttlMs e * NS_PER_MS.
Proof.
  unfold get. destruct (mget key (entries c)) as [e'|] eqn:He; [|done].
  split_ifs; intros; simplify_eq; auto.
Qed.

Lemma get_generations c key t : generations (get c key t).1 = generations c.
Proof. unfold get. split_ifs. Qed.

Lemma get_pending c key t : pending (get c key t).1 = pending c.
Proof. unfold get. split_ifs. Qed.

Lemma put_generations o c key v po t : generations (put o c key v po t).1 = generations c.
Proof. unfold put. split_ifs. Qed.

Lemma put_pending o c key v po t : pending (put o c key v po t).1 = pending c.
Proof. unfold put. split_ifs. Qed.

Lemma generation_clear c key k :
  generation (clear c key) k = generation c k + (if String.eqb k key then 1 else 0).
Proof.
  unfold generation, clear, bump; cbn. rewrite mget_mset.
  unfold generation, nullish. destruct (String.eqb_spec k key) as [->|]; cbn; lia.
Qed.

Lemma pending_clear c key k :
  mget k (pending (clear c key)) = if String.eqb k key then None else mget k (pending c).
Proof. apply mget_mdelete. Qed.

Lemma entries_clear c key k :
  mget k (entries (clear c key)) = if String.eqb k key then None else mget k (entries c).
Proof. apply mget_mdelete. Qed.

Lemma NoDup_evict max m : NoDup (mkeys m) -> NoDup (mkeys (evict max m)).
Proof.
  induction m as [|[k e] m IH]; cbn [evict].
  - by case_match.
  - case_match; [|done]. intros [_ ?]%NoDup_cons; auto.
Qed.

Lemma evict_subset max m x : x ∈ evict max m -> x ∈ m.
Proof.
  induction m as [|[k e] m IH]; cbn [evict]; case_match; auto. intros; right; auto.
Qed.

Lemma evict_length max m : 1 <= max -> Z.of_nat (length (evict (Fin max) m)) <= max.
Proof.
  intros Hm; induction m as [|[k e] m IH]; cbn [evict]; cbn -[Z.of_nat] in *;
    case_match; boolify; try done; cbn -[Z.of_nat]; lia.
Qed.

(** The while loop of [evict] keeps the newest entries. *)
Lemma evict_drop max m : 0 <= max ->
  evict (Fin max) m = drop (length m - Z.to_nat max) m.
Proof.
  intros Hm; induction m as [|[k e] m IH]; cbn [evict]; cbn -[Z.of_nat] in *;
    case_match; boolify; try done.
  - rewrite IH. replace (S (length m) - Z.to_nat max)%nat with (S (length m - Z.to_nat max)) by lia.
    done.
  - replace (S (length m) - Z.to_nat max)%nat with 0%nat by lia. done.
Qed.

(** ** The invariant of reachable caches *)

Definition entry_ok c (x : string * RuntimeLeaseCacheEntry) : Prop :=
  e_key x.2 = x.1 /\ expiresAt x.2 = loadedAt x.2 + ttlMs x.2 /\
  0 < ttlMs x.2 <= MAX_RUNTIME_LEASE_TTL_MS /\ e_generation x.2 <= generation c x.1.

Definition cache_ok (o : CacheOptions) c : Prop :=
  NoDup (mkeys (entries c)) /\
  (forall x, x ∈ entries c -> entry_ok c x) /\
  (forall m, evictMax o = Fin m -> Z.of_nat (length (entries c)) <= m).

(** A live operation either is the pending one of its key or is already stale. *)
Definition op_ok c op : Prop :=
  op_generation op <= generation c (op_key op) /\
  (mget (op_key op) (pending c) = Some (op_id op) \/ op_generation op < generation c (op_key op)).

Definition world_ok (o : CacheOptions) w : Prop :=
  cache_ok o (w_cache w) /\ NoDup (op_id <$> w_live w) /\
  forall op, op ∈ w_live w -> op_ok (w_cache w) op.

Lemma evictMax_pos o m : evictMax o = Fin m -> 1 <= m <= MAX_RUNTIME_LEASE_ENTRIES.
Proof.
  unfold evictMax, nullish, MAX_RUNTIME_LEASE_ENTRIES.
  destruct (co_maxEntries o) as [[z| | |]|]; cbn; intros; simplify_eq; lia.
Qed.

(** The invariant survives any change that keeps a duplicate-free subset of the
    entries and never lowers a generation. *)
Lemma cache_ok_mono o c c' :
  cache_ok o c -> NoDup (mkeys (entries c')) ->
  (forall x, x ∈ entries c' -> x ∈ entries c) ->
  (length (entries c') <= length (entries c))%nat ->
  (forall k, generation c k <= generation c' k) ->
  cache_ok o c'.
Proof.
  intros (Hd & He & Hl) Hd' Hsub Hlen Hgen. split_and!; [done| |].
  - intros x Hx%Hsub%He. unfold entry_ok in *. specialize (Hgen x.1). naive_solver lia.
  - intros m Hm%Hl. lia.
Qed.

Lemma op_ok_mono c c' op :
  op_ok c op -> mget (op_key op) (pending c') = mget (op_key op) (pending c) \/
                generation c (op_key op) < generation c' (op_key op) ->
  generation c (op_key op) <= generation c' (op_key op) -> op_ok c' op.
Proof. intros [Hle Hp] Hpend Hgen. split; [lia|]. destruct Hpend as [->|]; [|right; lia]. naive_solver lia. Qed.

Lemma get_generation c key t k : generation (get c key t).1 k = generation c k.
Proof. unfold generation. by rewrite get_generations. Qed.

Lemma put_generation o c key v po t k : generation (put o c key v po t).1 k = generation c k.
Proof. unfold generation. by rewrite put_generations. Qed.

Lemma get_cache_ok o c key t : cache_ok o c -> cache_ok o (get c key t).1.
Proof.
  intros Hc. pose proof Hc as (Hd & _ & _). unfold get.
  destruct (mget key (entries c)) as [e|] eqn:He; [|done]. case_match; cbn -[mrefresh].
  - eapply cache_ok_mono; cbn; [done|by apply NoDup_mdelete|intros x; apply mdelete_subset| |done].
    apply length_mdelete.
  - eapply cache_ok_mono; cbn -[mrefresh]; [done|by apply NoDup_mrefresh| | |done].
    + intros x. rewrite mrefresh_app, elem_of_app. intros [?%mdelete_subset|Hx]; [done|].
      apply list_elem_of_singleton in Hx as ->. by apply mget_In.
    + rewrite mrefresh_app, length_app; cbn. pose proof (length_mdelete_present _ _ _ He). lia.
Qed.

Lemma put_cache_ok o c key v po t : cache_ok o c -> cache_ok o (put o c key v po t).1.
Proof.
  intros (Hd & He & Hl). unfold put.
  destruct (finite_of (po_upstreamExpiresAt po)); [|done].
  destruct (finite_of (po_userJwtExpiresAt po)); [|done].
  destruct (nullish (po_now po) _) as [n| | |]; try done.
  destruct (boundedLeaseTtl _ _ _ _) as [ttl|] eqn:Httl; [|done].
  apply boundedLeaseTtl_Some in Httl as (n' & j & u & [= <-] & _ & _ & Ht & _).
  split_and!; cbn -[mrefresh].
  - by apply NoDup_evict, NoDup_mrefresh.
  - intros x Hx%evict_subset. rewrite mrefresh_app, elem_of_app in Hx.
    destruct Hx as [Hx%mdelete_subset%He|Hx]; [done|].
    apply list_elem_of_singleton in Hx as ->. unfold entry_ok; cbn.
    split_and!; [done|done|lia|lia|apply Z.le_refl].
  - intros m Hm. rewrite Hm. apply evict_length. apply evictMax_pos in Hm; lia.
Qed.

Lemma clear_cache_ok o c key : cache_ok o c -> cache_ok o (clear c key).
Proof.
  intros Hc. pose proof Hc as (Hd & _ & _). eapply cache_ok_mono; [done|..].
  - by apply NoDup_mdelete.
  - intros x. apply mdelete_subset.
  - apply length_mdelete.
  - intros k. rewrite generation_clear. case_match; lia.
Qed.

Lemma clear_op_ok c key op : op_ok c op -> op_ok (clear c key) op.
Proof.
  intros Hop. apply (op_ok_mono c); rewrite ?generation_clear, ?pending_clear;
    destruct (String.eqb (op_key op) key); auto with lia.
Qed.

(** *** The two loops *)

Lemma NoDup_knownKeys c : NoDup (knownKeys c).
Proof. apply NoDup_remove_dups. Qed.

Lemma elem_of_knownKeys c k :
  k ∈ knownKeys c <->
  (exists e, mget k (entries c) = Some e) \/ (exists g, mget k (generations c) = Some g) \/
  (exists p, mget k (pending c) = Some p).
Proof. unfold knownKeys. by rewrite elem_of_remove_dups, !elem_of_app, !elem_of_mkeys. Qed.

Lemma unknown_key c k : k ∉ knownKeys c ->
  mget k (entries c) = None /\ generation c k = 0 /\ mget k (pending c) = None.
Proof.
  rewrite elem_of_knownKeys. unfold generation.
  destruct (mget k (entries c)), (mget k (generations c)), (mget k (pending c)); naive_solver.
Qed.

Lemma fold_clear P keys c k : NoDup keys ->
  let c' := fold_left (fun c key => if (P key : bool) then clear c key else c) keys c in
  generation c' k = generation c k + (if P k && bool_decide (k ∈ keys) then 1 else 0) /\
  (mget k (entries c') = if P k && bool_decide (k ∈ keys) then None else mget k (entries c)) /\
  (mget k (pending c') = if P k && bool_decide (k ∈ keys) then None else mget k (pending c)).
Proof.
  revert c; induction keys as [|key keys IH]; intros c Hd; cbn.
  { rewrite bool_decide_eq_false_2 by apply not_elem_of_nil. rewrite andb_false_r. auto with lia. }
  apply NoDup_cons in Hd as [Hkey Hd].
  destruct (IH (if P key then clear c key else c) Hd) as (-> & -> & ->).
  destruct (decide (k = key)) as [->|Hne].
  - rewrite (bool_decide_eq_false_2 (key ∈ keys)) by done.
    rewrite (bool_decide_eq_true_2 (key ∈ key :: keys)) by (by left).
    rewrite andb_false_r, andb_true_r. destruct (P key); [|auto].
    by rewrite generation_clear, entries_clear, pending_clear, String.eqb_refl, Z.add_0_r.
  - rewrite (bool_decide_ext (k ∈ key :: keys) (k ∈ keys)) by set_solver.
    destruct (P key); [|auto].
    rewrite generation_clear, entries_clear, pending_clear.
    apply String.eqb_neq in Hne as ->. rewrite Z.add_0_r. auto.
Qed.

Lemma clearOwner_spec c scope k :
  generation (clearOwner c scope) k =
    generation c k + (if inOwnerScope scope k && bool_decide (k ∈ knownKeys c) then 1 else 0) /\
  (mget k (entries (clearOwner c scope)) = if inOwnerScope scope k then None else mget k (entries c)) /\
  (mget k (pending (clearOwner c scope)) = if inOwnerScope scope k then None else mget k (pending c)).
Proof.
  destruct (fold_clear (inOwnerScope scope) (knownKeys c) c k (NoDup_knownKeys c)) as (? & He & Hp).
  split_and!; [done|..]; unfold clearOwner; [rewrite He|rewrite Hp];
    destruct (inOwnerScope scope k); try done; cbn;
    case_bool_decide as Hk; try done; apply unknown_key in Hk as (? & _ & ?); done.
Qed.

Lemma fold_bump keys c k : NoDup keys ->
  let c' := fold_left (fun c key => mkCache (entries c) (bump c key) (pending c)) keys c in
  generation c' k = generation c k + (if bool_decide (k ∈ keys) then 1 else 0) /\
  entries c' = entries c /\ pending c' = pending c.
Proof.
  revert c; induction keys as [|key keys IH]; intros c Hd; cbn.
  { rewrite bool_decide_eq_false_2 by apply not_elem_of_nil. auto with lia. }
  apply NoDup_cons in Hd as [Hkey Hd].
  destruct (IH (mkCache (entries c) (bump c key) (pending c)) Hd) as (-> & -> & ->).
  split_and!; [|done..]. change (generation (mkCache _ _ _) k) with (generation (clear c key) k).
  rewrite generation_clear. destruct (String.eqb_spec k key) as [->|Hne].
  - rewrite (bool_decide_eq_false_2 (key ∈ keys)) by done.
    rewrite (bool_decide_eq_true_2 (key ∈ key :: keys)) by (by left). lia.
  - rewrite (bool_decide_ext (k ∈ key :: keys) (k ∈ keys)) by set_solver. lia.
Qed.

Lemma clearAll_spec c k :
  generation (clearAll c) k = generation c k + (if bool_decide (k ∈ knownKeys c) then 1 else 0) /\
  entries (clearAll c) = [] /\ pending (clearAll c) = [].
Proof.
  apply (fold_bump (knownKeys c) (mkCache [] (generations c) []) k), NoDup_knownKeys.
Qed.

Lemma clearOwner_cache_ok o c scope : cache_ok o c -> cache_ok o (clearOwner c scope).
Proof.
  unfold clearOwner. generalize (knownKeys c) as keys. intros keys; revert c.
  induction keys as [|key keys IH]; intros c Hc; [done|].
  cbn [fold_left]. apply IH. case_match; [by apply clear_cache_ok|done].
Qed.

Lemma clearOwner_op_ok c scope op : op_ok c op -> op_ok (clearOwner c scope) op.
Proof.
  unfold clearOwner. generalize (knownKeys c) as keys. intros keys; revert c.
  induction keys as [|key keys IH]; intros c Hc; [done|].
  cbn [fold_left]. apply IH. case_match; [by apply clear_op_ok|done].
Qed.

Lemma clearAll_cache_ok o c : cache_ok o c -> cache_ok o (clearAll c).
Proof.
  intros Hc. eapply cache_ok_mono; [done|..|intros k; destruct (clearAll_spec c k) as (-> & _); case_match; lia];
    destruct (clearAll_spec c "") as (_ & -> & _); cbn; [constructor|set_solver|lia].
Qed.

(** A live operation's key is always among those [clearAll] visits. *)
Lemma clearAll_op_ok c op : op_ok c op -> op_ok (clearAll c) op.
Proof.
  intros [Hle Hp]. destruct (clearAll_spec c (op_key op)) as (Hg & _ & _). split.
  - rewrite Hg. case_match; lia.
  - right. rewrite Hg. case_bool_decide as Hk; [lia|].
    apply unknown_key in Hk as (_ & Hg0 & Hp0). destruct Hp as [Hp|?]; [congruence|lia].
Qed.

(** *** Steps preserve the invariant *)

Lemma op_ok_same c c' op :
  generations c' = generations c -> pending c' = pending c -> op_ok c op -> op_ok c' op.
Proof. unfold op_ok, generation. by intros -> ->. Qed.

Lemma begin_cases c key opts id t1 t2 c' r :
  getOrLoad_begin c key opts id t1 t2 = (c', r) ->
  (c' = (get c key t1).1 /\ forall op, r <> Started op) \/
  exists op, r = Started op /\ op_id op = id /\ op_key op = key /\ op_generation op = generation c key /\
    mget key (pending c) = None /\
    c' = mkCache (entries (get c key t1).1) (generations c) (mset key id (pending c)).
Proof.
  unfold getOrLoad_begin. destruct (get c key t1) as [c1 cached] eqn:Hg.
  assert (generations c1 = generations c /\ pending c1 = pending c) as [Hgen Hpend]
    by (by rewrite <- (get_generations c key t1), <- (get_pending c key t1), Hg).
  rewrite Hpend, Hgen.
  destruct cached as [e|], (forceRefresh opts), (mget key (pending c)) eqn:Hp; intros [= <- <-]; eauto;
    right; eexists; repeat split; cbn; unfold generation; by rewrite Hgen.
Qed.

Lemma settle_cases c op r t :
  (exists k, (operation_settle c op r t).1 = clear c k) \/
  (operation_settle c op r t).1 = c \/ (operation_settle c op r t).1 = (get c (op_key op) t).1.
Proof.
  unfold operation_settle. destruct r; [auto|].
  repeat (case_match; cbn; eauto). all: right; right; match goal with H : get _ _ _ = _ |- _ => by rewrite H end.
Qed.

Lemma finish_cases o c op r putOptions t :
  (exists po v, op_generation op = generation c (op_key op) /\ r = Ok v /\
     getOrLoad_finish o c op r putOptions t = (detach (put o c (op_key op) v po t).1 op, Ok v)) \/
  (exists e, getOrLoad_finish o c op r putOptions t = (detach c op, Err e)).
Proof.
  unfold getOrLoad_finish. destruct r as [v|e]; [|eauto].
  case_match; boolify; [eauto|]. left. by eexists _, v.
Qed.

Lemma detach_cache_ok o c op : cache_ok o c -> cache_ok o (detach c op).
Proof. unfold detach. case_match; done. Qed.

Lemma detach_op_ok c op op' : op_id op <> op_id op' -> op_ok c op' -> op_ok (detach c op) op'.
Proof.
  intros Hne Hop. unfold detach. case_bool_decide as Hp; [|done].
  destruct Hop as [Hle Hp']. split; [done|]. destruct Hp' as [Hp'|?]; [|by right].
  left; cbn. rewrite mget_mdelete. destruct (String.eqb_spec (op_key op') (op_key op)) as [Hk|]; [|done].
  rewrite Hk in Hp'. congruence.
Qed.

Lemma finish_ok o c op r putOptions t : cache_ok o c ->
  let c' := (getOrLoad_finish o c op r putOptions t).1 in
  cache_ok o c' /\ forall op', op_id op <> op_id op' -> op_ok c op' -> op_ok c' op'.
Proof.
  intros Hc. destruct (finish_cases o c op r putOptions t) as [(po & v & _ & _ & ->)|(e & ->)]; cbn.
  - split; [by apply detach_cache_ok, put_cache_ok|]. intros op' ? Hop'. apply detach_op_ok; [done|].
    eapply op_ok_same; [apply put_generations|apply put_pending|done].
  - split; [by apply detach_cache_ok|]. intros; by apply detach_op_ok.
Qed.

Lemma begin_world_ok o c ops key opts id t1 t2 c' r :
  world_ok o (mkWorld c ops) -> id ∉ op_id <$> ops ->
  getOrLoad_begin c key opts id t1 t2 = (c', r) ->
  world_ok o (mkWorld c' (match r with Started op => op :: ops | _ => ops end)).
Proof.
  intros (Hc & Hd & Hops) Hid [[-> Hr]|(op & -> & Hoid & Hok & Hog & Hp & ->)]%begin_cases; cbn in *.
  - replace (match r with Started op => op :: ops | _ => ops end) with ops
      by (destruct r; try done; by destruct (Hr op)).
    split_and!; [by apply get_cache_ok|done|].
    intros op Hop%Hops. eapply op_ok_same; [by apply get_generations|by apply get_pending|done].
  - split_and!; cbn.
    + destruct (get_cache_ok o c key t1 Hc) as (? & He & ?). split_and!; [done| |done].
      intros x Hx%He. unfold entry_ok, generation in *. by rewrite get_generations in Hx.
    + apply NoDup_cons. by rewrite Hoid.
    + intros op' [->|Hop']%elem_of_cons.
      * subst key id. split; [rewrite Hog; apply Z.le_refl|].
        left; cbn. by rewrite mget_mset_eq.
      * destruct (Hops op' Hop') as [Hle Hpd]. split; [done|]; cbn.
        rewrite mget_mset. destruct (String.eqb_spec (op_key op') key) as [Hk|]; [|done].
        right. destruct Hpd as [Hpd|?]; [rewrite Hk in Hpd; congruence|done].
Qed.

Lemma step_world_ok o w w' : world_ok o w -> step o w w' -> world_ok o w'.
Proof.
  intros Hw Hs; destruct Hs as
    [c ops key t|c ops key v po t|c ops key|c ops scope|c ops|c ops key opts id t1 t2 c' r Hid Hb
    |c ops op r t Hop|c ops1 ops2 op r putOptions t]; pose proof Hw as (Hc & Hd & Hops); cbn in *.
  - split_and!; [by apply get_cache_ok|done|]. intros op Hop%Hops.
    eapply op_ok_same; [apply get_generations|apply get_pending|done].
  - split_and!; [by apply put_cache_ok|done|]. intros op Hop%Hops.
    eapply op_ok_same; [apply put_generations|apply put_pending|done].
  - split_and!; [by apply clear_cache_ok|done|]. intros; by apply clear_op_ok, Hops.
  - split_and!; [by apply clearOwner_cache_ok|done|]. intros; by apply clearOwner_op_ok, Hops.
  - split_and!; [by apply clearAll_cache_ok|done|]. intros; by apply clearAll_op_ok, Hops.
  - by eapply begin_world_ok.
  - split_and!; cbn; [|done|]; destruct (settle_cases c op r t) as [[k ->]|[->| ->]];
      auto using clear_cache_ok, get_cache_ok, clear_op_ok.
    intros op' Hop'%Hops. eapply op_ok_same; [apply get_generations|apply get_pending|done].
  - rewrite fmap_app in Hd; cbn in Hd.
    assert (Hne : forall op', op' ∈ ops1 ++ ops2 -> op_id op <> op_id op').
    { apply NoDup_app in Hd as (_ & H1 & [H2 _]%NoDup_cons). intros op' [Hx|Hx]%elem_of_app He.
      - apply (H1 (op_id op')); [by apply list_elem_of_fmap_2|rewrite He; left].
      - apply H2. rewrite He. by apply list_elem_of_fmap_2. }
    assert (Hops' : forall op', op' ∈ ops1 ++ ops2 -> op_ok c op') by (intros; apply Hops; set_solver).
    destruct (finish_ok o c op r putOptions t Hc) as [Hc' Hops'']. split_and!; cbn; [done| |auto].
    rewrite fmap_app. eapply sublist_NoDup; [done|]. apply sublist_app; [done|by apply sublist_cons].
Qed.

Lemma reachable_ok o w : reachable o w -> world_ok o w.
Proof.
  intros Hr. pattern w; eapply rtc_ind_r; [| |exact Hr].
  - split_and!; cbn; [|constructor|set_solver].
    split_and!; cbn; [constructor|set_solver|]. intros m Hm%evictMax_pos. lia.
  - intros w1 w2 _ Hs Hw. by eapply step_world_ok.
Qed.

(** Generations only grow. *)
Lemma step_generation o w w' k :
  step o w w' -> generation (w_cache w) k <= generation (w_cache w') k.
Proof.
  destruct 1 as
    [c ops key t|c ops key v po t|c ops key|c ops scope|c ops|c ops key opts id t1 t2 c' r Hid Hb
    |c ops op r t Hop|c ops1 ops2 op r putOptions t]; cbn [w_cache].
  - by rewrite get_generation.
  - by rewrite put_generation.
  - rewrite generation_clear. case_match; lia.
  - destruct (clearOwner_spec c scope k) as (-> & _). case_match; lia.
  - destruct (clearAll_spec c k) as (-> & _). case_match; lia.
  - apply begin_cases in Hb as [[-> _]|(op & _ & _ & _ & _ & _ & ->)]; [by rewrite get_generation|].
    apply Z.le_refl.
  - destruct (settle_cases c op r t) as [[key ->]|[->| ->]]; rewrite ?generation_clear, ?get_generation;
      [case_match; lia|lia..].
  - assert (Hd : forall c1, generation (detach c1 op) k = generation c1 k)
      by (intros; unfold detach; by case_match).
    destruct (finish_cases o c op r putOptions t) as [(po & v & _ & _ & ->)|(e & ->)];
      cbn [fst]; by rewrite Hd, ?put_generation.
Qed.

Lemma steps_generation o w w' k :
  rtc (step o) w w' -> generation (w_cache w) k <= generation (w_cache w') k.
Proof.
  induction 1 as [|w1 w2 w3 Hs _ IH]; [lia|]. pose proof (step_generation o w1 w2 k Hs). lia.
Qed.

(** *** What the cache promises *)

(** The three ways material is revoked. *)
Inductive revoked (c : RuntimeLeaseCache) (key : string) : RuntimeLeaseCache -> Prop :=
| RevokedKey : revoked c key (clear c key)
| RevokedOwner scope : inOwnerScope scope key = true -> revoked c key (clearOwner c scope)
| RevokedAll : revoked c key (clearAll c).

Lemma revoked_stale c op c' : op_ok c op -> revoked c (op_key op) c' ->
  op_generation op < generation c' (op_key op).
Proof.
  intros [Hle Hp] [|scope Hs|].
  - rewrite generation_clear, String.eqb_refl. lia.
  - destruct (clearOwner_spec c scope (op_key op)) as (-> & _). rewrite Hs; cbn.
    case_bool_decide as Hk; [lia|]. apply unknown_key in Hk as (_ & ? & ?).
    destruct Hp; [congruence|lia].
  - destruct (clearAll_op_ok c op (conj Hle Hp)) as [_ [Hx|?]]; [|lia].
    destruct (clearAll_spec c (op_key op)) as (_ & _ & Hnil). by rewrite Hnil in Hx.
Qed.

(** C7. Sign-out and revocation win over loads in flight: once a key has been cleared,
    by [clear], by [clearOwner] on a scope containing it or by [clearAll], no operation
    that was started before can store its response, whatever happens in between and
    whatever the loader answers; its caller gets an error. *)
Theorem inflight_load_cannot_repopulate (o : CacheOptions) c ops op c' w' r putOptions t :
  reachable o (mkWorld c ops) -> op ∈ ops -> revoked c (op_key op) c' ->
  rtc (step o) (mkWorld c' ops) w' ->
  let (c2, res) := getOrLoad_finish o (w_cache w') op r putOptions t in
  entries c2 = entries (w_cache w') /\ exists e, res = Err e.
Proof.
  intros Hr Hop Hrev Hsteps. apply reachable_ok in Hr as (_ & _ & Hops).
  pose proof (revoked_stale c op c' (Hops op Hop) Hrev) as Hst.
  apply (steps_generation _ _ _ (op_key op)) in Hsteps. cbn in Hsteps.
  destruct (finish_cases o (w_cache w') op r putOptions t) as [(po & v & Hg & _)|(e & ->)]; [lia|].
  split; [|eauto]. unfold detach. by case_match.
Qed.

(** What a hit guarantees: in every reachable cache an entry that [get] returns was
    stored under the current generation of its key, is before its expiry on the wall
    clock and within its time to live on the monotonic clock, and expires at most
    [MAX_RUNTIME_LEASE_TTL_MS] after it was loaded; the map never holds more than the
    configured number of entries nor a key twice. *)
Theorem hits_are_current_and_bounded (o : CacheOptions) c ops key t c' e m :
  reachable o (mkWorld c ops) -> get c key t = (c', Some e) -> evictMax o = Fin m ->
  e_key e = key /\ e_generation e = generation c key /\
  wall t < expiresAt e <= loadedAt e + MAX_RUNTIME_LEASE_TTL_MS /\
  mono t - loadedMonotonic e < MAX_RUNTIME_LEASE_TTL_MS * NS_PER_MS /\
  Z.of_nat (length (entries c')) <= m <= MAX_RUNTIME_LEASE_ENTRIES /\ NoDup (mkeys (entries c')).
Proof.
  intros Hr%reachable_ok Hg Hm. destruct Hr as (Hc & _ & _); cbn in Hc.
  pose proof (get_cache_ok o c key t Hc) as (Hd' & _ & Hl'). rewrite Hg in Hd', Hl'; cbn in Hd', Hl'.
  destruct Hc as (_ & He & _). apply get_Some in Hg as (Hin%mget_In & Hgen & Hw & Hmono).
  destruct (He _ Hin) as (Hk & Hexp & Httl & _); cbn in *.
  pose proof (evictMax_pos o m Hm). unfold NS_PER_MS in *.
  split_and!; try done; try lia. by apply Hl'.
Qed.

(** Single flight: at any time at most one live load per key can still be stored;
    every other live load of that key is already stale. *)
Theorem single_flight (o : CacheOptions) w op1 op2 :
  reachable o w -> op1 ∈ w_live w -> op2 ∈ w_live w -> op_key op1 = op_key op2 ->
  op_generation op1 = generation (w_cache w) (op_key op1) ->
  op_generation op2 = generation (w_cache w) (op_key op2) ->
  op_id op1 = op_id op2.
Proof.
  intros (_ & _ & Hops)%reachable_ok H1%Hops H2%Hops Hk Hg1 Hg2.
  destruct H1 as [_ [H1|?]]; [|lia]. destruct H2 as [_ [H2|?]]; [|lia].
  rewrite Hk in H1. congruence.
Qed.

(** [clearOwner] on an encoded owner scope removes exactly that owner's keys: an
    encoded key loses its entry, and its pending load, when the owner's components are
    a prefix of its components, and keeps both otherwise. *)
Theorem clearOwner_clears_exactly_the_owner c owner parts :
  owner <> [] ->
  let c' := clearOwner c (encodeScope owner) in
  let key := encodeScope parts in
  ((exists rest, parts = owner ++ rest) ->
     mget key (entries c') = None /\ mget key (pending c') = None) /\
  (~ (exists rest, parts = owner ++ rest) ->
     mget key (entries c') = mget key (entries c) /\ mget key (pending c') = mget key (pending c) /\
     generation c' key = generation c key).
Proof.
  intros Ho c' key. pose proof (inOwnerScope_iff owner parts Ho) as Hiff.
  destruct (clearOwner_spec c (encodeScope owner) key) as (Hg & He & Hp).
  fold c' in Hg, He, Hp. split.
  - intros H%Hiff. fold key in H. by rewrite He, Hp, H.
  - intros H. assert (inOwnerScope (encodeScope owner) key = false) as Hf.
    { destruct (inOwnerScope (encodeScope owner) key) eqn:Hin; [|done]. by apply Hiff in Hin. }
    rewrite He, Hp, Hg, Hf. cbn. by rewrite Z.add_0_r.
Qed.

(** A caller that joins a load in flight is not covered by the generation check:
    when the key is cleared while the load runs and the loader then succeeds, the call
    that started the load is rejected, and every call that joined it still receives the
    revoked value. *)
Theorem joined_caller_receives_revoked_value (o : CacheOptions) c key opts opts' id id' t1 t2 t3 t4 v putOptions t :
  mget key (entries c) = None -> mget key (pending c) = None ->
  exists c1 op, getOrLoad_begin c key opts id t1 t2 = (c1, Started op) /\
    getOrLoad_begin c1 key opts' id' t3 t4 = (c1, Join id) /\
    (operation_settle (clear c1 key) op (Ok v) t).2 = Ok v /\
    (getOrLoad_finish o (clear c1 key) op (Ok v) putOptions t).2 = Err RuntimeLeaseInvalidatedError.
Proof.
  intros He Hp. eexists _, _. split_and!.
  - unfold getOrLoad_begin, get. by rewrite He, Hp.
  - unfold getOrLoad_begin, get; cbn [entries]. rewrite He; cbn [pending]. by rewrite mget_mset_eq.
  - done.
  - unfold getOrLoad_finish; cbn [op_key op_generation].
    rewrite generation_clear, String.eqb_refl.
    match goal with |- context [negb (?a + 1 =? ?b)] => replace (a + 1 =? b) with false end; [done|].
    symmetry. apply Z.eqb_neq. unfold generation; cbn [generations]. lia.
Qed.

(** The put options of the session host ([ensureRuntimeModel]): the loaded-at bound
    counts from the start of the load, the two expiries are absolute. *)
Definition hostPutOptions (jwt upstream : Z) (_ : T) (loadedAt : Z) : RuntimeLeasePutOptions :=
  mkPutOptions (Some (Fin loadedAt)) (Some (Fin jwt)) (Some (Fin upstream)) None None.

Definition refreshOptions (denial retryable : E -> bool) : LoadOptions :=
  mkLoadOptions true true (Some denial) (Some retryable).

(** A failed refresh re-arms the loaded-at bound: with the options the session host
    uses, a forced refresh whose load fails with a retryable error returns the cached
    value and stores it again as if it had just been loaded, so that its expiry moves
    to [MAX_RUNTIME_LEASE_TTL_MS] after the failed attempt although nothing was
    loaded. *)
Theorem failed_refresh_extends_expiry (o : CacheOptions) c key e denial retryable err id t jwt upstream :
  co_maxTtlMs o = None -> (exists m, evictMax o = Fin m) ->
  (get c key t).2 = Some e -> mget key (pending c) = None ->
  denial err = false -> retryable err = true ->
  wall t + MAX_RUNTIME_LEASE_TTL_MS <= jwt -> wall t + MAX_RUNTIME_LEASE_TTL_MS <= upstream ->
  exists c1 op c2 c3 e',
    getOrLoad_begin c key (refreshOptions denial retryable) id t t = (c1, Started op) /\
    operation_settle c1 op (Err err) t = (c2, Ok (e_value e)) /\
    getOrLoad_finish o c2 op (Ok (e_value e)) (hostPutOptions jwt upstream) t = (c3, Ok (e_value e)) /\
    mget key (entries c3) = Some e' /\ e_value e' = e_value e /\
    expiresAt e' = wall t + MAX_RUNTIME_LEASE_TTL_MS.
Proof.
  intros Hmax [m Hm] Hget Hp Hden Hret Hj Hu.
  destruct (get c key t) as [cg [e0|]] eqn:Hg; [|done]. injection Hget as ->.
  assert (pending cg = pending c) as Hpg by (by rewrite <- (get_pending c key t), Hg).
  eexists _, _, _, _, _. split_and!.
  - unfold getOrLoad_begin. rewrite Hg, Hpg, Hp. reflexivity.
  - unfold operation_settle; cbn. by rewrite Hden, Hret, Z.eqb_refl.
  - unfold getOrLoad_finish; cbn [op_key op_generation]. rewrite Z.eqb_refl. cbn [negb]. reflexivity.
  - assert (Hb : boundedLeaseTtl (Fin (wall t)) (Some (Fin jwt)) (Some (Fin upstream)) None
      = Some MAX_RUNTIME_LEASE_TTL_MS).
    { unfold boundedLeaseTtl, MAX_RUNTIME_LEASE_TTL_MS in *; cbn. rewrite !Z.min_l by lia. done. }
    assert (Hd : forall cc op, entries (detach cc op) = entries cc)
      by (intros; unfold detach; by case_match).
    rewrite Hd. unfold put; cbn -[boundedLeaseTtl mrefresh evict]. rewrite Hmax, Hb. cbn -[mrefresh evict].
    rewrite Hm. rewrite evict_drop by (apply evictMax_pos in Hm; lia).
    rewrite mrefresh_app. pose proof (evictMax_pos o m Hm).
    rewrite length_app; cbn [length].
    rewrite drop_app_le by lia. apply mget_snoc. intros Hin.
    apply (mget_None_notin key (mdelete key (entries cg))); [apply mget_mdelete_eq|].
    unfold mkeys in *. rewrite fmap_drop in Hin. by eapply (sublist_subseteq _ _ (sublist_drop _ _)).
  - done.
  - done.
Qed.

End Cache.

(** ** Concrete runs *)

Definition demoOptions : CacheOptions := mkCacheOptions None None.
Definition demoLoad : @LoadOptions unit := mkLoadOptions false false None None.
Definition demoOp : @Operation nat unit := mkOperation 0 "k" 0 5 5 None demoLoad.
Definition demoLoading : @World nat unit := mkWorld (mkCache [] [] [("k", 0%nat)]) [demoOp].
Definition demoPut : RuntimeLeasePutOptions :=
  mkPutOptions None (Some (Fin 9000000)) (Some (Fin 9000000)) None None.
Definition demoEntry : @RuntimeLeaseCacheEntry nat := mkEntry "k" 7%nat 5 300005 300000 5 0.
Definition demoStored : @World nat unit := mkWorld (mkCache [("k", demoEntry)] [] []) [].

Lemma demoLoading_reachable : reachable demoOptions demoLoading.
Proof.
  apply rtc_once. apply (StepBegin demoOptions emptyCache [] "k" demoLoad 0 (mkClock 5 5) (mkClock 5 5)
    (w_cache demoLoading) (Started demoOp)); [set_solver|reflexivity].
Qed.

Lemma demoStored_reachable : reachable demoOptions demoStored.
Proof. apply rtc_once. apply (StepPut demoOptions emptyCache [] "k" 7%nat demoPut (mkClock 5 5)). Qed.

Lemma inflight_load_cannot_repopulate_witness :
  let c' := clear (w_cache demoLoading) "k" in
  let (c2, res) := getOrLoad_finish demoOptions c' demoOp (Ok 7%nat) (fun _ _ => demoPut) (mkClock 9 9) in
  entries c2 = entries c' /\ exists e, res = Err e.
Proof.
  apply (inflight_load_cannot_repopulate demoOptions (w_cache demoLoading) (w_live demoLoading) demoOp
    (clear (w_cache demoLoading) "k") (mkWorld (clear (w_cache demoLoading) "k") (w_live demoLoading))).
  - exact demoLoading_reachable.
  - by left.
  - constructor.
  - apply rtc_refl.
Defined.

Lemma hits_are_current_and_bounded_witness :
  exists c', get (w_cache demoStored) "k" (mkClock 9 9) = (c', Some demoEntry) /\
    9 < expiresAt demoEntry <= loadedAt demoEntry + MAX_RUNTIME_LEASE_TTL_MS.
Proof.
  eexists; split; [reflexivity|].
  apply (hits_are_current_and_bounded (E:=unit) demoOptions (w_cache demoStored) [] "k" (mkClock 9 9)
    (get (w_cache demoStored) "k" (mkClock 9 9)).1 demoEntry 128);
    [exact demoStored_reachable|reflexivity|reflexivity].
Defined.

Lemma single_flight_witness : op_id demoOp = op_id demoOp.
Proof.
  apply (single_flight demoOptions demoLoading demoOp demoOp);
    [exact demoLoading_reachable|by left|by left|reflexivity|reflexivity|reflexivity].
Defined.

Lemma clearOwner_clears_exactly_the_owner_witness :
  let c : @RuntimeLeaseCache nat := mkCache
    [(encodeScope ["t"; "m"; "runtime"], demoEntry); (encodeScope ["t"; "m2"], demoEntry)] [] [] in
  mget (encodeScope ["t"; "m2"]) (entries (clearOwner c (encodeScope ["t"; "m"]))) = Some demoEntry.
Proof.
  intros c.
  pose proof (clearOwner_clears_exactly_the_owner c ["t"; "m"] ["t"; "m2"] ltac:(done)) as [_ H].
  destruct H as (He & _ & _); [intros [rest [=]]|]. rewrite He. reflexivity.
Defined.

Lemma joined_caller_receives_revoked_value_witness :
  exists c1 op, getOrLoad_begin (@emptyCache nat) "k" demoLoad 0 (mkClock 5 5) (mkClock 5 5) = (c1, Started op) /\
    (operation_settle (clear c1 "k") op (Ok 7%nat) (mkClock 9 9)).2 = Ok 7%nat.
Proof.
  destruct (joined_caller_receives_revoked_value demoOptions (@emptyCache nat) "k" demoLoad demoLoad 0 1
    (mkClock 5 5) (mkClock 5 5) (mkClock 6 6) (mkClock 6 6) 7%nat (fun _ _ => demoPut) (mkClock 9 9)
    eq_refl eq_refl) as (c1 & op & H1 & _ & H2 & _).
  by exists c1, op.
Defined.

Lemma failed_refresh_extends_expiry_witness :
  exists e', e_value e' = e_value demoEntry /\ expiresAt e' = 200000 + MAX_RUNTIME_LEASE_TTL_MS.
Proof.
  destruct (failed_refresh_extends_expiry demoOptions (w_cache demoStored) "k" demoEntry
    (fun _ : unit => false) (fun _ => true) tt 0 (mkClock 200000 200000) 9000000 9000000)
    as (c1 & op & c2 & c3 & e' & _ & _ & _ & _ & Hv & He);
    [reflexivity|by exists 128|reflexivity|reflexivity|reflexivity|reflexivity|by vm_compute|by vm_compute|].
  by exists e'.
Defined.
