(* ===== verification/Sql.v ===== *)
(** SQL tables of the Agent's SQLite store.

    A table is the list of its rows in insertion order.  The statements the store
    prepares are the functions below: [UPDATE ... SET f WHERE p] is [sql_update p f],
    [DELETE ... WHERE p] is [sql_delete p], [SELECT ... WHERE p] is [sql_select p] (all
    rows) or [sql_get p] (the first one), and [INSERT] checks the table's unique
    constraints, given as the test [clash] of a stored row against the new one. *)

From S2P Require Import Prelude.
From Stdlib Require Import Sorting.Sorted.
Local Open Scope Z_scope.

Section Table.
Context {R : Type}.
Implicit Types (t : list R) (p q : R -> bool) (f : R -> R) (r : R).

Definition sql_update p f t : list R := map (fun r => if p r then f r else r) t.
Definition sql_delete p t : list R := List.filter (fun r => negb (p r)) t.
Definition sql_select p t : list R := List.filter p t.
Definition sql_get p t : option R := List.find p t.

(** [result.changes] of an [UPDATE] or [DELETE]. *)
Definition sql_changes p t : Z := Z.of_nat (length (List.filter p t)).

(** [INSERT]: [None] is the constraint violation SQLite throws. *)
Definition sql_insert (clash : R -> bool) r t : option (list R) :=
  if existsb clash t then None else Some (t ++ [r]).

(** [INSERT ... ON CONFLICT DO UPDATE SET f]. *)
Definition sql_upsert (clash : R -> bool) f r t : list R :=
  if existsb clash t then sql_update clash f t else t ++ [r].

Lemma elem_of_sql_update p f t r :
  r ∈ sql_update p f t <-> exists r0, r0 ∈ t /\ r = (if p r0 then f r0 else r0).
Proof. unfold sql_update. change (map ?g t) with (g <$> t). rewrite list_elem_of_fmap. naive_solver. Qed.

Lemma elem_of_sql_select p t r : r ∈ sql_select p t <-> r ∈ t /\ p r = true.
Proof. unfold sql_select. by rewrite !list_elem_of_In, filter_In. Qed.

Lemma elem_of_sql_delete p t r : r ∈ sql_delete p t <-> r ∈ t /\ p r = false.
Proof. unfold sql_delete. by rewrite !list_elem_of_In, filter_In, negb_true_iff. Qed.

Lemma sql_get_Some p t r : sql_get p t = Some r -> r ∈ t /\ p r = true.
Proof. unfold sql_get. intros H. apply find_some in H. by rewrite list_elem_of_In. Qed.

Lemma sql_get_None p t : sql_get p t = None <-> forall r, r ∈ t -> p r = false.
Proof.
  unfold sql_get. split.
  - intros H r Hr. eapply find_none; [done|]. by apply list_elem_of_In.
  - induction t as [|r t IH]; intros H; cbn; [done|].
    rewrite (H r) by (by left). apply IH. intros r' Hr'. apply H. by right.
Qed.

Lemma sql_get_app p t u : sql_get p (t ++ u) =
  match sql_get p t with Some r => Some r | None => sql_get p u end.
Proof. unfold sql_get. induction t as [|r t IH]; cbn; [done|]. by destruct (p r). Qed.

(** An update that cannot move a row into or out of [q] commutes with reading by [q]. *)
Lemma sql_get_update q p f t :
  (forall r, p r = true -> q (f r) = q r) ->
  sql_get q (sql_update p f t) = (fun r => if p r then f r else r) <$> sql_get q t.
Proof.
  intros Hq. unfold sql_get, sql_update. induction t as [|r t IH]; cbn; [done|].
  assert (q (if p r then f r else r) = q r) as -> by (destruct (p r) eqn:E; auto).
  by destruct (q r).
Qed.

Lemma sql_update_none p f t : (forall r, r ∈ t -> p r = false) -> sql_update p f t = t.
Proof.
  unfold sql_update. induction t as [|r t IH]; intros H; cbn; [done|].
  rewrite (H r) by (by left). f_equal. apply IH. intros; apply H; by right.
Qed.

Lemma sql_changes_zero p t : sql_changes p t = 0 <-> forall r, r ∈ t -> p r = false.
Proof.
  unfold sql_changes. induction t as [|r t IH]; cbn.
  - split; [|done]. intros _ r Hr. by apply not_elem_of_nil in Hr.
  - destruct (p r) eqn:E; cbn [length].
    + split; [lia|]. intros H. rewrite (H r) in E by (by left). done.
    + rewrite IH. split; [intros H r' [->|?]%elem_of_cons; auto|]. intros; apply H; by right.
Qed.

Section Keys.
Context {K : Type} (key : R -> K).

Lemma keys_sql_update p f t : (forall r, key (f r) = key r) ->
  key <$> sql_update p f t = key <$> t.
Proof.
  intros Hk. unfold sql_update. induction t as [|r t IH]; cbn; [done|].
  f_equal; [by destruct (p r)|done].
Qed.

Lemma keys_sql_delete p t : key <$> sql_delete p t `sublist_of` key <$> t.
Proof.
  unfold sql_delete. induction t as [|r t IH]; cbn; [constructor|].
  destruct (negb (p r)); cbn; by constructor.
Qed.

Lemma NoDup_sql_insert clash r t t' :
  (forall r', key r' = key r -> clash r' = true) ->
  NoDup (key <$> t) -> sql_insert clash r t = Some t' -> NoDup (key <$> t').
Proof.
  unfold sql_insert. intros Hc Hd H. destruct (existsb clash t) eqn:E; [done|].
  injection H as <-. rewrite fmap_app. apply NoDup_app; split_and!; [done| |apply NoDup_singleton].
  intros k Hk Hk'. apply list_elem_of_fmap in Hk as (r' & -> & Hr'). cbn in Hk'.
  apply list_elem_of_singleton in Hk'.
  assert (existsb clash t = true); [|congruence].
  apply existsb_exists. exists r'. by rewrite <- list_elem_of_In, Hc.
Qed.

(** Rows with the same key are the same row. *)
Lemma NoDup_key_eq t r r' : NoDup (key <$> t) -> r ∈ t -> r' ∈ t -> key r = key r' -> r = r'.
Proof.
  induction t as [|x t IH]; cbn; [by intros ? ?%not_elem_of_nil|].
  intros [Hn Hd]%NoDup_cons [->|Hr]%elem_of_cons [->|Hr']%elem_of_cons Hk; auto.
  - destruct Hn. rewrite Hk. by apply list_elem_of_fmap_2.
  - destruct Hn. rewrite <- Hk. by apply list_elem_of_fmap_2.
Qed.

Lemma sql_get_key p t r : NoDup (key <$> t) ->
  r ∈ t -> p r = true -> (forall r', p r' = true -> key r' = key r) -> sql_get p t = Some r.
Proof.
  intros Hd Hr Hp Hu. destruct (sql_get p t) as [r'|] eqn:E.
  - apply sql_get_Some in E as [Hr' Hp']. f_equal. by eapply NoDup_key_eq; eauto.
  - eapply sql_get_None in E; [|done]. congruence.
Qed.
End Keys.
End Table.

(** [ORDER BY]: a stable insertion sort; [le a b] says that [a] may come before [b]. *)
Section Order.
Context {R : Type} (le : R -> R -> bool).

Fixpoint order_insert (x : R) (l : list R) : list R :=
  match l with
  | [] => [x]
  | y :: l' => if le x y then x :: l else y :: order_insert x l'
  end.
Definition order_by (l : list R) : list R := foldr order_insert [] l.

Lemma order_insert_perm x l : order_insert x l ≡ₚ x :: l.
Proof.
  induction l as [|y l IH]; cbn; [done|]. destruct (le x y); [done|]. rewrite IH. constructor.
Qed.

Lemma order_by_perm l : order_by l ≡ₚ l.
Proof. induction l as [|x l IH]; cbn; [done|]. by rewrite order_insert_perm, IH. Qed.

Lemma elem_of_order_by x l : x ∈ order_by l <-> x ∈ l.
Proof. by rewrite order_by_perm. Qed.

Lemma order_by_sorted l :
  (forall a b, le a b = true \/ le b a = true) -> (forall a b c, le a b = true -> le b c = true -> le a c = true) ->
  StronglySorted (fun a b => le a b = true) (order_by l).
Proof.
  intros Htot Htr. induction l as [|x l IH]; cbn; [constructor|]. unfold order_by in IH.
  induction IH as [|y k Hk IHk Hy]; cbn; [by repeat constructor|].
  destruct (le x y) eqn:E.
  - constructor; [by constructor|]. constructor; [done|]. eapply Forall_impl; [exact Hy|]. eauto.
  - constructor; [done|]. rewrite order_insert_perm. constructor; [|done].
    destruct (Htot x y); congruence.
Qed.

(** Selecting before or after sorting is the same. *)
Lemma filter_order_by p l :
  (forall a b, le a b = true \/ le b a = true) -> (forall a b c, le a b = true -> le b c = true -> le a c = true) ->
  List.filter p (order_by l) = order_by (List.filter p l).
Proof.
  intros Htot Htr. induction l as [|x l IH]; cbn; [done|]. fold (order_by l).
  pose proof (order_by_sorted l Htot Htr) as Hs.
  transitivity (if p x then order_insert x (List.filter p (order_by l)) else List.filter p (order_by l));
    [|rewrite IH; by destruct (p x)]. clear IH. induction Hs as [|y k Hk IHk Hy]; cbn; [by destruct (p x)|].
  destruct (le x y) eqn:E; cbn.
  - destruct (p x); [|done]. destruct (p y); cbn; [by rewrite E|].
    assert (forall z, z ∈ List.filter p k -> le x z = true) as Hle.
    { intros z Hz. apply list_elem_of_In, filter_In in Hz as [Hz _]. apply list_elem_of_In in Hz.
      rewrite Forall_forall in Hy. eauto. }
    destruct (List.filter p k) as [|z k']; [done|]. cbn. by rewrite Hle by (by left).
  - rewrite IHk. destruct (p x), (p y); cbn; by rewrite ?E.
Qed.
End Order.

(** ** Pages by key

    A page is the first [n] rows after a boundary row, in an order without ties, read with
    one row more to learn whether there is another page; the last row of the page is the
    boundary of the next one. *)
Section Keyset.
Context {R : Type} (before : R -> R -> bool).

Definition after_key (boundary : option R) (l : list R) : list R :=
  match boundary with Some b => List.filter (before b) l | None => l end.

Fixpoint all_pages (fuel n : nat) (boundary : option R) (l : list R) : list R :=
  match fuel with
  | O => []
  | S fuel =>
      let rows := take (S n) (after_key boundary l) in
      let page := take n rows in
      if (n <? length rows)%nat then page ++ all_pages fuel n (last page) l else page
  end.

Context (irrefl : forall a, before a a = false).
Context (trans : forall a b c, before a b = true -> before b c = true -> before a c = true).

Lemma after_key_split l1 x l2 :
  StronglySorted (fun a b => before a b = true) (l1 ++ x :: l2) -> after_key (Some x) (l1 ++ x :: l2) = l2.
Proof using irrefl trans.
  intros Hs. unfold after_key. rewrite List.filter_app.
  assert (forall y, y ∈ l1 -> before x y = false) as H1.
  { intros y Hy. destruct (before x y) eqn:E; [|done].
    assert (before y x = true) as E'; [|by rewrite <- (irrefl x), (trans x y x)].
    clear E. induction l1 as [|z l1 IH]; [by apply not_elem_of_nil in Hy|].
    inversion Hs as [|? ? Hs' Hf]; subst. apply elem_of_cons in Hy as [->|Hy]; [|auto].
    rewrite Forall_forall in Hf. apply Hf. set_solver. }
  replace (List.filter (before x) l1) with (@nil R).
  - cbn. rewrite irrefl. clear H1. assert (forall y, y ∈ l2 -> before x y = true) as H2.
    { induction l1 as [|z l1 IH]; inversion Hs as [|? ? Hs' Hf]; subst; [|auto].
      intros y Hy. rewrite Forall_forall in Hf. by apply Hf. }
    clear Hs. induction l2 as [|y l2 IH]; cbn; [done|]. rewrite H2 by (by left). f_equal.
    apply IH. intros; apply H2; by right.
  - clear Hs. induction l1 as [|y l1 IH]; cbn; [done|]. rewrite H1 by (by left). apply IH.
    intros; apply H1; by right.
Qed.

(** Following the boundaries reads every row, once, in order. *)
Lemma all_pages_from fuel n l1 l2 boundary :
  (0 < n)%nat -> StronglySorted (fun a b => before a b = true) (l1 ++ l2) ->
  boundary = last l1 -> (length l2 < fuel)%nat -> all_pages fuel n boundary (l1 ++ l2) = l2.
Proof using irrefl trans.
  intros Hn. revert l1 l2 boundary. induction fuel as [|fuel IH]; intros l1 l2 boundary Hs -> Hf; [lia|].
  assert (after_key (last l1) (l1 ++ l2) = l2) as Hrest.
  { destruct l1 as [|x l1 _] using rev_ind; [done|]. rewrite last_snoc, <- app_assoc. cbn.
    apply after_key_split. by rewrite <- app_assoc in Hs. }
  cbn [all_pages]. rewrite Hrest. rewrite take_take, length_take.
  replace (n `min` S n)%nat with n by lia. destruct (Nat.ltb_spec n (S n `min` length l2)).
  - transitivity (take n l2 ++ drop n l2); [f_equal|apply take_drop].
    replace (l1 ++ l2) with ((l1 ++ take n l2) ++ drop n l2)
      by (rewrite <- app_assoc; by rewrite take_drop).
    apply IH.
    + rewrite <- app_assoc. by rewrite take_drop.
    + rewrite last_app. destruct (last (take n l2)) eqn:E; [done|].
      apply last_None in E. apply (f_equal length) in E. rewrite length_take in E. cbn in E. lia.
    + rewrite length_drop. lia.
  - apply take_ge. lia.
Qed.

Lemma all_pages_spec fuel n l :
  (0 < n)%nat -> StronglySorted (fun a b => before a b = true) l -> (length l < fuel)%nat ->
  all_pages fuel n None l = l.
Proof using irrefl trans. intros Hn Hs Hf. by apply (all_pages_from fuel n [] l). Qed.
End Keyset.

Lemma sql_get_delete {R K} (key : R -> K) (q p : R -> bool) (t : list R) :
  NoDup (key <$> t) -> (forall r r', q r = true -> q r' = true -> key r = key r') ->
  sql_get q (sql_delete p t) = match sql_get q t with Some r => if p r then None else Some r | None => None end.
Proof.
  intros Hd Hq. unfold sql_get, sql_delete. induction t as [|x t IH]; cbn; [done|].
  inversion Hd as [|? ? Hx Hd']; subst. destruct (p x) eqn:Ep; cbn.
  - rewrite IH by done. destruct (q x) eqn:Eq; [|done]. rewrite Ep.
    destruct (find q t) as [r|] eqn:E; [|done]. apply find_some in E as [Hr Hqr].
    destruct Hx. rewrite (Hq x r) by done. apply list_elem_of_fmap. exists r. by rewrite list_elem_of_In.
  - destruct (q x) eqn:Eq; [by rewrite Ep|by apply IH].
Qed.

#[export] Hint Resolve sql_get_Some : aiteam.
