(* ===== verification/IsoTime.v ===== *)
(** UTC timestamps: [Date.prototype.toISOString] and the hour and day arithmetic the
    sources do on epoch milliseconds.  The text form of years 0 to 9999 has a fixed
    width; the theorem at the end shows that comparing two such texts, as the SQL of the
    store does, is comparing the times. *)

From S2P Require Import Prelude Decimal.
From Stdlib Require Import Ascii.
From Stdlib Require String.
Local Open Scope Z_scope.

Definition MS_PER_DAY : Z := 86400000.
Definition MS_PER_HOUR : Z := 3600000.

(** Days since 1970-01-01 to (year, month, day) in the proleptic Gregorian calendar. *)
Definition civil (days : Z) : Z * Z * Z :=
  let z := days + 719468 in
  let era := z / 146097 in
  let doe := z - era * 146097 in
  let yoe := (doe - doe / 1460 + doe / 36524 - doe / 146096) / 365 in
  let doy := doe - (365 * yoe + yoe / 4 - yoe / 100) in
  let mp := (5 * doy + 2) / 153 in
  let d := doy - (153 * mp + 2) / 5 + 1 in
  let m := if mp <? 10 then mp + 3 else mp - 9 in
  (yoe + era * 400 + (if m <=? 2 then 1 else 0), m, d).

(** The last [n] decimal digits of [x], most significant first. *)
Fixpoint fixed (n : nat) (x : Z) : string :=
  match n with
  | O => ""
  | S n => fixed n (x / 10) +:+ String (ascii_of_nat (48 + Z.to_nat (x mod 10))) ""
  end.

Definition isoYear (y : Z) : string :=
  if (0 <=? y) && (y <=? 9999) then fixed 4 y
  else if 0 <=? y then "+" +:+ fixed 6 y else "-" +:+ fixed 6 (- y).

Definition toISOString (ms : Z) : string :=
  let '(y, m, d) := civil (ms / MS_PER_DAY) in
  let t := ms mod MS_PER_DAY in
  isoYear y +:+ "-" +:+ fixed 2 m +:+ "-" +:+ fixed 2 d +:+ "T" +:+ fixed 2 (t / 3600000) +:+ ":"
    +:+ fixed 2 (t / 60000 mod 60) +:+ ":" +:+ fixed 2 (t / 1000 mod 60) +:+ "." +:+ fixed 3 (t mod 1000) +:+ "Z".

(** [date.setUTCMinutes(0, 0, 0)]. *)
Definition startOfHour (ms : Z) : Z := ms - ms mod MS_PER_HOUR.

Example iso_epoch : toISOString 0 = "1970-01-01T00:00:00.000Z".
Proof. reflexivity. Qed.
Example iso_leap : toISOString 1709210096789 = "2024-02-29T12:34:56.789Z".
Proof. reflexivity. Qed.
Example iso_before : toISOString (-1) = "1969-12-31T23:59:59.999Z".
Proof. reflexivity. Qed.

(** ** Text order is time order *)

(** Lexicographic order on lists of numbers of equal length. *)
Fixpoint lex (a b : list Z) : Prop :=
  match a, b with
  | x :: a, y :: b => x < y \/ x = y /\ lex a b
  | _, _ => False
  end.

(** Year of the four-century cycle and day of that year, the year starting in March. *)
Lemma yoe_bounds doe : 0 <= doe < 146097 ->
  let yoe := (doe - doe / 1460 + doe / 36524 - doe / 146096) / 365 in
  0 <= yoe < 400 /\
  365 * yoe + yoe / 4 - yoe / 100 <= doe < 365 * (yoe + 1) + (yoe + 1) / 4 - (yoe + 1) / 100 + (yoe + 1) / 400.
Proof. intros H yoe. unfold yoe. split; [|split]; Z.to_euclidean_division_equations; lia. Qed.

Definition lex3 (a b : Z * Z * Z) : Prop :=
  let '(x1, x2, x3) := a in let '(y1, y2, y3) := b in lex [x1; x2; x3] [y1; y2; y3].

(** The calendar is strictly increasing. *)
Lemma civil_mono d1 d2 : d1 < d2 -> lex3 (civil d1) (civil d2).
Proof.
  intros Hlt. unfold civil.
  set (z1 := d1 + 719468). set (z2 := d2 + 719468).
  set (e1 := z1 / 146097). set (e2 := z2 / 146097).
  assert (B1 : 0 <= z1 - e1 * 146097 < 146097) by (unfold e1; Z.to_euclidean_division_equations; lia).
  assert (B2 : 0 <= z2 - e2 * 146097 < 146097) by (unfold e2; Z.to_euclidean_division_equations; lia).
  assert (Hz : z1 < z2) by (unfold z1, z2; lia).
  set (doe1 := z1 - e1 * 146097) in *. set (doe2 := z2 - e2 * 146097) in *.
  assert (Hera : e1 < e2 \/ e1 = e2 /\ doe1 < doe2) by (unfold doe1, doe2 in *; lia).
  clearbody e1 e2 doe1 doe2. clear z1 z2 Hz d1 d2 Hlt.
  pose proof (yoe_bounds doe1 B1) as Y1. pose proof (yoe_bounds doe2 B2) as Y2. cbn zeta in Y1, Y2.
  set (yoe1 := (doe1 - doe1 / 1460 + doe1 / 36524 - doe1 / 146096) / 365) in *.
  set (yoe2 := (doe2 - doe2 / 1460 + doe2 / 36524 - doe2 / 146096) / 365) in *.
  clearbody yoe1 yoe2.
  set (doy1 := doe1 - (365 * yoe1 + yoe1 / 4 - yoe1 / 100)) in *.
  set (doy2 := doe2 - (365 * yoe2 + yoe2 / 4 - yoe2 / 100)) in *.
  assert (D1 : 0 <= doy1 <= 365) by (unfold doy1; clear -Y1; Z.to_euclidean_division_equations; lia).
  assert (D2 : 0 <= doy2 <= 365) by (unfold doy2; clear -Y2; Z.to_euclidean_division_equations; lia).
  assert (Hy : e1 < e2 \/ e1 = e2 /\ (yoe1 < yoe2 \/ yoe1 = yoe2 /\ doy1 < doy2)).
  { destruct Hera as [?|[-> Hdoe]]; [by left|right; split; [done|]].
    destruct (Z.lt_trichotomy yoe1 yoe2) as [?|[->|?]]; [by left|right; unfold doy1, doy2; lia|exfalso].
    clear -Y1 Y2 Hdoe H. Z.to_euclidean_division_equations; lia. }
  clearbody doy1 doy2. clear Hera. destruct Y1 as [Y1 _], Y2 as [Y2 _]. clear B1 B2 doe1 doe2.
  set (mp1 := (5 * doy1 + 2) / 153). set (mp2 := (5 * doy2 + 2) / 153).
  assert (M : 0 <= mp1 <= 11 /\ 0 <= mp2 <= 11 /\ (doy1 < doy2 -> mp1 < mp2 \/ mp1 = mp2))
    by (unfold mp1, mp2; clear -D1 D2; Z.to_euclidean_division_equations; lia).
  clearbody mp1 mp2. cbn [lex3 lex].
  destruct M as (M1 & M2 & M).
  destruct (Z.ltb_spec mp1 10), (Z.ltb_spec mp2 10);
    repeat match goal with |- context [?a <=? 2] => destruct (Z.leb_spec a 2) end;
    try lia.
  all: destruct Hy as [?|[-> [?|[-> Hd]]]]; [lia|lia|]; destruct (M Hd) as [?|E]; subst; lia.
Qed.

Definition iso_fields (ms : Z) : list Z :=
  let '(y, m, d) := civil (ms / MS_PER_DAY) in
  let t := ms mod MS_PER_DAY in
  [y; m; d; t / 3600000; t / 60000 mod 60; t / 1000 mod 60; t mod 1000].

Lemma lex_app a b a' b' : length a = length b -> lex a b -> lex (a ++ a') (b ++ b').
Proof.
  revert b. induction a as [|x a IH]; intros [|y b] Hl; cbn; try done.
  injection Hl as Hl. intros [?|[-> ?]]; [by left|right; auto].
Qed.

Lemma iso_fields_mono ms1 ms2 : ms1 < ms2 -> lex (iso_fields ms1) (iso_fields ms2).
Proof.
  intros Hlt. unfold iso_fields.
  destruct (Z.lt_trichotomy (ms1 / MS_PER_DAY) (ms2 / MS_PER_DAY)) as [Hd|[Hd|Hd]].
  - pose proof (civil_mono _ _ Hd) as H.
    destruct (civil (ms1 / MS_PER_DAY)) as [[y1 m1] dd1], (civil (ms2 / MS_PER_DAY)) as [[y2 m2] dd2].
    cbn in H. cbn. tauto.
  - rewrite Hd. destruct (civil (ms2 / MS_PER_DAY)) as [[y m] d]. cbn.
    assert (ms1 mod MS_PER_DAY < ms2 mod MS_PER_DAY) as Ht
      by (unfold MS_PER_DAY in *; Z.to_euclidean_division_equations; lia).
    pose proof (Z.mod_pos_bound ms1 MS_PER_DAY ltac:(done)). pose proof (Z.mod_pos_bound ms2 MS_PER_DAY ltac:(done)).
    set (t1 := ms1 mod MS_PER_DAY) in *. set (t2 := ms2 mod MS_PER_DAY) in *. clearbody t1 t2. clear Hd Hlt.
    do 3 (right; split; [done|]). unfold MS_PER_DAY in *.
    Z.to_euclidean_division_equations; lia.
  - exfalso. unfold MS_PER_DAY in *. Z.to_euclidean_division_equations; lia.
Qed.

Lemma civil_range days : let '(_, m, d) := civil days in 1 <= m <= 12 /\ 1 <= d <= 31.
Proof.
  unfold civil. set (z := days + 719468). set (doe := z - z / 146097 * 146097).
  assert (B : 0 <= doe < 146097) by (unfold doe; Z.to_euclidean_division_equations; lia).
  pose proof (yoe_bounds doe B) as Y. cbn zeta in Y.
  set (yoe := (doe - doe / 1460 + doe / 36524 - doe / 146096) / 365) in *.
  assert (D : 0 <= doe - (365 * yoe + yoe / 4 - yoe / 100) <= 365)
    by (clearbody yoe; clear -Y; Z.to_euclidean_division_equations; lia).
  set (doy := doe - (365 * yoe + yoe / 4 - yoe / 100)) in *. clearbody doy. clear -D.
  assert (0 <= (5 * doy + 2) / 153 <= 11) by (Z.to_euclidean_division_equations; lia).
  split; [destruct (Z.ltb_spec ((5 * doy + 2) / 153) 10); lia|].
  Z.to_euclidean_division_equations; lia.
Qed.

Lemma fixed_length n x : String.length (fixed n x) = n.
Proof. revert x. induction n as [|n IH]; intros x; cbn; [done|]. rewrite append_length, IH. cbn. lia. Qed.

Lemma compare_refl c : Ascii.compare c c = Eq.
Proof. unfold Ascii.compare. apply N.compare_refl. Qed.

Lemma compare_app_same a s t : String.compare (a +:+ s) (a +:+ t) = String.compare s t.
Proof. induction a as [|c a IH]; simpl; [done|]. by rewrite compare_refl. Qed.

Lemma compare_app_lt a b s t : String.length a = String.length b ->
  String.compare a b = Lt -> String.compare (a +:+ s) (b +:+ t) = Lt.
Proof.
  revert b. induction a as [|c a IH]; intros [|d b] Hl; simpl; try done.
  injection Hl as Hl. destruct (Ascii.compare c d); auto.
Qed.

Lemma digit_compare x y : 0 <= x < y -> y < 10 ->
  Ascii.compare (ascii_of_nat (48 + Z.to_nat x)) (ascii_of_nat (48 + Z.to_nat y)) = Lt.
Proof.
  intros H1 H2. unfold Ascii.compare. unfold ascii_of_nat. rewrite !N_ascii_embedding by lia.
  apply N.compare_lt_iff. lia.
Qed.

Lemma fixed_lt n x y : 0 <= x < y -> y < 10 ^ Z.of_nat n -> String.compare (fixed n x) (fixed n y) = Lt.
Proof.
  revert x y. induction n as [|n IH]; intros x y Hx Hy; [cbn in Hy; lia|].
  rewrite Nat2Z.inj_succ, Z.pow_succ_r in Hy by lia. cbn [fixed].
  destruct (Z.eq_dec (x / 10) (y / 10)) as [E|E].
  - rewrite E, compare_app_same. cbn [String.compare].
    rewrite digit_compare; [done|Z.to_euclidean_division_equations; lia..].
  - apply compare_app_lt; [by rewrite !fixed_length|]. apply IH; Z.to_euclidean_division_equations; lia.
Qed.

(** One numeric field followed by the rest of the text. *)
Lemma field_lt n x y s t : 0 <= x < 10 ^ Z.of_nat n -> 0 <= y < 10 ^ Z.of_nat n ->
  x < y \/ x = y /\ String.compare s t = Lt ->
  String.compare (fixed n x +:+ s) (fixed n y +:+ t) = Lt.
Proof.
  intros Hx Hy [H|[-> H]].
  - apply compare_app_lt; [by rewrite !fixed_length|]. apply fixed_lt; lia.
  - by rewrite compare_app_same.
Qed.

(** The year the text of [ms] starts with. *)
Definition isoYearOf (ms : Z) : Z := (civil (ms / MS_PER_DAY)).1.1.

(** Timestamps compare as text the way they compare as times: for times in the years
    0 to 9999, the earlier one has the smaller ISO text, byte by byte.  This is what the
    store relies on when its SQL compares [expires_at], [lease_expires_at] and
    [created_at] columns with [now]. *)
Lemma iso_text_order (ms1 ms2 : Z) :
  0 <= isoYearOf ms1 -> isoYearOf ms2 <= 9999 -> ms1 < ms2 ->
  String.compare (toISOString ms1) (toISOString ms2) = Lt.
Proof.
  intros H1 H2 Hlt. pose proof (iso_fields_mono _ _ Hlt) as Hlex.
  unfold isoYearOf, toISOString, iso_fields in *.
  pose proof (civil_range (ms1 / MS_PER_DAY)) as R1. pose proof (civil_range (ms2 / MS_PER_DAY)) as R2.
  destruct (civil (ms1 / MS_PER_DAY)) as [[y1 m1] d1], (civil (ms2 / MS_PER_DAY)) as [[y2 m2] d2].
  cbn [fst] in H1, H2. cbn [lex] in Hlex.
  pose proof (Z.mod_pos_bound ms1 MS_PER_DAY ltac:(done)) as T1.
  pose proof (Z.mod_pos_bound ms2 MS_PER_DAY ltac:(done)) as T2.
  set (t1 := ms1 mod MS_PER_DAY) in *. set (t2 := ms2 mod MS_PER_DAY) in *. clearbody t1 t2.
  assert (y1 <= y2) by lia. unfold isoYear, MS_PER_DAY in *.
  assert ((0 <=? y1) && (y1 <=? 9999) = true) as -> by (apply andb_true_iff; lia).
  assert ((0 <=? y2) && (y2 <=? 9999) = true) as -> by (apply andb_true_iff; lia).
  apply field_lt; cbn; [lia|lia|]. destruct Hlex as [?|[-> Hlex]]; [by left|right; split; [done|]].
  apply (field_lt 2); cbn; [lia|lia|]. destruct Hlex as [?|[-> Hlex]]; [by left|right; split; [done|]].
  apply (field_lt 2); cbn; [lia|lia|]. destruct Hlex as [?|[-> Hlex]]; [by left|right; split; [done|]].
  assert (forall t, 0 <= t < 86400000 -> 0 <= t / 3600000 < 100 /\ 0 <= t / 60000 mod 60 < 100 /\
    0 <= t / 1000 mod 60 < 100 /\ 0 <= t mod 1000 < 1000) as R
    by (clear; intros t Ht; Z.to_euclidean_division_equations; lia).
  pose proof (R t1 T1). pose proof (R t2 T2).
  apply (field_lt 2); cbn; [lia|lia|]. destruct Hlex as [?|[-> Hlex]]; [by left|right; split; [done|]].
  apply (field_lt 2); cbn; [lia|lia|]. destruct Hlex as [?|[-> Hlex]]; [by left|right; split; [done|]].
  apply (field_lt 2); cbn; [lia|lia|]. destruct Hlex as [?|[-> Hlex]]; [by left|right; split; [done|]].
  apply (field_lt 3); cbn; [lia|lia|]. destruct Hlex as [?|[_ []]]. by left.
Qed.

Lemma iso_text_compare (ms1 ms2 : Z) :
  0 <= isoYearOf ms1 <= 9999 -> 0 <= isoYearOf ms2 <= 9999 ->
  String.compare (toISOString ms1) (toISOString ms2) = (ms1 ?= ms2).
Proof.
  intros H1 H2. destruct (Z.compare_spec ms1 ms2) as [->|Hlt|Hgt].
  - induction (toISOString ms2) as [|c s IH]; [done|]. cbn [String.compare]. by rewrite compare_refl.
  - apply iso_text_order; lia.
  - rewrite String.compare_antisym, iso_text_order; [done|lia..].
Qed.
