(* ===== verification/ApprovalStore.v ===== *)
(** Approval records in the Agent's SQLite store (storage/sqlite.ts, table
    [approval_record]).

    One definition per store method.  Timestamps are milliseconds: the ISO texts the
    code writes all have the same fixed-width UTC form, for which text order is time
    order ([expiry_text_comparison]).  A method that runs in a transaction and throws returns the database it
    leaves behind together with the error; [COMMIT] before the throw is visible as a
    changed database. *)

From S2P Require Import Prelude Sql Decimal IsoTime.
From Stdlib Require String.
Local Open Scope Z_scope.

Inductive ApprovalRisk : Type := RBash | RWrite | REdit | RExternal | RUnknown.

Inductive ApprovalStatus : Type :=
| Pending | Approved | Executing | Succeeded | Rejected | Invalidated | Expired | Uncertain.

#[export] Instance ApprovalRisk_eq_dec : EqDecision ApprovalRisk.
Proof. solve_decision. Defined.
#[export] Instance ApprovalStatus_eq_dec : EqDecision ApprovalStatus.
Proof. solve_decision. Defined.

Record ApprovalRecord : Type := mkApproval {
  a_id : string;
  approval_batch_id : string;
  tenant_id : string;
  member_id : string;
  conversation_id : string;
  participant_employee_id : option string;
  session_id : string;
  snapshot_version : string;
  permission_revision : string;
  tool_call_id : string;
  tool_call_entry_id : option string;
  prompt_receipt_ref : option string;
  tool_name : string;
  canonical_args_hmac : string;
  redacted_summary : string;
  risk_level : ApprovalRisk;
  status : ApprovalStatus;
  approved_by : option string;
  approved_at : option Z;
  expires_at : Z;
  decision_revision : Z;
  consumed : bool;
  idempotency_key : string;
  created_at : Z;
  updated_at : Z;
}.

(** [SET status = ..., approved_by = ..., ...] on the columns the statements change. *)
Definition set_state (st : ApprovalStatus) (by_ : option string) (at_ : option Z) (rev : Z)
    (used : bool) (key : string) (now : Z) (r : ApprovalRecord) : ApprovalRecord :=
  mkApproval (a_id r) (approval_batch_id r) (tenant_id r) (member_id r) (conversation_id r)
    (participant_employee_id r) (session_id r) (snapshot_version r) (permission_revision r)
    (tool_call_id r) (tool_call_entry_id r) (prompt_receipt_ref r) (tool_name r)
    (canonical_args_hmac r) (redacted_summary r) (risk_level r) st by_ at_ (expires_at r) rev
    used key (created_at r) now.

(** [SET status = st, decision_revision = decision_revision + 1, updated_at = now]. *)
Definition move (st : ApprovalStatus) (now : Z) (r : ApprovalRecord) : ApprovalRecord :=
  set_state st (approved_by r) (approved_at r) (decision_revision r + 1) (consumed r)
    (idempotency_key r) now r.

Definition status_in (l : list ApprovalStatus) (r : ApprovalRecord) : bool :=
  bool_decide (status r ∈ l).

Definition by_id (id : string) (r : ApprovalRecord) : bool := String.eqb (a_id r) id.

(** [WHERE id = ? AND tenant_id = ? AND member_id = ? AND conversation_id = ?]. *)
Definition owned_by (id tenantId memberId conversationId : string) (r : ApprovalRecord) : bool :=
  String.eqb (a_id r) id && String.eqb (tenant_id r) tenantId && String.eqb (member_id r) memberId
  && String.eqb (conversation_id r) conversationId.

Definition opt_eqb (o : option string) (s : string) : bool :=
  match o with None => true | Some x => String.eqb x s end.

(** [participant_employee_id IS ?]. *)
Definition sql_is (a b : option string) : bool := bool_decide (a = b).

(** The unique index [approval_record_call_idx]; SQLite treats [NULL] participants as
    distinct. *)
Definition same_call (a b : ApprovalRecord) : bool :=
  String.eqb (tenant_id a) (tenant_id b) && String.eqb (member_id a) (member_id b)
  && String.eqb (conversation_id a) (conversation_id b) && String.eqb (session_id a) (session_id b)
  && match participant_employee_id a, participant_employee_id b with
     | Some x, Some y => String.eqb x y
     | _, _ => false
     end
  && String.eqb (tool_call_id a) (tool_call_id b)
  && String.eqb (canonical_args_hmac a) (canonical_args_hmac b)
  && String.eqb (snapshot_version a) (snapshot_version b).

Inductive approval_error : Type :=
| ApprovalConstraintError
| ApprovalNotFoundError
| StoreApprovalExpiredError
| ApprovalRevisionConflictError
| ApprovalDecisionConflictError.

Definition table : Type := list ApprovalRecord.

Definition getApprovalRecord (db : table) (id : string) : option ApprovalRecord :=
  sql_get (by_id id) db.

(** The argument of [createApprovalRecord]; [None] is an omitted field. *)
Record ApprovalInput : Type := mkInput {
  in_id : string;
  in_approval_batch_id : string;
  in_tenant_id : string;
  in_member_id : string;
  in_conversation_id : string;
  in_participant_employee_id : option string;
  in_session_id : string;
  in_snapshot_version : string;
  in_permission_revision : string;
  in_tool_call_id : string;
  in_tool_call_entry_id : option string;
  in_prompt_receipt_ref : option string;
  in_tool_name : string;
  in_canonical_args_hmac : string;
  in_redacted_summary : string;
  in_risk_level : ApprovalRisk;
  in_expires_at : Z;
  in_idempotency_key : string;
  in_status : option ApprovalStatus;
  in_decision_revision : option Z;
  in_consumed : option bool;
  in_approved_by : option string;
  in_approved_at : option Z;
  in_created_at : option Z;
  in_updated_at : option Z;
}.

(** The row the [INSERT] writes; [date] is [new Date()]. *)
Definition approvalRow (i : ApprovalInput) (date : Z) : ApprovalRecord :=
  let now := nullish (in_created_at i) date in
  mkApproval (in_id i) (in_approval_batch_id i) (in_tenant_id i) (in_member_id i)
    (in_conversation_id i) (in_participant_employee_id i) (in_session_id i) (in_snapshot_version i)
    (in_permission_revision i) (in_tool_call_id i) (in_tool_call_entry_id i) (in_prompt_receipt_ref i)
    (in_tool_name i) (in_canonical_args_hmac i) (in_redacted_summary i) (in_risk_level i)
    (nullish (in_status i) Pending) (in_approved_by i) (in_approved_at i) (in_expires_at i)
    (nullish (in_decision_revision i) 0) (nullish (in_consumed i) false) (in_idempotency_key i)
    now (nullish (in_updated_at i) now).

Definition createApprovalRecord (db : table) (i : ApprovalInput) (date : Z)
    : table * result approval_error ApprovalRecord :=
  let row := approvalRow i date in
  match sql_insert (fun r => by_id (in_id i) r || same_call r row) row db with
  | Some db' => (db', match getApprovalRecord db' (in_id i) with
                      | Some r => Ok r
                      | None => Err ApprovalNotFoundError
                      end)
  | None => (db, Err ApprovalConstraintError)
  end.

Definition getOwnedApprovalRecord (db : table) (id tenantId memberId conversationId : string)
    : option ApprovalRecord :=
  sql_get (owned_by id tenantId memberId conversationId) db.

(** [ORDER BY created_at DESC LIMIT 1]. *)
Fixpoint latest (l : list ApprovalRecord) : option ApprovalRecord :=
  match l with
  | [] => None
  | r :: l => match latest l with
              | Some r' => if created_at r <? created_at r' then Some r' else Some r
              | None => Some r
              end
  end.

Definition findApprovalForTool (db : table)
    (tenantId memberId conversationId sessionId : string) (participantEmployeeId : option string)
    (toolCallId canonicalArgsHmac snapshotVersion : string) : option ApprovalRecord :=
  latest (sql_select (fun r =>
    String.eqb (tenant_id r) tenantId && String.eqb (member_id r) memberId
    && String.eqb (conversation_id r) conversationId && String.eqb (session_id r) sessionId
    && sql_is (participant_employee_id r) participantEmployeeId
    && String.eqb (tool_call_id r) toolCallId && String.eqb (canonical_args_hmac r) canonicalArgsHmac
    && String.eqb (snapshot_version r) snapshotVersion) db).

(** [ORDER BY created_at DESC]: insertion into a list sorted newest first. *)
Fixpoint insert_newest (r : ApprovalRecord) (l : list ApprovalRecord) : list ApprovalRecord :=
  match l with
  | [] => [r]
  | x :: l' => if created_at x <=? created_at r then r :: l else x :: insert_newest r l'
  end.

Definition listOwnedApprovalRecords (db : table) (conversationId tenantId memberId : string)
    (includeTerminal : bool) : list ApprovalRecord :=
  foldr insert_newest [] (sql_select (fun r =>
    String.eqb (conversation_id r) conversationId && String.eqb (tenant_id r) tenantId
    && String.eqb (member_id r) memberId
    && (includeTerminal || status_in [Pending; Approved; Executing] r)) db).

Inductive Decision_ : Type := Approve | Deny.
#[export] Instance Decision__eq_dec : EqDecision Decision_.
Proof. solve_decision. Defined.

Record DecideInput : Type := mkDecide {
  d_id : string;
  d_tenantId : string;
  d_memberId : string;
  d_conversationId : string;
  d_decision : Decision_;
  d_expectedRevision : option Z;
  d_approvedBy : string;
  d_idempotencyKey : string;
}.

(** The safe replay: same idempotency key and a status the decision leads to. *)
Definition is_replay (i : DecideInput) (r : ApprovalRecord) : bool :=
  String.eqb (idempotency_key r) (d_idempotencyKey i)
  && match d_decision i with
     | Approve => status_in [Approved; Executing; Succeeded; Uncertain] r
     | Deny => status_in [Rejected] r
     end.

Definition decide_set (i : DecideInput) (now : Z) (r : ApprovalRecord) : ApprovalRecord :=
  match d_decision i with
  | Approve => set_state Approved (Some (d_approvedBy i)) (Some now) (decision_revision r + 1)
                 (consumed r) (d_idempotencyKey i) now r
  | Deny => set_state Rejected None None (decision_revision r + 1) (consumed r)
              (d_idempotencyKey i) now r
  end.

(** The two [UPDATE]s of a fresh decision: the record itself, and on a denial the open
    rest of its batch. *)
Definition decide_write (db : table) (i : DecideInput) (now : Z) : table :=
  let db1 := sql_update (fun r => by_id (d_id i) r && status_in [Pending] r) (decide_set i now) db in
  match d_decision i with
  | Approve => db1
  | Deny =>
      let batch := approval_batch_id <$> getApprovalRecord db1 (d_id i) in
      sql_update (fun r =>
        match batch with Some b => String.eqb (approval_batch_id r) b | None => false end
        && negb (by_id (d_id i) r) && status_in [Pending; Approved] r)
        (move Invalidated now) db1
  end.

Definition stale_revision (i : DecideInput) (r : ApprovalRecord) : bool :=
  match d_expectedRevision i with Some rev => negb (rev =? decision_revision r) | None => false end.

(** [decideApproval]; [now] is [input.now ?? new Date()]. *)
Definition decideApproval (db : table) (i : DecideInput) (now : Z)
    : table * result approval_error ApprovalRecord :=
  match getOwnedApprovalRecord db (d_id i) (d_tenantId i) (d_memberId i) (d_conversationId i) with
  | None => (db, Err ApprovalNotFoundError)
  | Some current =>
      if (expires_at current <=? now) && status_in [Pending; Approved] current
      then (sql_update (by_id (d_id i)) (move Expired now) db, Err StoreApprovalExpiredError)
      else if is_replay i current then (db, Ok current)
      else if stale_revision i current then (db, Err ApprovalRevisionConflictError)
      else if bool_decide (status current = Approved) && bool_decide (d_decision i = Approve)
      then (db, Ok current)
      else if bool_decide (status current = Rejected) && bool_decide (d_decision i = Deny)
      then (db, Ok current)
      else if negb (bool_decide (status current = Pending))
      then (db, Err ApprovalDecisionConflictError)
      else
        let db' := decide_write db i now in
        match getApprovalRecord db' (d_id i) with
        | Some next => (db', Ok next)
        | None => (db, Err ApprovalNotFoundError)
        end
  end.

Definition claimable (id tenantId memberId conversationId : string) (expectedRevision : Z)
    (snapshotVersion permissionRevision : string) (now : Z) (r : ApprovalRecord) : bool :=
  owned_by id tenantId memberId conversationId r && status_in [Approved] r && negb (consumed r)
  && (decision_revision r =? expectedRevision) && String.eqb (snapshot_version r) snapshotVersion
  && String.eqb (permission_revision r) permissionRevision && (now <? expires_at r).

(** The comparisons the SQL makes, on the stored texts: [expires_at > ?] of the claim and
    [expires_at <= ?] of the expiry. *)
Definition expires_after_text (now expiresAt : string) : bool := String.ltb now expiresAt.
Definition expires_by_text (now expiresAt : string) : bool := String.leb expiresAt now.

Definition claim_set (now : Z) (r : ApprovalRecord) : ApprovalRecord :=
  set_state Executing (approved_by r) (approved_at r) (decision_revision r + 1) true
    (idempotency_key r) now r.

Definition claimApproval (db : table) (id tenantId memberId conversationId : string)
    (expectedRevision : Z) (snapshotVersion permissionRevision : string) (now : Z)
    : table * option ApprovalRecord :=
  let p := claimable id tenantId memberId conversationId expectedRevision snapshotVersion
             permissionRevision now in
  if sql_changes p db =? 0 then (db, None)
  else
    let db' := sql_update p (claim_set now) db in
    (db', getOwnedApprovalRecord db' id tenantId memberId conversationId).

Definition finish_set (st : ApprovalStatus) (now : Z) (r : ApprovalRecord) : ApprovalRecord :=
  set_state st (approved_by r) (approved_at r) (decision_revision r) (consumed r)
    (idempotency_key r) now r.

Definition finishApproval (db : table) (id : string) (st : ApprovalStatus) (now : Z) : table :=
  sql_update (fun r => by_id id r && status_in [Executing] r) (finish_set st now) db.

Definition expireApproval (db : table) (id : string) (now : Z) : table :=
  sql_update (fun r => by_id id r && status_in [Pending; Approved] r && (expires_at r <=? now))
    (move Expired now) db.

(** [CASE WHEN status = 'executing' THEN 'uncertain' ELSE 'invalidated' END]. *)
Definition cancel_set (now : Z) (r : ApprovalRecord) : ApprovalRecord :=
  move (if bool_decide (status r = Executing) then Uncertain else Invalidated) now r.

Definition invalidateApprovalsForConversation (db : table) (conversationId : string)
    (tenantId memberId : option string) (now : Z) : table :=
  sql_update (fun r => String.eqb (conversation_id r) conversationId && opt_eqb tenantId (tenant_id r)
                && opt_eqb memberId (member_id r) && status_in [Pending; Approved; Executing] r)
    (cancel_set now) db.

Definition invalidateApprovalsForOwner (db : table) (tenantId memberId : string) (now : Z) : table :=
  sql_update (fun r => String.eqb (tenant_id r) tenantId && String.eqb (member_id r) memberId
                && status_in [Pending; Approved; Executing] r)
    (cancel_set now) db.

Definition deleteApprovalsForConversation (db : table) (conversationId : string)
    (tenantId memberId : option string) : table :=
  sql_delete (fun r => String.eqb (conversation_id r) conversationId && opt_eqb tenantId (tenant_id r)
                && opt_eqb memberId (member_id r)) db.

(** The recovery statement of the store's constructor: after a restart nothing that was
    waiting, approved or running can be executed. *)
Definition restart_set (now : Z) (r : ApprovalRecord) : ApprovalRecord :=
  set_state Uncertain (approved_by r) (approved_at r) (decision_revision r) true
    (idempotency_key r) now r.

Definition recoverApprovals (db : table) (now : Z) : table :=
  sql_update (status_in [Pending; Approved; Executing]) (restart_set now) db.

(** ** The life of a record

    The abstract machine every statement refines.  The terminal states have no way out,
    [Executing] is entered only from [Approved], and [Approved] only from [Pending]. *)

Definition may_become (s s' : ApprovalStatus) : bool :=
  match s, s' with
  | Pending, (Approved | Rejected | Invalidated | Expired | Uncertain) => true
  | Approved, (Executing | Invalidated | Expired | Uncertain) => true
  | Executing, (Succeeded | Uncertain | Invalidated) => true
  | _, _ => false
  end.

Definition terminal (s : ApprovalStatus) : bool :=
  match s with Pending | Approved | Executing => false | _ => true end.

(** The columns no statement ever updates: who asked for what, with which arguments,
    under which permission, and until when. *)
Definition binding (r : ApprovalRecord) :=
  (a_id r, approval_batch_id r, tenant_id r, member_id r, conversation_id r,
   participant_employee_id r, session_id r, snapshot_version r, permission_revision r,
   tool_call_id r, tool_call_entry_id r, prompt_receipt_ref r, tool_name r,
   canonical_args_hmac r, redacted_summary r, risk_level r, expires_at r, created_at r).

(** One statement's effect on one row; [G r by_] says who may approve the row, and is
    empty for every statement but a decision. *)
Definition approver : Type := ApprovalRecord -> option string -> Prop.
Definition nobody : approver := fun _ _ => False.

Inductive row_step (G : approver) : ApprovalRecord -> ApprovalRecord -> Prop :=
| RowSame r : row_step G r r
| RowStep r r' :
    binding r' = binding r -> may_become (status r) (status r') = true ->
    (consumed r = true -> consumed r' = true) ->
    (status r' = Executing -> consumed r = false /\ consumed r' = true /\ approved_by r' = approved_by r) ->
    (status r' = Approved -> G r (approved_by r')) ->
    decision_revision r <= decision_revision r' ->
    row_step G r r'.

(** The whole table moves row by row; nothing is added, dropped or reordered. *)
Definition table_step (G : approver) : table -> table -> Prop := Forall2 (row_step G).

Lemma row_step_binding G r r' : row_step G r r' -> binding r' = binding r.
Proof. by destruct 1. Qed.

Lemma row_step_id G r r' : row_step G r r' -> a_id r' = a_id r.
Proof. intros H%row_step_binding. by injection H. Qed.

Lemma row_step_consumed G r r' : row_step G r r' -> consumed r = true -> consumed r' = true.
Proof. destruct 1; auto. Qed.

Lemma row_step_terminal G r r' : row_step G r r' -> terminal (status r) = true -> r' = r.
Proof. destruct 1 as [|r r' _ Hm]; [done|]. by destruct (status r), (status r'). Qed.

Lemma row_step_weaken G G' r r' : (forall r by_, G r by_ -> G' r by_) -> row_step G r r' -> row_step G' r r'.
Proof. intros HG. destruct 1; constructor; auto. Qed.

#[export] Instance table_step_refl G : Reflexive (table_step G).
Proof. intros db. induction db; constructor; auto. constructor. Qed.

Lemma table_step_update G p f db :
  (forall r, r ∈ db -> p r = true -> row_step G r (f r)) -> table_step G db (sql_update p f db).
Proof.
  unfold sql_update, table_step. induction db as [|r db IH]; intros H; cbn; constructor.
  - destruct (p r) eqn:E; [apply H; [by left|done]|constructor].
  - apply IH. intros; apply H; [by right|done].
Qed.

Lemma table_step_ids G db db' : table_step G db db' -> a_id <$> db' = a_id <$> db.
Proof. induction 1 as [|r r' db db' Hr _ IH]; cbn; [done|]. f_equal; [by eapply row_step_id|done]. Qed.

Lemma table_step_elem G db db' r' :
  table_step G db db' -> r' ∈ db' -> exists r, r ∈ db /\ row_step G r r'.
Proof.
  induction 1 as [|r r1 db db' Hr _ IH]; [by intros ?%not_elem_of_nil|].
  intros [->|Hin]%elem_of_cons; [exists r; split; [by left|done]|].
  destruct (IH Hin) as (x & ? & ?). exists x; split; [by right|done].
Qed.

Lemma table_step_get G db db' id r :
  table_step G db db' -> getApprovalRecord db id = Some r ->
  exists r', getApprovalRecord db' id = Some r' /\ row_step G r r'.
Proof.
  unfold getApprovalRecord, sql_get. induction 1 as [|r1 r2 db db' Hr _ IH]; cbn; [done|].
  unfold by_id at 1 3. rewrite (row_step_id _ _ _ Hr).
  destruct (String.eqb (a_id r1) id); [|done]. intros [= <-]. by exists r2.
Qed.

Lemma status_in_true l r : status_in l r = true <-> status r ∈ l.
Proof. apply bool_decide_eq_true. Qed.

(** Discharges one statement's row obligation: read off the guard, then compute. *)
Ltac row_solve :=
  intros; boolify;
  repeat match goal with
  | H : status_in _ _ = true |- _ => apply status_in_true in H
  end;
  repeat match goal with
  | H : _ ∈ _ :: _ |- _ => apply elem_of_cons in H as [H|H]
  | H : _ ∈ [] |- _ => by apply not_elem_of_nil in H
  end;
  apply RowStep; cbn; try done;
  repeat match goal with H : status _ = _ |- _ => rewrite H end; cbn; auto; try done; try lia.

Lemma getOwned_Some db id t m c r : getOwnedApprovalRecord db id t m c = Some r ->
  r ∈ db /\ a_id r = id /\ tenant_id r = t /\ member_id r = m /\ conversation_id r = c.
Proof. intros [? H]%sql_get_Some. unfold owned_by in H. boolify. by split_and!. Qed.

Lemma getRecord_Some db id r : getApprovalRecord db id = Some r -> r ∈ db /\ a_id r = id.
Proof. intros [? H]%sql_get_Some. unfold by_id in H. by boolify. Qed.

Lemma get_by_id db r : NoDup (a_id <$> db) -> r ∈ db -> getApprovalRecord db (a_id r) = Some r.
Proof.
  intros Hd Hr. apply (sql_get_key a_id); [done|done|by apply String.eqb_refl|].
  intros r'. unfold by_id. intros. by boolify.
Qed.

(** With unique ids, reading by owner is reading by id and checking the owner. *)
Lemma getOwned_get db id t m c r : NoDup (a_id <$> db) ->
  getOwnedApprovalRecord db id t m c = Some r -> getApprovalRecord db id = Some r.
Proof. intros Hd (Hr & <- & _)%getOwned_Some. by apply get_by_id. Qed.

Lemma claimable_elem id t m c rev snap perm now r :
  claimable id t m c rev snap perm now r = true <->
  a_id r = id /\ tenant_id r = t /\ member_id r = m /\ conversation_id r = c /\
  status r = Approved /\ consumed r = false /\ decision_revision r = rev /\
  snapshot_version r = snap /\ permission_revision r = perm /\ now < expires_at r.
Proof.
  unfold claimable, owned_by, status_in.
  rewrite !andb_true_iff, !String.eqb_eq, negb_true_iff, bool_decide_eq_true, Z.eqb_eq, Z.ltb_lt,
    list_elem_of_singleton. tauto.
Qed.

Lemma claim_table_step db id t m c rev snap perm now :
  table_step nobody db (claimApproval db id t m c rev snap perm now).1.
Proof.
  unfold claimApproval. case_match; [reflexivity|]. cbn [fst]. apply table_step_update.
  intros r _ Hc0. apply claimable_elem in Hc0 as (_ & _ & _ & _ & Hs & Hc & _).
  apply RowStep; cbn; rewrite ?Hs; auto; try done; try lia.
Qed.

Lemma finish_table_step db id st now :
  st ∈ [Succeeded; Uncertain; Invalidated] -> table_step nobody db (finishApproval db id st now).
Proof.
  intros Hst. apply table_step_update. intros r _ H. unfold status_in in H. boolify.
  apply list_elem_of_singleton in H0 as Hs.
  apply RowStep; cbn; rewrite ?Hs; auto; try lia; repeat (apply elem_of_cons in Hst as [->|Hst]; [done|]);
    by apply not_elem_of_nil in Hst.
Qed.

Lemma expire_table_step db id now : table_step nobody db (expireApproval db id now).
Proof. apply table_step_update. row_solve. Qed.

Lemma cancel_row_step now r : status_in [Pending; Approved; Executing] r = true -> row_step nobody r (cancel_set now r).
Proof. unfold cancel_set. row_solve. Qed.

Lemma invalidateConversation_table_step db c t m now :
  table_step nobody db (invalidateApprovalsForConversation db c t m now).
Proof. apply table_step_update. intros r _ H. boolify. by apply cancel_row_step. Qed.

Lemma invalidateOwner_table_step db t m now : table_step nobody db (invalidateApprovalsForOwner db t m now).
Proof. apply table_step_update. intros r _ H. boolify. by apply cancel_row_step. Qed.

Lemma recover_table_step db now : table_step nobody db (recoverApprovals db now).
Proof. apply table_step_update. row_solve. Qed.

(** A decision is one row step for the decided record and, on a denial, one for each
    open record of its batch. *)
Definition decider (i : DecideInput) : approver := fun r by_ =>
  owned_by (d_id i) (d_tenantId i) (d_memberId i) (d_conversationId i) r = true /\
  d_decision i = Approve /\ by_ = Some (d_approvedBy i).

(** Every row with the decided id is the one the caller owns. *)
Definition owns_id (db : table) (i : DecideInput) : Prop := forall r, r ∈ db -> by_id (d_id i) r = true ->
  owned_by (d_id i) (d_tenantId i) (d_memberId i) (d_conversationId i) r = true.

Lemma getOwned_owns_id db i cur : NoDup (a_id <$> db) ->
  getOwnedApprovalRecord db (d_id i) (d_tenantId i) (d_memberId i) (d_conversationId i) = Some cur ->
  owns_id db i.
Proof.
  intros Hd Hown r Hr Hid. unfold by_id in Hid. boolify.
  pose proof (getOwned_Some _ _ _ _ _ _ Hown) as (Hc & Hcid & _).
  assert (r = cur) as -> by (eapply (NoDup_key_eq a_id); eauto; congruence).
  by apply sql_get_Some in Hown as [_ ?].
Qed.

Lemma decide_rows db i now : owns_id db i ->
  table_step (decider i) db (sql_update (fun r => by_id (d_id i) r && status_in [Pending] r) (decide_set i now) db).
Proof.
  intros Howns. apply table_step_update. intros r Hr H. unfold decide_set.
  assert (by_id (d_id i) r = true) as Hid by (by apply andb_true_iff in H as [? _]).
  destruct (d_decision i) eqn:Hdec; row_solve; intros _; split_and!; auto.
Qed.

Lemma sql_update_compose (p1 p2 : ApprovalRecord -> bool) f1 f2 db :
  sql_update p2 f2 (sql_update p1 f1 db) =
  map (fun r => let r1 := if p1 r then f1 r else r in if p2 r1 then f2 r1 else r1) db.
Proof. unfold sql_update. by rewrite map_map. Qed.

Lemma decide_deny_rows db i now (b : string -> bool) : d_decision i = Deny ->
  table_step (decider i) db
    (sql_update (fun r => b (approval_batch_id r) && negb (by_id (d_id i) r) && status_in [Pending; Approved] r)
       (move Invalidated now)
       (sql_update (fun r => by_id (d_id i) r && status_in [Pending] r) (decide_set i now) db)).
Proof.
  intros Hdec. rewrite sql_update_compose. unfold table_step. induction db as [|r db IH]; cbn; constructor; [|exact IH].
  destruct (by_id (d_id i) r && status_in [Pending] r) eqn:E1.
  - assert (by_id (d_id i) (decide_set i now r) = true) as ->.
    { apply andb_true_iff in E1 as [E1 _]. unfold decide_set. by rewrite Hdec. }
    rewrite andb_false_r; cbn. unfold decide_set; rewrite Hdec; row_solve.
  - destruct (_ && _ && status_in [Pending; Approved] r) eqn:E2; [|constructor].
    row_solve.
Qed.

Lemma decide_write_step db i now : owns_id db i -> table_step (decider i) db (decide_write db i now).
Proof.
  intros Howns. unfold decide_write. destruct (d_decision i) eqn:Hdec; [by apply decide_rows|].
  by apply (decide_deny_rows db i now (fun x => match approval_batch_id <$> getApprovalRecord
    (sql_update (fun r => by_id (d_id i) r && status_in [Pending] r) (decide_set i now) db) (d_id i)
    with Some b => String.eqb x b | None => false end)).
Qed.

(** Reading the decided record back. *)
Lemma decide_mid_get db i now cur :
  getApprovalRecord db (d_id i) = Some cur -> status cur = Pending ->
  getApprovalRecord (sql_update (fun r => by_id (d_id i) r && status_in [Pending] r)
    (decide_set i now) db) (d_id i) = Some (decide_set i now cur).
Proof.
  intros Hg Hp. unfold getApprovalRecord in *. rewrite sql_get_update.
  - rewrite Hg; cbn. apply sql_get_Some in Hg as [_ ->]. unfold status_in. by rewrite Hp.
  - intros r H. boolify. unfold by_id, decide_set. by destruct (d_decision i).
Qed.

Lemma decide_write_get db i now cur :
  getApprovalRecord db (d_id i) = Some cur -> status cur = Pending ->
  getApprovalRecord (decide_write db i now) (d_id i) = Some (decide_set i now cur).
Proof.
  intros Hg Hp. pose proof (decide_mid_get db i now cur Hg Hp) as Hg1.
  unfold decide_write. rewrite Hg1. destruct (d_decision i); [exact Hg1|].
  unfold getApprovalRecord in *. rewrite sql_get_update by (intros r H; done).
  rewrite Hg1; cbn. apply sql_get_Some in Hg1 as [_ ->]. by rewrite andb_false_r.
Qed.

Lemma decide_write_owned db i now cur : NoDup (a_id <$> db) ->
  getOwnedApprovalRecord db (d_id i) (d_tenantId i) (d_memberId i) (d_conversationId i) = Some cur ->
  status cur = Pending ->
  getOwnedApprovalRecord (decide_write db i now) (d_id i) (d_tenantId i) (d_memberId i)
    (d_conversationId i) = Some (decide_set i now cur).
Proof.
  intros Hd Hown Hp.
  pose proof (decide_write_get db i now cur (getOwned_get _ _ _ _ _ _ Hd Hown) Hp) as Hg.
  apply getRecord_Some in Hg as [Hin Hid].
  apply (sql_get_key a_id).
  - by rewrite (table_step_ids _ _ _ (decide_write_step db i now (getOwned_owns_id _ _ _ Hd Hown))).
  - done.
  - apply sql_get_Some in Hown as [_ Hown]. unfold owned_by, decide_set in *. by destruct (d_decision i).
  - intros r' H. unfold owned_by in H. boolify. congruence.
Qed.

(** A decision on a pending record in time, with a current revision. *)
Lemma decide_fresh db i now cur : NoDup (a_id <$> db) ->
  getOwnedApprovalRecord db (d_id i) (d_tenantId i) (d_memberId i) (d_conversationId i) = Some cur ->
  status cur = Pending -> now < expires_at cur -> stale_revision i cur = false ->
  decideApproval db i now = (decide_write db i now, Ok (decide_set i now cur)).
Proof.
  intros Hd Hown Hp Hnow Hrev. unfold decideApproval. rewrite Hown.
  apply Z.leb_gt in Hnow as ->. cbn [andb].
  assert (is_replay i cur = false) as ->.
  { unfold is_replay, status_in. rewrite Hp. by destruct (_ =? _)%string, (d_decision i). }
  rewrite Hrev, Hp; cbn. by rewrite (decide_write_get _ _ _ _ (getOwned_get _ _ _ _ _ _ Hd Hown) Hp).
Qed.

(** The outcomes of a decision on a record the caller owns. *)
Lemma decide_cases (db : table) i now cur : NoDup (a_id <$> db) ->
  getOwnedApprovalRecord db (d_id i) (d_tenantId i) (d_memberId i) (d_conversationId i) = Some cur ->
  (expires_at cur <= now /\ status_in [Pending; Approved] cur = true /\
    decideApproval db i now =
      (sql_update (by_id (d_id i)) (move Expired now) db, Err StoreApprovalExpiredError)) \/
  (exists r, decideApproval db i now = (db, r) /\ (forall x, r = Ok x -> x = cur /\ status cur <> Pending)) \/
  (status cur = Pending /\ now < expires_at cur /\
    decideApproval db i now = (decide_write db i now, Ok (decide_set i now cur))).
Proof.
  intros Hd Hown. pose proof (getOwned_get _ _ _ _ _ _ Hd Hown) as Hget.
  unfold decideApproval. rewrite Hown.
  destruct ((expires_at cur <=? now) && status_in [Pending; Approved] cur) eqn:Hexp.
  { left. boolify. done. }
  right. apply andb_false_iff in Hexp.
  destruct (is_replay i cur) eqn:Hr.
  { left. eexists; split; [done|]. intros x [= ->]. split; [done|]. intros Hs.
    unfold is_replay, status_in in Hr. rewrite Hs in Hr. by destruct (_ =? _)%string, (d_decision i). }
  destruct (stale_revision i cur); [left; by eexists|].
  destruct (bool_decide (status cur = Approved) && _) eqn:Ha.
  { left. boolify. eexists; split; [done|]. intros x [= ->]. split; [done|congruence]. }
  destruct (bool_decide (status cur = Rejected) && _) eqn:Hj.
  { left. boolify. eexists; split; [done|]. intros x [= ->]. split; [done|congruence]. }
  destruct (negb _) eqn:Hp; [left; by eexists|]. boolify. right.
  rewrite (decide_write_get _ _ _ _ Hget Hp). split_and!; [done| |done].
  destruct Hexp as [Hexp|Hexp]; boolify; [done|]. unfold status_in in Hexp. by rewrite Hp in Hexp.
Qed.

Lemma expire_by_id_step db id now cur :
  NoDup (a_id <$> db) -> getApprovalRecord db id = Some cur -> status_in [Pending; Approved] cur = true ->
  table_step nobody db (sql_update (by_id id) (move Expired now) db).
Proof.
  intros Hd Hg Hs. apply table_step_update. intros r Hr Hid. unfold by_id in Hid. boolify.
  apply getRecord_Some in Hg as [Hin Hc].
  assert (r = cur) as -> by (eapply (NoDup_key_eq a_id); eauto; congruence).
  row_solve.
Qed.

Lemma decide_table_step db i now :
  NoDup (a_id <$> db) -> table_step (decider i) db (decideApproval db i now).1.
Proof.
  intros Hd. destruct (getOwnedApprovalRecord db (d_id i) (d_tenantId i) (d_memberId i)
    (d_conversationId i)) as [cur|] eqn:Hown; [|unfold decideApproval; by rewrite Hown].
  destruct (decide_cases db i now cur Hd Hown) as [(_ & Hs & ->)|[(r & -> & _)|(_ & _ & ->)]]; cbn [fst].
  - eapply Forall2_impl; [eapply expire_by_id_step; eauto; by eapply getOwned_get|].
    intros r r'. by apply row_step_weaken.
  - reflexivity.
  - by eapply decide_write_step, getOwned_owns_id.
Qed.

Lemma decide_err_step db i now db' e :
  NoDup (a_id <$> db) -> decideApproval db i now = (db', Err e) -> table_step nobody db db'.
Proof.
  intros Hd H. destruct (getOwnedApprovalRecord db (d_id i) (d_tenantId i) (d_memberId i)
    (d_conversationId i)) as [cur|] eqn:Hown;
    [|unfold decideApproval in H; rewrite Hown in H; by injection H as <- _].
  destruct (decide_cases db i now cur Hd Hown) as [(_ & Hs & Heq)|[(r & Heq & _)|(_ & _ & Heq)]];
    rewrite Heq in H; simplify_eq; [|reflexivity].
  eapply expire_by_id_step; eauto. by eapply getOwned_get.
Qed.

(** ** Sequences of statements *)

Inductive finish_status : Type := FinSucceeded | FinUncertain | FinInvalidated.
Definition of_finish (s : finish_status) : ApprovalStatus :=
  match s with FinSucceeded => Succeeded | FinUncertain => Uncertain | FinInvalidated => Invalidated end.

Inductive store_op : Type :=
| OpCreate (i : ApprovalInput)
| OpDecide (i : DecideInput)
| OpClaim (id tenantId memberId conversationId : string) (rev : Z) (snap perm : string)
| OpFinish (id : string) (st : finish_status)
| OpExpire (id : string)
| OpCancelConversation (conversationId : string) (tenantId memberId : option string)
| OpCancelOwner (tenantId memberId : string)
| OpRestart.

Definition run_op (db : table) (x : store_op * Z) : table :=
  let (op, now) := x in
  match op with
  | OpCreate i => (createApprovalRecord db i now).1
  | OpDecide i => (decideApproval db i now).1
  | OpClaim id t m c rev snap perm => (claimApproval db id t m c rev snap perm now).1
  | OpFinish id st => finishApproval db id (of_finish st) now
  | OpExpire id => expireApproval db id now
  | OpCancelConversation c t m => invalidateApprovalsForConversation db c t m now
  | OpCancelOwner t m => invalidateApprovalsForOwner db t m now
  | OpRestart => recoverApprovals db now
  end.

Definition run_ops (db : table) (l : list (store_op * Z)) : table := fold_left run_op l db.

(** The abstract machine: zero or more lifecycle edges, with the columns of [binding]
    frozen and the single-use mark and the revision never going back. *)
Definition lifecycle (r r' : ApprovalRecord) : Prop :=
  binding r' = binding r /\ rtc (fun s s' => may_become s s' = true) (status r) (status r') /\
  (consumed r = true -> consumed r' = true) /\ decision_revision r <= decision_revision r'.

#[export] Instance lifecycle_refl : Reflexive lifecycle.
Proof. intros r. repeat split; auto; [apply rtc_refl|lia]. Qed.

#[export] Instance lifecycle_trans : Transitive lifecycle.
Proof.
  intros r1 r2 r3 (B1 & S1 & C1 & R1) (B2 & S2 & C2 & R2). repeat split.
  - congruence.
  - by etransitivity.
  - auto.
  - lia.
Qed.

Lemma row_step_lifecycle G r r' : row_step G r r' -> lifecycle r r'.
Proof. destruct 1; [reflexivity|]. repeat split; auto. by apply rtc_once. Qed.

Lemma lifecycle_terminal r r' :
  lifecycle r r' -> terminal (status r) = true -> status r' = status r.
Proof.
  intros (_ & Hs & _) Ht. inversion Hs as [|s1 s2 s3 H _]; subst; [done|].
  by destruct (status r), s2.
Qed.

Lemma create_table db i now :
  (createApprovalRecord db i now).1 = db \/
  ((createApprovalRecord db i now).1 = db ++ [approvalRow i now] /\
   (forall r, r ∈ db -> a_id r <> in_id i)).
Proof.
  unfold createApprovalRecord, sql_insert.
  destruct (existsb _ db) eqn:E; [by left|right]. cbn [fst]. split; [done|].
  intros r Hr Hid. assert (existsb (fun r => by_id (in_id i) r || same_call r (approvalRow i now)) db = true).
  { apply existsb_exists. exists r. rewrite <- list_elem_of_In. split; [done|].
    unfold by_id. by rewrite Hid, String.eqb_refl. }
  congruence.
Qed.

Lemma run_op_lifecycle db x : NoDup (a_id <$> db) ->
  NoDup (a_id <$> run_op db x) /\
  forall r, r ∈ db -> exists r', r' ∈ run_op db x /\ lifecycle r r'.
Proof.
  intros Hd. destruct x as [op now].
  assert (Hstep : forall G db', table_step G db db' -> NoDup (a_id <$> db') /\
    forall r, r ∈ db -> exists r', r' ∈ db' /\ lifecycle r r').
  { intros G db' Hs. split; [by rewrite (table_step_ids _ _ _ Hs)|]. intros r Hr.
    apply (get_by_id _ _ Hd) in Hr. destruct (table_step_get _ _ _ _ _ Hs Hr) as (r' & Hg & Hrow).
    exists r'. split; [by apply getRecord_Some in Hg as [? _]|by eapply row_step_lifecycle]. }
  destruct op; cbn [run_op].
  - destruct (create_table db i now) as [->|[-> Hn]]; [split; [done|intros r Hr; by exists r]|].
    split; [|intros r Hr; exists r; split; [by apply elem_of_app; left|done]].
    rewrite fmap_app. apply NoDup_app. split_and!; [done| |apply NoDup_singleton].
    intros k (r & -> & Hr)%list_elem_of_fmap Hk%list_elem_of_singleton. by eapply Hn.
  - by eapply Hstep, decide_table_step.
  - eapply Hstep, claim_table_step.
  - eapply Hstep, finish_table_step. destruct st; set_solver.
  - eapply Hstep, expire_table_step.
  - eapply Hstep, invalidateConversation_table_step.
  - eapply Hstep, invalidateOwner_table_step.
  - eapply Hstep, recover_table_step.
Qed.

(** ** Properties *)

(** C3. The store refines the approval lifecycle: under any sequence of its statements
    (creation, decision, claim, completion, expiry, cancellation, restart recovery) ids
    stay unique and every record only moves forward along the lifecycle; what it binds
    (owner, session, tool call, argument hash, permission revision, expiry) never
    changes, its single-use mark is never reset, and a record in a terminal state keeps
    that state for ever. *)
Theorem store_refines_lifecycle (db : table) (l : list (store_op * Z)) :
  NoDup (a_id <$> db) ->
  NoDup (a_id <$> run_ops db l) /\
  forall r, r ∈ db -> exists r', r' ∈ run_ops db l /\ lifecycle r r' /\
    (terminal (status r) = true -> status r' = status r).
Proof.
  unfold run_ops. revert db. induction l as [|x l IH]; intros db Hd; cbn [fold_left].
  - split; [done|]. intros r Hr. exists r. split_and!; auto. reflexivity.
  - destruct (run_op_lifecycle db x Hd) as [Hd' Hrow]. destruct (IH _ Hd') as [Hd'' Hrest].
    split; [done|]. intros r Hr. destruct (Hrow r Hr) as (r1 & Hr1 & Hl1).
    destruct (Hrest r1 Hr1) as (r2 & Hr2 & Hl2 & _). exists r2.
    assert (lifecycle r r2) by (by etransitivity).
    split_and!; auto. intros. by apply lifecycle_terminal.
Qed.

(** Deciding again with the same input is a safe replay: after a decision succeeded,
    the same request changes nothing and returns the same record, with whatever expected
    revision, as long as an approval has not run out meanwhile. *)
Theorem decision_replay_is_idempotent (db : table) (i : DecideInput) (now now' : Z) cur :
  NoDup (a_id <$> db) ->
  getOwnedApprovalRecord db (d_id i) (d_tenantId i) (d_memberId i) (d_conversationId i) = Some cur ->
  status cur = Pending -> now < expires_at cur -> now' < expires_at cur ->
  stale_revision i cur = false ->
  exists db' r, decideApproval db i now = (db', Ok r) /\
    status r = (match d_decision i with Approve => Approved | Deny => Rejected end) /\
    decideApproval db' i now' = (db', Ok r).
Proof.
  intros Hd Hown Hp Hnow Hnow' Hrev.
  exists (decide_write db i now), (decide_set i now cur).
  split_and!; [by apply decide_fresh|by unfold decide_set; destruct (d_decision i)|].
  unfold decideApproval. rewrite (decide_write_owned _ _ _ _ Hd Hown Hp).
  assert (expires_at (decide_set i now cur) = expires_at cur) as ->
    by (unfold decide_set; by destruct (d_decision i)).
  apply Z.leb_gt in Hnow' as ->. cbn [andb].
  unfold is_replay, decide_set, status_in. destruct (d_decision i); cbn; by rewrite String.eqb_refl.
Qed.

(** A denial takes its batch with it: denying a pending record rejects it and
    invalidates every other pending or approved record of the same batch, and touches no
    record of another batch. *)
Theorem deny_invalidates_open_batch (db : table) (i : DecideInput) (now : Z) cur :
  NoDup (a_id <$> db) -> d_decision i = Deny ->
  getOwnedApprovalRecord db (d_id i) (d_tenantId i) (d_memberId i) (d_conversationId i) = Some cur ->
  status cur = Pending -> now < expires_at cur -> stale_revision i cur = false ->
  exists r, decideApproval db i now = (decide_write db i now, Ok r) /\ status r = Rejected /\
    forall r1, r1 ∈ db -> a_id r1 <> d_id i -> exists r2, r2 ∈ decide_write db i now /\
      if String.eqb (approval_batch_id r1) (approval_batch_id cur) && status_in [Pending; Approved] r1
      then r2 = move Invalidated now r1 else r2 = r1.
Proof.
  intros Hd Hden Hown Hp Hnow Hrev.
  pose proof (getOwned_get _ _ _ _ _ _ Hd Hown) as Hget.
  exists (decide_set i now cur). split_and!; [by apply decide_fresh|unfold decide_set; by rewrite Hden|].
  intros r1 Hr1 Hne.
  pose proof (decide_mid_get db i now cur Hget Hp) as Hmid.
  unfold decide_write. rewrite Hden, Hmid, sql_update_compose.
  eexists. split; [apply list_elem_of_In, in_map, list_elem_of_In, Hr1|]. cbn zeta.
  assert (by_id (d_id i) r1 = false) as E by (by apply String.eqb_neq).
  rewrite E; cbn [andb]. rewrite E. cbn [fmap option_fmap option_map].
  assert (approval_batch_id (decide_set i now cur) = approval_batch_id cur) as ->
    by (unfold decide_set; by rewrite Hden).
  rewrite andb_true_r. by case_match.
Qed.

(** Comparing the stored ISO texts is comparing the times: for all times in the years
    0 to 9999 the claim's test [expires_at > now] and the expiry's test
    [expires_at <= now], made byte by byte on the texts, decide [now < expiry] and
    [expiry <= now] on the clock; so a claim and an expiry at the same moment can never
    both apply, and one of them always does. *)
Theorem expiry_text_comparison (now expiresAt : Z) :
  0 <= isoYearOf now <= 9999 -> 0 <= isoYearOf expiresAt <= 9999 ->
  expires_after_text (toISOString now) (toISOString expiresAt) = (now <? expiresAt) /\
  expires_by_text (toISOString now) (toISOString expiresAt) = (expiresAt <=? now) /\
  expires_after_text (toISOString now) (toISOString expiresAt) =
    negb (expires_by_text (toISOString now) (toISOString expiresAt)).
Proof.
  intros Hn He. unfold expires_after_text, expires_by_text, String.ltb, String.leb, Z.ltb, Z.leb.
  rewrite !iso_text_compare by done. split_and!; try done.
  rewrite (Z.compare_antisym now expiresAt). by destruct (now ?= expiresAt).
Qed.

(** ** Concrete runs *)

Definition demoInput (id : string) : ApprovalInput :=
  mkInput id "batch" "t" "m" "c" None "s" "v1" "p1" id None None "bash" "h" "bash: {}" RBash 1000 "k0"
    None None None None None None None.
Definition demoTable : table := run_ops [] [(OpCreate (demoInput "a"), 10); (OpCreate (demoInput "b"), 11)].
Definition demoDecide (d : Decision_) : DecideInput := mkDecide "a" "t" "m" "c" d (Some 0) "user" "k1".

Lemma demoTable_ids : NoDup (a_id <$> demoTable).
Proof. apply (bool_decide_unpack _). by vm_compute. Qed.

Lemma store_refines_lifecycle_witness :
  NoDup (a_id <$> run_ops demoTable [(OpDecide (demoDecide Approve), 20); (OpRestart, 30)]).
Proof. apply (store_refines_lifecycle demoTable _ demoTable_ids). Defined.

Lemma decision_replay_is_idempotent_witness :
  exists db' r, decideApproval demoTable (demoDecide Approve) 20 = (db', Ok r) /\ status r = Approved /\
    decideApproval db' (demoDecide Approve) 30 = (db', Ok r).
Proof.
  apply (decision_replay_is_idempotent demoTable (demoDecide Approve) 20 30 (approvalRow (demoInput "a") 10)
    demoTable_ids); vm_compute; reflexivity.
Defined.

Lemma deny_invalidates_open_batch_witness :
  exists r2, r2 ∈ (decideApproval demoTable (demoDecide Deny) 20).1 /\
    r2 = move Invalidated 20 (approvalRow (demoInput "b") 11).
Proof.
  destruct (deny_invalidates_open_batch demoTable (demoDecide Deny) 20 (approvalRow (demoInput "a") 10)
    demoTable_ids) as (r & -> & _ & H); [vm_compute; reflexivity..|].
  destruct (H (approvalRow (demoInput "b") 11)) as (r2 & Hr2 & Heq).
  - change demoTable with [approvalRow (demoInput "a") 10; approvalRow (demoInput "b") 11].
    right. left.
  - done.
  - by exists r2.
Defined.

Lemma expiry_text_comparison_witness :
  expires_after_text (toISOString 951782399999) (toISOString 951782400000) = true.
Proof.
  destruct (expiry_text_comparison 951782399999 951782400000) as [H _];
    [vm_compute; split; discriminate|vm_compute; split; discriminate|]. exact H.
Defined.
