(* ===== verification/ApprovalService.v ===== *)
(** The approval gate around tool execution (approval-service.ts, [ApprovalService], and
    pi/approval-extension.ts).

    A call of [execute] is a task.  It is synchronous up to its first [await], so it is
    split into [execute_begin] (the prefix, through the first pass of [waitAndClaim]'s
    loop), [resume] (the loop after a decision woke it), [start] (the continuation that
    calls the operation) and [finish].  The [waiters] map holds exactly the tasks in
    phase [Waiting], keyed by the record they wait on: [waitForDecision] adds a waiter,
    and every way of settling one runs its [cleanup].  The clock readings a piece of code
    makes are its arguments: [now] values come from the service's clock, [date] values
    from [new Date()] in the store. *)

From S2P Require Import Prelude Decimal Scope Sql ApprovalStore.
Local Open Scope Z_scope.

Definition POLICY_APPROVER : string := "policy:full-access".

Inductive PermissionMode : Type := ReadOnly | WorkspaceWrite | FullAccess.
#[export] Instance PermissionMode_eq_dec : EqDecision PermissionMode.
Proof. solve_decision. Defined.

(** *** Which tools need approval *)

Definition SAFE_TOOLS : list string :=
  ["read"; "grep"; "find"; "ls"; "knowledge_search"; "knowledge_get";
   "local_dir_search"; "local_dir_read";
   "hindsight_recall"; "memory_recall"; "todo_update"; "mention_employee"; "delegate_employee"].

(** ASCII lower case, enough for the [i] flag on the ASCII letters of the pattern. *)
Definition lowerAscii (c : Ascii.ascii) : Ascii.ascii :=
  let n := Ascii.nat_of_ascii c in
  if (65 <=? n)%nat && (n <=? 90)%nat then Ascii.ascii_of_nat (n + 32) else c.

Fixpoint lower (s : string) : string :=
  match s with EmptyString => EmptyString | String c s => String (lowerAscii c) (lower s) end.

(** [/^(?:external|connector|jira)[._:-]/iu]. *)
Definition isExternalName (toolName : string) : bool :=
  existsb (fun p => existsb (fun d => startsWith (p +:+ d) (lower toolName)) ["."; "_"; ":"; "-"])
    ["external"; "connector"; "jira"].

Definition approvalRiskForTool (toolName : string) : option ApprovalRisk :=
  if String.eqb toolName "bash" then Some RBash
  else if String.eqb toolName "write" then Some RWrite
  else if String.eqb toolName "edit" then Some REdit
  else if bool_decide (toolName ∈ SAFE_TOOLS) then None
  else if String.eqb toolName "hindsight_retain" || String.eqb toolName "memory_retain"
          || isExternalName toolName
  then Some RExternal
  else Some RUnknown.

(** *** Requests and errors *)

Section Service.
(** [Args] is the type of tool arguments, with the functions of the service that read
    them; [sha256] is Node's digest in hexadecimal. *)
Context {Args : Type} (canonicalArgsHmac : Args -> string)
  (redactedToolSummary : string -> Args -> string) (sha256 : string -> string).

Record ApprovalRequest : Type := mkRequest {
  rq_tenantId : string;
  rq_memberId : string;
  rq_conversationId : string;
  rq_participantEmployeeId : option string;
  rq_sessionId : string;
  rq_snapshotVersion : string;
  rq_permissionRevision : string;
  rq_toolCallId : string;
  rq_toolCallEntryId : option string;
  rq_promptReceiptRef : option string;
  rq_toolName : string;
  rq_args : Args;
  rq_riskLevel : ApprovalRisk;
  rq_permissionMode : option PermissionMode;
  rq_expiresAt : option num;
}.

Inductive denial : Type :=
| BindingChanged | AlreadyConsumed | NotRecoverable | DeniedByUser | BatchRejected.

Inductive service_error : Type :=
| ApprovalPermissionError
| ApprovalDeniedError (d : denial)
| ApprovalExpiredError
| ApprovalCancelledError
| StoreError (e : approval_error)
| OperationError.

(** [ttlMs] of the constructor. *)
Definition serviceTtl (ttlMs : option Z) : Z := clamp 1000 600000 (nullish ttlMs 600000).

Definition isLocalRisk (r : ApprovalRisk) : bool := bool_decide (r ∈ [RBash; RWrite; REdit]).

Definition autoApprove (rq : ApprovalRequest) : bool :=
  bool_decide (rq_permissionMode rq = Some FullAccess) && isLocalRisk (rq_riskLevel rq).

Definition forbidden (rq : ApprovalRequest) : bool :=
  bool_decide (rq_riskLevel rq ∈ [RWrite; REdit]) && bool_decide (rq_permissionMode rq = Some ReadOnly).

Definition requestExpiry (ttl now : Z) (rq : ApprovalRequest) : Z :=
  match finite_of (rq_expiresAt rq) with
  | Some e => Z.min (now + ttl) e
  | None => now + ttl
  end.

Definition approvalId (rq : ApprovalRequest) (hash : string) : string :=
  String.substring 0 32 (sha256 (encodeScope
    [rq_tenantId rq; rq_memberId rq; rq_conversationId rq; rq_sessionId rq; rq_toolCallId rq;
     hash; rq_snapshotVersion rq])).

Definition createInput (rq : ApprovalRequest) (hash : string) (auto : bool) (expiry now : Z)
    : ApprovalInput :=
  mkInput (approvalId rq hash)
    (encodeScope [rq_sessionId rq; nullish (rq_promptReceiptRef rq) (rq_toolCallId rq)])
    (rq_tenantId rq) (rq_memberId rq) (rq_conversationId rq) (rq_participantEmployeeId rq)
    (rq_sessionId rq) (rq_snapshotVersion rq) (rq_permissionRevision rq) (rq_toolCallId rq)
    (rq_toolCallEntryId rq) (rq_promptReceiptRef rq) (rq_toolName rq) hash
    (redactedToolSummary (rq_toolName rq) (rq_args rq)) (rq_riskLevel rq) expiry
    (encodeScope [rq_conversationId rq; rq_sessionId rq; rq_toolCallId rq])
    (if auto then Some Approved else None) None None
    (if auto then Some POLICY_APPROVER else None) (if auto then Some now else None) None None.

(** [create]: the record, or the refusal of a request that is already out of time. *)
Definition create (ttl : Z) (db : table) (rq : ApprovalRequest) (hash : string) (auto : bool)
    (now date : Z) : table * result service_error ApprovalRecord :=
  let expiry := requestExpiry ttl now rq in
  if expiry <=? now then (db, Err ApprovalExpiredError)
  else match createApprovalRecord db (createInput rq hash auto expiry now) date with
       | (db, Ok r) => (db, Ok r)
       | (db, Err e) => (db, Err (StoreError e))
       end.

(** [withApprovalGate] (pi/approval-extension.ts): how a call of a wrapped tool runs;
    [request] is what the host's callback returns for the call. *)
Inductive gate_call : Type := CallTool | CallService (rq : ApprovalRequest).

Definition withApprovalGate (toolName : string) (request : option ApprovalRequest) : gate_call :=
  match approvalRiskForTool toolName with
  | None => CallTool
  | Some _ => match request with None => CallTool | Some rq => CallService rq end
  end.

(** *** One pass of [waitAndClaim]'s loop *)

Inductive pass : Type :=
| PassClaimed (claimed : ApprovalRecord)
| PassWait (current : ApprovalRecord)
| PassThrow (e : service_error).

Record PassClock : Type := mkPassClock { at_claim : Z; at_check : Z; at_expire : Z }.

(** The tail of a pass, after the claim attempt: what the status of [current] allows. *)
Definition pass_check (db : table) (current : ApprovalRecord) (t : PassClock) : table * pass :=
  if status_in [Rejected; Invalidated; Succeeded; Executing] current
  then (db, PassThrow (ApprovalDeniedError AlreadyConsumed))
  else if status_in [Expired] current || (expires_at current <=? at_check t)
  then (expireApproval db (a_id current) (at_expire t), PassThrow ApprovalExpiredError)
  else if status_in [Uncertain] current
  then (db, PassThrow (ApprovalDeniedError NotRecoverable))
  else (db, PassWait current).

(** A claim that did not succeed: re-read the record before judging it. *)
Definition claim_failed (db : table) (current : ApprovalRecord) (t : PassClock) : table * pass :=
  let current := nullish (getApprovalRecord db (a_id current)) current in
  if status_in [Executing] current || consumed current
  then (db, PassThrow (ApprovalDeniedError AlreadyConsumed))
  else pass_check db current t.

Definition waitAndClaim_pass (db : table) (current : ApprovalRecord) (rq : ApprovalRequest)
    (t : PassClock) : table * pass :=
  if status_in [Approved] current then
    let (db, claimed) := claimApproval db (a_id current) (rq_tenantId rq) (rq_memberId rq)
      (rq_conversationId rq) (decision_revision current) (rq_snapshotVersion rq)
      (rq_permissionRevision rq) (at_claim t) in
    match claimed with
    | Some c => if status_in [Executing] c && consumed c then (db, PassClaimed c)
                else claim_failed db current t
    | None => claim_failed db current t
    end
  else pass_check db current t.

(** *** Tasks *)

Inductive phase : Type :=
| Waiting (current : ApprovalRecord)
| Woken (current : ApprovalRecord)
| Claimed (claimed : ApprovalRecord)
| Running (claimed : ApprovalRecord)
| Finished (outcome : result service_error unit).

Record Task : Type := mkTask {
  t_id : nat;
  t_request : ApprovalRequest;
  t_phase : phase;
}.

(** What the theorems observe: records created, approvals given and operations begun. *)
Inductive event : Type :=
| EvCreated (rq : ApprovalRequest) (id : string)
| EvHuman (i : DecideInput)
| EvPolicy (rq : ApprovalRequest) (id : string)
| EvStarted (task : nat) (rq : ApprovalRequest) (claimed : ApprovalRecord).

Record World : Type := mkWorld {
  w_db : table;
  w_tasks : list Task;
  w_log : list event;
}.

Definition set_phase (p : phase) (t : Task) : Task := mkTask (t_id t) (t_request t) p.

(** Settle every waiter whose record id passes [p]: resolved, or rejected with an error. *)
Definition settle_task (p : string -> bool) (err : option service_error) (t : Task) : Task :=
  match t_phase t with
  | Waiting cur =>
      if p (a_id cur)
      then set_phase (match err with None => Woken cur | Some e => Finished (Err e) end) t
      else t
  | _ => t
  end.

Definition settle (p : string -> bool) (err : option service_error) (ts : list Task) : list Task :=
  settle_task p err <$> ts.

Definition wake (id : string) (err : option service_error) (ts : list Task) : list Task :=
  settle (fun x => String.eqb x id) err ts.

Definition cancelBatch (db : table) (batchId exceptId : string) (ts : list Task) : list Task :=
  settle (fun id => negb (String.eqb id exceptId) &&
            match getApprovalRecord db id with
            | Some r => String.eqb (approval_batch_id r) batchId
            | None => false
            end) (Some (ApprovalDeniedError BatchRejected)) ts.

Definition isDue (now : Z) (r : ApprovalRecord) : bool :=
  status_in [Pending; Approved] r && (expires_at r <=? now).

(** [expireDue]: [now] is the service clock, read once per call. *)
Definition expireDue (w : World) (conversationId tenantId memberId : string) (now : Z) : World :=
  fold_left (fun w r =>
      if isDue now r
      then mkWorld (expireApproval (w_db w) (a_id r) now)
             (wake (a_id r) (Some ApprovalExpiredError) (w_tasks w)) (w_log w)
      else w)
    (listOwnedApprovalRecords (w_db w) conversationId tenantId memberId false) w.

Definition list_ (w : World) (conversationId tenantId memberId : string) (includeTerminal : bool)
    (now : Z) : World * list ApprovalRecord :=
  let w := expireDue w conversationId tenantId memberId now in
  (w, listOwnedApprovalRecords (w_db w) conversationId tenantId memberId includeTerminal).

Definition decide_ (w : World) (i : DecideInput) (now date : Z)
    : World * result service_error ApprovalRecord :=
  let w := expireDue w (d_conversationId i) (d_tenantId i) (d_memberId i) now in
  match decideApproval (w_db w) i date with
  | (db, Err e) => (mkWorld db (w_tasks w) (w_log w), Err (StoreError e))
  | (db, Ok record) =>
      let ts := if status_in [Rejected] record
                then cancelBatch db (approval_batch_id record) (a_id record) (w_tasks w)
                else w_tasks w in
      let ts := wake (a_id record)
        (if status_in [Approved] record then None else Some (ApprovalDeniedError DeniedByUser)) ts in
      let log := match d_decision i with Approve => EvHuman i :: w_log w | Deny => w_log w end in
      (mkWorld db ts log, Ok record)
  end.

Definition cancelConversation (w : World) (conversationId : string) (tenantId memberId : option string)
    (date : Z) : World :=
  let db := invalidateApprovalsForConversation (w_db w) conversationId tenantId memberId date in
  mkWorld db
    (settle (fun id => match getApprovalRecord db id with
                       | Some r => String.eqb (conversation_id r) conversationId
                                   && opt_eqb tenantId (tenant_id r) && opt_eqb memberId (member_id r)
                       | None => false
                       end) (Some ApprovalCancelledError) (w_tasks w))
    (w_log w).

Definition cancelOwner (w : World) (tenantId memberId : string) (date : Z) : World :=
  let db := invalidateApprovalsForOwner (w_db w) tenantId memberId date in
  mkWorld db
    (settle (fun id => match getApprovalRecord db id with
                       | Some r => String.eqb (tenant_id r) tenantId && String.eqb (member_id r) memberId
                       | None => false
                       end) (Some ApprovalCancelledError) (w_tasks w))
    (w_log w).

Definition clear_ (w : World) : World :=
  mkWorld (w_db w) (settle (fun _ => true) (Some ApprovalCancelledError) (w_tasks w)) (w_log w).

(** [waitForDecision] up to the registration of the waiter; an aborted signal cancels the
    conversation's approvals and rejects at once. *)
Definition conversationOf (db : table) (id : string) : string :=
  nullish (conversation_id <$> getApprovalRecord db id) "".

Definition waitForDecision (db : table) (current : ApprovalRecord) (aborted : bool) (date : Z)
    : table * phase :=
  if aborted
  then (invalidateApprovalsForConversation db (conversationOf db (a_id current)) None None date,
        Finished (Err ApprovalCancelledError))
  else (db, Waiting current).

(** One loop pass and what the task does next. *)
Definition run_pass (db : table) (current : ApprovalRecord) (rq : ApprovalRequest)
    (aborted : bool) (t : PassClock) (date : Z) : table * phase :=
  match waitAndClaim_pass db current rq t with
  | (db, PassClaimed c) => (db, Claimed c)
  | (db, PassThrow e) => (db, Finished (Err e))
  | (db, PassWait current) => waitForDecision db current aborted date
  end.

(** [execute] up to its first suspension. *)
Definition execute_begin (ttl : Z) (w : World) (tid : nat) (rq : ApprovalRequest) (aborted : bool)
    (now date : Z) (t : PassClock) : World :=
  let stop e := mkWorld (w_db w) (mkTask tid rq (Finished (Err e)) :: w_tasks w) (w_log w) in
  if forbidden rq then stop ApprovalPermissionError
  else
    let auto := autoApprove rq in
    let hash := canonicalArgsHmac (rq_args rq) in
    match findApprovalForTool (w_db w) (rq_tenantId rq) (rq_memberId rq) (rq_conversationId rq)
            (rq_sessionId rq) (rq_participantEmployeeId rq) (rq_toolCallId rq) hash
            (rq_snapshotVersion rq) with
    | Some existing =>
        if negb (String.eqb (permission_revision existing) (rq_permissionRevision rq))
           || negb (String.eqb (tool_name existing) (rq_toolName rq))
        then stop (ApprovalDeniedError BindingChanged)
        else
          let (db, p) := run_pass (w_db w) existing rq aborted t date in
          mkWorld db (mkTask tid rq p :: w_tasks w) (w_log w)
    | None =>
        match create ttl (w_db w) rq hash auto now date with
        | (_, Err e) => stop e
        | (db, Ok record) =>
            let log := EvCreated rq (a_id record) :: w_log w in
            let log := if auto then EvPolicy rq (a_id record) :: log else log in
            let (db, p) := run_pass db record rq aborted t date in
            mkWorld db (mkTask tid rq p :: w_tasks w) log
        end
    end.

(** The loop after a wake-up: [current = getApprovalRecord(current.id) ?? current]. *)
Definition resume (db : table) (current : ApprovalRecord) (rq : ApprovalRequest) (aborted : bool)
    (t : PassClock) (date : Z) : table * phase :=
  run_pass db (nullish (getApprovalRecord db (a_id current)) current) rq aborted t date.

(** The end of [execute]: the operation returned or threw. *)
Definition finish (db : table) (claimed : ApprovalRecord) (ok : bool) (date : Z) : table * phase :=
  if ok then (finishApproval db (a_id claimed) Succeeded date, Finished (Ok tt))
  else (finishApproval db (a_id claimed) Uncertain date, Finished (Err OperationError)).

(** The timer of a waiter, and the [abort] event of its signal. *)
Definition onTimer (w : World) (id : string) (now : Z) : World :=
  mkWorld (expireApproval (w_db w) id now) (wake id (Some ApprovalExpiredError) (w_tasks w)) (w_log w).

Definition onAbort (w : World) (id : string) (date : Z) : World :=
  mkWorld (invalidateApprovalsForConversation (w_db w) (conversationOf (w_db w) id) None None date)
    (wake id (Some ApprovalCancelledError) (w_tasks w)) (w_log w).

(** *** The service among its callers: any task may advance, and the store may be
    restarted or a conversation deleted, between any two suspensions.  A conversation is
    deleted only after [SessionHost.delete] has awaited every prompt of it. *)
Inductive label : Type :=
| LBegin (tid : nat) (rq : ApprovalRequest) | LResume | LStart | LFinish | LList | LDecide (i : DecideInput)
| LCancelConversation (c : string) (t m : option string) | LCancelOwner (t m : string) | LClear
| LTimer | LAbort | LRestart | LDelete (c : string).

Inductive step (ttl : Z) : label -> World -> World -> Prop :=
| StepBegin w tid rq aborted now date t :
    tid ∉ t_id <$> w_tasks w ->
    step ttl (LBegin tid rq) w (execute_begin ttl w tid rq aborted now date t)
| StepResume db ts1 tid rq current ts2 log aborted t date db' p :
    resume db current rq aborted t date = (db', p) ->
    step ttl LResume (mkWorld db (ts1 ++ mkTask tid rq (Woken current) :: ts2) log)
      (mkWorld db' (ts1 ++ mkTask tid rq p :: ts2) log)
| StepStart db ts1 tid rq c ts2 log :
    step ttl LStart (mkWorld db (ts1 ++ mkTask tid rq (Claimed c) :: ts2) log)
      (mkWorld db (ts1 ++ mkTask tid rq (Running c) :: ts2) (EvStarted tid rq c :: log))
| StepFinish db ts1 tid rq c ts2 log ok date db' p :
    finish db c ok date = (db', p) ->
    step ttl LFinish (mkWorld db (ts1 ++ mkTask tid rq (Running c) :: ts2) log)
      (mkWorld db' (ts1 ++ mkTask tid rq p :: ts2) log)
| StepList w c t m all now :
    step ttl LList w (list_ w c t m all now).1
| StepDecide w i now date :
    step ttl (LDecide i) w (decide_ w i now date).1
| StepCancelConversation w c t m date :
    step ttl (LCancelConversation c t m) w (cancelConversation w c t m date)
| StepCancelOwner w t m date :
    step ttl (LCancelOwner t m) w (cancelOwner w t m date)
| StepClear w : step ttl LClear w (clear_ w)
| StepTimer w id now : step ttl LTimer w (onTimer w id now)
| StepAbort w id date : step ttl LAbort w (onAbort w id date)
| StepRestart w now : step ttl LRestart w (mkWorld (recoverApprovals (w_db w) now) [] (w_log w))
| StepDelete w c :
    (forall t, t ∈ w_tasks w -> rq_conversationId (t_request t) = c -> exists o, t_phase t = Finished o) ->
    step ttl (LDelete c) w
      (mkWorld (deleteApprovalsForConversation (w_db w) c None None) (w_tasks w) (w_log w)).

Definition any_step (ttl : Z) (w w' : World) : Prop := exists l, step ttl l w w'.

Definition initialWorld : World := mkWorld [] [] [].

Definition reachable (ttl : Z) (w : World) : Prop := rtc (any_step ttl) initialWorld w.

(** ** The invariant of reachable worlds *)

Definition request_key (rq : ApprovalRequest) :=
  (rq_tenantId rq, rq_memberId rq, rq_conversationId rq, rq_participantEmployeeId rq, rq_sessionId rq,
   rq_snapshotVersion rq, rq_permissionRevision rq, rq_toolCallId rq, rq_toolName rq,
   canonicalArgsHmac (rq_args rq)).

Definition record_key (r : ApprovalRecord) :=
  (tenant_id r, member_id r, conversation_id r, participant_employee_id r, session_id r,
   snapshot_version r, permission_revision r, tool_call_id r, tool_name r, canonical_args_hmac r).

(** The record was made for exactly this call. *)
Definition bound (rq : ApprovalRequest) (r : ApprovalRecord) : Prop := record_key r = request_key rq.

(** Who approved: a decision of the record's owner, or the full-access policy. *)
Definition backedBy (log : list event) (r : ApprovalRecord) (who : string) : Prop :=
  (exists i, EvHuman i ∈ log /\ decider i r (Some who)) \/
  (who = POLICY_APPROVER /\ exists rq, EvPolicy rq (a_id r) ∈ log).

Definition backed (log : list event) (r : ApprovalRecord) : Prop :=
  exists who, approved_by r = Some who /\ backedBy log r who.

Definition row_ok (log : list event) (r : ApprovalRecord) : Prop :=
  status r = Approved \/ status r = Executing -> backed log r.

Definition task_ok (db : table) (log : list event) (t : Task) : Prop :=
  match t_phase t with
  | Waiting cur | Woken cur => forbidden (t_request t) = false /\ bound (t_request t) cur /\
      exists r, r ∈ db /\ binding r = binding cur
  | Claimed c => forbidden (t_request t) = false /\ bound (t_request t) c /\ backed log c
  | _ => True
  end.

Fixpoint log_ok (log : list event) : Prop :=
  match log with
  | [] => True
  | EvStarted _ rq c :: log => (forbidden rq = false /\ bound rq c /\ backed log c) /\ log_ok log
  | EvPolicy rq id :: log => (autoApprove rq = true /\ id = approvalId rq (canonicalArgsHmac (rq_args rq))) /\ log_ok log
  | _ :: log => log_ok log
  end.

Definition count {A} (p : A -> bool) (l : list A) : nat := length (List.filter p l).

Definition creates (id : string) : list event -> nat :=
  count (fun e => match e with EvCreated _ i => String.eqb i id | _ => false end).
Definition starts (id : string) : list event -> nat :=
  count (fun e => match e with EvStarted _ _ c => String.eqb (a_id c) id | _ => false end).
Definition claimedTasks (id : string) : list Task -> nat :=
  count (fun t => match t_phase t with Claimed c => String.eqb (a_id c) id | _ => false end).
Definition unused (id : string) : table -> nat :=
  count (fun r => by_id id r && negb (consumed r)).

Record world_ok (w : World) : Prop := mkWorldOk {
  ok_ids : NoDup (a_id <$> w_db w);
  ok_rows : forall r, r ∈ w_db w -> row_ok (w_log w) r;
  ok_tasks : forall t, t ∈ w_tasks w -> task_ok (w_db w) (w_log w) t;
  ok_count : forall id, (starts id (w_log w) + claimedTasks id (w_tasks w) + unused id (w_db w)
                         <= creates id (w_log w))%nat;
  ok_log : log_ok (w_log w);
}.

Lemma count_cons {A} (p : A -> bool) x l : count p (x :: l) = ((if p x then 1 else 0) + count p l)%nat.
Proof. unfold count; cbn. by destruct (p x). Qed.

Lemma count_app {A} (p : A -> bool) l1 l2 : count p (l1 ++ l2) = (count p l1 + count p l2)%nat.
Proof. unfold count. by rewrite List.filter_app, length_app. Qed.

Lemma binding_eq_id r r' : binding r' = binding r -> a_id r' = a_id r.
Proof. intros H. by injection H. Qed.

Lemma binding_eq_key r r' : binding r' = binding r -> record_key r' = record_key r.
Proof. unfold binding, record_key. congruence. Qed.

Lemma backedBy_binding log r r' who : binding r' = binding r -> backedBy log r who -> backedBy log r' who.
Proof.
  intros H. unfold backedBy, decider, owned_by.
  assert (a_id r' = a_id r /\ tenant_id r' = tenant_id r /\ member_id r' = member_id r /\
    conversation_id r' = conversation_id r) as (-> & -> & -> & ->)
    by (unfold binding in H; split_and!; congruence). done.
Qed.

Lemma backed_mono log e r : backed log r -> backed (e :: log) r.
Proof.
  intros (who & Hw & [(i & Hi & Hd)|(-> & rq & Hrq)]); exists who || exists POLICY_APPROVER; split; auto.
  - left. exists i. split; [by right|done].
  - right. split; [done|]. exists rq. by right.
Qed.

Lemma unused_step id G db db' : table_step G db db' -> (unused id db' <= unused id db)%nat.
Proof.
  unfold unused. induction 1 as [|r r' db db' Hr _ IH]; [done|]. rewrite !count_cons.
  unfold by_id at 1 3. rewrite (row_step_id _ _ _ Hr).
  pose proof (row_step_consumed _ _ _ Hr). destruct (String.eqb _ _), (consumed r), (consumed r'); cbn; try lia; naive_solver.
Qed.

Lemma rows_step G log db db' :
  table_step G db db' -> (forall r by_, G r by_ -> exists who, by_ = Some who /\ backedBy log r who) ->
  (forall r, r ∈ db -> row_ok log r) -> forall r, r ∈ db' -> row_ok log r.
Proof.
  intros Hs HG Hok r' Hr'. destruct (table_step_elem _ _ _ _ Hs Hr') as (r & Hr & Hrow).
  specialize (Hok r Hr). destruct Hrow as [r|r r' Hb Hm _ Hexe Happ _]; [done|].
  intros [Hst|Hst].
  - destruct (HG r (approved_by r') (Happ Hst)) as (who & Hw & Hbk). exists who. split; [done|].
    by eapply backedBy_binding.
  - destruct (Hexe Hst) as (_ & _ & Hby). rewrite Hst in Hm.
    destruct Hok as (who & Hw & Hbk); [by destruct (status r); auto|].
    exists who. split; [congruence|]. by eapply backedBy_binding.
Qed.

Lemma task_step G db db' log t : table_step G db db' -> task_ok db log t -> task_ok db' log t.
Proof.
  intros Hs. assert (Hex : forall b, (exists r, r ∈ db /\ binding r = b) -> exists r, r ∈ db' /\ binding r = b).
  { intros b. clear -Hs. induction Hs as [|r r' db db' Hr _ IH]; [done|].
    intros (x & [->|Hx]%elem_of_cons & Hb).
    - exists r'. split; [by left|]. by rewrite (row_step_binding _ _ _ Hr).
    - destruct IH as (y & ? & ?); [by exists x|]. exists y. split; [by right|done]. }
  unfold task_ok. destruct (t_phase t); auto; intros (? & ? & ?); split_and!; auto.
Qed.

(** The table may move by any statement whose approvals the log backs. *)
Lemma world_table_step G db db' ts log :
  table_step G db db' -> (forall r by_, G r by_ -> exists who, by_ = Some who /\ backedBy log r who) ->
  world_ok (mkWorld db ts log) -> world_ok (mkWorld db' ts log).
Proof.
  intros Hs HG [Hd Hr Ht Hc Hl]. constructor; cbn [w_db w_tasks w_log] in *.
  - by rewrite (table_step_ids _ _ _ Hs).
  - by eapply rows_step.
  - intros t Hin. by eapply task_step; [|apply Ht].
  - intros id. pose proof (unused_step id _ _ _ Hs). specialize (Hc id). lia.
  - done.
Qed.

Lemma world_quiet_step db db' ts log :
  table_step nobody db db' -> world_ok (mkWorld db ts log) -> world_ok (mkWorld db' ts log).
Proof. intros Hs. by apply (world_table_step nobody). Qed.

Lemma settle_task_ok p err db log t : task_ok db log t -> task_ok db log (settle_task p err t).
Proof.
  unfold settle_task, task_ok. destruct (t_phase t) eqn:E; rewrite ?E; auto.
  destruct (p _); [|by rewrite E]. by destruct err.
Qed.

Lemma claimed_settle id p err ts : claimedTasks id (settle p err ts) = claimedTasks id ts.
Proof.
  unfold claimedTasks, settle. induction ts as [|t ts IH]; [done|]. cbn [fmap list_fmap].
  rewrite !count_cons. f_equal; [|exact IH]. unfold settle_task.
  destruct (t_phase t) eqn:E; rewrite ?E; auto. destruct (p _); [by destruct err|by rewrite E].
Qed.

Lemma world_settle p err db ts log :
  world_ok (mkWorld db ts log) -> world_ok (mkWorld db (settle p err ts) log).
Proof.
  intros [Hd Hr Ht Hc Hl]. constructor; cbn [w_db w_tasks w_log] in *; auto.
  - intros t (t0 & -> & Hin)%list_elem_of_fmap. by apply settle_task_ok, Ht.
  - intros id. by rewrite claimed_settle.
Qed.

(** Log entries that only add evidence. *)
Lemma world_log e db ts log :
  log_ok (e :: log) -> (forall id, starts id [e] = 0%nat) ->
  world_ok (mkWorld db ts log) -> world_ok (mkWorld db ts (e :: log)).
Proof.
  intros Hlog Hst [Hd Hr Ht Hc Hl]. constructor; cbn [w_db w_tasks w_log] in *; auto.
  - intros r Hin Hs. by apply backed_mono, Hr.
  - intros t Hin. specialize (Ht t Hin). unfold task_ok in *.
    destruct (t_phase t); auto; destruct Ht as (? & ? & ?); split_and!; auto using backed_mono.
  - intros id. specialize (Hc id). specialize (Hst id). unfold starts, creates in *.
    rewrite !count_cons in *. cbn in Hst. lia.
Qed.

Lemma world_perm db ts ts' log : ts ≡ₚ ts' -> world_ok (mkWorld db ts log) -> world_ok (mkWorld db ts' log).
Proof.
  intros Hp [Hd Hr Ht Hc Hl]. constructor; cbn [w_db w_tasks w_log] in *; auto.
  - intros t Hin. apply Ht. by rewrite Hp.
  - intros id. enough (claimedTasks id ts = claimedTasks id ts') as <- by done.
    unfold claimedTasks. clear -Hp. induction Hp; rewrite ?count_cons; lia.
Qed.

Lemma world_drop db t ts log : world_ok (mkWorld db (t :: ts) log) -> world_ok (mkWorld db ts log).
Proof.
  intros [Hd Hr Ht Hc Hl]. constructor; cbn [w_db w_tasks w_log] in *; auto.
  - intros t' Hin. apply Ht. by right.
  - intros id. specialize (Hc id). unfold claimedTasks in *. rewrite count_cons in Hc. lia.
Qed.

Lemma world_add db t ts log :
  task_ok db log t -> (forall c, t_phase t <> Claimed c) ->
  world_ok (mkWorld db ts log) -> world_ok (mkWorld db (t :: ts) log).
Proof.
  intros Hok Hnc [Hd Hr Ht Hc Hl]. constructor; cbn [w_db w_tasks w_log] in *; auto.
  - by intros t' [->|Hin]%elem_of_cons; auto.
  - intros id. specialize (Hc id). unfold claimedTasks in *. rewrite count_cons.
    destruct (t_phase t); try done; by destruct (Hnc claimed).
Qed.

(** A successful claim consumes exactly one unused record, approved and in time. *)
Lemma claim_Some db id t m c rev snap perm now db' x :
  NoDup (a_id <$> db) -> claimApproval db id t m c rev snap perm now = (db', Some x) ->
  exists r, r ∈ db /\ claimable id t m c rev snap perm now r = true /\ x = claim_set now r /\
    (unused id db' + 1 <= unused id db)%nat.
Proof.
  intros Hd H. unfold claimApproval in H. set (p := claimable _ _ _ _ _ _ _ _) in *.
  destruct (sql_changes p db =? 0) eqn:E; [done|]. injection H as <- Hget. boolify.
  assert (exists r, r ∈ db /\ p r = true) as (r & Hr & Hp).
  { destruct (sql_get p db) as [r|] eqn:G; [exists r; by apply sql_get_Some|].
    destruct E. apply sql_changes_zero. by apply sql_get_None. }
  exists r. split_and!; [done|done| |].
  - apply getOwned_Some in Hget as (Hx & Hid & _).
    apply (NoDup_key_eq a_id (sql_update p (claim_set now) db)).
    + by rewrite keys_sql_update.
    + exact Hx.
    + apply elem_of_sql_update. exists r. by rewrite Hp.
    + apply claimable_elem in Hp as [Hrid _]. by rewrite Hid, <- Hrid.
  - assert (Hlen : (1 <= count p db)%nat).
    { unfold sql_changes in E. unfold count. lia. }
    enough (unused id (sql_update p (claim_set now) db) + count p db = unused id db)%nat by lia.
    clear -p. unfold unused, sql_update. induction db as [|r db IH]; [done|]. cbn [map].
    rewrite !count_cons. destruct (p r) eqn:Hp; [|lia].
    apply claimable_elem in Hp as (Hid & _ & _ & _ & _ & Hc & _).
    unfold by_id at 1 3. cbn [claim_set set_state a_id consumed]. rewrite Hid, Hc, String.eqb_refl. cbn. lia.
Qed.

Lemma claim_None db id t m c rev snap perm now db' :
  NoDup (a_id <$> db) -> claimApproval db id t m c rev snap perm now = (db', None) -> db' = db.
Proof.
  intros Hd H. unfold claimApproval in H. set (p := claimable _ _ _ _ _ _ _ _) in *.
  destruct (sql_changes p db =? 0) eqn:E; [by injection H|]. injection H as <- Hget. boolify.
  destruct E. apply sql_changes_zero. intros r Hr. destruct (p r) eqn:Hp; [|done].
  unfold getOwnedApprovalRecord in Hget.
  pose proof (proj1 (sql_get_None _ _) Hget (claim_set now r)) as Hno.
  rewrite <- Hno; [|apply elem_of_sql_update; exists r; by rewrite Hp].
  apply claimable_elem in Hp as (Hi & Ht & Hm & Hc & _).
  unfold owned_by; cbn. by rewrite Hi, Ht, Hm, Hc, !String.eqb_refl.
Qed.

Lemma pass_check_spec db cur t db' p : pass_check db cur t = (db', p) ->
  table_step nobody db db' /\ ((exists e, p = PassThrow e) \/ p = PassWait cur).
Proof.
  unfold pass_check. repeat case_match; intros [= <- <-]; split; eauto; try reflexivity.
  apply expire_table_step.
Qed.

Lemma same_row db r cur r' : NoDup (a_id <$> db) -> r ∈ db -> binding r = binding cur ->
  r' ∈ db -> a_id r' = a_id cur -> r' = r.
Proof.
  intros Hd Hr Hb Hr' Hid. eapply (NoDup_key_eq a_id); eauto. rewrite Hid. by apply binding_eq_id.
Qed.

Lemma claim_failed_spec db cur t db' p : NoDup (a_id <$> db) ->
  (exists r, r ∈ db /\ binding r = binding cur) -> claim_failed db cur t = (db', p) ->
  table_step nobody db db' /\
  ((exists e, p = PassThrow e) \/ exists cur', p = PassWait cur' /\ binding cur' = binding cur).
Proof.
  intros Hd (r & Hr & Hb). unfold claim_failed.
  assert (Hcur : binding (nullish (getApprovalRecord db (a_id cur)) cur) = binding cur).
  { destruct (getApprovalRecord db (a_id cur)) as [x|] eqn:G; [|done]. cbn.
    apply getRecord_Some in G as [Hx Hid]. by rewrite (same_row db r cur x). }
  case_match; [intros [= <- <-]; split; [reflexivity|eauto]|].
  intros [? [?| ->]]%pass_check_spec; split; eauto.
Qed.

Lemma pass_spec db cur rq t db' p : NoDup (a_id <$> db) ->
  (exists r, r ∈ db /\ binding r = binding cur) -> waitAndClaim_pass db cur rq t = (db', p) ->
  table_step nobody db db' /\
  ((exists c r, p = PassClaimed c /\ r ∈ db /\ status r = Approved /\ binding r = binding cur /\
      binding c = binding r /\ approved_by c = approved_by r /\ at_claim t < expires_at r /\
      (unused (a_id cur) db' + 1 <= unused (a_id cur) db)%nat) \/
   (exists e, p = PassThrow e) \/ (exists cur', p = PassWait cur' /\ binding cur' = binding cur)).
Proof.
  intros Hd Hrow. unfold waitAndClaim_pass. case_match; cycle 1.
  { intros [? [?| ->]]%pass_check_spec; split; eauto. }
  destruct (claimApproval _ _ _ _ _ _ _ _ _) as [db1 [c|]] eqn:Hclaim; cycle 1.
  { apply claim_None in Hclaim as ->; [|done]. intros [? ?]%claim_failed_spec; auto. }
  pose proof Hclaim as Hstep. apply (f_equal fst) in Hstep. cbn in Hstep.
  destruct (claim_Some _ _ _ _ _ _ _ _ _ _ _ Hd Hclaim) as (r & Hr & Hp & -> & Hun).
  cbn [status_in claim_set set_state status consumed]. intros [= <- <-].
  apply claimable_elem in Hp as (Hid & _ & _ & _ & Hst & _ & _ & _ & _ & Hexp).
  split; [rewrite <- Hstep; apply claim_table_step|].
  left. exists (claim_set (at_claim t) r), r. split_and!; try done.
  destruct Hrow as (r0 & Hr0 & Hb0). by rewrite (same_row db r0 cur r).
Qed.

Lemma run_pass_ok db cur rq aborted t date db' p tid ts log :
  world_ok (mkWorld db ts log) -> forbidden rq = false -> bound rq cur ->
  (exists r, r ∈ db /\ binding r = binding cur) ->
  run_pass db cur rq aborted t date = (db', p) -> world_ok (mkWorld db' (mkTask tid rq p :: ts) log).
Proof.
  intros Hw Hf Hbound Hrow. unfold run_pass.
  destruct (waitAndClaim_pass db cur rq t) as [db1 q] eqn:Hpass.
  destruct (pass_spec _ _ _ _ _ _ (ok_ids _ Hw) Hrow Hpass) as [Hs [(c & r & -> & Hr & Hst & Hb & Hbc & Hby & _ & Hun)
    |[(e & ->)|(cur' & -> & Hb)]]].
  - intros [= <- <-]. destruct Hw as [Hd Hrows Ht Hc Hl]. cbn [w_db w_tasks w_log] in *.
    assert (Hok : task_ok db1 log (mkTask tid rq (Claimed c))).
    { cbn. split_and!; [done| |].
      - unfold bound in *. rewrite <- Hbound. apply binding_eq_key. congruence.
      - destruct (Hrows r Hr) as (who & Hw & Hbk); [by left|]. exists who. split; [congruence|].
        by eapply backedBy_binding. }
    constructor; cbn [w_db w_tasks w_log].
    + by rewrite (table_step_ids _ _ _ Hs).
    + by eapply rows_step; [exact Hs| |].
    + intros t' [->|Hin]%elem_of_cons; [done|]. by eapply task_step; [|apply Ht].
    + intros id. specialize (Hc id). unfold claimedTasks in *. rewrite count_cons. cbn [t_phase].
      assert (a_id c = a_id cur) as -> by (apply binding_eq_id; congruence).
      destruct (String.eqb_spec (a_id cur) id) as [<-|]; [lia|].
      pose proof (unused_step id _ _ _ Hs). lia.
    + done.
  - intros [= <- <-]. apply world_add; [done|done|]. by eapply world_quiet_step.
  - unfold waitForDecision. destruct aborted; intros [= <- <-].
    + apply world_add; [done|done|]. eapply world_quiet_step; [apply invalidateConversation_table_step|].
      by eapply world_quiet_step.
    + apply world_add; [|done|by eapply world_quiet_step]. cbn. split_and!; [done| |].
      * unfold bound in *. rewrite <- Hbound. by apply binding_eq_key.
      * destruct Hrow as (r & Hr & Hbr). apply (get_by_id _ _ (ok_ids _ Hw)) in Hr.
        destruct (table_step_get _ _ _ _ _ Hs Hr) as (r' & Hg & Hst).
        exists r'. apply getRecord_Some in Hg as [? _]. split; [done|].
        apply row_step_binding in Hst. congruence.
Qed.

Lemma create_Ok ttl db rq hash auto now date db' r :
  create ttl db rq hash auto now date = (db', Ok r) ->
  let i := createInput rq hash auto (requestExpiry ttl now rq) now in
  now < requestExpiry ttl now rq /\ r = approvalRow i date /\ db' = db ++ [r] /\
  (forall r', r' ∈ db -> a_id r' <> in_id i).
Proof.
  unfold create. intros H. case_match; [done|]. boolify.
  set (i := createInput _ _ _ _ _) in *.
  destruct (create_table db i date) as [E|[E Hn]];
    destruct (createApprovalRecord db i date) as [db1 [r1|e]] eqn:Hc; simplify_eq/=.
  - exfalso. revert Hc. unfold createApprovalRecord, sql_insert. destruct (existsb _ _); [done|].
    intros [= Hbad _]. apply (f_equal length) in Hbad. rewrite length_app in Hbad. cbn in Hbad. lia.
  - enough (r = approvalRow i date) as -> by done.
    revert Hc. unfold createApprovalRecord, sql_insert. destruct (existsb _ _); [done|].
    intros [= Hget]. unfold getApprovalRecord in Hget. rewrite sql_get_app in Hget.
    assert (sql_get (by_id (in_id i)) db = None) as Hnone.
    { apply sql_get_None. intros x Hx. apply String.eqb_neq. by apply Hn. }
    cbn [in_id i createInput] in Hnone. rewrite Hnone in Hget. cbn in Hget. unfold by_id in Hget. cbn [approvalRow a_id] in Hget.
    rewrite String.eqb_refl in Hget. by injection Hget.
Qed.

Lemma find_Some db t m c s p call hash snap r : findApprovalForTool db t m c s p call hash snap = Some r ->
  r ∈ db /\ tenant_id r = t /\ member_id r = m /\ conversation_id r = c /\ session_id r = s /\
  participant_employee_id r = p /\ tool_call_id r = call /\ canonical_args_hmac r = hash /\ snapshot_version r = snap.
Proof.
  unfold findApprovalForTool. intros H.
  assert (Hl : forall l r, latest l = Some r -> r ∈ l).
  { clear. induction l as [|x l IH]; cbn; [done|]. intros r Hr.
    destruct (latest l) as [r'|] eqn:E; [|simplify_eq; left].
    destruct (_ <? _); simplify_eq; [right; auto|left]. }
  apply Hl, elem_of_sql_select in H as [Hr Hp]. unfold sql_is in Hp. boolify. by split_and!.
Qed.

Lemma create_world ttl db ts log rq now date db' r :
  let auto := autoApprove rq in let hash := canonicalArgsHmac (rq_args rq) in
  world_ok (mkWorld db ts log) -> create ttl db rq hash auto now date = (db', Ok r) ->
  world_ok (mkWorld db' ts (if auto then EvPolicy rq (a_id r) :: EvCreated rq (a_id r) :: log
                            else EvCreated rq (a_id r) :: log)) /\ bound rq r /\ r ∈ db'.
Proof.
  intros auto hash Hw (Hexp & -> & -> & Hn)%create_Ok.
  set (i := createInput _ _ _ _ _) in *. set (r := approvalRow i date).
  assert (Hrow : status r = Approved \/ status r = Executing -> auto = true /\ approved_by r = Some POLICY_APPROVER).
  { unfold r, i, createInput. cbn. destruct auto; cbn; [by auto|]. by intros [|]. }
  split; [|split; [done|apply elem_of_app; right; by left]].
  assert (Hw1 : world_ok (mkWorld db ts (if auto then EvPolicy rq (a_id r) :: EvCreated rq (a_id r) :: log
                            else EvCreated rq (a_id r) :: log))).
  { assert (world_ok (mkWorld db ts (EvCreated rq (a_id r) :: log))) by
      (apply world_log; [apply (ok_log _ Hw)|done|done]).
    destruct auto eqn:Ea; [|done]. apply world_log; [|done|done]. split; [|by apply (ok_log _ Hw)]. done. }
  destruct Hw1 as [Hd Hrows Ht Hc Hl]. cbn [w_db w_tasks w_log] in *. constructor; cbn [w_db w_tasks w_log].
  - rewrite fmap_app. apply NoDup_app. split_and!; [done| |apply NoDup_singleton].
    intros k (x & -> & Hx)%list_elem_of_fmap Hk%list_elem_of_singleton. by eapply Hn.
  - intros x [Hx| ->%list_elem_of_singleton]%elem_of_app; [auto|]. intros [-> Hby]%Hrow.
    exists POLICY_APPROVER. split; [done|]. right. split; [done|]. exists rq. by left.
  - intros t Hin. specialize (Ht t Hin). unfold task_ok in *.
    destruct (t_phase t); auto; destruct Ht as (? & ? & x & ? & ?); split_and!; auto;
      exists x; (split; [apply elem_of_app; by left|done]).
  - intros id. unfold unused. rewrite count_app, count_cons.
    pose proof (ok_count _ Hw id) as Hc0. unfold unused in Hc0. cbn [w_db w_tasks w_log] in Hc0.
    unfold starts, creates in *. unfold by_id at 2.
    destruct auto; rewrite !count_cons; cbn [r approvalRow i createInput consumed a_id in_id]; cbn [count length List.filter].
    all: destruct (String.eqb _ id); cbn; lia.
  - done.
Qed.

Lemma execute_begin_ok ttl w tid rq aborted now date t :
  world_ok w -> world_ok (execute_begin ttl w tid rq aborted now date t).
Proof.
  intros Hw. destruct w as [db ts log]. unfold execute_begin. cbn [w_db w_tasks w_log].
  assert (Hstop : forall e, world_ok (mkWorld db (mkTask tid rq (Finished (Err e)) :: ts) log)).
  { intros e. by apply world_add. }
  destruct (forbidden rq) eqn:Hf; [auto|].
  destruct (findApprovalForTool _ _ _ _ _ _ _ _ _) as [r|] eqn:Hfind.
  - destruct (_ || _) eqn:Hbind; [auto|]. boolify.
    apply find_Some in Hfind as (Hr & ? & ? & ? & ? & ? & ? & ? & ?).
    destruct (run_pass _ _ _ _ _ _) as [db' p] eqn:Hp. eapply run_pass_ok; eauto.
    unfold bound, record_key, request_key. congruence.
  - destruct (create _ _ _ _ _ _ _) as [db' [r|e]] eqn:Hc; [|auto].
    destruct (create_world ttl db ts log rq now date db' r Hw Hc) as (Hw' & Hb & Hr).
    destruct (run_pass _ _ _ _ _ _) as [db2 p] eqn:Hp. by eapply run_pass_ok; eauto.
Qed.

Lemma expireDue_ok w c t m now : world_ok w -> world_ok (expireDue w c t m now).
Proof.
  unfold expireDue. generalize (listOwnedApprovalRecords (w_db w) c t m false) as l.
  intros l. revert w. induction l as [|r l IH]; intros w Hw; cbn [fold_left]; [done|].
  apply IH. case_match; [|done]. apply world_settle. destruct w as [db ts log].
  eapply world_quiet_step; [apply expire_table_step|done].
Qed.

Lemma decide_ok w i now date : world_ok w -> world_ok (decide_ w i now date).1.
Proof.
  intros Hw. unfold decide_. apply (expireDue_ok _ (d_conversationId i) (d_tenantId i) (d_memberId i) now) in Hw.
  destruct (expireDue w _ _ _ now) as [db ts log]. cbn [w_db w_tasks w_log].
  destruct (decideApproval db i date) as [db' [r|e]] eqn:Hd; cbn [fst].
  - assert (Hw' : world_ok (mkWorld db' ts
        (match d_decision i with Approve => EvHuman i :: log | Deny => log end))).
    { apply (world_table_step (decider i) db).
      - rewrite <- (f_equal fst Hd : (decideApproval db i date).1 = db').
        apply decide_table_step. apply (ok_ids _ Hw).
      - intros x by_ Hby. pose proof Hby as (_ & Hap & ->). rewrite Hap. eexists. split; [done|].
        left. exists i. split; [by left|done].
      - destruct (d_decision i); [|done]. apply world_log; [apply (ok_log _ Hw)|done|done]. }
    unfold wake, cancelBatch. destruct (status_in [Rejected] r); repeat apply world_settle; exact Hw'.
  - eapply world_quiet_step; [|done]. eapply decide_err_step; [apply (ok_ids _ Hw)|done].
Qed.

Lemma delete_ok db ts log c :
  (forall t, t ∈ ts -> rq_conversationId (t_request t) = c -> exists o, t_phase t = Finished o) ->
  world_ok (mkWorld db ts log) -> world_ok (mkWorld (deleteApprovalsForConversation db c None None) ts log).
Proof.
  intros Hfin [Hd Hr Ht Hc Hl]. unfold deleteApprovalsForConversation.
  constructor; cbn [w_db w_tasks w_log] in *; auto.
  - eapply sublist_NoDup; [exact Hd|apply keys_sql_delete].
  - intros r [? _]%elem_of_sql_delete. auto.
  - intros t Hin. specialize (Ht t Hin). specialize (Hfin t Hin). unfold task_ok in *.
    destruct (t_phase t) eqn:Hph; auto.
    all: destruct Ht as (Hf & Hb & x & Hx & Hbx); split_and!; auto; exists x; split; [|done];
      apply elem_of_sql_delete; split; [done|]; cbn; rewrite !andb_true_r; apply String.eqb_neq;
      intros Hconv; destruct Hfin as [o [=]]; rewrite <- Hconv;
      unfold bound, record_key, request_key in Hb; unfold binding in Hbx; congruence.
  - intros id. specialize (Hc id). enough (unused id (sql_delete
      (fun r => (conversation_id r =? c)%string && opt_eqb None (tenant_id r) && opt_eqb None (member_id r)) db)
      <= unused id db)%nat by lia.
    unfold unused, sql_delete. clear. induction db as [|r db IH]; [done|]. cbn [List.filter].
    case_match; rewrite !count_cons; lia.
Qed.

Lemma middle_perm {A} (l1 l2 : list A) x : l1 ++ x :: l2 ≡ₚ x :: l1 ++ l2.
Proof. symmetry. apply Permutation_middle. Qed.

Lemma step_ok ttl l w w' : step ttl l w w' -> world_ok w -> world_ok w'.
Proof.
  destruct 1; intros Hw.
  - by apply execute_begin_ok.
  - eapply world_perm; [symmetry; apply middle_perm|].
    apply (world_perm _ _ _ _ (middle_perm _ _ _)) in Hw.
    pose proof (ok_tasks _ Hw _ ltac:(by left)) as (Hf & Hb & r & Hr & Hbr). cbn in Hr, Hf, Hb.
    apply world_drop in Hw as Hw'. unfold resume in H.
    assert (Hcur : binding (nullish (getApprovalRecord db (a_id current)) current) = binding current).
    { destruct (getApprovalRecord db (a_id current)) as [x|] eqn:G; [|done]. cbn.
      apply getRecord_Some in G as [Hx Hid]. by rewrite (same_row db r current x (ok_ids _ Hw)). }
    refine (run_pass_ok _ _ _ _ _ _ _ _ _ _ _ Hw' Hf _ _ H).
    + unfold bound in *. rewrite <- Hb. by apply binding_eq_key.
    + exists r. split; [done|congruence].
  - eapply world_perm; [symmetry; apply middle_perm|].
    apply (world_perm _ _ _ _ (middle_perm _ _ _)) in Hw.
    pose proof (ok_tasks _ Hw _ ltac:(by left)) as (Hf & Hb & Hbk). cbn in Hbk.
    destruct Hw as [Hd Hr Ht Hc Hl]. cbn [w_db w_tasks w_log] in *.
    constructor; cbn [w_db w_tasks w_log].
    + done.
    + intros r Hin Hs. by apply backed_mono, Hr.
    + intros t [->|Hin]%elem_of_cons; [done|]. specialize (Ht t ltac:(by right)). unfold task_ok in *.
      destruct (t_phase t); auto; destruct Ht as (? & ? & ?); split_and!; auto using backed_mono.
    + intros id. specialize (Hc id). unfold claimedTasks, starts, creates in *.
      rewrite !count_cons in *. cbn [t_phase] in *. lia.
    + done.
  - eapply world_perm; [symmetry; apply middle_perm|].
    apply (world_perm _ _ _ _ (middle_perm _ _ _)), world_drop in Hw.
    unfold finish in H. destruct ok; injection H as <- <-; (apply world_add; [done|done|]);
      (eapply world_quiet_step; [apply finish_table_step; set_solver|done]).
  - by apply expireDue_ok.
  - by apply decide_ok.
  - destruct w. apply world_settle. by eapply world_quiet_step; [apply invalidateConversation_table_step|].
  - destruct w. apply world_settle. by eapply world_quiet_step; [apply invalidateOwner_table_step|].
  - destruct w. by apply world_settle.
  - destruct w. apply world_settle. by eapply world_quiet_step; [apply expire_table_step|].
  - destruct w. apply world_settle. by eapply world_quiet_step; [apply invalidateConversation_table_step|].
  - destruct w as [db ts log]. apply (world_quiet_step db); [apply recover_table_step|].
    induction ts as [|t ts IH]; [done|]. by eapply IH, world_drop.
  - destruct w. by apply delete_ok.
Qed.

Lemma service_reachable_ok ttl w : reachable ttl w -> world_ok w.
Proof.
  assert (Hinit : world_ok initialWorld).
  { constructor; cbn; auto; try by intros ? ?%not_elem_of_nil. apply NoDup_nil_2. }
  unfold reachable. intros H. revert Hinit. generalize initialWorld as w0, H. clear.
  intros w0 H. induction H as [|w0 w1 w2 [l Hs] _ IH]; [done|]. intros. eapply IH, step_ok; eauto.
Qed.

Lemma claim_succeeds db r id t m c rev snap perm now : NoDup (a_id <$> db) -> r ∈ db ->
  claimable id t m c rev snap perm now r = true ->
  claimApproval db id t m c rev snap perm now =
    (sql_update (claimable id t m c rev snap perm now) (claim_set now) db, Some (claim_set now r)).
Proof.
  intros Hd Hr Hp. unfold claimApproval.
  destruct (sql_changes _ db =? 0) eqn:E; boolify.
  { rewrite (proj1 (sql_changes_zero _ _) E r Hr) in Hp. done. }
  f_equal. apply claimable_elem in Hp as Hc. destruct Hc as (Hi & Ht & Hm & Hc & _).
  apply (sql_get_key a_id).
  - by rewrite keys_sql_update.
  - apply elem_of_sql_update. exists r. by rewrite Hp.
  - unfold owned_by; cbn. by rewrite Hi, Ht, Hm, Hc, !String.eqb_refl.
  - intros r' H. unfold owned_by in H. boolify. cbn. congruence.
Qed.

(** ** Terminal records *)

(** Operations of record [id] begun or about to begin. *)
Definition executions (id : string) (w : World) : nat :=
  (starts id (w_log w) + claimedTasks id (w_tasks w))%nat.

Lemma table_step_keeps G db db' r :
  NoDup (a_id <$> db) -> table_step G db db' -> r ∈ db -> terminal (status r) = true -> r ∈ db'.
Proof.
  intros Hd Hs Hr Ht. apply (get_by_id _ _ Hd) in Hr.
  destruct (table_step_get _ _ _ _ _ Hs Hr) as (r' & Hg & Hst).
  apply row_step_terminal in Hst as ->; [|done]. by apply getRecord_Some in Hg as [? _].
Qed.

Lemma run_pass_terminal db cur rq aborted t date db' p r tid ts :
  NoDup (a_id <$> db) -> (exists r, r ∈ db /\ binding r = binding cur) ->
  run_pass db cur rq aborted t date = (db', p) -> r ∈ db -> terminal (status r) = true ->
  r ∈ db' /\ claimedTasks (a_id r) (mkTask tid rq p :: ts) = claimedTasks (a_id r) ts.
Proof.
  intros Hd Hrow. unfold run_pass.
  destruct (waitAndClaim_pass db cur rq t) as [db1 q] eqn:Hpass. intros H Hr Ht.
  destruct (pass_spec _ _ _ _ _ _ Hd Hrow Hpass) as [Hs Hcases].
  pose proof (table_step_keeps _ _ _ _ Hd Hs Hr Ht) as Hr1.
  unfold claimedTasks. rewrite count_cons.
  destruct Hcases as [(c & x & -> & Hx & Hst & Hb & Hbc & _)|[(e & ->)|(cur' & -> & _)]].
  - injection H as <- <-. split; [done|]. cbn [t_phase].
    destruct (String.eqb_spec (a_id c) (a_id r)) as [E|]; [|done].
    assert (x = r) as ->; [|by rewrite Hst in Ht].
    eapply (NoDup_key_eq a_id); eauto. rewrite <- E. symmetry. by apply binding_eq_id.
  - injection H as <- <-. done.
  - unfold waitForDecision in H. destruct aborted; injection H as <- <-; split; try done.
    eapply table_step_keeps; [|apply invalidateConversation_table_step|done|done].
    by rewrite (table_step_ids _ _ _ Hs).
Qed.

Lemma expireDue_terminal w c t m now r : world_ok w -> r ∈ w_db w -> terminal (status r) = true ->
  r ∈ w_db (expireDue w c t m now) /\ w_log (expireDue w c t m now) = w_log w /\
  claimedTasks (a_id r) (w_tasks (expireDue w c t m now)) = claimedTasks (a_id r) (w_tasks w).
Proof.
  intros Hw Hr Ht. pose proof (ok_ids _ Hw) as Hd. clear Hw. unfold expireDue.
  generalize (listOwnedApprovalRecords (w_db w) c t m false) as l. intros l.
  revert w Hr Hd. induction l as [|x l IH]; intros w Hr Hd; cbn [fold_left]; [done|].
  case_match; [|by apply IH].
  pose proof (expire_table_step (w_db w) (a_id x) now) as Hs.
  destruct (IH (mkWorld (expireApproval (w_db w) (a_id x) now)
    (wake (a_id x) (Some ApprovalExpiredError) (w_tasks w)) (w_log w))) as (H1 & H2 & H3).
  - by eapply table_step_keeps.
  - cbn. by rewrite (table_step_ids _ _ _ Hs).
  - split_and!; [done|done|]. rewrite H3. apply claimed_settle.
Qed.

Lemma execute_begin_terminal ttl w tid rq aborted now date t r :
  world_ok w -> r ∈ w_db w -> terminal (status r) = true ->
  let w' := execute_begin ttl w tid rq aborted now date t in
  r ∈ w_db w' /\ executions (a_id r) w' = executions (a_id r) w.
Proof.
  intros Hw Hr Ht. destruct w as [db ts log]. unfold execute_begin, executions. cbn [w_db w_tasks w_log] in *.
  assert (Hstop : forall e, claimedTasks (a_id r) (mkTask tid rq (Finished (Err e)) :: ts) = claimedTasks (a_id r) ts).
  { intros e. unfold claimedTasks. by rewrite count_cons. }
  destruct (forbidden rq) eqn:Hf; [cbn [w_db w_tasks w_log]; rewrite Hstop; auto|].
  destruct (findApprovalForTool _ _ _ _ _ _ _ _ _) as [x|] eqn:Hfind.
  - destruct (_ || _); [cbn [w_db w_tasks w_log]; rewrite Hstop; auto|].
    apply find_Some in Hfind as [Hx _].
    destruct (run_pass _ _ _ _ _ _) as [db' p] eqn:Hp. cbn [w_db w_tasks w_log].
    destruct (run_pass_terminal _ _ _ _ _ _ _ _ r tid ts
      (ok_ids _ Hw : NoDup (a_id <$> db)) (ex_intro _ x (conj Hx eq_refl)) Hp Hr Ht) as [? ->].
    auto.
  - destruct (create _ _ _ _ _ _ _) as [db' [x|e]] eqn:Hc; [|cbn [w_db w_tasks w_log]; rewrite Hstop; auto].
    destruct (create_world ttl db ts log rq now date db' x Hw Hc) as (Hw' & Hb & Hx).
    assert (r ∈ db') as Hr' by (apply create_Ok in Hc as (_ & _ & -> & _); apply elem_of_app; by left).
    destruct (run_pass _ _ _ _ _ _) as [db2 p] eqn:Hp. cbn [w_db w_tasks w_log].
    destruct (run_pass_terminal _ _ _ _ _ _ _ _ r tid ts
      (ok_ids _ Hw' : NoDup (a_id <$> db')) (ex_intro _ x (conj Hx eq_refl)) Hp Hr' Ht) as [? ->].
    split; [done|]. unfold starts. destruct (autoApprove rq); by rewrite !count_cons.
Qed.

Lemma claimed_middle id ts1 t ts2 :
  claimedTasks id (ts1 ++ t :: ts2) = claimedTasks id (t :: ts1 ++ ts2).
Proof. unfold claimedTasks. rewrite !count_app, !count_cons, count_app. lia. Qed.

Lemma step_terminal ttl l w w' r :
  step ttl l w w' -> world_ok w -> r ∈ w_db w -> terminal (status r) = true ->
  l <> LDelete (conversation_id r) ->
  r ∈ w_db w' /\ (executions (a_id r) w' <= executions (a_id r) w)%nat.
Proof.
  assert (Hquiet : forall G db db' ts ts' log, world_ok (mkWorld db ts log) -> table_step G db db' ->
    r ∈ db -> terminal (status r) = true -> (claimedTasks (a_id r) ts' <= claimedTasks (a_id r) ts)%nat ->
    r ∈ db' /\ (executions (a_id r) (mkWorld db' ts' log) <= executions (a_id r) (mkWorld db ts log))%nat).
  { intros G db db' ts ts' log Hw Hs Hr Ht Hc. split; [by eapply table_step_keeps; [apply (ok_ids _ Hw)|..]|].
    unfold executions; cbn [w_log w_tasks]. lia. }
  destruct 1; intros Hw Hr Ht Hl.
  - edestruct execute_begin_terminal as [? ->]; eauto.
  - cbn in Hr. apply (world_perm _ _ _ _ (middle_perm _ _ _)) in Hw.
    pose proof (ok_tasks _ Hw _ ltac:(by left)) as (_ & _ & x & Hx & Hbx). cbn in Hx.
    unfold resume in H. set (cur := nullish _ _) in H.
    assert (Hcur : binding cur = binding current).
    { unfold cur. destruct (getApprovalRecord db (a_id current)) as [y|] eqn:G; [|done]. cbn.
      apply getRecord_Some in G as [Hy Hid]. by rewrite (same_row db x current y (ok_ids _ Hw)). }
    destruct (run_pass_terminal _ _ _ _ _ _ _ _ r tid (ts1 ++ ts2)
      (ok_ids _ Hw : NoDup (a_id <$> db)) (ex_intro _ x (conj Hx (eq_trans Hbx (eq_sym Hcur)))) H Hr Ht) as [? Hcl].
    split; [done|]. unfold executions; cbn [w_log w_tasks]. rewrite !claimed_middle, Hcl.
    unfold claimedTasks. rewrite count_cons. lia.
  - split; [done|]. unfold executions; cbn [w_log w_tasks]. rewrite !claimed_middle.
    unfold claimedTasks, starts. rewrite !count_cons. cbn [t_phase]. lia.
  - cbn in Hr. unfold finish in H. destruct ok; injection H as <- <-;
      (eapply Hquiet; [done|apply finish_table_step; set_solver|done|done|]);
      rewrite !claimed_middle; unfold claimedTasks; by rewrite !count_cons.
  - destruct (expireDue_terminal w c t m now r Hw Hr Ht) as (? & Hlog & Hcl).
    split; [done|]. unfold executions, list_; cbn [fst]. by rewrite Hlog, Hcl.
  - destruct (expireDue_terminal w (d_conversationId i) (d_tenantId i) (d_memberId i) now r Hw Hr Ht)
      as (Hr1 & Hlog & Hcl). unfold decide_.
    apply (expireDue_ok _ (d_conversationId i) (d_tenantId i) (d_memberId i) now) in Hw.
    destruct (expireDue w _ _ _ now) as [db ts log]. cbn [w_db w_tasks w_log] in *.
    pose proof (decide_table_step db i date (ok_ids _ Hw)) as Hs.
    pose proof (table_step_keeps _ _ _ _ (ok_ids _ Hw) Hs Hr1 Ht) as Hr2.
    destruct (decideApproval db i date) as [db' [x|e]] eqn:Hd; cbn [fst w_db] in *; (split; [done|]).
    + unfold executions. cbn [w_log w_tasks]. unfold wake, cancelBatch.
      rewrite claimed_settle. rewrite <- Hlog, <- Hcl. destruct (status_in [Rejected] x);
        rewrite ?claimed_settle; unfold starts; destruct (d_decision i); rewrite ?count_cons; lia.
    + unfold executions. cbn [w_log w_tasks]. by rewrite Hlog, Hcl.
  - destruct w. eapply Hquiet; [done|apply invalidateConversation_table_step|done|done|]. by rewrite claimed_settle.
  - destruct w. eapply Hquiet; [done|apply invalidateOwner_table_step|done|done|]. by rewrite claimed_settle.
  - destruct w as [db ts log]. apply (Hquiet nobody db db); [done|reflexivity|done|done|]. by rewrite claimed_settle.
  - destruct w. eapply Hquiet; [done|apply expire_table_step|done|done|]. unfold wake. by rewrite claimed_settle.
  - destruct w. eapply Hquiet; [done|apply invalidateConversation_table_step|done|done|]. unfold wake. by rewrite claimed_settle.
  - destruct w. eapply Hquiet; [done|apply recover_table_step|done|done|]. unfold claimedTasks; cbn. lia.
  - cbn [w_db]. split; [|done]. apply elem_of_sql_delete. split; [done|]. cbn. rewrite !andb_true_r.
    apply String.eqb_neq. intros Hcv. by rewrite Hcv in Hl.
Qed.

(** ** An approved call does run *)

Lemma expire_other db id now r : r ∈ db -> (a_id r = id -> isDue now r = false) -> r ∈ expireApproval db id now.
Proof.
  intros Hr Hne. apply elem_of_sql_update. exists r. split; [done|].
  destruct (by_id id r) eqn:E; [|done]. cbn. unfold by_id in E. boolify. unfold isDue in Hne.
  by rewrite (Hne E).
Qed.

(** Expiring what is due leaves alone a record that is not, and whoever waits on it. *)
Lemma expireDue_keeps w conv tn mb now r : NoDup (a_id <$> w_db w) -> r ∈ w_db w -> isDue now r = false ->
  NoDup (a_id <$> w_db (expireDue w conv tn mb now)) /\ r ∈ w_db (expireDue w conv tn mb now) /\
  forall t cur, t ∈ w_tasks w -> t_phase t = Waiting cur -> a_id cur = a_id r ->
    t ∈ w_tasks (expireDue w conv tn mb now).
Proof.
  intros Hd Hr Hdue. unfold expireDue.
  assert (Hl : forall x, x ∈ listOwnedApprovalRecords (w_db w) conv tn mb false -> isDue now x = true ->
    a_id x <> a_id r).
  { intros x Hx Hdx Hid. assert (x ∈ w_db w).
    { unfold listOwnedApprovalRecords in Hx. apply (elem_of_sql_select
        (fun r => (conversation_id r =? conv)%string && (tenant_id r =? tn)%string && (member_id r =? mb)%string
          && (false || status_in [Pending; Approved; Executing] r))).
      revert Hx. generalize (sql_select (fun r => (conversation_id r =? conv)%string && (tenant_id r =? tn)%string
        && (member_id r =? mb)%string && (false || status_in [Pending; Approved; Executing] r)) (w_db w)).
      clear. intros l. assert (Hins : forall y l, x ∈ insert_newest y l -> x = y \/ x ∈ l).
      { clear. intros y l. induction l as [|z l IH]; cbn; [set_solver|]. case_match; set_solver. }
      induction l as [|y l IH]; cbn; [by intros ?%not_elem_of_nil|].
      intros [->|Hx]%Hins; [by left|right; auto]. }
    rewrite (NoDup_key_eq a_id _ _ _ Hd H Hr Hid) in Hdx. congruence. }
  revert Hl. generalize (listOwnedApprovalRecords (w_db w) conv tn mb false) as l. intros l.
  revert w Hd Hr. induction l as [|x l IH]; intros w Hd Hr Hl; cbn [fold_left]; [by split_and!|].
  destruct (isDue now x) eqn:Hx; [|apply IH; auto; intros; apply Hl; [by right|done]].
  pose proof (Hl x ltac:(by left) Hx) as Hne.
  edestruct (IH (mkWorld (expireApproval (w_db w) (a_id x) now)
    (wake (a_id x) (Some ApprovalExpiredError) (w_tasks w)) (w_log w))) as (Hd' & Hr' & Ht').
  - cbn. by rewrite (table_step_ids _ _ _ (expire_table_step _ _ _)).
  - cbn. by apply expire_other.
  - intros; apply Hl; [by right|done].
  - split_and!; [done|done|]. intros t cur Ht Hp Hid. eapply Ht'; eauto. cbn.
    apply list_elem_of_fmap. exists t. split; [|done]. unfold settle_task. rewrite Hp.
    destruct (String.eqb_spec (a_id cur) (a_id x)); [congruence|done].
Qed.

(** ** Properties *)

(** C2. Single use: in every reachable world the operations begun under a record id,
    together with the record if it is still unused, never exceed the records created
    under that id; so an approval is executed at most once, whatever replays, restarts,
    cancellations and concurrent calls happen. *)
Theorem approvals_execute_at_most_once (ttl : Z) (w : World) (id : string) :
  reachable ttl w -> (starts id (w_log w) + unused id (w_db w) <= creates id (w_log w))%nat.
Proof. intros Hw%service_reachable_ok. pose proof (ok_count _ Hw id). lia. Qed.

Lemma log_ok_app l1 l2 : log_ok (l1 ++ l2) -> log_ok l2.
Proof.
  induction l1 as [|e l1 IH]; [done|]. cbn. destruct e; auto; intros [_ ?]; auto.
Qed.

Lemma log_ok_policy log rq id : log_ok log -> EvPolicy rq id ∈ log -> autoApprove rq = true.
Proof.
  induction log as [|e log IH]; [by intros _ ?%not_elem_of_nil|]. cbn.
  intros Hok [<-|Hin]%elem_of_cons; [by destruct Hok as [[? _] _]|].
  destruct e; auto; destruct Hok; auto.
Qed.

(** C1. No execution without authority: whenever an operation begins, its request is not
    a write or edit in a read-only conversation, the claimed record was made for exactly
    this call (owner, conversation, session, participant, tool, argument hash, snapshot
    and permission revision), and before it either the record's owner had approved it, or
    the policy had, for a local tool in a full-access conversation. *)
Theorem executions_are_authorised (ttl : Z) (w : World) (l1 l2 : list event) tid rq c :
  reachable ttl w -> w_log w = l1 ++ EvStarted tid rq c :: l2 ->
  (rq_permissionMode rq = Some ReadOnly -> rq_riskLevel rq <> RWrite /\ rq_riskLevel rq <> REdit) /\
  bound rq c /\ exists who, approved_by c = Some who /\
    ((exists i, EvHuman i ∈ l2 /\ d_decision i = Approve /\ d_approvedBy i = who /\
        owned_by (d_id i) (d_tenantId i) (d_memberId i) (d_conversationId i) c = true) \/
     (who = POLICY_APPROVER /\ exists rq', EvPolicy rq' (a_id c) ∈ l2 /\
        rq_permissionMode rq' = Some FullAccess /\ isLocalRisk (rq_riskLevel rq') = true)).
Proof.
  intros Hw%service_reachable_ok Hlog. pose proof (ok_log _ Hw) as Hok. rewrite Hlog in Hok.
  apply log_ok_app in Hok as [(Hf & Hb & who & Hby & Hbk) Hl2]. split_and!; [|done|].
  { intros Hm. unfold forbidden in Hf. rewrite (bool_decide_eq_true_2 _ Hm), andb_true_r in Hf.
    apply bool_decide_eq_false in Hf. split; intros E; apply Hf; rewrite E; set_solver. }
  exists who. split; [done|]. destruct Hbk as [(i & Hi & Hown & Hap & [= ->])|(-> & rq' & Hrq)].
  - left. exists i. by split_and!.
  - right. split; [done|]. exists rq'. pose proof (log_ok_policy _ _ _ Hl2 Hrq) as Ha.
    unfold autoApprove in Ha. boolify. by split_and!.
Qed.

(** Steps that do not delete the conversation of record [r]. *)
Definition step_keeping (ttl : Z) (r : ApprovalRecord) (w w' : World) : Prop :=
  exists l, step ttl l w w' /\ l <> LDelete (conversation_id r).

(** A record that was rejected, invalidated by a cancellation or a denied batch,
    expired, made uncertain by a restart, or already executed, is never executed again:
    from any reachable world on, as long as its conversation is not deleted, the record
    stays as it is and no further operation begins under it. *)
Theorem terminal_records_never_execute (ttl : Z) (w w' : World) (r : ApprovalRecord) :
  reachable ttl w -> r ∈ w_db w -> terminal (status r) = true -> rtc (step_keeping ttl r) w w' ->
  r ∈ w_db w' /\ (executions (a_id r) w' <= executions (a_id r) w)%nat.
Proof.
  intros Hw%service_reachable_ok Hr Ht H. induction H as [w|w w1 w2 (l & Hs & Hl) _ IH]; [done|].
  destruct (step_terminal _ _ _ _ _ Hs Hw Hr Ht Hl) as [Hr1 Hle].
  destruct IH as [? ?]; [by eapply step_ok|done|]. split; [done|lia].
Qed.

(** C35. An approval that comes in time is acted on: when the owner approves a pending
    record a task waits on, before it expires and with a current revision, the decision
    succeeds, wakes that task, and the task's next loop pass before the expiry claims the
    record, so the operation is begun. *)
Theorem approved_call_is_claimed (ttl : Z) (w : World) (i : DecideInput) tid rq cur r now date t date' :
  reachable ttl w -> mkTask tid rq (Waiting cur) ∈ w_tasks w ->
  r ∈ w_db w -> a_id r = a_id cur -> status r = Pending -> consumed r = false ->
  d_decision i = Approve -> owned_by (d_id i) (d_tenantId i) (d_memberId i) (d_conversationId i) r = true ->
  stale_revision i r = false -> now < expires_at r -> date < expires_at r -> at_claim t < expires_at r ->
  exists w' r' db' c, decide_ w i now date = (w', Ok r') /\
    mkTask tid rq (Woken cur) ∈ w_tasks w' /\
    resume (w_db w') cur rq false t date' = (db', Claimed c) /\ a_id c = a_id r /\ status c = Executing.
Proof.
  intros Hw%service_reachable_ok Htask Hr Hid Hp Hcons Hap Hown Hrev Hnow Hdate Hclaim.
  pose proof (ok_tasks _ Hw _ Htask) as (_ & Hbound & x & Hx & Hbx). cbn in Hbound, Hbx.
  assert (x = r) as ->.
  { eapply (NoDup_key_eq a_id); eauto; [apply (ok_ids _ Hw)|]. rewrite Hid. by apply binding_eq_id. }
  assert (Hdue : isDue now r = false).
  { unfold isDue. apply Z.leb_gt in Hnow as ->. by rewrite andb_false_r. }
  destruct (expireDue_keeps w (d_conversationId i) (d_tenantId i) (d_memberId i) now r (ok_ids _ Hw) Hr Hdue)
    as (Hd1 & Hr1 & Ht1).
  specialize (Ht1 _ cur Htask eq_refl (eq_sym Hid)).
  unfold decide_. destruct (expireDue w _ _ _ now) as [db ts log]. cbn [w_db w_tasks w_log] in *.
  assert (Hget : getOwnedApprovalRecord db (d_id i) (d_tenantId i) (d_memberId i) (d_conversationId i) = Some r).
  { apply (sql_get_key a_id); auto. intros r' Ho'. unfold owned_by in Ho', Hown. boolify. congruence. }
  rewrite (decide_fresh _ _ _ _ Hd1 Hget Hp Hdate Hrev).
  unfold decide_set. rewrite Hap. cbn [status_in set_state status].
  set (r2 := set_state Approved _ _ _ _ _ _ r). set (db2 := decide_write db i date).
  assert (Hg2 : getApprovalRecord db2 (a_id cur) = Some r2).
  { pose proof (decide_write_get db i date r (getOwned_get _ _ _ _ _ _ Hd1 Hget) Hp) as Hg.
    unfold decide_set in Hg. rewrite Hap in Hg. rewrite <- Hid.
    unfold owned_by in Hown. boolify. by rewrite H. }
  assert (Hd2 : NoDup (a_id <$> db2)).
  { unfold db2. by rewrite (table_step_ids _ _ _ (decide_write_step db i date (getOwned_owns_id _ _ _ Hd1 Hget))). }
  do 2 eexists. exists (claimApproval db2 (a_id r2) (rq_tenantId rq) (rq_memberId rq) (rq_conversationId rq)
    (decision_revision r2) (rq_snapshotVersion rq) (rq_permissionRevision rq) (at_claim t)).1,
    (claim_set (at_claim t) r2).
  split_and!; [reflexivity| | |done|done].
  - cbn [w_tasks]. apply list_elem_of_fmap. exists (mkTask tid rq (Waiting cur)). split; [|done].
    unfold settle_task. cbn. by rewrite Hid, String.eqb_refl.
  - cbn [w_db]. unfold resume, run_pass. rewrite Hg2.
    change (nullish (Some r2) cur) with r2. unfold waitAndClaim_pass.
    change (status_in [Approved] r2) with true. cbn iota.
    assert (Hcl : claimable (a_id r2) (rq_tenantId rq) (rq_memberId rq) (rq_conversationId rq)
      (decision_revision r2) (rq_snapshotVersion rq) (rq_permissionRevision rq) (at_claim t) r2 = true).
    { unfold bound, record_key, request_key in Hbound. unfold binding in Hbx.
      apply claimable_elem. cbn. split_and!; try done; congruence. }
    apply getRecord_Some in Hg2 as [Hin2 _].
    rewrite (claim_succeeds db2 r2 _ _ _ _ _ _ _ _ Hd2 Hin2 Hcl). done.
Qed.
End Service.

(** ** A concrete run: request, approval, claim, start *)

Definition demoCanon (_ : unit) : string := "h".
Definition demoSummary (tool : string) (_ : unit) : string := tool.
Definition demoSha (s : string) : string := s.
Definition demoRequest : @ApprovalRequest unit :=
  mkRequest "t" "m" "c" None "s" "v1" "p1" "call" None None "bash" tt RBash (Some WorkspaceWrite) None.
Definition demoClock (n : Z) : PassClock := mkPassClock n n n.
Definition demoWaiting : @World unit := Eval vm_compute in
  execute_begin demoCanon demoSummary demoSha 600000 initialWorld 0 demoRequest false 10 10 (demoClock 10).
Definition demoRecord : ApprovalRecord := Eval vm_compute in
  approvalRow (createInput demoSummary demoSha demoRequest "h" false 600010 10) 10.
Definition demoApprove : DecideInput :=
  mkDecide (a_id demoRecord) "t" "m" "c" Approve (Some 0) "user" "k1".
Definition demoWoken : @World unit := Eval vm_compute in (decide_ demoWaiting demoApprove 20 20).1.
Definition demoClaim := Eval vm_compute in
  resume (w_db demoWoken) demoRecord demoRequest false (demoClock 30) 30.
Definition demoClaimed : ApprovalRecord := Eval vm_compute in
  match demoClaim.2 with Claimed c => c | _ => demoRecord end.
Definition demoStarted : @World unit := Eval vm_compute in
  mkWorld demoClaim.1 [mkTask 0 demoRequest (Running demoClaimed)]
    (EvStarted 0 demoRequest demoClaimed :: w_log demoWoken).
Definition demoRestarted : @World unit := Eval vm_compute in
  mkWorld (recoverApprovals (w_db demoWaiting) 40) [] (w_log demoWaiting).

Lemma demoWaiting_reachable : reachable demoCanon demoSummary demoSha 600000 demoWaiting.
Proof.
  apply rtc_once. eexists.
  apply (StepBegin demoCanon demoSummary demoSha 600000 initialWorld 0 demoRequest false 10 10 (demoClock 10)).
  set_solver.
Qed.

Lemma demoStarted_reachable : reachable demoCanon demoSummary demoSha 600000 demoStarted.
Proof.
  unfold reachable; etransitivity; [exact demoWaiting_reachable|].
  eapply rtc_l; [eexists; apply (StepDecide _ _ _ 600000 demoWaiting demoApprove 20 20)|].
  eapply rtc_l.
  { eexists. apply (StepResume demoCanon demoSummary demoSha 600000 (w_db demoWoken) [] 0 demoRequest demoRecord []
      (w_log demoWoken) false (demoClock 30) 30 demoClaim.1 (Claimed demoClaimed)). reflexivity. }
  apply rtc_once. eexists. apply (StepStart demoCanon demoSummary demoSha 600000 demoClaim.1 [] 0 demoRequest demoClaimed [] _).
Qed.

Lemma demoRestarted_reachable : reachable demoCanon demoSummary demoSha 600000 demoRestarted.
Proof.
  eapply rtc_r; [exact demoWaiting_reachable|]. eexists.
  apply (StepRestart demoCanon demoSummary demoSha 600000 demoWaiting 40).
Qed.

Lemma approvals_execute_at_most_once_witness :
  (starts (a_id demoRecord) (w_log demoStarted) + unused (a_id demoRecord) (w_db demoStarted) <= 1)%nat.
Proof.
  apply (approvals_execute_at_most_once demoCanon demoSummary demoSha 600000 demoStarted (a_id demoRecord)
    demoStarted_reachable).
Defined.

Lemma executions_are_authorised_witness :
  (rq_permissionMode demoRequest = Some ReadOnly -> rq_riskLevel demoRequest <> RWrite /\ rq_riskLevel demoRequest <> REdit) /\
  approved_by demoClaimed = Some "user".
Proof.
  destruct (executions_are_authorised demoCanon demoSummary demoSha 600000 demoStarted [] (w_log demoWoken) 0
    demoRequest demoClaimed demoStarted_reachable eq_refl) as (Hf & _ & who & Hby & _).
  split; [exact Hf|reflexivity].
Defined.

Definition demoUncertain : ApprovalRecord := restart_set 40 demoRecord.

Lemma terminal_records_never_execute_witness :
  demoUncertain ∈ w_db demoRestarted /\ executions (a_id demoUncertain) demoRestarted = 0%nat.
Proof.
  destruct (terminal_records_never_execute demoCanon demoSummary demoSha 600000 demoRestarted demoRestarted
    demoUncertain demoRestarted_reachable ltac:(by left) eq_refl (rtc_refl _ _)) as [Hin _].
  split; [exact Hin|reflexivity].
Defined.

Lemma approved_call_is_claimed_witness :
  exists w' r' db' c, decide_ demoWaiting demoApprove 20 20 = (w', Ok r') /\
    mkTask 0 demoRequest (Woken demoRecord) ∈ w_tasks w' /\
    resume (w_db w') demoRecord demoRequest false (demoClock 30) 30 = (db', Claimed c) /\
    a_id c = a_id demoRecord /\ status c = Executing.
Proof.
  apply (approved_call_is_claimed demoCanon demoSummary demoSha 600000 demoWaiting demoApprove 0 demoRequest
    demoRecord demoRecord 20 20 (demoClock 30) 30 demoWaiting_reachable);
    try reflexivity; by left.
Defined.
