(* ===== verification/ExecAuth.v ===== *)
(** Execution identities and the Manager clock (execution-authorization.ts, clock.ts).

    The registry lends a signed-in member's identity to background work.  Its two maps
    are keyed by the scope encoding of tenant and member; the theorem below shows that
    the whole machinery of encoded keys and generations implements a plain table indexed
    by the pair. *)

From S2P Require Import Prelude Decimal Scope.
Local Open Scope Z_scope.

(** The caller as far as the registry reads it. *)
Record AuthenticatedCaller : Type := mkCaller {
  c_tenantId : option string;
  c_userId : option string;
  c_callerId : string;
  c_exp : option num;
  c_accessToken : option string;
}.

Record ExecutionIdentity : Type := mkIdentity {
  i_caller : AuthenticatedCaller;
  i_tenantId : string;
  i_memberId : string;
  i_expiresAt : num;
  i_generation : Z;
}.

Record Registry : Type := mkRegistry {
  identities : list (string * ExecutionIdentity);
  generations : list (string * Z);
}.

Definition emptyRegistry : Registry := mkRegistry [] [].

Definition callerMemberId (c : AuthenticatedCaller) : string := nullish (c_userId c) (c_callerId c).

(** [!value] of an optional string. *)
Definition falsy (s : option string) : bool :=
  match s with None => true | Some s => String.eqb s "" end.

(** [expiry <= now]. *)
Definition num_le (x : num) (now : Z) : bool :=
  match x with Fin e => e <=? now | NegInf => true | PosInf | NaN => false end.

Definition callerExpiry (c : AuthenticatedCaller) : num :=
  match finite_of (c_exp c) with Some e => Fin (e * 1000) | None => PosInf end.

Definition key (tenantId memberId : string) : string := encodeScope [tenantId; memberId].

Definition generation (r : Registry) (k : string) : Z := nullish (mget k (generations r)) 0.

Definition register (r : Registry) (c : AuthenticatedCaller) (now : Z)
    : Registry * option ExecutionIdentity :=
  match c_tenantId c with
  | Some tenantId =>
      if String.eqb tenantId "" || String.eqb (callerMemberId c) "" then (r, None)
      else
        let memberId := callerMemberId c in
        let expiry := callerExpiry c in
        if num_le expiry now then (r, None)
        else
          let k := key tenantId memberId in
          let identity := mkIdentity c tenantId memberId expiry (generation r k) in
          (mkRegistry (mset k identity (identities r)) (generations r), Some identity)
  | None => (r, None)
  end.

Definition resolve (r : Registry) (tenantId memberId : string) (requireAccessToken : bool) (now : Z)
    : Registry * option AuthenticatedCaller :=
  let k := key tenantId memberId in
  match mget k (identities r) with
  | None => (r, None)
  | Some identity =>
      if negb (i_generation identity =? generation r k) || num_le (i_expiresAt identity) now
      then (mkRegistry (mdelete k (identities r)) (generations r), None)
      else if requireAccessToken && falsy (c_accessToken (i_caller identity)) then (r, None)
      else (r, Some (i_caller identity))
  end.

Definition get (r : Registry) (tenantId memberId : string) (now : Z)
    : Registry * option ExecutionIdentity :=
  match resolve r tenantId memberId false now with
  | (r, None) => (r, None)
  | (r, Some _) => (r, mget (key tenantId memberId) (identities r))
  end.

Definition bump (r : Registry) (k : string) : list (string * Z) :=
  mset k (generation r k + 1) (generations r).

Definition invalidate (r : Registry) (tenantId memberId : string) : Registry :=
  let k := key tenantId memberId in
  mkRegistry (mdelete k (identities r)) (bump r k).

Definition clear (r : Registry) : Registry :=
  mkRegistry []
    (generations (fold_left (fun r k => mkRegistry (identities r) (bump r k)) (mkeys (identities r)) r)).

(** ** The Manager clock; times in half milliseconds, since the midpoint of a round trip
    is a half-integer. *)

Definition MAX_CLOCK_OFFSET_MS : Z := 7 * 24 * 60 * 60 * 1000.
Definition MAX_OBSERVED_RTT_MS : Z := 10000.

(** [observe]: [date] is what [Date.parse] makes of the header, [None] when it is missing
    or empty; [age] is [Number] of the [age] header. *)
Definition observe (offset2 : Z) (date : option num) (age : option num) (sentAt receivedAt : Z) : Z :=
  match date with
  | None => offset2
  | Some managerTime =>
      if match nullish age (Fin 0) with Fin a => 0 <? a | _ => false end then offset2
      else
        let rtt := receivedAt - sentAt in
        match managerTime with
        | Fin m =>
            if (rtt <? 0) || (MAX_OBSERVED_RTT_MS <? rtt) then offset2
            else
              let offset := 2 * m - (2 * sentAt + rtt) in
              if 2 * MAX_CLOCK_OFFSET_MS <? Z.abs offset then offset2 else offset
        | _ => offset2
        end
  end.

Definition clock_now (offset2 date : Z) : Z := 2 * date + offset2.

Definition clock_reset : Z := 0.

(** ** The specification: one optional identity per tenant and member *)

Definition spec : Type := string -> string -> option AuthenticatedCaller.

Definition emptySpec : spec := fun _ _ => None.

Definition spec_set (s : spec) (t m : string) (v : option AuthenticatedCaller) : spec :=
  fun t' m' => if String.eqb t' t && String.eqb m' m then v else s t' m'.

Definition spec_register (s : spec) (c : AuthenticatedCaller) (now : Z) : spec :=
  match c_tenantId c with
  | Some t => if String.eqb t "" || String.eqb (callerMemberId c) "" || num_le (callerExpiry c) now then s
              else spec_set s t (callerMemberId c) (Some c)
  | None => s
  end.

(** Expired identities are dropped by the look-up that finds them. *)
Definition spec_resolve (s : spec) (t m : string) (token : bool) (now : Z)
    : spec * option AuthenticatedCaller :=
  match s t m with
  | None => (s, None)
  | Some c => if num_le (callerExpiry c) now then (spec_set s t m None, None)
              else (s, if token && falsy (c_accessToken c) then None else Some c)
  end.

Inductive op : Type :=
| ORegister (c : AuthenticatedCaller) (now : Z)
| OResolve (t m : string) (token : bool) (now : Z)
| OInvalidate (t m : string)
| OClear.

(** A run of the registry, and of the specification, with what its look-ups return. *)
Definition run_op (r : Registry) (o : op) : Registry * option AuthenticatedCaller :=
  match o with
  | ORegister c now => ((register r c now).1, None)
  | OResolve t m token now => resolve r t m token now
  | OInvalidate t m => (invalidate r t m, None)
  | OClear => (clear r, None)
  end.

Definition spec_op (s : spec) (o : op) : spec * option AuthenticatedCaller :=
  match o with
  | ORegister c now => (spec_register s c now, None)
  | OResolve t m token now => spec_resolve s t m token now
  | OInvalidate t m => (spec_set s t m None, None)
  | OClear => (emptySpec, None)
  end.

Fixpoint run {S} (f : S -> op -> S * option AuthenticatedCaller) (s : S) (l : list op)
    : list (option AuthenticatedCaller) :=
  match l with
  | [] => []
  | o :: l => let (s, out) := f s o in out :: run f s l
  end.

(** ** Refinement *)

(** The concrete maps represent [s]: an identity is stored exactly for the pairs [s]
    knows, with the right expiry and the current generation. *)
Definition represents (r : Registry) (s : spec) : Prop :=
  forall t m, match mget (key t m) (identities r) with
  | Some i => s t m = Some (i_caller i) /\ i_expiresAt i = callerExpiry (i_caller i) /\
              i_generation i = generation r (key t m)
  | None => s t m = None
  end.

Lemma key_eqb t m t' m' : String.eqb (key t m) (key t' m') = String.eqb t t' && String.eqb m m'.
Proof.
  destruct (String.eqb_spec (key t m) (key t' m')) as [E|E].
  - apply encodeScope_pair_inj in E as [-> ->]. by rewrite !String.eqb_refl.
  - destruct (String.eqb_spec t t'), (String.eqb_spec m m'); subst; done.
Qed.

Lemma register_represents r s c now :
  represents r s -> represents (register r c now).1 (spec_register s c now).
Proof.
  intros H. unfold register, spec_register. destruct (c_tenantId c) as [t|]; [|done].
  destruct (_ || _); [done|]. cbn [orb]. destruct (num_le _ now); [done|]. cbn [fst].
  intros t' m'. cbn [identities]. rewrite mget_mset, key_eqb. unfold spec_set.
  destruct (_ && _) eqn:E; [|apply H]. boolify. subst. by cbn.
Qed.

Lemma resolve_represents r s t m token now :
  represents r s -> represents (resolve r t m token now).1 (spec_resolve s t m token now).1 /\
  (resolve r t m token now).2 = (spec_resolve s t m token now).2.
Proof.
  intros H. pose proof (H t m) as Htm. unfold resolve, spec_resolve.
  destruct (mget (key t m) (identities r)) as [i|] eqn:Hi; [|by rewrite Htm].
  destruct Htm as (-> & Hexp & Hgen). rewrite Hgen, Z.eqb_refl, Hexp. cbn [negb orb].
  destruct (num_le _ now); cbn [fst snd]; [|by destruct (token && _)].
  split; [|done]. intros t' m'. cbn [identities]. rewrite mget_mdelete, key_eqb. unfold spec_set.
  destruct (_ && _); [done|]. apply H.
Qed.

Lemma invalidate_represents r s t m : represents r s -> represents (invalidate r t m) (spec_set s t m None).
Proof.
  intros H t' m'. unfold invalidate, spec_set; cbn [identities]. rewrite mget_mdelete, key_eqb.
  destruct (_ && _) eqn:E; [done|]. specialize (H t' m').
  destruct (mget (key t' m') (identities r)); [|done]. destruct H as (? & ? & ->). split_and!; auto.
  unfold generation, bump; cbn [generations]. by rewrite mget_mset, key_eqb, E.
Qed.

Lemma run_op_represents r s o : represents r s ->
  represents (run_op r o).1 (spec_op s o).1 /\ (run_op r o).2 = (spec_op s o).2.
Proof.
  intros H. destruct o; cbn [run_op spec_op fst snd].
  - split; [by apply register_represents|done].
  - by apply resolve_represents.
  - split; [by apply invalidate_represents|done].
  - by split.
Qed.

(** C34. The registry implements its specification: every sequence of registrations,
    look-ups, invalidations and clears returns what the table indexed by tenant and
    member returns.  So a look-up yields the caller last registered for exactly that
    tenant and member, not invalidated or cleared since, unexpired, and with an access
    token when one is required; nothing leaks between owners, and the generation counter
    never rejects a live identity. *)
Theorem registry_refines_spec (l : list op) :
  run run_op emptyRegistry l = run spec_op emptySpec l.
Proof.
  assert (H : represents emptyRegistry emptySpec) by done.
  revert H. generalize emptyRegistry as r, emptySpec as s.
  induction l as [|o l IH]; intros r s H; cbn [run]; [done|].
  destruct (run_op_represents r s o H) as [H' Hout].
  destruct (run_op r o) as [r' x], (spec_op s o) as [s' y]. cbn [fst snd] in *. subst. f_equal. auto.
Qed.

(** Clock calibration is bounded and accurate: an observation keeps the offset within
    seven days, and when it is used and Manager's clock was read while the request was in
    flight, calibrated time is within half the round trip, at most five seconds, of
    Manager's time at that reading. *)
Theorem observe_is_bounded (offset2 : Z) (date age : option num) (sentAt receivedAt : Z) :
  Z.abs offset2 <= 2 * MAX_CLOCK_OFFSET_MS ->
  let o := observe offset2 date age sentAt receivedAt in
  Z.abs o <= 2 * MAX_CLOCK_OFFSET_MS /\
  (o = offset2 \/ exists m, date = Some (Fin m) /\ 0 <= receivedAt - sentAt <= MAX_OBSERVED_RTT_MS /\
    forall at_, sentAt <= at_ <= receivedAt ->
      Z.abs (clock_now o at_ - 2 * m) <= receivedAt - sentAt).
Proof.
  intros H o. unfold o, observe, clock_now, MAX_OBSERVED_RTT_MS, MAX_CLOCK_OFFSET_MS in *.
  destruct date as [d|]; [|lia].
  destruct (match nullish age (Fin 0) with Fin a => 0 <? a | _ => false end); [lia|].
  destruct d as [m| | |]; try lia.
  destruct (_ || _) eqn:E1; [lia|]. destruct (_ <? Z.abs _) eqn:E2; [lia|]. boolify.
  split; [lia|]. right. exists m. split_and!; try done; try lia.
Qed.

Lemma observe_is_bounded_witness :
  Z.abs (observe 0 (Some (Fin 5000)) None 1000 1400) <= 2 * MAX_CLOCK_OFFSET_MS /\
  observe 0 (Some (Fin 5000)) None 1000 1400 = 7600.
Proof.
  destruct (observe_is_bounded 0 (Some (Fin 5000)) None 1000 1400 ltac:(vm_compute; discriminate)) as [H _].
  split; [exact H|reflexivity].
Defined.
