(* ===== verification/Automation.v ===== *)
(** Automation tasks and schedule occurrences (storage/automation-tasks.ts,
    [AutomationTaskRepository]): one definition per method over the tables the
    repository creates.  Whether a receipt exists is a question to another table, asked
    through [receiptExists]. *)

From S2P Require Import Prelude Sql.
Local Open Scope Z_scope.

Record AutomationTaskRow : Type := mkTaskRow {
  at_id : string;
  at_tenant_id : string;
  at_member_id : string;
  at_name : string;
  at_category : string;
  at_conversation_id : string;
  at_connector_ids : string;
  at_revision : Z;
  at_created_at : Z;
  at_updated_at : Z;
  at_deleted_at : option Z;
}.

Record BindingRow : Type := mkBinding { b_conversation_id : string; b_task_id : string }.

Record CreationRow : Type := mkCreation {
  cr_tenant_id : string; cr_member_id : string; cr_key : string; cr_fingerprint : string;
  cr_task_id : string; cr_conversation_id : string; cr_completed : bool; cr_response : option string;
}.

Record OccurrenceRow : Type := mkOccurrence {
  oc_id : string; oc_conversation_id : string; oc_tenant_id : string; oc_member_id : string;
  oc_schedule_id : string; oc_scheduled_at : string; oc_revision : Z;
  oc_caller_id : option string; oc_receipt_key : option string; oc_reason : option string;
}.

Record AutomationDb : Type := mkAutomation {
  tasks : list AutomationTaskRow;
  bindings : list BindingRow;
  creations : list CreationRow;
  occurrences : list OccurrenceRow;
}.

Inductive automation_error : Type :=
| AutomationError (status : Z) (code : string)
| AutomationConstraint.

(** [transaction]: a savepoint, rolled back when the operation throws. *)
Definition transaction {A} (f : AutomationDb -> AutomationDb * result automation_error A)
    (db : AutomationDb) : AutomationDb * result automation_error A :=
  match f db with
  | (db', Ok a) => (db', Ok a)
  | (_, Err e) => (db, Err e)
  end.

Definition owned (id tenantId memberId : string) (r : AutomationTaskRow) : bool :=
  String.eqb (at_id r) id && String.eqb (at_tenant_id r) tenantId && String.eqb (at_member_id r) memberId.

Definition get (db : AutomationDb) (id tenantId memberId : string) : option AutomationTaskRow :=
  sql_get (owned id tenantId memberId) (tasks db).

(** The join of [automation_task] with [automation_binding], whose key is the conversation. *)
Definition forConversation (db : AutomationDb) (id : string) : option AutomationTaskRow :=
  match sql_get (fun b => String.eqb (b_conversation_id b) id) (bindings db) with
  | Some b => sql_get (fun t => String.eqb (at_id t) (b_task_id b)) (tasks db)
  | None => None
  end.

Definition list_ (db : AutomationDb) (tenantId memberId : string) : list AutomationTaskRow :=
  sql_select (fun r => String.eqb (at_tenant_id r) tenantId && String.eqb (at_member_id r) memberId) (tasks db).

Definition bind (db : AutomationDb) (taskId conversationId : string)
    : AutomationDb * result automation_error unit :=
  match sql_insert (fun b => String.eqb (b_conversation_id b) conversationId)
          (mkBinding conversationId taskId) (bindings db) with
  | Some bs => (mkAutomation (tasks db) bs (creations db) (occurrences db), Ok tt)
  | None => (db, Err AutomationConstraint)
  end.

Definition insert (db : AutomationDb) (row : AutomationTaskRow)
    : AutomationDb * result automation_error unit :=
  match sql_insert (fun r => String.eqb (at_id r) (at_id row)
                      || String.eqb (at_conversation_id r) (at_conversation_id row)) row (tasks db) with
  | Some ts => bind (mkAutomation ts (bindings db) (creations db) (occurrences db))
                 (at_id row) (at_conversation_id row)
  | None => (db, Err AutomationConstraint)
  end.

Definition update_set (row : AutomationTaskRow) (now : Z) (r : AutomationTaskRow) : AutomationTaskRow :=
  mkTaskRow (at_id r) (at_tenant_id r) (at_member_id r) (at_name row) (at_category row)
    (at_conversation_id row) (at_connector_ids row) (at_revision r + 1) (at_created_at r) now
    (at_deleted_at row).

(** [update]; taking over another task's conversation breaks the column's [UNIQUE]. *)
Definition update (db : AutomationDb) (row : AutomationTaskRow) (now : Z)
    : AutomationDb * result automation_error unit :=
  let hit := owned (at_id row) (at_tenant_id row) (at_member_id row) in
  if existsb hit (tasks db)
     && existsb (fun r => negb (hit r) && String.eqb (at_conversation_id r) (at_conversation_id row)) (tasks db)
  then (db, Err AutomationConstraint)
  else (mkAutomation (sql_update hit (update_set row now) (tasks db)) (bindings db) (creations db)
          (occurrences db), Ok tt).

Definition guardSchedule (db : AutomationDb) (conversationId : string) : result automation_error unit :=
  match forConversation db conversationId with
  | None => Ok tt
  | Some task =>
      if existsb (fun c => String.eqb (cr_task_id c) (at_id task) && negb (cr_completed c)) (creations db)
      then Err (AutomationError 409 "task_creation_pending")
      else if match at_deleted_at task with Some _ => true | None => false end
              || negb (String.eqb (at_conversation_id task) conversationId)
      then Err (AutomationError 409 "task_binding_retired")
      else Ok tt
  end.

Definition deleted_set (now : Z) (r : AutomationTaskRow) : AutomationTaskRow :=
  mkTaskRow (at_id r) (at_tenant_id r) (at_member_id r) (at_name r) (at_category r)
    (at_conversation_id r) (at_connector_ids r) (at_revision r + 1) (at_created_at r) (at_updated_at r)
    (Some (nullish (at_deleted_at r) now)).

Definition set_reason (reason : option string) (r : OccurrenceRow) : OccurrenceRow :=
  mkOccurrence (oc_id r) (oc_conversation_id r) (oc_tenant_id r) (oc_member_id r) (oc_schedule_id r)
    (oc_scheduled_at r) (oc_revision r) (oc_caller_id r) (oc_receipt_key r) reason.

Definition conversationDeleted (db : AutomationDb) (conversationId : string) (now : Z) : AutomationDb :=
  mkAutomation
    (sql_update (fun r => String.eqb (at_conversation_id r) conversationId) (deleted_set now) (tasks db))
    (bindings db) (creations db)
    (sql_update (fun r => String.eqb (oc_conversation_id r) conversationId)
       (set_reason (Some "conversation_deleted")) (occurrences db)).

(** [COALESCE(a, b)]. *)
Definition coalesce {A} (a b : option A) : option A := match a with Some _ => a | None => b end.

Record OccurrenceInput : Type := mkOccurrenceInput {
  oi_id : string; oi_conversationId : string; oi_tenantId : string; oi_memberId : string;
  oi_scheduleId : string; oi_at : string; oi_revision : Z;
  oi_callerId : option string; oi_reason : option string;
}.

Definition occurrenceRow (i : OccurrenceInput) : OccurrenceRow :=
  mkOccurrence (oi_id i) (oi_conversationId i) (oi_tenantId i) (oi_memberId i) (oi_scheduleId i) (oi_at i)
    (oi_revision i) (oi_callerId i)
    (match oi_callerId i with Some c => if String.eqb c "" then None else Some (oi_id i) | None => None end)
    (oi_reason i).

(** The unique index of [schedule_occurrence]. *)
Definition same_occurrence (a b : OccurrenceRow) : bool :=
  String.eqb (oc_conversation_id a) (oc_conversation_id b)
  && String.eqb (oc_schedule_id a) (oc_schedule_id b)
  && String.eqb (oc_scheduled_at a) (oc_scheduled_at b).

(** The [WHERE] of the upsert: the stored row has no receipt, or the new one brings one,
    or the receipt the stored row points to is gone. *)
Definition replaceable (receiptExists : string -> string -> string -> bool) (new old : OccurrenceRow) : bool :=
  match oc_receipt_key old with
  | None => true
  | Some key =>
      match oc_receipt_key new with
      | Some _ => true
      | None => negb match oc_caller_id old with
                     | Some caller => receiptExists (oc_conversation_id old) caller key
                     | None => false
                     end
      end
  end.

Definition occurrence_set (new old : OccurrenceRow) : OccurrenceRow :=
  mkOccurrence (oc_id old) (oc_conversation_id old) (oc_tenant_id old) (oc_member_id old)
    (oc_schedule_id old) (oc_scheduled_at old) (oc_revision old)
    (coalesce (oc_caller_id new) (oc_caller_id old)) (coalesce (oc_receipt_key new) (oc_receipt_key old))
    (oc_reason new).

(** [occurrence]; a clash of the primary key alone is a constraint violation. *)
Definition occurrence (receiptExists : string -> string -> string -> bool) (db : AutomationDb)
    (i : OccurrenceInput) : AutomationDb * result automation_error unit :=
  let new := occurrenceRow i in
  let put os := mkAutomation (tasks db) (bindings db) (creations db) os in
  if existsb (fun r => same_occurrence r new) (occurrences db)
  then (put (sql_update (fun r => same_occurrence r new && replaceable receiptExists new r)
               (occurrence_set new) (occurrences db)), Ok tt)
  else if existsb (fun r => String.eqb (oc_id r) (oc_id new)) (occurrences db)
  then (db, Err AutomationConstraint)
  else (put (occurrences db ++ [new]), Ok tt).

(** ** Facts *)

Definition occurrence_key (r : OccurrenceRow) := (oc_conversation_id r, oc_schedule_id r, oc_scheduled_at r).

Lemma same_occurrence_iff a b : same_occurrence a b = true <-> occurrence_key a = occurrence_key b.
Proof.
  unfold same_occurrence, occurrence_key. rewrite !andb_true_iff, !String.eqb_eq.
  split; [intros [[-> ->] ->]; done|by intros [= -> -> ->]].
Qed.

(** Occurrences are recorded once and never lose a live run: recording one keeps a
    single row per conversation, schedule and time; and when a row already points to a
    receipt that exists, recording the same occurrence as blocked (without a caller)
    leaves the table unchanged. *)
Theorem occurrence_keeps_live_run (receiptExists : string -> string -> string -> bool)
    (db : AutomationDb) (i : OccurrenceInput) :
  NoDup (occurrence_key <$> occurrences db) ->
  NoDup (occurrence_key <$> occurrences (occurrence receiptExists db i).1) /\
  forall r caller key, r ∈ occurrences db -> occurrence_key r = occurrence_key (occurrenceRow i) ->
    oc_receipt_key r = Some key -> oc_caller_id r = Some caller ->
    receiptExists (oc_conversation_id r) caller key = true -> oi_callerId i = None ->
    occurrence receiptExists db i = (db, Ok tt).
Proof.
  intros Hd. split.
  - unfold occurrence. destruct (existsb _ (occurrences db)) eqn:E; cbn [fst occurrences].
    + by rewrite keys_sql_update.
    + destruct (existsb (fun r => (oc_id r =? _)%string) _); cbn [fst occurrences]; [done|].
      eapply (NoDup_sql_insert occurrence_key (fun r => same_occurrence r (occurrenceRow i))).
      * intros r' Hk. by apply same_occurrence_iff.
      * exact Hd.
      * unfold sql_insert. by rewrite E.
  - intros r caller key Hr Hk Hkey Hcaller Hex Hnone. unfold occurrence.
    assert (existsb (fun r => same_occurrence r (occurrenceRow i)) (occurrences db) = true) as ->.
    { apply existsb_exists. exists r. rewrite <- list_elem_of_In. split; [done|]. by apply same_occurrence_iff. }
    rewrite sql_update_none; [by destruct db|].
    intros x Hx. destruct (same_occurrence x (occurrenceRow i)) eqn:Hs; [|done]. cbn [andb].
    apply same_occurrence_iff in Hs.
    assert (x = r) as -> by (eapply (NoDup_key_eq occurrence_key); eauto; congruence).
    unfold replaceable, occurrenceRow. rewrite Hkey, Hcaller, Hnone; cbn. by rewrite Hex.
Qed.

Definition demoOccurrence : OccurrenceRow :=
  mkOccurrence "k" "c" "t" "m" "s" "2024" 1 (Some "caller") (Some "k") None.
Definition demoAutomation : AutomationDb := mkAutomation [] [] [] [demoOccurrence].
Definition demoBlocked : OccurrenceInput :=
  mkOccurrenceInput "x" "c" "t" "m" "s" "2024" 1 None (Some "authorization_required").

Lemma occurrence_keeps_live_run_witness :
  occurrence (fun _ _ _ => true) demoAutomation demoBlocked = (demoAutomation, Ok tt).
Proof.
  refine (proj2 (occurrence_keeps_live_run (fun _ _ _ => true) demoAutomation demoBlocked
    (NoDup_singleton _)) demoOccurrence "caller" "k" _ eq_refl eq_refl eq_refl eq_refl eq_refl).
  by left.
Defined.
