(* ===== verification/Receipts.v ===== *)
(** Prompt receipts (storage/sqlite.ts, table [idempotency_receipt], with the schedule
    columns of [conversation] and the table [schedule_retry] its methods touch).

    A receipt is the proof that a prompt was accepted under an idempotency key; it is what
    keeps a prompt from being executed twice.  Each method is one definition, from the
    database to the database it leaves and what it returns or throws; a transaction that
    throws after [BEGIN] leaves the database it started from, unless it committed first.
    [now] is the time the method reads, [uuid] the random identifier it draws. *)

From S2P Require Import Prelude Sql.
From S2P Require Automation.
Local Open Scope Z_scope.

Inductive ReceiptState : Type := Accepted | Completed | Unknown.
#[export] Instance ReceiptState_eq_dec : EqDecision ReceiptState.
Proof. solve_decision. Defined.

Record ReceiptRow : Type := mkReceiptRow {
  r_conversation_id : string;
  r_caller_id : string;
  r_idempotency_key : string;
  r_fingerprint : string;
  r_state : ReceiptState;
  r_owner_instance : option string;
  r_lease_expires_at : option Z;
  r_last_entry_id : option string;
  r_failure_code : option string;
  r_failure_detail : option string;
  r_accepted_at : Z;
}.

(** The members of [schedule_json] the store reads and writes; the rest of the document
    is carried along. *)
Record SchedJson : Type := mkSched {
  sj_schedule_id : option string;
  sj_revision : option Z;
  sj_enabled : option bool;
  sj_rest : string;
}.

Record ConversationCols : Type := mkConv {
  cv_id : string;
  cv_tenant_id : option string;
  cv_member_id : option string;
  cv_schedule : option SchedJson;
  cv_generation : Z;
  cv_updated_at : Z;
}.

Record RetryRow : Type := mkRetry {
  rt_conversation_id : string; rt_schedule_id : string; rt_occurrence_at : string;
  rt_revision : Z; rt_generation : Z; rt_block_reason : string; rt_created_at : Z;
}.

Record Db : Type := mkDb {
  receipts : list ReceiptRow;
  conversations : list ConversationCols;
  retries : list RetryRow;
  automation : Automation.AutomationDb;
}.

Inductive receipt_error : Type :=
| IdempotencyConflictError
| IdempotencyUnknownError
| ScheduleRevisionConflictError
| ReceiptStoreError.

Record IdempotencyReceipt : Type := mkReceipt {
  ir_conversationId : string; ir_callerId : string; ir_key : string; ir_fingerprint : string;
  ir_state : ReceiptState; ir_lastEntryId : option string; ir_scheduleGeneration : option Z;
  ir_failureCode : option string; ir_failureDetail : option string; ir_ownerInstance : option string;
  ir_isNew : bool;
}.

Definition DEFAULT_LEASE_MS : Z := 30000.

Definition with_receipts (rs : list ReceiptRow) (db : Db) : Db :=
  mkDb rs (conversations db) (retries db) (automation db).

Definition is_key (conversationId callerId key : string) (r : ReceiptRow) : bool :=
  String.eqb (r_conversation_id r) conversationId && String.eqb (r_caller_id r) callerId
  && String.eqb (r_idempotency_key r) key.

Definition in_state (s : ReceiptState) (r : ReceiptRow) : bool := bool_decide (r_state r = s).

(** [state = 'accepted' AND owner_instance = ?]. *)
Definition held_by (owner : string) (r : ReceiptRow) : bool :=
  in_state Accepted r && match r_owner_instance r with Some o => String.eqb o owner | None => false end.

Definition toReceipt (r : ReceiptRow) : IdempotencyReceipt :=
  mkReceipt (r_conversation_id r) (r_caller_id r) (r_idempotency_key r) (r_fingerprint r) (r_state r)
    (r_last_entry_id r) None (r_failure_code r) (r_failure_detail r) (r_owner_instance r) false.

(** [SET state = ..., lease_expires_at = ..., last_entry_id = ..., failure_code = ...]. *)
Definition set_receipt (s : ReceiptState) (lease : option Z) (entry code detail : option string)
    (r : ReceiptRow) : ReceiptRow :=
  mkReceiptRow (r_conversation_id r) (r_caller_id r) (r_idempotency_key r) (r_fingerprint r) s
    (r_owner_instance r) lease entry code detail (r_accepted_at r).

Definition leaseExpiredDetail : string :=
  "Accepted execution lease expired; outcome is unknown and will not be replayed".

Definition expire_set (r : ReceiptRow) : ReceiptRow :=
  set_receipt Unknown None (r_last_entry_id r) (Some "execution_unknown") (Some leaseExpiredDetail) r.

Definition expire_lease (conversationId callerId key : string) (rs : list ReceiptRow) : list ReceiptRow :=
  sql_update (fun r => is_key conversationId callerId key r && in_state Accepted r) expire_set rs.

Definition lease_live (now : Z) (r : ReceiptRow) : bool :=
  match r_lease_expires_at r with Some e => now <? e | None => false end.

(** [normalizeReceiptOnRead]: an accepted receipt whose lease ran out becomes unknown. *)
Definition normalizeReceiptOnRead (rs : list ReceiptRow) (r : ReceiptRow) (now : Z)
    : list ReceiptRow * ReceiptRow :=
  if negb (in_state Accepted r) || lease_live now r then (rs, r)
  else (expire_lease (r_conversation_id r) (r_caller_id r) (r_idempotency_key r) rs, expire_set r).

Definition getPromptReceipt (db : Db) (conversationId callerId key : string) (now : Z)
    : Db * option IdempotencyReceipt :=
  match sql_get (is_key conversationId callerId key) (receipts db) with
  | None => (db, None)
  | Some r => let (rs, r) := normalizeReceiptOnRead (receipts db) r now in
              (with_receipts rs db, Some (toReceipt r))
  end.

(** [ORDER BY accepted_at ASC, idempotency_key ASC]. *)
Definition receipt_le (a b : ReceiptRow) : bool :=
  (r_accepted_at a <? r_accepted_at b)
  || ((r_accepted_at a =? r_accepted_at b) && String.leb (r_idempotency_key a) (r_idempotency_key b)).

Fixpoint insert_receipt (r : ReceiptRow) (l : list ReceiptRow) : list ReceiptRow :=
  match l with
  | [] => [r]
  | x :: l' => if receipt_le r x then r :: l else x :: insert_receipt r l'
  end.

(** [rows.map((row) => this.toReceipt(this.normalizeReceiptOnRead(row)))]. *)
Fixpoint readAll (rs : list ReceiptRow) (rows : list ReceiptRow) (now : Z)
    : list ReceiptRow * list IdempotencyReceipt :=
  match rows with
  | [] => (rs, [])
  | r :: rows =>
      let (rs, r) := normalizeReceiptOnRead rs r now in
      let (rs, out) := readAll rs rows now in (rs, toReceipt r :: out)
  end.

Definition listPromptReceipts (db : Db) (conversationId callerId : string) (now : Z)
    : Db * list IdempotencyReceipt :=
  let rows := foldr insert_receipt [] (sql_select (fun r =>
    String.eqb (r_conversation_id r) conversationId && String.eqb (r_caller_id r) callerId) (receipts db)) in
  let (rs, out) := readAll (receipts db) rows now in
  (with_receipts rs db, out).

(** *** The schedule columns *)

Definition emptySched : SchedJson := mkSched None None None "{}".

(** [json_set(COALESCE(schedule_json, '{}'), '$.enabled', b), generation + 1, updated_at]. *)
Definition set_enabled (b : bool) (now : Z) (c : ConversationCols) : ConversationCols :=
  let s := nullish (cv_schedule c) emptySched in
  mkConv (cv_id c) (cv_tenant_id c) (cv_member_id c)
    (Some (mkSched (sj_schedule_id s) (sj_revision s) (Some b) (sj_rest s))) (cv_generation c + 1) now.

Definition schedule_id_of (c : ConversationCols) : option string := cv_schedule c ≫= sj_schedule_id.
Definition revision_of (c : ConversationCols) : option Z := cv_schedule c ≫= sj_revision.
Definition enabled_of (c : ConversationCols) : option bool := cv_schedule c ≫= sj_enabled.

Definition eq_str (a : option string) (b : string) : bool := bool_decide (a = Some b).
Definition eq_Z (a : option Z) (b : Z) : bool := bool_decide (a = Some b).

(** The captured schedule identity matches the stored one. *)
Definition schedule_is (c : ConversationCols) (scheduleId : string) (revision generation : Z) : bool :=
  eq_str (schedule_id_of c) scheduleId && eq_Z (revision_of c) revision && (cv_generation c =? generation).

(** [s.slice(0, n)]. *)
Definition slice (n : nat) (s : string) : string := String.substring 0 n s.

(** [INSERT ... ON CONFLICT(conversation_id) DO UPDATE SET ... = excluded...]. *)
Definition put_retry (row : RetryRow) (l : list RetryRow) : list RetryRow :=
  sql_upsert (fun r => String.eqb (rt_conversation_id r) (rt_conversation_id row)) (fun _ => row) row l.

Definition setScheduleRetry (db : Db) (conversationId scheduleId occurrenceAt : string)
    (revision generation : Z) (blockReason : option string) (now : Z) : Db :=
  mkDb (receipts db) (conversations db)
    (put_retry (mkRetry conversationId scheduleId occurrenceAt revision generation
      (slice 96 (nullish blockReason "authorization_required")) now) (retries db)) (automation db).

Definition clearScheduleRetry (db : Db) (conversationId : string) : Db :=
  mkDb (receipts db) (conversations db)
    (sql_delete (fun r => String.eqb (rt_conversation_id r) conversationId) (retries db)) (automation db).

Definition is_conv (id : string) (c : ConversationCols) : bool := String.eqb (cv_id c) id.

Record RetryInput : Type := mkRetryInput {
  ri_scheduleId : string; ri_occurrenceAt : string; ri_revision : Z; ri_scheduleGeneration : Z;
  ri_blockReason : option string;
}.

Definition releasePreExecutionPrompt (instanceId : string) (db : Db) (conversationId callerId key : string)
    (ownerInstance : option string) (oneShot : bool) (retry : option RetryInput) (now : Z) : Db * bool :=
  let owner := nullish ownerInstance instanceId in
  let hit r := is_key conversationId callerId key r && held_by owner r in
  let changed := negb (sql_changes hit (receipts db) =? 0) in
  let db1 := with_receipts (sql_delete hit (receipts db)) db in
  match retry with
  | Some rt =>
      if changed && oneShot then
        let matches := match sql_get (is_conv conversationId) (conversations db) with
          | Some c => schedule_is c (ri_scheduleId rt) (ri_revision rt) (ri_scheduleGeneration rt)
          | None => false
          end in
        if matches then
          let cs := sql_update (fun c => is_conv conversationId c
                      && schedule_is c (ri_scheduleId rt) (ri_revision rt) (ri_scheduleGeneration rt))
                      (set_enabled true now) (conversations db) in
          let row := mkRetry conversationId (ri_scheduleId rt) (ri_occurrenceAt rt) (ri_revision rt)
            (ri_scheduleGeneration rt + 1)
            (slice 96 (nullish (ri_blockReason rt) "authorization_required")) now in
          (mkDb (receipts db1) cs (put_retry row (retries db)) (automation db), true)
        else (db1, false)
      else (db1, changed)
  | None => (db1, changed)
  end.

Record ReserveInput : Type := mkReserve {
  rs_conversationId : string; rs_callerId : string; rs_key : string; rs_fingerprint : string;
  rs_leaseMs : option Z; rs_oneShot : bool; rs_scheduleId : option string;
  rs_scheduleRevision : option Z; rs_scheduleGeneration : option Z;
  rs_clearScheduleRetry : bool; rs_occurrenceAt : option string;
}.

Definition receiptExists (rs : list ReceiptRow) (conversation caller key : string) : bool :=
  existsb (is_key conversation caller key) rs.

(** [? IS NULL OR column = ?]. *)
Definition unless_null {A} (x : option A) (test : A -> bool) : bool :=
  match x with None => true | Some a => test a end.

(** The captured schedule is still the stored one and enabled. *)
Definition schedule_current (db : Db) (i : ReserveInput) (scheduleId : string) (revision : Z) : bool :=
  match sql_get (is_conv (rs_conversationId i)) (conversations db) with
  | Some c => eq_str (schedule_id_of c) scheduleId && eq_Z (revision_of c) revision
              && bool_decide (enabled_of c = Some true)
              && unless_null (rs_scheduleGeneration i) (fun g => cv_generation c =? g)
  | None => false
  end.

Definition disable_schedule (i : ReserveInput) (now : Z) (cs : list ConversationCols) : list ConversationCols :=
  sql_update (fun c => is_conv (rs_conversationId i) c
      && unless_null (rs_scheduleId i) (eq_str (schedule_id_of c))
      && unless_null (rs_scheduleRevision i) (eq_Z (revision_of c))
      && unless_null (rs_scheduleGeneration i) (fun g => cv_generation c =? g))
    (set_enabled false now) cs.

(** The read-back after the one-shot update. *)
Definition disabled_ok (i : ReserveInput) (scheduleId : string) (revision : Z) (cs : list ConversationCols) : bool :=
  match sql_get (fun c => is_conv (rs_conversationId i) c && eq_str (schedule_id_of c) scheduleId
                   && eq_Z (revision_of c) revision) cs with
  | Some c => bool_decide (enabled_of c = Some false)
              && unless_null (rs_scheduleGeneration i) (fun g => cv_generation c =? g + 1)
  | None => false
  end.

(** [input.occurrenceAt && input.scheduleId]: record the occurrence for its owner. *)
Definition reserve_occurrence (db : Db) (i : ReserveInput) : result receipt_error Db :=
  match rs_occurrenceAt i, rs_scheduleId i with
  | Some occurrenceAt, Some sid =>
      if String.eqb occurrenceAt "" || String.eqb sid "" then Ok db
      else match sql_get (is_conv (rs_conversationId i)) (conversations db) with
      | Some c =>
          match cv_tenant_id c, cv_member_id c, rs_scheduleRevision i with
          | Some tenant, Some member, Some revision =>
              match Automation.occurrence (receiptExists (receipts db)) (automation db)
                      (Automation.mkOccurrenceInput (rs_key i) (cv_id c) tenant member sid occurrenceAt revision
                         (Some (rs_callerId i)) None) with
              | (a, Ok _) => Ok (mkDb (receipts db) (conversations db) (retries db) a)
              | (_, Err _) => Err ReceiptStoreError
              end
          | _, _, _ => Err ReceiptStoreError
          end
      | None => Err ReceiptStoreError
      end
  | _, _ => Ok db
  end.

(** The body of a new reservation after the receipt row is inserted. *)
Definition reserve_schedule (db : Db) (i : ReserveInput) (now : Z) : result receipt_error Db :=
  _ ← match rs_scheduleId i, rs_scheduleRevision i with
      | Some sid, Some rev => require (schedule_current db i sid rev) ScheduleRevisionConflictError
      | _, _ => Ok tt
      end;
  let db := if rs_oneShot i
            then mkDb (receipts db) (disable_schedule i now (conversations db)) (retries db) (automation db)
            else db in
  _ ← match rs_scheduleId i, rs_scheduleRevision i with
      | Some sid, Some rev =>
          require (negb (rs_oneShot i) || disabled_ok i sid rev (conversations db)) ScheduleRevisionConflictError
      | _, _ => Ok tt
      end;
  db ← reserve_occurrence db i;
  Ok (if rs_clearScheduleRetry i then clearScheduleRetry db (rs_conversationId i) else db).

Definition newRow (i : ReserveInput) (uuid : string) (now : Z) : ReceiptRow :=
  mkReceiptRow (rs_conversationId i) (rs_callerId i) (rs_key i) (rs_fingerprint i) Accepted (Some uuid)
    (Some (now + nullish (rs_leaseMs i) DEFAULT_LEASE_MS)) None None None now.

Definition newReceipt (i : ReserveInput) (uuid : string) : IdempotencyReceipt :=
  mkReceipt (rs_conversationId i) (rs_callerId i) (rs_key i) (rs_fingerprint i) Accepted None
    (if rs_oneShot i then (fun g => g + 1) <$> rs_scheduleGeneration i else None) None None (Some uuid) true.

Definition reservePrompt (db : Db) (i : ReserveInput) (uuid : string) (now : Z)
    : Db * result receipt_error IdempotencyReceipt :=
  match sql_get (is_key (rs_conversationId i) (rs_callerId i) (rs_key i)) (receipts db) with
  | Some existing =>
      if negb (String.eqb (r_fingerprint existing) (rs_fingerprint i)) then (db, Err IdempotencyConflictError)
      else match r_state existing with
      | Completed => (db, Ok (toReceipt existing))
      | Unknown => (db, Err IdempotencyUnknownError)
      | Accepted =>
          if lease_live now existing then (db, Ok (toReceipt existing))
          else (with_receipts (expire_lease (rs_conversationId i) (rs_callerId i) (rs_key i) (receipts db)) db,
                Err IdempotencyUnknownError)
      end
  | None =>
      match reserve_schedule (with_receipts (receipts db ++ [newRow i uuid now]) db) i now with
      | Ok db' => (db', Ok (newReceipt i uuid))
      | Err e => (db, Err e)
      end
  end.

Definition renewLease (instanceId : string) (db : Db) (conversationId callerId key : string)
    (ownerInstance : option string) (leaseMs now : Z) : Db :=
  with_receipts (sql_update (fun r => is_key conversationId callerId key r && held_by (nullish ownerInstance instanceId) r)
    (fun r => set_receipt (r_state r) (Some (now + leaseMs)) (r_last_entry_id r) (r_failure_code r)
                (r_failure_detail r) r) (receipts db)) db.

Definition markCompleted (instanceId : string) (db : Db) (conversationId callerId key : string)
    (lastEntryId ownerInstance : option string) : Db :=
  with_receipts (sql_update (fun r => is_key conversationId callerId key r && held_by (nullish ownerInstance instanceId) r)
    (set_receipt Completed None lastEntryId None None) (receipts db)) db.

Definition markUnknown (instanceId : string) (db : Db) (conversationId callerId key : string)
    (ownerInstance : option string) (retryAfterMs : Z) (code detail : option string) (now : Z) : Db :=
  with_receipts (sql_update (fun r => is_key conversationId callerId key r && held_by (nullish ownerInstance instanceId) r)
    (fun r => set_receipt Unknown (Some (now + retryAfterMs)) (r_last_entry_id r)
      (Some (nullish (slice 96 <$> code) "execution_unknown"))
      (Some (nullish (slice 300 <$> detail) "Execution outcome is unknown; do not retry automatically")) r)
    (receipts db)) db.

(** The recovery statement of the constructor, run by a new process instance. *)
Definition recoverReceipts (instanceId : string) (db : Db) (now : Z) : Db :=
  with_receipts (sql_update (fun r => in_state Accepted r
      && (match r_owner_instance r with Some o => negb (String.eqb o instanceId) | None => true end
          || match r_lease_expires_at r with Some e => e <=? now | None => true end))
    (fun r => set_receipt Unknown None (r_last_entry_id r) (Some "process_restart")
      (Some "Execution state was not proven across Agent restart") r) (receipts db)) db.

(** [expected !== undefined && actual !== expected] *)
Definition otherOwner (expected actual : option string) : bool :=
  match expected with Some _ => negb (bool_decide (actual = expected)) | None => false end.

(** What [deleteConversation] does to the tables of this file; its receipts go with the conversation. *)
Definition deleteConversationRows (db : Db) (id : string) (tenantId memberId : option string) (now : Z) : Db * bool :=
  match sql_get (is_conv id) (conversations db) with
  | None => (db, false)
  | Some existing =>
      if otherOwner tenantId (cv_tenant_id existing) || otherOwner memberId (cv_member_id existing) then (db, false)
      else (mkDb (sql_delete (fun r => String.eqb (r_conversation_id r) id) (receipts db)) (sql_delete (is_conv id) (conversations db))
              (sql_delete (fun r => String.eqb (rt_conversation_id r) id) (retries db)) (Automation.conversationDeleted (automation db) id now), true)
  end.

(** ** Runs of the store

    [OElsewhere] is any other method of the store: the receipts are written by the methods of this
    file only, and the other tables may become anything. *)

Inductive op : Type :=
| OReserve (i : ReserveInput) (uuid : string)
| ORelease (conversationId callerId key : string) (owner : option string) (oneShot : bool) (retry : option RetryInput)
| ORenew (conversationId callerId key : string) (owner : option string) (leaseMs : Z)
| OComplete (conversationId callerId key : string) (entry owner : option string)
| OUnknown (conversationId callerId key : string) (owner : option string) (retryAfterMs : Z) (code detail : option string)
| ORead (conversationId callerId key : string)
| OList (conversationId callerId : string)
| ORestart
| ODelete (id : string) (tenantId memberId : option string)
| OElsewhere (cs : list ConversationCols) (rs : list RetryRow) (a : Automation.AutomationDb).

Definition run_op (inst : string) (db : Db) (o : op) (now : Z) : Db :=
  match o with
  | OReserve i uuid => (reservePrompt db i uuid now).1
  | ORelease c a k owner oneShot retry => (releasePreExecutionPrompt inst db c a k owner oneShot retry now).1
  | ORenew c a k owner lease => renewLease inst db c a k owner lease now
  | OComplete c a k entry owner => markCompleted inst db c a k entry owner
  | OUnknown c a k owner retry code detail => markUnknown inst db c a k owner retry code detail now
  | ORead c a k => (getPromptReceipt db c a k now).1
  | OList c a => (listPromptReceipts db c a now).1
  | ORestart => recoverReceipts inst db now
  | ODelete id t m => (deleteConversationRows db id t m now).1
  | OElsewhere cs rs a => mkDb (receipts db) cs rs a
  end.

Definition key_of (r : ReceiptRow) := (r_conversation_id r, r_caller_id r, r_idempotency_key r).

(** Did this call accept the prompt with key [k] for execution? *)
Definition accepts (db : Db) (o : op) (now : Z) (k : string * string * string) : bool :=
  match o with
  | OReserve i uuid =>
      match (reservePrompt db i uuid now).2 with
      | Ok r => ir_isNew r && bool_decide ((rs_conversationId i, rs_callerId i, rs_key i) = k)
      | Err _ => false
      end
  | _ => false
  end.

(** Did this call take the acceptance of [k] back before execution? *)
Definition takes_back (inst : string) (db : Db) (o : op) (k : string * string * string) : bool :=
  match o with
  | ORelease c a key owner _ _ =>
      bool_decide ((c, a, key) = k) &&
      negb (sql_changes (fun r => is_key c a key r && held_by (nullish owner inst) r) (receipts db) =? 0)
  | _ => false
  end.

(** Did this call delete the conversation of [k] with its receipt? *)
Definition forgets (db : Db) (o : op) (now : Z) (k : string * string * string) : bool :=
  match o with
  | ODelete id t m => (deleteConversationRows db id t m now).2 && String.eqb k.1.1 id && bool_decide (k ∈ key_of <$> receipts db)
  | _ => false
  end.

(** How often [k] was accepted, taken back before execution, and forgotten with its conversation. *)
Fixpoint tally (inst : string) (db : Db) (l : list (op * Z)) (k : string * string * string)
    : Z * Z * Z * Db :=
  match l with
  | [] => (0, 0, 0, db)
  | (o, now) :: l =>
      let '(a, b, d, db') := tally inst (run_op inst db o now) l k in
      ((if accepts db o now k then 1 else 0) + a, (if takes_back inst db o k then 1 else 0) + b,
       (if forgets db o now k then 1 else 0) + d, db')
  end.

(** One statement on one receipt row. *)
Inductive receipt_step : ReceiptRow -> ReceiptRow -> Prop :=
| ReceiptSame r : receipt_step r r
| ReceiptMove r r' :
    r_state r = Accepted -> key_of r' = key_of r -> r_fingerprint r' = r_fingerprint r ->
    r_owner_instance r' = r_owner_instance r -> receipt_step r r'.

Lemma receipt_step_key r r' : receipt_step r r' -> key_of r' = key_of r.
Proof. by destruct 1. Qed.

Lemma in_state_true s r : in_state s r = true <-> r_state r = s.
Proof. apply bool_decide_eq_true. Qed.

Lemma held_accepted o r : held_by o r = true -> r_state r = Accepted.
Proof. unfold held_by. rewrite andb_true_iff, in_state_true. by intros [? _]. Qed.

Lemma is_key_iff c a k r : is_key c a k r = true <-> key_of r = (c, a, k).
Proof.
  unfold is_key, key_of. rewrite !andb_true_iff, !String.eqb_eq. split; [by intros [[-> ->] ->]|by intros [= -> -> ->]].
Qed.

Lemma update_receipt_step p f rs :
  (forall r, p r = true -> r_state r = Accepted) -> (forall r, key_of (f r) = key_of r) ->
  (forall r, r_fingerprint (f r) = r_fingerprint r) -> (forall r, r_owner_instance (f r) = r_owner_instance r) ->
  Forall2 receipt_step rs (sql_update p f rs).
Proof.
  intros Hp Hk Hf Ho. unfold sql_update. induction rs as [|r rs IH]; cbn; constructor; [|done].
  destruct (p r) eqn:E; [|constructor]. apply ReceiptMove; auto.
Qed.

Lemma steps_keys rs rs' : Forall2 receipt_step rs rs' -> key_of <$> rs' = key_of <$> rs.
Proof. induction 1 as [|r r' rs rs' H _ IH]; cbn; [done|]. f_equal; [by apply receipt_step_key|done]. Qed.

Lemma steps_trans rs1 rs2 rs3 :
  Forall2 receipt_step rs1 rs2 -> Forall2 receipt_step rs2 rs3 -> Forall2 receipt_step rs1 rs3.
Proof.
  intros H. revert rs3. induction H as [|r1 r2 rs1 rs2 H _ IH]; intros rs3 H3.
  - by apply Forall2_nil_inv_l in H3 as ->.
  - apply Forall2_cons_inv_l in H3 as (r3 & rs3' & Hr & Hrs & ->). constructor; [|auto].
    destruct H; [done|]. destruct Hr as [|? ? Hs' Hk' Hf' Ho']; apply ReceiptMove; congruence.
Qed.

Lemma expire_lease_step c a k rs : Forall2 receipt_step rs (expire_lease c a k rs).
Proof.
  apply update_receipt_step; try done. intros r. rewrite andb_true_iff, in_state_true. by intros [_ ?].
Qed.

Lemma normalize_step rs r now : Forall2 receipt_step rs (normalizeReceiptOnRead rs r now).1.
Proof.
  unfold normalizeReceiptOnRead. case_match; [|apply expire_lease_step].
  induction rs; constructor; [constructor|done].
Qed.

Lemma steps_refl rs : Forall2 receipt_step rs rs.
Proof. induction rs; constructor; [constructor|done]. Qed.
#[local] Hint Resolve steps_refl expire_lease_step normalize_step : core.

Lemma readAll_steps rs rows now : Forall2 receipt_step rs (readAll rs rows now).1.
Proof.
  revert rs. induction rows as [|r rows IH]; intros rs; cbn; [auto|].
  pose proof (normalize_step rs r now). destruct (normalizeReceiptOnRead rs r now) as [rs1 r1].
  specialize (IH rs1). destruct (readAll rs1 rows now). by eapply steps_trans.
Qed.

Lemma list_steps db c a now : Forall2 receipt_step (receipts db) (receipts (listPromptReceipts db c a now).1).
Proof.
  unfold listPromptReceipts. set (rows := foldr _ _ _).
  pose proof (readAll_steps (receipts db) rows now). by destruct (readAll _ rows now).
Qed.

(** What an operation does to the receipt table: rows move in place, or one row is
    appended under a key that was free, or accepted rows of one key are removed. *)
Lemma reserve_occurrence_frame db i db' : reserve_occurrence db i = Ok db' ->
  receipts db' = receipts db /\ conversations db' = conversations db.
Proof. unfold reserve_occurrence. intros H. repeat (case_match; simplify_eq/=); done. Qed.

Lemma reserve_schedule_receipts db i now db' :
  reserve_schedule db i now = Ok db' -> receipts db' = receipts db.
Proof.
  unfold reserve_schedule. intros (_ & _ & H)%bind_Ok. apply bind_Ok in H as (_ & _ & H).
  apply bind_Ok in H as (db2 & Hocc & [= <-]).
  apply reserve_occurrence_frame in Hocc as [Hr _].
  assert (receipts db2 = receipts db) by (by destruct (rs_oneShot i)).
  by destruct (rs_clearScheduleRetry i).
Qed.

Lemma reserve_receipts db i uuid now :
  let '(db', res) := reservePrompt db i uuid now in
  match res with
  | Ok r => if ir_isNew r
            then receipts db' = receipts db ++ [newRow i uuid now] /\
                 sql_get (is_key (rs_conversationId i) (rs_callerId i) (rs_key i)) (receipts db) = None
            else db' = db
  | Err _ => Forall2 receipt_step (receipts db) (receipts db')
  end.
Proof.
  unfold reservePrompt. destruct (sql_get _ (receipts db)) as [r|] eqn:E.
  - repeat case_match; simplify_eq; auto. apply expire_lease_step.
  - destruct (reserve_schedule _ i now) as [db'|e] eqn:Hs; [|auto].
    cbn. by rewrite (reserve_schedule_receipts _ _ _ _ Hs).
Qed.

Lemma release_receipts inst db c a k owner oneShot retry now :
  receipts (releasePreExecutionPrompt inst db c a k owner oneShot retry now).1 =
  sql_delete (fun r => is_key c a k r && held_by (nullish owner inst) r) (receipts db).
Proof. unfold releasePreExecutionPrompt. repeat case_match; done. Qed.

Definition present (k : string * string * string) (rs : list ReceiptRow) : Z :=
  if existsb (fun r => bool_decide (key_of r = k)) rs then 1 else 0.

Lemma present_in k rs : present k rs = 1 <-> k ∈ key_of <$> rs.
Proof.
  unfold present. destruct (existsb _ rs) eqn:E.
  - split; [|done]. intros _. apply existsb_exists in E as (r & Hr & Hk). boolify.
    apply list_elem_of_fmap. exists r. by rewrite list_elem_of_In.
  - split; [done|]. intros (r & -> & Hr)%list_elem_of_fmap.
    assert (existsb (fun r0 => bool_decide (key_of r0 = key_of r)) rs = true); [|congruence].
    apply existsb_exists. exists r. rewrite <- list_elem_of_In. split; [done|]. by apply bool_decide_eq_true.
Qed.

Lemma present_bounds k rs : 0 <= present k rs <= 1.
Proof. unfold present. case_match; lia. Qed.

Lemma present_keys k rs rs' : key_of <$> rs' = key_of <$> rs -> present k rs' = present k rs.
Proof.
  intros H. pose proof (present_bounds k rs). pose proof (present_bounds k rs').
  enough (present k rs' = 1 <-> present k rs = 1) by lia. by rewrite !present_in, H.
Qed.

(** With unique keys, deleting the accepted row of a key takes the key away. *)
Lemma present_release c a key owner k rs : NoDup (key_of <$> rs) ->
  let hit r := is_key c a key r && held_by owner r in
  present k (sql_delete hit rs) =
    present k rs - (if bool_decide ((c, a, key) = k) && negb (sql_changes hit rs =? 0) then 1 else 0).
Proof.
  intros Hd hit.
  destruct (bool_decide ((c, a, key) = k) && negb (sql_changes hit rs =? 0)) eqn:E.
  - boolify. subst.
    assert (exists r, r ∈ rs /\ hit r = true) as (r & Hr & Hh).
    { destruct (sql_get hit rs) as [r|] eqn:G; [exists r; by apply sql_get_Some|].
      destruct H0. apply sql_changes_zero. by apply sql_get_None. }
    assert (Hk : key_of r = (c, a, key)) by (apply is_key_iff; unfold hit in Hh; by boolify).
    assert (present (c, a, key) rs = 1) as -> by (apply present_in, list_elem_of_fmap; eauto).
    pose proof (present_bounds (c, a, key) (sql_delete hit rs)).
    enough (present (c, a, key) (sql_delete hit rs) <> 1) by lia.
    intros (r' & Hk' & Hr')%present_in%list_elem_of_fmap. apply elem_of_sql_delete in Hr' as [Hr' Hh'].
    assert (r' = r) as -> by (eapply (NoDup_key_eq key_of); eauto; congruence). congruence.
  - rewrite Z.sub_0_r. pose proof (present_bounds k (sql_delete hit rs)). pose proof (present_bounds k rs).
    enough (present k (sql_delete hit rs) = 1 <-> present k rs = 1) by lia.
    rewrite !present_in. split.
    + intros (r & -> & Hr)%list_elem_of_fmap. apply elem_of_sql_delete in Hr as [Hr _].
      apply list_elem_of_fmap. eauto.
    + intros (r & -> & Hr)%list_elem_of_fmap. apply list_elem_of_fmap. exists r. split; [done|].
      apply elem_of_sql_delete. split; [done|]. destruct (hit r) eqn:Hh; [|done]. exfalso.
      assert (key_of r = (c, a, key)) as Hk by (apply is_key_iff; unfold hit in Hh; by boolify).
      rewrite <- Hk in E. rewrite bool_decide_true in E by done. cbn in E. boolify.
      rewrite (proj1 (sql_changes_zero _ _) E r Hr) in Hh. done.
Qed.

(** Deleting a conversation takes its keys away, and no others. *)
Lemma present_forget id k rs : present k (sql_delete (fun r => String.eqb (r_conversation_id r) id) rs) =
  present k rs - (if String.eqb k.1.1 id && bool_decide (k ∈ key_of <$> rs) then 1 else 0).
Proof.
  set (hit := fun r => String.eqb (r_conversation_id r) id).
  assert (k ∈ key_of <$> sql_delete hit rs <-> k ∈ key_of <$> rs /\ String.eqb k.1.1 id = false) as H.
  { rewrite !list_elem_of_fmap. split.
    - intros (r & -> & [Hr Hh]%elem_of_sql_delete). split; [by exists r|exact Hh].
    - intros [(r & -> & Hr) Hk]. exists r. split; [done|]. by apply elem_of_sql_delete. }
  pose proof (present_bounds k (sql_delete hit rs)). pose proof (present_bounds k rs). rewrite <- !present_in in H.
  case_bool_decide as Hp; rewrite <- ?present_in in Hp; destruct (String.eqb k.1.1 id); cbn [andb]; [| |lia..]; destruct H as [Hd Hk].
  - assert (present k (sql_delete hit rs) <> 1) by (intros [_ E]%Hd; done). lia.
  - specialize (Hk (conj Hp eq_refl)). lia.
Qed.

Lemma Forall2_receipt_refl rs : Forall2 receipt_step rs rs.
Proof. induction rs; constructor; [constructor|done]. Qed.

Lemma run_op_present inst db o now k : NoDup (key_of <$> receipts db) ->
  NoDup (key_of <$> receipts (run_op inst db o now)) /\
  present k (receipts (run_op inst db o now)) =
    present k (receipts db) + (if accepts db o now k then 1 else 0) - (if takes_back inst db o k then 1 else 0)
    - (if forgets db o now k then 1 else 0).
Proof.
  intros Hd.
  assert (Hmove : forall rs', Forall2 receipt_step (receipts db) rs' ->
    NoDup (key_of <$> rs') /\ present k rs' = present k (receipts db) + 0 - 0 - 0).
  { intros rs' H. rewrite (present_keys k _ _ (steps_keys _ _ H)), (steps_keys _ _ H). split; [done|lia]. }
  destruct o; cbn [run_op accepts takes_back forgets].
  - pose proof (reserve_receipts db i uuid now) as H.
    destruct (reservePrompt db i uuid now) as [db' [r|e]]; cbn [fst snd] in *; [|by apply Hmove].
    destruct (ir_isNew r) eqn:Hnew; cbn [andb]; [|subst; split; [done|lia]].
    destruct H as [-> Hfree].
    assert (Hn : key_of (newRow i uuid now) ∉ key_of <$> receipts db).
    { intros (x & Hk & Hx)%list_elem_of_fmap. pose proof (proj1 (sql_get_None _ _) Hfree x Hx) as Hc.
      apply not_true_iff_false in Hc. apply Hc, is_key_iff. by rewrite <- Hk. }
    split.
    + rewrite fmap_app. apply NoDup_app. split_and!; [done| |apply NoDup_singleton].
      intros x Hx ->%list_elem_of_singleton. done.
    + pose proof (present_bounds k (receipts db ++ [newRow i uuid now])). pose proof (present_bounds k (receipts db)).
      destruct (bool_decide (_ = k)) eqn:Ek; boolify.
      * subst. assert (present (rs_conversationId i, rs_callerId i, rs_key i) (receipts db) <> 1) by (by rewrite present_in).
        assert (present (rs_conversationId i, rs_callerId i, rs_key i) (receipts db ++ [newRow i uuid now]) = 1); [|lia].
        apply present_in. rewrite fmap_app. apply elem_of_app. right. by left.
      * enough (present k (receipts db ++ [newRow i uuid now]) = 1 <-> present k (receipts db) = 1) by lia.
        rewrite !present_in, fmap_app, elem_of_app. split; [|by left].
        intros [?| ->%list_elem_of_singleton]; [done|]. by destruct Ek.
  - rewrite release_receipts. split.
    + eapply sublist_NoDup; [exact Hd|apply keys_sql_delete].
    + rewrite present_release by done. lia.
  - apply Hmove. apply update_receipt_step; try done. intros r Hr. boolify. by eapply held_accepted.
  - apply Hmove. apply update_receipt_step; try done. intros r Hr. boolify. by eapply held_accepted.
  - apply Hmove. apply update_receipt_step; try done. intros r Hr. boolify. by eapply held_accepted.
  - apply Hmove. unfold getPromptReceipt. case_match; [|auto].
    pose proof (normalize_step (receipts db) r now). by destruct (normalizeReceiptOnRead _ r now).
  - apply Hmove, list_steps.
  - apply Hmove. apply update_receipt_step; try done. intros r Hr. boolify. by apply in_state_true.
  - unfold deleteConversationRows. destruct (sql_get _ _) as [x|]; [|by apply Hmove, Forall2_receipt_refl].
    destruct (_ || _); [by apply Hmove, Forall2_receipt_refl|]. cbn [fst snd receipts andb]. split.
    + eapply sublist_NoDup; [exact Hd|apply keys_sql_delete].
    + rewrite present_forget. lia.
  - apply Hmove, Forall2_receipt_refl.
Qed.

(** ** Properties *)

(** C8. A prompt is accepted at most once per key: starting with no receipts, along any sequence of
    store calls (reservations, releases, renewals, completions, failures, reads, restarts,
    deletions of conversations, and calls that write other tables), the number of times a key was
    accepted for execution is the number of times its acceptance was taken back before execution,
    plus the number of times its receipt was deleted with its conversation, plus one exactly when
    the receipt is still there. *)
Theorem prompt_accepted_at_most_once (inst : string) (db : Db) (l : list (op * Z)) k :
  receipts db = [] ->
  let '(accepted, released, forgotten, db') := tally inst db l k in
  accepted = released + forgotten + present k (receipts db').
Proof.
  intros H. assert (Hd : NoDup (key_of <$> receipts db)) by (rewrite H; constructor).
  assert (Hgen : forall db, NoDup (key_of <$> receipts db) ->
    let '(accepted, released, forgotten, db') := tally inst db l k in
    present k (receipts db) + accepted = released + forgotten + present k (receipts db')).
  { clear. induction l as [|[o now] l IH]; intros db Hd; cbn [tally]; [lia|].
    destruct (run_op_present inst db o now k Hd) as [Hd' Hp]. specialize (IH _ Hd').
    destruct (tally inst (run_op inst db o now) l k) as [[[a b] d] db']. lia. }
  specialize (Hgen db Hd). destruct (tally inst db l k) as [[[a b] d] db'].
  rewrite H in Hgen. cbn in Hgen. lia.
Qed.

(** An existing receipt is never a licence to run again: while a row for the key is
    stored, a reservation returns that row's receipt (completed, or accepted with a live
    lease) or throws (a different request, an unknown outcome, a lease that ran out); it
    never accepts, and it changes the store only by marking an outdated acceptance
    unknown. *)
Theorem existing_receipt_is_not_replayed (db : Db) (i : ReserveInput) (uuid : string) (now : Z) r :
  sql_get (is_key (rs_conversationId i) (rs_callerId i) (rs_key i)) (receipts db) = Some r ->
  let '(db', res) := reservePrompt db i uuid now in
  match res with
  | Ok out => db' = db /\ out = toReceipt r /\ ir_isNew out = false /\ r_fingerprint r = rs_fingerprint i /\
              (r_state r = Completed \/ r_state r = Accepted /\ lease_live now r = true)
  | Err IdempotencyConflictError => db' = db /\ r_fingerprint r <> rs_fingerprint i
  | Err IdempotencyUnknownError => r_state r = Unknown /\ db' = db \/
      r_state r = Accepted /\ lease_live now r = false /\
      sql_get (is_key (rs_conversationId i) (rs_callerId i) (rs_key i)) (receipts db') = Some (expire_set r)
  | Err _ => False
  end.
Proof.
  intros Hr. unfold reservePrompt. rewrite Hr.
  destruct (String.eqb_spec (r_fingerprint r) (rs_fingerprint i)) as [Hf|Hf]; cbn [negb]; [|done].
  destruct (r_state r) eqn:Hs; [|by split_and!; auto|by auto].
  destruct (lease_live now r) eqn:Hl; [by split_and!; auto|].
  right. split_and!; [done|done|]. cbn [receipts with_receipts]. unfold expire_lease.
  rewrite sql_get_update by (intros x _; done). rewrite Hr. cbn.
  apply sql_get_Some in Hr as [_ ->]. unfold in_state. by rewrite Hs.
Qed.

Definition captured (i : ReserveInput) (sid : string) (rev g : Z) : Prop :=
  rs_oneShot i = true /\ rs_scheduleId i = Some sid /\ rs_scheduleRevision i = Some rev /\
  rs_scheduleGeneration i = Some g.

Lemma clearScheduleRetry_conversations db c : conversations (clearScheduleRetry db c) = conversations db.
Proof. done. Qed.

(** A new one-shot reservation leaves its schedule disabled, one generation later. *)
Lemma one_shot_disables db i uuid now db' r sid rev g :
  captured i sid rev g -> reservePrompt db i uuid now = (db', Ok r) -> ir_isNew r = true ->
  conversations db' = disable_schedule i now (conversations db) /\
  disabled_ok i sid rev (disable_schedule i now (conversations db)) = true.
Proof.
  intros (Ho & Hs & Hrv & Hg) H Hnew. unfold reservePrompt in H.
  destruct (sql_get _ (receipts db)) as [x|]; [repeat case_match; simplify_eq; done|].
  destruct (reserve_schedule _ i now) as [db1|e] eqn:Hres; [|done]. injection H as -> _.
  unfold reserve_schedule in Hres. rewrite Hs, Hrv, Ho in Hres.
  apply bind_Ok in Hres as (_ & _ & Hres). apply bind_Ok in Hres as (u & Hok & Hres). cbn in Hok.
  apply require_Ok in Hok. apply bind_Ok in Hres as (db2 & Hocc & [= <-]). split; [|done].
  assert (conversations db2 = disable_schedule i now (conversations db)) as Hc.
  { by apply reserve_occurrence_frame in Hocc as [_ ->]. }
  by destruct (rs_clearScheduleRetry i).
Qed.

(** A one-shot schedule fires once: when a reservation has captured a schedule's
    identity, revision and generation and was accepted, the schedule is disabled, and any
    other reservation with the same capture, under whatever free key, is refused with a
    revision conflict and leaves the store as it is. *)
Theorem one_shot_fires_once (db : Db) (i j : ReserveInput) (uuid uuid' : string) (now now' : Z) db' r sid rev g :
  NoDup (cv_id <$> conversations db) ->
  captured i sid rev g -> captured j sid rev g -> rs_conversationId j = rs_conversationId i ->
  reservePrompt db i uuid now = (db', Ok r) -> ir_isNew r = true ->
  sql_get (is_key (rs_conversationId j) (rs_callerId j) (rs_key j)) (receipts db') = None ->
  reservePrompt db' j uuid' now' = (db', Err ScheduleRevisionConflictError).
Proof.
  intros Hd Hi (Ho & Hs & Hrv & Hg) Hconv Hres Hnew Hfree.
  destruct (one_shot_disables _ _ _ _ _ _ _ _ _ Hi Hres Hnew) as [Hcs Hok].
  unfold reservePrompt. rewrite Hfree.
  enough (Hcur : forall db2, conversations db2 = conversations db' -> schedule_current db2 j sid rev = false).
  { unfold reserve_schedule. rewrite Hs, Hrv, Hcur by done. done. }
  intros db2 E. unfold schedule_current. rewrite E, Hcs, Hconv.
  destruct (sql_get (is_conv (rs_conversationId i)) _) as [c|] eqn:Hc; [|done].
  apply sql_get_Some in Hc as [Hc Hid]. unfold disabled_ok in Hok.
  destruct (sql_get _ _) as [c'|] eqn:Hc' in Hok; [|done]. apply sql_get_Some in Hc' as [Hc' Hid'].
  assert (c' = c) as ->.
  { unfold is_conv in *. boolify.
    eapply (NoDup_key_eq cv_id); [|exact Hc'|exact Hc|congruence]. unfold disable_schedule. by rewrite keys_sql_update. }
  boolify. rewrite (bool_decide_false (enabled_of c = Some true)) by congruence. by rewrite andb_false_r.
Qed.

Lemma disabled_row db i now sid rev g : NoDup (cv_id <$> conversations db) -> captured i sid rev g ->
  disabled_ok i sid rev (disable_schedule i now (conversations db)) = true ->
  exists c, sql_get (is_conv (rs_conversationId i)) (disable_schedule i now (conversations db)) = Some c /\
    schedule_is c sid rev (g + 1) = true /\ enabled_of c = Some false.
Proof.
  intros Hd (_ & _ & _ & Hg) Hok. unfold disabled_ok in Hok.
  destruct (sql_get _ _) as [c|] eqn:Hc; [|done]. apply sql_get_Some in Hc as [Hc Hid]. boolify.
  exists c. unfold is_conv in *. boolify. split_and!; [|unfold schedule_is|done].
  - apply (sql_get_key cv_id); [unfold disable_schedule; by rewrite keys_sql_update|done|by apply String.eqb_eq|].
    intros c' Hc'. boolify. congruence.
  - rewrite Hg in H0. cbn in H0. by rewrite H3, H2, H0.
Qed.

(** Taking a one-shot acceptance back restores its schedule: releasing the reservation
    before execution, with the generation the reservation returned, removes the receipt,
    enables the schedule again one generation later and records the occurrence to be
    retried. *)
Theorem release_restores_one_shot (inst : string) (db : Db) (i : ReserveInput) (uuid at_ : string)
    (now now' : Z) (reason : option string) db' r sid rev g :
  NoDup (cv_id <$> conversations db) -> NoDup (key_of <$> receipts db) ->
  captured i sid rev g -> reservePrompt db i uuid now = (db', Ok r) -> ir_isNew r = true ->
  ir_scheduleGeneration r = Some (g + 1) /\
  exists db'', releasePreExecutionPrompt inst db' (rs_conversationId i) (rs_callerId i) (rs_key i) (Some uuid) true
      (Some (mkRetryInput sid at_ rev (g + 1) reason)) now' = (db'', true) /\
    sql_get (is_key (rs_conversationId i) (rs_callerId i) (rs_key i)) (receipts db'') = None /\
    (exists c, sql_get (is_conv (rs_conversationId i)) (conversations db'') = Some c /\
       schedule_is c sid rev (g + 2) = true /\ enabled_of c = Some true) /\
    exists rt, rt ∈ retries db'' /\ rt_conversation_id rt = rs_conversationId i /\ rt_occurrence_at rt = at_ /\
      rt_schedule_id rt = sid /\ rt_generation rt = g + 2.
Proof.
  intros Hd Hk Hcap Hres Hnew.
  destruct (one_shot_disables _ _ _ _ _ _ _ _ _ Hcap Hres Hnew) as [Hcs Hok].
  destruct (disabled_row _ _ _ _ _ _ Hd Hcap Hok) as (c & Hc & Hsched & _).
  pose proof (reserve_receipts db i uuid now) as Hr. rewrite Hres, Hnew in Hr. destruct Hr as [Hrs Hfree].
  split.
  { unfold reservePrompt in Hres. rewrite Hfree in Hres. destruct (reserve_schedule _ i now); [|done].
    injection Hres as _ <-. destruct Hcap as (Ho & _ & _ & Hg). cbn. by rewrite Ho, Hg. }
  set (hit := fun x => is_key (rs_conversationId i) (rs_callerId i) (rs_key i) x && held_by uuid x).
  assert (Hchanged : sql_changes hit (receipts db') =? 0 = false).
  { apply Z.eqb_neq. intros H. rewrite sql_changes_zero in H.
    specialize (H (newRow i uuid now)). rewrite Hrs in H.
    assert (hit (newRow i uuid now) = true) as Hh.
    { unfold hit, is_key, held_by, newRow; cbn. by rewrite !String.eqb_refl. }
    rewrite H in Hh; [done|]. apply elem_of_app. right. by left. }
  eexists. split_and!.
  - unfold releasePreExecutionPrompt. change (nullish (Some uuid) inst) with uuid. fold hit. rewrite Hchanged. cbn [negb andb].
    rewrite Hcs, Hc. cbn [ri_scheduleId ri_revision ri_scheduleGeneration]. by rewrite Hsched.
  - cbn [receipts with_receipts]. apply sql_get_None. intros x [Hx Hh]%elem_of_sql_delete.
    rewrite Hrs in Hx. apply elem_of_app in Hx as [Hx| ->%list_elem_of_singleton].
    + exact (proj1 (sql_get_None _ _) Hfree x Hx).
    + revert Hh. unfold hit, is_key, held_by, newRow; cbn. by rewrite !String.eqb_refl.
  - cbn [conversations]. rewrite sql_get_update by (intros x _; done). rewrite Hc. eexists. split; [done|].
    apply sql_get_Some in Hc as [_ Hid]. rewrite Hid, Hsched. cbn [andb].
    unfold schedule_is in *. boolify. unfold schedule_id_of, revision_of, set_enabled, eq_str, eq_Z in *. boolify.
    destruct (cv_schedule c) as [s|] eqn:Es; cbn in *; [|done]. split; [|done].
    rewrite H, H1. rewrite !bool_decide_true by done. cbn. apply Z.eqb_eq. lia.
  - cbn [retries]. unfold put_retry, sql_upsert.
    exists (mkRetry (rs_conversationId i) sid at_ rev (g + 1 + 1)
      (slice 96 (nullish reason "authorization_required")) now').
    split; [|cbn; split_and!; try done; lia].
    destruct (existsb _ (retries db')) eqn:E; [|apply elem_of_app; right; by left].
    apply existsb_exists in E as (x & Hx & Hxc). apply elem_of_sql_update. exists x.
    rewrite list_elem_of_In. split; [done|]. by rewrite Hxc.
Qed.

(** ** A concrete schedule *)

Definition demoDb : Db := mkDb []
  [mkConv "c" (Some "t") (Some "m") (Some (mkSched (Some "s") (Some 1) (Some true) "{}")) 5 0] []
  (Automation.mkAutomation [] [] [] []).
Definition demoReserve (key : string) : ReserveInput :=
  mkReserve "c" "m" key "f" None true (Some "s") (Some 1) (Some 5) true (Some "2024-01-01T00:00:00.000Z").
Definition demoReserved : Db := Eval vm_compute in (reservePrompt demoDb (demoReserve "k1") "u1" 100).1.

(** After its conversation is deleted a key is accepted again, although no such conversation exists:
    a reservation without a schedule does not look for one. *)
Definition demoPlain : ReserveInput := mkReserve "c" "m" "k1" "f" None false None None None false None.
Definition demoForgotten : list (op * Z) :=
  [(OReserve demoPlain "u1", 100); (OReserve demoPlain "u2", 200); (ODelete "c" (Some "t") (Some "m"), 300); (OReserve demoPlain "u3", 400)].

Lemma prompt_accepted_at_most_once_witness :
  let '(accepted, released, forgotten, db') := tally "inst" demoDb demoForgotten ("c", "m", "k1") in
  accepted = released + forgotten + present ("c", "m", "k1") (receipts db') /\ (accepted, released, forgotten) = (2, 0, 1).
Proof.
  pose proof (prompt_accepted_at_most_once "inst" demoDb demoForgotten ("c", "m", "k1") eq_refl) as H.
  destruct (tally "inst" demoDb demoForgotten ("c", "m", "k1")) as [[[a b] d] db'] eqn:E.
  split; [exact H|]. vm_compute in E. by injection E as <- <- <- _.
Defined.

Lemma existing_receipt_is_not_replayed_witness :
  (reservePrompt demoReserved (demoReserve "k1") "u2" 200).1 = demoReserved.
Proof.
  pose proof (existing_receipt_is_not_replayed demoReserved (demoReserve "k1") "u2" 200
    (newRow (demoReserve "k1") "u1" 100) eq_refl) as H.
  vm_compute in H |- *. by destruct H.
Defined.

Lemma demo_conv_ids : NoDup (cv_id <$> conversations demoDb).
Proof. apply NoDup_singleton. Qed.

Lemma one_shot_fires_once_witness :
  reservePrompt demoReserved (demoReserve "k2") "u2" 200 = (demoReserved, Err ScheduleRevisionConflictError).
Proof.
  apply (one_shot_fires_once demoDb (demoReserve "k1") (demoReserve "k2") "u1" "u2" 100 200 demoReserved
    (newReceipt (demoReserve "k1") "u1") "s" 1 5 demo_conv_ids); vm_compute; auto.
Defined.

Lemma release_restores_one_shot_witness :
  exists db'', releasePreExecutionPrompt "inst" demoReserved "c" "m" "k1" (Some "u1") true
    (Some (mkRetryInput "s" "2024-01-01T00:00:00.000Z" 1 6 None)) 300 = (db'', true).
Proof.
  destruct (release_restores_one_shot "inst" demoDb (demoReserve "k1") "u1" "2024-01-01T00:00:00.000Z" 100 300 None
    demoReserved (newReceipt (demoReserve "k1") "u1") "s" 1 5 demo_conv_ids) as (_ & db'' & H & _);
    [constructor|vm_compute; auto|reflexivity|reflexivity|].
  by exists db''.
Defined.
