(* ===== verification/Usage.v ===== *)
(** Usage measurement and exact costs (usage.ts).

    Costs are decimal texts with twelve fractional digits, computed with arbitrary
    precision integers ([bigint], here [N]).  Token counters are the integers the Pi
    session reports; [None] is a counter that is missing or not a number.  [sha256] is
    Node's digest in hexadecimal. *)

From S2P Require Import Prelude Decimal IsoTime.
From Stdlib Require Import Ascii.
From Stdlib Require String.
Local Open Scope Z_scope.

Definition MAX_SAFE_INTEGER : Z := 9007199254740991.

(** *** Decimal texts *)

Fixpoint zeros (n : nat) : string :=
  match n with O => "" | S n => String "0" (zeros n) end.

(** [s.padStart(n, "0")] and [s.padEnd(n, "0")]. *)
Definition padStart (n : nat) (s : string) : string := zeros (n - String.length s) +:+ s.
Definition padEnd (n : nat) (s : string) : string := s +:+ zeros (n - String.length s).

(** The longest prefix of digits, and the rest. *)
Fixpoint spanDigits (s : string) : string * string :=
  match s with
  | EmptyString => ("", "")
  | String c s' => if is_digit c then let (d, r) := spanDigits s' in (String c d, r) else ("", s)
  end.

(** [/^\d+(\.\d{1,n})?$/] with the two parts [split(".")] yields. *)
Definition matchDecimal (n : nat) (s : string) : option (string * string) :=
  let (whole, rest) := spanDigits s in
  if String.eqb whole "" then None
  else match rest with
  | EmptyString => Some (whole, "")
  | String c fraction =>
      if Ascii.eqb c "." && all_digits fraction && (1 <=? slen fraction) && (slen fraction <=? Z.of_nat n)
      then Some (whole, fraction) else None
  end.

(** [BigInt(whole) * 10^n + BigInt(fraction.padEnd(n, "0"))]. *)
Definition decimalUnits (n : nat) (p : string * string) : N :=
  (digits_val p.1 * 10 ^ N.of_nat n + digits_val (padEnd n p.2))%N.

Definition USD_UNIT : N := 1000000000000.

Definition usdDecimal (units : N) : string :=
  pretty (units / USD_UNIT)%N +:+ "." +:+ padStart 12 (pretty (units mod USD_UNIT)%N).

(** The values a stored cost can have: a text, a finite number as a fraction [n / d], or
    something else. *)
Inductive usd_value : Type :=
| UsdString (s : string)
| UsdNumber (n : Z) (d : positive)
| UsdOther.

(** [value.toFixed(12)] of a non-negative number: the nearest multiple of 10^-12, the
    larger one of two. *)
Definition toFixed12 (n : Z) (d : positive) : string :=
  usdDecimal (Z.to_N ((2 * n * Z.of_N USD_UNIT + Zpos d) / (2 * Zpos d))).

Definition usdUnits (value : usd_value) : option N :=
  let parse s := decimalUnits 12 <$> matchDecimal 12 s in
  match value with
  | UsdNumber n d => if (n <? 0) || (1000000000000000000000 * Zpos d <=? n) then None else parse (toFixed12 n d)
  | UsdString s => parse s
  | UsdOther => None
  end.

(** The SQL function [add_usage_cost] of the store: [NULL] when a side is unreadable. *)
Definition add_usage_cost (left right : usd_value) : option string :=
  match usdUnits left, usdUnits right with
  | Some a, Some b => Some (usdDecimal (a + b))
  | _, _ => None
  end.

(** [minorFromUsdUnits], with its digit loop. *)
Definition minorFromUsdUnits (units : option N) : option Z :=
  match units with
  | None => None
  | Some u =>
      let minor := ((u + 5000000000) / 10000000000)%N in
      if MAX_SAFE_INTEGER <? Z.of_N minor then None
      else Some (fold_left (fun result c => result * 10 + Z.of_N (N_of_ascii c) - 48) (chars (pretty minor)) 0)
  end.

(** *** Session entries and prices *)

Record TokenUsage : Type := mkTokenUsage {
  u_input : option num; u_output : option num; u_cacheRead : option num; u_cacheWrite : option num;
}.

(** A session entry as far as usage is concerned: an assistant message with its usage
    record, or anything else. *)
Inductive SessionEntry : Type :=
| Assistant (usage : option TokenUsage)
| OtherEntry.

Record RuntimePricingSnapshot : Type := mkPricing {
  billing_mode : string;
  p_pricing_status : string;
  p_currency : string;
  p_pricing_version : option Z;
  request_usd : option string;
  input_usd_per_million : option string;
  output_usd_per_million : option string;
  cache_read_usd_per_million : option string;
  cache_write_usd_per_million : option string;
}.

Definition finite (value : option num) : Z :=
  match value with Some (Fin z) => if 0 <=? z then z else 0 | _ => 0 end.

(** [Number.isSafeInteger(value) && value >= 0]. *)
Definition safeCounter (value : option num) : option Z :=
  match value with Some (Fin z) => if (0 <=? z) && (z <=? MAX_SAFE_INTEGER) then Some z else None | _ => None end.

Definition assistants (entries : list SessionEntry) : list (option TokenUsage) :=
  omap (fun e => match e with Assistant u => Some u | OtherEntry => None end) entries.

Definition fields (u : TokenUsage) : list (option num) := [u_input u; u_output u; u_cacheRead u; u_cacheWrite u].

(** One counter added to its total; [None] when the counter or the total is not a safe integer. *)
Definition addCounter (total : Z) (value : option num) : option Z :=
  match safeCounter value with
  | Some v => if total + v <=? MAX_SAFE_INTEGER then Some (total + v) else None
  | None => None
  end.

Fixpoint addCounters (totals : list Z) (values : list (option num)) : option (list Z) :=
  match totals, values with
  | t :: ts, v :: vs => t' ← addCounter t v; ts' ← addCounters ts vs; Some (t' :: ts')
  | _, _ => Some []
  end.

Fixpoint sumUsage (totals : list Z) (l : list (option TokenUsage)) : option (list Z) :=
  match l with
  | [] => Some totals
  | None :: _ => None
  | Some u :: l => totals' ← addCounters totals (fields u); sumUsage totals' l
  end.

Definition ratesOf (p : RuntimePricingSnapshot) : list (option string) :=
  if String.eqb (billing_mode p) "request" then [request_usd p]
  else [input_usd_per_million p; output_usd_per_million p; cache_read_usd_per_million p; cache_write_usd_per_million p].

(** The rates in millionths of a dollar, when every one is a well-formed text. *)
Fixpoint rateUnits (rates : list (option string)) : option (list N) :=
  match rates with
  | [] => Some []
  | r :: rates =>
      s ← r; p ← matchDecimal 6 s; us ← rateUnits rates; Some (decimalUnits 6 p :: us)
  end.

Definition knownRates (pricing : option RuntimePricingSnapshot) : option (list N) :=
  match pricing with
  | Some p =>
      if String.eqb (p_pricing_status p) "known" && String.eqb (p_currency p) "USD"
         && (String.eqb (billing_mode p) "request" || String.eqb (billing_mode p) "token")
      then rateUnits (ratesOf p) else None
  | None => None
  end.

(** [totals.reduce((sum, value, index) => sum + BigInt(value) * units[index], 0n)]. *)
Fixpoint tokenCost (totals : list Z) (units : list N) : N :=
  match totals, units with
  | t :: ts, u :: us => (Z.to_N t * u + tokenCost ts us)%N
  | _, _ => 0%N
  end.

Definition workCost (pricing : option RuntimePricingSnapshot) (totals : list Z) : option N :=
  match knownRates pricing, pricing with
  | Some units, Some p =>
      Some (if String.eqb (billing_mode p) "request" then (nth 0 units 0 * 1000000)%N else tokenCost totals units)
  | _, _ => None
  end.

Record WorkUsage : Type := mkWorkUsage {
  wu_input_tokens : Z; wu_output_tokens : Z; wu_cache_tokens : Z; wu_token_total : Z;
  wu_cost_total : option string; wu_known : bool; wu_pricing_version : option Z;
}.

Definition measureWorkUsage (entries : list SessionEntry) (pricing : option RuntimePricingSnapshot)
    : option WorkUsage :=
  match assistants entries with
  | [] => None
  | l =>
      match sumUsage [0; 0; 0; 0] l with
      | Some [input; output; cacheRead; cacheWrite] =>
          let cost := workCost pricing [input; output; cacheRead; cacheWrite] in
          Some (mkWorkUsage input output (cacheRead + cacheWrite) (input + output + cacheRead + cacheWrite)
                  (usdDecimal <$> cost) (match cost with Some _ => true | None => false end)
                  (pricing ≫= p_pricing_version))
      | _ => None
      end
  end.

(** *** Hourly summaries *)

Section Summary.
Context (sha256 : string -> string).

Record UsageSummary : Type := mkSummary {
  s_summary_id : string; s_tenant_id : string; s_member_id : string; s_employee_id : string;
  s_window_start : Z; s_window_end : Z;
  s_prompt_count : Z; s_settled_count : Z; s_error_count : Z;
  s_input_tokens : Z; s_output_tokens : Z; s_cache_tokens : Z;
  s_cost_minor : option Z; s_duration_ms_total : Z; s_pricing_version : option Z; s_known : bool;
  s_run_count : Z; s_token_total : Z; s_cost_total : option string; s_duration_seconds_total : Z;
}.

Record UsageCapture : Type := mkCapture {
  cap_tenantId : string; cap_memberId : string; cap_employeeId : string;
  cap_startedAt : Z; cap_endedAt : Z; cap_entries : list SessionEntry; cap_settled : bool;
  cap_pricing : option RuntimePricingSnapshot;
}.

(** The loop of [aggregateUsage]: what each counter contributes, whatever is missing. *)
Definition sumFinite (f : TokenUsage -> option num) (entries : list SessionEntry) : Z :=
  fold_left (fun acc e => match e with Assistant (Some u) => acc + finite (f u) | _ => acc end) entries 0.

Definition summaryKey (c : UsageCapture) (known : bool) : string :=
  cap_tenantId c +:+ ":" +:+ cap_memberId c +:+ ":" +:+ cap_employeeId c +:+ ":"
    +:+ toISOString (startOfHour (cap_startedAt c)) +:+ ":"
    +:+ (match cap_pricing c ≫= p_pricing_version with Some v => pretty v | None => "unknown" end)
    +:+ (if known then "" else ":unknown").

Definition aggregateUsage (c : UsageCapture) : UsageSummary :=
  let start := startOfHour (cap_startedAt c) in
  let input := sumFinite u_input (cap_entries c) in
  let output := sumFinite u_output (cap_entries c) in
  let cache := sumFinite u_cacheRead (cap_entries c) + sumFinite u_cacheWrite (cap_entries c) in
  let measured := measureWorkUsage (cap_entries c) (cap_pricing c) in
  let costTotal := match measured with
    | Some w => if wu_known w then wu_cost_total w else None
    | None => None
    end in
  let known := match costTotal with Some _ => true | None => false end in
  let costMinor := match costTotal with Some t => minorFromUsdUnits (usdUnits (UsdString t)) | None => None end in
  let duration := Z.max 0 (cap_endedAt c - cap_startedAt c) in
  mkSummary (sha256 (summaryKey c known)) (cap_tenantId c) (cap_memberId c) (cap_employeeId c)
    start (start + MS_PER_HOUR) 1 (if cap_settled c then 1 else 0) (if cap_settled c then 0 else 1)
    input output cache costMinor duration (cap_pricing c ≫= p_pricing_version) known
    1 (input + output + cache) costTotal ((duration + 999) / 1000).

Record SegmentOutcomeSummary : Type := mkOutcome {
  so_summary_id : string; so_tenant_id : string; so_member_id : string; so_employee_id : string;
  so_window_start : Z; so_window_end : Z; so_evaluated_count : Z; so_resolved_count : Z;
}.

Definition segmentOutcomeSummary (tenantId memberId employeeId : string) (hourStart evaluated resolved : Z)
    : SegmentOutcomeSummary :=
  let start := startOfHour hourStart in
  mkOutcome (sha256 ("segment_outcome:" +:+ tenantId +:+ ":" +:+ memberId +:+ ":" +:+ employeeId +:+ ":"
      +:+ toISOString start))
    tenantId memberId employeeId start (start + MS_PER_HOUR) evaluated resolved.
End Summary.

(** ** Texts and amounts *)

Lemma zeros_length n : String.length (zeros n) = n.
Proof. induction n; cbn; auto. Qed.

Lemma zeros_digits n : all_digits (zeros n) = true /\ digits_val (zeros n) = 0%N.
Proof.
  induction n as [|n [IH1 IH2]]; [done|]. change (zeros (S n)) with ("0" +:+ zeros n).
  rewrite all_digits_app, IH1, digits_val_app, IH2. split; [done|]. change (digits_val "0") with 0%N. lia.
Qed.

Lemma spanDigits_app w r : all_digits w = true ->
  match r with EmptyString => True | String c _ => is_digit c = false end -> spanDigits (w +:+ r) = (w, r).
Proof.
  intros Hw Hr. induction w as [|c w IH]; simpl.
  - destruct r as [|c r]; [done|]. simpl. by rewrite Hr.
  - unfold all_digits in *. cbn in Hw. apply andb_true_iff in Hw as [-> Hw]. by rewrite (IH Hw).
Qed.

Lemma matchDecimal_text n w f : all_digits w = true -> w <> "" -> all_digits f = true ->
  (1 <= String.length f <= n)%nat -> matchDecimal n (w +:+ "." +:+ f) = Some (w, f).
Proof.
  intros Hw Hne Hf Hl. unfold matchDecimal. rewrite (spanDigits_app w) by done.
  apply String.eqb_neq in Hne as ->. change ("." +:+ f) with (String "." f).
  cbn iota beta. rewrite Hf, Ascii.eqb_refl. cbn [andb]. unfold slen. destruct (Z.leb_spec 1 (Z.of_nat (String.length f))); [|lia].
  by destruct (Z.leb_spec (Z.of_nat (String.length f)) (Z.of_nat n)); [|lia].
Qed.

Lemma padStart_spec n x : (1 <= n)%nat -> (x < 10 ^ N.of_nat n)%N ->
  all_digits (padStart n (pretty x)) = true /\ digits_val (padStart n (pretty x)) = x /\
  String.length (padStart n (pretty x)) = n.
Proof.
  intros Hn Hx. unfold padStart. destruct (pretty_N_spec x) as (Hd & Hv & _).
  destruct (zeros_digits (n - String.length (pretty x))) as [Hz Hzv].
  rewrite all_digits_app, Hz, Hd, digits_val_app, Hzv, Hv, append_length, zeros_length.
  pose proof (pretty_N_length n x Hn Hx). split_and!; [done|lia|lia].
Qed.

Lemma usdUnits_decimal (units : N) : usdUnits (UsdString (usdDecimal units)) = Some units.
Proof.
  unfold usdUnits, usdDecimal.
  destruct (pretty_N_spec (units / USD_UNIT)%N) as (Hd & Hv & Hne).
  destruct (padStart_spec 12 (units mod USD_UNIT)%N) as (Pd & Pv & Pl); [lia|by apply N.mod_lt|].
  rewrite matchDecimal_text by (done || lia). cbn [fmap option_fmap option_map]. unfold decimalUnits, padEnd. cbn [fst snd].
  rewrite Pl. cbn [zeros Nat.sub]. rewrite append_nil_r, Hv, Pv. f_equal.
  change (10 ^ N.of_nat 12)%N with USD_UNIT. pose proof (N.div_mod units USD_UNIT ltac:(done)). lia.
Qed.

(** ** Properties *)

(** Costs round-trip exactly: reading back the twelve-digit text of an amount gives
    the amount, however large it is, and the ledger's addition of two texts is the text of
    the exact sum. *)
Theorem usd_text_roundtrip (a b : N) :
  usdUnits (UsdString (usdDecimal a)) = Some a /\
  add_usage_cost (UsdString (usdDecimal a)) (UsdString (usdDecimal b)) = Some (usdDecimal (a + b)).
Proof. unfold add_usage_cost. by rewrite !usdUnits_decimal. Qed.

Lemma minor_loop l acc :
  fold_left (fun result c => result * 10 + Z.of_N (N_of_ascii c) - 48) l (Z.of_N acc) =
  Z.of_N (digits_fold acc l) \/ forallb is_digit l = false.
Proof.
  revert acc. induction l as [|c l IH]; intros acc; cbn [fold_left forallb]; [by left|].
  destruct (is_digit c) eqn:E; [|by right]. unfold is_digit in E. boolify. cbn [andb].
  replace (Z.of_N acc * 10 + Z.of_N (N_of_ascii c) - 48) with (Z.of_N (acc * 10 + digit_val c)%N)
    by (unfold digit_val; lia).
  apply IH.
Qed.

(** The legacy cent amount is the exact amount rounded half up to cents, and is
    absent exactly when it would not be a safe integer; the digit-by-digit conversion is
    exact. *)
Theorem minor_rounds_half_up (units : N) :
  let minor := (Z.of_N units + 5000000000) / 10000000000 in
  minorFromUsdUnits (Some units) = (if MAX_SAFE_INTEGER <? minor then None else Some minor) /\
  - 5000000000 <= minor * 10000000000 - Z.of_N units <= 5000000000.
Proof.
  intros minor. unfold minorFromUsdUnits.
  assert (Hm : Z.of_N ((units + 5000000000) / 10000000000)%N = minor).
  { unfold minor. rewrite N2Z.inj_div, N2Z.inj_add. done. }
  rewrite Hm. split.
  - case_match; [done|]. f_equal. rewrite <- Hm. set (x := ((units + 5000000000) / 10000000000)%N).
    destruct (pretty_N_spec x) as (Hd & Hv & _).
    destruct (minor_loop (chars (pretty x)) 0) as [E|E]; [|unfold all_digits in Hd; congruence].
    cbn in E. rewrite E. unfold digits_val in Hv. by rewrite Hv.
  - unfold minor. Z.to_euclidean_division_equations; lia.
Qed.

Lemma addCounter_Some t v t' : addCounter t v = Some t' -> t' = t + finite v /\ t' <= MAX_SAFE_INTEGER.
Proof.
  unfold addCounter, safeCounter, finite. intros H.
  destruct v as [[z| | |]|]; try done.
  destruct (Z.leb_spec 0 z); [|done]. destruct (z <=? _); [|done]. cbn in H. split_ifs_in H. lia.
Qed.

Lemma sumFinite_acc f entries acc :
  fold_left (fun acc e => match e with Assistant (Some u) => acc + finite (f u) | _ => acc end) entries acc =
  acc + sumFinite f entries.
Proof.
  unfold sumFinite. revert acc. induction entries as [|e entries IH]; intros acc; cbn [fold_left]; [lia|].
  rewrite IH. destruct e as [[u|]|]; rewrite ?(IH (0 + _)); lia.
Qed.

Lemma sumFinite_cons f e entries : sumFinite f (e :: entries) =
  (match e with Assistant (Some u) => finite (f u) | _ => 0 end) + sumFinite f entries.
Proof.
  unfold sumFinite at 1. cbn [fold_left]. rewrite sumFinite_acc. destruct e as [[u|]|]; lia.
Qed.

(** Adding up what the assistants report is adding up the counters of all entries. *)
Lemma sumUsage_spec a b c d entries ts : sumUsage [a; b; c; d] (assistants entries) = Some ts ->
  ts = [a + sumFinite u_input entries; b + sumFinite u_output entries;
        c + sumFinite u_cacheRead entries; d + sumFinite u_cacheWrite entries].
Proof.
  revert a b c d. induction entries as [|e entries IH]; intros a b c d.
  - cbn. intros [= <-]. unfold sumFinite; cbn. by rewrite !Z.add_0_r.
  - rewrite !sumFinite_cons. destruct e as [[u|]|]; [|done|].
    + cbn [assistants omap list_omap]. fold (assistants entries). cbn [sumUsage]. intros (ts' & Hadd & Hsum)%bind_Some.
      unfold fields in Hadd. cbn [addCounters] in Hadd.
      repeat (apply bind_Some in Hadd as (? & [-> _]%addCounter_Some & Hadd);
              apply bind_Some in Hadd as (? & Hadd' & [= <-]); rename Hadd' into Hadd).
      cbn in Hadd. injection Hadd as <-. apply IH in Hsum as ->. by rewrite !Z.add_assoc.
    + cbn [assistants omap list_omap]. intros ->%IH. by rewrite !Z.add_0_l.
Qed.

(** Measured usage is exact: when a run is measured, the counters are the sums of what
    its assistant messages report, and agree with the aggregate that is uploaded; and the
    priced cost, read back, is exactly the rate per request, or the sum over the four
    counters of tokens times rate in units of 10^-12 dollars, with no rounding. *)
Theorem measured_cost_is_exact (entries : list SessionEntry) (pricing : option RuntimePricingSnapshot) w :
  measureWorkUsage entries pricing = Some w ->
  let totals := [sumFinite u_input entries; sumFinite u_output entries;
                 sumFinite u_cacheRead entries; sumFinite u_cacheWrite entries] in
  wu_input_tokens w = sumFinite u_input entries /\ wu_output_tokens w = sumFinite u_output entries /\
  wu_cache_tokens w = sumFinite u_cacheRead entries + sumFinite u_cacheWrite entries /\
  wu_token_total w = wu_input_tokens w + wu_output_tokens w + wu_cache_tokens w /\
  match wu_cost_total w with
  | None => wu_known w = false /\ knownRates pricing = None
  | Some text => wu_known w = true /\ exists p rates, pricing = Some p /\ knownRates pricing = Some rates /\
      usdUnits (UsdString text) =
        Some (if String.eqb (billing_mode p) "request" then nth 0 rates 0 * 1000000 else tokenCost totals rates)%N
  end.
Proof.
  intros H totals. unfold measureWorkUsage in H.
  destruct (assistants entries) as [|x l] eqn:Ha; [done|].
  destruct (sumUsage [0; 0; 0; 0] (x :: l)) as [ts|] eqn:Hs; [|done].
  rewrite <- Ha in Hs. apply sumUsage_spec in Hs as ->. rewrite !Z.add_0_l in H.
  fold totals in H. injection H as <-. cbn [wu_input_tokens wu_output_tokens wu_cache_tokens wu_token_total wu_cost_total wu_known].
  split_and!; try lia. unfold workCost.
  destruct (knownRates pricing) as [rates|] eqn:Hk; [|by destruct pricing].
  destruct pricing as [p|]; [|done]. cbn. split; [done|]. exists p, rates. split_and!; try done.
  apply usdUnits_decimal.
Qed.

Definition demoEntries : list SessionEntry :=
  [OtherEntry; Assistant (Some (mkTokenUsage (Some (Fin 1000)) (Some (Fin 200)) (Some (Fin 30)) (Some (Fin 4))))].
Definition demoPricing : RuntimePricingSnapshot :=
  mkPricing "token" "known" "USD" (Some 3) None (Some "2.5") (Some "10") (Some "0.25") (Some "3.125").
Definition demoWork : WorkUsage := mkWorkUsage 1000 200 34 1234 (Some "0.004520000000") true (Some 3).

Lemma measured_cost_is_exact_witness :
  measureWorkUsage demoEntries (Some demoPricing) = Some demoWork /\ wu_token_total demoWork = 1234.
Proof.
  destruct (measured_cost_is_exact demoEntries (Some demoPricing) demoWork ltac:(vm_compute; reflexivity))
    as (_ & _ & _ & H & _).
  split; [vm_compute; reflexivity|exact H].
Defined.
