(* ===== verification/Regex.v ===== *)
(** Texts as UTF-16 code units, and the regular expressions of the sources.

    [re] has the constructs the sources use; [rmatch] is the backtracking matcher of
    ECMAScript: alternatives in order, repetitions greedy, an iteration that consumes
    nothing ends its loop.  [replaceAll] is [String.prototype.replace] with a global
    pattern, [test] is [RegExp.prototype.test]. *)

From S2P Require Import Prelude Decimal.
From Stdlib Require Import Ascii.
From Stdlib Require String.
Local Open Scope Z_scope.

Definition text : Type := list Z.

(** The code units of an ASCII literal. *)
Definition u (s : string) : text := (fun c => Z.of_N (N_of_ascii c)) <$> chars s.

(** [s.slice(0, n)]. *)
Definition tslice (n : nat) (s : text) : text := take n s.

Inductive re : Type :=
| RChar (p : Z -> bool)
| REps
| RSeq (a b : re)
| RAlt (a b : re)
| RStar (a : re)
| RBoundary.

Definition RPlus (a : re) : re := RSeq a (RStar a).
Definition ROpt (a : re) : re := RAlt a REps.

(** [\w] and [\s]. *)
Definition is_word (c : Z) : bool :=
  ((48 <=? c) && (c <=? 57)) || ((65 <=? c) && (c <=? 90)) || ((97 <=? c) && (c <=? 122)) || (c =? 95).
Definition is_space (c : Z) : bool :=
  ((9 <=? c) && (c <=? 13)) || (c =? 32) || (c =? 160) || (c =? 5760) || ((8192 <=? c) && (c <=? 8202))
  || (c =? 8232) || (c =? 8233) || (c =? 8239) || (c =? 8287) || (c =? 12288) || (c =? 65279).

(** [s.length], [s.trim()], and whether the trimmed text is empty. *)
Definition tlen (s : text) : Z := Z.of_nat (length s).
Fixpoint trimStart (s : text) : text :=
  match s with c :: s' => if is_space c then trimStart s' else s | [] => [] end.
Definition trim (s : text) : text := reverse (trimStart (reverse (trimStart s))).
Definition blank (s : text) : bool := forallb is_space s.

Lemma trimStart_length s : (length (trimStart s) <= length s)%nat.
Proof. induction s as [|c s IH]; cbn; [done|]. destruct (is_space c); cbn; lia. Qed.
Lemma trim_length s : (length (trim s) <= length s)%nat.
Proof.
  unfold trim. rewrite length_reverse. etrans; [apply trimStart_length|]. rewrite length_reverse. apply trimStart_length.
Qed.

(** ** Code points *)

Definition isHigh (c : Z) : bool := (55296 <=? c) && (c <=? 56319).
Definition isLow (c : Z) : bool := (56320 <=? c) && (c <=? 57343).
(** [Array.from(text)]: code points, a surrogate pair being one. *)
Fixpoint codePoints (s : text) : list text :=
  match s with
  | [] => []
  | c :: s' =>
      match s' with
      | d :: s'' => if isHigh c && isLow d then [c; d] :: codePoints s'' else [c] :: codePoints s'
      | [] => [[c]]
      end
  end.

(** [Buffer.byteLength(text)]: UTF-8 bytes, a lone surrogate counting as U+FFFD. *)
Definition pointBytes (p : text) : Z :=
  match p with
  | [c] => if c <? 128 then 1 else if c <? 2048 then 2 else 3
  | _ => 4
  end.
Definition byteLength (s : text) : Z := foldr (fun p n => pointBytes p + n) 0 (codePoints s).

Lemma concat_codePoints s : concat (codePoints s) = s.
Proof.
  remember (length s) as n eqn:Hn. assert (length s <= n)%nat as Hle by lia. clear Hn. revert s Hle.
  induction n as [|n IH]; intros [|c [|d s]] Hle; cbn [codePoints]; try done; cbn in Hle; try lia.
  destruct (_ && _); cbn [concat]; [cbn; rewrite IH by lia; done|]. cbn. f_equal. apply (IH (d :: s)). cbn. lia.
Qed.

(** Case folding of the [iu] flags on the letters of the patterns. *)
Definition fold_case (c : Z) : Z :=
  if (65 <=? c) && (c <=? 90) then c + 32
  else if c =? 383 then 115 else if c =? 8490 then 107 else c.

Definition RLit (c : Z) : re := RChar (fun x => fold_case x =? fold_case c).
Fixpoint RText (s : text) : re :=
  match s with [] => REps | c :: s => RSeq (RLit c) (RText s) end.
Definition RSet (l : text) : re := RChar (fun x => existsb (fun c => fold_case x =? fold_case c) l).
Definition RNot (p : Z -> bool) : re := RChar (fun x => negb (p x)).
Fixpoint RAlts (l : list re) : re :=
  match l with [] => RChar (fun _ => false) | [a] => a | a :: l => RAlt a (RAlts l) end.

(** [rmatch r before s k]: match [r] at the start of [s], whose preceding unit is
    [before], then continue with [k]; the result is the rest of the text. *)
Section Star.
Context (m : option Z -> text -> (option Z -> text -> option text) -> option text).
Fixpoint star (fuel : nat) (before : option Z) (s : text) (k : option Z -> text -> option text) : option text :=
  match fuel with
  | O => k before s
  | S fuel =>
      match m before s (fun b' s' => if (length s' <? length s)%nat then star fuel b' s' k else None) with
      | Some r => Some r
      | None => k before s
      end
  end.
End Star.

Definition boundary (before : option Z) (s : text) : bool :=
  xorb (match before with Some c => is_word c | None => false end)
       (match s with c :: _ => is_word c | [] => false end).

Fixpoint rmatch (r : re) (before : option Z) (s : text) (k : option Z -> text -> option text) : option text :=
  match r with
  | RChar p => match s with c :: s => if p c then k (Some c) s else None | [] => None end
  | REps => k before s
  | RSeq a b => rmatch a before s (fun b' s' => rmatch b b' s' k)
  | RAlt a b => match rmatch a before s k with Some r => Some r | None => rmatch b before s k end
  | RStar a => star (rmatch a) (length s) before s k
  | RBoundary => if boundary before s then k before s else None
  end.

(** The rest of the text after a match at its start. *)
Definition matchAt (r : re) (before : option Z) (s : text) : option text :=
  rmatch r before s (fun _ s' => Some s').

Fixpoint test_from (r : re) (before : option Z) (s : text) : bool :=
  match matchAt r before s with
  | Some _ => true
  | None => match s with [] => false | c :: s => test_from r (Some c) s end
  end.
Definition test (r : re) (s : text) : bool := test_from r None s.

(** Replacement scans left to right; an empty match would only insert, and the patterns
    of the sources never match the empty text. *)
Fixpoint replace_from (fuel : nat) (r : re) (by_ : text) (before : option Z) (s : text) : text :=
  match fuel with
  | O => s
  | S fuel =>
      match s with
      | [] => []
      | c :: s' =>
          match matchAt r before s with
          | Some rest =>
              if (length rest <? length s)%nat
              then by_ ++ replace_from fuel r by_ (last (take (length s - length rest) s)) rest
              else c :: replace_from fuel r by_ (Some c) s'
          | None => c :: replace_from fuel r by_ (Some c) s'
          end
      end
  end.
Definition replaceAll (r : re) (by_ : text) (s : text) : text := replace_from (length s) r by_ None s.

(** *** The secret pattern the sources share, flags [giu]: [bearer] and spaces, or one of
    [api_key], [token], [secret], [password] with [:] or [=] and optional spaces, then
    everything up to a space, a comma or a semicolon. *)
Definition SECRET : re :=
  RSeq (RAlt (RSeq (RText (u "bearer")) (RPlus (RChar is_space)))
          (RSeq (RAlts [RSeq (RText (u "api")) (RSeq (ROpt (RSet (u "_ -"))) (RText (u "key")));
                        RText (u "token"); RText (u "secret"); RText (u "password")])
             (RSeq (RStar (RChar is_space)) (RSeq (RSet (u ":=")) (RStar (RChar is_space))))))
    (RPlus (RNot (fun c => is_space c || (c =? 44) || (c =? 59)))).

(** The notices that replace hidden text: "[内容已隐藏]", "[路径已隐藏]", "[内容已省略]". *)
Definition HIDDEN : text := [91; 20869; 23481; 24050; 38544; 34255; 93].
Definition HIDDEN_PATH : text := [91; 36335; 24452; 24050; 38544; 34255; 93].
Definition OMITTED : text := [91; 20869; 23481; 24050; 30465; 30053; 93].

Definition hideSecrets (s : text) : text := replaceAll SECRET HIDDEN s.

Example hide_bearer : hideSecrets (u "use Bearer abc.def, then") = u "use " ++ HIDDEN ++ u ", then".
Proof. vm_compute. reflexivity. Qed.
Example hide_key : hideSecrets (u "API_KEY = xyz;ok") = HIDDEN ++ u ";ok".
Proof. vm_compute. reflexivity. Qed.
Example hide_nothing : hideSecrets (u "the token is absent") = u "the token is absent".
Proof. vm_compute. reflexivity. Qed.

(** ** What a match is *)

(** [lang r b s t]: [r] can consume the part of [s] before [t]. *)
Inductive lang : re -> text -> text -> Prop :=
| LChar p c s : p c = true -> lang (RChar p) (c :: s) s
| LEps s : lang REps s s
| LSeq a b s1 s2 s3 : lang a s1 s2 -> lang b s2 s3 -> lang (RSeq a b) s1 s3
| LAltL a b s t : lang a s t -> lang (RAlt a b) s t
| LAltR a b s t : lang b s t -> lang (RAlt a b) s t
| LStarNil a s : lang (RStar a) s s
| LStarCons a s1 s2 s3 : lang a s1 s2 -> lang (RStar a) s2 s3 -> lang (RStar a) s1 s3
| LBoundary s : lang RBoundary s s.

(** The matcher only reports matches of the pattern. *)
Lemma rmatch_sound r before s k rest : rmatch r before s k = Some rest ->
  exists b' s', lang r s s' /\ k b' s' = Some rest.
Proof.
  revert before s k rest. induction r; intros before s k rest H; cbn [rmatch] in H.
  - destruct s as [|c s]; [done|]. destruct (p c) eqn:E; [|done]. exists (Some c), s. split; [by constructor|done].
  - exists before, s. split; [constructor|done].
  - apply IHr1 in H as (b1 & s1 & L1 & H). apply IHr2 in H as (b2 & s2 & L2 & H).
    exists b2, s2. split; [by econstructor|done].
  - destruct (rmatch r1 before s k) eqn:E; simplify_eq.
    + apply IHr1 in E as (b1 & s1 & L & E). exists b1, s1. split; [by constructor|done].
    + apply IHr2 in H as (b1 & s1 & L & H). exists b1, s1. split; [by constructor|done].
  - revert H. generalize (length s) as fuel. intros fuel. revert before s rest.
    induction fuel as [|fuel IH]; intros before s rest H; cbn [star] in H; [exists before, s; split; [constructor|done]|].
    destruct (rmatch r before s _) eqn:E; simplify_eq; [|exists before, s; split; [constructor|done]].
    apply IHr in E as (b1 & s1 & L & E). case_match; [|done].
    apply IH in E as (b2 & s2 & L2 & E). exists b2, s2. split; [by econstructor|done].
  - case_match; [|done]. exists before, s. split; [constructor|done].
Qed.

Lemma lang_suffix r s t : lang r s t -> exists p, s = p ++ t.
Proof.
  induction 1; try (by exists []); try done.
  - by exists [c].
  - destruct IHlang1 as [p1 ->], IHlang2 as [p2 ->]. exists (p1 ++ p2). by rewrite app_assoc.
  - destruct IHlang1 as [p1 ->], IHlang2 as [p2 ->]. exists (p1 ++ p2). by rewrite app_assoc.
Qed.
