(* ===== verification/Redaction.v ===== *)
(** Tool arguments in approval records (approval-service.ts, [canonicalArgsHmac],
    [canonicalize], [redactedToolSummary], [boundedRedaction]).

    Arguments are JSON-like values.  Objects are lists of entries in own-property order
    with distinct keys; a number is kept as the text JSON prints for it.  [localeCompare]
    (the host's collation) and [sha256] are parameters. *)

From S2P Require Import Prelude Decimal Regex.
From stdpp Require Import sorting.
From Stdlib Require Import Ascii.
Local Open Scope Z_scope.

Inductive json : Type :=
| JUndef
| JNull
| JBool (b : bool)
| JNum (printed : text)
| JStr (s : text)
| JArr (l : list json)
| JObj (l : list (text * json)).

(** A member of an object. *)
Definition field (k : string) (l : list (text * json)) : option json := snd <$> List.find (fun f => bool_decide (f.1 = u k)) l.

(** *** [JSON.stringify] *)

Definition hexDigit (n : Z) : Z := if n <? 10 then 48 + n else 87 + n.
Definition hex4 (n : Z) : text :=
  [hexDigit (n / 4096 mod 16); hexDigit (n / 256 mod 16); hexDigit (n / 16 mod 16); hexDigit (n mod 16)].


(** One code unit; [paired] says that it is half of a surrogate pair. *)
Definition escape (paired : bool) (c : Z) : text :=
  if c =? 34 then [92; 34] else if c =? 92 then [92; 92]
  else if c =? 8 then [92; 98] else if c =? 12 then [92; 102] else if c =? 10 then [92; 110]
  else if c =? 13 then [92; 114] else if c =? 9 then [92; 116]
  else if (c <? 32) || ((isHigh c || isLow c) && negb paired) then [92; 117] ++ hex4 c
  else [c].

Fixpoint quoteBody (afterHigh : bool) (s : text) : text :=
  match s with
  | [] => []
  | c :: s' =>
      let paired := if isHigh c then match s' with n :: _ => isLow n | [] => false end else afterHigh in
      escape paired c ++ quoteBody (isHigh c && paired) s'
  end.
Definition quote (s : text) : text := [34] ++ quoteBody false s ++ [34].

Fixpoint joinComma (l : list text) : text :=
  match l with [] => [] | [x] => x | x :: l => x ++ [44] ++ joinComma l end.

(** [None] is [undefined]: no text for a lone [undefined], [null] inside an array, nothing
    inside an object. *)
Fixpoint stringify (v : json) : option text :=
  match v with
  | JUndef => None
  | JNull => Some (u "null")
  | JBool b => Some (u (if b then "true" else "false"))
  | JNum t => Some t
  | JStr s => Some (quote s)
  | JArr l => Some ([91] ++ joinComma (map (fun x => nullish (stringify x) (u "null")) l) ++ [93])
  | JObj l => Some ([123] ++ joinComma (omap (fun kv => match kv with (k, x) =>
                 (fun t => quote k ++ [58] ++ t) <$> stringify x end) l) ++ [125])
  end.

(** *** Own-property order: array indices first, ascending, then the rest as inserted. *)

Definition isDigitUnit (c : Z) : bool := (48 <=? c) && (c <=? 57).
Definition unitsVal (s : text) : Z := fold_left (fun acc c => acc * 10 + (c - 48)) s 0.
Definition isIndex (k : text) : bool :=
  match k with
  | [] => false
  | [c] => isDigitUnit c
  | c :: _ => forallb isDigitUnit k && negb (c =? 48) && (length k <=? 10)%nat && (unitsVal k <? 4294967295)
  end.

Section Sort.
Context {A : Type} (le : A -> A -> bool).
Fixpoint insertBy (x : A) (l : list A) : list A :=
  match l with [] => [x] | y :: l' => if le x y then x :: l else y :: insertBy x l' end.
(** A stable sort, as [Array.prototype.sort] is. *)
Definition sortBy (l : list A) : list A := foldr insertBy [] l.
End Sort.

Definition ownOrder (l : list (text * json)) : list (text * json) :=
  sortBy (fun a b => unitsVal a.1 <=? unitsVal b.1) (List.filter (fun kv => isIndex kv.1) l)
  ++ List.filter (fun kv => negb (isIndex kv.1)) l.

Section Args.
Context (localeCompare : text -> text -> Z) (sha256 : text -> string).

(** [entries.sort(([a], [b]) => a.localeCompare(b))]; the sort reads keys only, so the
    values may be canonicalised before it. *)
Definition byKey (a b : text * json) : bool := localeCompare a.1 b.1 <=? 0.

Fixpoint canonicalize (v : json) : json :=
  match v with
  | JArr l => JArr (map canonicalize l)
  | JObj l => JObj (ownOrder (sortBy byKey (map (fun kv => match kv with (k, x) => (k, canonicalize x) end) l)))
  | _ => v
  end.

Definition canonicalArgsHmac (v : json) : string :=
  sha256 (nullish (stringify (canonicalize v)) (u "undefined")).
End Args.

(** *** Redacted previews *)

(** Keys whose values are never shown: [token], [secret], [password], [credential],
    [authorization], [api key], [private key], [content], with the flags [iu]. *)
Definition SENSITIVE_KEY : re :=
  RAlts [RText (u "token"); RText (u "secret"); RText (u "password"); RText (u "credential");
         RText (u "authorization");
         RSeq (RText (u "api")) (RSeq (ROpt (RSet (u "_ -"))) (RText (u "key")));
         RSeq (RText (u "private")) (RSeq (ROpt (RSet (u "_ -"))) (RText (u "key")));
         RText (u "content")].

Definition sensitive (key : text) : bool := test SENSITIVE_KEY key.

(** [output[key] = value] on a fresh object; assigning [__proto__] creates no property. *)
Definition isProto (key : text) : bool := bool_decide (key = u "__proto__").

Fixpoint boundedRedaction (depth : nat) (v : json) : json :=
  if (3 <? depth)%nat then JStr OMITTED
  else match v with
  | JStr s => JStr (tslice 240 (hideSecrets s))
  | JNull | JNum _ | JBool _ => v
  | JArr l => JArr (take 16 (map (boundedRedaction (S depth)) l))
  | JUndef => JUndef
  | JObj l => JObj (ownOrder (omap id (take 16 (map (fun kv => match kv with (key, item) =>
                if sensitive key || isProto key then None
                else Some (key, boundedRedaction (S depth) item) end) l))))
  end.

Definition redactedToolSummary (toolName : text) (args : json) : text :=
  let serialized := nullish (stringify (boundedRedaction 0 args)) (u "{}") in
  toolName ++ u ": " ++ (if (length serialized <=? 800)%nat then serialized else tslice 799 serialized ++ [8230]).

(** ** Properties *)

(** What a preview may contain at nesting [d]: short texts, at most sixteen items, no
    sensitive key at any level. *)
Fixpoint preview_ok (d : nat) (v : json) : Prop :=
  match d with
  | O => v = JStr OMITTED
  | S d =>
      match v with
      | JStr s => (length s <= 240)%nat
      | JArr l => (length l <= 16)%nat /\ forall x, x ∈ l -> preview_ok d x
      | JObj l => (length l <= 16)%nat /\ forall k x, (k, x) ∈ l -> sensitive k = false /\ preview_ok d x
      | _ => True
      end
  end.

Lemma elem_insertBy {A} (le : A -> A -> bool) x y l : x ∈ insertBy le y l <-> x = y \/ x ∈ l.
Proof. induction l as [|z l IH]; cbn; [set_solver|]. case_match; set_solver. Qed.

Lemma length_insertBy {A} (le : A -> A -> bool) y l : length (insertBy le y l) = S (length l).
Proof. induction l as [|z l IH]; cbn; [done|]. case_match; cbn; auto. Qed.

Lemma elem_sortBy {A} (le : A -> A -> bool) x l : x ∈ sortBy le l <-> x ∈ l.
Proof. induction l as [|y l IH]; cbn; [done|]. rewrite elem_insertBy, IH. set_solver. Qed.

Lemma length_sortBy {A} (le : A -> A -> bool) l : length (sortBy le l) = length l.
Proof. unfold sortBy. induction l as [|y l IH]; cbn; [done|]. rewrite length_insertBy. auto. Qed.

Lemma ownOrder_spec l : length (ownOrder l) = length l /\ forall x, x ∈ ownOrder l <-> x ∈ l.
Proof.
  unfold ownOrder. rewrite length_app, length_sortBy. split.
  - induction l as [|kv l IH]; cbn; [done|]. destruct (isIndex kv.1); cbn; lia.
  - intros x. rewrite elem_of_app, elem_sortBy, !list_elem_of_In, !filter_In.
    destruct (isIndex x.1); cbn; naive_solver.
Qed.

Lemma omap_id_length {A} (l : list (option A)) : (length (omap id l) <= length l)%nat.
Proof. induction l as [|[x|] l IH]; cbn; lia. Qed.

Lemma redaction_preview v d : (d <= 4)%nat -> preview_ok (4 - d) (boundedRedaction d v).
Proof.
  revert v d. fix IH 1. intros v d Hd.
  destruct (Nat.ltb_spec 3 d) as [H3|H3].
  { replace d with 4%nat by lia. by destruct v. }
  replace (4 - d)%nat with (S (4 - S d)) by lia.
  assert (Hdb : (3 <? d)%nat = false) by (by apply Nat.ltb_ge).
  destruct v as [| |b|t|s|l|l]; cbn [boundedRedaction]; rewrite Hdb; cbn [preview_ok]; auto.
  + unfold tslice. rewrite length_take. lia.
  + split; [rewrite length_take; lia|]. intros x Hx%elem_take. revert x Hx.
    induction l as [|y l IHl]; cbn [map]; [by intros ? ?%not_elem_of_nil|].
    intros x [->|Hx]%elem_of_cons; [apply (IH y (S d)); lia|auto].
  + set (m := map _ l).
    assert (Hm : forall k x, Some (k, x) ∈ m -> sensitive k = false /\ preview_ok (4 - S d) x).
    { unfold m. clear m. intros k x. induction l as [|[k' y] l IHl]; cbn [map]; [by intros ?%not_elem_of_nil|].
      intros [Heq|Hx]%elem_of_cons; [|auto]. destruct (sensitive k') eqn:Es; [done|].
      destruct (isProto k'); [done|]. injection Heq as -> ->. split; [done|].
      apply (IH y (S d)). lia. }
    destruct (ownOrder_spec (omap id (take 16 m))) as [Hlen Hel]. split.
    * rewrite Hlen. etrans; [apply omap_id_length|]. rewrite length_take. lia.
    * intros k x (y & Hy & Hid)%Hel%list_elem_of_omap. unfold id in Hid. subst y. by apply Hm, (elem_take _ 16).
Qed.

(** An approval preview is bounded and hides secrets: whatever the arguments, the
    redacted value nests at most four levels, with at most sixteen items per level, texts
    of at most 240 units, and no key that names a token, secret, password, credential,
    authorization, key or content; and the stored line is at most 800 units longer than
    the tool's name and separator. *)
Theorem preview_is_bounded (toolName : text) (args : json) :
  preview_ok 4 (boundedRedaction 0 args) /\
  (length (redactedToolSummary toolName args) <= length toolName + 2 + 800)%nat.
Proof.
  split.
  - by apply (redaction_preview args 0); lia.
  - unfold redactedToolSummary, tslice. rewrite !length_app. change (length (u ": ")) with 2%nat.
    destruct (Nat.leb_spec (length (nullish (stringify (boundedRedaction 0 args)) (u "{}"))) 800) as [H|H];
      [lia|]. rewrite length_app, length_take. change (length [8230]) with 1%nat. lia.
Qed.

(** ** Key order does not matter *)

(** What the code relies on from the host's collation. *)
Class Collation (cmp : text -> text -> Z) : Prop := {
  cmp_total : forall a b, cmp a b <= 0 \/ cmp b a <= 0;
  cmp_trans : forall a b c, cmp a b <= 0 -> cmp b c <= 0 -> cmp a c <= 0;
}.

(** Distinct entries of an object never compare both ways. *)
Definition separated (cmp : text -> text -> Z) (l : list text) : Prop :=
  forall a b, a ∈ l -> b ∈ l -> cmp a b <= 0 -> cmp b a <= 0 -> a = b.

(** The same value with the members of its objects listed in another order. *)
Inductive reordered (cmp : text -> text -> Z) : json -> json -> Prop :=
| ReSame v : reordered cmp v v
| ReArr l l' : Forall2 (reordered cmp) l l' -> reordered cmp (JArr l) (JArr l')
| ReObj l l1 l' : Forall2 (fun a b => a.1 = b.1 /\ reordered cmp a.2 b.2) l l1 -> l1 ≡ₚ l' ->
    NoDup l.*1 -> separated cmp l.*1 -> reordered cmp (JObj l) (JObj l').

Lemma sortBy_perm {A} (le : A -> A -> bool) l : sortBy le l ≡ₚ l.
Proof.
  unfold sortBy. induction l as [|x l IH]; cbn; [done|]. rewrite <- IH at 2. clear IH.
  generalize (foldr (insertBy le) [] l) as k. induction k as [|y k IH]; cbn; [done|].
  case_match; [done|]. rewrite IH. apply Permutation_swap.
Qed.

Lemma sortBy_sorted {A} (le : A -> A -> bool) l :
  (forall x y, le x y = true \/ le y x = true) -> (forall x y z, le x y = true -> le y z = true -> le x z = true) ->
  StronglySorted (fun x y => le x y = true) (sortBy le l).
Proof.
  intros Htot Htr. unfold sortBy. induction l as [|x l IH]; cbn; [constructor|]. revert IH.
  generalize (foldr (insertBy le) [] l) as k. intros k. induction k as [|y k IHk]; intros Hs; cbn;
    [repeat constructor|].
  apply StronglySorted_cons in Hs as [Hall Hs]. destruct (le x y) eqn:E.
  - constructor; [by constructor|]. constructor; [done|].
    eapply Forall_impl; [exact Hall|]. cbn. intros z Hz. by eapply Htr.
  - constructor; [auto|]. apply Forall_forall. intros z [->|Hz]%elem_insertBy.
    + destruct (Htot x y); congruence.
    + eapply Forall_forall in Hall; eauto.
Qed.

Lemma NoDup_fst_eq {A B} (l : list (A * B)) k x y : NoDup l.*1 -> (k, x) ∈ l -> (k, y) ∈ l -> x = y.
Proof.
  induction l as [|[k' z] l IH]; cbn; [by intros ? ?%not_elem_of_nil|].
  intros [Hn Hd]%NoDup_cons [Hx|Hx]%elem_of_cons [Hy|Hy]%elem_of_cons; simplify_eq; auto.
  - destruct Hn. apply list_elem_of_fmap. by exists (k', y).
  - destruct Hn. apply list_elem_of_fmap. by exists (k', x).
Qed.

Lemma sortBy_key_unique (cmp : text -> text -> Z) (l l' : list (text * json)) : Collation cmp -> l ≡ₚ l' ->
  NoDup l.*1 -> separated cmp l.*1 -> sortBy (byKey cmp) l = sortBy (byKey cmp) l'.
Proof.
  intros [Htot Htr] Hp Hd Hsep. unfold byKey.
  apply (StronglySorted_unique_strong (fun a b => byKey cmp a b = true)).
  - intros [k1 x1] [k2 x2] H1%elem_sortBy H2%elem_sortBy. unfold byKey. cbn. intros L1 L2. boolify.
    rewrite <- Hp in H2.
    assert (k1 = k2) as ->.
    { apply Hsep; [..|done|done]; apply list_elem_of_fmap; [by exists (k1, x1)|by exists (k2, x2)]. }
    f_equal. by eapply NoDup_fst_eq.
  - apply sortBy_sorted; unfold byKey; intros; rewrite ?Z.leb_le in *; [apply Htot|by eapply Htr].
  - apply sortBy_sorted; unfold byKey; intros; rewrite ?Z.leb_le in *; [apply Htot|by eapply Htr].
  - by rewrite !sortBy_perm.
Qed.

Lemma canonicalize_reordered (cmp : text -> text -> Z) v v' : Collation cmp -> reordered cmp v v' ->
  canonicalize cmp v = canonicalize cmp v'.
Proof.
  intros Hc. revert v v'. fix IH 3. intros v v' H. destruct H as [v|l l' H|l l1 l' H Hp Hd Hsep]; [done| |].
  - cbn. f_equal. induction H as [|x x' l l' Hx _ IHl]; cbn; [done|]. f_equal; [by apply IH|done].
  - cbn [canonicalize]. f_equal. f_equal.
    set (f := fun kv : text * json => match kv with (k, x) => (k, canonicalize cmp x) end).
    assert (Hl : map f l = map f l1).
    { clear Hp Hd Hsep. induction H as [|[k x] [k' x'] l l1 [Hk Hx] _ IHl]; cbn; [done|]. cbn in Hk, Hx. subst.
      f_equal; [f_equal; by apply IH|done]. }
    assert (Hkeys : (map f l).*1 = l.*1).
    { clear. induction l as [|[k x] l IHl]; cbn; [done|]. by f_equal. }
    apply sortBy_key_unique; [done| |by rewrite Hkeys|by rewrite Hkeys].
    rewrite Hl. by apply Permutation_map.
Qed.

(** The argument hash does not depend on how the caller lists object members: two
    argument values that differ only in the order of members, at any depth, have the same
    canonical hash, so a retried tool call finds the approval of the first attempt. *)
Theorem args_hash_ignores_key_order (cmp : text -> text -> Z) (sha256 : text -> string) (v v' : json) :
  Collation cmp -> reordered cmp v v' ->
  canonicalArgsHmac cmp sha256 v = canonicalArgsHmac cmp sha256 v'.
Proof. intros Hc H. unfold canonicalArgsHmac. by rewrite (canonicalize_reordered cmp v v'). Qed.

(** Code-unit order, a collation. *)
Fixpoint unitCompare (a b : text) : Z :=
  match a, b with
  | [], [] => 0
  | [], _ => -1
  | _, [] => 1
  | x :: a, y :: b => if x <? y then -1 else if y <? x then 1 else unitCompare a b
  end.

Lemma unitCompare_total a b : unitCompare a b <= 0 \/ unitCompare b a <= 0.
Proof.
  revert b. induction a as [|x a IH]; intros [|y b]; cbn; try lia.
  destruct (Z.ltb_spec x y), (Z.ltb_spec y x); try lia. apply IH.
Qed.

#[export] Instance unitCompare_collation : Collation unitCompare.
Proof.
  split; [apply unitCompare_total|].
  intros a. induction a as [|x a IH]; intros [|y b] [|z c]; cbn; try lia.
  destruct (Z.ltb_spec x y), (Z.ltb_spec y x), (Z.ltb_spec y z), (Z.ltb_spec z y), (Z.ltb_spec x z), (Z.ltb_spec z x);
    try lia. apply IH.
Qed.

Definition demoArgs : json := JObj [(u "path", JStr (u "a")); (u "mode", JNum (u "7"))].
Definition demoArgs' : json := JObj [(u "mode", JNum (u "7")); (u "path", JStr (u "a"))].

Lemma args_hash_ignores_key_order_witness :
  canonicalArgsHmac unitCompare (fun _ => "digest") demoArgs = canonicalArgsHmac unitCompare (fun _ => "digest") demoArgs'.
Proof.
  apply (args_hash_ignores_key_order unitCompare (fun _ => "digest") demoArgs demoArgs' _).
  apply (ReObj unitCompare _ [(u "path", JStr (u "a")); (u "mode", JNum (u "7"))]).
  - repeat constructor.
  - apply Permutation_swap.
  - apply (bool_decide_unpack _). vm_compute. exact I.
  - intros a b Ha Hb. repeat (apply elem_of_cons in Ha as [->|Ha]; [|]); try by apply not_elem_of_nil in Ha.
    all: repeat (apply elem_of_cons in Hb as [->|Hb]; [|]); try by apply not_elem_of_nil in Hb.
    all: vm_compute; tauto.
Defined.
