(* ===== verification/Outbox.v ===== *)
(** The usage outbox and its upload (storage/sqlite.ts, table [usage_summary_outbox];
    usage-flush.ts).

    A row accumulates one hour of usage, or holds the current verdict counts of one
    segment hour, until the Manager has taken it.  One definition per statement; the row
    handler of the flush loop is a function of the row and of how its upload ended.
    [castReal] and [castCents] are SQLite's floating-point casts for the legacy numeric
    fields, which nothing else reads. *)

From S2P Require Import Prelude Decimal Sql IsoTime Usage Regex.
Local Open Scope Z_scope.

Inductive UsageOutboxKind : Type := KUsage | KOutcome.
Inductive OutboxStatus : Type := Pending | Sending | Sent | Failed | Rejected.
#[export] Instance UsageOutboxKind_eq_dec : EqDecision UsageOutboxKind.
Proof. solve_decision. Defined.
#[export] Instance OutboxStatus_eq_dec : EqDecision OutboxStatus.
Proof. solve_decision. Defined.

(** [payload_json] of a usage row; its [cost_total] is a text when first written and a
    number after an addition. *)
Record UsagePayload : Type := mkPayload {
  p_summary_id : string; p_tenant_id : string; p_member_id : string; p_employee_id : string;
  p_window_start : Z; p_window_end : Z;
  p_prompt_count : Z; p_settled_count : Z; p_error_count : Z;
  p_input_tokens : Z; p_output_tokens : Z; p_cache_tokens : Z;
  p_cost_minor : option Z; p_duration_ms_total : Z; p_pricing_version : option Z; p_known : bool;
  p_run_count : Z; p_token_total : Z; p_cost_total : option usd_value; p_duration_seconds_total : Z;
}.

Inductive payload : Type :=
| PUsage (p : UsagePayload)
| POutcome (o : SegmentOutcomeSummary).

Record OutboxRow : Type := mkRow {
  o_summary_id : string; o_tenant_id : string; o_member_id : string; o_kind : UsageOutboxKind;
  o_status : OutboxStatus; o_attempts : Z; o_last_error : option text; o_payload : payload;
  o_created_at : Z; o_claim_token : option string; o_claimed_at : option Z;
  o_cost_decimal : option string;
}.

Definition set_row (st : OutboxStatus) (attempts : Z) (err : option text) (p : payload)
    (token : option string) (at_ : option Z) (cost : option string) (r : OutboxRow) : OutboxRow :=
  mkRow (o_summary_id r) (o_tenant_id r) (o_member_id r) (o_kind r) st attempts err p (o_created_at r) token at_ cost.

Definition is_summary (id : string) (r : OutboxRow) : bool := String.eqb (o_summary_id r) id.
Definition status_in (l : list OutboxStatus) (r : OutboxRow) : bool := bool_decide (o_status r ∈ l).

Section Outbox.
Context (castReal : string -> usd_value) (castCents : string -> Z).

Definition ofSummary (s : UsageSummary) : UsagePayload :=
  mkPayload (s_summary_id s) (s_tenant_id s) (s_member_id s) (s_employee_id s) (s_window_start s) (s_window_end s)
    (s_prompt_count s) (s_settled_count s) (s_error_count s) (s_input_tokens s) (s_output_tokens s)
    (s_cache_tokens s) (s_cost_minor s) (s_duration_ms_total s) (s_pricing_version s) (s_known s)
    (s_run_count s) (s_token_total s) (UsdString <$> s_cost_total s) (s_duration_seconds_total s).

(** [add_usage_cost(COALESCE(cost_total_decimal, payload.cost_total), excluded.cost_total_decimal)]. *)
Definition cumulativeCost (r : OutboxRow) (old : UsagePayload) (new : option string) : option string :=
  let left := match o_cost_decimal r with Some t => Some (UsdString t) | None => p_cost_total old end in
  match left, new with
  | Some l, Some n => add_usage_cost l (UsdString n)
  | _, _ => None
  end.

(** The [json_object] of the [DO UPDATE]. *)
Definition addPayload (old : UsagePayload) (s : UsageSummary) (cost : option string) : UsagePayload :=
  mkPayload (s_summary_id s) (s_tenant_id s) (p_member_id old) (p_employee_id old)
    (p_window_start old) (p_window_end old)
    (p_prompt_count old + s_prompt_count s) (p_settled_count old + s_settled_count s)
    (p_error_count old + s_error_count s) (p_input_tokens old + s_input_tokens s)
    (p_output_tokens old + s_output_tokens s) (p_cache_tokens old + s_cache_tokens s)
    (castCents <$> cost) (p_duration_ms_total old + s_duration_ms_total s)
    (p_pricing_version old) (p_known old) (p_run_count old + s_run_count s)
    (p_token_total old + s_token_total s) (castReal <$> cost)
    (p_duration_seconds_total old + s_duration_seconds_total s).

(** Usage ids and segment ids are digests of different texts, so a usage summary only
    ever meets usage rows. *)
Definition add_set (s : UsageSummary) (new : option string) (r : OutboxRow) : OutboxRow :=
  match o_payload r with
  | PUsage old =>
      let cost := cumulativeCost r old new in
      set_row Pending (o_attempts r) None (PUsage (addPayload old s cost)) (o_claim_token r) (o_claimed_at r) cost r
  | POutcome _ => set_row Pending (o_attempts r) None (o_payload r) (o_claim_token r) (o_claimed_at r) (o_cost_decimal r) r
  end.

Definition upsertUsageSummary (db : list OutboxRow) (s : UsageSummary) (preciseCost : option string) (now : Z)
    : list OutboxRow :=
  let cost := match preciseCost with
    | Some t => usdUnits (UsdString t)
    | None => match s_cost_total s with Some t => usdUnits (UsdString t) | None => None end
    end in
  let new := usdDecimal <$> cost in
  sql_upsert (is_summary (s_summary_id s)) (add_set s new)
    (mkRow (s_summary_id s) (s_tenant_id s) (s_member_id s) KUsage Pending 0 None (PUsage (ofSummary s)) now
       None None new) db.

(** One bucket of [publishSegmentOutcomes]. *)
Definition publish_set (o : SegmentOutcomeSummary) (r : OutboxRow) : OutboxRow :=
  set_row Pending (o_attempts r) None (POutcome o) (o_claim_token r) (o_claimed_at r) (o_cost_decimal r) r.

Definition publishBucket (db : list OutboxRow) (o : SegmentOutcomeSummary) (now : Z) : list OutboxRow :=
  let hit r := is_summary (so_summary_id o) r && bool_decide (o_kind r = KOutcome) in
  if so_evaluated_count o =? 0 then sql_update hit (publish_set o) db
  else if existsb (is_summary (so_summary_id o)) db then sql_update hit (publish_set o) db
  else db ++ [mkRow (so_summary_id o) (so_tenant_id o) (so_member_id o) KOutcome Pending 0 None (POutcome o) now
                None None None].

(** *** Claims *)

Record ClaimedRow : Type := mkClaimed {
  c_summary_id : string; c_tenant_id : string; c_kind : UsageOutboxKind; c_payload : payload; c_token : string;
}.

Fixpoint insert_oldest (r : OutboxRow) (l : list OutboxRow) : list OutboxRow :=
  match l with
  | [] => [r]
  | x :: l' => if o_created_at r <=? o_created_at x then r :: l else x :: insert_oldest r l'
  end.

Definition claimable (tenantId : string) (memberId : option string) (kinds : list UsageOutboxKind) (r : OutboxRow) : bool :=
  String.eqb (o_tenant_id r) tenantId && negb (String.eqb (o_member_id r) "")
  && match memberId with Some m => String.eqb (o_member_id r) m | None => true end
  && status_in [Pending; Failed] r && bool_decide (o_kind r ∈ kinds).

Definition claim_set (token : string) (now : Z) (r : OutboxRow) : OutboxRow :=
  set_row Sending (o_attempts r + 1) None (o_payload r) (Some token) (Some now) (o_cost_decimal r) r.

Definition claimUsageOutbox (db : list OutboxRow) (tenantId : string) (memberId : option string) (limit : Z)
    (kinds : list UsageOutboxKind) (token : string) (now : Z) : list OutboxRow * list ClaimedRow :=
  let rows := take (Z.to_nat (clamp 1 100 limit))
    (foldr insert_oldest [] (sql_select (claimable tenantId memberId kinds) db)) in
  (fold_left (fun db row => sql_update (fun r => is_summary (o_summary_id row) r && status_in [Pending; Failed] r)
                (claim_set token now) db) rows db,
   (fun r => mkClaimed (o_summary_id r) (o_tenant_id r) (o_kind r) (o_payload r) token) <$> rows).

(** [WHERE summary_id = ? AND status = 'sending' AND claim_token = ?]. *)
Definition held (id token : string) (r : OutboxRow) : bool :=
  is_summary id r && status_in [Sending] r && bool_decide (o_claim_token r = Some token).

Definition settle_set (st : OutboxStatus) (attempts : Z -> Z) (err : option text) (r : OutboxRow) : OutboxRow :=
  set_row st (attempts (o_attempts r)) err (o_payload r) None None (o_cost_decimal r) r.

Definition markUsageSent (db : list OutboxRow) (id token : string) : list OutboxRow :=
  sql_update (held id token) (settle_set Sent (fun n => n) None) db.
Definition markUsageFailed (db : list OutboxRow) (id token : string) (err : text) : list OutboxRow :=
  sql_update (held id token) (settle_set Failed (fun n => n) (Some (tslice 500 err))) db.
Definition markUsageRejected (db : list OutboxRow) (id token : string) (err : text) : list OutboxRow :=
  sql_update (held id token) (settle_set Rejected (fun n => n) (Some (tslice 500 err))) db.
Definition releaseUsageClaim (db : list OutboxRow) (id token : string) (note : text) : list OutboxRow :=
  sql_update (held id token) (settle_set Pending (fun n => Z.max (n - 1) 0) (Some (tslice 500 note))) db.

(** The recovery statement of the constructor. *)
Definition recover_set (r : OutboxRow) : OutboxRow :=
  set_row Failed (o_attempts r)
    (Some (nullish (o_last_error r) (u "Recovered unfinished usage upload"))) (o_payload r) None None (o_cost_decimal r) r.
Definition recoverOutbox (db : list OutboxRow) : list OutboxRow := sql_update (status_in [Sending]) recover_set db.

(** [SELECT DISTINCT tenant_id, member_id ... ORDER BY tenant_id, member_id]. *)
Definition owner_le (a b : string * string) : bool :=
  String.ltb a.1 b.1 || (String.eqb a.1 b.1 && String.leb a.2 b.2).
Fixpoint insert_owner (o : string * string) (l : list (string * string)) : list (string * string) :=
  match l with
  | [] => [o]
  | x :: l' => if bool_decide (o = x) then l else if owner_le o x then o :: l else x :: insert_owner o l'
  end.
Definition listUsageOutboxOwners (db : list OutboxRow) : list (string * string) :=
  foldr insert_owner [] ((fun r => (o_tenant_id r, o_member_id r)) <$>
    sql_select (fun r => status_in [Pending; Failed] r && negb (String.eqb (o_member_id r) "")) db).
End Outbox.

(** ** Runs of the outbox *)

Inductive op : Type :=
| OUpsert (s : UsageSummary) (preciseCost : option string)
| OPublish (o : SegmentOutcomeSummary)
| OClaim (tenantId : string) (memberId : option string) (limit : Z) (kinds : list UsageOutboxKind) (token : string)
| OSent (id token : string)
| OFailed (id token : string) (err : text)
| ORejected (id token : string) (err : text)
| ORelease (id token : string) (note : text)
| ORestart.

Section Runs.
Context (castReal : string -> usd_value) (castCents : string -> Z).

(** The table, and everything claims have handed out for upload. *)
Definition run_op (w : list OutboxRow * list ClaimedRow) (x : op * Z) : list OutboxRow * list ClaimedRow :=
  let '(db, out) := w in
  let '(o, now) := x in
  match o with
  | OUpsert s cost => (upsertUsageSummary castReal castCents db s cost now, out)
  | OPublish o => (publishBucket db o now, out)
  | OClaim t m limit kinds token =>
      let (db, rows) := claimUsageOutbox db t m limit kinds token now in (db, rows ++ out)
  | OSent id token => (markUsageSent db id token, out)
  | OFailed id token err => (markUsageFailed db id token err, out)
  | ORejected id token err => (markUsageRejected db id token err, out)
  | ORelease id token note => (releaseUsageClaim db id token note, out)
  | ORestart => (recoverOutbox db, out)
  end.

Definition run_ops (w : list OutboxRow * list ClaimedRow) (l : list (op * Z)) := fold_left run_op l w.

(** *** The ledger *)

Definition counts (s : UsageSummary) : list Z :=
  [s_prompt_count s; s_settled_count s; s_error_count s; s_input_tokens s; s_output_tokens s; s_cache_tokens s;
   s_duration_ms_total s; s_run_count s; s_token_total s; s_duration_seconds_total s].
Definition payloadCounts (p : UsagePayload) : list Z :=
  [p_prompt_count p; p_settled_count p; p_error_count p; p_input_tokens p; p_output_tokens p; p_cache_tokens p;
   p_duration_ms_total p; p_run_count p; p_token_total p; p_duration_seconds_total p].

Definition costOf (s : UsageSummary) (preciseCost : option string) : option N :=
  match preciseCost with
  | Some t => usdUnits (UsdString t)
  | None => match s_cost_total s with Some t => usdUnits (UsdString t) | None => None end
  end.

(** What was recorded under [id]: the sum of the counters and, while every cost is known,
    the sum of the costs. *)
Definition recorded_step (id : string) (acc : option (list Z * option N)) (x : op * Z) : option (list Z * option N) :=
  match x.1 with
  | OUpsert s cost =>
      if String.eqb (s_summary_id s) id
      then Some match acc with
           | None => (counts s, costOf s cost)
           | Some (v, c) => (zip_with Z.add v (counts s),
                             match c, costOf s cost with Some a, Some b => Some (a + b)%N | _, _ => None end)
           end
      else acc
  | _ => acc
  end.
Definition recorded (id : string) (l : list (op * Z)) : option (list Z * option N) :=
  fold_left (recorded_step id) l None.

Definition ledger_is (db : list OutboxRow) (id : string) (e : option (list Z * option N)) : Prop :=
  match e with
  | None => sql_get (is_summary id) db = None
  | Some (v, c) => exists r p, sql_get (is_summary id) db = Some r /\ o_payload r = PUsage p /\
      o_kind r = KUsage /\ payloadCounts p = v /\ match c with Some n => o_cost_decimal r = Some (usdDecimal n) | None => True end
  end.

Definition quiet (f : OutboxRow -> OutboxRow) : Prop := forall r,
  o_summary_id (f r) = o_summary_id r /\ o_payload (f r) = o_payload r /\ o_kind (f r) = o_kind r /\
  o_cost_decimal (f r) = o_cost_decimal r.

Lemma ledger_quiet db id e p f : quiet f -> ledger_is db id e -> ledger_is (sql_update p f db) id e.
Proof.
  intros Hf. unfold ledger_is.
  assert (Hg : sql_get (is_summary id) (sql_update p f db) =
    (fun r => if p r then f r else r) <$> sql_get (is_summary id) db).
  { apply sql_get_update. intros r _. unfold is_summary. by destruct (Hf r) as (-> & _). }
  rewrite Hg. destruct e as [[v c]|]; [|by intros ->].
  intros (r & pl & -> & Hp & Hk & Hv & Hc). cbn. exists (if p r then f r else r), pl.
  destruct (Hf r) as (_ & H1 & H2 & H3). destruct (p r); rewrite ?H1, ?H2, ?H3; by split_and!.
Qed.

Lemma quiet_settle st att err : quiet (settle_set st att err).
Proof. by intros r. Qed.
Lemma quiet_claim token now : quiet (claim_set token now).
Proof. by intros r. Qed.
Lemma quiet_recover : quiet recover_set.
Proof. by intros r. Qed.

Lemma ledger_claim_fold db id e token now rows : ledger_is db id e ->
  ledger_is (fold_left (fun db row => sql_update (fun r => is_summary (o_summary_id row) r && status_in [Pending; Failed] r)
                (claim_set token now) db) rows db) id e.
Proof.
  revert db. induction rows as [|x rows IH]; intros db H; cbn [fold_left]; [done|].
  apply IH, ledger_quiet; [apply quiet_claim|done].
Qed.

Lemma ledger_upsert db id e s cost now : ledger_is db id e ->
  ledger_is (upsertUsageSummary castReal castCents db s cost now) id (recorded_step id e (OUpsert s cost, now)).
Proof.
  intros H. unfold upsertUsageSummary, sql_upsert. cbn [recorded_step fst]. fold (costOf s cost).
  set (new := mkRow _ _ _ _ _ _ _ _ _ _ _ _).
  destruct (existsb (is_summary (s_summary_id s)) db) eqn:Ex.
  - assert (Hg : sql_get (is_summary id) (sql_update (is_summary (s_summary_id s)) (add_set castReal castCents s (usdDecimal <$> costOf s cost)) db)
      = (fun r => if is_summary (s_summary_id s) r then add_set castReal castCents s (usdDecimal <$> costOf s cost) r else r) <$> sql_get (is_summary id) db).
    { apply sql_get_update. intros r _. unfold is_summary, add_set. by destruct (o_payload r). }
    destruct (String.eqb_spec (s_summary_id s) id) as [E|Hne].
    + rewrite E in Hg, Ex |- *. destruct e as [[v c]|]; cbn [ledger_is] in *.
      * destruct H as (r & pl & Hr & Hp & Hk & Hv & Hc). rewrite Hg, Hr. cbn [fmap option_fmap option_map].
        apply sql_get_Some in Hr as [_ ->]. unfold add_set. rewrite Hp.
        eexists _, _. split_and!; [reflexivity|reflexivity|done|by rewrite <- Hv|].
        destruct c as [a|]; [|done]. destruct (costOf s cost) as [b|]; [|done]. cbn.
        unfold cumulativeCost. rewrite Hc. unfold add_usage_cost. by rewrite !usdUnits_decimal.
      * exfalso. apply existsb_exists in Ex as (r & Hr & Hs). apply list_elem_of_In in Hr.
        rewrite (proj1 (sql_get_None _ _) H r Hr) in Hs. done.
    + unfold ledger_is in *. rewrite Hg. destruct e as [[v c]|]; [|by rewrite H].
      destruct H as (r & pl & Hr & Hrest). rewrite Hr. cbn. apply sql_get_Some in Hr as [_ Hid].
      unfold is_summary in *. boolify. destruct (String.eqb_spec (o_summary_id r) (s_summary_id s)); [congruence|].
      by exists r, pl.
  - unfold ledger_is. rewrite sql_get_app. cbn. change (is_summary id new) with (String.eqb (s_summary_id s) id).
    destruct (String.eqb_spec (s_summary_id s) id) as [E|Hne].
    + rewrite E in Ex. destruct e as [[v c]|]; cbn [ledger_is] in H.
      * destruct H as (r & pl & Hr & _). exfalso. apply sql_get_Some in Hr as [Hr Hs].
        assert (existsb (is_summary id) db = true); [|congruence]. apply existsb_exists. exists r. by rewrite <- list_elem_of_In.
      * rewrite H. exists new, (ofSummary s). split_and!; try done. unfold new. cbn [o_cost_decimal].
        destruct (costOf s cost); done.
    + destruct e as [[v c]|]; [|by rewrite H]. destruct H as (r & pl & Hr & Hrest). exists r, pl. by rewrite Hr.
Qed.

Lemma ledger_publish db id e o now : so_summary_id o <> id -> ledger_is db id e -> ledger_is (publishBucket db o now) id e.
Proof.
  intros Hne H. unfold publishBucket.
  assert (Hup : ledger_is (sql_update (fun r => is_summary (so_summary_id o) r && bool_decide (o_kind r = KOutcome)) (publish_set o) db) id e).
  { unfold ledger_is in *.
    rewrite sql_get_update by (intros r _; done). destruct e as [[v c]|]; [|by rewrite H].
    destruct H as (r & pl & Hr & Hrest). rewrite Hr. cbn. apply sql_get_Some in Hr as [_ Hid].
    unfold is_summary in *. boolify. destruct (String.eqb_spec (o_summary_id r) (so_summary_id o)); [congruence|].
    by exists r, pl. }
  destruct (_ =? 0); [done|]. destruct (existsb _ db); [done|].
  unfold ledger_is in *. rewrite sql_get_app. set (new := mkRow _ _ _ _ _ _ _ _ _ _ _ _).
  assert (sql_get (is_summary id) [new] = None) as ->.
  { unfold sql_get. cbn [List.find]. change (is_summary id new) with (String.eqb (so_summary_id o) id).
    by apply String.eqb_neq in Hne as ->. }
  destruct e as [[v c]|]; [|by rewrite H].
  destruct H as (r & pl & Hr & Hrest). exists r, pl. by rewrite Hr.
Qed.

(** *** Uploaded rows *)

Definition handed_out (out : list ClaimedRow) (r : OutboxRow) : Prop :=
  exists token, (exists c, c ∈ out /\ c_summary_id c = o_summary_id r /\ c_payload c = o_payload r /\ c_token c = token) /\
    (o_status r = Sending -> o_claim_token r = Some token).

Definition outbox_ok (w : list OutboxRow * list ClaimedRow) : Prop :=
  NoDup (o_summary_id <$> w.1) /\
  forall r, r ∈ w.1 -> o_status r = Sending \/ o_status r = Sent -> handed_out w.2 r.

(** A statement that keeps ids, and either leaves a row alone, takes it out of the two
    upload states, or turns a sending row into a sent one with its payload. *)
Definition tame (p : OutboxRow -> bool) (f : OutboxRow -> OutboxRow) : Prop := forall r,
  o_summary_id (f r) = o_summary_id r /\
  (p r = true -> o_status (f r) = Sending \/ o_status (f r) = Sent ->
   o_status (f r) = Sent /\ o_status r = Sending /\ o_payload (f r) = o_payload r).

Lemma outbox_tame db out p f : tame p f -> outbox_ok (db, out) -> outbox_ok (sql_update p f db, out).
Proof.
  intros Hf [Hd Hr]. split; cbn [fst snd] in *.
  - rewrite keys_sql_update; [done|]. intros r. apply (Hf r).
  - intros r' (r & Hin & ->)%elem_of_sql_update Hst. destruct (p r) eqn:Hp; [|auto].
    destruct (Hf r) as [Hid Hcase]. destruct (Hcase Hp Hst) as (Hs' & Hs & Hpl).
    destruct (Hr r Hin (or_introl Hs)) as (token & (c & Hc & Hcid & Hcp & Ht) & _).
    exists token. split; [|congruence]. exists c. split_and!; congruence.
Qed.

Lemma elem_insert_oldest r x l : r ∈ insert_oldest x l <-> r = x \/ r ∈ l.
Proof. induction l as [|y l IH]; cbn; [set_solver|]. case_match; set_solver. Qed.

Lemma elem_oldest r l : r ∈ foldr insert_oldest [] l <-> r ∈ l.
Proof. induction l as [|x l IH]; cbn; [done|]. rewrite elem_insert_oldest, IH. set_solver. Qed.

(** After a claim, a row is untouched or is one of the claimed ones, with its payload and
    the claim's token. *)
Lemma claim_fold_elem db token now rows r' :
  r' ∈ fold_left (fun db row => sql_update (fun r => is_summary (o_summary_id row) r && status_in [Pending; Failed] r)
        (claim_set token now) db) rows db ->
  r' ∈ db \/ exists r, r ∈ db /\ o_summary_id r' = o_summary_id r /\ o_payload r' = o_payload r /\
    o_claim_token r' = Some token /\ o_summary_id r ∈ o_summary_id <$> rows.
Proof.
  revert db. induction rows as [|x rows IH]; intros db; cbn [fold_left]; [by left|].
  intros [(r & Hr & ->)%elem_of_sql_update
         |(r1 & (r & Hr & ->)%elem_of_sql_update & Hid & Hp & Ht & Hin)]%IH.
  - destruct (is_summary (o_summary_id x) r && _) eqn:E; [|by left]. right. exists r. split_and!; try done.
    unfold is_summary in E. boolify. rewrite fmap_cons, H. left.
  - right. exists r. rewrite Hid, Hp. rewrite fmap_cons, elem_of_cons. case_match; split_and!; auto.
Qed.

Lemma claim_ok db out t m limit kinds token now :
  outbox_ok (db, out) ->
  let (db', rows) := claimUsageOutbox db t m limit kinds token now in outbox_ok (db', rows ++ out).
Proof.
  intros [Hd Hr]. unfold claimUsageOutbox. cbn [fst snd] in *.
  set (rows := take _ _).
  assert (Hsub : forall x, x ∈ rows -> x ∈ db).
  { intros x Hx. unfold rows in Hx. rewrite list_elem_of_In in Hx.
    assert (Hin : x ∈ foldr insert_oldest [] (sql_select (claimable t m kinds) db)).
    { rewrite <- (take_drop (Z.to_nat (clamp 1 100 limit))). apply elem_of_app. left. by apply list_elem_of_In. }
    by apply elem_oldest, elem_of_sql_select in Hin as [? _]. }
  split; cbn [fst snd].
  - clear Hr Hsub. clearbody rows. revert db Hd. induction rows as [|x rows IH]; intros db Hd; cbn [fold_left]; [done|].
    apply IH. by rewrite keys_sql_update.
  - intros r' [Hin|(r & Hin & Hid & Hp & Ht & Hrow)]%claim_fold_elem Hst.
    + destruct (Hr r' Hin Hst) as (tok & (c & Hc & Hrest) & Htok). exists tok. split; [|done].
      exists c. split; [apply elem_of_app; by right|done].
    + apply list_elem_of_fmap in Hrow as (x & Hxid & Hx).
      assert (x = r) as -> by (eapply (NoDup_key_eq o_summary_id); eauto).
      exists token. split; [|done]. eexists. split; [apply elem_of_app; left; by apply list_elem_of_fmap_2|].
      cbn. by rewrite Hid, Hp.
Qed.

Lemma upsert_ok db out s cost now : outbox_ok (db, out) -> outbox_ok (upsertUsageSummary castReal castCents db s cost now, out).
Proof.
  intros H. unfold upsertUsageSummary, sql_upsert. destruct (existsb _ db) eqn:E.
  - apply outbox_tame; [|done]. intros r. unfold add_set. destruct (o_payload r); cbn; (split; [done|]); by intros _ [|].
  - destruct H as [Hd Hr]. cbn [fst snd] in *. split; cbn [fst snd].
    + eapply (NoDup_sql_insert o_summary_id (is_summary (s_summary_id s))); [|exact Hd|unfold sql_insert; by rewrite E].
      intros r' Hid. by apply String.eqb_eq.
    + intros r' [Hin| ->%list_elem_of_singleton]%elem_of_app; [auto|]. by intros [|].
Qed.

Lemma publish_ok db out o now : outbox_ok (db, out) -> outbox_ok (publishBucket db o now, out).
Proof.
  intros H. unfold publishBucket.
  assert (Ht : forall p, tame p (publish_set o)) by (intros p r; split; [done|]; by intros _ [|]).
  destruct (_ =? 0); [by apply outbox_tame|]. destruct (existsb _ db) eqn:E; [by apply outbox_tame|].
  destruct H as [Hd Hr]. cbn [fst snd] in *. split; cbn [fst snd].
  - eapply (NoDup_sql_insert o_summary_id (is_summary (so_summary_id o))); [|exact Hd|unfold sql_insert; by rewrite E].
    intros r' Hid. by apply String.eqb_eq.
  - intros r' [Hin| ->%list_elem_of_singleton]%elem_of_app; [auto|]. by intros [|].
Qed.

Lemma tame_settle id token st att err : st <> Sending -> tame (held id token) (settle_set st att err).
Proof.
  intros Hne r. split; [done|]. intros Hh [Hs|Hs]; cbn in Hs; [done|].
  unfold held, status_in in Hh. boolify. apply list_elem_of_singleton in H1. by split_and!.
Qed.

Lemma run_op_ok w x : outbox_ok w -> outbox_ok (run_op w x).
Proof.
  intros H. destruct w as [db out], x as [o now]. destruct o; cbn [run_op].
  - by apply upsert_ok.
  - by apply publish_ok.
  - pose proof (claim_ok db out tenantId memberId limit kinds token now H).
    by destruct (claimUsageOutbox db tenantId memberId limit kinds token now).
  - by apply outbox_tame; [apply tame_settle|].
  - by apply outbox_tame; [apply tame_settle|].
  - by apply outbox_tame; [apply tame_settle|].
  - by apply outbox_tame; [apply tame_settle|].
  - apply outbox_tame; [|done]. intros r. split; [done|]. by intros _ [|].
Qed.

(** ** Properties *)

(** C11. The outbox never loses or double-counts usage: after any sequence of recordings,
    publications, claims, uploads, failures, rejections, releases and restarts, the row of
    an hourly summary holds exactly the sum of everything recorded under its id, counters
    and, when every cost was known, the exact cost; and there is no row while nothing was
    recorded. *)
Theorem outbox_conserves_usage (l : list (op * Z)) (id : string) :
  (forall o now, (OPublish o, now) ∈ l -> so_summary_id o <> id) ->
  ledger_is (run_ops ([], []) l).1 id (recorded id l).
Proof.
  unfold run_ops, recorded. intros Hpub.
  assert (H0 : ledger_is ([] : list OutboxRow, @nil ClaimedRow).1 id None) by done.
  revert Hpub H0. generalize (@nil OutboxRow, @nil ClaimedRow) as w, (@None (list Z * option N)) as e.
  induction l as [|[o now] l IH]; intros w e Hpub H; cbn [fold_left]; [done|].
  apply IH; [intros o' now' Hin; apply (Hpub o' now'); by right|].
  destruct w as [db out]. cbn [fst] in H.
  destruct o; cbn [run_op recorded_step fst]; try (by apply ledger_quiet; [apply quiet_settle|]).
  - by apply ledger_upsert.
  - apply ledger_publish; [|done]. apply (Hpub o now). by left.
  - unfold claimUsageOutbox. cbn [fst]. by apply ledger_claim_fold.
  - by apply ledger_quiet; [apply quiet_recover|].
Qed.

(** What is marked sent was uploaded as it stands: in every table the operations can
    produce, the current content of a row in state sent, or sending, was handed out by a
    claim; usage added after the claim puts the row back to pending, so it is never
    covered by the acknowledgement of an older content. *)
Theorem sent_rows_were_handed_out (l : list (op * Z)) (r : OutboxRow) :
  let (db, out) := run_ops ([], []) l in
  r ∈ db -> o_status r = Sending \/ o_status r = Sent ->
  exists c, c ∈ out /\ c_summary_id c = o_summary_id r /\ c_payload c = o_payload r /\
    (o_status r = Sending -> o_claim_token r = Some (c_token c)).
Proof.
  assert (Hok : outbox_ok (run_ops ([], []) l)).
  { unfold run_ops. assert (H0 : outbox_ok (@nil OutboxRow, @nil ClaimedRow)).
    { split; [constructor|]. by intros ? ?%not_elem_of_nil. }
    revert H0. generalize (@nil OutboxRow, @nil ClaimedRow) as w. induction l as [|x l IH]; intros w H; cbn [fold_left]; [done|].
    by apply IH, run_op_ok. }
  destruct (run_ops ([], []) l) as [db out]. intros Hin Hst. destruct Hok as [_ Hr].
  destruct (Hr r Hin Hst) as (token & (c & Hc & H1 & H2 & <-) & H3). by exists c.
Qed.
End Runs.

(** ** A concrete run *)

Definition demoSummary : UsageSummary :=
  mkSummary "id" "t" "m" "e" 0 3600000 1 1 0 10 20 30 (Some 1) 500 (Some 1) true 1 60 (Some "0.010000000000") 1.
Definition demoReal (_ : string) : usd_value := UsdNumber 1 100.
Definition demoRun : list (op * Z) :=
  [(OUpsert demoSummary None, 1); (OUpsert demoSummary None, 2);
   (OClaim "t" (Some "m") 50 [KUsage] "tok", 3); (OSent "id" "tok", 4)].

Lemma outbox_conserves_usage_witness :
  ledger_is (run_ops demoReal (fun _ => 1) ([], []) demoRun).1 "id"
    (Some ([2; 2; 0; 20; 40; 60; 1000; 2; 120; 2], Some 20000000000%N)).
Proof.
  apply (outbox_conserves_usage demoReal (fun _ => 1) demoRun "id").
  intros o now Hin. repeat (apply elem_of_cons in Hin as [[=]|Hin]). by apply not_elem_of_nil in Hin.
Defined.

Definition demoSentRow : OutboxRow := Eval vm_compute in
  nth 0 (run_ops demoReal (fun _ => 1) ([], []) demoRun).1
    (mkRow "" "" "" KUsage Pending 0 None (PUsage (ofSummary demoSummary)) 0 None None None).

Lemma sent_rows_were_handed_out_witness :
  o_status demoSentRow = Sent /\
  exists c, c ∈ (run_ops demoReal (fun _ => 1) ([], []) demoRun).2 /\ c_payload c = o_payload demoSentRow.
Proof.
  split; [reflexivity|].
  pose proof (sent_rows_were_handed_out demoReal (fun _ => 1) demoRun demoSentRow) as H.
  destruct (run_ops demoReal (fun _ => 1) ([], []) demoRun) as [db out] eqn:E.
  vm_compute in E. injection E as <- <-.
  destruct H as (c & Hc & _ & Hp & _); [left|right; reflexivity|]. by exists c.
Defined.
