(* ===== verification/Flush.v ===== *)
(** The upload of the usage outbox (usage-flush.ts, [UsageFlushService]).

    [flushInternal] claims rows and handles them one by one; how each upload ends is an
    input, [None] for success.  The registry of execution identities is the one of
    ExecAuth.v, the outbox the one of Outbox.v. *)

From S2P Require Import Prelude Decimal Sql Usage Regex Outbox.
From S2P Require ExecAuth.
Local Open Scope Z_scope.

Record UploadError : Type := mkUploadError {
  ue_status : option Z;
  ue_problemCode : option text;
  ue_isError : bool;
  ue_text : text;
}.

Definition isEmployeeNotGranted (e : UploadError) : bool :=
  bool_decide (ue_problemCode e = Some (u "employee_not_granted")).
Definition isEndpointMissing (e : UploadError) : bool := bool_decide (ue_status e = Some 404).

(** [/\b(?:401|403)\b/u]. *)
Definition DENIAL_TEXT : re := RSeq RBoundary (RSeq (RAlt (RText (u "401")) (RText (u "403"))) RBoundary).

Definition isAccessDenial (e : UploadError) : bool :=
  bool_decide (ue_status e = Some 401 \/ ue_status e = Some 403) || test DENIAL_TEXT (ue_text e).

(** Local paths: a well-known root directory with what follows it, or a drive path. *)
Definition pathChar : re := RNot (fun c => is_space c || existsb (fun x => c =? x) [34; 39; 60; 62]).
Definition LOCAL_PATH : re :=
  RAlt (RSeq (RLit 47)
          (RSeq (RAlts (RText <$> (u <$> ["Users"; "Volumes"; "private"; "home"; "tmp"; "var"; "workspace"; "etc";
                                          "root"; "opt"; "srv"; "mnt"; "data"])))
             (RStar (RSeq (RLit 47) (RStar pathChar)))))
       (RSeq (RChar (fun c => (97 <=? fold_case c) && (fold_case c <=? 122)))
          (RSeq (RLit 58) (RSeq (RLit 92) (RStar pathChar)))).

Definition safeUsageError (e : UploadError) : text :=
  let raw := if ue_isError e then ue_text e else u "Manager usage upload failed" in
  tslice 500 (replaceAll LOCAL_PATH HIDDEN_PATH (hideSecrets raw)).

Example hide_path : safeUsageError (mkUploadError None None true (u "open /home/a/b.txt failed"))
  = u "open " ++ HIDDEN_PATH ++ u " failed".
Proof. vm_compute. reflexivity. Qed.

Definition OUTCOMES_UNSUPPORTED_NOTE : text := u "Manager does not support segment outcome upload yet".
Definition DENIED_NOTE : text := u "Manager usage authorization was denied".

Record Backoff : Type := mkBackoff { failures : Z; nextAttemptAt : Z }.

Record Service : Type := mkService {
  f_backoff : list (string * Backoff);
  f_unsupportedUntil : list (string * Z);
  f_registry : ExecAuth.Registry;
  f_db : list OutboxRow;
}.

(** [noteFailure]; [jitter] is [Math.floor(Math.random() * 250)]. *)
Definition backoffDelay (n jitter : Z) : Z := Z.min 300000 (1000 * 2 ^ Z.min (n - 1) 8) + jitter.

Definition noteFailure (m : list (string * Backoff)) (scope : string) (now jitter : Z) : list (string * Backoff) :=
  let n := nullish (failures <$> mget scope m) 0 + 1 in
  mset scope (mkBackoff n (now + backoffDelay n jitter)) m.

Record FlushState : Type := mkFlush {
  fs_service : Service; fs_sent : list string; fs_failed : list string;
  fs_denied : bool; fs_unsupported : bool;
}.

Definition with_db (f : list OutboxRow -> list OutboxRow) (s : Service) : Service :=
  mkService (f_backoff s) (f_unsupportedUntil s) (f_registry s) (f (f_db s)).

Definition is_outcome (row : ClaimedRow) : bool := bool_decide (c_kind row = KOutcome).

(** The [catch] of one row. *)
Definition flush_error (retryMs : option Z) (scope tenantId memberId : string) (st : FlushState) (row : ClaimedRow)
    (e : UploadError) (now jitter : Z) : FlushState :=
  let s := fs_service st in
  if is_outcome row && isEndpointMissing e then
    let s := with_db (fun db => releaseUsageClaim db (c_summary_id row) (c_token row) OUTCOMES_UNSUPPORTED_NOTE) s in
    mkFlush (mkService (f_backoff s) (mset scope (now + nullish retryMs 600000) (f_unsupportedUntil s)) (f_registry s) (f_db s))
      (fs_sent st) (fs_failed st) (fs_denied st) true
  else if isEmployeeNotGranted e then
    mkFlush (with_db (fun db => markUsageRejected db (c_summary_id row) (c_token row) (safeUsageError e)) s)
      (fs_sent st) (fs_failed st) (fs_denied st) (fs_unsupported st)
  else
    let s := with_db (fun db => markUsageFailed db (c_summary_id row) (c_token row) (safeUsageError e)) s in
    let denied := isAccessDenial e in
    let s := if denied
      then mkService (noteFailure (f_backoff s) scope now jitter) (f_unsupportedUntil s)
             (ExecAuth.invalidate (f_registry s) tenantId memberId) (f_db s)
      else s in
    mkFlush s (fs_sent st) (fs_failed st ++ [c_summary_id row]) (fs_denied st || denied) (fs_unsupported st).

Definition flush_row (retryMs : option Z) (scope tenantId memberId : string) (upload : ClaimedRow -> option UploadError)
    (now jitter : Z) (st : FlushState) (row : ClaimedRow) : FlushState :=
  let s := fs_service st in
  if is_outcome row && fs_unsupported st then
    mkFlush (with_db (fun db => releaseUsageClaim db (c_summary_id row) (c_token row) OUTCOMES_UNSUPPORTED_NOTE) s)
      (fs_sent st) (fs_failed st) (fs_denied st) (fs_unsupported st)
  else if fs_denied st then
    mkFlush (with_db (fun db => markUsageFailed db (c_summary_id row) (c_token row) DENIED_NOTE) s)
      (fs_sent st) (fs_failed st ++ [c_summary_id row]) (fs_denied st) (fs_unsupported st)
  else match upload row with
  | None => mkFlush (with_db (fun db => markUsageSent db (c_summary_id row) (c_token row)) s)
              (fs_sent st ++ [c_summary_id row]) (fs_failed st) (fs_denied st) (fs_unsupported st)
  | Some e => flush_error retryMs scope tenantId memberId st row e now jitter
  end.

Definition scopeOf (tenantId memberId : string) : string := tenantId +:+ ":" +:+ memberId.

Definition flushInternal (hasOutcomeUploader : bool) (retryMs : option Z) (s : Service) (tenantId memberId : string)
    (limit : Z) (token : string) (upload : ClaimedRow -> option UploadError) (now jitter : Z) : FlushState :=
  let scope := scopeOf tenantId memberId in
  let supported := hasOutcomeUploader && (nullish (mget scope (f_unsupportedUntil s)) 0 <=? now) in
  let kinds := if supported then [KUsage; KOutcome] else [KUsage] in
  let (db, rows) := claimUsageOutbox (f_db s) tenantId (Some memberId) limit kinds token now in
  fold_left (flush_row retryMs scope tenantId memberId upload now jitter) rows
    (mkFlush (with_db (fun _ => db) s) [] [] false false).

(** One owner of [drain]'s loop: skipped while backing off or without an identity. *)
Definition drain_owner (hasOutcomeUploader : bool) (retryMs : option Z) (s : Service) (tenantId memberId : string)
    (token : string) (upload : ClaimedRow -> option UploadError) (now jitter : Z) : Service :=
  let scope := scopeOf tenantId memberId in
  if now <? nullish (nextAttemptAt <$> mget scope (f_backoff s)) 0 then s
  else
    let (reg, caller) := ExecAuth.resolve (f_registry s) tenantId memberId true now in
    let s := mkService (f_backoff s) (f_unsupportedUntil s) reg (f_db s) in
    match caller with
    | None => s
    | Some _ =>
        let st := flushInternal hasOutcomeUploader retryMs s tenantId memberId 50 token upload now jitter in
        let s := fs_service st in
        let backoff := match fs_failed st with
          | [] => mdelete scope (f_backoff s)
          | _ => noteFailure (f_backoff s) scope now jitter
          end in
        mkService backoff (f_unsupportedUntil s) (f_registry s) (f_db s)
    end.

(** ** Every claimed row is settled *)

Definition claimed_left (token : string) (db : list OutboxRow) : Prop :=
  exists r, r ∈ db /\ status_in [Sending] r = true /\ o_claim_token r = Some token.

(** A statement on the rows held under one id releases that id and touches no other. *)
Lemma settle_releases db id token st att err r : st <> Sending ->
  r ∈ sql_update (held id token) (settle_set st att err) db ->
  status_in [Sending] r = true -> o_claim_token r = Some token ->
  r ∈ db /\ o_summary_id r <> id.
Proof.
  intros Hst (r0 & Hin & ->)%elem_of_sql_update Hs Ht. destruct (held id token r0) eqn:E; [done|].
  split; [done|]. intros Hid. unfold held, is_summary in E. rewrite Hid, String.eqb_refl, Hs in E. cbn in E.
  by rewrite bool_decide_true in E.
Qed.

Lemma flush_row_releases retryMs scope t m upload now jitter st row token r :
  c_token row = token ->
  r ∈ f_db (fs_service (flush_row retryMs scope t m upload now jitter st row)) ->
  status_in [Sending] r = true -> o_claim_token r = Some token ->
  r ∈ f_db (fs_service st) /\ o_summary_id r <> c_summary_id row.
Proof.
  intros Htok Hin. unfold flush_row, flush_error in Hin. subst token.
  repeat (case_match; cbn [fs_service with_db f_db] in Hin);
    by eapply settle_releases; [..|exact Hin].
Qed.

Lemma flush_fold_releases retryMs scope t m upload now jitter rows st token r :
  (forall row, row ∈ rows -> c_token row = token) ->
  r ∈ f_db (fs_service (fold_left (flush_row retryMs scope t m upload now jitter) rows st)) ->
  status_in [Sending] r = true -> o_claim_token r = Some token ->
  r ∈ f_db (fs_service st) /\ forall row, row ∈ rows -> o_summary_id r <> c_summary_id row.
Proof.
  revert st. induction rows as [|row rows IH]; intros st Htok Hin Hs Ht; cbn [fold_left] in Hin.
  { split; [done|]. by intros ? ?%not_elem_of_nil. }
  destruct (IH (flush_row retryMs scope t m upload now jitter st row)) as [Hin1 Hrest]; try done.
  { intros x Hx. apply Htok. by right. }
  destruct (flush_row_releases retryMs scope t m upload now jitter st row token r) as [Hin2 Hne]; try done.
  { apply Htok. by left. }
  split; [done|]. intros x [->|Hx]%elem_of_cons; auto.
Qed.

(** A flush leaves no row behind: however the single uploads end, success, missing
    endpoint, revoked employee, denied access or any other failure, when the loop is done
    no row is still claimed by it, so every claimed row was sent, failed, rejected or
    returned to pending. *)
Theorem flush_settles_every_claim (uploader : bool) (retryMs : option Z) (s : Service) (tenantId memberId : string)
    (limit : Z) (token : string) (upload : ClaimedRow -> option UploadError) (now jitter : Z) :
  ~ claimed_left token (f_db s) ->
  ~ claimed_left token (f_db (fs_service
      (flushInternal uploader retryMs s tenantId memberId limit token upload now jitter))).
Proof.
  intros Hfresh (r & Hin & Hs & Ht). unfold flushInternal in Hin.
  set (kinds := if _ : bool then _ else _) in Hin. unfold claimUsageOutbox in Hin.
  set (rows := take _ _) in Hin.
  apply (flush_fold_releases _ _ _ _ _ _ _ _ _ token) in Hin as [Hin Hne]; [|intros row (x & -> & _)%list_elem_of_fmap; done|done|done].
  cbn [fs_service with_db f_db] in Hin.
  apply claim_fold_elem in Hin as [Hin|(r0 & _ & Hid & _ & _ & Hrow)]; [apply Hfresh; by exists r|].
  apply list_elem_of_fmap in Hrow as (x & Hxid & Hx).
  apply (Hne (mkClaimed (o_summary_id x) (o_tenant_id x) (o_kind x) (o_payload x) token)).
  - apply list_elem_of_fmap. by exists x.
  - cbn. congruence.
Qed.

(** Backing off is bounded: after a failure the next attempt for an owner is between
    one second and five minutes and a quarter later, at least doubling up to the cap with
    each consecutive failure, and other owners are not affected. *)
Theorem backoff_is_bounded (m : list (string * Backoff)) (scope other : string) (now jitter : Z) :
  0 <= jitter < 250 -> (forall b, mget scope m = Some b -> 0 <= failures b) ->
  exists b, mget scope (noteFailure m scope now jitter) = Some b /\
    failures b = nullish (failures <$> mget scope m) 0 + 1 /\
    now + 1000 <= nextAttemptAt b < now + 300250 /\
    (failures b <= 9 -> now + 1000 * 2 ^ (failures b - 1) <= nextAttemptAt b) /\
    (other <> scope -> mget other (noteFailure m scope now jitter) = mget other m).
Proof.
  intros Hj Hpos. unfold noteFailure. rewrite mget_mset, String.eqb_refl.
  set (n := nullish (failures <$> mget scope m) 0 + 1). eexists. split; [reflexivity|]. cbn [failures nextAttemptAt].
  assert (Hn : 1 <= n).
  { unfold n, nullish. destruct (mget scope m) as [b|] eqn:E; cbn; [specialize (Hpos b eq_refl)|]; lia. }
  assert (Hp : 1 <= 2 ^ Z.min (n - 1) 8 <= 256).
  { split; [change 1 with (2 ^ 0)|change 256 with (2 ^ 8)]; apply Z.pow_le_mono_r; lia. }
  unfold backoffDelay. split_and!; [done|lia|lia| |].
  - intros H9. replace (Z.min (n - 1) 8) with (n - 1) in * by lia. lia.
  - intros Hne. rewrite mget_mset. apply String.eqb_neq in Hne as ->. done.
Qed.

Lemma flush_settles_every_claim_witness :
  ~ claimed_left "tok" (f_db (fs_service (flushInternal true None
      (mkService [] [] ExecAuth.emptyRegistry
        (run_ops demoReal (fun _ => 1) ([], []) [(OUpsert demoSummary None, 1)]).1)
      "t" "m" 50 "tok" (fun _ => Some (mkUploadError (Some 500) None true [])) 10 0))).
Proof.
  apply flush_settles_every_claim. intros (r & Hin & Hs & _).
  cbn in Hin. apply elem_of_cons in Hin as [->|Hin]; [discriminate Hs|by apply not_elem_of_nil in Hin].
Defined.

Lemma backoff_is_bounded_witness :
  exists b, mget "t:m" (noteFailure [] "t:m" 5 7) = Some b /\ failures b = 1.
Proof.
  destruct (backoff_is_bounded [] "t:m" "x" 5 7 ltac:(lia) ltac:(done)) as (b & Hb & Hf & _).
  by exists b.
Defined.
