(* ===== verification/WorkRecords.v ===== *)
(** Work records and their change feed (storage/work-records.ts, [WorkRecordRepository];
    pi/work-history.ts; the paging of services/work-records.ts).

    [WorkDb] is the two tables of the repository with their AUTOINCREMENT counters and the
    usage outbox the completion of a record adds to.  Ids come from [uuid], the stream of
    [randomUUID()] values, indexed by how many were drawn.  Whether the conversation table
    holds a conversation of an owner is an argument of the methods that ask it. *)

From S2P Require Import Prelude Sql Usage Regex Outbox.
From stdpp Require Import pretty.
From Stdlib Require Import Sorting.Sorted.
Local Open Scope Z_scope.

(** [Exclude<WorkOutcome, "active">] and [WorkOutcome]. *)
Inductive FinalOutcome : Type := WSucceeded | WError | WAborted | WUnknown.
Inductive WorkOutcome : Type := WActive | WFinal (o : FinalOutcome).
Inductive Provenance : Type := Live | PiHistory.
#[export] Instance FinalOutcome_eq_dec : EqDecision FinalOutcome.
Proof. solve_decision. Defined.
#[export] Instance WorkOutcome_eq_dec : EqDecision WorkOutcome.
Proof. solve_decision. Defined.
#[export] Instance Provenance_eq_dec : EqDecision Provenance.
Proof. solve_decision. Defined.

Record WorkOwner : Type := mkOwner { ow_tenantId : string; ow_memberId : string }.
#[export] Instance WorkOwner_eq_dec : EqDecision WorkOwner.
Proof. solve_decision. Defined.

Record WorkFilter : Type := mkFilter {
  f_owner : WorkOwner; f_employeeId : option string; f_start : option Z; f_end : option Z;
}.

Record WorkRecordRow : Type := mkWork {
  w_created_seq : Z; w_id : string; w_owner : WorkOwner; w_employee_id : string; w_conversation_id : string;
  w_provenance : Provenance; w_outcome : WorkOutcome; w_process_restart : bool;
  w_occurred_at : option Z; w_started_at : option Z; w_ended_at : option Z; w_updated_at : Z;
  w_start_ordinal : Z; w_end_ordinal : option Z;
  w_first_entry_id : option string; w_last_entry_id : option string;
  w_first_entry_at : option Z; w_last_entry_at : option Z;
  w_usage : option WorkUsage; w_prompt_receipt : option string;
}.

Record WorkChangeRow : Type := mkChange {
  ch_seq : Z; ch_record_id : string; ch_owner : WorkOwner; ch_employee_id : string; ch_deleted : bool;
}.

Record WorkStart : Type := mkStart {
  ws_owner : WorkOwner; ws_promptReceipt : option string; ws_conversationId : string; ws_employeeId : string;
  ws_startedAt : Z; ws_startOrdinal : Z;
}.

Record WorkHistorySegment : Type := mkSegment {
  sg_startOrdinal : Z; sg_endOrdinal : Z; sg_firstEntryId : string; sg_lastEntryId : string;
  sg_firstEntryAt : option Z; sg_lastEntryAt : option Z; sg_outcome : FinalOutcome;
}.

Record WorkFinish : Type := mkFinish {
  wf_outcome : FinalOutcome; wf_endedAt : Z; wf_endOrdinal : Z;
  wf_firstEntryId : option string; wf_lastEntryId : option string;
  wf_firstEntryAt : option Z; wf_lastEntryAt : option Z; wf_usage : option WorkUsage;
}.

Record WorkDb : Type := mkWorkDb {
  records : list WorkRecordRow; record_seq : Z;
  changes : list WorkChangeRow; change_seq : Z;
  outbox : list OutboxRow;
  drawn : nat;
}.

Inductive work_error : Type := NotOwned | OwnerMismatch | WorkConstraint.

(** ** Pi history (pi/work-history.ts) *)

Inductive timestamp : Type := TNumber (v : num) | TString (v : string) | TNone.
Inductive role : Type := RUser | RAssistant | ROther.

(** An entry: its id, its role when it is a message, the stop reason and the timestamp. *)
Record HistoryEntry : Type := mkEntry {
  he_id : string; he_message : option role; he_stopReason : option string; he_timestamp : timestamp;
}.

Definition observedWorkOutcome (stopReason : option string) (settled aborted failed : bool) : FinalOutcome :=
  let reason s := bool_decide (stopReason = Some s) in
  if aborted || reason "aborted" then WAborted
  else if failed || reason "error" then WError
  else if settled && (reason "stop" || reason "length") then WSucceeded
  else WUnknown.

Definition lastAssistantStopReason (entries : list HistoryEntry) : option string :=
  List.find (fun e => match he_message e with Some RAssistant => true | _ => false end) (reverse entries)
  ≫= he_stopReason.

(** A safe integer that is a valid time value. *)
Definition workEntryTime (dateParse : string -> option Z) (entry : option HistoryEntry) : option Z :=
  match he_timestamp <$> entry with
  | Some (TNumber (Fin z)) => if (Z.abs z <=? MAX_SAFE_INTEGER) && (Z.abs z <=? 8640000000000000) then Some z else None
  | Some (TString s) => dateParse s
  | _ => None
  end.

Fixpoint segmentStarts (ordinal : Z) (any : bool) (entries : list HistoryEntry) : list Z :=
  match entries with
  | [] => []
  | e :: entries =>
      match he_message e with
      | Some RUser => ordinal :: segmentStarts (ordinal + 1) true entries
      | Some RAssistant =>
          if any then segmentStarts (ordinal + 1) any entries
          else ordinal :: segmentStarts (ordinal + 1) true entries
      | _ => segmentStarts (ordinal + 1) any entries
      end
  end.

Fixpoint startEnds (starts : list Z) (total : Z) : list (Z * Z) :=
  match starts with
  | [] => []
  | s :: rest => (s, match rest with n :: _ => n | [] => total end) :: startEnds rest total
  end.

Definition historicalWorkSegments (entries : list HistoryEntry) : list (Z * Z) :=
  startEnds (segmentStarts 0 false entries) (Z.of_nat (length entries)).

(** ** The repository *)

Section Repository.
Context (castReal : string -> usd_value) (castCents : string -> Z) (uuid : nat -> string).

Definition transaction {A} (body : WorkDb -> WorkDb * result work_error A) (db : WorkDb)
    : WorkDb * result work_error A :=
  match body db with
  | (db', Ok a) => (db', Ok a)
  | (_, Err e) => (db, Err e)
  end.

Definition set_records (f : list WorkRecordRow -> list WorkRecordRow) (db : WorkDb) : WorkDb :=
  mkWorkDb (f (records db)) (record_seq db) (changes db) (change_seq db) (outbox db) (drawn db).

Definition has_id (id : string) (r : WorkRecordRow) : bool := String.eqb (w_id r) id.
Definition is_record (id : string) (c : WorkChangeRow) : bool := String.eqb (ch_record_id c) id.
Definition owned_id (id : string) (owner : WorkOwner) (r : WorkRecordRow) : bool :=
  has_id id r && bool_decide (w_owner r = owner).
Definition owned_conversation (conversationId : string) (owner : WorkOwner) (r : WorkRecordRow) : bool :=
  String.eqb (w_conversation_id r) conversationId && bool_decide (w_owner r = owner).

(** [change]: the upsert gives the record's entry the next number of the sequence. *)
Definition change_set (seq : Z) (deleted : bool) (c : WorkChangeRow) : WorkChangeRow :=
  mkChange seq (ch_record_id c) (ch_owner c) (ch_employee_id c) deleted.
Definition change (id : string) (owner : WorkOwner) (employeeId : string) (deleted : bool) (db : WorkDb) : WorkDb :=
  let seq := change_seq db + 1 in
  mkWorkDb (records db) (record_seq db)
    (sql_upsert (is_record id) (change_set seq deleted) (mkChange seq id owner employeeId deleted) (changes db))
    seq (outbox db) (drawn db).
Definition changeRow (deleted : bool) (row : WorkRecordRow) : WorkDb -> WorkDb :=
  change (w_id row) (w_owner row) (w_employee_id row) deleted.

Definition get (db : WorkDb) (id : string) (owner : WorkOwner) : option WorkRecordRow :=
  sql_get (owned_id id owner) (records db).

Definition forConversation (db : WorkDb) (conversationId : string) (owner : WorkOwner) : list WorkRecordRow :=
  sql_select (owned_conversation conversationId owner) (records db).

(** The constructor: whatever was active when the process ended is unknown now. *)
Definition restart_set (now : Z) (r : WorkRecordRow) : WorkRecordRow :=
  mkWork (w_created_seq r) (w_id r) (w_owner r) (w_employee_id r) (w_conversation_id r) (w_provenance r)
    (WFinal WUnknown) true (w_occurred_at r) (w_started_at r) None now (w_start_ordinal r) (w_end_ordinal r)
    (w_first_entry_id r) (w_last_entry_id r) (w_first_entry_at r) (w_last_entry_at r) (w_usage r) (w_prompt_receipt r).
Definition is_active (r : WorkRecordRow) : bool := bool_decide (w_outcome r = WActive).
Definition recover_one (now : Z) (db : WorkDb) (row : WorkRecordRow) : WorkDb :=
  changeRow false row (set_records (sql_update (has_id (w_id row)) (restart_set now)) db).
Definition recover (now : Z) (db : WorkDb) : WorkDb :=
  fold_left (recover_one now) (sql_select is_active (records db)) db.

(** [INSERT INTO work_record]: the id is unique, and so is the anchor of a history record. *)
Definition clashes (row r : WorkRecordRow) : bool :=
  has_id (w_id row) r
  || (bool_decide (w_provenance row = PiHistory) && bool_decide (w_provenance r = PiHistory)
      && String.eqb (w_conversation_id r) (w_conversation_id row) && String.eqb (w_employee_id r) (w_employee_id row)
      && bool_decide (is_Some (w_first_entry_id r)) && bool_decide (w_first_entry_id r = w_first_entry_id row)).
Definition insertRow (row : Z -> string -> WorkRecordRow) (db : WorkDb) : option (WorkDb * WorkRecordRow) :=
  let r := row (record_seq db + 1) (uuid (drawn db)) in
  match sql_insert (clashes r) r (records db) with
  | Some t => Some (mkWorkDb t (record_seq db + 1) (changes db) (change_seq db) (outbox db) (S (drawn db)), r)
  | None => None
  end.

Definition startRow (i : WorkStart) (seq : Z) (id : string) : WorkRecordRow :=
  mkWork seq id (ws_owner i) (ws_employeeId i) (ws_conversationId i) Live WActive false
    (Some (ws_startedAt i)) (Some (ws_startedAt i)) None (ws_startedAt i) (ws_startOrdinal i) None
    None None None None None
    (match ws_promptReceipt i with Some s => if String.eqb s "" then None else Some s | None => None end).

Definition start (i : WorkStart) (owns : bool) : WorkDb -> WorkDb * result work_error string :=
  transaction (fun db =>
    if negb owns then (db, Err NotOwned) else
    match insertRow (startRow i) db with
    | None => (db, Err WorkConstraint)
    | Some (db, row) => (changeRow false row db, Ok (w_id row))
    end).

(** [finish]: the transition out of [active] is the guard that counts usage once. *)
Definition finish_set (f : WorkFinish) (r : WorkRecordRow) : WorkRecordRow :=
  mkWork (w_created_seq r) (w_id r) (w_owner r) (w_employee_id r) (w_conversation_id r) (w_provenance r)
    (WFinal (wf_outcome f)) (w_process_restart r) (w_occurred_at r) (w_started_at r) (Some (wf_endedAt f)) (wf_endedAt f)
    (w_start_ordinal r) (Some (wf_endOrdinal f)) (wf_firstEntryId f) (wf_lastEntryId f)
    (wf_firstEntryAt f) (wf_lastEntryAt f) (wf_usage f) (w_prompt_receipt r).
Definition mismatch (s : UsageSummary) (row : WorkRecordRow) : bool :=
  negb (String.eqb (s_tenant_id s) (ow_tenantId (w_owner row))) || negb (String.eqb (s_member_id s) (ow_memberId (w_owner row)))
  || negb (String.eqb (s_employee_id s) (w_employee_id row)).
Definition accumulateUsage (s : UsageSummary) (preciseCost : option string) (now : Z) (db : WorkDb) : WorkDb :=
  mkWorkDb (records db) (record_seq db) (changes db) (change_seq db)
    (upsertUsageSummary castReal castCents (outbox db) s preciseCost now) (drawn db).

Definition finish (id : string) (owner : WorkOwner) (f : WorkFinish) (summary : option UsageSummary) (now : Z)
    : WorkDb -> WorkDb * result work_error bool :=
  transaction (fun db =>
    match get db id owner with
    | None => (db, Ok false)
    | Some row =>
        if negb (is_active row) then (db, Ok false)
        else if match summary with Some s => mismatch s row | None => false end then (db, Err OwnerMismatch)
        else
          let db := set_records (sql_update (has_id id) (finish_set f)) db in
          let db := match summary with
            | Some s => accumulateUsage s (wf_usage f ≫= wu_cost_total) now db
            | None => db
            end in
          (changeRow false row db, Ok true)
    end).

(** *** History import *)

(** [segment.startOrdinal < coveredUntil]. *)
Definition Zlt_num (z : Z) (x : num) : bool :=
  match x with Fin y => z <? y | PosInf => true | NegInf | NaN => false end.

Definition by_start (a b : WorkRecordRow) : bool := w_start_ordinal a <=? w_start_ordinal b.
Definition seg_by_start (a b : WorkHistorySegment) : bool := sg_startOrdinal a <=? sg_startOrdinal b.

(** [[...new Set(starts)]]. *)
Fixpoint distinct (seen l : list Z) : list Z :=
  match l with
  | [] => []
  | x :: l => if bool_decide (x ∈ seen) then distinct seen l else x :: distinct (x :: seen) l
  end.

(** [nextStarts.get(start)]. *)
Fixpoint nextStart (starts : list Z) (s : Z) : num :=
  match starts with
  | [] => NaN
  | x :: rest => if x =? s then match rest with n :: _ => Fin n | [] => PosInf end else nextStart rest s
  end.

Definition liveEnd (starts : list Z) (r : WorkRecordRow) : num :=
  match w_end_ordinal r with Some e => Fin e | None => nextStart starts (w_start_ordinal r) end.

Fixpoint advance (starts : list Z) (live : list WorkRecordRow) (at_ : Z) (covered : num)
    : list WorkRecordRow * num :=
  match live with
  | [] => ([], covered)
  | r :: rest =>
      if w_start_ordinal r <=? at_ then advance starts rest at_ (num_max covered (liveEnd starts r))
      else (live, covered)
  end.

Fixpoint sweep (starts : list Z) (live : list WorkRecordRow) (covered : num) (anchors : list (option string))
    (segments : list WorkHistorySegment) : list WorkHistorySegment :=
  match segments with
  | [] => []
  | s :: segments =>
      let (live, covered) := advance starts live (sg_startOrdinal s) covered in
      if bool_decide (Some (sg_firstEntryId s) ∈ anchors) || Zlt_num (sg_startOrdinal s) covered
      then sweep starts live covered anchors segments
      else s :: sweep starts live covered (Some (sg_firstEntryId s) :: anchors) segments
  end.

Record ImportInput : Type := mkImport { im_owner : WorkOwner; im_conversationId : string; im_employeeId : string }.

Definition importRows (db : WorkDb) (i : ImportInput) : list WorkRecordRow :=
  order_by by_start (sql_select (fun r => owned_conversation (im_conversationId i) (im_owner i) r
    && String.eqb (w_employee_id r) (im_employeeId i)) (records db)).
Definition historyAnchors (rows : list WorkRecordRow) : list (option string) :=
  w_first_entry_id <$> List.filter (fun r => bool_decide (w_provenance r = PiHistory)) rows.
Definition liveRows (rows : list WorkRecordRow) : list WorkRecordRow :=
  List.filter (fun r => bool_decide (w_provenance r = Live)) rows.
Definition liveStarts (rows : list WorkRecordRow) : list Z := distinct [] (w_start_ordinal <$> liveRows rows).

Definition pendingSegments (rows : list WorkRecordRow) (segments : list WorkHistorySegment) : list WorkHistorySegment :=
  sweep (liveStarts rows) (liveRows rows) NegInf (historyAnchors rows) (order_by seg_by_start segments).

Definition historyRow (i : ImportInput) (now : Z) (s : WorkHistorySegment) (seq : Z) (id : string) : WorkRecordRow :=
  mkWork seq id (im_owner i) (im_employeeId i) (im_conversationId i) PiHistory (WFinal (sg_outcome s)) false
    (sg_firstEntryAt s) None None now (sg_startOrdinal s) (Some (sg_endOrdinal s))
    (Some (sg_firstEntryId s)) (Some (sg_lastEntryId s)) (sg_firstEntryAt s) (sg_lastEntryAt s) None None.

Fixpoint insertSegments (i : ImportInput) (now : Z) (pending : list WorkHistorySegment) (db : WorkDb)
    : WorkDb * result work_error unit :=
  match pending with
  | [] => (db, Ok tt)
  | s :: pending =>
      match insertRow (historyRow i now s) db with
      | None => (db, Err WorkConstraint)
      | Some (db, row) => insertSegments i now pending (changeRow false row db)
      end
  end.

Definition importHistory (i : ImportInput) (owns : bool) (now : Z) (segments : list WorkHistorySegment) (db : WorkDb)
    : WorkDb * result work_error unit :=
  match segments with
  | [] => (db, Ok tt)
  | _ =>
      match pendingSegments (importRows db i) segments with
      | [] => (db, Ok tt)
      | pending => transaction (fun db => if negb owns then (db, Err NotOwned) else insertSegments i now pending db) db
      end
  end.

(** *** Reads *)

Definition in_window (f : WorkFilter) (r : WorkRecordRow) : bool :=
  match f_start f with
  | None => true
  | Some s => match w_occurred_at r, f_end f with
      | Some o, Some e => (s <=? o) && (o <? e)
      | _, _ => false
      end
  end.
Definition for_employee (f : WorkFilter) (employeeId : string) : bool :=
  match f_employeeId f with Some e => String.eqb employeeId e | None => true end.
Definition in_filter (f : WorkFilter) (r : WorkRecordRow) : bool :=
  bool_decide (w_owner r = f_owner f) && for_employee f (w_employee_id r) && in_window f r.

(** [(COALESCE(occurred_at, -8640000000000000), created_seq)], newest first. *)
Definition occurred (r : WorkRecordRow) : Z := nullish (w_occurred_at r) (-8640000000000000).
Definition pair_lt (a b : Z * Z) : bool := (a.1 <? b.1) || ((a.1 =? b.1) && (a.2 <? b.2)).
Definition historyKey (r : WorkRecordRow) : Z * Z := (occurred r, w_created_seq r).
Definition newer (a b : WorkRecordRow) : bool := pair_lt (historyKey b) (historyKey a).
Definition history (db : WorkDb) (f : WorkFilter) (limit : nat) (boundary : option (Z * Z)) : list WorkRecordRow :=
  take limit (order_by (fun a b => negb (newer b a)) (sql_select (fun r => in_filter f r
    && match boundary with Some b => pair_lt (historyKey r) b | None => true end) (records db))).

Definition change_in (f : WorkFilter) (c : WorkChangeRow) : bool :=
  bool_decide (ch_owner c = f_owner f) && for_employee f (ch_employee_id c).
Definition by_seq (a b : WorkChangeRow) : bool := ch_seq a <=? ch_seq b.
Definition changesAfter (db : WorkDb) (f : WorkFilter) (after : Z) (limit : nat) : list WorkChangeRow :=
  take limit (order_by by_seq (sql_select (fun c => change_in f c && (after <? ch_seq c)) (changes db))).
Definition watermark (db : WorkDb) (f : WorkFilter) : Z :=
  foldr Z.max 0 (ch_seq <$> sql_select (change_in f) (changes db)).

Definition deleteConversation (conversationId : string) (owner : WorkOwner) (db : WorkDb) : WorkDb :=
  set_records (sql_delete (owned_conversation conversationId owner))
    (fold_left (fun db row => changeRow true row db) (forConversation db conversationId owner) db).

(** ** Pages (services/work-records.ts)

    The handlers after the query is parsed and the cursor decoded; a record is delivered as
    its row, the view's formatting left out.  [backfill] imports the Pi history of every
    conversation it is given; a page starts with it. *)

Inductive read_error : Type := InvalidReadCursor | MissingRecord | ImportFailed (e : work_error).
Inductive item : Type := IDelete (id : string) | IUpsert (id : string) (row : WorkRecordRow).

(** One conversation's session of one employee, with its entries. *)
Record HistorySource : Type := mkSource {
  hs_conversationId : string; hs_owned : bool; hs_employeeId : option string; hs_entries : list HistoryEntry;
}.

Definition sourceSegments (dateParse : string -> option Z) (entries : list HistoryEntry) : list WorkHistorySegment :=
  omap (fun '(s, e) =>
    let range := take (Z.to_nat e - Z.to_nat s) (drop (Z.to_nat s) entries) in
    match range, last range with
    | first :: _, Some final =>
        Some (mkSegment s e (he_id first) (he_id final)
                (workEntryTime dateParse (Some first)) (workEntryTime dateParse (Some final))
                (observedWorkOutcome (lastAssistantStopReason range) true false false))
    | _, _ => None
    end) (historicalWorkSegments entries).

Fixpoint backfill (dateParse : string -> option Z) (f : WorkFilter) (now : Z) (sources : list HistorySource) (db : WorkDb)
    : WorkDb * result work_error unit :=
  match sources with
  | [] => (db, Ok tt)
  | h :: sources =>
      match hs_employeeId h with
      | Some e =>
          if String.eqb e "" || negb (for_employee f e) then backfill dateParse f now sources db
          else match importHistory (mkImport (f_owner f) (hs_conversationId h) e) (hs_owned h) now
                       (sourceSegments dateParse (hs_entries h)) db with
            | (db, Ok _) => backfill dateParse f now sources db
            | (db, Err e) => (db, Err e)
            end
      | None => backfill dateParse f now sources db
      end
  end.

Definition deliver (db : WorkDb) (f : WorkFilter) (c : WorkChangeRow) : result read_error item :=
  if ch_deleted c then Ok (IDelete (ch_record_id c))
  else match get db (ch_record_id c) (f_owner f) with
    | Some row => Ok (IUpsert (ch_record_id c) row)
    | None => Err MissingRecord
    end.

Definition changesPage (dateParse : string -> option Z) (db : WorkDb) (f : WorkFilter) (after : Z) (limit : nat)
    (sources : list HistorySource) (now : Z) : WorkDb * result read_error (list item * bool * Z) :=
  if (after <? 0) || (watermark db f <? after) then (db, Err InvalidReadCursor) else
  match backfill dateParse f now sources db with
  | (db, Err e) => (db, Err (ImportFailed e))
  | (db, Ok _) =>
      let rows := changesAfter db f after (S limit) in
      let page := take limit rows in
      let more := (limit <? length rows)%nat in
      let next := if more then nullish (ch_seq <$> last page) 0 else watermark db f in
      (db, data ← mapM_result (deliver db f) page; Ok (data, more, next))
  end.
End Repository.

(** ** Lookups by id *)

Definition rowOf (db : WorkDb) (id : string) : option WorkRecordRow := sql_get (has_id id) (records db).
Definition changeOf (db : WorkDb) (id : string) : option WorkChangeRow := sql_get (is_record id) (changes db).

(** What a member polling with filter [f] may see of a record. *)
Definition visible (db : WorkDb) (f : WorkFilter) (id : string) : option WorkRecordRow :=
  match rowOf db id with
  | Some r => if bool_decide (w_owner r = f_owner f) && for_employee f (w_employee_id r) then Some r else None
  | None => None
  end.

Definition matches (r : WorkRecordRow) (c : WorkChangeRow) : Prop :=
  w_owner r = ch_owner c /\ w_employee_id r = ch_employee_id c.

(** The feed has one entry per record ever written, marked deleted when the record is gone. *)
Definition agrees (r : option WorkRecordRow) (c : option WorkChangeRow) : Prop :=
  match r, c with
  | Some r, Some c => ch_deleted c = false /\ matches r c
  | Some _, None => False
  | None, Some c => ch_deleted c = true
  | None, None => True
  end.

Record log_ok (db : WorkDb) : Prop := {
  log_ids : NoDup (ch_record_id <$> changes db);
  log_seqs : NoDup (ch_seq <$> changes db);
  log_bound : forall c, c ∈ changes db -> 0 < ch_seq c <= change_seq db;
  log_nonneg : 0 <= change_seq db;
}.

Record work_ok (uuid : nat -> string) (db : WorkDb) : Prop := {
  ok_log : log_ok db;
  ok_ids : NoDup (w_id <$> records db);
  ok_drawn : forall c, c ∈ changes db -> exists n, (n < drawn db)%nat /\ ch_record_id c = uuid n;
  ok_paired : forall id, agrees (rowOf db id) (changeOf db id);
}.

(** Between two states a record is untouched, or its entry was renumbered; a record that
    was known before is then not active. *)
Definition renumbered (db : WorkDb) (r' : option WorkRecordRow) (c c' : option WorkChangeRow) : Prop :=
  exists x, c' = Some x /\ change_seq db < ch_seq x /\
    match c with
    | Some y => ch_owner x = ch_owner y /\ ch_employee_id x = ch_employee_id y /\
        forall r, r' = Some r -> w_outcome r <> WActive
    | None => True
    end.
Definition evolves (db db' : WorkDb) : Prop :=
  change_seq db <= change_seq db' /\
  forall id, (rowOf db' id = rowOf db id /\ changeOf db' id = changeOf db id) \/
    renumbered db (rowOf db' id) (changeOf db id) (changeOf db' id).

Lemma has_id_iff id r : has_id id r = true <-> w_id r = id.
Proof. apply String.eqb_eq. Qed.
Lemma is_record_iff id c : is_record id c = true <-> ch_record_id c = id.
Proof. apply String.eqb_eq. Qed.

Lemma rowOf_elem db id r : rowOf db id = Some r -> r ∈ records db /\ w_id r = id.
Proof. intros [? ?%has_id_iff]%sql_get_Some. done. Qed.
Lemma changeOf_elem db id c : changeOf db id = Some c -> c ∈ changes db /\ ch_record_id c = id.
Proof. intros [? ?%is_record_iff]%sql_get_Some. done. Qed.

Lemma rowOf_in db r : NoDup (w_id <$> records db) -> r ∈ records db -> rowOf db (w_id r) = Some r.
Proof.
  intros Hd Hr. apply (sql_get_key w_id); [done|done|by apply has_id_iff|].
  intros r' ?%has_id_iff. done.
Qed.
Lemma changeOf_in db c : log_ok db -> c ∈ changes db -> changeOf db (ch_record_id c) = Some c.
Proof.
  intros Hd Hr. apply (sql_get_key ch_record_id); [apply Hd|done|by apply is_record_iff|].
  intros r' ?%is_record_iff. done.
Qed.

Lemma evolves_refl db : evolves db db.
Proof. split; [done|]. intros id. by left. Qed.

Lemma evolves_trans db1 db2 db3 : evolves db1 db2 -> evolves db2 db3 -> evolves db1 db3.
Proof.
  intros [Hs1 H1] [Hs2 H2]. split; [lia|]. intros id.
  destruct (H1 id) as [[R1 C1]|(x & E1 & L1 & M1)], (H2 id) as [[R2 C2]|(y & E2 & L2 & M2)].
  - left. by rewrite R2, C2.
  - right. exists y. rewrite C1 in M2. split_and!; [done|lia|done].
  - right. exists x. rewrite C2, R2. done.
  - right. exists y. rewrite E1 in M2. split_and!; [done|lia|].
    destruct (changeOf db1 id); [|done]. destruct M1 as (? & ? & _), M2 as (? & ? & ?). split_and!; [congruence..|done].
Qed.

(** ** The entry a change writes *)

Lemma changeOf_change id o e d db id' :
  changeOf (change id o e d db) id' =
  if String.eqb id id' then
    Some (match changeOf db id with
          | Some c => change_set (change_seq db + 1) d c
          | None => mkChange (change_seq db + 1) id o e d end)
  else changeOf db id'.
Proof.
  unfold change, changeOf, sql_upsert; cbn [changes].
  destruct (existsb (is_record id) (changes db)) eqn:E.
  - rewrite (sql_get_update (is_record id') (is_record id)) by done.
    apply existsb_exists in E as (c & Hc & Hi).
    destruct (String.eqb_spec id id') as [->|Hne].
    + destruct (sql_get (is_record id') (changes db)) as [y|] eqn:G; cbn.
      * apply sql_get_Some in G as [_ ->]. done.
      * rewrite sql_get_None in G. rewrite (G c) in Hi; [done|by apply list_elem_of_In].
    + destruct (sql_get (is_record id') (changes db)) as [y|] eqn:G; cbn; [|done].
      apply sql_get_Some in G as [_ G%is_record_iff]. unfold is_record. rewrite G.
      by apply not_eq_sym, String.eqb_neq in Hne as ->.
  - assert (sql_get (is_record id) (changes db) = None) as G.
    { apply sql_get_None. intros c Hc. destruct (is_record id c) eqn:F; [|done].
      assert (existsb (is_record id) (changes db) = true); [|congruence].
      apply existsb_exists. exists c. by rewrite <- list_elem_of_In. }
    rewrite sql_get_app.
    destruct (String.eqb_spec id id') as [->|Hne].
    { rewrite G. cbn. unfold is_record. cbn [ch_record_id]. by rewrite String.eqb_refl. }
    destruct (sql_get (is_record id') (changes db)); [done|]. cbn. unfold is_record. cbn [ch_record_id].
    by apply String.eqb_neq in Hne as ->.
Qed.

Lemma update_split id seq d l : NoDup (ch_record_id <$> l) -> existsb (is_record id) l = true ->
  exists l1 c l2, l = l1 ++ c :: l2 /\ ch_record_id c = id /\
    sql_update (is_record id) (change_set seq d) l = l1 ++ change_set seq d c :: l2.
Proof.
  intros Hd (c & Hc & Hi)%existsb_exists. apply list_elem_of_In, list_elem_of_split in Hc as (l1 & l2 & ->).
  exists l1, c, l2. apply is_record_iff in Hi. split_and!; [done|done|].
  rewrite fmap_app, fmap_cons in Hd. apply NoDup_app in Hd as (_ & H1 & [H2 _]%NoDup_cons).
  unfold sql_update. rewrite map_app. cbn. rewrite (proj2 (is_record_iff id c) Hi). f_equal; [|f_equal].
  - apply (sql_update_none (is_record id)). intros r Hr. destruct (is_record id r) eqn:E; [|done].
    apply is_record_iff in E. destruct (H1 (ch_record_id r)); [by apply list_elem_of_fmap_2|].
    rewrite E, Hi. by left.
  - apply (sql_update_none (is_record id)). intros r Hr. destruct (is_record id r) eqn:E; [|done].
    apply is_record_iff in E. destruct H2. rewrite Hi, <- E. by apply list_elem_of_fmap_2.
Qed.

Lemma change_log_ok id o e d db : log_ok db -> log_ok (change id o e d db).
Proof.
  intros H. pose proof (log_ids _ H) as Hi. pose proof (log_seqs _ H) as Hs.
  pose proof (log_nonneg _ H) as H0. assert (forall c, c ∈ changes db -> ch_seq c <> change_seq db + 1) as Hf
    by (intros c Hc; pose proof (log_bound _ H c Hc); lia).
  unfold change, sql_upsert. destruct (existsb (is_record id) (changes db)) eqn:E.
  - destruct (update_split id (change_seq db + 1) d _ Hi E) as (l1 & c & l2 & El & Hc & ->).
    pose proof (log_bound _ H) as Hb. rewrite El in Hi, Hs, Hf, Hb.
    rewrite fmap_app, fmap_cons in Hs. apply NoDup_app in Hs as (S1 & S2 & [S3 S4]%NoDup_cons).
    split; cbn [changes change_seq]; [| | |lia].
    + rewrite fmap_app, fmap_cons in *. done.
    + rewrite fmap_app, fmap_cons. apply NoDup_app. split_and!; [done| |].
      * intros x Hx [->|Hx2]%elem_of_cons; [|apply (S2 x); [done|by right]].
        apply list_elem_of_fmap in Hx as (y & Ey & Hy). apply (Hf y); [set_solver|done].
      * apply NoDup_cons. split; [|done]. intros (y & Ey & Hy)%list_elem_of_fmap. apply (Hf y); [set_solver|done].
    + intros y [Hy|[->|Hy]%elem_of_cons]%elem_of_app; cbn; [|lia|].
      * assert (0 < ch_seq y <= change_seq db) by (apply Hb; set_solver). lia.
      * assert (0 < ch_seq y <= change_seq db) by (apply Hb; set_solver). lia.
  - split; cbn [changes change_seq]; [| | |lia].
    + rewrite fmap_app. apply NoDup_app. split_and!; [done| |apply NoDup_singleton].
      intros x (y & -> & Hy)%list_elem_of_fmap Hx. cbn in Hx. apply list_elem_of_singleton in Hx.
      assert (existsb (is_record id) (changes db) = true); [|congruence].
      apply existsb_exists. exists y. rewrite <- list_elem_of_In. split; [done|by apply is_record_iff].
    + rewrite fmap_app. apply NoDup_app. split_and!; [done| |apply NoDup_singleton].
      intros x (y & -> & Hy)%list_elem_of_fmap Hx. cbn in Hx. apply list_elem_of_singleton in Hx.
      by apply (Hf y).
    + intros y [Hy|E1]%elem_of_app; [|apply list_elem_of_singleton in E1 as ->; cbn; lia]. cbn.
      pose proof (log_bound _ H y Hy). lia.
Qed.

Lemma change_elem id o e d db c : c ∈ changes (change id o e d db) ->
  (exists c0, c0 ∈ changes db /\ ch_record_id c0 = ch_record_id c) \/ ch_record_id c = id.
Proof.
  unfold change, sql_upsert; cbn [changes]. destruct (existsb _ _).
  - intros (c0 & Hc0 & ->)%elem_of_sql_update. left. exists c0. split; [done|]. by destruct (is_record id c0).
  - intros [Hc|E1]%elem_of_app; [left; eauto|]. apply list_elem_of_singleton in E1 as ->. by right.
Qed.

(** ** Every method keeps the feed in step *)

Section Steps.
Context (castReal : string -> usd_value) (castCents : string -> Z) (uuid : nat -> string).
Context (uuid_inj : Inj (=) (=) uuid).

(** A change for an existing record. *)
Lemma changeRow_get d row db id r0 : work_ok uuid db -> rowOf db (w_id row) = Some r0 ->
  w_owner r0 = w_owner row -> w_employee_id r0 = w_employee_id row ->
  exists c, changeOf db (w_id row) = Some c /\ matches row c /\
    changeOf (changeRow d row db) id = if String.eqb (w_id row) id then Some (change_set (change_seq db + 1) d c) else changeOf db id.
Proof.
  intros H Hr Ho He. pose proof (ok_paired _ _ H (w_id row)) as Hp. rewrite Hr in Hp.
  destruct (changeOf db (w_id row)) as [c|] eqn:Hc; [|done]. destruct Hp as [_ [Hm1 Hm2]].
  exists c. split_and!; [done|split; congruence|]. unfold changeRow. by rewrite changeOf_change, Hc.
Qed.

Lemma change_drawn id o e d db : (forall c, c ∈ changes db -> exists n, (n < drawn db)%nat /\ ch_record_id c = uuid n) ->
  (exists n, (n < drawn db)%nat /\ id = uuid n) ->
  forall c, c ∈ changes (change id o e d db) -> exists n, (n < drawn db)%nat /\ ch_record_id c = uuid n.
Proof. intros H Hid c [(c0 & Hc0 & <-)| ->]%change_elem; eauto. Qed.

Lemma row_drawn db id r : work_ok uuid db -> rowOf db id = Some r -> exists n, (n < drawn db)%nat /\ id = uuid n.
Proof.
  intros H Hr. pose proof (ok_paired _ _ H id) as Hp. rewrite Hr in Hp.
  destruct (changeOf db id) as [c|] eqn:Hc; [|done]. apply changeOf_elem in Hc as [Hc <-].
  by apply (ok_drawn _ _ H).
Qed.

Definition static (f : WorkRecordRow -> WorkRecordRow) : Prop :=
  forall r, w_id (f r) = w_id r /\ w_owner (f r) = w_owner r /\ w_employee_id (f r) = w_employee_id r /\
    w_outcome (f r) <> WActive.

Lemma rowOf_update id f db id' : static f ->
  rowOf (set_records (sql_update (has_id id) f) db) id' =
  if String.eqb id id' then f <$> rowOf db id' else rowOf db id'.
Proof.
  intros Hf. unfold rowOf, set_records; cbn [records].
  rewrite (sql_get_update (has_id id')) by (intros r _; unfold has_id; by rewrite (proj1 (Hf r))).
  destruct (sql_get (has_id id') (records db)) as [r|] eqn:G; cbn; [|by destruct (String.eqb id id')].
  apply sql_get_Some in G as [_ G%has_id_iff]. unfold has_id. rewrite G, String.eqb_sym.
  by destruct (String.eqb id id').
Qed.

(** Updating one record and logging it. *)
Lemma touch_ok f row r0 db : work_ok uuid db -> static f -> rowOf db (w_id row) = Some r0 ->
  w_owner r0 = w_owner row -> w_employee_id r0 = w_employee_id row ->
  let db' := changeRow false row (set_records (sql_update (has_id (w_id row)) f) db) in
  work_ok uuid db' /\ evolves db db'.
Proof.
  intros H Hf Hr Ho He db'.
  assert (forall id, rowOf db' id = if String.eqb (w_id row) id then f <$> rowOf db id else rowOf db id) as R
    by (intros id; exact (rowOf_update (w_id row) f db id Hf)).
  assert (exists c, changeOf db (w_id row) = Some c /\ matches row c /\ forall id,
    changeOf db' id = if String.eqb (w_id row) id then Some (change_set (change_seq db + 1) false c) else changeOf db id)
    as (c & Hc & Hm & C).
  { destruct (changeRow_get false row db (w_id row) r0 H Hr Ho He) as (c & Hc & Hm & _). exists c.
    split_and!; [done|done|]. intros id.
    destruct (changeRow_get false row db id r0 H Hr Ho He) as (c' & Hc' & _ & C). by simplify_eq. }
  split; [split|split].
  - apply change_log_ok. destruct (ok_log _ _ H). by split.
  - change (records db') with (sql_update (has_id (w_id row)) f (records db)).
    rewrite (keys_sql_update w_id); [apply H|apply Hf].
  - intros x Hx. eapply (change_drawn _ _ _ _ (set_records _ db)); [apply H| |exact Hx]. by apply (row_drawn db _ r0).
  - intros id. rewrite R, C. pose proof (ok_paired _ _ H id) as Hp.
    destruct (String.eqb_spec (w_id row) id) as [<-|]; [|done]. rewrite Hr in *. cbn.
    split; [done|]. destruct Hm, (Hf r0) as (_ & E1 & E2 & _). unfold matches; cbn. split; congruence.
  - cbn. lia.
  - intros id. rewrite R, C. destruct (String.eqb_spec (w_id row) id) as [<-|]; [right|by left].
    exists (change_set (change_seq db + 1) false c). rewrite Hc, Hr. cbn. split_and!; [done|lia|done..|].
    intros r [= <-]. apply Hf.
Qed.

(** Inserting a record under a fresh id and logging it. *)
Lemma insert_ok (mk : Z -> string -> WorkRecordRow) db db1 row : work_ok uuid db ->
  (forall s id, w_id (mk s id) = id) -> insertRow uuid mk db = Some (db1, row) ->
  let db' := changeRow false row db1 in work_ok uuid db' /\ evolves db db' /\ outbox db' = outbox db.
Proof using uuid_inj.
  intros H Hid Hins db'. unfold insertRow in Hins.
  destruct (sql_insert _ _ _) as [t|] eqn:E; [|done]. injection Hins as <- <-.
  set (row := mk (record_seq db + 1) (uuid (drawn db))) in *.
  assert (w_id row = uuid (drawn db)) as Hrow by apply Hid.
  assert (changeOf db (w_id row) = None) as Hc.
  { destruct (changeOf db (w_id row)) as [c|] eqn:Hc; [|done]. apply changeOf_elem in Hc as [Hc Hi].
    destruct (ok_drawn _ _ H c Hc) as (n & Hn & Hu). rewrite Hi, Hrow in Hu. apply uuid_inj in Hu. lia. }
  assert (NoDup (w_id <$> t)) as Ht.
  { eapply (NoDup_sql_insert w_id); [|apply H|exact E]. intros r' Hr'. unfold clashes.
    apply orb_true_iff. left. by apply has_id_iff. }
  unfold sql_insert in E. destruct (existsb _ _) eqn:Ex; [done|]. injection E as <-.
  assert (forall id, rowOf db' id = if String.eqb (w_id row) id then Some row else rowOf db id) as R.
  { intros id. unfold rowOf, db', changeRow, change; cbn [records]. rewrite sql_get_app. cbn.
    unfold has_id at 2. destruct (String.eqb_spec (w_id row) id) as [<-|].
    - pose proof (ok_paired _ _ H (w_id row)) as Hp. rewrite Hc in Hp. unfold rowOf in Hp.
      by destruct (sql_get (has_id (w_id row)) (records db)).
    - by destruct (sql_get (has_id id) (records db)). }
  assert (forall id, changeOf db' id = if String.eqb (w_id row) id then
      Some (mkChange (change_seq db + 1) (w_id row) (w_owner row) (w_employee_id row) false) else changeOf db id) as C.
  { intros id. unfold db', changeRow. rewrite changeOf_change. unfold changeOf in *; cbn [changes].
    by rewrite Hc. }
  split_and!; [split|split|done].
  - apply change_log_ok. destruct (ok_log _ _ H). by split.
  - done.
  - change (drawn db') with (S (drawn db)). intros x [(c0 & Hc0 & <-)| ->]%change_elem; cbn [changes] in *.
    + destruct (ok_drawn _ _ H c0 Hc0) as (n & Hn & ->). exists n. split; [lia|done].
    + exists (drawn db). split; [lia|done].
  - intros id. rewrite R, C. pose proof (ok_paired _ _ H id) as Hp.
    by destruct (String.eqb (w_id row) id).
  - cbn. lia.
  - intros id. rewrite R, C. destruct (String.eqb_spec (w_id row) id) as [<-|]; [right|by left].
    eexists. split_and!; [done|cbn; lia|by rewrite Hc].
Qed.

(** [row] still stands for a stored record. *)
Definition stored (db : WorkDb) (row : WorkRecordRow) : Prop :=
  exists r0, rowOf db (w_id row) = Some r0 /\ w_owner r0 = w_owner row /\ w_employee_id r0 = w_employee_id row.

Lemma selected_stored db p row : work_ok uuid db -> row ∈ sql_select p (records db) -> stored db row.
Proof. intros H [Hr _]%elem_of_sql_select. exists row. by rewrite (rowOf_in db row) by (try apply H; done). Qed.

Lemma recover_ok now db : work_ok uuid db -> work_ok uuid (recover now db) /\ evolves db (recover now db).
Proof.
  intros H. unfold recover.
  assert (forall row, row ∈ sql_select is_active (records db) -> stored db row) as Hst
    by (intros row; by apply selected_stored).
  revert H Hst. generalize (sql_select is_active (records db)) as l. intros l. revert db.
  induction l as [|row l IH]; intros db H Hst; cbn [fold_left]; [split; [done|apply evolves_refl]|].
  destruct (Hst row) as (r0 & Hr & Ho & He); [by left|].
  assert (static (restart_set now)) as Hf by done.
  destruct (touch_ok (restart_set now) row r0 db H Hf Hr Ho He) as [H1 E1].
  destruct (IH (recover_one now db row)) as [H2 E2]; [done| |].
  - intros row' Hrow'. destruct (Hst row') as (r1 & Hr1 & Ho1 & He1); [by right|].
    unfold stored, recover_one. change (rowOf (changeRow false row ?d)) with (rowOf d).
    rewrite rowOf_update by done. rewrite Hr1. destruct (String.eqb _ _); eexists; done.
  - split; [done|]. eapply evolves_trans; [exact E1|exact E2].
Qed.

Lemma logDeleted_fold l db : log_ok db -> (forall row, row ∈ l -> exists c, changeOf db (w_id row) = Some c /\ matches row c) ->
  let db' := fold_left (fun db row => changeRow true row db) l db in
  log_ok db' /\ change_seq db <= change_seq db' /\
  (forall c, c ∈ changes db' -> exists c0, c0 ∈ changes db /\ ch_record_id c0 = ch_record_id c) /\
  forall id, (id ∈ w_id <$> l /\ (exists x, changeOf db' id = Some x /\ ch_deleted x = true) /\
                renumbered db None (changeOf db id) (changeOf db' id)) \/
             (id ∉ w_id <$> l /\ changeOf db' id = changeOf db id).
Proof.
  revert db. induction l as [|row l IH]; intros db Hl Hin; cbn [fold_left].
  { split_and!; [done|lia|eauto|]. intros id. right. by split; [apply not_elem_of_nil|]. }
  destruct (Hin row) as (c & Hc & Hm); [by left|].
  assert (forall id, changeOf (changeRow true row db) id =
    if String.eqb (w_id row) id then Some (change_set (change_seq db + 1) true c) else changeOf db id) as C
    by (intros id; unfold changeRow; by rewrite changeOf_change, Hc).
  destruct (IH (changeRow true row db)) as (IH1 & IH2 & IH3 & IH4).
  { by apply change_log_ok. }
  { intros row' Hr'. destruct (Hin row') as (c' & Hc' & Hm'); [by right|]. rewrite C.
    destruct (String.eqb_spec (w_id row) (w_id row')) as [E|]; [|eauto].
    eexists. split; [done|]. rewrite E, Hc' in Hc. by simplify_eq. }
  change (change_seq (changeRow true row db)) with (change_seq db + 1) in IH2.
  split_and!; [done|lia| |].
  - intros x (c0 & [(c1 & Hc1 & E1)|E1]%change_elem & <-)%IH3; [by exists c1|].
    apply changeOf_elem in Hc as [? ?]. exists c. split; [done|congruence].
  - intros id. rewrite fmap_cons. destruct (IH4 id) as [(Hi & Hdel & x & Ex & Lx & Mx)|[Hi Ei]].
    + left. split_and!; [by right|done|]. exists x. split_and!; [done|cbn in Lx; lia|].
      rewrite C in Mx. destruct (String.eqb_spec (w_id row) id) as [<-|]; [by rewrite Hc|done].
    + rewrite Ei, C. destruct (String.eqb_spec (w_id row) id) as [<-|Hne].
      * left. split_and!; [by left|eexists; done|]. rewrite Hc. eexists. split_and!; [done|cbn; lia|done..].
      * right. split; [|done]. rewrite not_elem_of_cons. naive_solver.
Qed.

Lemma fold_changeRow_tables l d db :
  let db' := fold_left (fun db row => changeRow d row db) l db in
  records db' = records db /\ drawn db' = drawn db /\ outbox db' = outbox db.
Proof. revert db. induction l as [|row l IH]; intros db; cbn; [done|]. apply (IH (changeRow d row db)). Qed.

Lemma work_delete_ok conversationId owner db : work_ok uuid db ->
  work_ok uuid (deleteConversation conversationId owner db) /\ evolves db (deleteConversation conversationId owner db).
Proof.
  intros H. unfold deleteConversation. set (l := forConversation db conversationId owner).
  destruct (logDeleted_fold l db) as (L1 & L2 & L3 & L4); [apply H| |].
  { intros row Hrow. destruct (selected_stored db _ row H Hrow) as (r0 & Hr & Ho & He).
    destruct (changeRow_get true row db "" r0 H Hr Ho He) as (c & ? & ? & _). eauto. }
  destruct (fold_changeRow_tables l true db) as (T1 & T2 & _).
  set (db1 := fold_left _ l db) in *.
  set (db' := set_records _ db1).
  assert (forall id, rowOf db' id = match rowOf db id with
    | Some r => if owned_conversation conversationId owner r then None else Some r | None => None end) as R.
  { intros id. unfold rowOf, db', set_records; cbn [records]. rewrite T1.
    apply (sql_get_delete w_id); [apply H|]. intros r r' ?%has_id_iff ?%has_id_iff. congruence. }
  assert (forall id r, rowOf db id = Some r -> owned_conversation conversationId owner r = true <-> id ∈ w_id <$> l) as Hl.
  { intros id r Hr. pose proof (rowOf_elem _ _ _ Hr) as [Hin Hid]. split.
    - intros Ho. subst id. apply list_elem_of_fmap_2. by apply elem_of_sql_select.
    - intros (r' & Hid' & [Hin' Ho]%elem_of_sql_select)%list_elem_of_fmap.
      assert (r = r') as ->; [|done]. eapply (NoDup_key_eq w_id); [apply H|done..|congruence]. }
  split; [split|split].
  - destruct L1. by split.
  - unfold db', set_records; cbn [records]. rewrite T1. eapply sublist_NoDup; [|apply keys_sql_delete]. apply H.
  - unfold db', set_records; cbn [changes drawn]. rewrite T2. intros c (c0 & Hc0 & <-)%L3. by apply (ok_drawn _ _ H).
  - intros id. rewrite R. change (changeOf db' id) with (changeOf db1 id). pose proof (ok_paired _ _ H id) as Hp.
    destruct (L4 id) as [(Hi & (x & -> & Hx) & _)|[Hi ->]].
    + destruct (rowOf db id) as [r|] eqn:Hr; [|done]. by rewrite (proj2 (Hl id r Hr) Hi).
    + destruct (rowOf db id) as [r|] eqn:Hr; [|done]. destruct (owned_conversation _ _ r) eqn:Ho; [|done].
      by apply (Hl id r Hr) in Ho.
  - done.
  - intros id. rewrite R. change (changeOf db' id) with (changeOf db1 id).
    destruct (L4 id) as [(Hi & _ & Hren)|[Hi ->]].
    { right. destruct (rowOf db id) as [r|] eqn:Hr; [|done]. by rewrite (proj2 (Hl id r Hr) Hi). }
    left. split; [|done].
    destruct (rowOf db id) as [r|] eqn:Hr; [|done]. destruct (owned_conversation _ _ r) eqn:Ho; [|done].
    by apply (Hl id r Hr) in Ho.
Qed.

Lemma start_ok i owns db : work_ok uuid db ->
  let db' := (start uuid i owns db).1 in work_ok uuid db' /\ evolves db db' /\ outbox db' = outbox db.
Proof using uuid_inj.
  intros H. unfold start, transaction. destruct owns; cbn [negb]; [|split_and!; [done|apply evolves_refl|done]].
  destruct (insertRow uuid (startRow i) db) as [[db1 row]|] eqn:E; [|split_and!; [done|apply evolves_refl|done]].
  by apply (insert_ok (startRow i) db db1 row).
Qed.

Lemma insertSegments_ok i now l db db' : work_ok uuid db -> insertSegments uuid i now l db = (db', Ok tt) ->
  work_ok uuid db' /\ evolves db db' /\ outbox db' = outbox db.
Proof using uuid_inj.
  revert db. induction l as [|s l IH]; intros db H E; cbn in E.
  { injection E as <-. split_and!; [done|apply evolves_refl|done]. }
  destruct (insertRow uuid (historyRow i now s) db) as [[db1 row]|] eqn:Ei; [|done].
  destruct (insert_ok (historyRow i now s) db db1 row) as (H1 & E1 & O1); [done..|].
  destruct (IH _ H1 E) as (H2 & E2 & O2). split_and!; [done|by eapply evolves_trans|congruence].
Qed.

Lemma import_ok i owns now segments db : work_ok uuid db ->
  let db' := (importHistory uuid i owns now segments db).1 in work_ok uuid db' /\ evolves db db' /\ outbox db' = outbox db.
Proof using uuid_inj.
  intros H. assert (work_ok uuid db /\ evolves db db /\ outbox db = outbox db) as Hsame
    by (split_and!; [done|apply evolves_refl|done]).
  unfold importHistory. destruct segments as [|s0 segments]; [done|].
  destruct (pendingSegments _ _) as [|s pending]; [done|]. unfold transaction.
  destruct owns; cbn [negb]; [|done].
  destruct (insertSegments uuid i now (s :: pending) db) as [db1 [[]|e]] eqn:E; [|done].
  by apply (insertSegments_ok i now (s :: pending)).
Qed.

Lemma backfill_ok dateParse f now sources db : work_ok uuid db ->
  let db' := (backfill uuid dateParse f now sources db).1 in work_ok uuid db' /\ evolves db db' /\ outbox db' = outbox db.
Proof using uuid_inj.
  revert db. induction sources as [|h sources IH]; intros db H; cbn.
  { split_and!; [done|apply evolves_refl|done]. }
  destruct (hs_employeeId h) as [e|]; [|by apply IH].
  destruct (String.eqb e "" || negb (for_employee f e)); [by apply IH|].
  pose proof (import_ok (mkImport (f_owner f) (hs_conversationId h) e) (hs_owned h) now
    (sourceSegments dateParse (hs_entries h)) db H) as Him.
  destruct (importHistory _ _ _ _ _ _) as [db1 [[]|err]]; cbn in *; [|done].
  destruct Him as (H1 & E1 & O1), (IH db1) as (H2 & E2 & O2); [done|].
  split_and!; [done|by eapply evolves_trans|congruence].
Qed.

(** [finish] either does nothing, or moves one active record on, adding its summary. *)
Lemma work_finish_cases id owner f summary now db : work_ok uuid db ->
  ((finish castReal castCents id owner f summary now db).1 = db /\
   (finish castReal castCents id owner f summary now db).2 <> Ok true) \/
  exists row, get db id owner = Some row /\ rowOf db id = Some row /\ w_outcome row = WActive /\
    (finish castReal castCents id owner f summary now db) =
      (let db1 := changeRow false row (set_records (sql_update (has_id id) (finish_set f)) db) in
       match summary with Some s => accumulateUsage castReal castCents s (wf_usage f ≫= wu_cost_total) now db1 | None => db1 end, Ok true).
Proof.
  intros H. unfold finish, transaction. destruct (get db id owner) as [row|] eqn:G; [|by left].
  destruct (is_active row) eqn:A; cbn [negb]; [|by left].
  destruct (match summary with Some s => mismatch s row | None => false end); [by left|].
  right. exists row. apply sql_get_Some in G as [Hr [Hid _]%andb_true_iff]. apply has_id_iff in Hid. subst id.
  split_and!; [done|apply rowOf_in; [apply H|done]|by apply bool_decide_eq_true in A|by destruct summary].
Qed.

Lemma outbox_irrelevant o db : work_ok uuid db ->
  work_ok uuid (mkWorkDb (records db) (record_seq db) (changes db) (change_seq db) o (drawn db)).
Proof. intros [[] ? ? ?]. split; [by split|done..]. Qed.

Lemma work_finish_ok id owner f summary now db : work_ok uuid db ->
  let db' := (finish castReal castCents id owner f summary now db).1 in work_ok uuid db' /\ evolves db db'.
Proof.
  intros H. destruct (work_finish_cases id owner f summary now db H) as [[E _]|(row & G & Hr & _ & ->)].
  { cbn. rewrite E. split; [done|apply evolves_refl]. }
  destruct (rowOf_elem _ _ _ Hr) as [_ Hid]. subst id.
  destruct (touch_ok (finish_set f) row row db H) as [H1 E1]; [done..|].
  destruct summary as [s|]; cbn [fst]; [|done].
  split; [exact (outbox_irrelevant _ _ H1)|exact E1].
Qed.

(** ** Runs *)

Inductive work_op : Type :=
| OpStart (i : WorkStart) (owns : bool)
| OpFinish (id : string) (owner : WorkOwner) (f : WorkFinish) (summary : option UsageSummary) (now : Z)
| OpImport (i : ImportInput) (owns : bool) (now : Z) (segments : list WorkHistorySegment)
| OpDelete (conversationId : string) (owner : WorkOwner)
| OpRestart (now : Z).

Definition apply_op (op : work_op) (db : WorkDb) : WorkDb :=
  match op with
  | OpStart i owns => (start uuid i owns db).1
  | OpFinish id owner f summary now => (finish castReal castCents id owner f summary now db).1
  | OpImport i owns now segments => (importHistory uuid i owns now segments db).1
  | OpDelete conversationId owner => deleteConversation conversationId owner db
  | OpRestart now => recover now db
  end.

Lemma apply_op_ok op db : work_ok uuid db -> work_ok uuid (apply_op op db) /\ evolves db (apply_op op db).
Proof using uuid_inj.
  intros H. destruct op; cbn.
  - destruct (start_ok i owns db H) as (? & ? & _). done.
  - by apply work_finish_ok.
  - destruct (import_ok i owns now segments db H) as (? & ? & _). done.
  - by apply work_delete_ok.
  - by apply recover_ok.
Qed.

Definition emptyDb : WorkDb := mkWorkDb [] 0 [] 0 [] 0.
Lemma emptyDb_ok : work_ok uuid emptyDb.
Proof. split; [split| | |]; cbn; try apply NoDup_nil_2; try done; intros c Hc; by apply not_elem_of_nil in Hc. Qed.

(** *** A client that follows the change feed *)

Definition apply_item (view : gmap string WorkRecordRow) (x : item) : gmap string WorkRecordRow :=
  match x with
  | IDelete id => delete id view
  | IUpsert id row => <[id := row]> view
  end.
Definition apply_items (view : gmap string WorkRecordRow) (l : list item) : gmap string WorkRecordRow :=
  fold_left apply_item l view.

Definition pending (db : WorkDb) (f : WorkFilter) (after : Z) (id : string) : Prop :=
  exists c, changeOf db id = Some c /\ change_in f c = true /\ after < ch_seq c.

(** The client's copy differs from the records only where the feed still has an entry for it. *)
Record replica_ok (db : WorkDb) (f : WorkFilter) (view : gmap string WorkRecordRow) (after : Z) : Prop := {
  rep_after : 0 <= after <= watermark db f;
  rep_view : forall id, pending db f after id \/ view !! id = visible db f id;
}.

Lemma watermark_spec db f : log_ok db ->
  0 <= watermark db f /\ (forall c, c ∈ changes db -> change_in f c = true -> ch_seq c <= watermark db f) /\
  (0 < watermark db f -> exists c, c ∈ changes db /\ change_in f c = true /\ ch_seq c = watermark db f).
Proof.
  intros _. unfold watermark, sql_select. induction (changes db) as [|c l (IH1 & IH2 & IH3)]; cbn.
  { split_and!; [lia| |lia]. intros c Hc. by apply not_elem_of_nil in Hc. }
  destruct (change_in f c) eqn:E; cbn; split_and!; try lia.
  - intros x [->|Hx]%elem_of_cons Hin; [lia|]. specialize (IH2 x Hx Hin). lia.
  - intros Hpos. destruct (Z.max_spec (ch_seq c) (foldr Z.max 0 (ch_seq <$> List.filter (change_in f) l))) as [[? ->]|[? ->]].
    + destruct IH3 as (x & ? & ? & ?); [lia|]. exists x. split_and!; [by right|done|done].
    + exists c. split_and!; [by left|done|done].
  - intros x [->|Hx]%elem_of_cons Hin; [congruence|]. auto.
  - intros Hpos. destruct IH3 as (x & ? & ? & ?); [done|]. exists x. split_and!; [by right|done|done].
Qed.

Lemma visible_in db f id r c : work_ok uuid db -> changeOf db id = Some c -> visible db f id = Some r ->
  change_in f c = true.
Proof.
  intros H Hc Hv. unfold visible in Hv. pose proof (ok_paired _ _ H id) as Hp. rewrite Hc in Hp.
  destruct (rowOf db id) as [r0|]; [|done]. destruct Hp as [_ [Ho He]].
  unfold change_in. rewrite <- Ho, <- He. by destruct (_ && _).
Qed.

Lemma evolves_pending db db' f after id : evolves db db' -> work_ok uuid db -> after <= change_seq db ->
  pending db f after id -> pending db' f after id.
Proof.
  intros [_ He] H Hle (c & Hc & Hin & Hlt). destruct (He id) as [[_ E]|(x & E & Hx & Hm)].
  - exists c. by rewrite E.
  - exists x. rewrite Hc in Hm. destruct Hm as (E1 & E2 & _). unfold change_in in *. rewrite E1, E2.
    split_and!; [done|done|lia].
Qed.

Lemma evolves_watermark db db' f : evolves db db' -> work_ok uuid db -> work_ok uuid db' ->
  watermark db f <= watermark db' f.
Proof.
  intros He H H'. destruct (watermark_spec db f) as (W1 & W2 & W3); [apply H|].
  destruct (watermark_spec db' f) as (W1' & W2' & _); [apply H'|].
  destruct (Z.eq_dec (watermark db f) 0) as [->|Hne]; [done|].
  destruct W3 as (c & Hc & Hin & <-); [lia|].
  pose proof (log_bound _ (ok_log _ _ H) c Hc) as Hb.
  destruct (evolves_pending db db' f (ch_seq c - 1) (ch_record_id c) He H) as (x & Hx & Hxin & Hlt); [lia| |].
  - exists c. split_and!; [by apply changeOf_in; [apply H|]|done|lia].
  - apply changeOf_elem in Hx as [Hx _]. specialize (W2' x Hx Hxin). lia.
Qed.

Lemma replica_evolves db db' f view after : evolves db db' -> work_ok uuid db -> work_ok uuid db' ->
  replica_ok db f view after -> replica_ok db' f view after.
Proof.
  intros He H H' [Ha Hv]. pose proof (evolves_watermark db db' f He H H') as Hw.
  assert (after <= change_seq db) as Hle.
  { destruct (watermark_spec db f) as (_ & _ & W3); [apply H|].
    pose proof (log_nonneg _ (ok_log _ _ H)). destruct (Z.eq_dec (watermark db f) 0); [lia|].
    destruct W3 as (c & Hc & _ & Hs); [lia|]. pose proof (log_bound _ (ok_log _ _ H) c Hc). lia. }
  split; [lia|]. intros id. destruct (Hv id) as [Hp|Heq]; [left; by eapply evolves_pending|].
  destruct (proj2 He id) as [[R C]|(x & E & Hx & Hm)].
  { right. unfold visible. by rewrite R. }
  destruct (change_in f x) eqn:Hin; [left; exists x; split_and!; [done|done|lia]|].
  right. rewrite Heq. transitivity (@None WorkRecordRow).
  - destruct (visible db f id) as [r|] eqn:Hr; [|done]. pose proof (ok_paired _ _ H id) as Hp.
    destruct (changeOf db id) as [c|] eqn:Hc.
    + apply (visible_in db f id r c H Hc) in Hr. destruct Hm as (E1 & E2 & _). unfold change_in in *.
      rewrite <- E1, <- E2, Hin in Hr. done.
    + unfold visible in Hr. by destruct (rowOf db id).
  - destruct (visible db' f id) as [r|] eqn:Hr; [|done].
    apply (visible_in db' f id r x H' E) in Hr. congruence.
Qed.

(** *** One page *)

Lemma sorted_take_drop {A} (le : A -> A -> Prop) n l a b :
  StronglySorted le l -> a ∈ take n l -> b ∈ drop n l -> le a b.
Proof.
  revert l. induction n as [|n IH]; intros [|x l] Hs Ha Hb; cbn in *; try by apply not_elem_of_nil in Ha.
  inversion Hs as [|? ? Hs' Hf]; subst. apply elem_of_cons in Ha as [->|Ha]; [|by eapply IH].
  rewrite Forall_forall in Hf. apply Hf. rewrite <- (take_drop n l). by apply elem_of_app; right.
Qed.

Lemma pageRows_spec db f after c :
  let rows := order_by by_seq (sql_select (fun c => change_in f c && (after <? ch_seq c)) (changes db)) in
  (c ∈ rows <-> c ∈ changes db /\ change_in f c = true /\ after < ch_seq c) /\
  StronglySorted (fun a b => by_seq a b = true) rows.
Proof.
  cbn. split.
  - rewrite elem_of_order_by, elem_of_sql_select, andb_true_iff, Z.ltb_lt. naive_solver.
  - apply order_by_sorted; unfold by_seq; intros; rewrite !Z.leb_le in *; lia.
Qed.

(** Every entry of a page can be delivered, as the record stands. *)
Lemma deliver_spec db f c : work_ok uuid db -> c ∈ changes db -> change_in f c = true ->
  exists x, deliver db f c = Ok x /\
    match x with
    | IDelete id => id = ch_record_id c /\ visible db f id = None
    | IUpsert id row => id = ch_record_id c /\ visible db f id = Some row
    end.
Proof.
  intros H Hc Hin. pose proof (changeOf_in db c (ok_log _ _ H) Hc) as Hg.
  pose proof (ok_paired _ _ H (ch_record_id c)) as Hp. rewrite Hg in Hp. unfold deliver, visible.
  destruct (rowOf db (ch_record_id c)) as [r|] eqn:Hr.
  - destruct Hp as [-> [Ho He]]. apply andb_true_iff in Hin as [Hio Hie]. apply bool_decide_eq_true in Hio.
    rewrite <- Ho in Hio. assert (get db (ch_record_id c) (f_owner f) = Some r) as ->.
    { apply rowOf_elem in Hr as [Hr Hid]. apply (sql_get_key w_id); [apply H|done| |].
      - unfold owned_id. rewrite (proj2 (has_id_iff _ _) Hid). by apply bool_decide_eq_true.
      - intros r' [Hid'%has_id_iff _]%andb_true_iff. congruence. }
    eexists. split; [done|]. split; [done|]. rewrite Hr, He, Hie, (bool_decide_eq_true_2 _ Hio). done.
  - rewrite Hp. eexists. split; [done|]. split; [done|]. by rewrite Hr.
Qed.

Definition item_ok (db : WorkDb) (f : WorkFilter) (x : item) : Prop :=
  match x with
  | IDelete id => visible db f id = None
  | IUpsert id row => visible db f id = Some row
  end.
Definition item_id (x : item) : string := match x with IDelete id => id | IUpsert id _ => id end.

Lemma apply_items_spec db f l view id : Forall (item_ok db f) l ->
  apply_items view l !! id = if bool_decide (id ∈ item_id <$> l) then visible db f id else view !! id.
Proof.
  revert view. induction l as [|x l IH]; intros view Hl; [done|].
  inversion Hl as [|? ? Hx Hl']; subst. change (apply_items view (x :: l)) with (apply_items (apply_item view x) l).
  rewrite IH by done. rewrite fmap_cons.
  case_bool_decide as H1; case_bool_decide as H2; try done.
  - destruct H2. by right.
  - apply elem_of_cons in H2 as [->|?]; [|done]. destruct x; cbn in *.
    + rewrite lookup_delete_eq. done.
    + rewrite lookup_insert_eq. done.
  - rewrite not_elem_of_cons in H2. destruct H2 as [H2 _]. destruct x; cbn in *.
    + by rewrite lookup_delete_ne.
    + by rewrite lookup_insert_ne.
Qed.

Lemma deliver_page db f page : work_ok uuid db ->
  (forall c, c ∈ page -> c ∈ changes db /\ change_in f c = true) ->
  exists data, mapM_result (deliver db f) page = Ok data /\ Forall (item_ok db f) data /\
    item_id <$> data = ch_record_id <$> page.
Proof.
  intros H. induction page as [|c page IH]; intros Hp; cbn; [by exists []|].
  destruct (deliver_spec db f c H) as (x & Ex & Hx); [by apply Hp; left..|].
  destruct IH as (data & Ed & Hd & Hi); [by intros c' ?; apply Hp; right|].
  exists (x :: data). rewrite Ex. cbn. rewrite Ed. split_and!; [done| |].
  - constructor; [|done]. by destruct x, Hx.
  - cbn. rewrite Hi. f_equal. by destruct x, Hx.
Qed.

(** The entries after [after], in order; the page and where the next one starts. *)
Definition feed (db : WorkDb) (f : WorkFilter) (after : Z) : list WorkChangeRow :=
  order_by by_seq (sql_select (fun c => change_in f c && (after <? ch_seq c)) (changes db)).

Lemma pending_feed db f after id : pending db f after id -> exists c, changeOf db id = Some c /\ c ∈ feed db f after.
Proof.
  intros (c & Hc & Hin & Hlt). exists c. split; [done|]. apply (pageRows_spec db f after c).
  apply changeOf_elem in Hc as [? _]. done.
Qed.

(** An entry that did not fit on the page comes after the page. *)
Lemma beyond_page db f after n z c : log_ok db -> z ∈ take n (feed db f after) ->
  c ∈ feed db f after -> ch_record_id c ∉ ch_record_id <$> take n (feed db f after) -> ch_seq z < ch_seq c.
Proof.
  intros Hl Hz Hc Hid. assert (c ∈ drop n (feed db f after)) as Hdrop.
  { rewrite <- (take_drop n (feed db f after)) in Hc. apply elem_of_app in Hc as [Ht|]; [|done].
    destruct Hid. by apply list_elem_of_fmap_2. }
  pose proof (sorted_take_drop _ n _ z c (proj2 (pageRows_spec db f after c)) Hz Hdrop) as Hle%Z.leb_le.
  assert (ch_seq z <> ch_seq c); [|lia]. intros Heq.
  apply (pageRows_spec db f after c) in Hc as (Hc & _).
  pose proof (proj1 (proj1 (pageRows_spec db f after z)) (elem_take _ _ _ Hz)) as (Hz1 & _).
  assert (z = c) as -> by (by apply (NoDup_key_eq ch_seq (changes db)); [apply Hl|..]).
  destruct Hid. by apply list_elem_of_fmap_2.
Qed.

Lemma page_replica db f view after n : (0 < n)%nat -> work_ok uuid db -> replica_ok db f view after ->
  let more := (n <? length (feed db f after))%nat in
  let page := take n (feed db f after) in
  let next := if more then nullish (ch_seq <$> last page) 0 else watermark db f in
  exists data, mapM_result (deliver db f) page = Ok data /\
    replica_ok db f (apply_items view data) next /\ (more = true -> after < next).
Proof.
  intros Hn H Hrep more page next. pose proof (rep_after _ _ _ _ Hrep) as Ha.
  pose proof (fun c => proj1 (pageRows_spec db f after c)) as Hrows. fold (feed db f after) in Hrows.
  destruct (deliver_page db f page H) as (data & Ed & Hd & Hi).
  { intros c Hc%elem_take. by apply Hrows in Hc as (? & ? & _). }
  exists data. split; [done|]. unfold next, more. clear next more.
  destruct (Nat.ltb_spec n (length (feed db f after))) as [Hmore|Hmore].
  - destruct (last page) as [z|] eqn:Hz.
    2: { apply last_None, (f_equal length) in Hz. unfold page in Hz. rewrite length_take in Hz. cbn in Hz. lia. }
    assert (z ∈ page) as Hzin by (by apply last_Some_elem_of).
    pose proof (proj1 (Hrows z) (elem_take _ _ _ Hzin)) as (Hz1 & Hz2 & Hz3). cbn.
    pose proof (proj1 (proj2 (watermark_spec db f (ok_log _ _ H))) z Hz1 Hz2).
    split; [|lia]. split; [lia|]. intros id. rewrite (apply_items_spec db f), Hi by done.
    case_bool_decide as Hid; [by right|].
    destruct (rep_view _ _ _ _ Hrep id) as [(c & Hc & Hcr)%pending_feed|?]; [left|by right].
    exists c. split_and!; [done|by apply Hrows in Hcr as (_ & ? & _)|].
    apply (beyond_page db f after n z c (ok_log _ _ H) Hzin Hcr).
    by apply changeOf_elem in Hc as [_ ->].
  - split; [|done]. split; [lia|]. intros id. right. rewrite (apply_items_spec db f), Hi by done.
    case_bool_decide as Hid; [done|].
    destruct (rep_view _ _ _ _ Hrep id) as [(c & Hc & Hcr)%pending_feed|?]; [|done].
    destruct Hid. apply changeOf_elem in Hc as [_ <-]. apply list_elem_of_fmap_2. unfold page.
    by rewrite take_ge by lia.
Qed.

Lemma page_ok dateParse db f view after n sources now db' res : (0 < n)%nat -> work_ok uuid db ->
  replica_ok db f view after ->
  changesPage uuid dateParse db f after n sources now = (db', res) ->
  work_ok uuid db' /\ evolves db db' /\
  match res with
  | Ok (items, more, next) =>
      replica_ok db' f (apply_items view items) next /\
      (more = true -> after < next) /\ (more = false -> next = watermark db' f)
  | Err e => exists e', e = ImportFailed e'
  end.
Proof using uuid_inj.
  intros Hn H Hrep Hpage. unfold changesPage in Hpage. pose proof (rep_after _ _ _ _ Hrep) as Ha.
  assert ((after <? 0) || (watermark db f <? after) = false) as Hcur by (apply orb_false_iff; rewrite !Z.ltb_ge; lia).
  rewrite Hcur in Hpage. pose proof (backfill_ok dateParse f now sources db H) as Hb.
  destruct (backfill uuid dateParse f now sources db) as [db1 [u|e]]; cbn [fst] in Hb; destruct Hb as (H1 & E1 & _).
  2: { injection Hpage as <- <-. eauto. }
  apply (replica_evolves db db1) in Hrep; [|done..].
  destruct (page_replica db1 f view after n Hn H1 Hrep) as (data & Ed & Hr & Hadv).
  unfold changesAfter in Hpage. fold (feed db1 f after) in Hpage. rewrite take_take, length_take in Hpage.
  replace (n `min` S n)%nat with n in Hpage by lia.
  assert ((n <? S n `min` length (feed db1 f after))%nat = (n <? length (feed db1 f after))%nat) as Emore
    by (apply eq_bool_prop_intro; rewrite !Is_true_true, !Nat.ltb_lt; lia).
  rewrite Emore, Ed in Hpage. cbn in Hpage. injection Hpage as <- <-. split; [done|]. split; [done|].
  split_and!; [done|done|]. by intros ->.
Qed.

(** *** Histories of a store and one polling client *)

Record client : Type := mkClient { cl_db : WorkDb; cl_view : gmap string WorkRecordRow; cl_after : Z }.
Inductive event : Type :=
| EvOp (op : work_op)
| EvPoll (limit : nat) (sources : list HistorySource) (now : Z).

Definition run_event (dateParse : string -> option Z) (f : WorkFilter) (c : client) (e : event) : client :=
  match e with
  | EvOp op => mkClient (apply_op op (cl_db c)) (cl_view c) (cl_after c)
  | EvPoll limit sources now =>
      match changesPage uuid dateParse (cl_db c) f (cl_after c) (S limit) sources now with
      | (db, Ok (items, _, next)) => mkClient db (apply_items (cl_view c) items) next
      | (db, Err _) => mkClient db (cl_view c) (cl_after c)
      end
  end.
Definition run_events (dateParse : string -> option Z) (f : WorkFilter) (l : list event) : client :=
  fold_left (run_event dateParse f) l (mkClient emptyDb ∅ 0).

Lemma run_events_ok dateParse f l :
  let c := run_events dateParse f l in work_ok uuid (cl_db c) /\ replica_ok (cl_db c) f (cl_view c) (cl_after c).
Proof using uuid_inj.
  cbn. induction l as [|e l IH] using rev_ind.
  { split; [apply emptyDb_ok|]. split; [cbn; lia|]. intros id. right. exact (lookup_empty id). }
  destruct IH as [H Hr]. unfold run_events in *. rewrite fold_left_app. cbn.
  set (c := fold_left _ l _) in *. destruct e as [op|limit sources now]; cbn.
  - destruct (apply_op_ok op (cl_db c) H) as [H' E]. split; [done|]. by eapply replica_evolves.
  - destruct (changesPage _ _ _ _ _ _ _ _) as [db' res] eqn:Hp.
    apply (page_ok dateParse _ _ (cl_view c)) in Hp as (H' & E & Hres); [|lia|done..].
    destruct res as [[[items more] next]|err]; cbn; [by split; [|apply Hres]|].
    split; [done|]. by eapply replica_evolves.
Qed.
End Steps.

(** C4. Polling the change feed converges: take any history of starts, completions,
    history imports, conversation deletions and restarts, in which a client polls now and
    then with any page sizes and applies what it gets.  Whenever a poll reports no further
    page, the client's copy is exactly the records it may see; while there are further
    pages its cursor advances; its cursor is never refused, and no entry of a page ever
    points to a missing record. *)
Theorem polling_converges (castReal : string -> usd_value) (castCents : string -> Z) (uuid : nat -> string)
    (dateParse : string -> option Z) (f : WorkFilter) (l : list event)
    (limit : nat) (sources : list HistorySource) (now : Z) :
  Inj (=) (=) uuid -> (0 < limit)%nat ->
  let c := run_events castReal castCents uuid dateParse f l in
  let (db, res) := changesPage uuid dateParse (cl_db c) f (cl_after c) limit sources now in
  match res with
  | Ok (items, more, next) =>
      (more = false -> forall id, apply_items (cl_view c) items !! id = visible db f id) /\
      (more = true -> cl_after c < next)
  | Err e => exists e', e = ImportFailed e'
  end.
Proof.
  intros Hinj Hn c. destruct (changesPage _ _ _ _ _ _ _ _) as [db res] eqn:Hp.
  destruct (run_events_ok castReal castCents uuid Hinj dateParse f l) as [H Hr]; fold c in H, Hr.
  apply (page_ok uuid Hinj dateParse _ _ (cl_view c)) in Hp as (H' & _ & Hres); [|done..].
  destruct res as [[[items more] next]|]; [|done]. destruct Hres as (Hrep & Hadv & Hlast). split; [|done].
  intros ->. rewrite Hlast in Hrep by done. intros id.
  destruct (rep_view _ _ _ _ Hrep id) as [(x & Hx & Hin & Hlt)|?]; [|done].
  apply changeOf_elem in Hx as [Hx _].
  pose proof (proj1 (proj2 (watermark_spec db f (ok_log _ _ H'))) x Hx Hin). lia.
Qed.

(** ** Usage is counted once *)

Section Once.
Context (castReal : string -> usd_value) (castCents : string -> Z) (uuid : nat -> string).
Context (uuid_inj : Inj (=) (=) uuid).

(** What each completion contributed: the record, the summary, the exact cost, the time. *)
Definition contribution : Type := string * UsageSummary * option string * Z.
Definition contribute (rows : list OutboxRow) (x : contribution) : list OutboxRow :=
  match x with (_, s, cost, now) => upsertUsageSummary castReal castCents rows s cost now end.

Definition log_op (op : work_op) (db : WorkDb) : list contribution :=
  match op with
  | OpFinish id owner f (Some s) now =>
      match (finish castReal castCents id owner f (Some s) now db).2 with
      | Ok true => [(id, s, wf_usage f ≫= wu_cost_total, now)]
      | _ => []
      end
  | _ => []
  end.
Fixpoint run_logged (l : list work_op) (db : WorkDb) (log : list contribution) : WorkDb * list contribution :=
  match l with
  | [] => (db, log)
  | op :: l => run_logged l (apply_op castReal castCents uuid op db) (log ++ log_op op db)
  end.

(** A record that is not active, or gone, never becomes active again. *)
Definition settled (db : WorkDb) (id : string) : Prop :=
  (exists c, changeOf db id = Some c) /\ forall r, rowOf db id = Some r -> w_outcome r <> WActive.

Definition contributor (x : contribution) : string := x.1.1.1.

Lemma settled_mono db db' id : evolves db db' -> settled db id -> settled db' id.
Proof.
  intros [_ He] [[c Hc] Hr]. destruct (He id) as [[R C]|(x & E & _ & Hm)].
  - unfold settled. rewrite R, C. eauto.
  - rewrite Hc in Hm. split; [eauto|apply Hm].
Qed.

Lemma recover_outbox now db : outbox (recover now db) = outbox db.
Proof.
  unfold recover. generalize (sql_select is_active (records db)) as l. intros l. revert db.
  induction l as [|row l IH]; intros db; cbn [fold_left]; [done|]. by rewrite IH.
Qed.

(** One operation adds to the ledger at most once, for a record that was active. *)
Lemma apply_op_once op db : work_ok uuid db ->
  let db' := apply_op castReal castCents uuid op db in
  (log_op op db = [] /\ outbox db' = outbox db) \/
  exists x, log_op op db = [x] /\ outbox db' = contribute (outbox db) x /\
    ~ settled db (contributor x) /\ settled db' (contributor x).
Proof using uuid_inj.
  intros H. destruct op as [i owns|id owner f summary now|i owns now segs|cid owner|now]; cbn [apply_op].
  - left. split; [done|]. apply (start_ok uuid uuid_inj i owns db H).
  - destruct (work_finish_cases castReal castCents uuid id owner f summary now db H) as [[E1 E2]|(row & G & Hr & Ha & E)].
    { left. rewrite E1. split; [|done]. unfold log_op. destruct summary as [s|]; [|done].
      by destruct (finish castReal castCents id owner f (Some s) now db).2 as [[]|]. }
    destruct (work_finish_ok castReal castCents uuid id owner f summary now db H) as [H' _].
    rewrite E in H' |- *. unfold log_op. destruct summary as [s|]; [|by left]. right. rewrite E.
    eexists. split; [done|]. split; [done|]. cbn [contributor fst]. split.
    + intros [_ Hs]. by apply (Hs row).
    + assert (forall id', rowOf (apply_op castReal castCents uuid (OpFinish id owner f (Some s) now) db) id' =
        if String.eqb id id' then finish_set f <$> rowOf db id' else rowOf db id') as R.
      { intros id'. cbn [apply_op]. rewrite E. cbn [fst]. by apply (rowOf_update id (finish_set f) db id'). }
      cbn [apply_op] in R. rewrite E in R. cbn [fst] in R, H' |- *. split.
      * pose proof (ok_paired _ _ H' id) as Hp. rewrite R, String.eqb_refl, Hr in Hp. cbn [fmap option_fmap option_map] in Hp.
        destruct (changeOf _ id) eqn:Hc in Hp; [|done]. eexists. exact Hc.
      * intros r Hr'. rewrite R, String.eqb_refl, Hr in Hr'. by injection Hr' as <-.
  - left. split; [done|]. apply (import_ok uuid uuid_inj i owns now segs db H).
  - left. split; [done|]. unfold deleteConversation. cbn [set_records outbox]. by apply fold_changeRow_tables.
  - left. split; [done|]. apply recover_outbox.
Qed.

Lemma run_logged_ok l db log : work_ok uuid db ->
  NoDup (contributor <$> log) -> (forall x, x ∈ log -> settled db (contributor x)) ->
  outbox db = fold_left contribute log [] ->
  let (db', log') := run_logged l db log in
  NoDup (contributor <$> log') /\ outbox db' = fold_left contribute log' [].
Proof using uuid_inj.
  revert db log. induction l as [|op l IH]; intros db log H Hd Hs Ho; cbn [run_logged]; [done|].
  destruct (apply_op_ok castReal castCents uuid uuid_inj op db H) as [H' E].
  apply IH; [done|..]; destruct (apply_op_once op db H) as [[-> Eo]|(x & -> & Eo & Hn & Hx)];
    rewrite ?app_nil_r, ?fold_left_app; cbn; try done.
  - rewrite fmap_app. apply NoDup_app. split_and!; [done| |apply NoDup_singleton].
    intros y (x' & -> & Hx')%list_elem_of_fmap Hy. cbn in Hy. apply list_elem_of_singleton in Hy.
    apply Hn. rewrite <- Hy. by apply Hs.
  - intros x' Hx'. eapply settled_mono; [done|]. by apply Hs.
  - intros x' [Hx'|Hx']%elem_of_app; [eapply settled_mono; [done|by apply Hs]|].
    by apply list_elem_of_singleton in Hx' as ->.
  - congruence.
  - by rewrite Eo, Ho.
Qed.
End Once.

(** A work record adds to the usage ledger at most once: over any history of starts,
    completions (however often repeated, and whoever asks), imports, deletions and
    restarts, no record contributes twice, and the ledger is exactly what these
    contributions, in order, add up to. *)
Theorem work_usage_counted_once (castReal : string -> usd_value) (castCents : string -> Z) (uuid : nat -> string)
    (l : list work_op) :
  Inj (=) (=) uuid ->
  let (db, log) := run_logged castReal castCents uuid l emptyDb [] in
  NoDup (contributor <$> log) /\ outbox db = fold_left (contribute castReal castCents) log [].
Proof.
  intros Hinj. apply (run_logged_ok castReal castCents uuid Hinj); try done.
  - apply emptyDb_ok.
  - apply NoDup_nil_2.
  - intros x Hx. by apply not_elem_of_nil in Hx.
Qed.

(** ** What an import adds *)

(** A segment is missing when no live record's interval contains its start, no history
    record and no earlier missing segment begins with the same entry. *)
Definition covers (starts : list Z) (at_ : Z) (r : WorkRecordRow) : bool :=
  (w_start_ordinal r <=? at_) && Zlt_num at_ (liveEnd starts r).
Fixpoint missing (starts : list Z) (live : list WorkRecordRow) (anchors : list (option string))
    (segments : list WorkHistorySegment) : list WorkHistorySegment :=
  match segments with
  | [] => []
  | s :: segments =>
      if bool_decide (Some (sg_firstEntryId s) ∈ anchors) || existsb (covers starts (sg_startOrdinal s)) live
      then missing starts live anchors segments
      else s :: missing starts live (Some (sg_firstEntryId s) :: anchors) segments
  end.
Definition missingSegments (rows : list WorkRecordRow) (segments : list WorkHistorySegment) : list WorkHistorySegment :=
  missing (liveStarts rows) (liveRows rows) (historyAnchors rows) (order_by seg_by_start segments).

Lemma Zlt_num_max z a b : a <> NaN -> b <> NaN ->
  Zlt_num z (num_max a b) = Zlt_num z a || Zlt_num z b /\ num_max a b <> NaN.
Proof.
  destruct a as [x| | |], b as [y| | |]; cbn; try done; intros _ _; split; try done; try by rewrite orb_true_r.
  - destruct (Z.ltb_spec z (Z.max x y)), (Z.ltb_spec z x), (Z.ltb_spec z y); cbn; (done || lia).
  - by rewrite orb_false_r.
Qed.

Lemma advance_spec starts live at_ covered live' covered' :
  (forall r, r ∈ live -> liveEnd starts r <> NaN) -> covered <> NaN ->
  StronglySorted (fun a b => by_start a b = true) live ->
  advance starts live at_ covered = (live', covered') ->
  exists passed, live = passed ++ live' /\ covered' <> NaN /\
    (forall r, r ∈ passed -> w_start_ordinal r <= at_) /\ (forall r, r ∈ live' -> at_ < w_start_ordinal r) /\
    forall z, Zlt_num z covered' = Zlt_num z covered || existsb (fun r => Zlt_num z (liveEnd starts r)) passed.
Proof.
  revert covered. induction live as [|r live IH]; intros covered Hn Hc Hs E; cbn in E.
  { injection E as <- <-. exists []. split_and!; [done|done| | |]; intros x; try (by intros ?%not_elem_of_nil).
    by rewrite orb_false_r. }
  inversion Hs as [|? ? Hs' Hf]; subst. destruct (Z.leb_spec (w_start_ordinal r) at_) as [Hle|Hgt].
  - destruct (Zlt_num_max 0 covered (liveEnd starts r)) as [_ Hmax]; [done|by apply Hn; left|].
    destruct (IH _ (fun x Hx => Hn x (list_elem_of_further _ _ _ Hx)) Hmax Hs' E) as (passed & -> & P1 & P2 & P3 & P4).
    exists (r :: passed). split_and!; [done|done| |done|].
    + intros x [->|Hx]%elem_of_cons; auto.
    + intros z. rewrite P4. cbn. destruct (Zlt_num_max z covered (liveEnd starts r)) as [-> _]; [done|by apply Hn; left|].
      by rewrite orb_assoc.
  - injection E as <- <-. exists []. split_and!; [done|done| | |]; [by intros x ?%not_elem_of_nil| |].
    + intros x [->|Hx]%elem_of_cons; [done|]. rewrite Forall_forall in Hf. specialize (Hf x Hx).
      apply Z.leb_le in Hf. lia.
    + intros z. by rewrite orb_false_r.
Qed.

(** The one-pass sweep over the sorted intervals finds exactly the missing segments. *)
Lemma sweep_missing starts passed live covered anchors segments :
  (forall r, r ∈ passed ++ live -> liveEnd starts r <> NaN) -> covered <> NaN ->
  StronglySorted (fun a b => by_start a b = true) live ->
  StronglySorted (fun a b => seg_by_start a b = true) segments ->
  (forall r s, r ∈ passed -> s ∈ segments -> w_start_ordinal r <= sg_startOrdinal s) ->
  (forall z, Zlt_num z covered = existsb (fun r => Zlt_num z (liveEnd starts r)) passed) ->
  sweep starts live covered anchors segments = missing starts (passed ++ live) anchors segments.
Proof.
  revert passed live covered anchors. induction segments as [|s segments IH]; intros passed live covered anchors Hn Hc Hs Hseg Hp Hcov;
    [done|]. cbn [sweep missing]. inversion Hseg as [|? ? Hseg' Hle]; subst.
  destruct (advance starts live (sg_startOrdinal s) covered) as [live' covered'] eqn:E.
  apply advance_spec in E as (more & -> & Hc' & Hmore & Hrest & Hcov'); [|set_solver|done..].
  assert (existsb (covers starts (sg_startOrdinal s)) (passed ++ more ++ live') = Zlt_num (sg_startOrdinal s) covered') as Hcover.
  { rewrite Hcov', Hcov, !existsb_app.
    assert (forall l, (forall r, r ∈ l -> w_start_ordinal r <= sg_startOrdinal s) ->
      existsb (covers starts (sg_startOrdinal s)) l = existsb (fun r => Zlt_num (sg_startOrdinal s) (liveEnd starts r)) l) as Hall.
    { induction l as [|r l IHl]; cbn; intros Hl; [done|]. rewrite IHl by (intros; apply Hl; by right).
      unfold covers. by rewrite (proj2 (Z.leb_le _ _) (Hl r (list_elem_of_here _ _))). }
    rewrite (Hall passed) by (intros; apply Hp; [done|by left]). rewrite (Hall more) by done.
    assert (existsb (covers starts (sg_startOrdinal s)) live' = false) as ->; [|by rewrite orb_false_r].
    clear -Hrest. induction live' as [|r l IHl]; cbn; [done|]. rewrite IHl by (intros; apply Hrest; by right).
    unfold covers. rewrite (proj2 (Z.leb_gt _ _)); [done|]. apply Hrest. by left. }
  rewrite Hcover.
  assert (StronglySorted (fun a b => by_start a b = true) live') as Hs'.
  { clear -Hs. induction more as [|x more IHm]; [done|]. inversion Hs; subst. auto. }
  rewrite app_assoc in *. assert (forall r s', r ∈ passed ++ more -> s' ∈ segments -> w_start_ordinal r <= sg_startOrdinal s') as Hp'.
  { intros r s' [Hr|Hr]%elem_of_app Hs2; [apply Hp; [done|by right]|]. rewrite Forall_forall in Hle.
    specialize (Hle s' Hs2). apply Z.leb_le in Hle. specialize (Hmore r Hr). lia. }
  assert (forall z, Zlt_num z covered' = existsb (fun r => Zlt_num z (liveEnd starts r)) (passed ++ more)) as Hcov2
    by (intros z; by rewrite Hcov', Hcov, existsb_app).
  destruct (bool_decide _ || _); [|f_equal]; by apply IH.
Qed.

Lemma distinct_keeps seen l x : x ∈ l -> x ∈ seen \/ x ∈ distinct seen l.
Proof.
  revert seen. induction l as [|y l IH]; intros seen; [by intros ?%not_elem_of_nil|].
  intros [->|Hx]%elem_of_cons; cbn; case_bool_decide; [by left|right; left|by apply IH|].
  destruct (IH (y :: seen) Hx) as [[->|?]%elem_of_cons|?]; [right; left|by left|right; by right].
Qed.

Lemma nextStart_found l x : x ∈ l -> nextStart l x <> NaN.
Proof.
  induction l as [|y l IH]; [by intros ?%not_elem_of_nil|]. cbn.
  destruct (Z.eqb_spec y x); [by destruct l|]. intros [->|Hx]%elem_of_cons; auto.
Qed.

Lemma liveEnd_number rows r : r ∈ liveRows rows -> liveEnd (liveStarts rows) r <> NaN.
Proof.
  intros Hr. unfold liveEnd. destruct (w_end_ordinal r); [done|]. apply nextStart_found.
  destruct (distinct_keeps [] (w_start_ordinal <$> liveRows rows) (w_start_ordinal r)) as [?%not_elem_of_nil|?];
    [by apply list_elem_of_fmap_2|done..].
Qed.

Lemma by_start_total a b : by_start a b = true \/ by_start b a = true.
Proof. unfold by_start. rewrite !Z.leb_le. lia. Qed.
Lemma by_start_trans a b c : by_start a b = true -> by_start b c = true -> by_start a c = true.
Proof. unfold by_start. rewrite !Z.leb_le. lia. Qed.

(** The live records of an import, sorted. *)
Lemma liveRows_import db i : liveRows (importRows db i) = order_by by_start
  (liveRows (sql_select (fun r => owned_conversation (im_conversationId i) (im_owner i) r
    && String.eqb (w_employee_id r) (im_employeeId i)) (records db))).
Proof. apply filter_order_by; [apply by_start_total|apply by_start_trans]. Qed.

Lemma pending_missing db i segments :
  pendingSegments (importRows db i) segments = missingSegments (importRows db i) segments.
Proof.
  unfold pendingSegments, missingSegments. apply (sweep_missing _ [] _ _ _).
  - intros r Hr. by apply liveEnd_number.
  - done.
  - rewrite liveRows_import. apply order_by_sorted; [apply by_start_total|apply by_start_trans].
  - apply order_by_sorted; unfold seg_by_start; intros; rewrite !Z.leb_le in *; lia.
  - intros r s Hr. by apply not_elem_of_nil in Hr.
  - done.
Qed.

Lemma missing_explains starts live anchors segments s : s ∈ segments ->
  existsb (covers starts (sg_startOrdinal s)) live = true \/ Some (sg_firstEntryId s) ∈ anchors \/
  sg_firstEntryId s ∈ sg_firstEntryId <$> missing starts live anchors segments.
Proof.
  revert anchors. induction segments as [|x segments IH]; intros anchors; [by intros ?%not_elem_of_nil|].
  intros [->|Hs]%elem_of_cons; cbn [missing].
  - destruct (existsb _ live); [by left|]. case_bool_decide; [by right; left|]. right; right. cbn. by left.
  - destruct (bool_decide _ || _) eqn:E; [by apply IH|].
    destruct (IH (Some (sg_firstEntryId x) :: anchors) Hs) as [?|[Ha|?]]; [by left| |right; right; cbn; by right].
    apply elem_of_cons in Ha as [[= ->]|?]; [|by right; left]. right; right. cbn. by left.
Qed.

Lemma missing_nothing starts live anchors segments :
  (forall s, s ∈ segments -> existsb (covers starts (sg_startOrdinal s)) live = true \/ Some (sg_firstEntryId s) ∈ anchors) ->
  missing starts live anchors segments = [].
Proof.
  induction segments as [|s segments IH]; intros H; cbn; [done|].
  assert (bool_decide (Some (sg_firstEntryId s) ∈ anchors) || existsb (covers starts (sg_startOrdinal s)) live = true) as ->.
  { apply orb_true_iff. destruct (H s) as [?|?]; [by left|by right|left; by apply bool_decide_eq_true]. }
  apply IH. intros; apply H; by right.
Qed.

(** The row an import writes for a segment. *)
Definition imported (i : ImportInput) (now : Z) (s : WorkHistorySegment) (r : WorkRecordRow) : Prop :=
  r = historyRow i now s (w_created_seq r) (w_id r).

Lemma insertSegments_rows uuid i now l db db' : insertSegments uuid i now l db = (db', Ok tt) ->
  exists new, records db' = records db ++ new /\ Forall2 (imported i now) l new.
Proof.
  revert db. induction l as [|s l IH]; intros db E; cbn in E.
  { injection E as <-. exists []. by rewrite app_nil_r. }
  destruct (insertRow uuid (historyRow i now s) db) as [[db1 row]|] eqn:Ei; [|done].
  unfold insertRow, sql_insert in Ei. destruct (existsb _ _); [done|]. injection Ei as <- <-.
  apply IH in E as (new & En & Hn). exists (historyRow i now s (record_seq db + 1) (uuid (drawn db)) :: new).
  cbn in En. rewrite En, <- app_assoc. split; [done|]. by constructor.
Qed.

Lemma import_rows uuid i owns now segments db db' : importHistory uuid i owns now segments db = (db', Ok tt) ->
  exists new, records db' = records db ++ new /\ Forall2 (imported i now) (missingSegments (importRows db i) segments) new.
Proof.
  unfold importHistory. destruct segments as [|s segments].
  { intros [= <-]. exists []. rewrite app_nil_r. split; [done|]. constructor. }
  rewrite pending_missing. destruct (missingSegments _ _) as [|p pending].
  { intros [= <-]. exists []. by rewrite app_nil_r. }
  unfold transaction. destruct owns; cbn [negb]; [|done].
  destruct (insertSegments uuid i now (p :: pending) db) as [db1 [[]|e]] eqn:E; [|done].
  intros [= <-]. by apply insertSegments_rows in E.
Qed.

(** Importing history is exact and idempotent: an import that succeeds adds, in order,
    exactly the segments that no live record covers and no history record anchors (the
    one-pass sweep over intervals agrees with this description), and importing the same
    segments again changes nothing. *)
Theorem history_import_is_exact (uuid : nat -> string) (i : ImportInput) (owns : bool) (now : Z)
    (segments : list WorkHistorySegment) (db db' : WorkDb) :
  importHistory uuid i owns now segments db = (db', Ok tt) ->
  (exists new, records db' = records db ++ new /\
     Forall2 (imported i now) (missingSegments (importRows db i) segments) new) /\
  forall owns' now', importHistory uuid i owns' now' segments db' = (db', Ok tt).
Proof.
  intros E. apply import_rows in E as (new & En & Hn). split; [eauto|]. intros owns' now'.
  assert (pendingSegments (importRows db' i) segments = []) as Hnone.
  2: { unfold importHistory. rewrite Hnone. by destruct segments. }
  rewrite pending_missing. unfold missingSegments.
  assert (liveRows (importRows db' i) = liveRows (importRows db i)) as Hlive.
  { rewrite !liveRows_import, En. unfold sql_select, liveRows. rewrite !List.filter_app.
    replace (List.filter _ (List.filter _ new)) with (@nil WorkRecordRow); [by rewrite app_nil_r|].
    clear -Hn. induction Hn as [|s r l new Hr _ IH]; cbn; [done|]. destruct (_ && _); [|done]. cbn. rewrite Hr. done. }
  unfold liveStarts. rewrite Hlive. apply missing_nothing. intros s Hs.
  destruct (missing_explains (liveStarts (importRows db i)) (liveRows (importRows db i)) (historyAnchors (importRows db i))
    _ s Hs) as [?|[Ha|Ha]]; [by left|right..].
  - unfold historyAnchors in *. apply list_elem_of_fmap in Ha as (r & Er & Hr). rewrite Er. apply list_elem_of_fmap_2.
    apply list_elem_of_In, filter_In in Hr as [Hr Hh]. apply list_elem_of_In, filter_In. split; [|done].
    apply list_elem_of_In, elem_of_order_by, elem_of_sql_select. apply list_elem_of_In, elem_of_order_by, elem_of_sql_select in Hr as [Hr Hp].
    rewrite En. split; [by apply elem_of_app; left|done].
  - apply list_elem_of_fmap in Ha as (s' & Es & Hs'). fold (missingSegments (importRows db i) segments) in Hs'.
    apply list_elem_of_lookup in Hs' as (k & Hk). eapply Forall2_lookup_l in Hn as (r & Hr & Hi); [|exact Hk].
    unfold imported in Hi. apply list_elem_of_fmap. exists r. split; [by rewrite Hi, Es|].
    apply list_elem_of_In, filter_In. split; [|by rewrite Hi].
    apply list_elem_of_In, elem_of_order_by, elem_of_sql_select. rewrite En. split.
    + apply elem_of_app. right. by eapply list_elem_of_lookup_2.
    + rewrite Hi. unfold owned_conversation. cbn. rewrite !String.eqb_refl. by rewrite bool_decide_eq_true_2.
Qed.

(** ** Reading the whole history page by page *)

(** A reader of [history] (services/work-records.ts): one row more than the page tells
    whether to go on, from the key of the page's last row. *)
Fixpoint historyPages (fuel n : nat) (db : WorkDb) (f : WorkFilter) (boundary : option (Z * Z)) : list WorkRecordRow :=
  match fuel with
  | O => []
  | S fuel =>
      let rows := history db f (S n) boundary in
      let page := take n rows in
      if (n <? length rows)%nat then page ++ historyPages fuel n db f (historyKey <$> last page) else page
  end.

Definition newestFirst (a b : WorkRecordRow) : bool := negb (newer b a).

Lemma pair_lt_spec a b : pair_lt a b = true <-> a.1 < b.1 \/ (a.1 = b.1 /\ a.2 < b.2).
Proof. unfold pair_lt. rewrite orb_true_iff, andb_true_iff, !Z.ltb_lt, Z.eqb_eq. done. Qed.

Lemma newestFirst_spec a b : newestFirst a b = true <->
  ~ ((historyKey a).1 < (historyKey b).1 \/ ((historyKey a).1 = (historyKey b).1 /\ (historyKey a).2 < (historyKey b).2)).
Proof. unfold newestFirst, newer. by rewrite negb_true_iff, <- not_true_iff_false, pair_lt_spec. Qed.

Lemma newestFirst_total a b : newestFirst a b = true \/ newestFirst b a = true.
Proof. rewrite !newestFirst_spec. lia. Qed.
Lemma newestFirst_trans a b c : newestFirst a b = true -> newestFirst b c = true -> newestFirst a c = true.
Proof. rewrite !newestFirst_spec. lia. Qed.

Definition fullHistory (db : WorkDb) (f : WorkFilter) : list WorkRecordRow :=
  order_by newestFirst (sql_select (in_filter f) (records db)).

Lemma history_after db f n b :
  history db f n (historyKey <$> b) = take n (after_key newer b (fullHistory db f)).
Proof.
  unfold history, fullHistory. f_equal. fold newestFirst. destruct b as [b|]; cbn [fmap option_fmap option_map after_key].
  - rewrite (filter_order_by newestFirst) by (apply newestFirst_total || apply newestFirst_trans). f_equal.
    unfold sql_select. induction (records db) as [|r l IH]; cbn; [done|].
    destruct (in_filter f r); cbn; [|done]. change (newer b r) with (pair_lt (historyKey r) (historyKey b)).
    destruct (pair_lt _ _); [by f_equal|done].
  - f_equal. unfold sql_select. induction (records db) as [|r l IH]; cbn; [done|].
    destruct (in_filter f r); cbn; [by f_equal|done].
Qed.

Lemma strictly_sorted l : NoDup (w_created_seq <$> l) -> StronglySorted (fun a b => newestFirst a b = true) l ->
  StronglySorted (fun a b => newer a b = true) l.
Proof.
  intros Hd Hs. induction Hs as [|x l Hs IH Hx]; [constructor|]. inversion Hd as [|? ? Hn Hd']; subst.
  constructor; [by apply IH|]. rewrite Forall_forall in *. intros y Hy. specialize (Hx y Hy).
  rewrite newestFirst_spec in Hx. unfold newer. rewrite pair_lt_spec.
  assert (w_created_seq x <> w_created_seq y); [|cbn in *; lia].
  intros E. apply Hn. rewrite E. by apply list_elem_of_fmap_2.
Qed.

(** Paging through the history misses nothing and repeats nothing: with created
    numbers unique, following the cursors of [history] pages of any positive size returns
    exactly the records the filter selects, newest first, records without a time last. *)
Theorem history_pages_complete (db : WorkDb) (f : WorkFilter) (n : nat) :
  (0 < n)%nat -> NoDup (w_created_seq <$> records db) ->
  historyPages (S (length (records db))) n db f None = fullHistory db f /\
  fullHistory db f ≡ₚ sql_select (in_filter f) (records db).
Proof.
  intros Hn Hd. split; [|apply order_by_perm].
  assert (forall fuel b, historyPages fuel n db f (historyKey <$> b) = all_pages newer fuel n b (fullHistory db f)) as Hp.
  { induction fuel as [|fuel IH]; intros b; cbn [historyPages all_pages]; [done|]. rewrite history_after.
    by destruct (_ <? _)%nat; rewrite ?IH. }
  rewrite (Hp _ None : historyPages _ n db f None = _). apply all_pages_spec; [| |done| |].
  - intros a. unfold newer. apply not_true_iff_false. rewrite pair_lt_spec. lia.
  - intros a b c. unfold newer. rewrite !pair_lt_spec. lia.
  - apply strictly_sorted; [|apply order_by_sorted; [apply newestFirst_total|apply newestFirst_trans]].
    unfold fullHistory. rewrite order_by_perm. eapply sublist_NoDup; [exact Hd|].
    unfold sql_select. induction (records db) as [|r l IH]; cbn; [constructor|].
    inversion Hd; subst. destruct (in_filter f r); cbn; constructor; auto.
  - unfold fullHistory. rewrite order_by_perm. unfold sql_select.
    pose proof (List.filter_length_le (in_filter f) (records db)). lia.
Qed.

(** ** Concrete runs *)

Definition demoUuid (n : nat) : string := pretty n.
Definition demoReal (_ : string) : usd_value := UsdOther.
Definition demoOwner : WorkOwner := mkOwner "t" "m".
Definition demoFilter : WorkFilter := mkFilter demoOwner None None None.
Definition demoEntries : list HistoryEntry :=
  [mkEntry "e0" (Some RUser) None (TNumber (Fin 5)); mkEntry "e1" (Some RAssistant) (Some "stop") (TNumber (Fin 6));
   mkEntry "e2" (Some RUser) None TNone; mkEntry "e3" (Some RAssistant) (Some "error") TNone].
Definition demoSource : HistorySource := mkSource "c" true (Some "x") demoEntries.
Definition demoSummary : UsageSummary := mkSummary "s" "t" "m" "x" 0 3600000 1 1 0 10 2 0 None 100 None false 1 12 None 1.
Definition demoFinish : WorkFinish := mkFinish WSucceeded 20 6 (Some "e4") (Some "e5") None None None.
Definition demoOps : list work_op :=
  [OpStart (mkStart demoOwner None "c" "x" 10 4) true; OpFinish "0" demoOwner demoFinish (Some demoSummary) 20;
   OpFinish "0" demoOwner demoFinish (Some demoSummary) 21; OpRestart 30].
Definition demoEvents : list event := (EvOp <$> demoOps) ++ [EvPoll 0 [] 40].

(** The second poll imports two segments and delivers them. *)
Definition demoClient : client := run_events demoReal (fun _ => 0) demoUuid (fun _ => None) demoFilter demoEvents.
Definition demoPage : WorkDb * result read_error (list item * bool * Z) := Eval vm_compute in
  changesPage demoUuid (fun _ => None) (cl_db demoClient) demoFilter (cl_after demoClient) 5 [demoSource] 50.

Lemma polling_converges_witness :
  exists db i1 i2 next, demoPage = (db, Ok ([i1; i2], false, next)) /\
    forall id, apply_items (cl_view demoClient) [i1; i2] !! id = visible db demoFilter id.
Proof.
  assert (changesPage demoUuid (fun _ => None) (cl_db demoClient) demoFilter (cl_after demoClient) 5 [demoSource] 50 = demoPage)
    as E by (vm_compute; reflexivity).
  pose proof (polling_converges demoReal (fun _ => 0) demoUuid (fun _ => None) demoFilter demoEvents 5 [demoSource] 50 _ ltac:(lia)) as H.
  cbv zeta in H. fold demoClient in H. rewrite E in H. unfold demoPage in H. destruct H as [H _].
  do 4 eexists. split; [reflexivity|]. exact (H eq_refl).
Defined.

Lemma work_usage_counted_once_witness :
  contributor <$> (run_logged demoReal (fun _ => 0) demoUuid demoOps emptyDb []).2 = ["0"] /\
  outbox (run_logged demoReal (fun _ => 0) demoUuid demoOps emptyDb []).1
    = fold_left (contribute demoReal (fun _ => 0)) (run_logged demoReal (fun _ => 0) demoUuid demoOps emptyDb []).2 [].
Proof.
  split; [vm_compute; reflexivity|].
  pose proof (work_usage_counted_once demoReal (fun _ => 0) demoUuid demoOps _) as H.
  destruct (run_logged _ _ _ _ _ _) as [db log]. exact (proj2 H).
Defined.

Definition demoSegments : list WorkHistorySegment := sourceSegments (fun _ => None) demoEntries.
Definition demoImported : WorkDb := (importHistory demoUuid (mkImport demoOwner "c" "x") true 50 demoSegments (cl_db demoClient)).1.
Lemma history_import_is_exact_witness :
  length (records demoImported) = 3%nat /\
  importHistory demoUuid (mkImport demoOwner "c" "x") true 60 demoSegments demoImported = (demoImported, Ok tt).
Proof.
  split; [vm_compute; reflexivity|].
  apply (history_import_is_exact demoUuid (mkImport demoOwner "c" "x") true 50 demoSegments (cl_db demoClient)).
  vm_compute. reflexivity.
Defined.

Lemma history_pages_complete_witness :
  length (historyPages 4 1 demoImported demoFilter None) = 3%nat /\
  historyPages (S (length (records demoImported))) 1 demoImported demoFilter None = fullHistory demoImported demoFilter.
Proof.
  split; [vm_compute; reflexivity|]. apply (history_pages_complete demoImported demoFilter 1); [lia|].
  apply (bool_decide_unpack _). vm_compute. reflexivity.
Defined.
