(* ===== verification/Segments.v ===== *)
(** Context segments and their published verdict counts (storage/context-segments.ts,
    [ContextSegmentStore]; the listener [publishSegmentOutcomes] of storage/sqlite.ts).

    [SegDb] is the segment table and the outbox the listener writes to.  Times are
    milliseconds; the JSON columns hold the lists they encode.  Each operation also returns
    the buckets it told the listener about. *)

From S2P Require Import Prelude Decimal Sql IsoTime Usage Regex Outbox.
From stdpp Require Import pretty.
Local Open Scope Z_scope.

Inductive SegmentOutcome : Type := Resolved | Unresolved.
#[export] Instance SegmentOutcome_eq_dec : EqDecision SegmentOutcome.
Proof. solve_decision. Defined.

Definition SEGMENT_OUTCOME_REASONS : list string :=
  ["off_topic"; "missing_info"; "execution_failed"; "wrong_result"; "too_slow"; "other"]%string.
Definition SEGMENT_EDIT_WINDOW_MS : Z := 7 * 24 * 60 * 60 * 1000.
Definition HOUR_MS : Z := 60 * 60 * 1000.

Record SegmentOwner : Type := mkSegOwner { sow_tenantId : string; sow_memberId : string }.
#[export] Instance SegmentOwner_eq_dec : EqDecision SegmentOwner.
Proof. solve_decision. Defined.

Record SegmentEvaluation : Type := mkEvaluation {
  ev_outcome : option SegmentOutcome; ev_reasons : list string; ev_note : option string; ev_followUp : bool;
}.

Record SegmentRow : Type := mkSegRow {
  sr_owner : SegmentOwner; sr_conversation_id : string; sr_segment_id : string;
  sr_employee_ids : list string; sr_message_count : Z;
  sr_outcome : option SegmentOutcome; sr_reasons : list string; sr_note : option string; sr_follow_up : bool;
  sr_revision : Z; sr_created_at : Z; sr_evaluated_at : option Z; sr_updated_at : Z;
}.

Record ContextSegment : Type := mkContext {
  cs_segment_id : string; cs_conversation_id : string; cs_employee_ids : list string; cs_message_count : Z;
  cs_outcome : option SegmentOutcome; cs_outcome_reasons : list string; cs_outcome_note : option string;
  cs_follow_up : bool; cs_revision : Z; cs_ended_at : Z; cs_evaluated_at : option Z; cs_editable_until : Z;
}.

Inductive segment_error : Type := SegmentNotFound | RevisionConflict | EditWindowClosed.

Record SegmentOutcomeBucket : Type := mkBucket { bk_employeeId : string; bk_hourStart : Z }.

Definition isOutcomeReason (value : string) : bool := bool_decide (value ∈ SEGMENT_OUTCOME_REASONS).

Definition publicSegment (r : SegmentRow) : ContextSegment :=
  mkContext (sr_segment_id r) (sr_conversation_id r) (sr_employee_ids r) (sr_message_count r)
    (sr_outcome r) (List.filter isOutcomeReason (sr_reasons r)) (sr_note r) (sr_follow_up r) (sr_revision r)
    (sr_created_at r) (sr_evaluated_at r) (sr_created_at r + SEGMENT_EDIT_WINDOW_MS).

Record SegDb : Type := mkSegDb { segments : list SegmentRow; box : list OutboxRow }.

Section Store.
Context (sha256 : string -> string).

(** The primary key. *)
Definition is_segment (owner : SegmentOwner) (conversationId segmentId : string) (r : SegmentRow) : bool :=
  bool_decide (sr_owner r = owner) && String.eqb (sr_conversation_id r) conversationId
  && String.eqb (sr_segment_id r) segmentId.

Definition get (db : SegDb) (owner : SegmentOwner) (conversationId segmentId : string) : option ContextSegment :=
  publicSegment <$> sql_get (is_segment owner conversationId segmentId) (segments db).

Definition is_conversation (owner : SegmentOwner) (conversationId : string) (r : SegmentRow) : bool :=
  bool_decide (sr_owner r = owner) && String.eqb (sr_conversation_id r) conversationId.

Definition by_created (a b : SegmentRow) : bool :=
  (sr_created_at a <? sr_created_at b)
  || ((sr_created_at a =? sr_created_at b) && negb (bool_decide (String.compare (sr_segment_id b) (sr_segment_id a) = Lt))).
Definition list_ (db : SegDb) (owner : SegmentOwner) (conversationId : string) : list ContextSegment :=
  publicSegment <$> order_by by_created (sql_select (is_conversation owner conversationId) (segments db)).

(** [hourlyCounts]: evaluated segments of an employee that ended in the hour. *)
Definition counted (owner : SegmentOwner) (employeeId : string) (hourStart : Z) (r : SegmentRow) : bool :=
  bool_decide (sr_owner r = owner) && bool_decide (is_Some (sr_outcome r)) && (hourStart <=? sr_created_at r)
  && (sr_created_at r <? hourStart + HOUR_MS) && bool_decide (employeeId ∈ sr_employee_ids r).
Definition is_resolved (r : SegmentRow) : bool := bool_decide (sr_outcome r = Some Resolved).
Definition hourlyCounts (rows : list SegmentRow) (owner : SegmentOwner) (employeeId : string) (hourStart : Z) : Z * Z :=
  let hit := sql_select (counted owner employeeId hourStart) rows in
  (Z.of_nat (length hit), Z.of_nat (length (List.filter is_resolved hit))).

(** [publishSegmentOutcomes], the listener. *)
Definition bucketSummary (rows : list SegmentRow) (owner : SegmentOwner) (b : SegmentOutcomeBucket) : SegmentOutcomeSummary :=
  let counts := hourlyCounts rows owner (bk_employeeId b) (bk_hourStart b) in
  segmentOutcomeSummary sha256 (sow_tenantId owner) (sow_memberId owner) (bk_employeeId b) (bk_hourStart b) counts.1 counts.2.
Definition publishSegmentOutcomes (owner : SegmentOwner) (buckets : list SegmentOutcomeBucket) (now : Z) (db : SegDb) : SegDb :=
  mkSegDb (segments db)
    (fold_left (fun box b => publishBucket box (bucketSummary (segments db) owner b) now) buckets (box db)).

(** [notify]: the employee hours of the segments, each once. *)
Definition hourOf (createdAt : Z) : Z := createdAt - Z.rem createdAt HOUR_MS.
Definition NUL : string := String Ascii.zero "".
Definition bucketKey (employeeId : string) (hourStart : Z) : string := employeeId +:+ NUL +:+ pretty hourStart.
Definition addBuckets (m : list (string * SegmentOutcomeBucket)) (s : list string * Z) : list (string * SegmentOutcomeBucket) :=
  fold_left (fun m e => mset (bucketKey e (hourOf s.2)) (mkBucket e (hourOf s.2)) m) s.1 m.
Definition bucketsOf (l : list (list string * Z)) : list SegmentOutcomeBucket := (fold_left addBuckets l []).*2.
Definition notify (owner : SegmentOwner) (l : list (list string * Z)) (now : Z) (db : SegDb)
    : SegDb * list SegmentOutcomeBucket :=
  match l with
  | [] => (db, [])
  | _ => (publishSegmentOutcomes owner (bucketsOf l) now db, bucketsOf l)
  end.

Record RecordInput : Type := mkRecord {
  ri_conversationId : string; ri_segmentId : string; ri_employeeIds : list string; ri_messageCount : Z;
  ri_endedAt : Z; ri_evaluation : option SegmentEvaluation;
}.

Definition newSegment (owner : SegmentOwner) (i : RecordInput) : SegmentRow :=
  let ev := ri_evaluation i in
  let outcome := ev ≫= ev_outcome in
  mkSegRow owner (ri_conversationId i) (ri_segmentId i) (ri_employeeIds i) (ri_messageCount i)
    outcome (nullish (ev_reasons <$> ev) []) (ev ≫= ev_note) (nullish (ev_followUp <$> ev) false)
    1 (ri_endedAt i) (match outcome with Some _ => Some (ri_endedAt i) | None => None end) (ri_endedAt i).

Definition record (owner : SegmentOwner) (i : RecordInput) (now : Z) (db : SegDb)
    : SegDb * option ContextSegment * list SegmentOutcomeBucket :=
  let fresh := negb (existsb (is_segment owner (ri_conversationId i) (ri_segmentId i)) (segments db)) in
  let db1 := if fresh then mkSegDb (segments db ++ [newSegment owner i]) (box db) else db in
  let '(db2, buckets) :=
    if fresh && bool_decide (is_Some (ri_evaluation i ≫= ev_outcome))
    then notify owner [(ri_employeeIds i, ri_endedAt i)] now db1 else (db1, []) in
  (db2, get db2 owner (ri_conversationId i) (ri_segmentId i), buckets).

Definition evaluate_set (ev : SegmentEvaluation) (now : Z) (r : SegmentRow) : SegmentRow :=
  let cleared := bool_decide (ev_outcome ev = None) in
  mkSegRow (sr_owner r) (sr_conversation_id r) (sr_segment_id r) (sr_employee_ids r) (sr_message_count r)
    (ev_outcome ev) (if cleared then [] else ev_reasons ev) (if cleared then None else ev_note ev)
    (negb cleared && ev_followUp ev) (sr_revision r + 1) (sr_created_at r) (if cleared then None else Some now) now.

Definition evaluate (owner : SegmentOwner) (conversationId segmentId : string) (ev : SegmentEvaluation)
    (expectedRevision now : Z) (db : SegDb) : SegDb * result segment_error (option ContextSegment) * list SegmentOutcomeBucket :=
  match get db owner conversationId segmentId with
  | None => (db, Err SegmentNotFound, [])
  | Some current =>
      if negb (cs_revision current =? expectedRevision) then (db, Err RevisionConflict, [])
      else if cs_editable_until current <? now then (db, Err EditWindowClosed, [])
      else
        let db1 := mkSegDb (sql_update (fun r => is_segment owner conversationId segmentId r && (sr_revision r =? expectedRevision))
                      (evaluate_set ev now) (segments db)) (box db) in
        let '(db2, buckets) :=
          if bool_decide (cs_outcome current = ev_outcome ev) then (db1, [])
          else notify owner [(cs_employee_ids current, cs_ended_at current)] now db1 in
        (db2, Ok (get db2 owner conversationId segmentId), buckets)
  end.

Record OutcomeFilter : Type := mkOutcomeFilter {
  of_owner : SegmentOwner; of_employeeId : option string; of_start : option Z; of_end : option Z;
}.

Definition evaluated (db : SegDb) (f : OutcomeFilter) : list (list string * option SegmentOutcome * list string) :=
  let end_ := match of_start f with None => None | Some _ => of_end f end in
  let rows := sql_select (fun r => bool_decide (sr_owner r = of_owner f) && bool_decide (is_Some (sr_outcome r))
    && match of_start f with Some s => s <=? sr_created_at r | None => true end
    && match end_ with Some e => sr_created_at r <? e | None => true end) (segments db) in
  List.filter (fun x => match of_employeeId f with
      | Some e => String.eqb e "" || bool_decide (e ∈ x.1.1)
      | None => true end)
    ((fun r => (sr_employee_ids r, sr_outcome r, List.filter isOutcomeReason (sr_reasons r))) <$> rows).

Definition deleteConversation (owner : SegmentOwner) (conversationId : string) (now : Z) (db : SegDb)
    : SegDb * list SegmentOutcomeBucket :=
  let evaluated := sql_select (fun r => is_conversation owner conversationId r && bool_decide (is_Some (sr_outcome r))) (segments db) in
  notify owner ((fun r => (sr_employee_ids r, sr_created_at r)) <$> evaluated) now
    (mkSegDb (sql_delete (is_conversation owner conversationId) (segments db)) (box db)).

(** ** Runs *)

Inductive seg_op : Type :=
| SRecord (owner : SegmentOwner) (i : RecordInput)
| SEvaluate (owner : SegmentOwner) (conversationId segmentId : string) (ev : SegmentEvaluation) (expectedRevision : Z)
| SDelete (owner : SegmentOwner) (conversationId : string)
| SOutbox (o : op).

Context (castReal : string -> usd_value) (castCents : string -> Z).

(** The new state, and the buckets published for whom. *)
Definition run_seg (db : SegDb) (x : seg_op * Z) : SegDb * list (SegmentOwner * SegmentOutcomeBucket) :=
  let (o, now) := x in
  match o with
  | SRecord owner i => let '(db, _, b) := record owner i now db in (db, pair owner <$> b)
  | SEvaluate owner c s ev rev => let '(db, _, b) := evaluate owner c s ev rev now db in (db, pair owner <$> b)
  | SDelete owner c => let '(db, b) := deleteConversation owner c now db in (db, pair owner <$> b)
  | SOutbox o => (mkSegDb (segments db) (run_op castReal castCents (box db, []) (o, now)).1, [])
  end.
Fixpoint run_segs (db : SegDb) (l : list (seg_op * Z)) : SegDb * list (SegmentOwner * SegmentOutcomeBucket) :=
  match l with
  | [] => (db, [])
  | x :: l => let (db, b) := run_seg db x in let (db, b') := run_segs db l in (db, b ++ b')
  end.
End Store.

(** ** Buckets *)

Lemma pivot_inj (x : Ascii.ascii) l1 l2 k1 k2 : x ∉ l2 -> x ∉ k2 -> l1 ++ x :: l2 = k1 ++ x :: k2 -> l1 = k1 /\ l2 = k2.
Proof.
  intros H1 H2. revert k1. induction l1 as [|y l1 IH]; intros [|z k1]; cbn; intros E; simplify_eq; try done.
  - destruct H1. set_solver.
  - destruct H2. set_solver.
  - destruct (IH k1) as [-> ->]; done.
Qed.

Lemma digits_no_nul s : all_digits s = true -> Ascii.zero ∉ chars s.
Proof.
  unfold all_digits. intros H Hin. apply forallb_forall with (x := Ascii.zero) in H; [done|].
  by apply list_elem_of_In.
Qed.

Lemma pretty_Z_no_nul (z : Z) : Ascii.zero ∉ chars (pretty z).
Proof.
  destruct z as [|p|p]; unfold pretty, pretty_Z.
  - by apply digits_no_nul.
  - apply digits_no_nul. apply pretty_N_spec.
  - rewrite chars_app. apply not_elem_of_app. split; [|apply digits_no_nul; apply pretty_N_spec].
    intros [H|H%not_elem_of_nil]%elem_of_cons; done.
Qed.

Lemma bucketKey_inj e h e' h' : bucketKey e h = bucketKey e' h' -> e = e' /\ h = h'.
Proof.
  unfold bucketKey, NUL. intros E. apply (f_equal chars) in E. rewrite !chars_app in E. cbn in E.
  apply pivot_inj in E as [E1 E2]; [|apply pretty_Z_no_nul..].
  split; [by apply chars_inj|]. by apply chars_inj, (inj pretty) in E2.
Qed.

(** Every binding of the map is filed under its own key. *)
Definition keyed (m : list (string * SegmentOutcomeBucket)) : Prop :=
  forall k b, mget k m = Some b -> k = bucketKey (bk_employeeId b) (bk_hourStart b).

Lemma addBuckets_spec m es c : keyed m ->
  keyed (addBuckets m (es, c)) /\
  (forall k b, mget k m = Some b -> mget k (addBuckets m (es, c)) = Some b) /\
  forall e, e ∈ es -> mget (bucketKey e (hourOf c)) (addBuckets m (es, c)) = Some (mkBucket e (hourOf c)).
Proof.
  unfold addBuckets; cbn [fst snd]. revert m. induction es as [|e es IH]; intros m Hm; cbn [fold_left].
  { split_and!; [done|done|]. intros e He. by apply not_elem_of_nil in He. }
  destruct (IH (mset (bucketKey e (hourOf c)) (mkBucket e (hourOf c)) m)) as (I1 & I2 & I3).
  { intros k b. rewrite mget_mset. destruct (String.eqb_spec k (bucketKey e (hourOf c))) as [->|]; [|apply Hm].
    by intros [= <-]. }
  split_and!; [done| |].
  - intros k b Hk. apply I2. rewrite mget_mset.
    destruct (String.eqb_spec k (bucketKey e (hourOf c))) as [->|]; [|done].
    apply Hm, bucketKey_inj in Hk as [-> ->]. by destruct b.
  - intros e' [->|He]%elem_of_cons; [|by apply I3]. apply I2. by rewrite mget_mset_eq.
Qed.

Lemma bucketsOf_elem l es c e : (es, c) ∈ l -> e ∈ es -> mkBucket e (hourOf c) ∈ bucketsOf l.
Proof.
  intros Hl He. assert (forall m, keyed m ->
    (forall k b, mget k m = Some b -> mget k (fold_left addBuckets l m) = Some b) /\
    mget (bucketKey e (hourOf c)) (fold_left addBuckets l m) = Some (mkBucket e (hourOf c))) as H.
  2: { apply list_elem_of_fmap. exists (bucketKey e (hourOf c), mkBucket e (hourOf c)). split; [done|].
       apply mget_In. by apply H. }
  assert (forall l m, keyed m -> keyed (fold_left addBuckets l m) /\
    forall k b, mget k m = Some b -> mget k (fold_left addBuckets l m) = Some b) as Hkeep.
  { clear. induction l as [|[es c] l IH]; intros m Hm; cbn [fold_left]; [done|].
    destruct (addBuckets_spec m es c Hm) as (A1 & A2 & _). destruct (IH _ A1) as [B1 B2]. split; [done|]. eauto. }
  intros m Hm. split; [by apply Hkeep|]. revert m Hm. induction l as [|[es' c'] l IH]; intros m Hm; cbn [fold_left].
  { by apply not_elem_of_nil in Hl. }
  destruct (addBuckets_spec m es' c' Hm) as (A1 & A2 & A3). apply elem_of_cons in Hl as [[= -> ->]|Hl]; [|by apply IH].
  apply Hkeep; [done|]. by apply A3.
Qed.

(** ** Publication *)

Section Published.
Context (sha256 : string -> string) (castReal : string -> usd_value) (castCents : string -> Z).

Definition summaryId (o : SegmentOwner) (b : SegmentOutcomeBucket) : string :=
  so_summary_id (bucketSummary sha256 [] o b).

Definition row_is (box : list OutboxRow) (s : SegmentOutcomeSummary) : Prop :=
  match sql_get (is_summary (so_summary_id s)) box with
  | Some r => o_kind r = KOutcome /\ o_payload r = POutcome s
  | None => so_evaluated_count s = 0
  end.
Definition outcome_row (box : list OutboxRow) (id : string) : Prop :=
  forall r, sql_get (is_summary id) box = Some r -> o_kind r = KOutcome.

Lemma publish_other box s now id : so_summary_id s <> id ->
  sql_get (is_summary id) (publishBucket box s now) = sql_get (is_summary id) box.
Proof.
  intros Hne. unfold publishBucket.
  assert (sql_get (is_summary id) (sql_update (fun r => is_summary (so_summary_id s) r && bool_decide (o_kind r = KOutcome))
    (publish_set s) box) = sql_get (is_summary id) box) as Hup.
  { rewrite sql_get_update by done. destruct (sql_get (is_summary id) box) as [r|] eqn:G; [|done]. cbn.
    apply sql_get_Some in G as [_ G]. unfold is_summary in *. boolify.
    destruct (String.eqb_spec (o_summary_id r) (so_summary_id s)); [congruence|done]. }
  destruct (_ =? 0); [done|]. destruct (existsb _ box); [done|]. rewrite sql_get_app.
  destruct (sql_get (is_summary id) box); [done|]. cbn. unfold is_summary. cbn [o_summary_id].
  by apply String.eqb_neq in Hne as ->.
Qed.

Lemma publish_own box s now : outcome_row box (so_summary_id s) -> row_is (publishBucket box s now) s.
Proof.
  intros Hk. unfold row_is, publishBucket.
  assert (forall r, sql_get (is_summary (so_summary_id s)) box = Some r ->
    sql_get (is_summary (so_summary_id s)) (sql_update (fun r => is_summary (so_summary_id s) r && bool_decide (o_kind r = KOutcome))
    (publish_set s) box) = Some (publish_set s r)) as Hup.
  { intros r G. rewrite sql_get_update by done. rewrite G. cbn. pose proof (Hk r G) as ->.
    apply sql_get_Some in G as [_ ->]. done. }
  destruct (so_evaluated_count s =? 0) eqn:E0.
  - destruct (sql_get (is_summary (so_summary_id s)) box) as [r|] eqn:G.
    + rewrite (Hup r) by done. split; [exact (Hk r G)|done].
    + rewrite sql_get_update, G by done. cbn. by apply Z.eqb_eq.
  - destruct (existsb (is_summary (so_summary_id s)) box) eqn:Ex.
    + destruct (sql_get (is_summary (so_summary_id s)) box) as [r|] eqn:G.
      * rewrite (Hup r) by done. split; [exact (Hk r G)|done].
      * exfalso. apply existsb_exists in Ex as (r & Hr & Hs). apply list_elem_of_In in Hr.
        rewrite (proj1 (sql_get_None _ _) G r Hr) in Hs. done.
    + rewrite sql_get_app. destruct (sql_get (is_summary (so_summary_id s)) box) as [r|] eqn:G.
      * apply sql_get_Some in G as [Hr Hs]. assert (existsb (is_summary (so_summary_id s)) box = true); [|congruence].
        apply existsb_exists. exists r. by rewrite <- list_elem_of_In.
      * cbn. unfold is_summary. cbn [o_summary_id]. by rewrite String.eqb_refl.
Qed.

Lemma row_outcome box s : row_is box s -> outcome_row box (so_summary_id s).
Proof. unfold row_is. intros H r Hr. rewrite Hr in H. apply H. Qed.

(** Publishing a list of buckets brings the row of [(o, b)] up to date when it is listed,
    and leaves it alone otherwise. *)
Lemma publish_fold rows owner o b buckets now box :
  (forall b', b' ∈ buckets -> summaryId owner b' = summaryId o b -> (owner, b') = (o, b)) ->
  outcome_row box (summaryId o b) ->
  let box' := fold_left (fun box b => publishBucket box (bucketSummary sha256 rows owner b) now) buckets box in
  (row_is box' (bucketSummary sha256 rows o b)) \/
  (~ (owner = o /\ b ∈ buckets) /\
   sql_get (is_summary (summaryId o b)) box' = sql_get (is_summary (summaryId o b)) box).
Proof.
  revert box. induction buckets as [|b' buckets IH]; intros box Hsep Hk; cbn [fold_left].
  { right. split; [|done]. by intros [_ ?%not_elem_of_nil]. }
  destruct (String.eqb_spec (summaryId owner b') (summaryId o b)) as [E|Hne].
  - pose proof (Hsep b' (list_elem_of_here _ _) E) as Heq0. injection Heq0 as -> ->. left.
    pose proof (publish_own box (bucketSummary sha256 rows o b) now Hk) as Hown.
    destruct (IH (publishBucket box (bucketSummary sha256 rows o b) now)) as [?|[_ Heq]].
    + intros b'' ?. apply Hsep. by right.
    + by apply row_outcome in Hown.
    + done.
    + unfold row_is in *. change (so_summary_id (bucketSummary sha256 rows o b)) with (summaryId o b) in *. by rewrite Heq.
  - destruct (IH (publishBucket box (bucketSummary sha256 rows owner b') now)) as [?|[Hn Heq]].
    + intros b'' ?. apply Hsep. by right.
    + unfold outcome_row. by rewrite publish_other.
    + by left.
    + right. rewrite Heq, publish_other by done. split; [|done]. intros [-> [->|?]%elem_of_cons]; [done|by apply Hn].
Qed.

(** ** The counts *)

Definition segment_key (r : SegmentRow) : SegmentOwner * string * string :=
  (sr_owner r, sr_conversation_id r, sr_segment_id r).
Definition segs_ok (rows : list SegmentRow) : Prop :=
  NoDup (segment_key <$> rows) /\ forall r, r ∈ rows -> 0 <= sr_created_at r.

Lemma is_segment_key o c s r : is_segment o c s r = true <-> segment_key r = (o, c, s).
Proof.
  unfold is_segment, segment_key. rewrite !andb_true_iff, bool_decide_eq_true, !String.eqb_eq. naive_solver.
Qed.

(** A counted segment ended in the bucket's hour and had the bucket's employee. *)
Lemma counted_hour o b r : bk_hourStart b mod HOUR_MS = 0 -> 0 <= sr_created_at r ->
  counted o (bk_employeeId b) (bk_hourStart b) r = true ->
  sr_owner r = o /\ bk_employeeId b ∈ sr_employee_ids r /\ is_Some (sr_outcome r) /\ b = mkBucket (bk_employeeId b) (hourOf (sr_created_at r)).
Proof.
  intros Hh Hc H. unfold counted in H. boolify. split_and!; try done. destruct b as [e h]; cbn in *. f_equal.
  unfold hourOf. rewrite Z.rem_mod_nonneg by (done || lia). unfold HOUR_MS in *.
  Z.to_euclidean_division_equations; lia.
Qed.

Definition same_counts (rows rows' : list SegmentRow) (o : SegmentOwner) (b : SegmentOutcomeBucket) : Prop :=
  hourlyCounts rows' o (bk_employeeId b) (bk_hourStart b) = hourlyCounts rows o (bk_employeeId b) (bk_hourStart b).

Lemma counts_append rows r o b : counted o (bk_employeeId b) (bk_hourStart b) r = false -> same_counts rows (rows ++ [r]) o b.
Proof.
  intros H. unfold same_counts, hourlyCounts, sql_select. rewrite List.filter_app. cbn. rewrite H. by rewrite app_nil_r.
Qed.

Lemma counts_delete rows p o b : (forall r, r ∈ rows -> p r = true -> counted o (bk_employeeId b) (bk_hourStart b) r = false) ->
  same_counts rows (sql_delete p rows) o b.
Proof.
  intros H. unfold same_counts, hourlyCounts.
  assert (sql_select (counted o (bk_employeeId b) (bk_hourStart b)) (sql_delete p rows) =
    sql_select (counted o (bk_employeeId b) (bk_hourStart b)) rows) as ->; [|done].
  unfold sql_select, sql_delete. induction rows as [|r rows IH]; cbn; [done|].
  destruct (p r) eqn:Ep; cbn; rewrite ?IH by (intros; apply H; [by right|done]); [|done].
  rewrite H by (by left || done). done.
Qed.

Lemma counts_update rows p f o b :
  (forall r, r ∈ rows -> p r = true -> counted o (bk_employeeId b) (bk_hourStart b) (f r) = counted o (bk_employeeId b) (bk_hourStart b) r /\
     (counted o (bk_employeeId b) (bk_hourStart b) r = true -> is_resolved (f r) = is_resolved r)) ->
  same_counts rows (sql_update p f rows) o b.
Proof.
  intros H. unfold same_counts, hourlyCounts, sql_select, sql_update. induction rows as [|r rows IH]; [done|].
  specialize (IH (fun x Hx => H x (list_elem_of_further _ _ _ Hx))). injection IH as IH1 IH2.
  apply Nat2Z.inj in IH1, IH2. specialize (H r (list_elem_of_here _ _)). cbn.
  destruct (p r) eqn:Ep; cbn.
  - destruct H as [-> Hr]; [done|]. destruct (counted _ _ _ r); cbn; [|by rewrite IH1, IH2].
    rewrite Hr by done. destruct (is_resolved r); cbn; by rewrite IH1, IH2.
  - destruct (counted _ _ _ r); cbn; [|by rewrite IH1, IH2]. destruct (is_resolved r); cbn; by rewrite IH1, IH2.
Qed.

(** After a notification the row is current, if the counts only changed for buckets that
    were notified. *)
Lemma notify_current rows rows' o b owner l now box :
  (forall b', b' ∈ (notify sha256 owner l now (mkSegDb rows' box)).2 -> summaryId owner b' = summaryId o b -> (owner, b') = (o, b)) ->
  (~ (owner = o /\ b ∈ bucketsOf l) -> same_counts rows rows' o b) ->
  row_is box (bucketSummary sha256 rows o b) ->
  let db' := (notify sha256 owner l now (mkSegDb rows' box)).1 in
  segments db' = rows' /\ row_is (Segments.box db') (bucketSummary sha256 rows' o b).
Proof.
  intros Hsep Hsame Hrow. assert (same_counts rows rows' o b -> row_is box (bucketSummary sha256 rows' o b)) as Hquiet.
  { unfold same_counts, bucketSummary. by intros ->. }
  unfold notify in *. destruct l as [|x l].
  { split; [done|]. apply Hquiet, Hsame. by intros [_ ?%not_elem_of_nil]. }
  cbn [fst snd] in *. split; [done|].
  destruct (publish_fold rows' owner o b (bucketsOf (x :: l)) now box Hsep) as [?|[Hn Heq]]; [|done|].
  { by apply row_outcome in Hrow. }
  apply Hsame, Hquiet in Hn. unfold row_is in *.
  change (so_summary_id (bucketSummary sha256 rows' o b)) with (summaryId o b) in *. rewrite <- Heq in Hn. exact Hn.
Qed.

(** *** The operations *)

Definition op_separate (o : SegmentOwner) (b : SegmentOutcomeBucket) (x : seg_op) : Prop :=
  match x with
  | SRecord _ i => 0 <= ri_endedAt i
  | SOutbox (OUpsert s _) => s_summary_id s <> summaryId o b
  | SOutbox (OPublish _) => False
  | _ => True
  end.

Lemma record_current o b owner i now db : bk_hourStart b mod HOUR_MS = 0 -> segs_ok (segments db) ->
  row_is (box db) (bucketSummary sha256 (segments db) o b) -> 0 <= ri_endedAt i ->
  let '(db', _, bs) := record sha256 owner i now db in
  (forall b', b' ∈ bs -> summaryId owner b' = summaryId o b -> (owner, b') = (o, b)) ->
  segs_ok (segments db') /\ row_is (box db') (bucketSummary sha256 (segments db') o b).
Proof.
  intros Hh Hok Hrow Hi. unfold record.
  destruct (existsb (is_segment owner (ri_conversationId i) (ri_segmentId i)) (segments db)) eqn:Ex; cbn [negb andb]; [done|].
  assert (segs_ok (segments db ++ [newSegment owner i])) as Hok'.
  { destruct Hok as [Hd Hc]. split.
    - rewrite fmap_app. apply NoDup_app. split_and!; [done| |apply NoDup_singleton].
      intros k (r & -> & Hr)%list_elem_of_fmap Hk. cbn in Hk. apply list_elem_of_singleton in Hk.
      assert (existsb (is_segment owner (ri_conversationId i) (ri_segmentId i)) (segments db) = true); [|congruence].
      apply existsb_exists. exists r. rewrite <- list_elem_of_In. split; [done|]. by apply is_segment_key.
    - intros r [Hr|Hr]%elem_of_app; [by apply Hc|]. by apply list_elem_of_singleton in Hr as ->. }
  case_bool_decide as Hev.
  - destruct (notify sha256 owner [(ri_employeeIds i, ri_endedAt i)] now _) as [db2 bs] eqn:En. intros Hsep.
    destruct (notify_current (segments db) (segments db ++ [newSegment owner i]) o b owner [(ri_employeeIds i, ri_endedAt i)] now (box db))
      as [E1 E2]; [by rewrite En| |done|rewrite En in E1, E2; cbn in E1, E2; by rewrite E1].
    intros Hn. apply counts_append. apply not_true_iff_false. intros Hc. apply Hn.
    apply counted_hour in Hc as (Ho & He & _ & ->); [|done..]. split; [done|]. eapply bucketsOf_elem; [by left|done].
  - intros _. split; [done|]. cbn [segments box]. unfold bucketSummary.
    rewrite (counts_append (segments db) (newSegment owner i) o b); [done|].
    apply not_true_iff_false. intros Hc. apply counted_hour in Hc as (_ & _ & Hs & _); [|done..]. done.
Qed.

Lemma evaluate_current o b owner c s ev rev now db : bk_hourStart b mod HOUR_MS = 0 -> segs_ok (segments db) ->
  row_is (box db) (bucketSummary sha256 (segments db) o b) ->
  let '(db', _, bs) := evaluate sha256 owner c s ev rev now db in
  (forall b', b' ∈ bs -> summaryId owner b' = summaryId o b -> (owner, b') = (o, b)) ->
  segs_ok (segments db') /\ row_is (box db') (bucketSummary sha256 (segments db') o b).
Proof.
  intros Hh Hok Hrow. unfold evaluate, get.
  destruct (sql_get (is_segment owner c s) (segments db)) as [r0|] eqn:G; [cbn [fmap option_fmap option_map]|done].
  destruct (negb _); [done|]. destruct (_ <? now); [done|].
  pose proof (sql_get_Some _ _ _ G) as [Hr0 Hk0]. apply is_segment_key in Hk0.
  set (upd := sql_update _ _ _). destruct Hok as [Hd Hc].
  assert (forall r, r ∈ segments db -> is_segment owner c s r && (sr_revision r =? rev) = true -> r = r0) as Huniq.
  { intros r Hr [Hk%is_segment_key _]%andb_true_iff. apply (NoDup_key_eq segment_key (segments db)); [done|done|done|congruence]. }
  assert (segs_ok upd) as Hok'.
  { split; [unfold upd; by rewrite (keys_sql_update segment_key)|].
    intros r (r1 & Hr1 & ->)%elem_of_sql_update. destruct (_ && _); exact (Hc r1 Hr1). }
  assert ((b ∉ bucketsOf [(sr_employee_ids r0, sr_created_at r0)] \/ owner <> o \/ sr_outcome r0 = ev_outcome ev) ->
    same_counts (segments db) upd o b) as Hsame.
  { intros Hor. apply counts_update. intros r Hr Hp. apply Huniq in Hp as ->; [|done].
    assert (forall r', sr_owner r' = sr_owner r0 -> sr_employee_ids r' = sr_employee_ids r0 -> sr_created_at r' = sr_created_at r0 ->
      (b ∉ bucketsOf [(sr_employee_ids r0, sr_created_at r0)] \/ owner <> o) -> counted o (bk_employeeId b) (bk_hourStart b) r' = false) as Hno.
    { intros r' E1 E2 E3 Hn. apply not_true_iff_false. intros Hcnt. specialize (Hc r0 Hr0).
      apply counted_hour in Hcnt as (Ho & He & _ & Hb); [|done|lia]. rewrite E1 in Ho. rewrite E2 in He. rewrite E3 in Hb.
      destruct Hn as [Hn|Hn]; [|apply Hn; by injection Hk0 as <- _ _].
      apply Hn. rewrite Hb. eapply bucketsOf_elem; [by left|done]. }
    destruct Hor as [?|[?|E]]; [rewrite !Hno by auto; done|rewrite !Hno by auto; done|].
    unfold counted, is_resolved. cbn. by rewrite E. }
  change (cs_outcome (publicSegment r0)) with (sr_outcome r0).
  case_bool_decide as Eo.
  - intros _. split; [done|]. cbn [segments box]. unfold bucketSummary. rewrite (Hsame (or_intror (or_intror Eo))). done.
  - destruct (notify sha256 owner _ now _) as [db2 bs] eqn:En. intros Hsep.
    destruct (notify_current (segments db) upd o b owner [(sr_employee_ids r0, sr_created_at r0)] now (box db)) as [E1 E2].
    + change (cs_employee_ids (publicSegment r0)) with (sr_employee_ids r0) in En.
      change (cs_ended_at (publicSegment r0)) with (sr_created_at r0) in En. by rewrite En.
    + intros Hn. apply Hsame. destruct (decide (owner = o)) as [->|]; [left|by right; left]. intros Hb. by apply Hn.
    + done.
    + change (cs_employee_ids (publicSegment r0)) with (sr_employee_ids r0) in En.
      change (cs_ended_at (publicSegment r0)) with (sr_created_at r0) in En. rewrite En in E1, E2. cbn in E1, E2. by rewrite E1.
Qed.

Lemma delete_current o b owner c now db : bk_hourStart b mod HOUR_MS = 0 -> segs_ok (segments db) ->
  row_is (box db) (bucketSummary sha256 (segments db) o b) ->
  let '(db', bs) := deleteConversation sha256 owner c now db in
  (forall b', b' ∈ bs -> summaryId owner b' = summaryId o b -> (owner, b') = (o, b)) ->
  segs_ok (segments db') /\ row_is (box db') (bucketSummary sha256 (segments db') o b).
Proof.
  intros Hh [Hd Hc] Hrow. unfold deleteConversation. set (l := _ <$> _).
  destruct (notify sha256 owner l now _) as [db2 bs] eqn:En. intros Hsep.
  destruct (notify_current (segments db) (sql_delete (is_conversation owner c) (segments db)) o b owner l now (box db)) as [E1 E2];
    [by rewrite En| |done|].
  - intros Hn. apply counts_delete. intros r Hr Hp. apply not_true_iff_false. intros Hcnt. apply Hn.
    apply counted_hour in Hcnt as (Ho & He & Hs & ->); [|done|by apply Hc].
    pose proof Hp as [Hown _]%andb_true_iff. apply bool_decide_eq_true in Hown. split; [congruence|].
    eapply bucketsOf_elem; [|exact He]. apply list_elem_of_fmap. exists r. split; [done|].
    apply elem_of_sql_select. split; [done|]. rewrite Hp. by apply bool_decide_eq_true.
  - rewrite En in E1, E2; cbn in E1, E2. rewrite E1. split; [|done]. split.
    + eapply sublist_NoDup; [|apply keys_sql_delete]. done.
    + intros r [Hr _]%elem_of_sql_delete. by apply Hc.
Qed.

(** Claims, uploads and new usage leave the row of the bucket as it is. *)
Lemma row_quiet s p f box : quiet f -> row_is box s -> row_is (sql_update p f box) s.
Proof.
  intros Hf. unfold row_is.
  assert (sql_get (is_summary (so_summary_id s)) (sql_update p f box) =
    (fun r => if p r then f r else r) <$> sql_get (is_summary (so_summary_id s)) box) as ->.
  { apply sql_get_update. intros r _. unfold is_summary. by destruct (Hf r) as (-> & _). }
  destruct (sql_get _ box) as [r|]; [|done]. cbn. destruct (p r); [|done].
  destruct (Hf r) as (_ & -> & -> & _). done.
Qed.

Lemma outbox_current o b x now db : op_separate o b (SOutbox x) ->
  row_is (box db) (bucketSummary sha256 (segments db) o b) ->
  row_is (run_op castReal castCents (box db, []) (x, now)).1 (bucketSummary sha256 (segments db) o b).
Proof.
  intros Hsep Hrow. destruct x; cbn [run_op fst]; try done.
  - cbn [op_separate] in Hsep. unfold upsertUsageSummary, sql_upsert. unfold row_is in *.
    change (so_summary_id (bucketSummary sha256 (segments db) o b)) with (summaryId o b) in *. destruct (existsb _ _).
    + rewrite sql_get_update by (intros r _; unfold is_summary, add_set; by destruct (o_payload r)).
      destruct (sql_get (is_summary (summaryId o b)) (box db)) as [r|] eqn:G; [|done]. cbn.
      apply sql_get_Some in G as [_ G]. unfold is_summary in *. boolify.
      destruct (String.eqb_spec (o_summary_id r) (s_summary_id s)); [congruence|done].
    + rewrite sql_get_app. destruct (sql_get _ (box db)); [done|]. unfold sql_get, is_summary. cbn [List.find o_summary_id].
      by apply String.eqb_neq in Hsep as ->.
  - destruct (claimUsageOutbox _ _ _ _ _ _ _) as [db1 rows] eqn:E. cbn. unfold claimUsageOutbox in E. injection E as <- _.
    generalize (take (Z.to_nat (clamp 1 100 limit)) (foldr insert_oldest [] (sql_select (claimable tenantId memberId kinds) (box db)))) as rs.
    intros rs. revert Hrow. generalize (box db) as bx. induction rs as [|y rs IH]; intros bx Hrow; cbn [fold_left]; [done|].
    apply IH, row_quiet; [apply quiet_claim|done].
  - apply row_quiet; [apply quiet_settle|done].
  - apply row_quiet; [apply quiet_settle|done].
  - apply row_quiet; [apply quiet_settle|done].
  - apply row_quiet; [apply quiet_settle|done].
  - apply row_quiet; [apply quiet_recover|done].
Qed.

Lemma pair_sep o b owner (bs : list SegmentOutcomeBucket) pub :
  (forall o' b', (o', b') ∈ (pair owner <$> bs) ++ pub -> summaryId o' b' = summaryId o b -> (o', b') = (o, b)) ->
  forall b', b' ∈ bs -> summaryId owner b' = summaryId o b -> (owner, b') = (o, b).
Proof. intros H b' Hb. apply H. apply elem_of_app. left. by apply list_elem_of_fmap_2. Qed.

Lemma run_seg_current o b db x pub : bk_hourStart b mod HOUR_MS = 0 -> op_separate o b x.1 ->
  segs_ok (segments db) -> row_is (box db) (bucketSummary sha256 (segments db) o b) ->
  let (db', bs) := run_seg sha256 castReal castCents db x in
  (forall o' b', (o', b') ∈ bs ++ pub -> summaryId o' b' = summaryId o b -> (o', b') = (o, b)) ->
  segs_ok (segments db') /\ row_is (box db') (bucketSummary sha256 (segments db') o b).
Proof.
  destruct x as [x now]. intros Hh Hsep Hok Hrow. destruct x as [owner i|owner c s ev rev|owner c|x]; cbn [run_seg fst] in *.
  - pose proof (record_current o b owner i now db Hh Hok Hrow Hsep) as H.
    destruct (record _ _ _ _ _) as [[db' res] bs]. intros Hp. apply H. by eapply pair_sep.
  - pose proof (evaluate_current o b owner c s ev rev now db Hh Hok Hrow) as H.
    destruct (evaluate _ _ _ _ _ _ _ _) as [[db' res] bs]. intros Hp. apply H. by eapply pair_sep.
  - pose proof (delete_current o b owner c now db Hh Hok Hrow) as H.
    destruct (deleteConversation _ _ _ _ _) as [db' bs]. intros Hp. apply H. by eapply pair_sep.
  - intros _. split; [done|]. exact (outbox_current o b x now db Hsep Hrow).
Qed.

Lemma run_segs_current o b l db : bk_hourStart b mod HOUR_MS = 0 -> (forall x, x ∈ l -> op_separate o b x.1) ->
  segs_ok (segments db) -> row_is (box db) (bucketSummary sha256 (segments db) o b) ->
  let (db', pub) := run_segs sha256 castReal castCents db l in
  (forall o' b', (o', b') ∈ pub -> summaryId o' b' = summaryId o b -> (o', b') = (o, b)) ->
  row_is (box db') (bucketSummary sha256 (segments db') o b).
Proof.
  revert db. induction l as [|x l IH]; intros db Hh Hsep Hok Hrow; cbn [run_segs]; [done|].
  pose proof (fun pub => run_seg_current o b db x pub Hh (Hsep x (list_elem_of_here _ _)) Hok Hrow) as Hx.
  destruct (run_seg sha256 castReal castCents db x) as [db1 bs].
  pose proof (IH db1 Hh (fun y Hy => Hsep y (list_elem_of_further _ _ _ Hy))) as Hl.
  destruct (run_segs sha256 castReal castCents db1 l) as [db2 pub]. intros Hp.
  destruct (Hx pub Hp) as [Hok' Hrow']. apply Hl; [done..|]. intros o' b' Hb. apply Hp. apply elem_of_app. by right.
Qed.
End Published.

(** C12. What leaves the machine is the truth: after any history of recorded segments,
    evaluations, changed and cleared verdicts, deleted conversations and outbox activity
    (claims, uploads, failures, restarts, new usage), the outbox entry of an employee's
    hour holds exactly the current verdict counts of that hour, and there is none only if
    the counts are zero.  Digests of different buckets, and of usage, are taken not to
    collide; segments end after 1970. *)
Theorem published_counts_are_current (sha256 : string -> string) (castReal : string -> usd_value) (castCents : string -> Z)
    (l : list (seg_op * Z)) (o : SegmentOwner) (b : SegmentOutcomeBucket) :
  bk_hourStart b mod HOUR_MS = 0 ->
  (forall x, x ∈ l -> op_separate sha256 o b x.1) ->
  let (db, pub) := run_segs sha256 castReal castCents (mkSegDb [] []) l in
  (forall o' b', (o', b') ∈ pub -> summaryId sha256 o' b' = summaryId sha256 o b -> (o', b') = (o, b)) ->
  match sql_get (is_summary (summaryId sha256 o b)) (box db) with
  | Some r => o_payload r = POutcome (bucketSummary sha256 (segments db) o b)
  | None => (hourlyCounts (segments db) o (bk_employeeId b) (bk_hourStart b)).1 = 0
  end.
Proof.
  intros Hh Hsep. pose proof (run_segs_current sha256 castReal castCents o b l (mkSegDb [] []) Hh Hsep) as H.
  destruct (run_segs _ _ _ _ _) as [db pub]. intros Hp. cbn in H.
  assert (row_is (box db) (bucketSummary sha256 (segments db) o b)) as Hr.
  { apply H; [|done|done]. split; [apply NoDup_nil_2|]. intros r Hr. by apply not_elem_of_nil in Hr. }
  unfold row_is in Hr. change (so_summary_id _) with (summaryId sha256 o b) in Hr.
  destruct (sql_get _ _); [apply Hr|exact Hr].
Qed.

(** Verdict edits cannot overwrite each other unseen: an evaluation is applied exactly
    when the segment exists, the caller knows its current revision and the seven-day window
    is open; it then stores the verdict under the next revision, so a second edit that
    expects the old revision is refused and changes nothing. *)
Theorem verdict_edits_are_guarded (sha256 : string -> string) (db : SegDb) (o : SegmentOwner) (c s : string)
    (ev ev2 : SegmentEvaluation) (rev now now2 : Z) r :
  segs_ok (segments db) -> sql_get (is_segment o c s) (segments db) = Some r ->
  let '(db', res, _) := evaluate sha256 o c s ev rev now db in
  (sr_revision r = rev /\ now <= sr_created_at r + SEGMENT_EDIT_WINDOW_MS ->
     res = Ok (Some (publicSegment (evaluate_set ev now r))) /\
     evaluate sha256 o c s ev2 rev now2 db' = (db', Err RevisionConflict, [])) /\
  (~ (sr_revision r = rev /\ now <= sr_created_at r + SEGMENT_EDIT_WINDOW_MS) -> db' = db /\ exists e, res = Err e).
Proof.
  intros [Hd Hc] G. pose proof (sql_get_Some _ _ _ G) as [Hr Hk]. unfold evaluate at 1, get at 1. rewrite G.
  cbn [fmap option_fmap option_map]. change (cs_revision (publicSegment r)) with (sr_revision r).
  change (cs_editable_until (publicSegment r)) with (sr_created_at r + SEGMENT_EDIT_WINDOW_MS).
  destruct (Z.eqb_spec (sr_revision r) rev) as [Hrev|Hrev]; cbn [negb].
  2: { split; [intros [? _]; congruence|]. eauto. }
  destruct (Z.ltb_spec (sr_created_at r + SEGMENT_EDIT_WINDOW_MS) now) as [Hw|Hw].
  { split; [lia|]. eauto. }
  set (upd := sql_update _ _ _).
  assert (sql_get (is_segment o c s) upd = Some (evaluate_set ev now r)) as Hg.
  { unfold upd. rewrite sql_get_update by done. rewrite G. cbn. by rewrite Hk, (proj2 (Z.eqb_eq _ _) Hrev). }
  assert (forall db', segments db' = upd -> get db' o c s = Some (publicSegment (evaluate_set ev now r)) /\
    evaluate sha256 o c s ev2 rev now2 db' = (db', Err RevisionConflict, [])) as Hafter.
  { intros db' E. assert (get db' o c s = Some (publicSegment (evaluate_set ev now r))) as Hget by (unfold get; by rewrite E, Hg).
    split; [done|]. unfold evaluate. rewrite Hget. cbn [cs_revision publicSegment evaluate_set sr_revision].
    rewrite (proj2 (Z.eqb_neq _ _)) by lia. done. }
  destruct (if bool_decide _ then _ else _) as [db2 bs] eqn:En.
  assert (segments db2 = upd) as E.
  { destruct (bool_decide _); [by injection En as <- _|]. cbn in En. by injection En as <- _. }
  destruct (Hafter db2 E) as [-> ->]. split; [done|]. intros Hn. destruct Hn. lia.
Qed.

(** ** Concrete runs *)

Definition demoOwner : SegmentOwner := mkSegOwner "t" "m".
Definition demoBucket : SegmentOutcomeBucket := mkBucket "x" 3600000.
Definition demoVerdict (v : option SegmentOutcome) : SegmentEvaluation := mkEvaluation v ["other"%string] None false.
Definition demoRun : list (seg_op * Z) :=
  [(SRecord demoOwner (mkRecord "c" "s1" ["x"%string; "y"%string] 4 3600001 (Some (demoVerdict (Some Resolved)))), 3600001);
   (SRecord demoOwner (mkRecord "c" "s2" ["x"%string] 2 3600900 None), 3600900);
   (SEvaluate demoOwner "c" "s2" (demoVerdict (Some Unresolved)) 1, 3700000);
   (SOutbox (OClaim "t" None 10 [KOutcome] "tok"), 3700001);
   (SEvaluate demoOwner "c" "s1" (demoVerdict None) 1, 3700002)].

Lemma published_counts_are_current_witness :
  let (db, _) := run_segs (fun s => s) (fun _ => UsdOther) (fun _ => 0) (mkSegDb [] []) demoRun in
  exists r, sql_get (is_summary (summaryId (fun s => s) demoOwner demoBucket)) (box db) = Some r /\
    o_payload r = POutcome (bucketSummary (fun s => s) (segments db) demoOwner demoBucket) /\
    hourlyCounts (segments db) demoOwner "x" 3600000 = (1, 0).
Proof.
  pose proof (published_counts_are_current (fun s => s) (fun _ => UsdOther) (fun _ => 0) demoRun demoOwner demoBucket eq_refl) as H.
  destruct (run_segs _ _ _ _ demoRun) as [db pub] eqn:E. vm_compute in E. injection E as <- <-.
  eexists. split; [vm_compute; reflexivity|]. split; [|vm_compute; reflexivity].
  apply H; clear H.
  - intros x Hx. repeat (apply elem_of_cons in Hx as [->|Hx]; [cbn; try done; lia|]). by apply not_elem_of_nil in Hx.
  - intros o' b' Hp Hid. repeat (apply elem_of_cons in Hp as [[= -> ->]|Hp]; [first [reflexivity | exfalso; vm_compute in Hid; discriminate]|]).
    by apply not_elem_of_nil in Hp.
Defined.

Definition demoRow : SegmentRow := newSegment demoOwner (mkRecord "c" "s1" ["x"%string] 4 3600001 None).
Lemma verdict_edits_are_guarded_witness :
  let '(db', res, _) := evaluate (fun s => s) demoOwner "c" "s1" (demoVerdict (Some Resolved)) 1 3700000 (mkSegDb [demoRow] []) in
  res = Ok (Some (publicSegment (evaluate_set (demoVerdict (Some Resolved)) 3700000 demoRow))) /\
  evaluate (fun s => s) demoOwner "c" "s1" (demoVerdict None) 1 3700001 db' = (db', Err RevisionConflict, []).
Proof.
  pose proof (verdict_edits_are_guarded (fun s => s) (mkSegDb [demoRow] []) demoOwner "c" "s1"
    (demoVerdict (Some Resolved)) (demoVerdict None) 1 3700000 3700001 demoRow) as H.
  destruct (evaluate (fun s => s) demoOwner "c" "s1" (demoVerdict (Some Resolved)) 1 3700000 (mkSegDb [demoRow] [])) as [[db' res] bs].
  apply H; [|reflexivity|cbn; unfold SEGMENT_EDIT_WINDOW_MS; lia]. split; [apply NoDup_singleton|].
  intros r Hr. apply list_elem_of_singleton in Hr as ->. cbn. lia.
Defined.
