(* ===== verification/UsageStats.v ===== *)
(** Usage statistics (services/usage-statistics.ts, [UsageStatisticsService]).

    The rows are what the two SELECT statements return, with their JSON columns parsed:
    [parsed] says whether the text was JSON and an object, and a [field] is a property of
    it as far as the code looks.  [dateParse] is [Date.parse], whose result for texts that
    are not ISO dates is left to the implementation, and [localeCompare] the host's
    collation. *)

From S2P Require Import Prelude Decimal Usage WorkRecords.
From Stdlib Require Import Sorting.Sorted.
Local Open Scope Z_scope.

(** A number that is an integer, or the fraction it stands for. *)
Inductive field : Type := FStr (s : string) | FInt (z : Z) | FReal (n : Z) (d : positive) | FOther.
Inductive parsed : Type := Unparsable | NotObject | Obj (m : list (string * field)).

Definition prop (m : list (string * field)) (name : string) : field := nullish (mget name m) FOther.
Definition isStr (v : field) (s : string) : bool := match v with FStr t => String.eqb t s | _ => false end.
(** [typeof v === "number" && Number.isSafeInteger(v) && v >= 0], with the number. *)
Definition counter (v : field) : option Z :=
  match v with FInt z => if (z <=? MAX_SAFE_INTEGER) && (0 <=? z) then Some z else None | _ => None end.
Definition usdOf (v : field) : usd_value :=
  match v with FStr s => UsdString s | FInt z => UsdNumber z 1 | FReal n d => UsdNumber n d | FOther => UsdOther end.

Record SampleUsage : Type := mkSampleUsage { su_input : Z; su_output : Z; su_cache : Z; su_duration : Z; su_costUnits : option N }.
Record UsageSample : Type := mkSample {
  sm_employeeId : string; sm_count : Z; sm_succeeded : Z; sm_nonSuccess : Z; sm_usage : option SampleUsage;
}.

Record UsageAccumulator : Type := mkAcc {
  executionCount : Z; succeededCount : Z; nonSuccessCount : Z;
  input : Z; output : Z; cache : Z; duration : Z;
  unknownCount : Z; knownCount : Z; cost : N;
}.
Definition newAcc : UsageAccumulator := mkAcc 0 0 0 0 0 0 0 0 0 0.

Definition add (a : UsageAccumulator) (s : UsageSample) : UsageAccumulator :=
  let a := mkAcc (executionCount a + sm_count s) (succeededCount a + sm_succeeded s) (nonSuccessCount a + sm_nonSuccess s)
             (input a) (output a) (cache a) (duration a) (unknownCount a) (knownCount a) (cost a) in
  let a := match sm_usage s with
    | Some u => mkAcc (executionCount a) (succeededCount a) (nonSuccessCount a)
        (input a + su_input u) (output a + su_output u) (cache a + su_cache u) (duration a + su_duration u)
        (unknownCount a) (knownCount a) (cost a)
    | None => a
    end in
  match sm_usage s ≫= su_costUnits with
  | Some c => mkAcc (executionCount a) (succeededCount a) (nonSuccessCount a) (input a) (output a) (cache a) (duration a)
                (unknownCount a) (knownCount a + sm_count s) (cost a + c)
  | None => mkAcc (executionCount a) (succeededCount a) (nonSuccessCount a) (input a) (output a) (cache a) (duration a)
              (unknownCount a + sm_count s) (knownCount a) (cost a)
  end.

Inductive PricingStatus : Type := PKnown | PPartial | PUnknown.
Record Totals : Type := mkTotals {
  t_execution_count : Z; t_succeeded_count : Z; t_non_success_count : Z;
  t_input_tokens : Z; t_output_tokens : Z; t_cache_tokens : Z; t_token_total : Z; t_duration_ms_total : Z;
  t_cost_total : option string; t_known_cost_total : string; t_cost_minor : option N;
  t_pricing_status : PricingStatus; t_unpriced_execution_count : Z;
}.

Definition totals (a : UsageAccumulator) (excluded : Z) : Totals :=
  let complete := (unknownCount a =? 0) && (excluded =? 0) in
  mkTotals (executionCount a) (succeededCount a) (nonSuccessCount a) (input a) (output a) (cache a)
    (input a + output a + cache a) (duration a)
    (if complete then Some (usdDecimal (cost a)) else None) (usdDecimal (cost a))
    (if complete then Some ((cost a + 5000000000) / 10000000000)%N else None)
    (if complete then PKnown else if 0 <? knownCount a then PPartial else PUnknown)
    (unknownCount a).

Section Statistics.
Context (dateParse : string -> option Z) (localeCompare : string -> string -> Z).

(** *** Hourly summaries *)

Record SummaryRow : Type := mkSummaryRow { sm_payload : parsed; sm_cost_total_decimal : option string }.

(** What one row gives: excluded, outside the filter, or a sample. *)
Inductive reading : Type := Excluded | Skipped | Sample (s : UsageSample).

Definition wrongEmployee (f : WorkFilter) (v : field) : bool :=
  match f_employeeId f with Some e => negb (String.eqb e "") && negb (isStr v e) | None => false end.
Definition outsideWindow (f : WorkFilter) (t : Z) : bool :=
  match f_start f with
  | Some s => (t <? s) || match f_end f with Some e => e <=? t | None => false end
  | None => false
  end.
Definition windowTime (v : field) : option Z := match v with FStr s => dateParse s | _ => None end.

Definition hourlySample (f : WorkFilter) (row : SummaryRow) : reading :=
  match sm_payload row with
  | Unparsable | NotObject => Excluded
  | Obj v =>
      if negb (isStr (prop v "tenant_id") (ow_tenantId (f_owner f))) || negb (isStr (prop v "member_id") (ow_memberId (f_owner f)))
      then Excluded
      else if wrongEmployee f (prop v "employee_id") then Skipped
      else match windowTime (prop v "window_start") with
      | None => Excluded
      | Some start =>
          if negb (Z.rem start 3600000 =? 0) || negb (bool_decide (windowTime (prop v "window_end") = Some (start + 3600000)))
          then Excluded
          else if outsideWindow f start then Skipped
          else if negb (isStr (prop v "schema_version") "1") || negb (isStr (prop v "currency") "USD") then Excluded
          else match counter (prop v "prompt_count"), counter (prop v "settled_count"), counter (prop v "error_count"),
                 counter (prop v "input_tokens"), counter (prop v "output_tokens"), counter (prop v "cache_tokens"),
                 counter (prop v "duration_ms_total") with
          | Some prompts, Some settled, Some errors, Some i, Some o, Some c, Some d =>
              let units := usdUnits (match sm_cost_total_decimal row with Some t => UsdString t | None => usdOf (prop v "cost_total") end) in
              Sample (mkSample (match prop v "employee_id" with FStr e => e | _ => "unknown" end) prompts settled errors
                (Some (mkSampleUsage i o c d (if isStr (prop v "pricing_status") "known" then units else None))))
          | _, _, _, _, _, _, _ => Excluded
          end
      end
  end.

(** *** Work records of one conversation *)

Record WorkStatRow : Type := mkStatRow {
  wr_employee_id : string; wr_outcome : WorkOutcome; wr_started_at : option Z; wr_ended_at : option Z;
  wr_occurred_at : option Z; wr_usage_json : option parsed;
}.

Definition workSample (f : WorkFilter) (row : WorkStatRow) : reading :=
  if match f_employeeId f with Some e => negb (String.eqb e "") && negb (String.eqb (wr_employee_id row) e) | None => false end then Skipped
  else if match f_start f with
    | Some _ => match wr_occurred_at row with Some t => outsideWindow f t | None => true end
    | None => false end then Skipped
  else match wr_usage_json row with
  | Some Unparsable => Excluded
  | usage =>
      let v := match usage with Some (Obj v) => v | _ => [] end in
      let units := if isStr (prop v "pricing_status") "known" then usdUnits (usdOf (prop v "cost_total")) else None in
      let duration := match wr_started_at row, wr_ended_at row with Some s, Some e => Z.max 0 (e - s) | _, _ => 0 end in
      let success := bool_decide (wr_outcome row = WFinal WSucceeded) in
      Sample (mkSample (wr_employee_id row) 1 (if success then 1 else 0) (if success then 0 else 1)
        match counter (prop v "input_tokens"), counter (prop v "output_tokens"), counter (prop v "cache_tokens") with
        | Some i, Some o, Some c => Some (mkSampleUsage i o c duration units)
        | _, _, _ => None
        end)
  end.

(** Both loops: the samples in order, and how many rows were excluded. *)
Definition collect {A} (read : A -> reading) (rows : list A) : list UsageSample * Z :=
  (omap (fun r => match read r with Sample s => Some s | _ => None end) rows,
   Z.of_nat (length (List.filter (fun r => match read r with Excluded => true | _ => false end) rows))).

Definition hourlySamples (f : WorkFilter) (rows : list SummaryRow) : list UsageSample * Z := collect (hourlySample f) rows.
Definition workRecordSamples (f : WorkFilter) (rows : list WorkStatRow) : list UsageSample * Z := collect (workSample f) rows.

(** *** The report *)

Inductive stat_error : Type := InvalidConversationId | InvalidGroupBy.
Record Report : Type := mkReport {
  rp_hourly : bool; rp_totals : Totals; rp_excluded : Z; rp_groups : option (list (string * Totals));
}.

(** [groups]: one accumulator per employee, in order of first appearance. *)
Definition addGroup (m : list (string * UsageAccumulator)) (s : UsageSample) : list (string * UsageAccumulator) :=
  mset (sm_employeeId s) (add (nullish (mget (sm_employeeId s) m) newAcc) s) m.
Definition groupsOf (samples : list UsageSample) : list (string * UsageAccumulator) := fold_left addGroup samples [].
Definition totalOf (samples : list UsageSample) : UsageAccumulator := fold_left add samples newAcc.

Definition groupBefore (a b : string * Totals) : bool :=
  let d := t_token_total b.2 - t_token_total a.2 in
  if d =? 0 then localeCompare a.1 b.1 <=? 0 else d <? 0.
Definition sortedGroups (samples : list UsageSample) : list (string * Totals) :=
  Sql.order_by groupBefore ((fun g => (g.1, totals g.2 0)) <$> groupsOf samples).

Definition statistics (f : WorkFilter) (conversationId groupBy : option string)
    (summaries : list SummaryRow) (work : list WorkStatRow) : result stat_error Report :=
  _ ← require match conversationId with Some c => negb (isBlank c || (256 <? slen c)) | None => true end InvalidConversationId;
  _ ← require match groupBy with Some g => String.eqb g "employee" | None => true end InvalidGroupBy;
  let '(samples, excluded) := match conversationId with
    | None => hourlySamples f summaries
    | Some _ => workRecordSamples f work
    end in
  Ok (mkReport (match conversationId with None => true | Some _ => false end) (totals (totalOf samples) excluded) excluded
        (match groupBy with None => None | Some _ => Some (sortedGroups samples) end)).
End Statistics.

(** ** Sums *)

Definition plus (a b : UsageAccumulator) : UsageAccumulator :=
  mkAcc (executionCount a + executionCount b) (succeededCount a + succeededCount b) (nonSuccessCount a + nonSuccessCount b)
    (input a + input b) (output a + output b) (cache a + cache b) (duration a + duration b)
    (unknownCount a + unknownCount b) (knownCount a + knownCount b) (cost a + cost b).
Definition sum (l : list UsageAccumulator) : UsageAccumulator := foldr plus newAcc l.

#[local] Ltac acc_eq := unfold plus; cbn; f_equal; lia.

Lemma plus_comm a b : plus a b = plus b a.
Proof. acc_eq. Qed.
Lemma plus_assoc a b c : plus a (plus b c) = plus (plus a b) c.
Proof. acc_eq. Qed.
Lemma plus_zero a : plus newAcc a = a.
Proof. destruct a. acc_eq. Qed.

Lemma add_plus a s : add a s = plus a (add newAcc s).
Proof.
  unfold add. destruct (sm_usage s) as [u|]; cbn [mbind option_bind];
    [destruct (su_costUnits u)|]; destruct a; acc_eq.
Qed.

Lemma fold_add_plus l a : fold_left add l a = plus a (fold_left add l newAcc).
Proof.
  revert a. induction l as [|s l IH]; intros a; cbn [fold_left]; [by rewrite plus_comm, plus_zero|].
  rewrite IH, (IH (add newAcc s)), (add_plus a), plus_assoc. done.
Qed.

(** Replacing one binding replaces one summand. *)
Lemma sum_mset k v m : NoDup (mkeys m) ->
  exists rest, sum (mset k v m).*2 = plus rest v /\ sum m.*2 = plus rest (nullish (mget k m) newAcc).
Proof.
  induction m as [|[k' v'] m IH]; intros Hd; cbn [mset mget].
  - exists newAcc. split; [|done]. apply plus_comm.
  - inversion Hd as [|? ? Hn Hd']; subst. destruct (String.eqb_spec k k') as [->|].
    + exists (sum m.*2). split; apply plus_comm.
    + destruct (IH Hd') as (rest & E1 & E2). exists (plus v' rest). rewrite !fmap_cons. cbn [snd].
      change (sum (v' :: ?l)) with (plus v' (sum l)). by rewrite E1, E2, !plus_assoc.
Qed.

Definition of_employee (e : string) (s : UsageSample) : bool := String.eqb (sm_employeeId s) e.

Lemma groupsOf_snoc l s : groupsOf (l ++ [s]) = addGroup (groupsOf l) s.
Proof. unfold groupsOf. by rewrite fold_left_app. Qed.

(** Groups partition the samples: one per employee, summing that employee's samples. *)
Lemma groupsOf_spec l :
  NoDup (mkeys (groupsOf l)) /\ sum (groupsOf l).*2 = totalOf l /\
  forall e, mget e (groupsOf l) = if existsb (of_employee e) l then Some (totalOf (List.filter (of_employee e) l)) else None.
Proof.
  induction l as [|s l (I1 & I2 & I3)] using rev_ind; [split_and!; [apply NoDup_nil_2|done|done]|].
  rewrite groupsOf_snoc. unfold addGroup. set (g := nullish (mget (sm_employeeId s) (groupsOf l)) newAcc).
  split_and!.
  - by apply NoDup_mset.
  - destruct (sum_mset (sm_employeeId s) (add g s) (groupsOf l) I1) as (rest & -> & E).
    rewrite (add_plus g), plus_assoc. unfold g. rewrite <- E, I2.
    unfold totalOf. rewrite fold_left_app. cbn [fold_left]. by rewrite (add_plus (fold_left add l newAcc)).
  - intros e. rewrite mget_mset, existsb_app, List.filter_app. cbn. unfold of_employee at 2 4.
    rewrite (String.eqb_sym (sm_employeeId s)).
    destruct (String.eqb_spec e (sm_employeeId s)) as [->|].
    + rewrite orb_true_r. f_equal. unfold totalOf. rewrite fold_left_app. cbn [fold_left]. f_equal.
      unfold g. rewrite I3. destruct (existsb _ l) eqn:Ex; [done|]. cbn.
      replace (List.filter (of_employee (sm_employeeId s)) l) with (@nil UsageSample); [done|].
      clear -Ex. induction l as [|x l IH]; cbn in *; [done|]. apply orb_false_iff in Ex as [-> ?]. auto.
    + rewrite orb_false_r, app_nil_r. apply I3.
Qed.

(** Samples never count negatively. *)
Definition sample_ok (s : UsageSample) : Prop := 0 <= sm_count s.
Lemma counter_nonneg v z : counter v = Some z -> 0 <= z.
Proof. unfold counter. destruct v; try done. case_match; [|done]. boolify. by intros [= <-]. Qed.

Lemma hourlySample_ok dateParse f row s : hourlySample dateParse f row = Sample s -> sample_ok s.
Proof.
  unfold hourlySample. destruct (sm_payload row) as [| |v]; try done. repeat (case_match; try done);
    intros [= <-]; unfold sample_ok; cbn;
    match goal with H : counter (prop _ "prompt_count") = Some _ |- _ => exact (counter_nonneg _ _ H) end.
Qed.
Lemma workSample_ok f row s : workSample f row = Sample s -> sample_ok s.
Proof.
  unfold workSample. intros H. destruct (match f_employeeId f with Some _ => _ | None => _ end); [done|].
  destruct (match f_start f with Some _ => _ | None => _ end); [done|].
  destruct (wr_usage_json row) as [[]|]; try done; injection H as <-; unfold sample_ok; cbn; lia.
Qed.
Lemma collect_ok {A} (read : A -> reading) rows : (forall r s, read r = Sample s -> sample_ok s) ->
  Forall sample_ok (collect read rows).1.
Proof.
  intros H. apply Forall_forall. intros s (r & Hr & E)%list_elem_of_omap.
  destruct (read r) eqn:Er; [done..|]. injection E as <-. by eapply H.
Qed.

Definition unpriced (s : UsageSample) : bool := match sm_usage s ≫= su_costUnits with Some _ => false | None => true end.

Lemma unknown_counts l : Forall sample_ok l ->
  0 <= unknownCount (totalOf l) /\ (forall s, s ∈ l -> unpriced s = true -> sm_count s <= unknownCount (totalOf l)).
Proof.
  unfold totalOf. induction 1 as [|s l Hs Hl [I1 I2]]; cbn [fold_left].
  { split; [done|]. intros s Hs. by apply not_elem_of_nil in Hs. }
  rewrite fold_add_plus. cbn [plus unknownCount].
  assert (unknownCount (add newAcc s) = if unpriced s then sm_count s else 0) as ->.
  { unfold add, unpriced. destruct (sm_usage s) as [u|]; cbn; [destruct (su_costUnits u)|]; cbn; lia. }
  unfold sample_ok in Hs. split; [destruct (unpriced s); lia|].
  intros x [->|Hx]%elem_of_cons Hu; [rewrite Hu; lia|]. specialize (I2 x Hx Hu). destruct (unpriced s); lia.
Qed.

(** The report adds up, and an unknown cost is never shown as zero.  For every query
    that is answered, over whatever rows the ledger or the work records hold: the totals
    are the sums of the samples; the groups are one per employee, each with the sums of
    exactly that employee's samples, and together they sum to the totals; and when any
    counted execution has no known cost, or any row was excluded, no total cost is given. *)
Theorem statistics_add_up (dateParse : string -> option Z) (localeCompare : string -> string -> Z) (f : WorkFilter)
    (conversationId groupBy : option string) (summaries : list SummaryRow) (work : list WorkStatRow) r :
  statistics dateParse localeCompare f conversationId groupBy summaries work = Ok r ->
  exists samples excluded,
    (samples, excluded) = match conversationId with
      | None => hourlySamples dateParse f summaries | Some _ => workRecordSamples f work end /\
    rp_totals r = totals (totalOf samples) excluded /\
    (forall gs, rp_groups r = Some gs ->
       NoDup gs.*1 /\
       (forall e t, (e, t) ∈ gs <-> existsb (of_employee e) samples = true /\ t = totals (totalOf (List.filter (of_employee e) samples)) 0) /\
       exists accs, gs ≡ₚ (fun g => (g.1, totals g.2 0)) <$> accs /\ sum accs.*2 = totalOf samples) /\
    (excluded <> 0 \/ (exists s, s ∈ samples /\ unpriced s = true /\ 0 < sm_count s) -> t_cost_total (rp_totals r) = None).
Proof.
  intros H. unfold statistics in H. apply bind_Ok in H as (_ & _ & (_ & _ & H)%bind_Ok).
  destruct (match conversationId with Some _ => _ | None => _ end) as [samples excluded] eqn:E. injection H as <-.
  exists samples, excluded. split; [done|]. split; [done|]. destruct (groupsOf_spec samples) as (G1 & G2 & G3). split.
  - cbn [rp_groups]. intros gs Hgs. destruct groupBy; [injection Hgs as <-|done]. unfold sortedGroups.
    set (l := (fun g => (g.1, totals g.2 0)) <$> groupsOf samples).
    assert (l.*1 = mkeys (groupsOf samples)) as Hk by (unfold l, mkeys; rewrite <- list_fmap_compose; done).
    split_and!.
    + rewrite Sql.order_by_perm, Hk. done.
    + intros e t. rewrite Sql.elem_of_order_by. unfold l. rewrite list_elem_of_fmap. split.
      * intros ([e' a] & [= -> ->] & Hin). apply (In_mget _ _ _ G1) in Hin. rewrite G3 in Hin.
        destruct (existsb _ samples); [by injection Hin as <-|done].
      * intros [Hex ->]. exists (e, totalOf (List.filter (of_employee e) samples)). split; [done|].
        apply mget_In. by rewrite G3, Hex.
    + exists (groupsOf samples). split; [apply Sql.order_by_perm|done].
  - cbn [rp_totals]. unfold totals. cbn [t_cost_total].
    assert (Forall sample_ok samples) as Hok.
    { replace samples with (match conversationId with Some _ => workRecordSamples f work | None => hourlySamples dateParse f summaries end).1
        by (by rewrite E). destruct conversationId; apply collect_ok; [apply workSample_ok|intros ? ?; apply hourlySample_ok]. }
    destruct (unknown_counts samples Hok) as [_ Hu].
    intros [Hex|(s & Hs & Hup & Hpos)].
    + apply Z.eqb_neq in Hex as ->. by rewrite andb_false_r.
    + specialize (Hu s Hs Hup). rewrite (proj2 (Z.eqb_neq _ _)) by lia. done.
Qed.

(** Two summaries of one employee, one of them unpriced. *)
Definition demoRow (known : bool) : SummaryRow :=
  mkSummaryRow (Obj [("tenant_id", FStr "t"); ("member_id", FStr "m"); ("employee_id", FStr "x"); ("window_start", FStr "a");
    ("window_end", FStr "b"); ("schema_version", FStr "1"); ("currency", FStr "USD"); ("prompt_count", FInt 2);
    ("settled_count", FInt 2); ("error_count", FInt 0); ("input_tokens", FInt 5); ("output_tokens", FInt 6);
    ("cache_tokens", FInt 0); ("duration_ms_total", FInt 9); ("pricing_status", FStr (if known then "known" else "unknown"))]%string)
    (Some "0.5"%string).
Definition demoParse (s : string) : option Z := if String.eqb s "a" then Some 7200000 else Some 10800000.
Definition demoFilter : WorkFilter := mkFilter (mkOwner "t" "m") None None None.

Lemma statistics_add_up_witness :
  exists r, statistics demoParse (fun _ _ => 0) demoFilter None (Some "employee") [demoRow true; demoRow false] [] = Ok r /\
    t_cost_total (rp_totals r) = None /\ t_known_cost_total (rp_totals r) = "0.500000000000"%string.
Proof.
  destruct (statistics demoParse (fun _ _ => 0) demoFilter None (Some "employee") [demoRow true; demoRow false] []) as [r|] eqn:E;
    [|vm_compute in E; discriminate].
  pose proof E as E'. apply statistics_add_up in E as (samples & excluded & Es & Et & _ & Hn).
  exists r. split; [done|]. vm_compute in Es. injection Es as -> ->. split.
  - apply Hn. right. eexists. split; [right; left|]. split; reflexivity.
  - rewrite Et. vm_compute. reflexivity.
Defined.
