(* ===== verification/OrgTree.v ===== *)
(** The department tree of the organisation chart (clients/desktop, pages/OrgChart/orgTree.ts).

    A department is a node with its members and its children; a missing [children] or
    [members] is the empty list, as the code reads it everywhere.  Names are texts of
    UTF-16 units; [nfkc] and [lower] are [normalize('NFKC')] and [toLowerCase], which are
    tables of the host's Unicode version. *)

From S2P Require Import Prelude Regex.
Local Open Scope Z_scope.

Record ApiEmployee : Type := mkEmployee { employee_id : string; department_of : option string }.

Inductive ApiDepartment : Type :=
| Dept (id : string) (name : text) (parent_id : option string) (members : list ApiEmployee) (children : list ApiDepartment).

Definition d_id (d : ApiDepartment) : string := let (i, _, _, _, _) := d in i.
Definition d_name (d : ApiDepartment) : text := let (_, n, _, _, _) := d in n.
Definition d_parent (d : ApiDepartment) : option string := let (_, _, p, _, _) := d in p.
Definition d_members (d : ApiDepartment) : list ApiEmployee := let (_, _, _, m, _) := d in m.
Definition d_children (d : ApiDepartment) : list ApiDepartment := let (_, _, _, _, c) := d in c.

Definition with_children (d : ApiDepartment) (c : list ApiDepartment) : ApiDepartment :=
  Dept (d_id d) (d_name d) (d_parent d) (d_members d) c.
Definition with_parent (d : ApiDepartment) (p : option string) : ApiDepartment :=
  Dept (d_id d) (d_name d) p (d_members d) (d_children d).

Definition DEFAULT_DEPARTMENT_ID : string := "__default__".
Definition SERVER_UNASSIGNED_DEPARTMENT_ID : string := "unassigned".
Definition MAX_DEPARTMENT_DEPTH : Z := 5.
Definition MAX_DEPARTMENT_NAME_LENGTH : Z := 64.

(** [for (const x of l) { const r = f(x); if (r) return r }]. *)
Section First.
Context {A B : Type} (f : A -> option B).
Fixpoint first_some (l : list A) : option B :=
  match l with
  | [] => None
  | x :: l => match f x with Some r => Some r | None => first_some l end
  end.
End First.

(** [l.filter(p).map(f)]. *)
Section FilterMap.
Context {A B : Type} (p : A -> bool) (f : A -> B).
Fixpoint filter_map (l : list A) : list B :=
  match l with
  | [] => []
  | x :: l => if p x then f x :: filter_map l else filter_map l
  end.
End FilterMap.

(** ** Walks *)

Fixpoint ids (d : ApiDepartment) : list string := d_id d :: concat (map ids (d_children d)).
Definition collectDepartmentIds (l : list ApiDepartment) : list string := concat (map ids l).

Fixpoint employees (d : ApiDepartment) : list ApiEmployee := d_members d ++ concat (map employees (d_children d)).
Definition collectEmployeesFromTree (l : list ApiDepartment) : list ApiEmployee := concat (map employees l).

Definition groupKey (valid : list string) (e : ApiEmployee) : string :=
  match department_of e with
  | Some d => if negb (String.eqb d "") && bool_decide (d ∈ valid) then d else DEFAULT_DEPARTMENT_ID
  | None => DEFAULT_DEPARTMENT_ID
  end.
Definition groupEmployeesByDepartment (departments : list ApiDepartment) (l : list ApiEmployee)
    : list (string * list ApiEmployee) :=
  let valid := collectDepartmentIds departments in
  fold_left (fun m e => mset (groupKey valid e) (nullish (mget (groupKey valid e) m) [] ++ [e]) m) l [].

Fixpoint assignable (employeeId : string) (depth : Z) (d : ApiDepartment) : list (string * text * Z) :=
  let belongs := existsb (fun m => String.eqb (employee_id m) employeeId) (d_members d) in
  (if negb (String.eqb (d_id d) SERVER_UNASSIGNED_DEPARTMENT_ID) && negb belongs then [(d_id d, d_name d, depth)] else [])
  ++ concat (map (assignable employeeId (depth + 1)) (d_children d)).
Definition listAssignableDepartments (l : list ApiDepartment) (employeeId : string) : list (string * text * Z) :=
  concat (map (assignable employeeId 0) l).

Fixpoint findIn (id : string) (depth : Z) (d : ApiDepartment) : option (ApiDepartment * Z) :=
  if String.eqb (d_id d) id then Some (d, depth) else first_some (findIn id (depth + 1)) (d_children d).
Definition findDepartment (l : list ApiDepartment) (id : string) (depth : Z) : option (ApiDepartment * Z) :=
  first_some (findIn id depth) l.

Fixpoint findParentIn (id : string) (parent : option string) (d : ApiDepartment) : option (option string) :=
  if String.eqb (d_id d) id then Some parent else first_some (findParentIn id (Some (d_id d))) (d_children d).
Definition findParentId (l : list ApiDepartment) (id : string) (parent : option string) : option (option string) :=
  first_some (findParentIn id parent) l.
Definition parentOf (l : list ApiDepartment) (id : string) : option (option string) := findParentId l id None.
Definition isAncestor (l : list ApiDepartment) (ancestorId id : string) : bool :=
  match findDepartment l ancestorId 1 with
  | Some (d, _) => bool_decide (is_Some (findDepartment (d_children d) id 1))
  | None => false
  end.

Fixpoint subtreeHeight (d : ApiDepartment) : Z := 1 + foldr Z.max 0 (map subtreeHeight (d_children d)).

Fixpoint prune (id : string) (d : ApiDepartment) : ApiDepartment :=
  with_children d (filter_map (fun c => negb (String.eqb (d_id c) id)) (prune id) (d_children d)).
Definition withoutDepartment (l : list ApiDepartment) (id : string) : list ApiDepartment :=
  filter_map (fun c => negb (String.eqb (d_id c) id)) (prune id) l.

Fixpoint graft (parentId : string) (node d : ApiDepartment) : ApiDepartment :=
  if String.eqb (d_id d) parentId then with_children d (d_children d ++ [node])
  else with_children d (map (graft parentId node) (d_children d)).
Definition insertUnder (l : list ApiDepartment) (parentId : string) (node : ApiDepartment) : list ApiDepartment :=
  map (graft parentId node) l.

(** ** Moving *)

Inductive move_error : Type := MUnassigned | MNotFound | MItself | MNoTarget | MTooDeep | MUnchanged.

(** The moved tree, and the promoted department when a department was dropped on one of
    its own descendants. *)
Definition moveDepartment (l : list ApiDepartment) (departmentId : string) (parentId : option string)
    : result move_error (list ApiDepartment * option string) :=
  if String.eqb departmentId SERVER_UNASSIGNED_DEPARTMENT_ID
     || bool_decide (parentId = Some SERVER_UNASSIGNED_DEPARTMENT_ID) then Err MUnassigned else
  match findDepartment l departmentId 1 with
  | None => Err MNotFound
  | Some (node, _) =>
      if bool_decide (parentId = Some departmentId) then Err MItself else
      let below := match parentId with
        | Some p => (fun r => (p, r.1)) <$> findDepartment (d_children node) p 1
        | None => None
        end in
      match below with
      | Some (p, promoted) =>
          let currentParent := nullish (findParentId l departmentId None) None in
          match withoutDepartment [node] p with
          | oldNode :: _ =>
              let swapped := Dept (d_id promoted) (d_name promoted) currentParent (d_members promoted)
                               (d_children promoted ++ [with_parent oldNode (Some p)]) in
              let baseDepth := match currentParent with
                | None => 0
                | Some c => match findDepartment l c 1 with Some (_, k) => k | None => 0 end
                end in
              if MAX_DEPARTMENT_DEPTH <? baseDepth + subtreeHeight swapped then Err MTooDeep else
              let rest := withoutDepartment l departmentId in
              Ok (match currentParent with None => rest ++ [swapped] | Some c => insertUnder rest c swapped end, Some p)
          | [] => Err MNotFound
          end
      | None =>
          _ ← match parentId with
              | None => Ok tt
              | Some p => match findDepartment l p 1 with
                  | None => Err MNoTarget
                  | Some (_, k) => require (k + subtreeHeight node <=? MAX_DEPARTMENT_DEPTH) MTooDeep
                  end
              end;
          if bool_decide (findParentId l departmentId None = Some parentId) then Err MUnchanged else
          let rest := withoutDepartment l departmentId in
          let moved := with_parent node parentId in
          Ok (match parentId with None => rest ++ [moved] | Some p => insertUnder rest p moved end, None)
      end
  end.

(** ** Names *)

Section Names.
Context (nfkc lower : text -> text).
Definition normalizeDepartmentName (name : text) : text := lower (trim (nfkc name)).

Fixpoint namedIn (wanted : text) (exceptId : option string) (d : ApiDepartment) : bool :=
  (negb (bool_decide (Some (d_id d) = exceptId)) && bool_decide (normalizeDepartmentName (d_name d) = wanted))
  || existsb (namedIn wanted exceptId) (d_children d).
Definition hasDepartmentNamed (l : list ApiDepartment) (name : text) (exceptId : option string) : bool :=
  match normalizeDepartmentName name with
  | [] => false
  | wanted => existsb (namedIn wanted exceptId) l
  end.

Fixpoint rename_in (id : string) (name : text) (d : ApiDepartment) : ApiDepartment :=
  Dept (d_id d) (if String.eqb (d_id d) id then name else d_name d) (d_parent d) (d_members d)
    (map (rename_in id name) (d_children d)).
Definition mapDepartment (l : list ApiDepartment) (id : string) (name : text) : list ApiDepartment := map (rename_in id name) l.

Inductive rename_error : Type := NUnassigned | NNotFound | NEmpty | NTooLong | NDuplicate | NUnchanged.
Definition renameDepartment (l : list ApiDepartment) (departmentId : string) (rawName : text)
    : result rename_error (list ApiDepartment) :=
  let name := trim rawName in
  _ ← require (negb (String.eqb departmentId SERVER_UNASSIGNED_DEPARTMENT_ID)) NUnassigned;
  match findDepartment l departmentId 1 with
  | None => Err NNotFound
  | Some (d, _) =>
      _ ← require (negb (bool_decide (name = []))) NEmpty;
      _ ← require (Z.of_nat (length name) <=? MAX_DEPARTMENT_NAME_LENGTH) NTooLong;
      _ ← require (negb (hasDepartmentNamed l name (Some departmentId))) NDuplicate;
      _ ← require (negb (bool_decide (d_name d = name))) NUnchanged;
      Ok (mapDepartment l departmentId name)
  end.
End Names.

(** ** Trees and forests *)

Lemma dept_induction (P : ApiDepartment -> Prop) :
  (forall d, (forall c, c ∈ d_children d -> P c) -> P d) -> forall d, P d.
Proof.
  intros H. fix IH 1. intros [i n p m c]. apply H. cbn. induction c as [|x c IHc].
  - intros y Hy. exfalso. exact (not_elem_of_nil y Hy).
  - intros y Hy. apply elem_of_cons in Hy as [->|Hy]; [exact (IH x)|exact (IHc y Hy)].
Qed.

(** What a department is, apart from its place. *)
Definition entry : Type := string * text * list ApiEmployee.
Fixpoint entries (d : ApiDepartment) : list entry := (d_id d, d_name d, d_members d) :: concat (map entries (d_children d)).
Definition allEntries (l : list ApiDepartment) : list entry := concat (map entries l).
Definition entry_id (e : entry) : string := e.1.1.

Lemma concat_map_cons {A B} (f : A -> list B) x l : concat (map f (x :: l)) = f x ++ concat (map f l).
Proof. done. Qed.

Lemma elem_concat_map {A B} (f : A -> list B) l y : y ∈ concat (map f l) <-> exists x, x ∈ l /\ y ∈ f x.
Proof.
  induction l as [|x l IH].
  - split; [by intros ?%not_elem_of_nil|]. intros (x & Hx & _). by apply not_elem_of_nil in Hx.
  - rewrite concat_map_cons, elem_of_app, IH. split.
    + intros [?|(z & ? & ?)]; [exists x; split; [left|done]|exists z; split; [by right|done]].
    + intros (z & [->|Hz]%elem_of_cons & ?); [by left|right; eauto].
Qed.

Lemma ids_entries d : ids d = entry_id <$> entries d.
Proof.
  induction d as [d IH] using dept_induction. destruct d as [i n p m c]; cbn in *. f_equal.
  induction c as [|x c IHc]; [done|]. cbn. rewrite fmap_app, IH by (by left). f_equal.
  apply IHc. intros y Hy. apply IH. by right.
Qed.
Lemma forest_ids l : collectDepartmentIds l = entry_id <$> allEntries l.
Proof. unfold collectDepartmentIds, allEntries. induction l as [|d l IH]; cbn; [done|]. by rewrite fmap_app, ids_entries, IH. Qed.

Lemma forest_cons d l : collectDepartmentIds (d :: l) = ids d ++ collectDepartmentIds l.
Proof. done. Qed.
Lemma ids_unfold d : ids d = d_id d :: collectDepartmentIds (d_children d).
Proof. by destruct d. Qed.
Lemma entries_unfold d : entries d = (d_id d, d_name d, d_members d) :: allEntries (d_children d).
Proof. by destruct d. Qed.
Lemma findIn_unfold id k d : findIn id k d = if String.eqb (d_id d) id then Some (d, k) else findDepartment (d_children d) id (k + 1).
Proof. by destruct d. Qed.
Lemma findParentIn_unfold id q d : findParentIn id q d = if String.eqb (d_id d) id then Some q else findParentId (d_children d) id (Some (d_id d)).
Proof. by destruct d. Qed.
Lemma prune_unfold id d : prune id d = with_children d (withoutDepartment (d_children d) id).
Proof. by destruct d. Qed.
Lemma graft_unfold p node d : graft p node d =
  if String.eqb (d_id d) p then with_children d (d_children d ++ [node]) else with_children d (insertUnder (d_children d) p node).
Proof. by destruct d. Qed.
Lemma height_unfold d : subtreeHeight d = 1 + foldr Z.max 0 (map subtreeHeight (d_children d)).
Proof. by destruct d. Qed.
Lemma with_children_same d : with_children d (d_children d) = d.
Proof. by destruct d. Qed.

(** Lift a statement about one tree to forests: [P] for a forest holds when it holds for
    every tree whose children satisfy it. *)
Lemma forest_induction (P : list ApiDepartment -> Prop) :
  P [] -> (forall d l, P (d_children d) -> P l -> P (d :: l)) -> forall l, P l.
Proof.
  intros H0 Hc. assert (forall d, P (d_children d)) as Hd.
  { induction d as [d IH] using dept_induction. destruct d as [i n p m c]; cbn in *.
    induction c as [|x c IHc]; [done|]. apply Hc; [apply IH; by left|].
    apply IHc. intros y Hy. apply IH. by right. }
  induction l as [|d l IH]; [done|]. by apply Hc.
Qed.

Lemma find_cons d l id k : findDepartment (d :: l) id k =
  if String.eqb (d_id d) id then Some (d, k) else
  match findDepartment (d_children d) id (k + 1) with Some r => Some r | None => findDepartment l id k end.
Proof. unfold findDepartment at 1. cbn [first_some]. rewrite findIn_unfold. by destruct (String.eqb (d_id d) id). Qed.

Lemma parent_cons d l id q : findParentId (d :: l) id q =
  if String.eqb (d_id d) id then Some q else
  match findParentId (d_children d) id (Some (d_id d)) with Some r => Some r | None => findParentId l id q end.
Proof. unfold findParentId at 1. cbn [first_some]. rewrite findParentIn_unfold. by destruct (String.eqb (d_id d) id). Qed.

Lemma without_cons d l id : withoutDepartment (d :: l) id =
  if String.eqb (d_id d) id then withoutDepartment l id
  else with_children d (withoutDepartment (d_children d) id) :: withoutDepartment l id.
Proof. unfold withoutDepartment at 1. cbn [filter_map]. destruct (String.eqb (d_id d) id); cbn [negb]; [done|]. by rewrite prune_unfold. Qed.

Lemma insert_cons d l p node : insertUnder (d :: l) p node = graft p node d :: insertUnder l p node.
Proof. done. Qed.

Lemma find_None l id k : findDepartment l id k = None <-> id ∉ collectDepartmentIds l.
Proof.
  revert k. induction l as [|d l IHd IHl] using forest_induction; intros k.
  { split; [|done]. intros _. apply not_elem_of_nil. }
  rewrite find_cons, forest_cons, ids_unfold, not_elem_of_app, not_elem_of_cons.
  destruct (String.eqb_spec (d_id d) id) as [->|Hne]; [split; [done|naive_solver]|].
  rewrite <- (IHd (k + 1)), <- (IHl k). destruct (findDepartment (d_children d) id (k + 1)); naive_solver.
Qed.

Lemma department_find_Some l id k n k' : findDepartment l id k = Some (n, k') ->
  d_id n = id /\ id ∈ collectDepartmentIds l /\ forall x, x ∈ ids n -> x ∈ collectDepartmentIds l.
Proof.
  intros H. assert (id ∈ collectDepartmentIds l) as Hin.
  { destruct (decide (id ∈ collectDepartmentIds l)) as [|Hn]; [done|]. apply (find_None l id k) in Hn. congruence. }
  split_and!; [|done|]; clear Hin; revert k H; induction l as [|d l IHd IHl] using forest_induction; intros k H; try done.
  - rewrite find_cons in H. destruct (String.eqb_spec (d_id d) id); [congruence|].
    destruct (findDepartment (d_children d) id (k + 1)) eqn:E; [simplify_eq; eauto|eauto].
  - rewrite find_cons in H. rewrite forest_cons. intros x Hx.
    destruct (String.eqb_spec (d_id d) id).
    + injection H as <- _. apply elem_of_app. by left.
    + destruct (findDepartment (d_children d) id (k + 1)) eqn:E; [simplify_eq|]; apply elem_of_app; [left|right; eauto].
      rewrite ids_unfold. right. eauto.
Qed.

(** Dropping and inserting do nothing where the department is not. *)
Lemma without_absent l id : id ∉ collectDepartmentIds l -> withoutDepartment l id = l.
Proof.
  induction l as [|d l IHd IHl] using forest_induction; [done|].
  rewrite forest_cons, ids_unfold, not_elem_of_app, not_elem_of_cons. intros [[Hne Hc] Hl]. rewrite without_cons.
  apply not_eq_sym, String.eqb_neq in Hne as ->. rewrite IHd, IHl by done. by rewrite with_children_same.
Qed.
Lemma insert_absent l p node : p ∉ collectDepartmentIds l -> insertUnder l p node = l.
Proof.
  induction l as [|d l IHd IHl] using forest_induction; [done|].
  rewrite forest_cons, ids_unfold, not_elem_of_app, not_elem_of_cons. intros [[Hne Hc] Hl]. rewrite insert_cons, graft_unfold.
  apply not_eq_sym, String.eqb_neq in Hne as ->. rewrite IHd, IHl by done. by rewrite with_children_same.
Qed.

Lemma NoDup_forest d l : NoDup (collectDepartmentIds (d :: l)) ->
  d_id d ∉ collectDepartmentIds (d_children d) /\ d_id d ∉ collectDepartmentIds l /\
  NoDup (collectDepartmentIds (d_children d)) /\ NoDup (collectDepartmentIds l) /\
  forall x, x ∈ collectDepartmentIds (d_children d) -> x ∉ collectDepartmentIds l.
Proof.
  rewrite forest_cons, ids_unfold. intros (H1 & H2 & H3)%NoDup_app. apply NoDup_cons in H1 as [H1 H1'].
  split_and!; [done|apply H2; by left|done|done|]. intros x Hx. apply H2. by right.
Qed.

Lemma allEntries_cons d l : allEntries (d :: l) = entries d ++ allEntries l.
Proof. done. Qed.
Lemma allEntries_app l k : allEntries (l ++ k) = allEntries l ++ allEntries k.
Proof. unfold allEntries. by rewrite map_app, concat_app. Qed.

Lemma perm_swap_tail {A} (a b c : list A) : (a ++ b) ++ c ≡ₚ (a ++ c) ++ b.
Proof. rewrite <- !app_assoc. apply Permutation_app_head, Permutation_app_comm. Qed.

(** Taking a department out leaves the rest; putting one in adds it. *)
Lemma without_entries l id k n k' : NoDup (collectDepartmentIds l) -> findDepartment l id k = Some (n, k') ->
  allEntries l ≡ₚ allEntries (withoutDepartment l id) ++ entries n.
Proof.
  revert k. induction l as [|d l IHd IHl] using forest_induction; intros k Hd Hf; [done|].
  apply NoDup_forest in Hd as (N1 & N2 & N3 & N4 & N5). rewrite find_cons in Hf. rewrite without_cons, allEntries_cons.
  destruct (String.eqb_spec (d_id d) id) as [<-|Hne].
  - injection Hf as <- _. rewrite without_absent by done. apply Permutation_app_comm.
  - destruct (findDepartment (d_children d) id (k + 1)) as [[n1 k1]|] eqn:E.
    + injection Hf as -> ->. pose proof (department_find_Some _ _ _ _ _ E) as (_ & Hin & _).
      rewrite (without_absent l) by (by apply N5). rewrite allEntries_cons, (entries_unfold d), (entries_unfold (with_children d _)). cbn [with_children d_id d_name d_members d_children].
      rewrite (IHd _ N3 E), <- !app_comm_cons. constructor. apply perm_swap_tail.
    + rewrite (without_absent (d_children d)) by (by apply (find_None _ _ (k + 1))).
      rewrite with_children_same, allEntries_cons. rewrite (IHl _ N4 Hf). by rewrite app_assoc.
Qed.

Lemma without_ids l id k n k' : NoDup (collectDepartmentIds l) -> findDepartment l id k = Some (n, k') ->
  collectDepartmentIds l ≡ₚ collectDepartmentIds (withoutDepartment l id) ++ ids n.
Proof. intros Hd Hf. rewrite !forest_ids, ids_entries, <- fmap_app. by rewrite <- (without_entries l id k n k'). Qed.

Lemma insert_entries l p node : NoDup (collectDepartmentIds l) -> p ∈ collectDepartmentIds l ->
  allEntries (insertUnder l p node) ≡ₚ allEntries l ++ entries node.
Proof.
  induction l as [|d l IHd IHl] using forest_induction; intros Hd Hp; [by apply not_elem_of_nil in Hp|].
  apply NoDup_forest in Hd as (N1 & N2 & N3 & N4 & N5). rewrite insert_cons, graft_unfold, !allEntries_cons.
  destruct (String.eqb_spec (d_id d) p) as [<-|Hne].
  - rewrite (insert_absent l) by done. rewrite (entries_unfold d), (entries_unfold (with_children d _)). cbn [with_children d_id d_name d_members d_children].
    rewrite allEntries_app, allEntries_cons, <- !app_comm_cons. constructor. change (allEntries []) with (@nil entry). rewrite app_nil_r. apply perm_swap_tail.
  - rewrite forest_cons, ids_unfold, elem_of_app, elem_of_cons in Hp.
    rewrite (entries_unfold d), (entries_unfold (with_children d _)). cbn [with_children d_id d_name d_members d_children].
    rewrite <- !app_comm_cons. constructor. destruct (decide (p ∈ collectDepartmentIds (d_children d))) as [Hc|Hc].
    + rewrite (insert_absent l) by (by apply N5). rewrite (IHd N3 Hc). apply perm_swap_tail.
    + rewrite (insert_absent (d_children d)) by done. rewrite IHl by (try done; naive_solver). by rewrite app_assoc.
Qed.

Definition forestHeight (l : list ApiDepartment) : Z := foldr Z.max 0 (map subtreeHeight l).

Lemma forestHeight_nonneg l : 0 <= forestHeight l.
Proof. unfold forestHeight. induction l; cbn; lia. Qed.
Lemma forestHeight_cons d l : forestHeight (d :: l) = Z.max (1 + forestHeight (d_children d)) (forestHeight l).
Proof. unfold forestHeight at 1. cbn [map foldr]. by rewrite height_unfold. Qed.

Lemma without_height l id : forestHeight (withoutDepartment l id) <= forestHeight l.
Proof.
  induction l as [|d l IHd IHl] using forest_induction; [done|]. rewrite without_cons.
  destruct (String.eqb (d_id d) id); rewrite !forestHeight_cons; cbn [with_children d_children]; lia.
Qed.

Lemma forestHeight_app l k : forestHeight (l ++ k) = Z.max (forestHeight l) (forestHeight k).
Proof.
  induction l as [|d l IH]; cbn [app]; [pose proof (forestHeight_nonneg k); cbn; lia|].
  rewrite !forestHeight_cons, IH. lia.
Qed.

Lemma insert_height l p node k m k' : NoDup (collectDepartmentIds l) -> findDepartment l p k = Some (m, k') ->
  forestHeight (insertUnder l p node) <= Z.max (forestHeight l) (k' - k + 1 + subtreeHeight node).
Proof.
  revert k. induction l as [|d l IHd IHl] using forest_induction; intros k Hd Hf; [done|].
  apply NoDup_forest in Hd as (N1 & N2 & N3 & N4 & N5). rewrite find_cons in Hf. rewrite insert_cons, graft_unfold.
  destruct (String.eqb_spec (d_id d) p) as [<-|Hne].
  - injection Hf as <- <-. rewrite (insert_absent l) by done. rewrite !forestHeight_cons. cbn [with_children d_children].
    rewrite forestHeight_app, (forestHeight_cons node), (height_unfold node). fold (forestHeight (d_children node)).
    change (forestHeight []) with 0. pose proof (forestHeight_nonneg (d_children node)). lia.
  - rewrite !forestHeight_cons. cbn [with_children d_children]. destruct (findDepartment (d_children d) p (k + 1)) as [[m1 k1]|] eqn:E.
    + injection Hf as -> ->. pose proof (department_find_Some _ _ _ _ _ E) as (_ & Hin & _).
      rewrite (insert_absent l) by (by apply N5). specialize (IHd _ N3 E). lia.
    + rewrite (insert_absent (d_children d)) by (by apply (find_None _ _ (k + 1))). specialize (IHl _ N4 Hf). lia.
Qed.

(** What lies outside the department taken out stays at its depth. *)
Lemma find_without l id p k n kn m k' : NoDup (collectDepartmentIds l) -> findDepartment l id k = Some (n, kn) ->
  p ∉ ids n -> findDepartment l p k = Some (m, k') -> exists m', findDepartment (withoutDepartment l id) p k = Some (m', k').
Proof.
  revert k. induction l as [|d l IHd IHl] using forest_induction; intros k Hd Hid Hp Hf; [done|].
  apply NoDup_forest in Hd as (N1 & N2 & N3 & N4 & N5). rewrite find_cons in Hid, Hf. rewrite without_cons.
  destruct (String.eqb_spec (d_id d) id) as [<-|Hne].
  - injection Hid as <- _. rewrite ids_unfold, not_elem_of_cons in Hp. destruct Hp as [Hp1 Hp2].
    rewrite (without_absent l) by done. apply not_eq_sym, String.eqb_neq in Hp1. rewrite Hp1 in Hf.
    apply (find_None _ _ (k + 1)) in Hp2. rewrite Hp2 in Hf. eauto.
  - rewrite find_cons. cbn [with_children d_id d_children]. destruct (String.eqb_spec (d_id d) p) as [Hdp|Hdp].
    { injection Hf as _ <-. eauto. }
    destruct (findDepartment (d_children d) id (k + 1)) as [[n1 k1]|] eqn:E1.
    + injection Hid as -> ->. pose proof (department_find_Some _ _ _ _ _ E1) as (_ & Hin & _).
      rewrite (without_absent l) by (by apply N5).
      destruct (findDepartment (d_children d) p (k + 1)) as [[m1 k2]|] eqn:E2.
      * injection Hf as -> ->. destruct (IHd _ N3 E1 Hp E2) as [m' ->]. eauto.
      * assert (p ∉ collectDepartmentIds (withoutDepartment (d_children d) id)) as Hn.
        { apply (find_None _ _ (k + 1)) in E2. intros Hin2. apply E2.
          rewrite (without_ids _ _ _ _ _ N3 E1). apply elem_of_app. by left. }
        apply (find_None _ _ (k + 1)) in Hn. rewrite Hn. eauto.
    + rewrite (without_absent (d_children d)) by (by apply (find_None _ _ (k + 1))).
      destruct (findDepartment (d_children d) p (k + 1)) as [[m1 k2]|]; [injection Hf as -> ->; eauto|]. by eapply IHl.
Qed.

Lemma parent_None l id q : id ∉ collectDepartmentIds l -> findParentId l id q = None.
Proof.
  revert q. induction l as [|d l IHd IHl] using forest_induction; intros q; [done|].
  rewrite forest_cons, ids_unfold, not_elem_of_app, not_elem_of_cons. intros [[Hne Hc] Hl]. rewrite parent_cons.
  apply not_eq_sym, String.eqb_neq in Hne as ->. by rewrite IHd, IHl.
Qed.

Lemma parent_snoc l node x q : x ∉ collectDepartmentIds l -> findParentId (l ++ [node]) x q = findParentId [node] x q.
Proof.
  unfold findParentId. induction l as [|y l IH]; [done|]. intros Hy. cbn [app first_some].
  rewrite forest_cons, not_elem_of_app in Hy. destruct Hy as [Hy1 Hy2].
  assert (findParentIn x q y = None) as ->; [|by apply IH].
  pose proof (parent_None [y] x q) as H. unfold findParentId in H. cbn [first_some] in H.
  destruct (findParentIn x q y); [|done]. apply H. rewrite forest_cons, not_elem_of_app.
  split; [done|apply not_elem_of_nil].
Qed.

(** A department of the inserted subtree has its parent there, or the insertion point. *)
Lemma parent_insert l p node x q : NoDup (collectDepartmentIds l) -> p ∈ collectDepartmentIds l ->
  x ∉ collectDepartmentIds l -> findParentId (insertUnder l p node) x q = findParentId [node] x (Some p).
Proof.
  revert q. induction l as [|d l IHd IHl] using forest_induction; intros q Hd Hp Hx; [by apply not_elem_of_nil in Hp|].
  apply NoDup_forest in Hd as (N1 & N2 & N3 & N4 & N5).
  rewrite forest_cons, ids_unfold, not_elem_of_app, not_elem_of_cons in Hx. destruct Hx as [[Hxd Hxc] Hxl].
  rewrite forest_cons, ids_unfold, elem_of_app, elem_of_cons in Hp.
  rewrite insert_cons, graft_unfold. apply not_eq_sym, String.eqb_neq in Hxd.
  assert (forall c, findParentId (with_children d c :: insertUnder l p node) x q =
    match findParentId c x (Some (d_id d)) with Some r => Some r | None => findParentId (insertUnder l p node) x q end) as Hcons
    by (intros c; rewrite parent_cons; cbn [with_children d_id d_children]; by rewrite Hxd).
  destruct (String.eqb_spec (d_id d) p) as [<-|Hne]; rewrite Hcons.
  - rewrite (insert_absent l), (parent_None l) by done.
    rewrite parent_snoc by done. by destruct (findParentId [node] x _).
  - destruct (decide (p ∈ collectDepartmentIds (d_children d))) as [Hc|Hc].
    + rewrite (insert_absent l), (parent_None l) by (try done; by apply N5).
      rewrite (IHd _ N3 Hc Hxc). by destruct (findParentId [node] x _).
    + rewrite (insert_absent (d_children d)), (parent_None (d_children d)) by done.
      apply IHl; [done|naive_solver|done].
Qed.

Lemma findParent_elem l id q p : findParentId l id q = Some (Some p) -> q = Some p \/ p ∈ collectDepartmentIds l.
Proof.
  revert q. induction l as [|d l IHd IHl] using forest_induction; intros q; [done|].
  rewrite parent_cons, forest_cons, ids_unfold. destruct (String.eqb (d_id d) id); [intros [= ->]; by left|].
  destruct (findParentId (d_children d) id (Some (d_id d))) as [r|] eqn:E.
  - intros [= ->]. right. apply elem_of_app. left. apply elem_of_cons.
    destruct (IHd _ E) as [[= ->]|?]; [by left|by right].
  - intros [->|?]%IHl; [by left|]. right. apply elem_of_app. by right.
Qed.

Lemma parent_Some l id q : id ∈ collectDepartmentIds l -> is_Some (findParentId l id q).
Proof.
  revert q. induction l as [|d l IHd IHl] using forest_induction; intros q; [by intros ?%not_elem_of_nil|].
  rewrite parent_cons, forest_cons, ids_unfold, elem_of_app, elem_of_cons.
  destruct (String.eqb_spec (d_id d) id) as [|Hne]; [eauto|]. intros [[?|H]|H]; [congruence| |].
  - destruct (IHd (Some (d_id d)) H) as [r ->]. eauto.
  - destruct (findParentId (d_children d) id (Some (d_id d))); eauto.
Qed.

(** The parent of a department is not below it. *)
Lemma parent_outside l id q k n k' c : NoDup (collectDepartmentIds l) -> (forall x, q = Some x -> x ∉ collectDepartmentIds l) ->
  findDepartment l id k = Some (n, k') -> findParentId l id q = Some (Some c) -> c ∉ ids n.
Proof.
  revert q k. induction l as [|d l IHd IHl] using forest_induction; intros q k Hd Hq Hf Hp; [done|].
  apply NoDup_forest in Hd as (N1 & N2 & N3 & N4 & N5). rewrite find_cons in Hf. rewrite parent_cons in Hp.
  rewrite forest_cons in Hq. destruct (String.eqb_spec (d_id d) id) as [<-|Hne].
  { injection Hf as <- _. injection Hp as ->. specialize (Hq c eq_refl). apply not_elem_of_app in Hq. naive_solver. }
  destruct (findDepartment (d_children d) id (k + 1)) as [[n1 k1]|] eqn:E.
  - injection Hf as -> ->. pose proof (department_find_Some _ _ _ _ _ E) as (_ & Hin & _).
    destruct (parent_Some (d_children d) id (Some (d_id d)) Hin) as [r Hr]. rewrite Hr in Hp. injection Hp as ->.
    eapply IHd; [done| |exact E|exact Hr]. by intros x [= <-].
  - rewrite parent_None in Hp by (by apply (find_None _ _ (k + 1))).
    eapply IHl; [done| |exact Hf|exact Hp]. intros x Hx. specialize (Hq x Hx). apply not_elem_of_app in Hq. naive_solver.
Qed.

Lemma find_height l id k n k' : findDepartment l id k = Some (n, k') -> k <= k' /\ (k' - k) + subtreeHeight n <= forestHeight l.
Proof.
  revert k. induction l as [|d l IHd IHl] using forest_induction; intros k Hf; [done|].
  rewrite find_cons in Hf. rewrite forestHeight_cons. destruct (String.eqb (d_id d) id).
  { injection Hf as <- <-. rewrite height_unfold. fold (forestHeight (d_children d)). lia. }
  destruct (findDepartment (d_children d) id (k + 1)) as [[n1 k1]|] eqn:E; [injection Hf as -> ->; apply IHd in E|apply IHl in Hf]; lia.
Qed.

(** ** Rows

    A department as a row: what it is, the parent it stores and the department it is listed
    under.  The rows of a tree are the tree up to the order of siblings. *)

Record Row : Type := mkRow {
  r_id : string; r_name : text; r_members : list ApiEmployee; r_parent : option string; r_under : option string }.

Fixpoint rowsIn (q : option string) (d : ApiDepartment) : list Row :=
  mkRow (d_id d) (d_name d) (d_members d) (d_parent d) q :: concat (map (rowsIn (Some (d_id d))) (d_children d)).
Definition rows (q : option string) (l : list ApiDepartment) : list Row := concat (map (rowsIn q) l).

Definition relink (q : option string) (r : Row) : Row := mkRow (r_id r) (r_name r) (r_members r) q q.

(** What a move does to the row of a department: the moved one goes under [parent], a promoted
    one takes the place [former] of the moved one, and every other row stays. *)
Definition moved (id : string) (parent promoted former : option string) (r : Row) : Row :=
  if String.eqb (r_id r) id then relink parent r
  else if bool_decide (promoted = Some (r_id r)) then relink former r
  else r.

Lemma rowsIn_unfold q d : rowsIn q d = mkRow (d_id d) (d_name d) (d_members d) (d_parent d) q :: rows (Some (d_id d)) (d_children d).
Proof. by destruct d. Qed.
Lemma rows_cons q d l : rows q (d :: l) = rowsIn q d ++ rows q l.
Proof. done. Qed.
Lemma rows_app q l k : rows q (l ++ k) = rows q l ++ rows q k.
Proof. unfold rows. by rewrite map_app, concat_app. Qed.

Lemma rows_ids q l : map r_id (rows q l) = collectDepartmentIds l.
Proof.
  revert q. induction l as [|d l IHd IHl] using forest_induction; intros q; [done|].
  rewrite rows_cons, map_app, IHl, forest_cons, ids_unfold, rowsIn_unfold. cbn [map r_id]. by rewrite IHd.
Qed.

Lemma moved_elsewhere id parent promoted former q l :
  id ∉ collectDepartmentIds l -> (forall p, promoted = Some p -> p ∉ collectDepartmentIds l) ->
  map (moved id parent promoted former) (rows q l) = rows q l.
Proof.
  rewrite <- !(rows_ids q). generalize (rows q l). intros k Hid Hp. rewrite <- (map_id k) at 2. apply map_ext_in. intros r Hr%list_elem_of_In.
  assert (Hin : r_id r ∈ map r_id k) by (by apply list_elem_of_fmap_2).
  unfold moved. destruct (String.eqb_spec (r_id r) id) as [<-|]; [done|]. case_bool_decide as Hpr; [|done]. by destruct (Hp _ Hpr).
Qed.

Lemma without_rows l id k n k' q q' : NoDup (collectDepartmentIds l) -> findDepartment l id k = Some (n, k') ->
  findParentId l id q = Some q' -> rows q l ≡ₚ rows q (withoutDepartment l id) ++ rowsIn q' n.
Proof.
  revert k q. induction l as [|d l IHd IHl] using forest_induction; intros k q Hd Hf Hq; [done|].
  apply NoDup_forest in Hd as (N1 & N2 & N3 & N4 & N5). rewrite find_cons in Hf. rewrite parent_cons in Hq. rewrite without_cons, rows_cons.
  destruct (String.eqb_spec (d_id d) id) as [<-|Hne].
  - injection Hf as <- _. injection Hq as <-. rewrite without_absent by done. apply Permutation_app_comm.
  - destruct (findDepartment (d_children d) id (k + 1)) as [[n1 k1]|] eqn:E.
    + injection Hf as -> ->. pose proof (department_find_Some _ _ _ _ _ E) as (_ & Hin & _).
      destruct (parent_Some (d_children d) id (Some (d_id d)) Hin) as [r Hr]. rewrite Hr in Hq. injection Hq as ->.
      rewrite (without_absent l) by (by apply N5). rewrite rows_cons, (rowsIn_unfold q d), (rowsIn_unfold q (with_children d _)).
      cbn [with_children d_id d_name d_members d_parent d_children].
      rewrite (IHd _ _ N3 E Hr), <- !app_comm_cons. constructor. apply perm_swap_tail.
    + assert (id ∉ collectDepartmentIds (d_children d)) as Ha by (by apply (find_None _ _ (k + 1))).
      rewrite parent_None in Hq by done. rewrite (without_absent (d_children d)) by done.
      rewrite with_children_same, rows_cons. rewrite (IHl _ _ N4 Hf Hq). by rewrite app_assoc.
Qed.

Lemma insert_rows l p node q : NoDup (collectDepartmentIds l) -> p ∈ collectDepartmentIds l ->
  rows q (insertUnder l p node) ≡ₚ rows q l ++ rowsIn (Some p) node.
Proof.
  revert q. induction l as [|d l IHd IHl] using forest_induction; intros q Hd Hp; [by apply not_elem_of_nil in Hp|].
  apply NoDup_forest in Hd as (N1 & N2 & N3 & N4 & N5). rewrite insert_cons, graft_unfold, !rows_cons, (rowsIn_unfold q d).
  destruct (String.eqb_spec (d_id d) p) as [<-|Hne]; rewrite (rowsIn_unfold q (with_children d _));
    cbn [with_children d_id d_name d_members d_parent d_children]; rewrite <- !app_comm_cons; constructor.
  - rewrite (insert_absent l) by done. rewrite rows_app, rows_cons. change (rows (Some (d_id d)) []) with (@nil Row).
    rewrite app_nil_r. apply perm_swap_tail.
  - rewrite forest_cons, ids_unfold, elem_of_app, elem_of_cons in Hp.
    destruct (decide (p ∈ collectDepartmentIds (d_children d))) as [Hc|Hc].
    + rewrite (insert_absent l) by (by apply N5). rewrite (IHd _ N3 Hc). apply perm_swap_tail.
    + rewrite (insert_absent (d_children d)) by done. rewrite IHl by (try done; naive_solver). by rewrite app_assoc.
Qed.

(** Putting a rearranged department back somewhere outside it. *)
Definition place (rest : list ApiDepartment) (q : option string) (node : ApiDepartment) : list ApiDepartment :=
  match q with None => rest ++ [node] | Some p => insertUnder rest p node end.

Lemma place_ok l id n kn q node : NoDup (collectDepartmentIds l) -> forestHeight l <= MAX_DEPARTMENT_DEPTH ->
  findDepartment l id 1 = Some (n, kn) -> entries node ≡ₚ entries n -> subtreeHeight node <= MAX_DEPARTMENT_DEPTH ->
  (forall p, q = Some p -> p ∉ ids n /\ exists m k, findDepartment l p 1 = Some (m, k) /\ k + subtreeHeight node <= MAX_DEPARTMENT_DEPTH) ->
  let l' := place (withoutDepartment l id) q node in
  allEntries l' ≡ₚ allEntries l /\ NoDup (collectDepartmentIds l') /\ forestHeight l' <= MAX_DEPARTMENT_DEPTH /\
  (forall x, x ∈ ids n -> parentOf l' x = findParentId [node] x q) /\
  rows None l' ≡ₚ rows None (withoutDepartment l id) ++ rowsIn q node.
Proof.
  intros Hd Hh Hf He Hn Hq l'.
  enough (allEntries l' ≡ₚ allEntries l /\ forestHeight l' <= MAX_DEPARTMENT_DEPTH /\
    (forall x, x ∈ ids n -> parentOf l' x = findParentId [node] x q) /\
    rows None l' ≡ₚ rows None (withoutDepartment l id) ++ rowsIn q node) as (P1 & P2 & P3 & P4).
  { split_and!; [done| |done|done|done]. rewrite forest_ids, P1, <- forest_ids. done. }
  pose proof (without_ids _ _ _ _ _ Hd Hf) as Hids. pose proof Hd as Hd2. rewrite Hids in Hd2.
  apply NoDup_app in Hd2 as (Hrest & Hdis & _). pose proof (without_height l id) as Hw.
  assert (forall x, x ∈ ids n -> x ∉ collectDepartmentIds (withoutDepartment l id)) as Hout by (intros x Hx Hx2; by apply (Hdis x)).
  pose proof (without_entries _ _ _ _ _ Hd Hf) as Hent. unfold l'. destruct q as [p|]; cbn [place].
  - destruct (Hq p eq_refl) as (Hp & m & k & Hpf & Hk).
    destruct (find_without _ _ _ _ _ _ _ _ Hd Hf Hp Hpf) as [m' Hpf'].
    pose proof (department_find_Some _ _ _ _ _ Hpf') as (_ & Hin & _). split_and!.
    + by rewrite (insert_entries _ p node Hrest Hin), He, Hent.
    + pose proof (insert_height _ p node _ _ _ Hrest Hpf'). lia.
    + intros x Hx. by apply parent_insert, Hout.
    + by apply insert_rows.
  - split_and!.
    + rewrite allEntries_app, Hent. apply Permutation_app_head. by rewrite allEntries_cons, app_nil_r.
    + rewrite forestHeight_app, forestHeight_cons. change (forestHeight []) with 0.
      rewrite height_unfold in Hn. fold (forestHeight (d_children node)) in Hn. unfold MAX_DEPARTMENT_DEPTH in *. lia.
    + intros x Hx. by apply parent_snoc, Hout.
    + rewrite rows_app, rows_cons. change (rows None []) with (@nil Row). by rewrite app_nil_r.
Qed.

(** The rows after a move without promotion, and with one. *)
Section MovedRows.
Context (l : list ApiDepartment) (id : string) (n : ApiDepartment) (kn : Z) (former : option string).
Context (Hd : NoDup (collectDepartmentIds l)) (Hf : findDepartment l id 1 = Some (n, kn)) (Hq : parentOf l id = Some former).
Local Notation rest := (withoutDepartment l id).

Lemma rest_apart x : x ∈ ids n -> x ∉ collectDepartmentIds rest.
Proof. pose proof Hd as H. rewrite (without_ids _ _ _ _ _ Hd Hf) in H. apply NoDup_app in H as (_ & H & _). intros Hx Hr. by apply (H x). Qed.

Lemma id_in_n : d_id n = id /\ id ∈ ids n.
Proof. destruct (department_find_Some _ _ _ _ _ Hf) as (<- & _). split; [done|]. rewrite ids_unfold. by left. Qed.

Lemma rows_before parent promoted : (forall p, promoted = Some p -> p ∈ ids n) ->
  map (moved id parent promoted former) (rows None l) ≡ₚ
    rows None rest ++ map (moved id parent promoted former) (rowsIn former n).
Proof.
  intros Hp. rewrite (without_rows _ _ _ _ _ _ _ Hd Hf Hq), map_app, moved_elsewhere; [done| |].
  - apply rest_apart, id_in_n.
  - intros p E. by apply rest_apart, Hp.
Qed.

Lemma moved_rows parent : NoDup (ids n) ->
  rows None rest ++ rowsIn parent (with_parent n parent) ≡ₚ map (moved id parent None former) (rows None l).
Proof.
  intros Hn. rewrite rows_before by done. destruct id_in_n as [Hid _]. rewrite ids_unfold, Hid in Hn. apply NoDup_cons in Hn as [Hn _].
  rewrite !rowsIn_unfold. cbn [map with_parent d_id d_name d_members d_parent d_children]. rewrite moved_elsewhere by done.
  unfold moved at 1. cbn [r_id r_name r_members]. rewrite Hid, String.eqb_refl. done.
Qed.

Lemma promoted_rows p pr k kp : NoDup (ids n) -> findDepartment (d_children n) p k = Some (pr, kp) ->
  let old := with_children n (withoutDepartment (d_children n) p) in
  let swapped := Dept (d_id pr) (d_name pr) former (d_members pr) (d_children pr ++ [with_parent old (Some p)]) in
  rows None rest ++ rowsIn former swapped ≡ₚ map (moved id (Some p) (Some p) former) (rows None l).
Proof.
  intros Hn Hp old swapped. destruct id_in_n as [Hid _].
  pose proof (department_find_Some _ _ _ _ _ Hp) as (Hpr & Hpin & Hsub).
  rewrite rows_before by (intros x [= <-]; rewrite ids_unfold; by right).
  rewrite ids_unfold, Hid in Hn. apply NoDup_cons in Hn as [Hn Hc].
  destruct (parent_Some (d_children n) p (Some id) Hpin) as [q' Hq'].
  pose proof Hc as Hc2. rewrite (without_ids _ _ _ _ _ Hc Hp) in Hc2. apply NoDup_app in Hc2 as (_ & Hdis & Hpn).
  rewrite ids_unfold in Hpn. apply NoDup_cons in Hpn as [Hpn _]. rewrite Hpr in Hpn.
  assert (Hin : forall x, x ∈ collectDepartmentIds (withoutDepartment (d_children n) p) -> x ∈ collectDepartmentIds (d_children n)).
  { intros x Hx. rewrite (without_ids _ _ _ _ _ Hc Hp). apply elem_of_app. by left. }
  apply Permutation_app_head. rewrite (rowsIn_unfold former n), Hid. cbn [map].
  rewrite (without_rows _ _ _ _ _ _ _ Hc Hp Hq'), map_app, (rowsIn_unfold q' pr). cbn [map].
  rewrite !moved_elsewhere.
  - unfold moved. cbn [r_id r_name r_members]. rewrite String.eqb_refl, Hpr.
    destruct (String.eqb_spec p id) as [->|]; [done|]. rewrite bool_decide_true by done. unfold relink. cbn [r_id r_name r_members].
    rewrite rowsIn_unfold. unfold swapped. cbn [d_id d_name d_members d_parent d_children]. rewrite Hpr, rows_app, rows_cons, rowsIn_unfold.
    unfold old. cbn [with_parent with_children d_id d_name d_members d_parent d_children]. rewrite Hid. change (rows (Some p) []) with (@nil Row). rewrite app_nil_r.
    rewrite app_comm_cons, Permutation_app_comm. done.
  - intros Hx. apply Hn, Hsub. rewrite ids_unfold. by right.
  - by intros x [= <-].
  - intros Hx. by apply Hn, Hin.
  - intros x [= <-] Hx. apply (Hdis _ Hx). rewrite ids_unfold, Hpr. by left.
Qed.
End MovedRows.

(** The department with one of its descendants promoted above it. *)
Lemma swapped_ok n p k pr kp q : NoDup (ids n) -> findDepartment (d_children n) p k = Some (pr, kp) ->
  let old := with_children n (withoutDepartment (d_children n) p) in
  let swapped := Dept (d_id pr) (d_name pr) q (d_members pr) (d_children pr ++ [with_parent old (Some p)]) in
  withoutDepartment [n] p = [old] /\ entries swapped ≡ₚ entries n /\
  findParentId [swapped] (d_id n) q = Some (Some p) /\ findParentId [swapped] p q = Some q.
Proof.
  intros Hd Hf old swapped. rewrite ids_unfold in Hd. apply NoDup_cons in Hd as [Hn Hd].
  pose proof (department_find_Some _ _ _ _ _ Hf) as (Hpr & Hin & Hsub).
  assert (String.eqb (d_id n) p = false) as Hne by (apply String.eqb_neq; intros <-; done).
  assert (String.eqb (d_id pr) (d_id n) = false) as Hne2 by (rewrite Hpr, String.eqb_sym; done). split_and!.
  - rewrite without_cons, Hne. done.
  - rewrite (entries_unfold swapped), (entries_unfold n). unfold swapped. cbn [d_id d_name d_members d_children].
    rewrite allEntries_app, allEntries_cons, app_nil_r, (without_entries _ _ _ _ _ Hd Hf), (entries_unfold pr).
    rewrite (entries_unfold (with_parent old _)). unfold old. cbn [with_parent with_children d_id d_name d_members d_children].
    rewrite app_comm_cons, Permutation_app_comm. done.
  - rewrite parent_cons. unfold swapped. cbn [d_id d_children]. rewrite Hne2. rewrite parent_snoc.
    + rewrite parent_cons. unfold old. cbn [with_parent with_children d_id]. by rewrite String.eqb_refl, Hpr.
    + intros Hx. apply Hn, Hsub. rewrite ids_unfold. by right.
  - rewrite parent_cons. unfold swapped. cbn [d_id]. by rewrite Hpr, String.eqb_refl.
Qed.

(** What [moveDepartment] builds: the department [node] in place of [n], put under [q]. *)
Lemma move_shape l id parent l' promoted n kn former :
  findDepartment l id 1 = Some (n, kn) -> parentOf l id = Some former -> NoDup (ids n) ->
  moveDepartment l id parent = Ok (l', promoted) ->
  (promoted = None /\ l' = place (withoutDepartment l id) parent (with_parent n parent) /\
   forall p, parent = Some p -> p <> id /\ findDepartment (d_children n) p 1 = None /\
     exists m k, findDepartment l p 1 = Some (m, k) /\ k + subtreeHeight n <= MAX_DEPARTMENT_DEPTH) \/
  exists p pr kp, promoted = Some p /\ parent = Some p /\ findDepartment (d_children n) p 1 = Some (pr, kp) /\
    let swapped := Dept (d_id pr) (d_name pr) former (d_members pr)
                     (d_children pr ++ [with_parent (with_children n (withoutDepartment (d_children n) p)) (Some p)]) in
    l' = place (withoutDepartment l id) former swapped /\
    match former with
    | None => 0
    | Some c => match findDepartment l c 1 with Some (_, k) => k | None => 0 end
    end + subtreeHeight swapped <= MAX_DEPARTMENT_DEPTH.
Proof.
  intros Hf Hq Hdn H. unfold moveDepartment in H. destruct (_ || _); [done|]. rewrite Hf in H. case_bool_decide as Hself; [done|].
  destruct parent as [p|].
  - destruct (findDepartment (d_children n) p 1) as [[pr kp]|] eqn:Hp; cbn [fmap option_fmap option_map fst] in H.
    + right. exists p, pr, kp. unfold parentOf in Hq. rewrite Hq in H. change (nullish (Some former) None) with former in H.
      destruct (swapped_ok n p 1 pr kp former Hdn Hp) as (S1 & _). rewrite S1 in H. cbv zeta in *.
      destruct (MAX_DEPARTMENT_DEPTH <? _) eqn:Hdeep; [done|]. apply Z.ltb_ge in Hdeep. by injection H as <- <-.
    + left. destruct (findDepartment l p 1) as [[m k]|] eqn:Hfp; [|done].
      apply bind_Ok in H as (_ & Hdeep%require_Ok & H). apply Z.leb_le in Hdeep. case_bool_decide; [done|].
      injection H as <- <-. split_and!; [done..|]. intros p' [= <-]. split_and!; [congruence|done|eauto].
  - left. cbn in H. case_bool_decide; [done|]. by injection H as <- <-.
Qed.

(** C37. Moving a department changes its place and nothing else.  In a tree with unique ids and
    at most five levels, let a move be accepted.  When the chosen department is not below the
    moved one, the moved one goes under it (or to the top) and every other department stays under
    the one it was under, so the moved one keeps its whole subtree.  When the chosen department is
    below the moved one, it is promoted: it takes the former place of the moved one, which goes
    under it, and again every other department stays under the one it was under, the children of
    both included.  Ids, names and members are kept, the departments that change place
    store their new parent, and all departments stay within five levels. *)
Theorem move_preserves_departments (l : list ApiDepartment) (id : string) (parent : option string) l' promoted :
  NoDup (collectDepartmentIds l) -> forestHeight l <= MAX_DEPARTMENT_DEPTH ->
  moveDepartment l id parent = Ok (l', promoted) ->
  allEntries l' ≡ₚ allEntries l /\ NoDup (collectDepartmentIds l') /\ forestHeight l' <= MAX_DEPARTMENT_DEPTH /\
  parentOf l' id = Some parent /\
  (exists former, parentOf l id = Some former /\ rows None l' ≡ₚ map (moved id parent promoted former) (rows None l)) /\
  match promoted with
  | None => forall p, parent = Some p -> isAncestor l id p = false
  | Some p => parent = Some p /\ isAncestor l id p = true /\ parentOf l' p = parentOf l id
  end.
Proof.
  intros Hd Hh H. destruct (findDepartment l id 1) as [[n kn]|] eqn:Hf.
  2:{ unfold moveDepartment in H. rewrite Hf in H. by destruct (_ || _). }
  pose proof (department_find_Some _ _ _ _ _ Hf) as (Hid & Hin & Hsub). pose proof (find_height _ _ _ _ _ Hf) as [Hk1 Hk2].
  assert (NoDup (ids n)) as Hdn.
  { pose proof Hd as Hd2. rewrite (without_ids _ _ _ _ _ Hd Hf) in Hd2. by apply NoDup_app in Hd2 as (_ & _ & ?). }
  destruct (parent_Some l id None Hin) as [q Hq].
  assert (Hanc : forall p, isAncestor l id p = bool_decide (is_Some (findDepartment (d_children n) p 1)))
    by (intros p; unfold isAncestor; by rewrite Hf).
  assert (Hmember : id ∈ ids n) by (rewrite ids_unfold, <- Hid; by left).
  destruct (move_shape _ _ _ _ _ _ _ _ Hf Hq Hdn H) as [(-> & -> & Hp)|(p & pr & kp & -> & -> & Hp & -> & Hdeep)].
  - assert (Hheight : subtreeHeight (with_parent n parent) = subtreeHeight n) by (by rewrite !height_unfold).
    destruct (place_ok l id n kn parent (with_parent n parent) Hd Hh Hf) as (P1 & P2 & P3 & P4 & P5).
    + by rewrite !entries_unfold.
    + rewrite Hheight. lia.
    + intros p Ep. destruct (Hp p Ep) as (? & ? & ?). rewrite Hheight, ids_unfold, not_elem_of_cons.
      split; [split; [congruence|by apply (find_None _ _ 1)]|done].
    + split_and!; [done..| | |].
      * rewrite P4, parent_cons by done. cbn [with_parent d_id]. by rewrite Hid, String.eqb_refl.
      * exists q. split; [done|]. etrans; [exact P5|]. by apply (moved_rows l id n kn q Hd Hf Hq).
      * intros p Ep. destruct (Hp p Ep) as (_ & Hn & _). by rewrite Hanc, Hn.
  - destruct (swapped_ok n p 1 pr kp q Hdn Hp) as (_ & S2 & S3 & S4). pose proof (promoted_rows l id n kn q Hd Hf Hq p pr 1 kp Hdn Hp) as Hrows.
    cbv zeta in Hrows, Hdeep. set (swapped := Dept (d_id pr) _ _ _ _) in *.
    destruct (place_ok l id n kn q swapped Hd Hh Hf S2) as (P1 & P2 & P3 & P4 & P5).
    + destruct q as [c|]; [|lia]. destruct (findDepartment l c 1) as [[m k]|] eqn:Hc; [|lia].
      pose proof (find_height _ _ _ _ _ Hc) as [? _]. lia.
    + intros c ->. assert (c ∉ ids n) as Hc by (eapply parent_outside; [exact Hd| |exact Hf|exact Hq]; done).
      split; [done|]. apply findParent_elem in Hq as [?|Hcl]; [done|].
      destruct (findDepartment l c 1) as [[m k]|] eqn:Hfc; [eauto|]. by apply (find_None l c 1) in Hfc.
    + pose proof (department_find_Some _ _ _ _ _ Hp) as (_ & Hpin & _).
      split_and!; [done|done|done|by rewrite P4, <- Hid|exists q; split; [done|by rewrite P5]|done|by rewrite Hanc, Hp|].
      rewrite P4 by (rewrite ids_unfold; by right). unfold parentOf. by rewrite Hq.
Qed.

(** Three levels; the bottom department is promoted to the top. *)
Definition demoForest : list ApiDepartment :=
  [Dept "a" (u "A") None [mkEmployee "e1" (Some "a")] [Dept "b" (u "B") (Some "a") [] [Dept "c" (u "C") (Some "b") [mkEmployee "e2" (Some "c")] []]]].
Definition demoMoved : list ApiDepartment :=
  [Dept "c" (u "C") None [mkEmployee "e2" (Some "c")] [Dept "a" (u "A") (Some "c") [mkEmployee "e1" (Some "a")] [Dept "b" (u "B") (Some "a") [] []]]].

Lemma move_preserves_departments_witness :
  moveDepartment demoForest "a" (Some "c") = Ok (demoMoved, Some "c") /\
  allEntries demoMoved ≡ₚ allEntries demoForest /\ parentOf demoMoved "c" = parentOf demoForest "a".
Proof.
  assert (moveDepartment demoForest "a" (Some "c") = Ok (demoMoved, Some "c")) as E by (vm_compute; reflexivity).
  split; [exact E|]. destruct (move_preserves_departments demoForest "a" (Some "c") demoMoved (Some "c")) as (P & _ & _ & _ & _ & _ & _ & Q).
  - apply (bool_decide_unpack _). vm_compute. reflexivity.
  - vm_compute. discriminate.
  - exact E.
  - split; [exact P|exact Q].
Defined.
