(* ===== verification/ChatClient.v ===== *)
(** Sending and settling chat prompts in the desktop client (clients/desktop,
    lib/chatSendQueue.ts and lib/groupStreamLifecycle.ts).

    [Queue] is the per-conversation queue of messages typed while a reply is being
    generated, as pure functions on a record of queues; [Settle] is the tracker that
    decides when a prompt's round is over, a closure whose variables are the fields of
    [Tracker]. *)

From S2P Require Import Prelude.
Local Open Scope Z_scope.

Module Queue.
Section Queue.
Context {Body : Type}.

Record QueuedChatMessage : Type := mkMessage { m_id : string; m_body : Body }.
Local Notation ChatSendQueues := (gmap string (list QueuedChatMessage)).
Implicit Types (queues : ChatSendQueues) (convId id : string).

(** [queues[convId] ?? []]. *)
Definition contents queues convId : list QueuedChatMessage := nullish (queues !! convId) [].

Definition enqueueMessage queues convId (message : QueuedChatMessage) : ChatSendQueues :=
  <[convId := contents queues convId ++ [message]]> queues.

Definition prependQueuedMessage queues convId (message : QueuedChatMessage) : ChatSendQueues :=
  <[convId := message :: contents queues convId]> queues.

Definition withQueue queues convId (queue : list QueuedChatMessage) : ChatSendQueues :=
  match queue with [] => delete convId queues | _ => <[convId := queue]> queues end.

Definition has_id id (m : QueuedChatMessage) : bool := String.eqb (m_id m) id.

Definition removeQueuedMessage queues convId id : ChatSendQueues :=
  match queues !! convId with
  | Some queue =>
      if existsb (has_id id) queue then withQueue queues convId (List.filter (fun m => negb (has_id id m)) queue) else queues
  | None => queues
  end.

Definition replaceQueuedMessage queues convId id (replacement : option QueuedChatMessage) : ChatSendQueues :=
  match replacement with
  | None => removeQueuedMessage queues convId id
  | Some r =>
      match queues !! convId with
      | Some queue =>
          if existsb (has_id id) queue then <[convId := map (fun m => if has_id id m then r else m) queue]> queues else queues
      | None => queues
      end
  end.

(** [findIndex]. *)
Fixpoint findIndex id (queue : list QueuedChatMessage) : option nat :=
  match queue with
  | [] => None
  | m :: queue => if has_id id m then Some O else S <$> findIndex id queue
  end.

(** [splice(i, 1)] and [splice(i, 0, x)] on a copy. *)
Definition moveQueuedMessage queues convId (fromId toId : string) : ChatSendQueues :=
  let queue := contents queues convId in
  match findIndex fromId queue, findIndex toId queue with
  | Some from, Some to =>
      if (from =? to)%nat then queues
      else match queue !! from with
        | Some moved =>
            let next := delete from queue in
            <[convId := take to next ++ moved :: drop to next]> queues
        | None => queues
        end
  | _, _ => queues
  end.

Definition promoteQueuedMessage queues convId id : ChatSendQueues :=
  let queue := contents queues convId in
  match findIndex id queue with
  | Some (S index) =>
      match queue !! S index with
      | Some m => <[convId := m :: take (S index) queue ++ drop (S (S index)) queue]> queues
      | None => queues
      end
  | _ => queues
  end.

Definition takeNextQueuedMessage queues convId : option QueuedChatMessage * ChatSendQueues :=
  match queues !! convId with
  | Some (m :: queue) => (Some m, withQueue queues convId queue)
  | _ => (None, queues)
  end.

Definition renameQueue queues (fromConvId toConvId : string) : ChatSendQueues :=
  match queues !! fromConvId with
  | Some (m :: queue) =>
      if String.eqb fromConvId toConvId then queues
      else let next := withQueue queues fromConvId [] in <[toConvId := contents next toConvId ++ m :: queue]> next
  | _ => queues
  end.

Definition shouldDispatchQueue (queueLength : Z) (isGenerating isSyncing disabled isSubmitting : bool) : bool :=
  (0 <? queueLength) && negb isGenerating && negb isSyncing && negb disabled && negb isSubmitting.

(** ** Runs *)

Inductive queue_op : Type :=
| QEnqueue (convId : string) (m : QueuedChatMessage)
| QPrepend (convId : string) (m : QueuedChatMessage)
| QReplace (convId id : string) (r : option QueuedChatMessage)
| QRemove (convId id : string)
| QMove (convId fromId toId : string)
| QPromote (convId id : string)
| QTake (convId : string)
| QRename (fromConvId toConvId : string).

Definition apply_op queues (o : queue_op) : ChatSendQueues :=
  match o with
  | QEnqueue c m => enqueueMessage queues c m
  | QPrepend c m => prependQueuedMessage queues c m
  | QReplace c id r => replaceQueuedMessage queues c id r
  | QRemove c id => removeQueuedMessage queues c id
  | QMove c f t => moveQueuedMessage queues c f t
  | QPromote c id => promoteQueuedMessage queues c id
  | QTake c => (takeNextQueuedMessage queues c).2
  | QRename f t => renameQueue queues f t
  end.

(** What an operation adds to, and takes out of, the queue of [c]. *)
Definition added queues (o : queue_op) (c : string) : list QueuedChatMessage :=
  match o with
  | QEnqueue c' m | QPrepend c' m => if String.eqb c' c then [m] else []
  | QReplace c' id (Some r) =>
      if String.eqb c' c then (fun _ => r) <$> List.filter (has_id id) (contents queues c) else []
  | QRename f t => if negb (String.eqb f t) && String.eqb t c then contents queues f else []
  | _ => []
  end.
Definition taken queues (o : queue_op) (c : string) : list QueuedChatMessage :=
  match o with
  | QReplace c' id _ | QRemove c' id => if String.eqb c' c then List.filter (has_id id) (contents queues c) else []
  | QTake c' => if String.eqb c' c then match (takeNextQueuedMessage queues c).1 with Some m => [m] | None => [] end else []
  | QRename f t => if negb (String.eqb f t) && String.eqb f c then contents queues f else []
  | _ => []
  end.

Fixpoint run queues (l : list queue_op) (c : string) : ChatSendQueues * list QueuedChatMessage * list QueuedChatMessage :=
  match l with
  | [] => (queues, [], [])
  | o :: l => let '(q, a, t) := run (apply_op queues o) l c in (q, added queues o c ++ a, taken queues o c ++ t)
  end.
End Queue.
Arguments QueuedChatMessage : clear implicits.
Notation ChatSendQueues Body := (gmap string (list (QueuedChatMessage Body))).
Arguments queue_op : clear implicits.
End Queue.

Module Settle.
Inductive ParticipantRunStatus : Type := Expected | Running | Settled.
#[export] Instance ParticipantRunStatus_eq_dec : EqDecision ParticipantRunStatus.
Proof. solve_decision. Defined.
Inductive mode : Type := Single | Group.
#[export] Instance mode_eq_dec : EqDecision mode.
Proof. solve_decision. Defined.

Record SettleTrackerOptions : Type := mkOptions {
  o_mode : mode; o_expectedEmployeeIds : list string; o_expectedTargetsKnown : bool;
}.

Record Tracker : Type := mkTracker {
  participants : list (string * ParticipantRunStatus);
  expectedTargetsKnown : bool;
  anonymousSingleSettled : bool;
  conversationEnded : bool;
  released : bool;
  fired : bool;
  completions : Z;   (** calls of [onComplete] *)
}.

(** [[...new Set(ids.filter(Boolean))]]. *)
Fixpoint uniqueEmployeeIds (seen ids : list string) : list string :=
  match ids with
  | [] => []
  | e :: ids => if String.eqb e "" || bool_decide (e ∈ seen) then uniqueEmployeeIds seen ids else e :: uniqueEmployeeIds (e :: seen) ids
  end.

Definition createSettleTracker (o : SettleTrackerOptions) : Tracker :=
  mkTracker (fold_left (fun m e => mset e Expected m) (uniqueEmployeeIds [] (o_expectedEmployeeIds o)) [])
    (match o_mode o with Single => true | Group => o_expectedTargetsKnown o end) false false false false 0.

Definition allParticipantsSettled (t : Tracker) : bool :=
  negb (bool_decide (participants t = [])) && forallb (fun p => bool_decide (p.2 = Settled)) (participants t).

Definition maybeComplete (o : SettleTrackerOptions) (t : Tracker) : Tracker :=
  if released t || fired t then t else
  let complete := conversationEnded t
    || (bool_decide (o_mode o = Single) && (anonymousSingleSettled t || allParticipantsSettled t))
    || (bool_decide (o_mode o = Group) && expectedTargetsKnown t && allParticipantsSettled t) in
  if negb complete then t
  else mkTracker (participants t) (expectedTargetsKnown t) (anonymousSingleSettled t) (conversationEnded t) (released t) true (completions t + 1).

Definition set_participants (ps : list (string * ParticipantRunStatus)) (t : Tracker) : Tracker :=
  mkTracker ps (expectedTargetsKnown t) (anonymousSingleSettled t) (conversationEnded t) (released t) (fired t) (completions t).

(** [!sourceEmployeeId] is an absent or empty id. *)
Definition given (e : option string) : option string :=
  match e with Some s => if String.eqb s "" then None else Some s | None => None end.

Definition markRunning (t : Tracker) (e : option string) (newExecution : bool) : Tracker :=
  if released t || fired t then t else
  match given e with
  | None => t
  | Some s =>
      if newExecution || negb (bool_decide (mget s (participants t) = Some Settled))
      then set_participants (mset s Running (participants t)) t else t
  end.

Definition markSettled (o : SettleTrackerOptions) (t : Tracker) (e : option string) : Tracker :=
  if released t || fired t then t else
  match given e with
  | Some s => maybeComplete o (set_participants (mset s Settled (participants t)) t)
  | None =>
      match o_mode o with
      | Single => maybeComplete o (mkTracker (participants t) (expectedTargetsKnown t) true (conversationEnded t) (released t) (fired t) (completions t))
      | Group => t
      end
  end.

Definition markConversationEnded (o : SettleTrackerOptions) (t : Tracker) : Tracker :=
  if released t || fired t then t else
  maybeComplete o (mkTracker (participants t) (expectedTargetsKnown t) (anonymousSingleSettled t) true (released t) (fired t) (completions t)).

Definition release (t : Tracker) : Tracker :=
  mkTracker (participants t) (expectedTargetsKnown t) (anonymousSingleSettled t) (conversationEnded t) true (fired t) (completions t).

Inductive event : Type :=
| ERunning (e : option string) (newExecution : bool)
| ESettled (e : option string)
| EEnded
| ERelease.
#[export] Instance event_eq_dec : EqDecision event.
Proof. solve_decision. Defined.

Definition step (o : SettleTrackerOptions) (t : Tracker) (x : event) : Tracker :=
  match x with
  | ERunning e n => markRunning t e n
  | ESettled e => markSettled o t e
  | EEnded => markConversationEnded o t
  | ERelease => release t
  end.
Definition run (o : SettleTrackerOptions) (l : list event) : Tracker := fold_left (step o) l (createSettleTracker o).
End Settle.

(** ** The queue keeps every message *)

Section QueueFacts.
Import Queue.
Context {Body : Type}.
Implicit Types (q : ChatSendQueues Body) (c : string).

Definition no_empty q : Prop := forall c, q !! c <> Some [].

Lemma contents_insert q c l c' : contents (<[c := l]> q) c' = if String.eqb c c' then l else contents q c'.
Proof.
  unfold contents. destruct (String.eqb_spec c c') as [->|]; [by rewrite lookup_insert_eq|by rewrite lookup_insert_ne].
Qed.
Lemma contents_withQueue q c l c' : contents (withQueue q c l) c' = if String.eqb c c' then l else contents q c'.
Proof.
  unfold withQueue. destruct l as [|x l]; [|apply contents_insert]. unfold contents.
  destruct (String.eqb_spec c c') as [->|]; [by rewrite lookup_delete_eq|by rewrite lookup_delete_ne].
Qed.
Lemma contents_Some q c l : q !! c = Some l -> contents q c = l.
Proof. unfold contents. by intros ->. Qed.

Lemma no_empty_insert q c l : no_empty q -> l <> [] -> no_empty (<[c := l]> q).
Proof.
  intros H Hl c'. destruct (decide (c = c')) as [->|]; [rewrite lookup_insert_eq; congruence|by rewrite lookup_insert_ne].
Qed.
Lemma no_empty_withQueue q c l : no_empty q -> no_empty (withQueue q c l).
Proof.
  intros H. unfold withQueue. destruct l; [|by apply no_empty_insert]. intros c'.
  destruct (decide (c = c')) as [->|]; [by rewrite lookup_delete_eq|by rewrite lookup_delete_ne].
Qed.

Lemma filter_split {A} (p : A -> bool) l : List.filter (fun m => negb (p m)) l ++ List.filter p l ≡ₚ l.
Proof.
  induction l as [|x l IH]; cbn; [done|]. destruct (p x); cbn; [|by rewrite IH].
  by rewrite <- Permutation_middle, IH.
Qed.
Lemma filter_none {A} (p : A -> bool) l : existsb p l = false -> List.filter p l = [].
Proof. induction l as [|x l IH]; cbn; [done|]. intros [-> ?]%orb_false_iff. auto. Qed.

Lemma replace_split {A} (p : A -> bool) r l :
  map (fun m => if p m then r else m) l ++ List.filter p l ≡ₚ l ++ ((fun _ => r) <$> List.filter p l).
Proof.
  induction l as [|x l IH]; cbn; [done|]. destruct (p x); cbn; [|by rewrite IH].
  rewrite <- Permutation_middle, IH. rewrite <- Permutation_middle. apply perm_swap.
Qed.

Lemma delete_perm {A} (l : list A) i x : l !! i = Some x -> x :: delete i l ≡ₚ l.
Proof. intros H. by rewrite <- (delete_Permutation l i x H). Qed.

(** One operation balances. *)
Lemma remove_balance q c id c' : contents (removeQueuedMessage q c id) c' ++
    (if String.eqb c c' then List.filter (has_id id) (contents q c') else []) ≡ₚ contents q c'.
Proof.
  unfold removeQueuedMessage. destruct (q !! c) as [l|] eqn:E.
  - destruct (existsb (has_id id) l) eqn:Ex.
    + rewrite contents_withQueue. destruct (String.eqb_spec c c') as [<-|]; [|by rewrite app_nil_r].
      rewrite (contents_Some _ _ _ E). apply filter_split.
    + destruct (String.eqb_spec c c') as [<-|]; [|by rewrite app_nil_r].
      rewrite (contents_Some _ _ _ E), filter_none by done. by rewrite app_nil_r.
  - destruct (String.eqb_spec c c') as [<-|]; [|by rewrite app_nil_r]. unfold contents. by rewrite E.
Qed.

Lemma op_balance q o c : contents (apply_op q o) c ++ taken q o c ≡ₚ contents q c ++ added q o c.
Proof.
  destruct o as [c' m|c' m|c' id [r|]|c' id|c' f t|c' id|c'|f t]; cbn [apply_op taken added].
  - unfold enqueueMessage. rewrite contents_insert. destruct (String.eqb_spec c' c) as [->|]; by rewrite app_nil_r.
  - unfold prependQueuedMessage. rewrite contents_insert. destruct (String.eqb_spec c' c) as [->|]; rewrite app_nil_r; [|done].
    by rewrite <- Permutation_cons_append.
  - unfold replaceQueuedMessage. destruct (String.eqb_spec c' c) as [->|Hne].
    + unfold contents at 2 3 4. destruct (q !! c) as [l|] eqn:E; cbn [nullish default from_option].
      * destruct (existsb (has_id id) l) eqn:Ex; [rewrite contents_insert, String.eqb_refl; apply replace_split|].
        rewrite (contents_Some _ _ _ E). unfold nullish, default. cbn. rewrite filter_none by done. done.
      * unfold contents. rewrite E. done.
    + rewrite !app_nil_r. destruct (q !! c') as [l|]; [|done]. destruct (existsb _ l); [|done].
      rewrite contents_insert. by apply String.eqb_neq in Hne as ->.
  - rewrite app_nil_r. cbn [replaceQueuedMessage]. apply remove_balance.
  - rewrite app_nil_r. apply remove_balance.
  - rewrite !app_nil_r. unfold moveQueuedMessage. destruct (findIndex f _) as [i|]; [|done]. destruct (findIndex t _) as [j|]; [|done].
    destruct (_ =? _)%nat; [done|]. destruct (contents q c' !! i) as [m|] eqn:E; [|done]. rewrite contents_insert.
    destruct (String.eqb_spec c' c) as [->|]; [|done]. rewrite <- Permutation_middle, take_drop. by apply delete_perm.
  - rewrite !app_nil_r. unfold promoteQueuedMessage. destruct (findIndex id _) as [[|i]|]; [done| |done].
    destruct (contents q c' !! S i) as [m|] eqn:E; [|done]. rewrite contents_insert.
    destruct (String.eqb_spec c' c) as [->|]; [|done].
    rewrite <- (take_drop_middle (contents q c) (S i) m E) at 3. by rewrite <- Permutation_middle.
  - rewrite app_nil_r. unfold takeNextQueuedMessage. destruct (String.eqb_spec c' c) as [->|Hne].
    + destruct (q !! c) as [[|m l]|] eqn:E; cbn [fst snd]; [by rewrite app_nil_r| |by rewrite app_nil_r].
      rewrite contents_withQueue, String.eqb_refl, (contents_Some _ _ _ E). by rewrite <- Permutation_cons_append.
    + rewrite app_nil_r. destruct (q !! c') as [[|m l]|]; cbn [snd]; [done| |done]. rewrite contents_withQueue.
      by apply String.eqb_neq in Hne as ->.
  - unfold renameQueue. destruct (q !! f) as [[|m l]|] eqn:E.
    + rewrite (contents_Some _ _ _ E). by repeat case_match.
    + destruct (String.eqb_spec f t) as [->|Hft]; cbn [negb andb]; [done|].
      rewrite contents_insert, !contents_withQueue, (contents_Some _ _ _ E).
      destruct (String.eqb_spec t c) as [->|Htc].
      * destruct (String.eqb_spec f c) as [->|]; [done|]. by rewrite app_nil_r.
      * destruct (String.eqb_spec f c) as [->|]; [|done]. by rewrite (contents_Some _ _ _ E), app_nil_r.
    + assert (contents q f = []) as -> by (unfold contents; by rewrite E). by repeat case_match.
Qed.

Lemma app_ne_nil {A} (l : list A) x k : l ++ x :: k <> [].
Proof. by destruct l. Qed.
Lemma no_empty_op q o : no_empty q -> no_empty (apply_op q o).
Proof.
  intros H. destruct o as [c' m|c' m|c' id [r|]|c' id|c' f t|c' id|c'|f t]; cbn [apply_op].
  - apply no_empty_insert; [done|apply app_ne_nil].
  - by apply no_empty_insert.
  - unfold replaceQueuedMessage. destruct (q !! c') as [l|] eqn:E; [|done]. destruct (existsb _ l); [|done].
    apply no_empty_insert; [done|]. destruct l; [by apply H in E|done].
  - cbn. unfold removeQueuedMessage. repeat case_match; try done. by apply no_empty_withQueue.
  - unfold removeQueuedMessage. repeat case_match; try done. by apply no_empty_withQueue.
  - unfold moveQueuedMessage. repeat (case_match; try done). apply no_empty_insert; [done|apply app_ne_nil].
  - unfold promoteQueuedMessage. repeat (case_match; try done). by apply no_empty_insert.
  - unfold takeNextQueuedMessage. repeat (case_match; try done). by apply no_empty_withQueue.
  - unfold renameQueue. repeat (case_match; try done). apply no_empty_insert; [by apply no_empty_withQueue|apply app_ne_nil].
Qed.
End QueueFacts.

(** C39. The send queue loses and duplicates nothing: over any sequence of queueing,
    requeueing after a failed send, editing, removing, dragging, promoting, sending and
    migration to another conversation, what is still queued for a conversation together
    with what left it is exactly what was put into it; and a conversation with nothing
    queued has no entry. *)
Theorem queue_conserves_messages {Body : Type} (l : list (Queue.queue_op Body)) (c : string) :
  let '(q, put, gone) := Queue.run (∅ : Queue.ChatSendQueues Body) l c in
  Queue.contents q c ++ gone ≡ₚ put /\ q !! c <> Some [].
Proof.
  assert (forall (q0 : Queue.ChatSendQueues Body) l, no_empty q0 -> let '(q, put, gone) := Queue.run q0 l c in
    Queue.contents q c ++ gone ≡ₚ Queue.contents q0 c ++ put /\ no_empty q) as H.
  { clear l. intros q0 l. revert q0. induction l as [|o l IH]; intros q0 H0; cbn [Queue.run]; [done|].
    specialize (IH _ (no_empty_op q0 o H0)). destruct (Queue.run (Queue.apply_op q0 o) l c) as [[q a] t].
    destruct IH as [IH1 IH2]. split; [|done].
    rewrite (Permutation_app_comm (Queue.taken q0 o c)), app_assoc, IH1, <- app_assoc.
    rewrite (Permutation_app_comm a), app_assoc, op_balance. by rewrite app_assoc. }
  specialize (H ∅ l). destruct (Queue.run ∅ l c) as [[q a] t]. destruct H as [H1 H2]; [|by split; [|apply H2]].
  intros c'. by rewrite lookup_empty.
Qed.

(** ** The round ends when it should *)

Section SettleFacts.
Import Settle.
Context (o : SettleTrackerOptions).

(** In the events so far, [e] settled and has not started anew since. *)
Definition settled_in (l : list event) (e : string) : Prop :=
  exists l1 l2, l = l1 ++ ESettled (Some e) :: l2 /\ forall x, ERunning (Some e) true = x -> x ∉ l2.
(** [e] is expected or was seen in the events. *)
Definition involved (l : list event) (e : string) : Prop :=
  e <> "" /\ (e ∈ o_expectedEmployeeIds o \/ (exists n, ERunning (Some e) n ∈ l) \/ ESettled (Some e) ∈ l).

Definition round_over (l : list event) : Prop :=
  EEnded ∈ l \/ (o_mode o = Single /\ exists e, ESettled e ∈ l /\ given e = None) \/
  ((o_mode o = Single \/ o_expectedTargetsKnown o = true) /\ (exists e, involved l e) /\ forall e, involved l e -> settled_in l e).

(** The participants of a tracker that has not stopped mirror the events. *)
Record mirrors (l : list event) (t : Tracker) : Prop := {
  mir_known : expectedTargetsKnown t = match o_mode o with Single => true | Group => o_expectedTargetsKnown o end;
  mir_ended : conversationEnded t = true <-> EEnded ∈ l;
  mir_anon : anonymousSingleSettled t = true <-> o_mode o = Single /\ exists e, ESettled e ∈ l /\ given e = None;
  mir_keys : forall e, is_Some (mget e (participants t)) <-> involved l e;
  mir_settled : forall e, e <> "" -> mget e (participants t) = Some Settled <-> settled_in l e;
  mir_nodup : NoDup (mkeys (participants t));
}.

Lemma settled_in_snoc l e x : settled_in l e -> x <> ERunning (Some e) true -> settled_in (l ++ [x]) e.
Proof.
  intros (l1 & l2 & -> & H) Hx. exists l1, (l2 ++ [x]). rewrite <- app_assoc. split; [done|].
  intros y <- [Hy|Hy]%elem_of_app; [by eapply H|]. by apply list_elem_of_singleton in Hy.
Qed.

Lemma involved_snoc l x e : involved (l ++ [x]) e <->
  involved l e \/ (e <> "" /\ ((exists n, x = ERunning (Some e) n) \/ x = ESettled (Some e))).
Proof.
  unfold involved. setoid_rewrite elem_of_app. setoid_rewrite list_elem_of_singleton. split.
  - intros (H & [?|[(n & [?|?])|[?|?]]]); naive_solver.
  - intros [(H & [?|[(n & ?)|?]])|(H & [(n & ?)|?])]; split; try done; naive_solver.
Qed.

Lemma given_Some e s : given e = Some s -> e = Some s /\ s <> "".
Proof. unfold given. destruct e as [t|]; [|done]. destruct (String.eqb_spec t ""); [done|]. by intros [= ->]. Qed.

Lemma uniqueEmployeeIds_spec seen l e : e ∉ seen -> (e ∈ uniqueEmployeeIds seen l <-> e <> "" /\ e ∈ l).
Proof.
  revert seen. induction l as [|x l IH]; intros seen He; cbn.
  { split; [by intros ?%not_elem_of_nil|]. intros [_ ?%not_elem_of_nil]. done. }
  destruct (String.eqb_spec x "") as [->|Hx]; cbn [orb].
  { rewrite IH by done. rewrite elem_of_cons. naive_solver. }
  case_bool_decide as Hs.
  - rewrite IH by done. rewrite elem_of_cons. split; [naive_solver|]. intros [? [->|?]]; done.
  - rewrite !elem_of_cons. destruct (decide (e = x)) as [->|Hne]; [naive_solver|].
    rewrite IH by (rewrite not_elem_of_cons; done). naive_solver.
Qed.

Lemma expected_map l m e : NoDup (mkeys m) ->
  (mget e (fold_left (fun m e => mset e Expected m) l m) = if bool_decide (e ∈ l) then Some Expected else mget e m) /\
  NoDup (mkeys (fold_left (fun m e => mset e Expected m) l m)).
Proof.
  revert m. induction l as [|x l IH]; intros m Hm; cbn [fold_left]; [by rewrite bool_decide_eq_false_2; [|apply not_elem_of_nil]|].
  destruct (IH (mset x Expected m)) as [-> ?]; [by apply NoDup_mset|]. split; [|done].
  rewrite mget_mset. destruct (String.eqb_spec e x) as [->|]; repeat case_bool_decide; set_solver.
Qed.

Lemma created_mirrors : mirrors [] (createSettleTracker o).
Proof.
  pose proof (fun e => expected_map (uniqueEmployeeIds [] (o_expectedEmployeeIds o)) [] e (NoDup_nil_2)) as Hm.
  split; cbn [createSettleTracker expectedTargetsKnown conversationEnded anonymousSingleSettled participants].
  - done.
  - split; [done|]. by intros ?%not_elem_of_nil.
  - split; [done|]. by intros (_ & e & ?%not_elem_of_nil & _).
  - intros e. destruct (Hm e) as [-> _].
    pose proof (uniqueEmployeeIds_spec [] (o_expectedEmployeeIds o) e (not_elem_of_nil e)) as Hu.
    unfold involved. case_bool_decide as Hin.
    + split; [|by eauto]. intros _. apply Hu in Hin. naive_solver.
    + split; [by intros [? ?]|]. intros (He & [?|[(n & ?%not_elem_of_nil)|?%not_elem_of_nil]]); [|done..]. destruct Hin. by apply Hu.
  - intros e He. destruct (Hm e) as [-> _]. split; [by case_bool_decide|]. by intros ([|] & l2 & ? & _).
  - apply (Hm "").
Qed.

Lemma settled_in_nil_snoc l e x : settled_in (l ++ [x]) e <->
  x = ESettled (Some e) \/ (settled_in l e /\ x <> ERunning (Some e) true).
Proof.
  split.
  - intros (l1 & l2 & E & H). destruct l2 as [|y l2 _] using rev_ind.
    + apply app_inj_tail in E as [_ ->]. by left.
    + right. change (l1 ++ ESettled (Some e) :: l2 ++ [y]) with (l1 ++ (ESettled (Some e) :: l2) ++ [y]) in E.
      rewrite app_assoc in E. apply app_inj_tail in E as [-> ->]. split.
      * exists l1, l2. split; [done|]. intros z <- Hz. eapply H; [done|]. apply elem_of_app. by left.
      * intros ->. eapply H; [done|]. apply elem_of_app. right. by apply list_elem_of_singleton.
  - intros [->|[H Hx]]; [|by apply settled_in_snoc]. exists l, []. split; [done|]. intros z _. apply not_elem_of_nil.
Qed.

(** The test of [maybeComplete] is the round being over. *)
Definition complete (t : Tracker) : bool :=
  conversationEnded t
  || (bool_decide (o_mode o = Single) && (anonymousSingleSettled t || allParticipantsSettled t))
  || (bool_decide (o_mode o = Group) && expectedTargetsKnown t && allParticipantsSettled t).

Lemma all_settled_iff l t : mirrors l t ->
  allParticipantsSettled t = true <-> (exists e, involved l e) /\ forall e, involved l e -> settled_in l e.
Proof.
  intros H. unfold allParticipantsSettled. rewrite andb_true_iff, negb_true_iff, bool_decide_eq_false, forallb_forall. split.
  - intros [Hne Hall]. split.
    + destruct (participants t) as [|[k v] m] eqn:E; [done|]. exists k. apply (mir_keys _ _ H). rewrite E. cbn. rewrite String.eqb_refl. eauto.
    + intros e He. apply (mir_settled _ _ H); [apply He|]. apply (mir_keys _ _ H) in He as [v Hv]. rewrite Hv. f_equal.
      pose proof (mget_In _ _ _ Hv) as Hin. apply list_elem_of_In, Hall in Hin. by apply bool_decide_eq_true in Hin.
  - intros [[e He] Hall]. split.
    + intros Hnil. apply (mir_keys _ _ H) in He as [v Hv]. by rewrite Hnil in Hv.
    + intros [k v] Hin. apply list_elem_of_In, (In_mget _ _ _ (mir_nodup _ _ H)) in Hin. apply bool_decide_eq_true. cbn.
      assert (involved l k) as Hk by (apply (mir_keys _ _ H); eauto). 
      pose proof (proj2 (mir_settled _ _ H k (proj1 Hk)) (Hall k Hk)) as Hs. congruence.
Qed.

Lemma complete_iff l t : mirrors l t -> complete t = true <-> round_over l.
Proof.
  intros H. unfold complete, round_over. rewrite !orb_true_iff, !andb_true_iff, orb_true_iff, !bool_decide_eq_true.
  rewrite (mir_ended _ _ H), (mir_anon _ _ H), (all_settled_iff l t H), (mir_known _ _ H).
  destruct (o_mode o); naive_solver.
Qed.

Definition trigger (x : event) : Prop :=
  x = EEnded \/ exists e, x = ESettled e /\ (given e <> None \/ o_mode o = Single).

Lemma maybeComplete_spec t : released t = false -> fired t = false ->
  maybeComplete o t = mkTracker (participants t) (expectedTargetsKnown t) (anonymousSingleSettled t) (conversationEnded t)
    (released t) (complete t) (completions t + (if complete t then 1 else 0)).
Proof.
  intros Hr Hf. unfold maybeComplete. rewrite Hr, Hf. cbn [orb]. fold (complete t). destruct (complete t); cbn [negb]; [done|].
  destruct t; cbn in *. subst. by rewrite Z.add_0_r.
Qed.

(** Setting one participant's status. *)
Lemma mirrors_set l t x e st : mirrors l t -> e <> "" ->
  (st = Settled /\ x = ESettled (Some e)) \/ (st = Running /\ exists n, x = ERunning (Some e) n /\ (n = true \/ mget e (participants t) <> Some Settled)) ->
  mirrors (l ++ [x]) (set_participants (mset e st (participants t)) t).
Proof.
  intros [M1 M2 M3 M4 M5 M6] He Hx.
  assert (x <> EEnded) by (destruct Hx as [[_ ->]|[_ (n & -> & _)]]; done).
  assert (forall e', given e' = None -> x <> ESettled e') as Hanon.
  { intros e' Hg ->. destruct Hx as [[_ [= ->]]|[_ (n & ? & _)]]; [|done]. cbn in Hg. apply String.eqb_neq in He. by rewrite He in Hg. }
  split; cbn [set_participants expectedTargetsKnown conversationEnded anonymousSingleSettled participants]; [done| | | | |by apply NoDup_mset].
  - rewrite M2. rewrite elem_of_app, list_elem_of_singleton. naive_solver.
  - rewrite M3. split; intros (Hm & e' & Hin & Hg); (split; [done|]); exists e'.
    + split; [apply elem_of_app; by left|done].
    + apply elem_of_app in Hin as [?|Hin]; [done|]. apply list_elem_of_singleton in Hin. by destruct (Hanon e' Hg).
  - intros e'. rewrite mget_mset, involved_snoc. destruct (String.eqb_spec e' e) as [->|Hne].
    + split; [|by eauto]. intros _. right. split; [done|]. destruct Hx as [[_ ->]|[_ (n & -> & _)]]; [by right|left; eauto].
    + rewrite M4. split; [by left|]. intros [?|(_ & [(n & ->)| ->])]; [done|..]; destruct Hx as [[_ ?]|[_ (n' & ? & _)]]; congruence.
  - intros e' He'. rewrite mget_mset, settled_in_nil_snoc. destruct (String.eqb_spec e' e) as [->|Hne].
    + destruct Hx as [[-> ->]|[-> (n & -> & Hn)]]; [split; [by left|done]|]. split; [done|].
      intros [?|[Hs Hr]]; [done|]. apply M5 in Hs; [|done]. destruct Hn as [->|?]; done.
    + rewrite M5 by done. split; [intros Hs; right; split; [done|]|intros [->|[? _]]; [|done]].
      * intros ->. destruct Hx as [[_ ?]|[_ (n & ? & _)]]; congruence.
      * destruct Hx as [[_ ?]|[_ (n & ? & _)]]; congruence.
Qed.

(** An event that changes no participant. *)
Lemma mirrors_flags l t x ended anon : mirrors l t ->
  (forall e, e <> "" -> x <> ESettled (Some e) /\ x <> ERunning (Some e) true /\ (x = ERunning (Some e) false -> involved l e)) ->
  (ended = true <-> conversationEnded t = true \/ x = EEnded) ->
  (anon = true <-> anonymousSingleSettled t = true \/ (o_mode o = Single /\ exists e, x = ESettled e /\ given e = None)) ->
  mirrors (l ++ [x]) (mkTracker (participants t) (expectedTargetsKnown t) anon ended (released t) (fired t) (completions t)).
Proof.
  intros [M1 M2 M3 M4 M5 M6] Hx He Ha.
  split; cbn [expectedTargetsKnown conversationEnded anonymousSingleSettled participants]; [done| | | | |done].
  - rewrite He, M2, elem_of_app, list_elem_of_singleton. naive_solver.
  - rewrite Ha, M3. split.
    + intros [(Hm & e & Hin & Hg)|(Hm & e & -> & Hg)]; split; try done; exists e; (split; [|done]); apply elem_of_app; [by left|right].
      by apply list_elem_of_singleton.
    + intros (Hm & e & [Hin|Hin]%elem_of_app & Hg); [left; eauto|]. apply list_elem_of_singleton in Hin. right. eauto.
  - intros e. rewrite M4, involved_snoc. split; [by left|]. intros [?|(Hne & [(n & ->)| ->])]; [done|..]; destruct (Hx e Hne) as (H1 & H2 & H3); [|done].
    destruct n; [done|auto].
  - intros e Hne. rewrite (M5 e Hne), settled_in_nil_snoc. destruct (Hx e Hne) as (H1 & H2 & _). naive_solver.
Qed.

Lemma mirrors_flags_live l t x ended anon : mirrors l t -> released t = false -> fired t = false ->
  (forall e, e <> "" -> x <> ESettled (Some e) /\ x <> ERunning (Some e) true /\ (x = ERunning (Some e) false -> involved l e)) ->
  (ended = true <-> conversationEnded t = true \/ x = EEnded) ->
  (anon = true <-> anonymousSingleSettled t = true \/ (o_mode o = Single /\ exists e, x = ESettled e /\ given e = None)) ->
  mirrors (l ++ [x]) (mkTracker (participants t) (expectedTargetsKnown t) anon ended false false (completions t)).
Proof. intros H Hr Hf. pose proof (mirrors_flags l t x ended anon H) as G. by rewrite Hr, Hf in G. Qed.

Lemma mirrors_complete l t b n : mirrors l t -> mirrors l (mkTracker (participants t) (expectedTargetsKnown t)
  (anonymousSingleSettled t) (conversationEnded t) (released t) b n).
Proof. intros []. by split. Qed.

Lemma tracker_eta t : mkTracker (participants t) (expectedTargetsKnown t) (anonymousSingleSettled t) (conversationEnded t)
  (released t) (fired t) (completions t) = t.
Proof. by destruct t. Qed.

(** An event on a live tracker: the tracker follows the events, and completes exactly when
    a settling or ending event makes the round over. *)
Lemma step_live l t x : mirrors l t -> released t = false -> fired t = false -> x <> ERelease ->
  let t' := step o t x in
  mirrors (l ++ [x]) t' /\ released t' = false /\ (fired t' = true <-> trigger x /\ round_over (l ++ [x])) /\
  completions t' = completions t + (if fired t' then 1 else 0).
Proof.
  intros H Hr Hf Hx.
  assert (forall t1, mirrors (l ++ [x]) t1 -> released t1 = false -> fired t1 = false -> completions t1 = completions t -> trigger x ->
    let t' := maybeComplete o t1 in mirrors (l ++ [x]) t' /\ released t' = false /\ (fired t' = true <-> trigger x /\ round_over (l ++ [x])) /\
    completions t' = completions t + (if fired t' then 1 else 0)) as Hdone.
  { intros t1 H1 Hr1 Hf1 Hc1 Ht. rewrite (maybeComplete_spec t1 Hr1 Hf1). cbn [fired released completions].
    split_and!; [by apply mirrors_complete|done| |congruence]. rewrite (complete_iff _ _ H1). naive_solver. }
  assert (forall t1, mirrors (l ++ [x]) t1 -> released t1 = false -> fired t1 = false -> completions t1 = completions t -> ~ trigger x ->
    mirrors (l ++ [x]) t1 /\ released t1 = false /\ (fired t1 = true <-> trigger x /\ round_over (l ++ [x])) /\
    completions t1 = completions t + (if fired t1 then 1 else 0)) as Hquiet.
  { intros t1 H1 Hr1 Hf1 Hc1 Ht. rewrite Hf1. split_and!; [done|done| |lia]. naive_solver. }
  destruct x as [e n|e| |]; cbn [step]; [| | |done].
  - assert (~ trigger (ERunning e n)) as Hnt by (intros [?|(? & ? & _)]; done).
    unfold markRunning. rewrite Hr, Hf. cbn [orb]. destruct (given e) as [s|] eqn:Hg.
    + apply given_Some in Hg as [-> Hs]. destruct (n || negb _) eqn:Hn.
      * apply Hquiet; try done. apply mirrors_set; [done|done|]. right. split; [done|]. exists n. split; [done|].
        apply orb_true_iff in Hn as [->|Hn]; [by left|right]. by apply negb_true_iff, bool_decide_eq_false in Hn.
      * apply orb_false_iff in Hn as [-> Hn]. apply negb_false_iff, bool_decide_eq_true in Hn.
        apply Hquiet; try done. rewrite <- (tracker_eta t). apply mirrors_flags; [done| |split; [by left|by intros [?|?]]|split; [by left|by intros [?|(_ & ? & ? & _)]]].
        intros e' Hne. split_and!; [done|done|]. intros [= ->]. apply (mir_keys _ _ H). eauto.
    + apply Hquiet; try done. rewrite <- (tracker_eta t). apply mirrors_flags; [done| |split; [by left|by intros [?|?]]|split; [by left|by intros [?|(_ & ? & ? & _)]]].
      intros e' Hne. apply String.eqb_neq in Hne. split_and!; [done|..]; intros [= -> ?]; cbn in Hg; by rewrite Hne in Hg.
  - unfold markSettled. rewrite Hr, Hf. cbn [orb]. destruct (given e) as [s|] eqn:Hg.
    + apply Hdone; try done; [|by right; exists e; split; [|left; congruence]]. apply given_Some in Hg as [-> Hs].
      apply mirrors_set; [done|done|by left].
    + assert (forall e', e' <> "" -> ESettled e <> ESettled (Some e') /\ ESettled e <> ERunning (Some e') true /\
        (ESettled e = ERunning (Some e') false -> involved l e')) as Hno.
      { intros e' Hne. split_and!; [|done|done]. intros [= ->]. apply String.eqb_neq in Hne. cbn in Hg. by rewrite Hne in Hg. }
      destruct (o_mode o) eqn:Hm.
      * apply Hdone; try done; [|by right; exists e; split; [|right]]. apply mirrors_flags_live; [done|done|done|done|split; [by left|by intros [?|?]]|].
        split; [|done]. intros _. right. rewrite Hm. eauto.
      * apply Hquiet; try done; [|intros [?|(? & [= <-] & [?|?])]; congruence].
        rewrite <- (tracker_eta t). apply mirrors_flags; [done|done|split; [by left|by intros [?|?]]|]. split; [by left|].
        intros [?|[? _]]; congruence.
  - unfold markConversationEnded. rewrite Hr, Hf. cbn [orb]. apply Hdone; try done; [|by left].
    apply mirrors_flags_live; [done|done|done|done|split; [by right|done]|]. split; [by left|]. intros [?|(_ & e & ? & _)]; done.
Qed.

Definition completed_in (l : list event) : Prop :=
  exists pre x suf, l = pre ++ x :: suf /\ ERelease ∉ pre ++ [x] /\ trigger x /\ round_over (pre ++ [x]).

Lemma completed_in_snoc l y : completed_in (l ++ [y]) <->
  completed_in l \/ (ERelease ∉ l ++ [y] /\ trigger y /\ round_over (l ++ [y])).
Proof.
  split.
  - intros (pre & x & suf & E & Hn & Ht & Ho). destruct suf as [|z suf _] using rev_ind.
    + apply app_inj_tail in E as [-> ->]. by right.
    + left. change (pre ++ x :: suf ++ [z]) with (pre ++ (x :: suf) ++ [z]) in E. rewrite app_assoc in E.
      apply app_inj_tail in E as [-> ->]. by exists pre, x, suf.
  - intros [(pre & x & suf & -> & H)|H]; [|by exists l, y, []].
    exists pre, x, (suf ++ [y]). split; [by rewrite <- app_assoc|done].
Qed.

Lemma step_stopped t y : released t || fired t = true -> y <> ERelease -> step o t y = t.
Proof. intros H Hy. destruct y; cbn [step]; unfold markRunning, markSettled, markConversationEnded; by rewrite ?H. Qed.

Lemma run_state l : let t := run o l in
  (released t = true <-> ERelease ∈ l) /\ (ERelease ∉ l -> fired t = false -> mirrors l t) /\
  completions t = (if fired t then 1 else 0) /\ (fired t = true <-> completed_in l).
Proof.
  cbn. induction l as [|y l (I1 & I2 & I3 & I4)] using rev_ind.
  { split_and!; [split; [done|by intros ?%not_elem_of_nil]|intros; apply created_mirrors|done|].
    split; [done|]. by intros ([|] & x & suf & ? & _). }
  unfold run in *. rewrite fold_left_app. cbn [fold_left]. set (t := fold_left _ l _) in *.
  assert (forall z, z ∈ l ++ [y] <-> z ∈ l \/ z = y) as Hin by (intros z; by rewrite elem_of_app, list_elem_of_singleton).
  rewrite completed_in_snoc, Hin.
  destruct (decide (y = ERelease)) as [->|Hy].
  { cbn [step release released fired completions]. split_and!; [split; [by right|done]| |done|].
    - intros []. by right.
    - rewrite I4. split; [by left|]. intros [?|(Hn & _)]; [done|]. destruct Hn. by right. }
  destruct (released t || fired t) eqn:Hstop.
  - rewrite step_stopped by done. split_and!; [rewrite I1; naive_solver| |done|].
    + intros Hn Hf. rewrite Hf, orb_false_r in Hstop. apply I1 in Hstop. destruct Hn. by left.
    + rewrite I4. split; [by left|]. intros [?|(Hn & _)]; [done|]. apply orb_true_iff in Hstop as [Hs%I1|Hs]; [|by apply I4].
      destruct Hn. by left.
  - apply orb_false_iff in Hstop as [Hr Hf]. assert (ERelease ∉ l) as Hn by (intros ?%I1; congruence).
    destruct (step_live l t y (I2 Hn Hf) Hr Hf Hy) as (S1 & S2 & S3 & S4).
    split_and!; [rewrite S2; naive_solver|done|rewrite S4, I3, Hf; done|]. rewrite S3. split.
    + intros [? ?]. right. split_and!; try done. intros [?|?]; congruence.
    + intros [Hc%I4|(_ & ? & ?)]; [congruence|done].
Qed.
End SettleFacts.

(** A prompt's round completes exactly once and exactly when it is over: whatever the
    order of run, settle, end and release events, [onComplete] is called at most once; and
    it is called if and only if, before any release, a settling or ending event left the
    round over, that is the conversation was reported ended, or an unattributed settle
    arrived in a single chat, or the targets are known and every employee expected or
    observed has settled without starting anew. *)
Theorem round_completes_exactly_once (o : Settle.SettleTrackerOptions) (l : list Settle.event) :
  let t := Settle.run o l in
  Settle.completions t = (if Settle.fired t then 1 else 0) /\
  (Settle.fired t = true <->
   exists pre x suf, l = pre ++ x :: suf /\ Settle.ERelease ∉ pre ++ [x] /\ trigger o x /\ round_over o (pre ++ [x])).
Proof. destruct (run_state o l) as (_ & _ & H1 & H2). by split. Qed.
