(* ===== verification/Schedule.v ===== *)
(** Conversation schedules (schedule.ts, schedule-calendar.ts): validation, the calendar
    search, when a schedule is due, and the scheduler's tick.

    A stored schedule is an untyped JSON value, [jsval]; texts the code only compares are
    strings of code units.  [dateParse] is [Date.parse].  The Temporal polyfill is the pair
    [zoneDate] (the local calendar day, counted from 1970-01-01, of an instant in a time
    zone) and [zoneInstant] (the earlier instant of a local day and second of day, or
    nothing in a DST gap); [zoneKnown] is the check [Intl.DateTimeFormat] makes. *)

From S2P Require Import Prelude Decimal IsoTime Scope Sql Receipts.
From S2P Require Automation.
From Stdlib Require Import Ascii.
Local Open Scope Z_scope.

(** ** Values *)

Inductive jsval : Type :=
| VStr (s : string)
| VInt (z : Z)
| VNum (* a number that is not an integer *)
| VBool (b : bool)
| VObj (fields : list (string * jsval))
| VArr (items : list jsval)
| VOther.

Definition prop (m : list (string * jsval)) (k : string) : option jsval := mget k m.

Inductive schedule_error : Type := ScheduleError (what : string).

(** ** Calendars (schedule-calendar.ts) *)

Inductive calendar_mode : Type := Daily | Weekly (weekday : Z) | Monthly (day : Z).
Record CalendarRule : Type := mkCalendar { cal_mode : calendar_mode; cal_timezone : string; cal_time : Z (* second of the day *) }.

Definition digitAt (s : list ascii) (i : nat) : option Z :=
  match s !! i with Some c => if is_digit c then Some (Z.of_N (digit_val c)) else None | None => None end.
Definition charAt (s : list ascii) (i : nat) (c : ascii) : bool := bool_decide (s !! i = Some c).

(** [/^([01]\d|2[0-3]):[0-5]\d:[0-5]\d$/] and the second of the day it names. *)
Definition parseTime (s : string) : option Z :=
  let l := chars s in
  h1 ← digitAt l 0; h2 ← digitAt l 1; m1 ← digitAt l 3; m2 ← digitAt l 4; s1 ← digitAt l 6; s2 ← digitAt l 7;
  if (Nat.eqb (length l) 8) && charAt l 2 ":" && charAt l 5 ":"
     && (((h1 =? 0) || (h1 =? 1)) || ((h1 =? 2) && (h2 <=? 3))) && (m1 <=? 5) && (s1 <=? 5)
  then Some ((h1 * 10 + h2) * 3600 + (m1 * 10 + m2) * 60 + (s1 * 10 + s2)) else None.

Definition startsWithSign (s : string) : bool :=
  match chars s with c :: _ => bool_decide (c = "+"%char) || bool_decide (c = "-"%char) | [] => false end.

Section Calendar.
Context (zoneKnown : string -> bool) (zoneDate : string -> Z -> Z) (zoneInstant : string -> Z -> Z -> option Z).

Definition onlyKeys (allowed : list string) (m : list (string * jsval)) : bool :=
  forallb (fun k => bool_decide (k ∈ allowed)) (mkeys m).

(** [String(v)], where it can be one word: an array prints its only item. *)
Fixpoint wordOf (v : jsval) : option string :=
  match v with VStr s => Some s | VArr [v] => wordOf v | _ => None end.

Definition validateCalendar (value : jsval) : result schedule_error CalendarRule :=
  match value with
  | VObj raw =>
      let mode := prop raw "mode" in
      let is_mode m := match mode with Some (VStr s) => String.eqb s m | _ => false end in
      let keys := ["mode"; "timezone"; "time"]%string ++ (if is_mode "weekly" then ["weekday"]%string else [])
                   ++ (if is_mode "monthly" then ["day_of_month"; "invalid_date_policy"]%string else []) in
      let word := mode ≫= wordOf in
      _ ← require (onlyKeys keys raw && bool_decide (word ∈ Some <$> ["daily"; "weekly"; "monthly"]%string)) (ScheduleError "Unsupported calendar fields");
      match prop raw "timezone" with
      | Some (VStr tz) =>
          _ ← require (negb (startsWithSign tz)) (ScheduleError "IANA timezone required");
          _ ← require (zoneKnown tz) (ScheduleError "Invalid time zone");
          match prop raw "time" with
          | Some (VStr t) =>
              match parseTime t with
              | Some sec =>
                  if is_mode "weekly" then
                    match prop raw "weekday" with
                    | Some (VInt w) => if (1 <=? w) && (w <=? 7) then Ok (mkCalendar (Weekly w) tz sec) else Err (ScheduleError "weekday must be 1-7")
                    | _ => Err (ScheduleError "weekday must be 1-7")
                    end
                  else if is_mode "monthly" then
                    match prop raw "day_of_month", prop raw "invalid_date_policy" with
                    | Some (VInt d), Some (VStr p) =>
                        if (1 <=? d) && (d <=? 31) && String.eqb p "skip" then Ok (mkCalendar (Monthly d) tz sec)
                        else Err (ScheduleError "monthly requires day_of_month 1-31 and invalid_date_policy skip")
                    | _, _ => Err (ScheduleError "monthly requires day_of_month 1-31 and invalid_date_policy skip")
                    end
                  else Ok (mkCalendar Daily tz sec)
              | None => Err (ScheduleError "time must be HH:mm:ss")
              end
          | _ => Err (ScheduleError "time must be HH:mm:ss")
          end
      | _ => Err (ScheduleError "IANA timezone required")
      end
  | _ => Err (ScheduleError "calendar must be an object")
  end.

(** [dayOfWeek] (1 is Monday) and [day] of a calendar day. *)
Definition dayOfWeek (d : Z) : Z := (d + 3) mod 7 + 1.
Definition dayOfMonth (d : Z) : Z := (civil d).2.

Definition onDay (m : calendar_mode) (d : Z) : bool :=
  match m with Daily => true | Weekly w => dayOfWeek d =? w | Monthly day => dayOfMonth d =? day end.

(** The instant of the rule on day [d], if it has one. *)
Definition instantOn (rule : CalendarRule) (d : Z) : option Z :=
  if onDay (cal_mode rule) d then zoneInstant (cal_timezone rule) d (cal_time rule) else None.

Fixpoint calendarSearch (fuel : nat) (rule : CalendarRule) (timestamp : Z) (forward : bool) (date : Z) : option Z :=
  match fuel with
  | O => None
  | S fuel =>
      let next := calendarSearch fuel rule timestamp forward (date + (if forward then 1 else -1)) in
      match instantOn rule date with
      | Some candidate => if (if forward then timestamp <? candidate else candidate <=? timestamp) then Some candidate else next
      | None => next
      end
  end.
Definition calendarOccurrence (rule : CalendarRule) (timestamp : Z) (forward : bool) : option Z :=
  calendarSearch 370 rule timestamp forward (zoneDate (cal_timezone rule) timestamp).

(** ** Schedules (schedule.ts) *)

Record ConversationSchedule : Type := mkSchedule {
  schedule_id : string; revision : Z; enabled : bool; at_ : option Z; interval_seconds : option Z;
  one_shot : bool; calendar : option CalendarRule; prompt_template : string;
}.

Definition ALLOWED : list string :=
  ["schedule_id"; "revision"; "enabled"; "at"; "interval_seconds"; "one_shot"; "overlap"; "misfire"; "prompt_template"; "calendar"]%string.

(** [/^[A-Za-z0-9._:-]{1,128}$/]. *)
Definition isIdChar (c : ascii) : bool :=
  let n := N_of_ascii c in
  is_digit c || ((65 <=? n) && (n <=? 90) || (97 <=? n) && (n <=? 122))%N || existsb (fun x => bool_decide (c = x)) ["."; "_"; ":"; "-"]%char.
Definition safeId (s : string) : bool :=
  (1 <=? slen s) && (slen s <=? 128) && forallb isIdChar (chars s).

Context (dateParse : string -> option Z).

(** [raw.at] when it is given: its time. *)
Definition atOf (v : option jsval) : result schedule_error (option Z) :=
  match v with
  | None => Ok None
  | Some (VStr s) => match dateParse s with Some ms => Ok (Some ms) | None => Err (ScheduleError "at must be an ISO timestamp") end
  | Some _ => Err (ScheduleError "at must be an ISO timestamp")
  end.
Definition positiveInt (v : option jsval) (what : string) : result schedule_error (option Z) :=
  match v with
  | None => Ok None
  | Some (VInt z) => if 1 <=? z then Ok (Some z) else Err (ScheduleError what)
  | Some _ => Err (ScheduleError what)
  end.
Definition boolOf (v : option jsval) (d : bool) (what : string) : result schedule_error bool :=
  match v with None => Ok d | Some (VBool b) => Ok b | Some _ => Err (ScheduleError what) end.
Definition isSkip (v : option jsval) : bool :=
  match v with None => true | Some (VStr s) => String.eqb s "skip" | Some _ => false end.
Definition given {A} (o : option A) : bool := match o with Some _ => true | None => false end.

Definition validateSchedule (value : jsval) : result schedule_error ConversationSchedule :=
  match value with
  | VObj raw =>
      _ ← require (onlyKeys ALLOWED raw) (ScheduleError "schedule field is not supported");
      id ← match prop raw "schedule_id" with
           | Some (VStr s) => if safeId s then Ok s else Err (ScheduleError "schedule_id must be a safe non-empty string")
           | _ => Err (ScheduleError "schedule_id must be a safe non-empty string") end;
      revision ← positiveInt (prop raw "revision") "revision must be a positive integer";
      enabled ← boolOf (prop raw "enabled") true "enabled must be boolean";
      oneShot ← boolOf (prop raw "one_shot") false "one_shot must be boolean";
      calendar ← match prop raw "calendar" with None => Ok None | Some v => Some <$> validateCalendar v end;
      _ ← require (negb (given calendar && (given (prop raw "at") || given (prop raw "interval_seconds") || oneShot)))
            (ScheduleError "calendar cannot be combined with at, interval or one_shot");
      time ← atOf (prop raw "at");
      interval ← positiveInt (prop raw "interval_seconds") "interval_seconds must be a positive integer";
      _ ← require (negb (oneShot && negb (given time))) (ScheduleError "one_shot schedules require at");
      _ ← require (negb (negb (given calendar) && negb (given time) && negb (given interval))) (ScheduleError "schedule requires at or interval_seconds");
      _ ← require (negb (given time && negb (given interval) && negb oneShot)) (ScheduleError "repeating schedules require interval_seconds");
      _ ← require (negb (given time && given interval && oneShot)) (ScheduleError "one_shot cannot be combined with interval_seconds");
      _ ← require (isSkip (prop raw "overlap")) (ScheduleError "overlap must be skip");
      _ ← require (isSkip (prop raw "misfire")) (ScheduleError "misfire must be skip");
      match prop raw "prompt_template" with
      | Some (VStr p) =>
          _ ← require (negb (isBlank p) && (slen p <=? 200000)) (ScheduleError "prompt_template must be a non-empty string");
          Ok (mkSchedule id (nullish revision 1) enabled time interval oneShot calendar p)
      | _ => Err (ScheduleError "prompt_template must be a non-empty string")
      end
  | _ => Err (ScheduleError "schedule must be an object")
  end.

Definition occurrenceBetween (s : ConversationSchedule) (previous now : Z) : option Z :=
  match calendar s with
  | Some rule =>
      match calendarOccurrence rule now false with
      | Some o => if previous <? o then Some o else None
      | None => None
      end
  | None =>
      let anchor := nullish (at_ s) 0 in
      if one_shot s then if (previous <? anchor) && (anchor <=? now) then Some anchor else None
      else
        let interval := nullish (interval_seconds s) 0 * 1000 in
        if interval =? 0 then None else
        let index := (now - anchor) / interval in
        if index <? 0 then None else
        let o := anchor + index * interval in
        if (previous <? o) && (o <=? now) then Some o else None
  end.

Definition nextScheduleAt (s : ConversationSchedule) (now : Z) : option Z :=
  if negb (enabled s) then None else
  match calendar s with
  | Some rule => calendarOccurrence rule now true
  | None =>
      let anchor := nullish (at_ s) 0 in
      if one_shot s then if now <? anchor then Some anchor else None
      else
        let step := nullish (interval_seconds s) 0 * 1000 in
        Some (anchor + Z.max 0 ((now - anchor) / step + 1) * step)
  end.

(** ** When a schedule is due *)

(** The times at which a schedule is to run. *)
Definition due (s : ConversationSchedule) (t : Z) : Prop :=
  match calendar s with
  | Some rule => exists d, instantOn rule d = Some t
  | None => if one_shot s then at_ s = Some t
            else exists k, 0 <= k /\ t = nullish (at_ s) 0 + k * (nullish (interval_seconds s) 0 * 1000)
  end.

(** One of the three kinds of trigger, and only one. *)
Definition one_trigger (s : ConversationSchedule) : Prop :=
  match calendar s, at_ s, interval_seconds s, one_shot s with
  | Some _, None, None, false => True
  | None, Some _, None, true => True
  | None, _, Some i, false => 1 <= i
  | _, _, _, _ => False
  end.

Lemma positiveInt_Ok v what o : positiveInt v what = Ok o ->
  (forall z, o = Some z -> 1 <= z) /\ given o = given v.
Proof. unfold positiveInt. intros H. repeat (case_match; simplify_eq/=); split; naive_solver lia. Qed.

Lemma atOf_Ok v o : atOf v = Ok o -> given o = given v.
Proof. unfold atOf. intros H. by repeat (case_match; simplify_eq/=). Qed.

(** What [validateSchedule] accepts is well formed: exactly one trigger kind (a
    calendar, a single time, or a positive interval with an optional anchor), a safe
    identifier, a positive revision and a prompt that is neither blank nor oversized. *)
Theorem validated_schedule_is_well_formed (v : jsval) (s : ConversationSchedule) :
  validateSchedule v = Ok s ->
  one_trigger s /\ safeId (schedule_id s) = true /\ 1 <= revision s /\
  isBlank (prompt_template s) = false /\ slen (prompt_template s) <= 200000.
Proof.
  unfold validateSchedule. destruct v as [| | | |raw| |]; try done. intros H.
  apply bind_Ok in H as (_ & _ & H). apply bind_Ok in H as (id & Hid & H).
  apply bind_Ok in H as (rev & [Hrev _]%positiveInt_Ok & H).
  apply bind_Ok in H as (en & _ & H). apply bind_Ok in H as (os & _ & H).
  apply bind_Ok in H as (cal & _ & H). apply bind_Ok in H as (u1 & Hex%require_Ok & H).
  apply bind_Ok in H as (tm & Htm%atOf_Ok & H). apply bind_Ok in H as (iv & [Hiv Hgiv]%positiveInt_Ok & H).
  apply bind_Ok in H as (u2 & H2%require_Ok & H). apply bind_Ok in H as (u3 & H3%require_Ok & H).
  apply bind_Ok in H as (u4 & H4%require_Ok & H). apply bind_Ok in H as (u5 & H5%require_Ok & H).
  apply bind_Ok in H as (u6 & _ & H). apply bind_Ok in H as (u7 & _ & H).
  destruct (prop raw "prompt_template") as [[p| | | | | |]|]; try done.
  apply bind_Ok in H as (u8 & H8%require_Ok & [= <-]).
  rewrite andb_true_iff, negb_true_iff, Z.leb_le in H8. rewrite <- Htm, <- Hgiv in Hex.
  split_and!; cbn [schedule_id revision prompt_template]; [|by repeat (case_match; simplify_eq)| |tauto|tauto].
  - unfold one_trigger; cbn [calendar at_ interval_seconds one_shot].
    destruct cal, tm, iv, os; cbn in *; try done; by eapply Hiv.
  - destruct rev as [z|]; cbn; [by apply Hrev|lia].
Qed.

(** What the search relies on: an instant found for a local day is on that day, and local
    days do not go back as time passes. *)
Class ZoneLaws (tz : string) : Prop := {
  zone_roundtrip : forall d sec i, zoneInstant tz d sec = Some i -> zoneDate tz i = d;
  zone_monotone : forall i j, i <= j -> zoneDate tz i <= zoneDate tz j;
}.

Section Search.
Context (rule : CalendarRule) {laws : ZoneLaws (cal_timezone rule)}.

Lemma instantOn_day d i : instantOn rule d = Some i -> zoneDate (cal_timezone rule) i = d.
Proof. unfold instantOn. case_match; [apply zone_roundtrip|done]. Qed.

Lemma instantOn_lt d1 i1 d2 i2 : instantOn rule d1 = Some i1 -> instantOn rule d2 = Some i2 -> d1 < d2 -> i1 < i2.
Proof.
  intros H1%instantOn_day H2%instantOn_day Hd. destruct (Z.lt_ge_cases i1 i2) as [|Hle]; [done|].
  apply zone_monotone in Hle. lia.
Qed.

(** The candidate test of one direction, and "nearer" in that direction. *)
Definition eligible (forward : bool) (ts c : Z) : bool := if forward then ts <? c else c <=? ts.
Definition nearer (forward : bool) (a b : Z) : Prop := if forward then a <= b else b <= a.
Definition stepOf (forward : bool) : Z := if forward then 1 else -1.

Lemma calendarSearch_spec fuel ts forward date :
  match calendarSearch fuel rule ts forward date with
  | Some o => eligible forward ts o = true /\ (exists d, instantOn rule d = Some o /\ 0 <= (d - date) * stepOf forward < Z.of_nat fuel) /\
      forall d i, instantOn rule d = Some i -> 0 <= (d - date) * stepOf forward -> eligible forward ts i = true -> nearer forward o i
  | None => forall d i, instantOn rule d = Some i -> 0 <= (d - date) * stepOf forward < Z.of_nat fuel -> eligible forward ts i = false
  end.
Proof.
  revert date. induction fuel as [|fuel IH]; intros date; [cbn; lia|]. cbn [calendarSearch].
  change (if forward then 1 else -1) with (stepOf forward).
  specialize (IH (date + stepOf forward)).
  assert (Hskip : (forall i, instantOn rule date = Some i -> eligible forward ts i = false) ->
    match calendarSearch fuel rule ts forward (date + stepOf forward) with
    | Some o => eligible forward ts o = true /\ (exists d, instantOn rule d = Some o /\ 0 <= (d - date) * stepOf forward < Z.of_nat (S fuel)) /\
        forall d i, instantOn rule d = Some i -> 0 <= (d - date) * stepOf forward -> eligible forward ts i = true -> nearer forward o i
    | None => forall d i, instantOn rule d = Some i -> 0 <= (d - date) * stepOf forward < Z.of_nat (S fuel) -> eligible forward ts i = false
    end).
  { intros Hno. destruct (calendarSearch _ _ _ _ _) as [o|].
    - destruct IH as (He & (d & Hd & Hr) & Hnear). split_and!; [done|exists d; split; [done|destruct forward; cbn in *; lia]|].
      intros d' i Hi Hr' Hel. destruct (decide (d' = date)) as [->|]; [by rewrite (Hno i Hi) in Hel|].
      apply (Hnear d' i Hi); [|done]. destruct forward; cbn in *; lia.
    - intros d i Hi Hr. destruct (decide (d = date)) as [->|]; [by apply Hno|].
      apply (IH d i Hi). destruct forward; cbn in *; lia. }
  destruct (instantOn rule date) as [c|] eqn:Ec; [|by apply Hskip].
  change (if forward then ts <? c else c <=? ts) with (eligible forward ts c).
  destruct (eligible forward ts c) eqn:El; [|apply Hskip; by intros i [= <-]].
  split_and!; [done|exists date; split; [done|lia]|].
  intros d i Hi Hr _. destruct (decide (d = date)) as [->|Hne].
  - rewrite Ec in Hi. simplify_eq. destruct forward; cbn; lia.
  - destruct forward; cbn in *; [assert (c < i); [|lia]|assert (i < c); [|lia]]; eapply instantOn_lt; eauto; lia.
Qed.

(** Every eligible instant of the rule lies on the searched side. *)
Lemma eligible_side ts forward d i : instantOn rule d = Some i -> eligible forward ts i = true ->
  0 <= (d - zoneDate (cal_timezone rule) ts) * stepOf forward.
Proof.
  intros Hd%instantOn_day He. destruct forward; cbn in *;
    [apply Z.ltb_lt in He|apply Z.leb_le in He];
    [pose proof (zone_monotone ts i)|pose proof (zone_monotone i ts)]; lia.
Qed.

Lemma calendarOccurrence_nearest ts forward :
  match calendarOccurrence rule ts forward with
  | Some o => eligible forward ts o = true /\ (exists d, instantOn rule d = Some o) /\
      forall d i, instantOn rule d = Some i -> eligible forward ts i = true -> nearer forward o i
  | None => forall d i, instantOn rule d = Some i -> eligible forward ts i = true ->
      370 <= (d - zoneDate (cal_timezone rule) ts) * stepOf forward
  end.
Proof.
  unfold calendarOccurrence. pose proof (calendarSearch_spec 370 ts forward (zoneDate (cal_timezone rule) ts)) as H.
  destruct (calendarSearch _ _ _ _ _) as [o|].
  - destruct H as (He & (d & Hd & _) & Hn). split_and!; [done|by exists d|].
    intros d' i Hi Hel. apply (Hn d' i Hi); [by apply (eligible_side _ _ _ _ Hi)|done].
  - intros d i Hi Hel. pose proof (eligible_side _ _ _ _ Hi Hel) as Hs.
    destruct (Z.lt_ge_cases ((d - zoneDate (cal_timezone rule) ts) * stepOf forward) 370); [|lia].
    rewrite (H d i Hi) in Hel; [done|lia].
Qed.
End Search.

(** The zone of a calendar schedule obeys the laws. *)
Definition lawful (s : ConversationSchedule) : Prop :=
  forall rule, calendar s = Some rule -> ZoneLaws (cal_timezone rule).

(** No due time of a calendar schedule is more than [369] local days away from [t]. *)
Definition within_year (s : ConversationSchedule) (t : Z) (forward : bool) (o : Z) : Prop :=
  forall rule, calendar s = Some rule ->
    (zoneDate (cal_timezone rule) o - zoneDate (cal_timezone rule) t) * stepOf forward < 370.

(** A tick that covers the interval from [previous] to [now] is given exactly the
    latest due time in it: what is found is due, in the interval, and no later due time is;
    and when nothing is found, nothing within a year before [now] was due in it. *)
Theorem occurrence_is_the_latest_due (s : ConversationSchedule) (previous now : Z) :
  one_trigger s -> lawful s ->
  match occurrenceBetween s previous now with
  | Some o => due s o /\ previous < o <= now /\ forall o', due s o' -> o' <= now -> o' <= o
  | None => forall o', due s o' -> within_year s now false o' -> ~ previous < o' <= now
  end.
Proof.
  intros Hw Hl. unfold occurrenceBetween, due, within_year, one_trigger, lawful in *.
  destruct (calendar s) as [rule|].
  - specialize (Hl rule eq_refl). pose proof (calendarOccurrence_nearest rule now false) as H.
    destruct (calendarOccurrence rule now false) as [o|]; cbn [eligible nearer stepOf] in H.
    + destruct H as (He & Hd & Hn). apply Z.leb_le in He.
      assert (forall o', (exists d, instantOn rule d = Some o') -> o' <= now -> o' <= o).
      { intros o' [d Hd'] Hle. eapply Hn; [done|by apply Z.leb_le]. }
      destruct (previous <? o) eqn:E; [apply Z.ltb_lt in E|apply Z.ltb_ge in E]; [split_and!; auto|].
      intros o' Ho' _ ?. specialize (H o' Ho'). lia.
    + intros o' [d Hd] Hy [_ Hle]. specialize (H d o' Hd (proj2 (Z.leb_le _ _) Hle)).
      specialize (Hy rule eq_refl). rewrite (instantOn_day rule _ _ Hd) in Hy. cbn [stepOf] in Hy. lia.
  - clear Hl. destruct (one_shot s).
    + destruct (at_ s) as [a|]; [|by destruct (interval_seconds s)]. clear Hw. cbn. destruct ((previous <? a) && (a <=? now)) eqn:E.
      * apply andb_true_iff in E as [?%Z.ltb_lt ?%Z.leb_le]. split_and!; try done. by intros o' [= <-].
      * apply andb_false_iff in E. intros o' [= <-] _. rewrite Z.ltb_ge, Z.leb_gt in E. lia.
    + destruct (interval_seconds s) as [iv|]; [|by destruct (at_ s)].
      assert (1 <= iv) as Hiv by (by destruct (at_ s)). clear Hw.
      change (nullish (Some iv) 0) with iv. generalize (nullish (at_ s) 0). intros a. cbv zeta.
      destruct (iv * 1000 =? 0) eqn:E0; [lia|]. clear E0.
      set (q := (now - a) / (iv * 1000)).
      assert (q * (iv * 1000) <= now - a < (q + 1) * (iv * 1000)) as Hq.
      { subst q. Z.to_euclidean_division_equations. nia. }
      clearbody q. assert (Hmax : forall k, a + k * (iv * 1000) <= now -> k <= q) by (intros; nia).
      destruct (q <? 0) eqn:E1; [apply Z.ltb_lt in E1; intros o' (k & ? & ->) _ [_ Hle%Hmax]; lia|].
      apply Z.ltb_ge in E1. destruct ((previous <? a + q * (iv * 1000)) && (a + q * (iv * 1000) <=? now)) eqn:E2.
      * apply andb_true_iff in E2 as [?%Z.ltb_lt ?%Z.leb_le]. split_and!; [by exists q|done|done|].
        intros o' (k & ? & ->) Hle%Hmax. nia.
      * apply andb_false_iff in E2. intros o' (k & ? & ->) _ [? Hle]. apply Hmax in Hle.
        rewrite Z.ltb_ge, Z.leb_gt in E2. nia.
Qed.

(** The next run the conversation reports is the earliest due time after [now]: it is
    due and later than [now], and every due time after [now] is at least as late; a null
    answer of an enabled schedule means that nothing is due within a year. *)
Theorem next_run_is_the_earliest_due (s : ConversationSchedule) (now : Z) :
  one_trigger s -> lawful s -> enabled s = true ->
  match nextScheduleAt s now with
  | Some o => due s o /\ now < o /\ forall o', due s o' -> now < o' -> o <= o'
  | None => forall o', due s o' -> within_year s now true o' -> o' <= now
  end.
Proof.
  intros Hw Hl Hen. unfold nextScheduleAt, due, within_year, one_trigger, lawful in *. rewrite Hen. cbn [negb].
  destruct (calendar s) as [rule|].
  - specialize (Hl rule eq_refl). pose proof (calendarOccurrence_nearest rule now true) as H.
    destruct (calendarOccurrence rule now true) as [o|]; cbn [eligible nearer stepOf] in H.
    + destruct H as (He & Hd & Hn). apply Z.ltb_lt in He. split_and!; [done|done|].
      intros o' [d Hd'] Hlt. eapply Hn; [done|by apply Z.ltb_lt].
    + intros o' [d Hd] Hy. destruct (Z.le_gt_cases o' now) as [|Hgt]; [done|exfalso].
      specialize (H d o' Hd (proj2 (Z.ltb_lt _ _) Hgt)).
      specialize (Hy rule eq_refl). rewrite (instantOn_day rule _ _ Hd) in Hy. cbn [stepOf] in Hy. lia.
  - clear Hl. destruct (one_shot s).
    + destruct (at_ s) as [a|]; [|by destruct (interval_seconds s)]. clear Hw. cbn. destruct (now <? a) eqn:E.
      * apply Z.ltb_lt in E. split_and!; try done. by intros o' [= <-].
      * apply Z.ltb_ge in E. by intros o' [= <-] _.
    + destruct (interval_seconds s) as [iv|]; [|by destruct (at_ s)].
      assert (1 <= iv) as Hiv by (by destruct (at_ s)). clear Hw.
      change (nullish (Some iv) 0) with iv. generalize (nullish (at_ s) 0). intros a. cbv zeta.
      set (q := (now - a) / (iv * 1000)).
      assert (q * (iv * 1000) <= now - a < (q + 1) * (iv * 1000)) as Hq.
      { subst q. Z.to_euclidean_division_equations. nia. }
      clearbody q. split_and!; [exists (Z.max 0 (q + 1)); split; [lia|done]|nia|].
      intros o' (k & Hk & ->) Hlt. assert (q < k) by nia. nia.
Qed.

(** ** The scheduler (class [ScheduleService])

    [json] is [JSON.parse] of a stored [schedule_json]; [hash] is the SHA-256 digest of an
    encoded scope or fingerprint text; [prompting] is [host.isPrompting].  [auth] is the
    authorization registry, when the service has one: what [resolve] answers for a tenant
    and member at each of the three points of a tick that ask it. *)

Inductive auth_point : Type := AtGuard | AtLaunch | AfterLaunch.

Record RetryEntry : Type := mkRetryEntry {
  re_scheduleId : string; re_occurrence : Z; re_revision : Z; re_generation : Z;
}.

Record ScheduleService : Type := mkService {
  lastTick : option Z;
  retryableOccurrences : list (string * RetryEntry);
  store : Db;
}.

Context (json : SchedJson -> jsval) (hash : string -> string) (prompting : string -> bool)
        (auth : option (auth_point -> string -> string -> option string)).

Definition with_store (db : Db) (st : ScheduleService) : ScheduleService :=
  mkService (lastTick st) (retryableOccurrences st) db.
Definition forget (id : string) (st : ScheduleService) : ScheduleService :=
  mkService (lastTick st) (mdelete id (retryableOccurrences st)) (store st).

(** A scheduled conversation as [listScheduledConversations] reads it: the row and the
    retry recorded for it. *)
Record Scheduled : Type := mkScheduled {
  sc_row : ConversationCols; sc_doc : SchedJson; sc_tenant : string; sc_member : string; sc_retry : option RetryRow;
}.
Definition withScheduleRetry (db : Db) (id : string) : option RetryRow :=
  sql_get (fun r => String.eqb (rt_conversation_id r) id) (retries db).
Definition listScheduledConversations (db : Db) : list Scheduled :=
  omap (fun c => match cv_schedule c, cv_tenant_id c, cv_member_id c with
    | Some doc, Some t, Some m => Some (mkScheduled c doc t m (withScheduleRetry db (cv_id c)))
    | _, _, _ => None
    end) (conversations db).

Definition occurrenceKey (scheduleId at_ conversationId : string) : string :=
  hash (encodeScope [scheduleId; at_; conversationId]).

Definition observe (st : ScheduleService) (c : Scheduled) (s : ConversationSchedule) (occurrence : Z) (reason : string)
    : ScheduleService * result receipt_error unit :=
  let at_ := toISOString occurrence in
  let id := occurrenceKey (schedule_id s) at_ (cv_id (sc_row c)) in
  let db := store st in
  match Automation.occurrence (receiptExists (receipts db)) (automation db)
          (Automation.mkOccurrenceInput id (cv_id (sc_row c)) (sc_tenant c) (sc_member c) (schedule_id s) at_
             (revision s) None (Some reason)) with
  | (a, Ok _) => (with_store (mkDb (receipts db) (conversations db) (retries db) a) st, Ok tt)
  | (_, Err _) => (st, Err ReceiptStoreError)
  end.

(** What [launch] hands to [host.prompt] and keeps for its settlement. *)
Record Launch : Type := mkLaunch {
  la_conversation : Scheduled; la_schedule : ConversationSchedule; la_occurrence : Z;
  la_caller : string; la_key : string; la_owner : option string; la_generation : option Z;
}.

(** The caller of a scheduled run. *)
Definition callerOf (point : auth_point) (c : Scheduled) : option string :=
  match auth with
  | Some resolve => resolve point (sc_tenant c) (sc_member c)
  | None => Some ("schedule:" +:+ sc_tenant c +:+ ":" +:+ sc_member c)%string
  end.

Definition reserveInput (c : Scheduled) (s : ConversationSchedule) (at_ caller key fingerprint : string) : ReserveInput :=
  mkReserve (cv_id (sc_row c)) caller key fingerprint None (one_shot s) (Some (schedule_id s)) (Some (revision s))
    (Some (cv_generation (sc_row c))) true (Some at_).

(** [fingerprint] is the digest of the JSON text of the prompt, the schedule and the time. *)
Context (fingerprintText : string -> string -> string -> string).

Definition launch (st : ScheduleService) (c : Scheduled) (s : ConversationSchedule) (occurrence : Z) (uuid : string) (clock : Z)
    : ScheduleService * result receipt_error (option Launch) :=
  let at_ := toISOString occurrence in
  let key := occurrenceKey (schedule_id s) at_ (cv_id (sc_row c)) in
  match callerOf AtLaunch c with
  | None => (st, Ok None)
  | Some caller =>
      let fingerprint := hash (fingerprintText (prompt_template s) (schedule_id s) at_) in
      let '(db, r) := reservePrompt (store st) (reserveInput c s at_ caller key fingerprint) uuid clock in
      let st := with_store db st in
      match r with
      | Ok receipt =>
          if ir_isNew receipt
          then (st, Ok (Some (mkLaunch c s occurrence caller key (ir_ownerInstance receipt) (ir_scheduleGeneration receipt))))
          else (forget (cv_id (sc_row c)) st, Ok None)
      | Err (IdempotencyUnknownError | IdempotencyConflictError | ScheduleRevisionConflictError) =>
          (forget (cv_id (sc_row c)) st, Ok None)
      | Err e => (st, Err e)
      end
  end.

Inductive outcome : Type := OverlapSkipped | AuthorizationRequired | Launched (l : Launch) | NotLaunched.
Record Visit : Type := mkVisit { vi_conversation : Scheduled; vi_schedule : ConversationSchedule; vi_occurrence : Z; vi_outcome : outcome }.

Definition isSome_nonempty (s : option string) : bool :=
  match s with Some x => negb (String.eqb x "") | None => false end.
Definition retryAt (c : Scheduled) : option string := rt_occurrence_at <$> sc_retry c.

(** The retry in memory is for this schedule, revision and generation. *)
Definition retryMatches (c : Scheduled) (s : ConversationSchedule) (r : RetryEntry) : bool :=
  (re_revision r =? revision s) && String.eqb (re_scheduleId r) (schedule_id s)
  && (re_generation r =? cv_generation (sc_row c)).
Definition persistedRetryMatches (c : Scheduled) (s : ConversationSchedule) : bool :=
  match sc_retry c with
  | Some r => String.eqb (rt_schedule_id r) (schedule_id s) && (rt_revision r =? revision s)
              && (rt_generation r =? cv_generation (sc_row c)) && isSome_nonempty (Some (rt_occurrence_at r))
  | None => false
  end.
Definition persistedRetry (c : Scheduled) (s : ConversationSchedule) : option Z :=
  if persistedRetryMatches c s then retryAt c ≫= dateParse else None.
Definition memoryRetry (st : ScheduleService) (c : Scheduled) (s : ConversationSchedule) : option RetryEntry :=
  match mget (cv_id (sc_row c)) (retryableOccurrences st) with
  | Some r => if retryMatches c s r then Some r else None
  | None => None
  end.

(** The occurrence to run now, and whether it is a retry. *)
Definition pick (st : ScheduleService) (c : Scheduled) (s : ConversationSchedule) (previous now : Z) : bool * option Z :=
  match memoryRetry st c s with
  | Some r => (true, Some (re_occurrence r))
  | None => match persistedRetry c s with
            | Some t => (true, Some t)
            | None => (false, occurrenceBetween s previous now)
            end
  end.

(** Stale retries are dropped before anything else. *)
Definition dropStale (st : ScheduleService) (c : Scheduled) (s : ConversationSchedule) : ScheduleService :=
  let id := cv_id (sc_row c) in
  let st := match mget id (retryableOccurrences st) with
            | Some r => if retryMatches c s r then st else forget id st
            | None => st
            end in
  if isSome_nonempty (retryAt c) && negb (persistedRetryMatches c s) then with_store (clearScheduleRetry (store st) id) st else st.

(** The authorization check of the loop; a service without a registry passes it. *)
Definition unauthorized (point : auth_point) (c : Scheduled) : bool :=
  match callerOf point c with Some _ => false | None => true end.

(** The schedule of a conversation that the loop considers at all. *)
Definition parsedOf (c : Scheduled) : option ConversationSchedule :=
  if String.eqb (sc_tenant c) "" || String.eqb (sc_member c) "" then None
  else match validateSchedule (json (sc_doc c)) with Ok s => Some s | Err _ => None end.

(** One round of the loop: the service after it, what happened, and whether
    authorization blocked; an error is what the round throws. *)
Definition visit (st : ScheduleService) (c : Scheduled) (previous now : Z) (uuid : string) (clock : Z)
    : ScheduleService * result receipt_error (option Visit * bool) :=
  match parsedOf c with
  | None => (st, Ok (None, false))
  | Some s =>
      let id := cv_id (sc_row c) in
      let st1 := dropStale st c s in
      if negb (enabled s)
      then let st2 := forget id st1 in
           (if isSome_nonempty (retryAt c) then with_store (clearScheduleRetry (store st2) id) st2 else st2, Ok (None, false))
      else
        let '(retrying, o) := pick st c s previous now in
        match o with
        | None => (st1, Ok (None, false))
        | Some occurrence =>
            if prompting id then
              let '(st2, r) := observe st1 c s occurrence "overlap_skip" in
              (st2, _ ← r; Ok (Some (mkVisit c s occurrence OverlapSkipped), false))
            else if unauthorized AtGuard c then
              let '(st2, r) := observe st1 c s occurrence "authorization_required" in
              (st2, _ ← r; Ok (Some (mkVisit c s occurrence AuthorizationRequired), true))
            else
              match launch st1 c s occurrence uuid clock with
              | (st2, Ok (Some l)) =>
                  (if retrying then forget id st2 else st2, Ok (Some (mkVisit c s occurrence (Launched l)), unauthorized AfterLaunch c))
              | (st2, Ok None) => (st2, Ok (Some (mkVisit c s occurrence NotLaunched), unauthorized AfterLaunch c))
              | (st2, Err e) => (st2, Err e)
              end
        end
  end.

Definition addVisit (v : option Visit) (vs : list Visit) : list Visit :=
  match v with Some v => v :: vs | None => vs end.

Fixpoint visitAll (st : ScheduleService) (cs : list Scheduled) (previous now : Z) (uuids : nat -> string) (clock : Z)
    : ScheduleService * list Visit * result receipt_error bool :=
  match cs with
  | [] => (st, [], Ok false)
  | c :: cs =>
      match visit st c previous now (uuids (length cs)) clock with
      | (st1, Err e) => (st1, [], Err e)
      | (st1, Ok (v, b)) =>
          let '(st2, vs, r) := visitAll st1 cs previous now uuids clock in
          (st2, addVisit v vs, b' ← r; Ok (b || b'))
      end
  end.

(** [tick]; the number it returns is the number of [Launched] visits. *)
Definition tick (st : ScheduleService) (now : Z) (uuids : nat -> string) (clock : Z)
    : ScheduleService * list Visit * result receipt_error unit :=
  let previous := nullish (lastTick st) now in
  let st := mkService (Some previous) (retryableOccurrences st) (store st) in
  if now <=? previous then (st, [], Ok tt)
  else
    match visitAll st (listScheduledConversations (store st)) previous now uuids clock with
    | (st', vs, Ok blocked) => (if blocked then st' else mkService (Some now) (retryableOccurrences st') (store st'), vs, Ok tt)
    | (st', vs, Err e) => (st', vs, Err e)
    end.

(** The settlement of the prompt [launch] started; [detail] is the error's text made safe
    ([safeScheduleFailure]). *)
Inductive settlement : Type :=
| Settled (lastEntryId : option string)
| PreExecutionAuthorizationFailure (detail : string)
| Failed (detail : string).

Definition settleUnknown (inst : string) (st : ScheduleService) (l : Launch) (code detail : string) (clock : Z) : ScheduleService :=
  with_store (markUnknown inst (store st) (cv_id (sc_row (la_conversation l))) (la_caller l) (la_key l) (la_owner l)
                DEFAULT_LEASE_MS (Some code) (Some detail) clock) st.

(** Keep the released occurrence for a retry while its schedule is still the same one. *)
Definition rememberRetry (st : ScheduleService) (l : Launch) : ScheduleService :=
  let s := la_schedule l in
  let id := cv_id (sc_row (la_conversation l)) in
  match sql_get (is_conv id) (conversations (store st)) with
  | Some row =>
      if eq_str (schedule_id_of row) (schedule_id s) && eq_Z (revision_of row) (revision s)
      then mkService (lastTick st)
             (mset id (mkRetryEntry (schedule_id s) (la_occurrence l) (revision s) (cv_generation row)) (retryableOccurrences st))
             (store st)
      else st
  | None => st
  end.

Definition settle (inst : string) (st : ScheduleService) (l : Launch) (x : settlement) (clock : Z) : ScheduleService :=
  let s := la_schedule l in
  let id := cv_id (sc_row (la_conversation l)) in
  match x with
  | Settled e =>
      if isSome_nonempty e then with_store (markCompleted inst (store st) id (la_caller l) (la_key l) e (la_owner l)) st
      else settleUnknown inst st l "prompt_not_settled" "Prompt did not produce a proven terminal entry" clock
  | Failed detail => settleUnknown inst st l "execution_failed" detail clock
  | PreExecutionAuthorizationFailure detail =>
      match la_generation l with
      | None => settleUnknown inst st l "execution_failed" detail clock
      | Some g =>
          let '(db, released) := releasePreExecutionPrompt inst (store st) id (la_caller l) (la_key l) (la_owner l) (one_shot s)
            (Some (mkRetryInput (schedule_id s) (toISOString (la_occurrence l)) (revision s) g (Some "authorization_required"))) clock in
          let st := with_store db st in
          if released then
            match observe st (la_conversation l) s (la_occurrence l) "authorization_required" with
            | (st, Ok _) => rememberRetry st l
            | (st, Err _) => st
            end
          else settleUnknown inst st l "execution_failed" detail clock
      end
  end.

(** ** What a tick does *)

(** What a round on the conversation [id] leaves alone. *)
Definition frames (id : string) (st st' : ScheduleService) : Prop :=
  lastTick st' = lastTick st /\
  (forall id', id' <> id -> mget id' (retryableOccurrences st') = mget id' (retryableOccurrences st)) /\
  key_of <$> receipts (store st) `sublist_of` key_of <$> receipts (store st').

Lemma frames_refl id st : frames id st st.
Proof. by split_and!. Qed.
Lemma frames_trans id st1 st2 st3 : frames id st1 st2 -> frames id st2 st3 -> frames id st1 st3.
Proof.
  intros (H1 & H2 & H3) (K1 & K2 & K3). split_and!; [congruence| |by etrans].
  intros id' Hne. by rewrite K2, H2.
Qed.
Lemma frames_forget id st : frames id st (forget id st).
Proof. split_and!; [done| |done]. intros id' Hne. by apply mget_mdelete_ne. Qed.
Lemma frames_store id db st : (key_of <$> receipts (store st)) `sublist_of` (key_of <$> receipts db) -> frames id st (with_store db st).
Proof. intros H. by split_and!. Qed.

Lemma frames_clear id c st : frames id st (with_store (clearScheduleRetry (store st) c) st).
Proof. by apply frames_store. Qed.

Lemma frames_dropStale st c s : frames (cv_id (sc_row c)) st (dropStale st c s).
Proof.
  unfold dropStale. set (st1 := match mget _ _ with Some _ => _ | None => _ end).
  assert (frames (cv_id (sc_row c)) st st1) as H.
  { subst st1. repeat case_match; [apply frames_refl|apply frames_forget|apply frames_refl]. }
  case_match; [|done]. eapply frames_trans; [exact H|apply frames_clear].
Qed.

Lemma frames_observe st c s o why : frames (cv_id (sc_row c)) st (observe st c s o why).1.
Proof. unfold observe. destruct (Automation.occurrence _ _ _) as [a [|]]; [by apply frames_store|apply frames_refl]. Qed.

Lemma reserve_keeps_keys db i uuid now :
  (key_of <$> receipts db) `sublist_of` (key_of <$> receipts (reservePrompt db i uuid now).1).
Proof.
  pose proof (reserve_receipts db i uuid now) as H. destruct (reservePrompt db i uuid now) as [db' [r|e]]; cbn [fst].
  - destruct (ir_isNew r).
    + destruct H as [-> _]. rewrite fmap_app. by apply sublist_inserts_r.
    + by subst.
  - by rewrite (steps_keys _ _ H).
Qed.

Lemma frames_launch st c s o uuid clock : frames (cv_id (sc_row c)) st (launch st c s o uuid clock).1.
Proof.
  unfold launch. destruct (callerOf AtLaunch c) as [caller|]; [|apply frames_refl].
  set (i := reserveInput _ _ _ _ _ _). pose proof (reserve_keeps_keys (store st) i uuid clock) as Hk.
  destruct (reservePrompt (store st) i uuid clock) as [db r]. cbn [fst] in Hk.
  pose proof (frames_store (cv_id (sc_row c)) db st Hk) as Hf.
  assert (frames (cv_id (sc_row c)) st (forget (cv_id (sc_row c)) (with_store db st))) as Hg.
  { eapply frames_trans; [exact Hf|apply frames_forget]. }
  destruct r as [r|[| | |]]; [destruct (ir_isNew r)|..]; done.
Qed.

Lemma visit_frames st c previous now uuid clock : frames (cv_id (sc_row c)) st (visit st c previous now uuid clock).1.
Proof.
  unfold visit. destruct (parsedOf c) as [s|]; [|apply frames_refl].
  pose proof (frames_dropStale st c s) as Hd. set (st1 := dropStale st c s) in *. clearbody st1.
  destruct (negb (enabled s)).
  { eapply frames_trans; [exact Hd|]. cbv zeta.
    destruct (isSome_nonempty _); [eapply frames_trans; [apply frames_forget|apply frames_clear]|apply frames_forget]. }
  destruct (pick _ _ _ _ _) as [retrying [o|]]; [|done].
  destruct (prompting _); [|destruct (unauthorized AtGuard c)].
  - pose proof (frames_observe st1 c s o "overlap_skip") as H. destruct (observe _ _ _ _ _). eapply frames_trans; eauto.
  - pose proof (frames_observe st1 c s o "authorization_required") as H. destruct (observe _ _ _ _ _). eapply frames_trans; eauto.
  - pose proof (frames_launch st1 c s o uuid clock) as H.
    destruct (launch _ _ _ _ _ _) as [st2 [[l|]|e]]; cbn [fst] in *; try (by eapply frames_trans; eauto).
    destruct retrying; [|by eapply frames_trans; eauto].
    eapply frames_trans; [exact Hd|]. eapply frames_trans; [exact H|apply frames_forget].
Qed.

(** What a reported visit says. *)
Definition justified (st : ScheduleService) (previous now : Z) (w : Visit) : Prop :=
  let c := vi_conversation w in
  parsedOf c = Some (vi_schedule w) /\ enabled (vi_schedule w) = true /\
  (pick st c (vi_schedule w) previous now).2 = Some (vi_occurrence w) /\
  match vi_outcome w with
  | Launched l =>
      prompting (cv_id (sc_row c)) = false /\ is_Some (callerOf AtGuard c) /\ callerOf AtLaunch c = Some (la_caller l) /\
      la_key l = occurrenceKey (schedule_id (vi_schedule w)) (toISOString (vi_occurrence w)) (cv_id (sc_row c)) /\
      (cv_id (sc_row c), la_caller l, la_key l) ∉ key_of <$> receipts (store st)
  | OverlapSkipped => prompting (cv_id (sc_row c)) = true
  | AuthorizationRequired => callerOf AtGuard c = None
  | NotLaunched => True
  end.

Lemma launch_new st c s o uuid clock st' l : launch st c s o uuid clock = (st', Ok (Some l)) ->
  callerOf AtLaunch c = Some (la_caller l) /\
  la_key l = occurrenceKey (schedule_id s) (toISOString o) (cv_id (sc_row c)) /\
  (cv_id (sc_row c), la_caller l, la_key l) ∉ key_of <$> receipts (store st).
Proof.
  unfold launch. destruct (callerOf AtLaunch c) as [caller|]; [|done].
  set (i := reserveInput _ _ _ _ _ _). pose proof (reserve_receipts (store st) i uuid clock) as Hr.
  destruct (reservePrompt (store st) i uuid clock) as [db r].
  destruct r as [r|[| | |]]; [destruct (ir_isNew r)|..]; intros H; simplify_eq. cbn [la_caller la_key].
  split_and!; [done|done|]. destruct Hr as [_ Hno].
  intros (row & Hkey & Hin)%list_elem_of_fmap. rewrite sql_get_None in Hno.
  specialize (Hno row Hin). rewrite (proj2 (is_key_iff _ _ _ row)) in Hno; done.
Qed.

Lemma dropStale_receipts st c s : receipts (store (dropStale st c s)) = receipts (store st).
Proof. unfold dropStale. repeat case_match; done. Qed.

Lemma unauthorized_iff p c : unauthorized p c = true <-> callerOf p c = None.
Proof. unfold unauthorized. by destruct (callerOf p c). Qed.

Lemma visit_Ok st c previous now uuid clock st' v b : visit st c previous now uuid clock = (st', Ok (v, b)) ->
  match v with
  | Some w => vi_conversation w = c /\ justified st previous now w /\ (vi_outcome w = AuthorizationRequired -> b = true)
  | None => forall s, parsedOf c = Some s -> enabled s = true -> (pick st c s previous now).2 = None
  end.
Proof.
  unfold visit. destruct (parsedOf c) as [s|] eqn:Hp; [|by intros [= <- <- <-]].
  pose proof (dropStale_receipts st c s) as Hr. set (st1 := dropStale st c s) in *. clearbody st1.
  destruct (enabled s) eqn:He; cbn [negb]; [|intros [= <- <- <-]; intros s' [= <-] ?; congruence].
  destruct (pick st c s previous now) as [retrying [o|]] eqn:Hpick;
    [|intros [= <- <- <-] s' [= <-] _; by rewrite Hpick].
  destruct (prompting (cv_id (sc_row c))) eqn:Hpr; [|destruct (unauthorized AtGuard c) eqn:Hg].
  - destruct (observe _ _ _ _ _) as [st2 [|]]; intros H; simplify_eq/=.
    split_and!; [done| |done]. unfold justified; cbn. by rewrite Hp, Hpick.
  - destruct (observe _ _ _ _ _) as [st2 [|]]; intros H; simplify_eq/=.
    split_and!; [done| |done]. unfold justified; cbn. rewrite Hp, Hpick. by apply unauthorized_iff in Hg.
  - destruct (launch _ _ _ _ _ _) as [st2 [[l|]|e]] eqn:Hl; intros H; simplify_eq/=; (split_and!; [done| |done]).
    + apply launch_new in Hl as (Hc & Hk & Hno). unfold justified; cbn. rewrite Hp, Hpick. rewrite Hr in Hno.
      split_and!; try done. unfold unauthorized in Hg. by destruct (callerOf AtGuard c).
    + unfold justified; cbn. by rewrite Hp, Hpick.
Qed.

Definition convId (c : Scheduled) : string := cv_id (sc_row c).

Lemma pick_frames id st st' c s previous now : frames id st st' -> convId c <> id ->
  pick st' c s previous now = pick st c s previous now.
Proof. intros (_ & H & _) Hne. unfold pick, memoryRetry. fold (convId c). by rewrite (H _ Hne). Qed.

Lemma justified_frames id st st' previous now w : frames id st st' -> convId (vi_conversation w) <> id ->
  justified st' previous now w -> justified st previous now w.
Proof.
  intros Hf Hne (H1 & H2 & H3 & H4). split_and!; [done|done| |].
  - by rewrite <- (pick_frames _ _ _ _ _ _ _ Hf Hne).
  - destruct (vi_outcome w) as [| |l|]; try done. destruct H4 as (? & ? & ? & ? & Hno). split_and!; try done.
    intros Hin. apply Hno. destruct Hf as (_ & _ & Hk). eapply elem_of_submseteq; [exact Hin|by apply sublist_submseteq].
Qed.

Lemma visitAll_spec cs st previous now uuids clock st' vs r :
  NoDup (convId <$> cs) -> visitAll st cs previous now uuids clock = (st', vs, r) ->
  lastTick st' = lastTick st /\
  (forall w, w ∈ vs -> vi_conversation w ∈ cs /\ justified st previous now w) /\
  NoDup (convId ∘ vi_conversation <$> vs) /\
  (forall b, r = Ok b ->
    (forall w, w ∈ vs -> vi_outcome w = AuthorizationRequired -> b = true) /\
    forall c s, c ∈ cs -> parsedOf c = Some s -> enabled s = true -> is_Some (pick st c s previous now).2 ->
      exists w, w ∈ vs /\ vi_conversation w = c).
Proof.
  revert st st' vs r. induction cs as [|c cs IH]; intros st st' vs r Hd H; cbn [visitAll] in H.
  { simplify_eq. split_and!; [done|by intros w ?%not_elem_of_nil|constructor|].
    intros b _. split; [by intros w ?%not_elem_of_nil|by intros c s ?%not_elem_of_nil]. }
  rewrite fmap_cons in Hd. apply NoDup_cons in Hd as [Hc Hd].
  pose proof (visit_frames st c previous now (uuids (length cs)) clock) as Hf.
  destruct (visit st c previous now _ clock) as [st1 [[v b]|e]] eqn:Hv; cbn [fst] in Hf.
  2:{ simplify_eq. destruct Hf as (? & _ & _). split_and!; [done|by intros w ?%not_elem_of_nil|constructor|done]. }
  destruct (visitAll st1 cs previous now uuids clock) as [[st2 vs2] r2] eqn:Hall. simplify_eq.
  apply visit_Ok in Hv. destruct (IH _ _ _ _ Hd Hall) as (Hlast & Hjust & Hnd & Hok).
  assert (Hne : forall c', c' ∈ cs -> convId c' <> convId c).
  { intros c' Hc' E. apply Hc. rewrite <- E. by apply list_elem_of_fmap_2. }
  assert (Hrest : forall w, w ∈ vs2 -> vi_conversation w ∈ c :: cs /\ justified st previous now w).
  { intros w Hw. destruct (Hjust w Hw) as [Hin Hj]. split; [by right|].
    eapply justified_frames; [exact Hf|by apply Hne|done]. }
  assert (Hcov : forall c' s, c' ∈ cs -> parsedOf c' = Some s -> enabled s = true -> is_Some (pick st c' s previous now).2 ->
      forall b', r2 = Ok b' -> exists w, w ∈ vs2 /\ vi_conversation w = c').
  { intros c' s Hc' Hp He Hs b' Hr. apply (proj2 (Hok b' Hr) c' s Hc' Hp He).
    by rewrite (pick_frames _ _ _ _ _ _ _ Hf (Hne c' Hc')). }
  split; [destruct Hf as (<- & _ & _); done|].
  destruct v as [w|]; cbn [addVisit].
  - destruct Hv as (<- & Hw & Hb). split_and!.
    + intros w' [->|Hin]%elem_of_cons; [split; [by left|done]|by apply Hrest].
    + rewrite fmap_cons. apply NoDup_cons. split; [|done].
      intros (w' & E & Hin)%list_elem_of_fmap. destruct (Hjust w' Hin) as [Hc' _]. by apply (Hne _ Hc').
    + intros b0 (b2 & Hr2 & [= <-])%bind_Ok. split.
      * intros w' [->|Hin]%elem_of_cons Ha; [by rewrite (Hb Ha)|].
        rewrite (proj1 (Hok _ Hr2) w' Hin Ha). apply orb_true_r.
      * intros c' s [->|Hin]%elem_of_cons Hp He Hs; [exists w; split; [by left|done]|].
        destruct (Hcov c' s Hin Hp He Hs _ Hr2) as (w' & ? & ?). exists w'. split; [by right|done].
  - split_and!; [done|done|]. intros b0 (b2 & Hr2 & [= <-])%bind_Ok. split.
    + intros w' Hin Ha. rewrite (proj1 (Hok _ Hr2) w' Hin Ha). apply orb_true_r.
    + intros c' s [->|Hin]%elem_of_cons Hp He Hs; [|by eapply Hcov].
      rewrite (Hv s Hp He) in Hs. by destruct Hs.
Qed.

Lemma scheduled_ids db : NoDup (cv_id <$> conversations db) -> NoDup (convId <$> listScheduledConversations db).
Proof.
  unfold listScheduledConversations. intros H. eapply sublist_NoDup; [exact H|].
  clear H. generalize (withScheduleRetry db). intros g. induction (conversations db) as [|c cs IH]; cbn; [constructor|].
  repeat case_match; simplify_eq/=; by constructor.
Qed.

(** C9. A tick accounts for every occurrence and launches none twice.  When a tick at
    [now] runs to its end, (1) every enabled, valid scheduled conversation with an
    occurrence to run (a retry recorded for the current schedule, or the latest due time
    since the previous tick) is visited, once; (2) each visit is of such an occurrence, and
    a launch happened with no prompt running, with an authorised caller, and under an
    idempotency key that had no receipt before the tick; (3) the watermark moves to [now]
    only when no occurrence was held back for authorization, and otherwise stays behind
    them. *)
Theorem tick_accounts_for_occurrences (st : ScheduleService) (now : Z) (uuids : nat -> string) (clock : Z) st' vs :
  let previous := nullish (lastTick st) now in
  NoDup (cv_id <$> conversations (store st)) -> previous < now ->
  tick st now uuids clock = (st', vs, Ok tt) ->
  NoDup (convId ∘ vi_conversation <$> vs) /\
  (forall c s, c ∈ listScheduledConversations (store st) -> parsedOf c = Some s -> enabled s = true ->
     is_Some (pick st c s previous now).2 -> exists w, w ∈ vs /\ vi_conversation w = c) /\
  (forall w, w ∈ vs -> vi_conversation w ∈ listScheduledConversations (store st) /\ justified st previous now w) /\
  (lastTick st' = Some previous \/
   lastTick st' = Some now /\ forall w, w ∈ vs -> vi_outcome w <> AuthorizationRequired).
Proof.
  intros previous Hd Hlt. unfold tick. fold previous. cbv zeta. cbn [store].
  rewrite (proj2 (Z.leb_gt _ _) Hlt).
  destruct (visitAll _ _ _ _ _ _) as [[st1 vs1] [b|e]] eqn:Hall; intros H; simplify_eq.
  apply visitAll_spec in Hall as (Hlast & Hj & Hnd & Hok); [|by apply scheduled_ids].
  destruct (Hok b eq_refl) as [Hb Hcov]. split_and!; [done|exact Hcov|exact Hj|].
  destruct b; [by left|]. right. split; [done|]. intros w Hw Ha. by specialize (Hb w Hw Ha).
Qed.
End Calendar.

(** ** Witnesses: the UTC zone and one scheduled conversation *)

Definition utcDate (_ : string) (ms : Z) : Z := ms / MS_PER_DAY.
Definition utcInstant (_ : string) (d sec : Z) : option Z :=
  if (0 <=? sec) && (sec <? 86400) then Some (d * MS_PER_DAY + sec * 1000) else None.

#[export] Instance utc_laws tz : ZoneLaws utcDate utcInstant tz.
Proof.
  unfold utcDate, utcInstant, MS_PER_DAY. split.
  - intros d sec i. destruct (_ && _) eqn:E; [|done]. intros [= <-].
    apply andb_true_iff in E as [?%Z.leb_le ?%Z.ltb_lt]. Z.to_euclidean_division_equations. lia.
  - intros i j H. apply Z.div_le_mono; lia.
Qed.

Definition demoCalendar : CalendarRule := mkCalendar (Monthly 31) "Etc/UTC" 32400.
Definition demoMonthly : ConversationSchedule := mkSchedule "s" 1 true None None false (Some demoCalendar) "Report".
(** 2024-02-15T00:00:00Z, the next 31st and the one before. *)
Definition demoNow : Z := 1707955200000.

Lemma demo_lawful : lawful utcDate utcInstant demoMonthly.
Proof. intros rule _. apply utc_laws. Qed.

Lemma occurrence_is_the_latest_due_witness :
  (toISOString <$> occurrenceBetween utcDate utcInstant demoMonthly 0 demoNow = Some "2024-01-31T09:00:00.000Z"%string) /\
  match occurrenceBetween utcDate utcInstant demoMonthly 0 demoNow with
  | Some o => due utcInstant demoMonthly o /\ 0 < o <= demoNow /\ forall o', due utcInstant demoMonthly o' -> o' <= demoNow -> o' <= o
  | None => forall o', due utcInstant demoMonthly o' -> within_year utcDate demoMonthly demoNow false o' -> ~ 0 < o' <= demoNow
  end.
Proof. split; [vm_compute; reflexivity|]. exact (occurrence_is_the_latest_due utcDate utcInstant demoMonthly 0 demoNow I demo_lawful). Defined.

Lemma next_run_is_the_earliest_due_witness :
  (toISOString <$> nextScheduleAt utcDate utcInstant demoMonthly demoNow = Some "2024-03-31T09:00:00.000Z"%string) /\
  match nextScheduleAt utcDate utcInstant demoMonthly demoNow with
  | Some o => due utcInstant demoMonthly o /\ demoNow < o /\ forall o', due utcInstant demoMonthly o' -> demoNow < o' -> o <= o'
  | None => forall o', due utcInstant demoMonthly o' -> within_year utcDate demoMonthly demoNow true o' -> o' <= demoNow
  end.
Proof. split; [vm_compute; reflexivity|]. exact (next_run_is_the_earliest_due utcDate utcInstant demoMonthly demoNow I demo_lawful eq_refl). Defined.

Definition demoValue : jsval :=
  VObj [("schedule_id", VStr "s"); ("prompt_template", VStr "Report"); ("interval_seconds", VInt 60)]%string.

Lemma validated_schedule_is_well_formed_witness :
  one_trigger (mkSchedule "s" 1 true None (Some 60) false None "Report") /\ 1 <= 1.
Proof.
  destruct (validated_schedule_is_well_formed (fun _ => true) utcDate utcInstant (fun _ => None) demoValue
    (mkSchedule "s" 1 true None (Some 60) false None "Report") eq_refl) as (H & _ & H' & _). exact (conj H H').
Defined.

(** A mode given as an array of one word passes the check of [String(raw.mode)] but is no
    string: a weekly rule written so is accepted, and runs every day. *)
Example array_mode_runs_daily :
  validateCalendar (fun _ => true)
    (VObj [("mode", VArr [VStr "weekly"]); ("timezone", VStr "Etc/UTC"); ("time", VStr "09:00:00")]%string)
  = Ok (mkCalendar Daily "Etc/UTC" 32400).
Proof. vm_compute. reflexivity. Qed.

Definition demoRow : ConversationCols :=
  mkConv "c" (Some "t") (Some "m") (Some (mkSched (Some "s") (Some 1) (Some true) "doc")) 0 0.
Definition demoService : ScheduleService := mkService (Some 59000) [] (mkDb [] [demoRow] [] (Automation.mkAutomation [] [] [] [])).
Definition demoTick := tick (fun _ => true) utcDate utcInstant (fun _ => None) (fun _ => demoValue) (fun x => x) (fun _ => false)
  None (fun a b c => a +:+ b +:+ c) demoService 60000 (fun _ => "u"%string) 60000.

Lemma demo_convs : NoDup (cv_id <$> conversations (store demoService)).
Proof. apply NoDup_singleton. Qed.

Lemma tick_accounts_for_occurrences_witness :
  (vi_occurrence <$> demoTick.1.2 = [60000]) /\ NoDup (convId ∘ vi_conversation <$> demoTick.1.2).
Proof.
  split; [vm_compute; reflexivity|].
  assert (59000 < 60000) as Hlt by lia. assert (demoTick = (demoTick.1.1, demoTick.1.2, Ok tt)) as E by (vm_compute; reflexivity).
  exact (proj1 (tick_accounts_for_occurrences _ _ _ _ _ _ _ _ _ demoService 60000 _ 60000 _ _ demo_convs Hlt E)).
Defined.
