(* ===== verification/Conversations.v ===== *)
(** Conversations, their participants and workspace moves (storage/sqlite.ts, tables
    [conversation], [conversation_participant_session], [conversation_entry_source],
    [workspace_move] and [local_file]; storage/conversation-failures.ts).

    The store of this file holds every table a conversation owns rows in, with the tables of
    the other repositories as those files model them, so that [deleteConversation] is the
    composition of their deletions.  Times are milliseconds; the columns that hold JSON hold
    the value it encodes, except [schedule_json], which the code compares as text: [stringify]
    and [parseObject] are [JSON.stringify] of a schedule object and [parseJsonObject]. *)

From S2P Require Import Prelude Sql.
From S2P Require Automation Receipts ApprovalStore Outbox WorkRecords Segments.
From Stdlib Require Import Ascii Structures.OrdersEx Sorting.Sorted.
Local Open Scope Z_scope.

Inductive ConversationState : Type := Draft | Active | Paused | Muted | Archived.
Inductive PermissionMode : Type := ReadOnly | WorkspaceWrite | FullAccess.
Inductive ParticipantRole : Type := Coordinator | Member.
#[export] Instance ParticipantRole_eq_dec : EqDecision ParticipantRole.
Proof. solve_decision. Defined.
Inductive GroupOrchestration : Type := Auto | Custom (prompt : string).

Record ConversationRow : Type := mkRow {
  id : string; session_file : string; workspace : string; title : option string; description : option string;
  orchestration_json : option GroupOrchestration; kind : string; labels_json : list string; state : ConversationState;
  entry_employee_id : option string; coordinator_employee_id : option string; solution_ref : option string;
  tenant_id : option string; member_id : option string; schedule_json : option string; schedule_generation : Z;
  permission_mode : PermissionMode; last_read_entry_id : option string; created_at : Z; updated_at : Z;
}.

Record ParticipantSession : Type := mkParticipant {
  p_conversation_id : string; p_employee_id : string; p_role : ParticipantRole; p_session_file : string;
  p_workspace : string; p_pi_session_id : option string; p_employee_version : string;
  p_created_at : Z; p_updated_at : Z; p_removed_at : option Z;
}.

Inductive SourceType : Type := Human | Employee.
Record EntrySource : Type := mkSource {
  es_conversation_id : string; es_employee_id : string; es_pi_entry_id : string; es_logical_message_id : string;
  es_source_type : SourceType; es_source_id : string; es_display_name : option string; es_created_at : Z;
}.

Record FailureRow : Type := mkFailure {
  fl_conversation_id : string; fl_employee_id : string; fl_work_id : option string; fl_error_code : string;
  fl_error_message : string; fl_failed_at : Z;
}.
Record WorkspaceMove : Type := mkMove { mv_old : string; mv_new : string; mv_created_at : Z }.
Record FileRow : Type := mkFile { fi_conversation_id : string; fi_tenant_id : string; fi_member_id : string; fi_storage_path : string }.

Record Store : Type := mkStore {
  rows : list ConversationRow;
  participants : list ParticipantSession;
  sources : list EntrySource;
  failures : list FailureRow;
  moves : list WorkspaceMove;
  files : list FileRow;
  retries : list Receipts.RetryRow;
  receipts : list Receipts.ReceiptRow;
  approvals : list ApprovalStore.ApprovalRecord;
  automation : Automation.AutomationDb;
  work : WorkRecords.WorkDb;
  segments : list Segments.SegmentRow;
}.

Definition set_rows (x : list ConversationRow) (s : Store) : Store :=
  mkStore x (participants s) (sources s) (failures s) (moves s) (files s) (retries s) (receipts s) (approvals s) (automation s) (work s) (segments s).
Definition set_participants (x : list ParticipantSession) (s : Store) : Store :=
  mkStore (rows s) x (sources s) (failures s) (moves s) (files s) (retries s) (receipts s) (approvals s) (automation s) (work s) (segments s).
Definition set_sources (x : list EntrySource) (s : Store) : Store :=
  mkStore (rows s) (participants s) x (failures s) (moves s) (files s) (retries s) (receipts s) (approvals s) (automation s) (work s) (segments s).
Definition set_failures (x : list FailureRow) (s : Store) : Store :=
  mkStore (rows s) (participants s) (sources s) x (moves s) (files s) (retries s) (receipts s) (approvals s) (automation s) (work s) (segments s).
Definition set_moves (x : list WorkspaceMove) (s : Store) : Store :=
  mkStore (rows s) (participants s) (sources s) (failures s) x (files s) (retries s) (receipts s) (approvals s) (automation s) (work s) (segments s).
Definition set_retries (x : list Receipts.RetryRow) (s : Store) : Store :=
  mkStore (rows s) (participants s) (sources s) (failures s) (moves s) (files s) x (receipts s) (approvals s) (automation s) (work s) (segments s).

Inductive store_error : Type :=
| ScheduleGuarded (e : Automation.automation_error)
| MissingConversation
| InvalidReadCursor
| StoreConstraint.

(** ** Failures (class [ConversationFailureStore]) *)

Definition MAX_MESSAGE_CHARS : nat := 1000.
Definition is_failure (conversationId employeeId : string) (f : FailureRow) : bool :=
  String.eqb (fl_conversation_id f) conversationId && String.eqb (fl_employee_id f) employeeId.
Definition recordFailure (s : Store) (conversationId : string) (employeeId workId : option string) (code message : string) (failedAt : Z) : Store :=
  let row := mkFailure conversationId (nullish employeeId "") workId code (Receipts.slice MAX_MESSAGE_CHARS message) failedAt in
  set_failures (sql_upsert (is_failure conversationId (nullish employeeId "")) (fun _ => row) row (failures s)) s.
Definition clearFailure (s : Store) (conversationId : string) (employeeId : option string) : Store :=
  set_failures (sql_delete (is_failure conversationId (nullish employeeId "")) (failures s)) s.
Definition by_failed (a b : FailureRow) : bool :=
  (fl_failed_at a <? fl_failed_at b) || ((fl_failed_at a =? fl_failed_at b) && String.leb (fl_employee_id a) (fl_employee_id b)).
Definition listFailures (s : Store) (conversationId : string) : list FailureRow :=
  order_by by_failed (sql_select (fun f => String.eqb (fl_conversation_id f) conversationId) (failures s)).
Definition deleteFailures (s : Store) (conversationId : string) : Store :=
  set_failures (sql_delete (fun f => String.eqb (fl_conversation_id f) conversationId) (failures s)) s.

(** ** Conversation rows *)

Definition is_row (i : string) (r : ConversationRow) : bool := String.eqb (id r) i.

Section Rows.
Context {Obj : Type} (stringify : Obj -> string) (parseObject : string -> option Obj).

Record ConversationRecord : Type := mkRecord {
  c_id : string; c_sessionFile : string; c_workspace : string; c_title : option string; c_description : option string;
  c_orchestration : option GroupOrchestration; c_kind : option string; c_labels : option (list string); c_state : option ConversationState;
  c_entry : option string; c_coordinator : option string; c_solution : option string;
  c_tenantId : option string; c_memberId : option string; c_schedule : option Obj; c_generation : option Z;
  c_permission : option PermissionMode; c_lastRead : option string; c_createdAt : option Z; c_updatedAt : option Z;
  c_retry : option Receipts.RetryRow;
}.

Definition toConversation (r : ConversationRow) (retry : option Receipts.RetryRow) : ConversationRecord :=
  mkRecord (id r) (session_file r) (workspace r) (title r) (description r) (orchestration_json r) (Some (kind r))
    (Some (labels_json r)) (Some (state r)) (entry_employee_id r) (coordinator_employee_id r) (solution_ref r)
    (tenant_id r) (member_id r) (schedule_json r ≫= parseObject) (Some (schedule_generation r)) (Some (permission_mode r))
    (last_read_entry_id r) (Some (created_at r)) (Some (updated_at r)) retry.

Definition retryOf (s : Store) (i : string) : option Receipts.RetryRow :=
  sql_get (fun r => String.eqb (Receipts.rt_conversation_id r) i) (retries s).
Definition getConversation (s : Store) (i : string) : option ConversationRecord :=
  (fun r => toConversation r (retryOf s i)) <$> sql_get (is_row i) (rows s).
Definition getOwnedConversation (s : Store) (i tenantId memberId : string) : option ConversationRecord :=
  c ← getConversation s i;
  if bool_decide (c_tenantId c = Some tenantId) && bool_decide (c_memberId c = Some memberId) then Some c else None.

Definition nextGeneration (previous : option ConversationRow) (scheduleJson : option string) (scheduleMutation : bool) : Z :=
  match previous with
  | Some p => schedule_generation p + (if scheduleMutation || negb (bool_decide (schedule_json p = scheduleJson)) then 1 else 0)
  | None => 0
  end.

(** The row [saveConversation] writes; on conflict the creation time stays. *)
Definition saved (record : ConversationRecord) (scheduleJson : option string) (generation now : Z) : ConversationRow :=
  mkRow (c_id record) (c_sessionFile record) (c_workspace record) (c_title record) (c_description record) (c_orchestration record)
    (nullish (c_kind record) "chat") (nullish (c_labels record) []) (nullish (c_state record) Active) (c_entry record)
    (c_coordinator record) (c_solution record) (c_tenantId record) (c_memberId record) scheduleJson generation
    (nullish (c_permission record) ReadOnly) (c_lastRead record) (nullish (c_createdAt record) now) (nullish (c_updatedAt record) now).
Definition set_created (t : Z) (r : ConversationRow) : ConversationRow :=
  mkRow (id r) (session_file r) (workspace r) (title r) (description r) (orchestration_json r) (kind r) (labels_json r) (state r)
    (entry_employee_id r) (coordinator_employee_id r) (solution_ref r) (tenant_id r) (member_id r) (schedule_json r)
    (schedule_generation r) (permission_mode r) (last_read_entry_id r) t (updated_at r).

Definition saveConversation (s : Store) (record : ConversationRecord) (scheduleMutation : bool) (now : Z) : Store :=
  let scheduleJson := stringify <$> c_schedule record in
  let generation := nextGeneration (sql_get (is_row (c_id record)) (rows s)) scheduleJson scheduleMutation in
  let row := saved record scheduleJson generation now in
  set_rows (sql_upsert (is_row (c_id record)) (fun old => set_created (created_at old) row) row (rows s)) s.

Definition createConversation (s : Store) (input : ConversationRecord) (now : Z) : Store * option ConversationRecord :=
  let s := saveConversation s (mkRecord (c_id input) (c_sessionFile input) (c_workspace input) (c_title input) (c_description input)
    (c_orchestration input) (c_kind input) (c_labels input) (c_state input) (c_entry input) (c_coordinator input) (c_solution input)
    (c_tenantId input) (c_memberId input) (c_schedule input) (c_generation input) (c_permission input) (c_lastRead input)
    (Some now) (Some now) (c_retry input)) false now in
  (s, getConversation s (c_id input)).

(** [Partial<...>]: a member that is absent keeps the current value. *)
Record Patch : Type := mkPatch {
  pt_title : option (option string); pt_description : option (option string); pt_orchestration : option (option GroupOrchestration);
  pt_kind : option (option string); pt_labels : option (option (list string)); pt_state : option (option ConversationState);
  pt_entry : option (option string); pt_coordinator : option (option string); pt_solution : option (option string);
  pt_tenantId : option (option string); pt_memberId : option (option string); pt_schedule : option (option Obj);
  pt_permission : option (option PermissionMode); pt_lastRead : option (option string); pt_createdAt : option (option Z);
}.
Definition emptyPatch : Patch := mkPatch None None None None None None None None None None None None None None None.

Definition patched (c : ConversationRecord) (p : Patch) (i : string) (now : Z) : ConversationRecord :=
  mkRecord i (c_sessionFile c) (c_workspace c) (nullish (pt_title p) (c_title c)) (nullish (pt_description p) (c_description c))
    (nullish (pt_orchestration p) (c_orchestration c)) (nullish (pt_kind p) (c_kind c)) (nullish (pt_labels p) (c_labels c))
    (nullish (pt_state p) (c_state c)) (nullish (pt_entry p) (c_entry c)) (nullish (pt_coordinator p) (c_coordinator c))
    (nullish (pt_solution p) (c_solution c)) (nullish (pt_tenantId p) (c_tenantId c)) (nullish (pt_memberId p) (c_memberId c))
    (nullish (pt_schedule p) (c_schedule c)) (c_generation c) (nullish (pt_permission p) (c_permission c))
    (nullish (pt_lastRead p) (c_lastRead c)) (nullish (pt_createdAt p) (c_createdAt c)) (Some now) (c_retry c).

Definition clearScheduleRetry (s : Store) (i : string) : Store :=
  set_retries (sql_delete (fun r => String.eqb (Receipts.rt_conversation_id r) i) (retries s)) s.

Definition updateConversation (s : Store) (i : string) (p : Patch) (now : Z) : Store * result store_error (option ConversationRecord) :=
  match getConversation s i with
  | None => (s, Ok None)
  | Some current =>
      let scheduleMutation := match pt_schedule p with Some _ => true | None => false end in
      match (if scheduleMutation then Automation.guardSchedule (automation s) i else Ok tt) with
      | Err e => (s, Err (ScheduleGuarded e))
      | Ok _ =>
          let s := saveConversation s (patched current p i now) scheduleMutation now in
          let s := if scheduleMutation then clearScheduleRetry s i else s in
          (s, Ok (getConversation s i))
      end
  end.

(** ** Participants *)

Definition is_participant (conversationId employeeId : string) (p : ParticipantSession) : bool :=
  String.eqb (p_conversation_id p) conversationId && String.eqb (p_employee_id p) employeeId.
Definition getConversationParticipant (s : Store) (conversationId employeeId : string) : option ParticipantSession :=
  sql_get (is_participant conversationId employeeId) (participants s).

(** The arguments of [upsertConversationParticipant]. *)
Record ParticipantInput : Type := mkPInput {
  pi_conversation_id : string; pi_employee_id : string; pi_role : ParticipantRole; pi_session_file : string;
  pi_workspace : string; pi_pi_session_id : option string; pi_employee_version : string;
  pi_created_at : option Z; pi_updated_at : option Z;
}.
Definition upsert_set (i : ParticipantInput) (now : Z) (p : ParticipantSession) : ParticipantSession :=
  mkParticipant (p_conversation_id p) (p_employee_id p) (pi_role i) (pi_session_file i) (pi_workspace i) (pi_pi_session_id i)
    (pi_employee_version i) (p_created_at p) (nullish (pi_updated_at i) now) (p_removed_at p).
Definition upsertConversationParticipant (s : Store) (i : ParticipantInput) (now : Z) : Store * option ParticipantSession :=
  let row := mkParticipant (pi_conversation_id i) (pi_employee_id i) (pi_role i) (pi_session_file i) (pi_workspace i)
    (pi_pi_session_id i) (pi_employee_version i) (nullish (pi_created_at i) now) (nullish (pi_updated_at i) now) None in
  let s := set_participants (sql_upsert (is_participant (pi_conversation_id i) (pi_employee_id i)) (upsert_set i now) row (participants s)) s in
  (s, getConversationParticipant s (pi_conversation_id i) (pi_employee_id i)).

Definition role_rank (p : ParticipantSession) : Z := match p_role p with Coordinator => 0 | Member => 1 end.
Definition by_role (a b : ParticipantSession) : bool :=
  (role_rank a <? role_rank b) || ((role_rank a =? role_rank b) && String.leb (p_employee_id a) (p_employee_id b)).
Definition active (p : ParticipantSession) : bool := match p_removed_at p with None => true | Some _ => false end.
Definition listConversationParticipants (s : Store) (conversationId : string) (includeRemoved : bool) : list ParticipantSession :=
  order_by by_role (sql_select (fun p => String.eqb (p_conversation_id p) conversationId && (includeRemoved || active p)) (participants s)).
Definition deleteConversationParticipants (s : Store) (conversationId : string) : Store :=
  set_participants (sql_delete (fun p => String.eqb (p_conversation_id p) conversationId) (participants s)) s.

Record GroupMember : Type := mkMember { gm_id : string; gm_version : string }.
Definition newMember (conversationId : string) (role : ParticipantRole) (m : GroupMember) : ParticipantInput :=
  mkPInput conversationId (gm_id m) role "" "" None (gm_version m) None None.

Definition createGroupConversation (s : Store) (input : ConversationRecord) (members : list GroupMember) (now : Z)
    : Store * option ConversationRecord :=
  let '(s, result) := createConversation s input now in
  (fold_left (fun s m => (upsertConversationParticipant s
     (newMember (c_id input) (if bool_decide (c_coordinator input = Some (gm_id m)) then Coordinator else Member) m) now).1) members s, result).

Definition removed_set (now : Z) (p : ParticipantSession) : ParticipantSession :=
  mkParticipant (p_conversation_id p) (p_employee_id p) (p_role p) (p_session_file p) (p_workspace p) (p_pi_session_id p)
    (p_employee_version p) (p_created_at p) now (Some now).
Definition rejoined_set (version : string) (now : Z) (p : ParticipantSession) : ParticipantSession :=
  mkParticipant (p_conversation_id p) (p_employee_id p) Member (p_session_file p) (p_workspace p) (p_pi_session_id p)
    version (p_created_at p) now None.

Definition removeMember (conversationId : string) (now : Z) (s : Store) (employeeId : string) : Store :=
  set_participants (sql_update (fun p => is_participant conversationId employeeId p && active p) (removed_set now) (participants s)) s.
Definition addMember (conversationId : string) (now : Z) (s : Store) (m : GroupMember) : Store :=
  match getConversationParticipant s conversationId (gm_id m) with
  | Some _ => set_participants (sql_update (is_participant conversationId (gm_id m)) (rejoined_set (gm_version m) now) (participants s)) s
  | None => (upsertConversationParticipant s (newMember conversationId Member m) now).1
  end.

Record MemberChange : Type := mkChange { mc_add : list GroupMember; mc_remove : list string; mc_patch : option Patch }.

Definition updateGroupMembers (s : Store) (conversationId : string) (change : MemberChange) (now : Z)
    : Store * result store_error ConversationRecord :=
  let s1 := fold_left (removeMember conversationId now) (mc_remove change) s in
  let s2 := fold_left (addMember conversationId now) (mc_add change) s1 in
  match updateConversation s2 conversationId (nullish (mc_patch change) emptyPatch) now with
  | (s3, Ok (Some updated)) => (s3, Ok updated)
  | (_, Ok None) => (s, Err MissingConversation)
  | (_, Err e) => (s, Err e)
  end.

(** ** Entry sources *)

Definition is_source (conversationId employeeId entry : string) (e : EntrySource) : bool :=
  String.eqb (es_conversation_id e) conversationId && String.eqb (es_employee_id e) employeeId && String.eqb (es_pi_entry_id e) entry.
Definition getConversationEntrySource (s : Store) (conversationId employeeId entry : string) : option EntrySource :=
  sql_get (is_source conversationId employeeId entry) (sources s).
Definition source_set (new e : EntrySource) : EntrySource :=
  mkSource (es_conversation_id e) (es_employee_id e) (es_pi_entry_id e) (es_logical_message_id new) (es_source_type new)
    (es_source_id new) (es_display_name new) (es_created_at e).
Definition upsertConversationEntrySource (s : Store) (row : EntrySource) : Store * option EntrySource :=
  let s := set_sources (sql_upsert (is_source (es_conversation_id row) (es_employee_id row) (es_pi_entry_id row)) (source_set row) row (sources s)) s in
  (s, getConversationEntrySource s (es_conversation_id row) (es_employee_id row) (es_pi_entry_id row)).

(** ** Deletion *)

Context (sha256 : string -> string).

(** [deleteConversationLocalFiles]: the rows; the files themselves are on disk. *)
Definition owned_file (conversationId tenantId memberId : string) (f : FileRow) : bool :=
  String.eqb (fi_conversation_id f) conversationId && String.eqb (fi_tenant_id f) tenantId && String.eqb (fi_member_id f) memberId.

(** What belongs to the owner: work records, context segments and local files. *)
Definition deleteOwned (s : Store) (i tenantId memberId : string) (now : Z) : Store :=
  let w := WorkRecords.deleteConversation i (WorkRecords.mkOwner tenantId memberId) (work s) in
  let '(sg, _) := Segments.deleteConversation sha256 (Segments.mkSegOwner tenantId memberId) i now
                    (Segments.mkSegDb (segments s) (WorkRecords.outbox w)) in
  mkStore (rows s) (participants s) (sources s) (failures s) (moves s)
    (sql_delete (owned_file i tenantId memberId) (files s)) (retries s) (receipts s) (approvals s) (automation s)
    (WorkRecords.mkWorkDb (WorkRecords.records w) (WorkRecords.record_seq w) (WorkRecords.changes w) (WorkRecords.change_seq w)
       (Segments.box sg) (WorkRecords.drawn w)) (Segments.segments sg).

Definition wrongOwner (expected actual : option string) : bool :=
  match expected with Some e => negb (bool_decide (actual = Some e)) | None => false end.
Definition given (x : option string) : option string := y ← x; if String.eqb y "" then None else Some y.

Definition deleteConversation (s : Store) (i : string) (tenantId memberId : option string) (now : Z) : Store * bool :=
  match getConversation s i with
  | None => (s, false)
  | Some existing =>
      if wrongOwner tenantId (c_tenantId existing) || wrongOwner memberId (c_memberId existing) then (s, false)
      else
        let s1 := match given (c_tenantId existing), given (c_memberId existing) with
                  | Some t, Some m => deleteOwned s i t m now
                  | _, _ => s
                  end in
        (mkStore (sql_delete (is_row i) (rows s1))
          (sql_delete (fun p => String.eqb (p_conversation_id p) i) (participants s1))
          (sql_delete (fun e => String.eqb (es_conversation_id e) i) (sources s1))
          (failures (deleteFailures s1 i)) (moves s1) (files s1)
          (sql_delete (fun r => String.eqb (Receipts.rt_conversation_id r) i) (retries s1))
          (sql_delete (fun r => String.eqb (Receipts.r_conversation_id r) i) (receipts s1))
          (sql_delete (fun a => String.eqb (ApprovalStore.conversation_id a) i) (approvals s1))
          (Automation.conversationDeleted (automation s1) i now) (work s1) (segments s1), true)
  end.

(** ** Pages of conversations

    A cursor is the decoded text of [encodeReadCursor] (its scope and boundary) or the bare
    identifier of a row; [scopeOf] is [readCursorScope] of the owner. *)

Inductive cursor : Type := PageCursor (scope : string) (at_ : Z) (i : string) | BareId (i : string).
Context (scopeOf : option string -> option string -> string).

Definition rowKey (r : ConversationRow) : Z * string := (updated_at r, id r).
(** [(updated_at, id) < (?, ?)]. *)
Definition key_lt (a b : Z * string) : bool := (a.1 <? b.1) || ((a.1 =? b.1) && String.ltb a.2 b.2).
Definition newer (a b : ConversationRow) : bool := key_lt (rowKey b) (rowKey a).
Definition newestFirst (a b : ConversationRow) : bool := negb (newer b a).

Definition in_owner (tenantId memberId : option string) (r : ConversationRow) : bool :=
  match tenantId with Some t => bool_decide (tenant_id r = Some t) | None => true end
  && match memberId with Some m => bool_decide (member_id r = Some m) | None => true end.

Definition boundaryOf (s : Store) (c : option cursor) (tenantId memberId : option string) : result store_error (option (Z * string)) :=
  match c with
  | None => Ok None
  | Some (PageCursor scope at_ i) =>
      if String.eqb scope (scopeOf tenantId memberId) && negb (String.eqb i "") then Ok (Some (at_, i)) else Err InvalidReadCursor
  | Some (BareId i) =>
      match sql_get (is_row i) (rows s) with
      | Some r => if in_owner tenantId memberId r && negb (String.eqb i "") then Ok (Some (rowKey r)) else Err InvalidReadCursor
      | None => Err InvalidReadCursor
      end
  end.

Definition listConversations (s : Store) (limit : Z) (c : option cursor) (tenantId memberId : option string)
    : result store_error (list ConversationRow * option cursor * bool) :=
  let safeLimit := Z.to_nat (clamp 1 100 limit) in
  boundary ← boundaryOf s c tenantId memberId;
  let found := take (S safeLimit) (order_by newestFirst (sql_select (fun r =>
    match boundary with Some b => key_lt (rowKey r) b | None => true end && in_owner tenantId memberId r) (rows s))) in
  let hasMore := (safeLimit <? length found)%nat in
  let items := take safeLimit found in
  Ok (items, match hasMore, last items with
             | true, Some r => Some (PageCursor (scopeOf tenantId memberId) (updated_at r) (id r))
             | _, _ => None
             end, hasMore).

(** A reader that follows the cursors. *)
Fixpoint conversationPages (fuel : nat) (s : Store) (limit : Z) (c : option cursor) (tenantId memberId : option string)
    : result store_error (list ConversationRow) :=
  match fuel with
  | O => Ok []
  | S fuel =>
      '(items, next, _) ← listConversations s limit c tenantId memberId;
      match next with
      | Some n => rest ← conversationPages fuel s limit (Some n) tenantId memberId; Ok (items ++ rest)
      | None => Ok items
      end
  end.

(** ** Workspaces *)

Definition under (path w : string) : bool := String.eqb w path || String.prefix (path +:+ "/") w.
Definition workspaceInUse (s : Store) (path : string) : bool :=
  existsb (fun r => under path (workspace r)) (rows s) || existsb (fun p => under path (p_workspace p)) (participants s)
  || existsb (fun m => under path (mv_new m)) (moves s).

Definition by_move (a b : WorkspaceMove) : bool :=
  (mv_created_at a <? mv_created_at b) || ((mv_created_at a =? mv_created_at b) && String.leb (mv_old a) (mv_old b)).
Definition listWorkspaceMoves (s : Store) : list (string * string) := (fun m => (mv_old m, mv_new m)) <$> order_by by_move (moves s).

(** Old paths and new paths are both unique. *)
Fixpoint insertMoves (l : list (string * string)) (now : Z) (t : list WorkspaceMove) : option (list WorkspaceMove) :=
  match l with
  | [] => Some t
  | (o, n) :: l =>
      t ← sql_insert (fun m => String.eqb (mv_old m) o || String.eqb (mv_new m) n) (mkMove o n now) t; insertMoves l now t
  end.
Definition planWorkspaceMoves (s : Store) (l : list (string * string)) (now : Z) : Store * result store_error unit :=
  match insertMoves l now (moves s) with Some t => (set_moves t s, Ok tt) | None => (s, Err StoreConstraint) end.

Definition set_workspace (w : string) (r : ConversationRow) : ConversationRow :=
  mkRow (id r) (session_file r) w (title r) (description r) (orchestration_json r) (kind r) (labels_json r) (state r)
    (entry_employee_id r) (coordinator_employee_id r) (solution_ref r) (tenant_id r) (member_id r) (schedule_json r)
    (schedule_generation r) (permission_mode r) (last_read_entry_id r) (created_at r) (updated_at r).
Definition set_p_workspace (w : string) (p : ParticipantSession) : ParticipantSession :=
  mkParticipant (p_conversation_id p) (p_employee_id p) (p_role p) (p_session_file p) w (p_pi_session_id p)
    (p_employee_version p) (p_created_at p) (p_updated_at p) (p_removed_at p).
Definition finishWorkspaceMove (s : Store) (oldPath newPath : string) : Store :=
  set_moves (sql_delete (fun m => String.eqb (mv_old m) oldPath) (moves s))
    (set_participants (sql_update (fun p => String.eqb (p_workspace p) oldPath) (set_p_workspace newPath) (participants s))
      (set_rows (sql_update (fun r => String.eqb (workspace r) oldPath) (set_workspace newPath) (rows s)) s)).

(** ** Workspace listings *)

Record OwnedWorkspaces : Type := mkOwned { ow_row : ConversationRow; ow_participants : list ParticipantSession }.
Definition by_conversation (a b : ParticipantSession) : bool :=
  String.ltb (p_conversation_id a) (p_conversation_id b) || (String.eqb (p_conversation_id a) (p_conversation_id b) && by_role a b).
(** The map built from the joined rows, by conversation. *)
Definition groupParticipants (l : list ParticipantSession) : list (string * list ParticipantSession) :=
  fold_left (fun m p => mset (p_conversation_id p) (nullish (mget (p_conversation_id p) m) [] ++ [p]) m) l [].
Definition withParticipants (cs : list ConversationRow) (ps : list ParticipantSession) : list OwnedWorkspaces :=
  let byConversation := groupParticipants ps in
  (fun c => mkOwned c (nullish (mget (id c) byConversation) [])) <$> cs.

Definition listOwnedConversationWorkspaces (s : Store) (tenantId memberId : string) : list OwnedWorkspaces :=
  let mine := in_owner (Some tenantId) (Some memberId) in
  withParticipants (order_by newestFirst (sql_select mine (rows s)))
    (order_by by_conversation (sql_select (fun p => existsb (fun r => is_row (p_conversation_id p) r && mine r) (rows s)) (participants s))).
Definition by_creation (a b : ConversationRow) : bool :=
  (created_at a <? created_at b) || ((created_at a =? created_at b) && String.leb (id a) (id b)).
Definition listAllConversationWorkspaces (s : Store) : list OwnedWorkspaces :=
  withParticipants (order_by by_creation (rows s)) (order_by by_conversation (participants s)).

(** ** Schedule generations *)

(** Two versions of a row: the generation does not go back, and while it stays the
    schedule text stays. *)
Definition evolves (r r' : ConversationRow) : Prop :=
  schedule_generation r <= schedule_generation r' /\
  (schedule_generation r' = schedule_generation r -> schedule_json r' = schedule_json r).
#[local] Instance evolves_preorder : PreOrder evolves.
Proof. split; [by intros r|]. intros a b c [H1 H2] [H3 H4]. split; [lia|]. intros E. rewrite H4, H2; lia || done. Qed.

Definition rowOf (s : Store) (i : string) : option ConversationRow := sql_get (is_row i) (rows s).

(** Every row of [s] is still there in [s'], in a later version. *)
Definition keeps (i : string) (s s' : Store) : Prop :=
  forall r, rowOf s i = Some r -> exists r', rowOf s' i = Some r' /\ evolves r r'.
#[local] Instance keeps_preorder i : PreOrder (keeps i).
Proof.
  split; [intros s r Hr; by exists r|]. intros s1 s2 s3 H1 H2 r Hr.
  destruct (H1 r Hr) as (r2 & Hr2 & E2). destruct (H2 r2 Hr2) as (r3 & Hr3 & E3). exists r3. split; [done|by etrans].
Qed.

Lemma keeps_rows i s s' : rows s' = rows s -> keeps i s s'.
Proof. intros E r Hr. exists r. unfold rowOf. by rewrite E. Qed.

Lemma find_upsert {R} (q p : R -> bool) f row (t : list R) : (forall r, q r = true -> p r = false) -> q row = false ->
  (forall r, q (f r) = false) -> sql_get q (sql_upsert p f row t) = sql_get q t.
Proof.
  intros Hqp Hrow Hf. unfold sql_upsert. destruct (existsb p t).
  - unfold sql_get, sql_update. induction t as [|x t IH]; cbn; [done|]. destruct (q x) eqn:Eq.
    + by rewrite (Hqp x Eq), Eq.
    + destruct (p x); [by rewrite Hf|by rewrite Eq].
  - rewrite sql_get_app. destruct (sql_get q t); [done|]. unfold sql_get. cbn. by rewrite Hrow.
Qed.

Lemma find_upsert_same {R} (p : R -> bool) f row (t : list R) : p row = true -> (forall r, p (f r) = true) ->
  sql_get p (sql_upsert p f row t) = Some match sql_get p t with Some r => f r | None => row end.
Proof.
  intros Hrow Hf. unfold sql_upsert. destruct (existsb p t) eqn:E.
  - apply existsb_exists in E as (x & Hx & Hp). unfold sql_get, sql_update. induction t as [|y t IH]; [done|]. cbn.
    destruct (p y) eqn:Ey; [by rewrite Hf|]. rewrite Ey. apply IH. destruct Hx as [->|]; [congruence|done].
  - assert (sql_get p t = None) as H.
    { apply sql_get_None. intros r Hr. destruct (p r) eqn:Er; [|done]. rewrite <- E. symmetry.
      apply existsb_exists. exists r. by rewrite <- list_elem_of_In. }
    rewrite sql_get_app, H. unfold sql_get. cbn. by rewrite Hrow.
Qed.

Lemma save_other s rec b now i : i <> c_id rec -> rowOf (saveConversation s rec b now) i = rowOf s i.
Proof.
  intros Hne. unfold rowOf, saveConversation. cbn [rows set_rows]. apply find_upsert; unfold is_row.
  - intros r ->%String.eqb_eq. by apply String.eqb_neq.
  - cbn. apply String.eqb_neq. congruence.
  - intros r. cbn. apply String.eqb_neq. congruence.
Qed.

Lemma save_same s rec b now : exists r', rowOf (saveConversation s rec b now) (c_id rec) = Some r' /\
  schedule_json r' = (stringify <$> c_schedule rec) /\
  schedule_generation r' = nextGeneration (rowOf s (c_id rec)) (stringify <$> c_schedule rec) b.
Proof.
  unfold rowOf, saveConversation. cbn [rows set_rows].
  rewrite find_upsert_same; [|unfold is_row; cbn; apply String.eqb_refl|intros r; unfold is_row; cbn; apply String.eqb_refl].
  eexists. split; [done|]. by destruct (sql_get _ _).
Qed.

Lemma save_keeps i s rec b now : keeps i s (saveConversation s rec b now).
Proof.
  intros r Hr. destruct (decide (i = c_id rec)) as [->|Hne].
  - destruct (save_same s rec b now) as (r' & Hr' & Hj & Hg). exists r'. split; [done|].
    rewrite Hr in Hg. cbn in Hg. unfold evolves. rewrite Hg, Hj.
    destruct (b || negb (bool_decide (schedule_json r = stringify <$> c_schedule rec))) eqn:E; [split; lia|].
    split; [lia|]. intros _. apply orb_false_iff in E as [_ E]. apply negb_false_iff, bool_decide_eq_true in E. done.
  - exists r. split; [by rewrite save_other|reflexivity].
Qed.

Lemma update_keeps i s j p now : keeps i s (updateConversation s j p now).1.
Proof.
  unfold updateConversation. destruct (getConversation s j) as [c|]; [|reflexivity].
  destruct (if match pt_schedule p with Some _ => true | None => false end then _ else _); [|reflexivity]. cbv zeta. cbn [fst].
  etrans; [apply (save_keeps i s (patched c p j now) (match pt_schedule p with Some _ => true | None => false end) now)|].
  destruct (pt_schedule p); [|reflexivity]. by apply keeps_rows.
Qed.

Lemma fold_rows {A} (f : Store -> A -> Store) (l : list A) s : (forall s x, rows (f s x) = rows s) -> rows (fold_left f l s) = rows s.
Proof. intros Hf. revert s. induction l as [|x l IH]; intros s; cbn; [done|]. by rewrite IH, Hf. Qed.

Lemma members_keeps i s j ch now : keeps i s (updateGroupMembers s j ch now).1.
Proof.
  unfold updateGroupMembers. cbv zeta. set (s2 := fold_left (addMember j now) _ _).
  assert (rows s2 = rows s) as E.
  { subst s2. rewrite fold_rows; [apply fold_rows; done|]. intros s' x. unfold addMember. by case_match. }
  pose proof (update_keeps i s2 j (nullish (mc_patch ch) emptyPatch) now) as H.
  destruct (updateConversation s2 j _ now) as [s3 [[u|]|e]]; cbn [fst] in *; [|reflexivity..].
  etrans; [by apply (keeps_rows i s s2)|exact H].
Qed.

(** Operations on conversations other than deleting the one in question. *)
Inductive conv_op : Type :=
| OpSave (rec : ConversationRecord) (scheduleMutation : bool)
| OpCreate (rec : ConversationRecord) (members : list GroupMember)
| OpUpdate (i : string) (p : Patch)
| OpMembers (i : string) (ch : MemberChange)
| OpDelete (i : string) (tenantId memberId : option string)
| OpMove (oldPath newPath : string).
Definition run_conv (s : Store) (o : conv_op * Z) : Store :=
  let now := o.2 in
  match o.1 with
  | OpSave rec b => saveConversation s rec b now
  | OpCreate rec ms => (createGroupConversation s rec ms now).1
  | OpUpdate i p => (updateConversation s i p now).1
  | OpMembers i ch => (updateGroupMembers s i ch now).1
  | OpDelete i t m => (deleteConversation s i t m now).1
  | OpMove a b => finishWorkspaceMove s a b
  end.
Definition deletes (i : string) (o : conv_op) : Prop := match o with OpDelete j _ _ => j = i | _ => False end.

Lemma create_keeps i s rec ms now : keeps i s (createGroupConversation s rec ms now).1.
Proof.
  unfold createGroupConversation, createConversation. cbv zeta. cbn [fst].
  set (rec' := mkRecord _ _ _ _ _ _ _ _ _ _ _ _ _ _ _ _ _ _ _ _ _).
  etrans; [apply (save_keeps i s rec' false now)|]. apply keeps_rows. by apply fold_rows.
Qed.

Lemma delete_keeps i s j t m now : j <> i -> keeps i s (deleteConversation s j t m now).1.
Proof.
  intros Hne r Hr. exists r. split; [|reflexivity]. unfold deleteConversation.
  destruct (getConversation s j) as [c|]; [|done]. destruct (_ || _); [done|]. cbv zeta. unfold rowOf. cbn [fst rows].
  set (s1 := match given (c_tenantId c) with Some _ => _ | None => _ end).
  assert (rows s1 = rows s) as ->.
  { subst s1. repeat case_match; try done. unfold deleteOwned. by destruct (Segments.deleteConversation _ _ _ _ _). }
  unfold rowOf in Hr. revert Hr. unfold sql_get, sql_delete. induction (rows s) as [|x l IH]; cbn; [done|].
  destruct (is_row i x) eqn:Ei.
  - intros [= ->]. unfold is_row in *. apply String.eqb_eq in Ei.
    rewrite (proj2 (String.eqb_neq (id r) j)) by congruence. cbn. by rewrite Ei, String.eqb_refl.
  - intros H. destruct (negb (is_row j x)); cbn; [by rewrite Ei, IH|by apply IH].
Qed.

Lemma move_keeps i s a b : keeps i s (finishWorkspaceMove s a b).
Proof.
  intros r Hr. unfold rowOf, finishWorkspaceMove in *. cbn [rows set_moves set_participants set_rows].
  rewrite sql_get_update by done. rewrite Hr. eexists. split; [done|]. by destruct (String.eqb (workspace r) a).
Qed.

(** A schedule generation names one schedule: along any sequence of saves, creations,
    updates, membership changes, workspace moves and deletions of other conversations, the
    row of a conversation stays, its schedule generation never goes back, and as long as the
    generation is the one captured earlier the stored schedule text is the one captured. *)
Theorem generation_identifies_schedule (s : Store) (l : list (conv_op * Z)) (i : string) (r : ConversationRow) :
  Forall (fun o => ~ deletes i o.1) l -> rowOf s i = Some r ->
  exists r', rowOf (fold_left run_conv l s) i = Some r' /\
    schedule_generation r <= schedule_generation r' /\
    (schedule_generation r' = schedule_generation r -> schedule_json r' = schedule_json r).
Proof.
  intros Hl. cut (keeps i s (fold_left run_conv l s)); [intros H Hr; exact (H r Hr)|].
  revert s. induction Hl as [|[o now] l Ho Hl IH]; intros s; cbn [fold_left]; [reflexivity|].
  etrans; [|apply IH]. destruct o; cbn [run_conv fst snd] in *.
  - apply save_keeps.
  - apply create_keeps.
  - apply update_keeps.
  - apply members_keeps.
  - by apply delete_keeps.
  - apply move_keeps.
Qed.

(** ** Group membership *)

Notation part := getConversationParticipant.
Definition takesPart (s : Store) (c e : string) : Prop := exists p, part s c e = Some p /\ active p = true.

(** The Session of a participant: what stays when it leaves or comes back. *)
Definition sessionOf (p : ParticipantSession) := (p_session_file p, p_workspace p, p_pi_session_id p, p_created_at p).

Lemma is_participant_iff c e p : is_participant c e p = true <-> p_conversation_id p = c /\ p_employee_id p = e.
Proof. unfold is_participant. by rewrite andb_true_iff, !String.eqb_eq. Qed.

Lemma part_ids s c e p : part s c e = Some p -> p_conversation_id p = c /\ p_employee_id p = e.
Proof. intros [_ H]%sql_get_Some. by apply is_participant_iff. Qed.

Lemma part_remove c now s e c' e' :
  part (removeMember c now s e) c' e' =
  (fun p => if bool_decide (c' = c) && bool_decide (e' = e) && active p then removed_set now p else p) <$> part s c' e'.
Proof.
  unfold part, removeMember. cbn [participants set_participants]. rewrite sql_get_update by done.
  destruct (sql_get (is_participant c' e') (participants s)) as [p|] eqn:E; [|done]. cbn. f_equal.
  destruct (part_ids _ _ _ _ E) as [Hc He]. unfold is_participant. rewrite Hc, He.
  destruct (String.eqb_spec c' c), (String.eqb_spec e' e); rewrite ?bool_decide_eq_true_2, ?bool_decide_eq_false_2 by done; done.
Qed.

Lemma part_add c now s m c' e' :
  part (addMember c now s m) c' e' =
  if bool_decide (c' = c) && bool_decide (e' = gm_id m)
  then Some match part s c (gm_id m) with
            | Some p => rejoined_set (gm_version m) now p
            | None => mkParticipant c (gm_id m) Member "" "" None (gm_version m) now now None
            end
  else part s c' e'.
Proof.
  unfold addMember. destruct (part s c (gm_id m)) as [p0|] eqn:E0.
  - unfold part in *. cbn [participants set_participants]. rewrite sql_get_update by done.
    destruct (bool_decide (c' = c) && bool_decide (e' = gm_id m)) eqn:Eb.
    + apply andb_true_iff in Eb as [->%bool_decide_eq_true ->%bool_decide_eq_true]. rewrite E0. cbn.
      apply sql_get_Some in E0 as [_ H]. by rewrite H.
    + destruct (sql_get (is_participant c' e') (participants s)) as [p|] eqn:E; [|done]. cbn. f_equal.
      destruct (is_participant c (gm_id m) p) eqn:Ep; [|done]. apply is_participant_iff in Ep as [? ?].
      destruct (part_ids _ _ _ _ E) as [? ?]. rewrite !bool_decide_eq_true_2 in Eb by congruence. done.
  - unfold upsertConversationParticipant, newMember, part in *. cbn [fst participants set_participants pi_conversation_id pi_employee_id].
    destruct (bool_decide (c' = c) && bool_decide (e' = gm_id m)) eqn:Eb.
    + apply andb_true_iff in Eb as [->%bool_decide_eq_true ->%bool_decide_eq_true].
      unfold sql_upsert. assert (existsb (is_participant c (gm_id m)) (participants s) = false) as ->.
      { apply not_true_iff_false. intros (x & Hx & Hp)%existsb_exists. rewrite sql_get_None in E0.
        rewrite (E0 x) in Hp; [done|by apply list_elem_of_In]. }
      rewrite sql_get_app, E0. unfold sql_get. cbn. unfold is_participant. cbn. by rewrite !String.eqb_refl.
    + assert (forall x, is_participant c' e' x = true -> is_participant c (gm_id m) x = false) as Hd.
      { intros x [? ?]%is_participant_iff. apply not_true_iff_false. intros [? ?]%is_participant_iff.
        rewrite !bool_decide_eq_true_2 in Eb by congruence. done. }
      unfold sql_upsert. assert (existsb (is_participant c (gm_id m)) (participants s) = false) as ->.
      { apply not_true_iff_false. intros (x & Hx & Hp)%existsb_exists. rewrite sql_get_None in E0.
        rewrite (E0 x) in Hp; [done|by apply list_elem_of_In]. }
      set (row := mkParticipant _ _ _ _ _ _ _ _ _ _). rewrite sql_get_app.
      destruct (sql_get (is_participant c' e') (participants s)); [done|].
      assert (is_participant c' e' row = false) as Hrow.
      { apply not_true_iff_false. intros H%Hd. unfold is_participant, row in H. cbn in H. by rewrite !String.eqb_refl in H. }
      unfold sql_get. cbn [find]. by rewrite Hrow.
Qed.

Lemma parts_removed c now l s c' e' :
  exists q, part (fold_left (removeMember c now) l s) c' e' = q /\
    match part s c' e' with
    | None => q = None
    | Some p => exists p', q = Some p' /\ sessionOf p' = sessionOf p /\
        active p' = active p && negb (bool_decide (c' = c) && bool_decide (e' ∈ l)) /\ (c' <> c -> p' = p)
    end.
Proof.
  eexists. split; [reflexivity|]. revert s. induction l as [|e l IH]; intros s; cbn [fold_left].
  - destruct (part s c' e') as [p|]; [|done]. exists p. rewrite (bool_decide_eq_false_2 (e' ∈ [])) by apply not_elem_of_nil.
    by rewrite andb_false_r, andb_true_r.
  - specialize (IH (removeMember c now s e)). rewrite part_remove in IH. destruct (part s c' e') as [p|]; [|done].
    cbn in IH. destruct IH as (p' & Hp' & Hs & Ha & Hne). exists p'. split; [done|]. split_and!.
    + rewrite Hs. by destruct (_ && _).
    + rewrite Ha. destruct (bool_decide (c' = c)) eqn:Ec; cbn; [|done].
      destruct (bool_decide (e' = e)) eqn:Ee; cbn.
      * apply bool_decide_eq_true in Ee as ->. rewrite (bool_decide_eq_true_2 (e ∈ e :: l)) by (by left).
        by destruct (active p) eqn:Ep; cbn; rewrite ?Ep.
      * apply bool_decide_eq_false in Ee. destruct (active p); [|done]. cbn. f_equal. apply bool_decide_ext. rewrite elem_of_cons. tauto.
    + intros Hc. rewrite (Hne Hc). by rewrite (bool_decide_eq_false_2 _ Hc).
Qed.

Lemma parts_added c now l s c' e' :
  match part s c' e' with
  | Some p => exists p', part (fold_left (addMember c now) l s) c' e' = Some p' /\ sessionOf p' = sessionOf p /\
      active p' = active p || (bool_decide (c' = c) && bool_decide (e' ∈ gm_id <$> l)) /\ (c' <> c -> p' = p)
  | None => match part (fold_left (addMember c now) l s) c' e' with
            | Some p' => active p' = true /\ c' = c /\ e' ∈ gm_id <$> l
            | None => c' <> c \/ e' ∉ gm_id <$> l
            end
  end.
Proof.
  revert s. induction l as [|m l IH]; intros s; cbn [fold_left].
  - destruct (part s c' e') as [p|]; [|right; apply not_elem_of_nil]. exists p. split_and!; try done.
    rewrite (bool_decide_eq_false_2 (e' ∈ _)) by apply not_elem_of_nil. by rewrite andb_false_r, orb_false_r.
  - specialize (IH (addMember c now s m)). rewrite part_add in IH. rewrite fmap_cons.
    destruct (bool_decide (c' = c) && bool_decide (e' = gm_id m)) eqn:Eb.
    + apply andb_true_iff in Eb as [->%bool_decide_eq_true ->%bool_decide_eq_true]. destruct IH as (p' & Hp' & Hs & Ha & _).
      rewrite Hp'. rewrite (bool_decide_eq_true_2 (gm_id m ∈ _ :: _)) by (by left). rewrite (bool_decide_eq_true_2 (c = c)) by done.
      destruct (part s c (gm_id m)) as [p|]; cbn [active p_removed_at rejoined_set] in Ha.
      * exists p'. split_and!; [done|by rewrite Hs|by rewrite Ha, orb_true_r|done].
      * split_and!; [by rewrite Ha|done|by left].
    + assert (forall b, bool_decide (c' = c) && bool_decide (e' ∈ gm_id m :: (gm_id <$> l)) = b <->
                        bool_decide (c' = c) && bool_decide (e' ∈ gm_id <$> l) = b) as Hb.
      { intros b. destruct (bool_decide (c' = c)); [|done]. cbn in *. apply bool_decide_eq_false in Eb.
        erewrite (bool_decide_ext (e' ∈ gm_id m :: _)); [done|]. rewrite elem_of_cons. tauto. }
      destruct (part s c' e') as [p|].
      * destruct IH as (p' & Hp' & Hs & Ha & Hne). exists p'. split_and!; [done..| |done].
        rewrite Ha. f_equal. symmetry. by apply Hb.
      * destruct (part (fold_left _ _ _) c' e') as [p'|]; [destruct IH as (? & ? & ?); split_and!; [done|done|by right]|].
        destruct IH as [?|Hn]; [by left|]. destruct (decide (c' = c)) as [Hc|]; [right|by left].
        rewrite (bool_decide_eq_true_2 _ Hc) in Eb. cbn in Eb. apply bool_decide_eq_false in Eb. rewrite elem_of_cons. tauto.
Qed.

Lemma update_participants s i p now : participants (updateConversation s i p now).1 = participants s.
Proof. unfold updateConversation. repeat case_match; done. Qed.

(** A membership change does exactly what it says: after it the members taking part
    are those added and those that took part and were not removed; nobody who ever took
    part loses the Session (file, workspace, Pi session, joining time), so a member that
    comes back resumes it; other conversations are untouched, and a change that fails
    leaves everything as it was. *)
Theorem membership_change_is_exact (s : Store) (c : string) (ch : MemberChange) (now : Z) :
  match updateGroupMembers s c ch now with
  | (s', Ok _) =>
      (forall e, takesPart s' c e <-> e ∈ gm_id <$> mc_add ch \/ (takesPart s c e /\ e ∉ mc_remove ch)) /\
      (forall e p, part s c e = Some p -> exists p', part s' c e = Some p' /\ sessionOf p' = sessionOf p) /\
      (forall c' e, c' <> c -> part s' c' e = part s c' e)
  | (s', Err _) => s' = s
  end.
Proof.
  unfold updateGroupMembers. cbv zeta. set (s1 := fold_left (removeMember c now) _ s). set (s2 := fold_left (addMember c now) _ s1).
  pose proof (update_participants s2 c (nullish (mc_patch ch) emptyPatch) now) as Hp.
  destruct (updateConversation s2 c _ now) as [s3 [[u|]|e]]; cbn [fst] in Hp; [|done..].
  assert (forall c' e, part s3 c' e = part s2 c' e) as H3 by (intros; unfold part; by rewrite Hp).
  assert (forall c' e, match part s c' e with
    | Some p => exists p', part s3 c' e = Some p' /\ sessionOf p' = sessionOf p /\
        active p' = (active p && negb (bool_decide (c' = c) && bool_decide (e ∈ mc_remove ch)))
                    || (bool_decide (c' = c) && bool_decide (e ∈ gm_id <$> mc_add ch)) /\ (c' <> c -> p' = p)
    | None => match part s3 c' e with
              | Some p' => active p' = true /\ c' = c /\ e ∈ gm_id <$> mc_add ch
              | None => c' <> c \/ e ∉ gm_id <$> mc_add ch end
    end) as Hall.
  { intros c' e. destruct (parts_removed c now (mc_remove ch) s c' e) as (q & Hq & Hm). fold s1 in Hq.
    pose proof (parts_added c now (mc_add ch) s1 c' e) as Ha. fold s2 in Ha. rewrite Hq in Ha. rewrite H3.
    destruct (part s c' e) as [p|].
    - destruct Hm as (p1 & -> & Hs1 & Ha1 & Hn1). destruct Ha as (p2 & Hp2 & Hs2 & Ha2 & Hn2). exists p2.
      split_and!; [done|congruence|by rewrite Ha2, Ha1|]. intros Hc. by rewrite Hn2, Hn1.
    - by rewrite Hm in Ha. }
  split_and!.
  - intros e. specialize (Hall c e). unfold takesPart. rewrite (bool_decide_eq_true_2 (c = c)) in Hall by done.
    destruct (part s c e) as [p|].
    + destruct Hall as (p' & -> & _ & Ha & _). cbn in Ha.
      destruct (active p) eqn:Ep, (decide (e ∈ mc_remove ch)) as [Hr|Hr], (decide (e ∈ gm_id <$> mc_add ch)) as [Hadd|Hadd];
        rewrite ?(bool_decide_eq_true_2 _ Hr), ?(bool_decide_eq_false_2 _ Hr), ?(bool_decide_eq_true_2 _ Hadd), ?(bool_decide_eq_false_2 _ Hadd) in Ha;
        cbn in Ha; naive_solver congruence.
    + destruct (part s3 c e) as [p'|]; naive_solver.
  - intros e p Hpe. specialize (Hall c e). rewrite Hpe in Hall. destruct Hall as (p' & ? & ? & _). by exists p'.
  - intros c' e Hc. specialize (Hall c' e). destruct (part s c' e) as [p|].
    + destruct Hall as (p' & -> & _ & _ & Hn). by rewrite Hn.
    + destruct (part s3 c' e); naive_solver.
Qed.

(** ** Deleting a conversation *)

(** [t'] is [t] without the rows of conversation [i]. *)
Definition without {R} (conv : R -> string) (i : string) (t t' : list R) : Prop :=
  forall r, r ∈ t' <-> r ∈ t /\ conv r <> i.
(** The same for the rows of one owner. *)
Definition without_owned {R} (mine : R -> bool) (t t' : list R) : Prop := forall r, r ∈ t' <-> r ∈ t /\ mine r = false.

Lemma sql_delete_without {R} (conv : R -> string) i (t : list R) : without conv i t (sql_delete (fun r => String.eqb (conv r) i) t).
Proof. intros r. by rewrite elem_of_sql_delete, String.eqb_neq. Qed.

Lemma changes_records (l : list WorkRecords.WorkRecordRow) w :
  WorkRecords.records (fold_left (fun db row => WorkRecords.changeRow true row db) l w) = WorkRecords.records w.
Proof. revert w. induction l as [|x l IH]; intros w; cbn [fold_left]; [done|]. by rewrite IH. Qed.

Lemma work_deleted i o w :
  WorkRecords.records (WorkRecords.deleteConversation i o w) = sql_delete (WorkRecords.owned_conversation i o) (WorkRecords.records w).
Proof. unfold WorkRecords.deleteConversation, WorkRecords.set_records. cbn. by rewrite changes_records. Qed.

Lemma segments_deleted o i now g :
  Segments.segments (Segments.deleteConversation sha256 o i now g).1 = sql_delete (Segments.is_conversation o i) (Segments.segments g).
Proof. unfold Segments.deleteConversation, Segments.notify. by case_match. Qed.

(** What an owned deletion removes. *)
Definition owned_gone (s s' : Store) (i t m : string) : Prop :=
  without_owned (WorkRecords.owned_conversation i (WorkRecords.mkOwner t m)) (WorkRecords.records (work s)) (WorkRecords.records (work s')) /\
  without_owned (Segments.is_conversation (Segments.mkSegOwner t m) i) (segments s) (segments s') /\
  without_owned (owned_file i t m) (files s) (files s').

Lemma deleteOwned_spec s i t m now :
  let s' := deleteOwned s i t m now in
  owned_gone s s' i t m /\ rows s' = rows s /\ participants s' = participants s /\ sources s' = sources s /\
  failures s' = failures s /\ retries s' = retries s /\ receipts s' = receipts s /\ approvals s' = approvals s /\ moves s' = moves s.
Proof.
  unfold deleteOwned. cbv zeta. set (w := WorkRecords.deleteConversation _ _ _). set (g := Segments.mkSegDb _ _).
  pose proof (segments_deleted (Segments.mkSegOwner t m) i now g) as Hg.
  destruct (Segments.deleteConversation _ _ _ _ _) as [sg bs]. cbn [fst] in Hg.
  split; [|done]. unfold owned_gone, without_owned; cbn [work segments files WorkRecords.records]. split_and!.
  - intros r. subst w. by rewrite work_deleted, elem_of_sql_delete.
  - intros r. rewrite Hg. subst g. cbn [Segments.segments]. by rewrite elem_of_sql_delete.
  - intros r. by rewrite elem_of_sql_delete.
Qed.

(** C38. Deleting a conversation is complete and confined: it happens exactly when the
    conversation exists and the tenant and the member that are given are its own, and otherwise
    changes nothing.  When it happens, the tables of conversations, participants, entry sources,
    failures, retries, receipts and approvals lose exactly the rows of that conversation, and
    those of work records, context segments and files exactly the rows its owner has of it; all
    other rows of these tables stay, and the last three are left alone when the conversation has
    no owner.  The list of workspace moves is not touched. *)
Theorem deletion_is_complete_and_confined (s : Store) (i : string) (tenantId memberId : option string) (now : Z) :
  let '(s', done_) := deleteConversation s i tenantId memberId now in
  (done_ = true <-> exists r, rowOf s i = Some r /\ wrongOwner tenantId (tenant_id r) = false /\ wrongOwner memberId (member_id r) = false) /\
  (done_ = false -> s' = s) /\
  (done_ = true ->
    without id i (rows s) (rows s') /\ without p_conversation_id i (participants s) (participants s') /\
    without es_conversation_id i (sources s) (sources s') /\ without fl_conversation_id i (failures s) (failures s') /\
    without Receipts.rt_conversation_id i (retries s) (retries s') /\ without Receipts.r_conversation_id i (receipts s) (receipts s') /\
    without ApprovalStore.conversation_id i (approvals s) (approvals s') /\ moves s' = moves s /\
    forall r, rowOf s i = Some r ->
      match given (tenant_id r), given (member_id r) with
      | Some t, Some m => owned_gone s s' i t m
      | _, _ => work s' = work s /\ segments s' = segments s /\ files s' = files s
      end).
Proof.
  unfold deleteConversation, getConversation. fold (rowOf s i). destruct (rowOf s i) as [r|] eqn:Hr; cbn [fmap option_fmap option_map].
  2:{ split_and!; [|done|done]. split; [done|]. intros (r & [=] & _). }
  cbn [c_tenantId c_memberId toConversation].
  destruct (wrongOwner tenantId (tenant_id r) || wrongOwner memberId (member_id r)) eqn:Ew.
  { split_and!; [|done|done]. split; [done|]. intros (r' & [= <-] & H1 & H2). by rewrite H1, H2 in Ew. }
  apply orb_false_iff in Ew as [Ht Hm]. cbv zeta.
  set (s1 := match given (tenant_id r) with Some _ => _ | None => _ end).
  assert (match given (tenant_id r), given (member_id r) with
          | Some t, Some m => owned_gone s s1 i t m
          | _, _ => work s1 = work s /\ segments s1 = segments s /\ files s1 = files s
          end /\
    rows s1 = rows s /\ participants s1 = participants s /\ sources s1 = sources s /\
    failures s1 = failures s /\ retries s1 = retries s /\ receipts s1 = receipts s /\ approvals s1 = approvals s /\
    moves s1 = moves s) as (Hown & E1 & E2 & E3 & E4 & E5 & E6 & E7 & E8).
  { subst s1. destruct (given (tenant_id r)) as [t|], (given (member_id r)) as [m|]; [|by split_and!..].
    by destruct (deleteOwned_spec s i t m now) as (? & ? & ? & ? & ? & ? & ? & ? & ?). }
  clearbody s1. split_and!; [split; [intros _; by exists r|done]|done|].
  intros _. unfold deleteFailures; cbn [rows participants sources failures retries receipts approvals moves set_failures].
  rewrite E1, E2, E3, E4, E5, E6, E7, E8. split_and!; try apply sql_delete_without; [done|].
  intros r' [= <-]. by destruct (given (tenant_id r)), (given (member_id r)).
Qed.

(** ** Reading the list page by page *)

Lemma compare_OT a b : String.compare a b = String_as_OT.compare a b.
Proof. reflexivity. Qed.

Lemma str_trichotomy a b : (String.compare a b = Eq /\ a = b) \/ String.compare a b = Lt \/ (String.compare a b = Gt /\ String.compare b a = Lt).
Proof.
  rewrite !compare_OT. destruct (String_as_OT.compare_spec a b) as [E|E|E]; [by left|by right; left|].
  right; right. split; [done|exact E].
Qed.
Lemma str_lt_irrefl a : String.compare a a <> Lt.
Proof. rewrite compare_OT. apply (@irreflexivity _ String_as_OT.lt _). Qed.
Lemma str_lt_trans a b c : String.compare a b = Lt -> String.compare b c = Lt -> String.compare a c = Lt.
Proof. rewrite !compare_OT. apply (@transitivity _ String_as_OT.lt _). Qed.

Lemma key_lt_spec a b : key_lt a b = true <-> a.1 < b.1 \/ (a.1 = b.1 /\ String.compare a.2 b.2 = Lt).
Proof.
  unfold key_lt, String.ltb. rewrite orb_true_iff, andb_true_iff, Z.ltb_lt, Z.eqb_eq.
  destruct (String.compare a.2 b.2); intuition congruence.
Qed.
Lemma key_lt_irrefl a : key_lt a a = false.
Proof. apply not_true_iff_false. rewrite key_lt_spec. intros [?|[_ H]]; [lia|by apply str_lt_irrefl in H]. Qed.
Lemma key_lt_trans a b c : key_lt a b = true -> key_lt b c = true -> key_lt a c = true.
Proof.
  rewrite !key_lt_spec. intros [?|[E1 H1]] [?|[E2 H2]]; [left; lia..|]. right. split; [congruence|by eapply str_lt_trans].
Qed.
Lemma key_lt_total a b : key_lt a b = true \/ a = b \/ key_lt b a = true.
Proof.
  rewrite !key_lt_spec. destruct (Z.lt_trichotomy a.1 b.1) as [?|[E|?]]; [auto| |auto].
  destruct (str_trichotomy a.2 b.2) as [[_ E2]|[?|[_ ?]]]; [|auto..].
  right; left. destruct a, b; cbn in *; congruence.
Qed.

Lemma rows_order_spec a b : newestFirst a b = true <-> key_lt (rowKey a) (rowKey b) = false.
Proof. unfold newestFirst, newer. by rewrite negb_true_iff. Qed.
Lemma rows_order_total a b : newestFirst a b = true \/ newestFirst b a = true.
Proof.
  rewrite !rows_order_spec. destruct (key_lt (rowKey a) (rowKey b)) eqn:E1, (key_lt (rowKey b) (rowKey a)) eqn:E2; auto.
  pose proof (key_lt_trans _ _ _ E1 E2) as H. by rewrite key_lt_irrefl in H.
Qed.
Lemma rows_order_trans a b c : newestFirst a b = true -> newestFirst b c = true -> newestFirst a c = true.
Proof.
  rewrite !rows_order_spec. intros H1 H2. apply not_true_iff_false. intros H.
  destruct (key_lt_total (rowKey b) (rowKey c)) as [?|[E|E]]; [congruence|by rewrite <- E in H; congruence|].
  pose proof (key_lt_trans _ _ _ H E) as H'. congruence.
Qed.

(** The owner's conversations, newest first. *)
Definition ownList (s : Store) (t m : option string) : list ConversationRow := order_by newestFirst (sql_select (in_owner t m) (rows s)).

(** The cursor that continues after a row. *)
Definition cursorAfter (t m : option string) (r : ConversationRow) : cursor := PageCursor (scopeOf t m) (updated_at r) (id r).

Lemma list_after s limit t m b : (forall r, b = Some r -> id r <> ""%string) ->
  listConversations s limit (cursorAfter t m <$> b) t m =
  let n := Z.to_nat (clamp 1 100 limit) in
  let found := take (S n) (after_key newer b (ownList s t m)) in
  Ok (take n found, if (n <? length found)%nat then cursorAfter t m <$> last (take n found) else None, (n <? length found)%nat).
Proof.
  intros Hid. unfold listConversations, boundaryOf. cbv zeta.
  assert (forall l, order_by newestFirst (sql_select (fun r => match rowKey <$> b with Some k => key_lt (rowKey r) k | None => true end && in_owner t m r) l)
    = after_key newer b (order_by newestFirst (sql_select (in_owner t m) l))) as Hsel.
  { intros l. unfold after_key. destruct b as [b|]; cbn; [|done].
    rewrite (filter_order_by newestFirst) by (apply rows_order_total || apply rows_order_trans). f_equal.
    unfold sql_select. induction l as [|x l IH]; cbn; [done|]. destruct (in_owner t m x); cbn; [|by rewrite andb_false_r].
    rewrite andb_true_r. change (newer b x) with (key_lt (rowKey x) (rowKey b)). destruct (key_lt _ _); [by f_equal|done]. }
  specialize (Hsel (rows s)). destruct b as [b|]; cbn [fmap option_fmap option_map] in *; cbn [cursorAfter].
  - unfold cursorAfter at 1. rewrite String.eqb_refl, (proj2 (String.eqb_neq _ _) (Hid b eq_refl)). cbn [andb negb mbind result_bind].
    change (updated_at b, id b) with (rowKey b). unfold ownList. rewrite <- Hsel. by repeat case_match.
  - cbn [mbind result_bind]. unfold ownList. rewrite <- Hsel. by repeat case_match.
Qed.

Lemma ownList_sorted s t m : NoDup (id <$> rows s) -> StronglySorted (fun a b => newer a b = true) (ownList s t m).
Proof.
  intros Hd. assert (NoDup (id <$> ownList s t m)) as Hn.
  { unfold ownList. rewrite order_by_perm. eapply sublist_NoDup; [exact Hd|].
    unfold sql_select. induction (rows s) as [|r l IH]; cbn; [constructor|].
    inversion Hd; subst. destruct (in_owner t m r); cbn; constructor; auto. }
  pose proof (order_by_sorted newestFirst (sql_select (in_owner t m) (rows s)) rows_order_total rows_order_trans) as Hs.
  fold (ownList s t m) in Hs. induction Hs as [|x l Hs IH Hx]; [constructor|].
  rewrite fmap_cons in Hn. apply NoDup_cons in Hn as [Hxn Hn]. constructor; [by apply IH|].
  rewrite Forall_forall in *. intros y Hy. specialize (Hx y Hy). rewrite rows_order_spec in Hx. unfold newer.
  destruct (key_lt_total (rowKey x) (rowKey y)) as [?|[E|?]]; [congruence| |done].
  destruct Hxn. injection E as _ E. rewrite E. by apply list_elem_of_fmap_2.
Qed.

(** Paging through the conversation list misses nothing and repeats nothing: with
    identifiers unique and not empty, following the cursors with any limit (clamped to
    1-100) is never refused and returns exactly the owner's conversations, newest first. *)
Theorem conversation_pages_complete (s : Store) (limit : Z) (t m : option string) :
  NoDup (id <$> rows s) -> (forall r, r ∈ rows s -> id r <> ""%string) ->
  conversationPages (S (length (rows s))) s limit None t m = Ok (ownList s t m) /\
  ownList s t m ≡ₚ sql_select (in_owner t m) (rows s).
Proof.
  intros Hd Hid. split; [|apply order_by_perm]. set (n := Z.to_nat (clamp 1 100 limit)).
  assert (0 < n)%nat as Hn by (pose proof (clamp_bounds 1 100 limit); subst n; lia).
  assert (forall r, r ∈ ownList s t m -> id r <> ""%string) as Hown.
  { intros r Hr. apply Hid. unfold ownList in Hr. rewrite elem_of_order_by, elem_of_sql_select in Hr. tauto. }
  assert (forall fuel b, (forall r, b = Some r -> r ∈ ownList s t m) ->
    conversationPages fuel s limit (cursorAfter t m <$> b) t m = Ok (all_pages newer fuel n b (ownList s t m))) as Hp.
  { induction fuel as [|fuel IH]; intros b Hb; [done|]. cbn [conversationPages all_pages].
    rewrite list_after by (intros r Hr; by apply Hown, Hb). cbv zeta. fold n. cbn [mbind result_bind].
    set (found := take (S n) _). destruct (n <? length found)%nat eqn:El; [|done].
    destruct (last (take n found)) as [r|] eqn:Er; cbn [fmap option_fmap option_map].
    - assert (r ∈ ownList s t m) as Hr; [|].
      2:{ specialize (IH (Some r)). cbn [fmap option_fmap option_map] in IH. rewrite IH; [done|]. by intros ? [= <-]. }
      apply last_Some_elem_of in Er. apply elem_take in Er. subst found. apply elem_take in Er.
      unfold after_key in Er. destruct b; [|done]. by apply list_elem_of_In, filter_In in Er as [?%list_elem_of_In _].
    - apply last_None in Er. apply Nat.ltb_lt in El. apply (f_equal length) in Er. rewrite length_take in Er. cbn in Er. lia. }
  rewrite (Hp _ None ltac:(done) : conversationPages _ s limit None t m = _). f_equal. apply all_pages_spec; [| |done| |].
  - intros a. apply key_lt_irrefl.
  - intros a b c H1 H2. unfold newer in *. by eapply key_lt_trans.
  - by apply ownList_sorted.
  - unfold ownList. rewrite order_by_perm. unfold sql_select. pose proof (List.filter_length_le (in_owner t m) (rows s)). lia.
Qed.
End Rows.

(** ** Witnesses *)

Definition demoRow (i : string) (at_ : Z) : ConversationRow :=
  mkRow i "" "/w" None None None "chat" [] Active None None None (Some "t") (Some "m") (Some "{}") 3 ReadOnly None at_ at_.
Definition demoStore : Store :=
  mkStore [demoRow "a" 10; demoRow "b" 20; demoRow "c" 20] [] [] [] [] [] [] [] []
    (Automation.mkAutomation [] [] [] []) (WorkRecords.mkWorkDb [] 0 [] 0 [] 0) [].

Definition demoOps : list (conv_op (Obj := string) * Z) :=
  [(OpUpdate "a" (mkPatch (Some (Some "Title")) None None None None None None None None None None None None None None), 30);
   (OpUpdate "a" (mkPatch None None None None None None None None None None None (Some (Some "{}")) None None None), 40);
   (OpDelete "b" None None, 50)]%string.

Lemma generation_identifies_schedule_witness :
  exists r', rowOf (fold_left (run_conv (fun x => x) (fun x => Some x) (fun x => x)) demoOps demoStore) "a" = Some r' /\
    schedule_generation r' = 4 /\ 3 <= schedule_generation r' /\ (schedule_generation r' = 3 -> schedule_json r' = Some "{}"%string).
Proof.
  assert (Forall (fun o : conv_op * Z => ~ deletes "a" o.1) demoOps) as Hl by (repeat constructor; cbn; congruence).
  pose proof (generation_identifies_schedule (fun x => x) (fun x => Some x) (fun x => x) demoStore demoOps "a" (demoRow "a" 10) Hl eq_refl)
    as (r' & Hr & H1 & H2).
  exists r'. split; [exact Hr|]. split; [|exact (conj H1 H2)].
  assert (rowOf (fold_left (run_conv (fun x => x) (fun x => Some x) (fun x => x)) demoOps demoStore) "a" = Some r') as Hr' by exact Hr.
  vm_compute in Hr'. injection Hr' as <-. reflexivity.
Defined.

Lemma conversation_pages_complete_witness :
  (id <$> ownList demoStore (Some "t"%string) (Some "m"%string) = ["c"; "b"; "a"]%string) /\
  conversationPages (fun _ _ => "scope"%string) 4 demoStore 1 None (Some "t"%string) (Some "m"%string) = Ok (ownList demoStore (Some "t"%string) (Some "m"%string)).
Proof.
  split; [vm_compute; reflexivity|].
  assert (NoDup (id <$> rows demoStore)) as Hd by (cbn; repeat constructor; set_solver).
  assert (forall r, r ∈ rows demoStore -> id r <> ""%string) as Hid.
  { intros r Hr. cbn in Hr. repeat (apply elem_of_cons in Hr as [->|Hr]; [done|]). by apply not_elem_of_nil in Hr. }
  exact (proj1 (conversation_pages_complete (fun x => Some x) (fun x => x) (fun _ _ => "scope"%string) demoStore 1 (Some "t"%string) (Some "m"%string) Hd Hid)).
Defined.
