(* ===== verification/JwtAuth.v ===== *)
(** Caller authentication (http/auth.ts): the published key set and the verification of a
    bearer token.

    [decodeJson] is [JSON.parse] of the UTF-8 text of a base64url part, [parseJson] is
    [JSON.parse]; a parsed number is an exact rational, or infinite when its text overflows.
    Node's crypto is the pair [publicKeyOk] ([createPublicKey] does not throw) and
    [signatureOk] ([verify] with RSA-SHA256 over the signed text). *)

From S2P Require Import Prelude Decimal.
From Stdlib Require Import Ascii QArith Lqa.
Local Open Scope Z_scope.

Inductive json : Type :=
| JNull
| JBool (b : bool)
| JNum (q : Q)
| JInf
| JStr (s : string)
| JArr (l : list json)
| JObj (l : list (string * json)).

(** [v.k]; reading a member of [null] throws. *)
Definition member (v : json) (k : string) : option json := match v with JObj l => mget k l | _ => None end.

Record JwtJwk : Type := mkJwk { n : string; e : string; kid : string; sigUse : bool }.

Inductive auth_error : Type :=
| AuthError (what : string)
| JwtClockError (what : string) (skewSeconds : Q).

Definition isStr (v : option json) (s : string) : bool := match v with Some (JStr t) => String.eqb t s | _ => false end.

Definition PUBLIC_JWK_MEMBERS : list string := ["kty"; "alg"; "kid"; "n"; "e"; "use"]%string.
Definition PRIVATE_JWK_MEMBERS : list string := ["d"; "p"; "q"; "dp"; "dq"; "qi"; "oth"]%string.

Section Auth.
Context (parseJson decodeJson : string -> option json) (publicKeyOk : JwtJwk -> bool)
        (signatureOk : JwtJwk -> string -> string -> bool).

(** ** The key set *)

Definition nonEmptyStr (v : option json) : option string :=
  match v with Some (JStr s) => if String.eqb s "" then None else Some s | _ => None end.

Definition notPublic : auth_error := AuthError "must contain only RSA RS256 public keys".
Definition badKid : auth_error := AuthError "must not contain duplicate or empty kid values".

(** One key of the document, given the identifiers seen before it. *)
Definition canonicalKey (seen : list string) (raw : json) : result auth_error JwtJwk :=
  match raw with
  | JObj key =>
      _ ← require (forallb (fun k => bool_decide (k ∈ PUBLIC_JWK_MEMBERS)) (mkeys key)
                   && negb (existsb (fun k => bool_decide (k ∈ mkeys key)) PRIVATE_JWK_MEMBERS)) notPublic;
      _ ← require (isStr (mget "kty" key) "RSA" && isStr (mget "alg" key) "RS256"
                   && match mget "use" key with None => true | Some v => isStr (Some v) "sig" end) notPublic;
      match nonEmptyStr (mget "n" key), nonEmptyStr (mget "e" key) with
      | Some kn, Some ke =>
          match mget "kid" key with
          | Some (JStr id) =>
              _ ← require (negb (isBlank id) && negb (bool_decide (id ∈ seen))) badKid;
              let jwk := mkJwk kn ke id (match mget "use" key with Some _ => true | None => false end) in
              _ ← require (publicKeyOk jwk) (AuthError "contains an invalid RSA public key");
              Ok jwk
          | _ => Err badKid
          end
      | _, _ => Err notPublic
      end
  | _ => Err notPublic
  end.

Fixpoint canonicalKeys (seen : list string) (l : list json) : result auth_error (list JwtJwk) :=
  match l with
  | [] => Ok []
  | raw :: l =>
      k ← canonicalKey seen raw;
      rest ← canonicalKeys (seen ++ [kid k]) l;
      Ok (k :: rest)
  end.

Definition parsePublicJwks (raw : string) : result auth_error (list JwtJwk) :=
  match parseJson raw with
  | None => Err (AuthError "must be valid JSON")
  | Some (JObj doc) =>
      _ ← require (forallb (fun k => String.eqb k "keys") (mkeys doc)) (AuthError "must contain only the keys member");
      match mget "keys" doc with
      | Some (JArr (k :: ks)) => canonicalKeys [] (k :: ks)
      | _ => Err (AuthError "must contain at least one key")
      end
  | Some _ => Err (AuthError "must contain only the keys member")
  end.

(** ** Tokens *)

Record AuthenticatedCaller : Type := mkCaller {
  callerId : string; userId : string; tenantId : string; roles : list string; claims : json; accessToken : string;
}.

Record JwtAuthenticatorOptions : Type := mkOptions { issuer : string; audience : string; clockSkewSeconds : option Z; now : Z (* ms *) }.

(** [token.split(".")]. *)
Fixpoint splitDot (cur : string) (s : string) : list string :=
  match s with
  | EmptyString => [cur]
  | String c s => if Ascii.eqb c "."%char then cur :: splitDot "" s else splitDot (cur +:+ String c "") s
  end.

Definition audienceContains (aud : option json) (expected : string) : bool :=
  match aud with
  | Some (JStr s) => String.eqb s expected
  | Some (JArr l) => existsb (fun v => isStr (Some v) expected) l
  | _ => false
  end.

(** A number that is finite. *)
Definition finite (v : option json) : option Q := match v with Some (JNum q) => Some q | _ => None end.

Definition strOf (v : option json) : option string := match v with Some (JStr s) => Some s | _ => None end.

(** A value that is not falsy. *)
Definition truthy (v : option json) : bool :=
  match v with
  | None | Some JNull => false
  | Some (JBool b) => b
  | Some (JStr s) => negb (String.eqb s "")
  | Some (JNum q) => negb (Qeq_bool q 0)
  | Some _ => true
  end.

(** The checks of the claims after the signature. *)
Definition checkClaims (c : json) (o : JwtAuthenticatorOptions) (token : string) : result auth_error AuthenticatedCaller :=
  let now_ := inject_Z (now o / 1000) in
  let skew := inject_Z (nullish (clockSkewSeconds o) 30) in
  _ ← match finite (member c "exp") with
      | Some exp => require (negb (Qle_bool (exp + skew) now_)) (AuthError "JWT is expired")
      | None => Err (AuthError "JWT is expired") end;
  _ ← match finite (member c "iat") with
      | Some iat => require (Qle_bool (iat - skew) now_) (JwtClockError "JWT issued-at claim is in the future" (iat - now_))
      | None => Err (AuthError "JWT issued-at claim is missing or invalid") end;
  _ ← require (match member c "nbf" with None => true | Some v => bool_decide (is_Some (finite (Some v))) end) (AuthError "JWT not-before claim is invalid");
  _ ← require (isStr (member c "iss") (issuer o)) (AuthError "JWT issuer mismatch");
  _ ← require (audienceContains (member c "aud") (audience o)) (AuthError "JWT audience mismatch");
  rs ← match strOf (member c "enterprise_id"), member c "roles" with
       | Some _, Some (JArr l) => Ok l
       | _, _ => Err (AuthError "JWT required claims are missing") end;
  _ ← match finite (member c "nbf") with
      | Some nbf => require (Qle_bool (nbf - skew) now_) (JwtClockError "JWT is not active" (nbf - now_))
      | None => Ok tt end;
  let user := match strOf (member c "user_id") with Some u => u | None => nullish (strOf (member c "sub")) "" end in
  match strOf (member c "tenant_id") with
  | Some t =>
      _ ← require (negb (String.eqb user "") && negb (isBlank t)) (AuthError "JWT identity claims are missing");
      Ok (mkCaller user user t (omap (fun v => strOf (Some v)) rs) c token)
  | None => Err (AuthError "JWT identity claims are missing")
  end.

(** [keys.get(kid)] of the map built from the list. *)
Definition keyOf (keys : list JwtJwk) (id : string) : option JwtJwk := mget id ((fun k => (kid k, k)) <$> keys).

Definition verifyJwt (token : string) (keys : list JwtJwk) (o : JwtAuthenticatorOptions) : result auth_error AuthenticatedCaller :=
  match splitDot "" token with
  | [h; p; sig] =>
      match decodeJson h, decodeJson p with
      | Some header, Some c =>
          match header with
          | JNull => Err (AuthError "TypeError")
          | _ =>
              _ ← require (isStr (member header "alg") "RS256" && truthy (member header "kid")) (AuthError "Unsupported JWT signing algorithm");
              match strOf (member header "kid") ≫= keyOf keys with
              | None => Err (AuthError "Unknown JWT key")
              | Some jwk =>
                  _ ← require (signatureOk jwk (h +:+ "." +:+ p) sig) (AuthError "Invalid JWT signature");
                  match c with JNull => Err (AuthError "TypeError") | _ => checkClaims c o token end
              end
          end
      | _, _ => Err (AuthError "Malformed JWT payload")
      end
  | _ => Err (AuthError "Malformed JWT")
  end.

(** [createJwtAuthenticator]: the key set is checked once, then every request. *)
Definition createJwtAuthenticator (rawJwks : string) (o : JwtAuthenticatorOptions)
    : result auth_error (option string -> result auth_error AuthenticatedCaller) :=
  _ ← require (negb (String.eqb (issuer o) "") && negb (String.eqb (audience o) "")) (AuthError "JWT issuer and audience are required");
  keys ← parsePublicJwks rawJwks;
  Ok (fun header =>
    match header with
    | Some h => if String.prefix "Bearer " h then verifyJwt (String.substring 7 (String.length h) h) keys o else Err (AuthError "Missing bearer token")
    | None => Err (AuthError "Missing bearer token")
    end).

(** ** What is accepted *)

(** The user a token names. *)
Definition userOf (c : json) : string :=
  match strOf (member c "user_id") with Some u => u | None => nullish (strOf (member c "sub")) "" end.

(** The claims are admissible now: inside the validity window widened by the skew, from the
    issuer, for the audience, with an identity. *)
Definition admissible (c : json) (o : JwtAuthenticatorOptions) : Prop :=
  let now_ := inject_Z (now o / 1000) in
  let skew := inject_Z (nullish (clockSkewSeconds o) 30) in
  (exists exp, finite (member c "exp") = Some exp /\ (now_ < exp + skew)%Q) /\
  (exists iat, finite (member c "iat") = Some iat /\ (iat - skew <= now_)%Q) /\
  (member c "nbf" = None \/ exists nbf, finite (member c "nbf") = Some nbf /\ (nbf - skew <= now_)%Q) /\
  member c "iss" = Some (JStr (issuer o)) /\ audienceContains (member c "aud") (audience o) = true /\
  is_Some (strOf (member c "enterprise_id")) /\ userOf c <> ""%string.

(** The caller made from admissible claims. *)
Definition callerFor (c : json) (token : string) (caller : AuthenticatedCaller) : Prop :=
  exists t rs, member c "tenant_id" = Some (JStr t) /\ isBlank t = false /\ member c "roles" = Some (JArr rs) /\
    caller = mkCaller (userOf c) (userOf c) t (omap (fun v => strOf (Some v)) rs) c token.

Lemma isStr_iff v s : isStr v s = true <-> v = Some (JStr s).
Proof. unfold isStr. destruct v as [[]|]; try (split; [done|by intros [=]]). rewrite String.eqb_eq. split; [by intros ->|by intros [= ->]]. Qed.

Lemma Qlt_bool_iff a b : negb (Qle_bool a b) = true <-> (b < a)%Q.
Proof.
  rewrite negb_true_iff, <- not_true_iff_false, Qle_bool_iff. split; [apply Qnot_le_lt|].
  intros H1 H2. by apply (Qlt_not_le b a).
Qed.

Lemma strOf_iff v s : strOf v = Some s <-> v = Some (JStr s).
Proof. destruct v as [[]|]; cbn; split; try done; congruence. Qed.

Lemma checkClaims_spec c o token caller : checkClaims c o token = Ok caller <-> admissible c o /\ callerFor c token caller.
Proof.
  unfold checkClaims, admissible, callerFor. cbv zeta. fold (userOf c). split.
  - intros (u1 & H1 & H)%bind_Ok. apply bind_Ok in H as (u2 & H2 & H). apply bind_Ok in H as (u3 & H3%require_Ok & H).
    apply bind_Ok in H as (u4 & H4%require_Ok%isStr_iff & H). apply bind_Ok in H as (u5 & H5%require_Ok & H).
    apply bind_Ok in H as (rs & H6 & H). apply bind_Ok in H as (u7 & H7 & H).
    destruct (strOf (member c "tenant_id")) as [t|] eqn:Ht; [|done]. apply strOf_iff in Ht.
    apply bind_Ok in H as (u8 & H8%require_Ok & [= <-]). apply andb_true_iff in H8 as [Hu%negb_true_iff Hb%negb_true_iff].
    destruct (finite (member c "exp")) as [x|]; [|done]. apply require_Ok, Qlt_bool_iff in H1.
    destruct (finite (member c "iat")) as [y|]; [|done]. apply require_Ok, Qle_bool_iff in H2.
    destruct (strOf (member c "enterprise_id")); [|done]. destruct (member c "roles") as [[]|]; simplify_eq.
    split; [split_and!|].
    + by exists x.
    + by exists y.
    + destruct (member c "nbf") as [v|]; [|by left]. right. apply bool_decide_eq_true in H3 as [z Hz]. exists z.
      rewrite Hz in H7 |- *. apply require_Ok, Qle_bool_iff in H7. done.
    + done.
    + done.
    + done.
    + by apply String.eqb_neq.
    + by exists t, rs.
  - intros [(( x & Hx & Hx') & (y & Hy & Hy') & Hn & Hi & Ha & [en He] & Hu) (t & rs & Ht & Hb & Hr & ->)].
    rewrite Hx, (proj2 (Qlt_bool_iff _ _) Hx'). cbn [require mbind result_bind]. rewrite Hy, (proj2 (Qle_bool_iff _ _) Hy'). cbn [require mbind result_bind].
    assert (match member c "nbf" with None => true | Some v => bool_decide (is_Some (finite (Some v))) end = true) as ->.
    { destruct (member c "nbf") as [v|]; [|done]. apply bool_decide_eq_true. destruct Hn as [[=]|(z & Hz & _)]. by exists z. }
    cbn [require mbind result_bind]. rewrite (proj2 (isStr_iff _ _) Hi), Ha. cbn [require mbind result_bind]. rewrite He, Hr.
    assert (match finite (member c "nbf") with Some nbf => require (Qle_bool (nbf - inject_Z (nullish (clockSkewSeconds o) 30)) (inject_Z (now o / 1000)))
       (JwtClockError "JWT is not active" (nbf - inject_Z (now o / 1000))) | None => Ok tt end = Ok tt) as ->.
    { destruct Hn as [->|(z & -> & Hz)]; [done|]. by apply require_Ok, Qle_bool_iff. }
    cbn [mbind result_bind]. rewrite Ht. cbn [strOf]. apply String.eqb_neq in Hu. by rewrite Hu, Hb.
Qed.

(** ** The key set contains public keys only *)

Lemma canonicalKey_Ok seen raw k : canonicalKey seen raw = Ok k ->
  publicKeyOk k = true /\ kid k ∉ seen /\ isBlank (kid k) = false /\
  exists key, raw = JObj key /\ forall x, x ∈ PRIVATE_JWK_MEMBERS -> mget x key = None.
Proof.
  unfold canonicalKey. destruct raw as [| | | | | |key]; try done.
  intros (u1 & [H1 H1']%require_Ok%andb_true_iff & H)%bind_Ok. apply bind_Ok in H as (u2 & _ & H).
  destruct (nonEmptyStr (mget "n" key)), (nonEmptyStr (mget "e" key)); try done.
  destruct (mget "kid" key) as [[]|]; try done.
  apply bind_Ok in H as (u3 & [H3%negb_true_iff H3'%negb_true_iff]%require_Ok%andb_true_iff & H).
  apply bind_Ok in H as (u4 & H4%require_Ok & [= <-]). cbn [kid]. split_and!; [done|by apply bool_decide_eq_false in H3'|done|].
  exists key. split; [done|]. intros x Hx. destruct (mget x key) eqn:E; [|done]. exfalso.
  apply negb_true_iff, not_true_iff_false in H1'. apply H1', existsb_exists. exists x. split; [by apply list_elem_of_In|].
  apply bool_decide_eq_true, elem_of_mkeys. by eexists.
Qed.

Lemma canonicalKeys_Ok l seen ks : canonicalKeys seen l = Ok ks ->
  NoDup (kid <$> ks) /\ (forall x, x ∈ seen -> x ∉ kid <$> ks) /\ Forall (fun k => publicKeyOk k = true /\ isBlank (kid k) = false) ks.
Proof.
  revert seen ks. induction l as [|raw l IH]; intros seen ks; cbn [canonicalKeys].
  - intros [= <-]. split_and!; [constructor|by intros x _ ?%not_elem_of_nil|constructor].
  - intros (k & (Hk1 & Hk2 & Hk3 & _)%canonicalKey_Ok & H)%bind_Ok. apply bind_Ok in H as (rest & H & [= <-]).
    apply IH in H as (Hd & Hs & Hf). rewrite fmap_cons. split_and!.
    + constructor; [|done]. intros Hin. apply (Hs (kid k)); [set_solver|done].
    + intros x Hx [->|Hin]%elem_of_cons; [done|]. apply (Hs x); [set_solver|done].
    + by constructor.
Qed.

Lemma keyOf_Some keys id k : keyOf keys id = Some k -> k ∈ keys /\ kid k = id.
Proof. intros H%mget_In. apply list_elem_of_fmap in H as (k' & [= -> ->] & Hin). done. Qed.

(** C13. The authenticator lets in exactly the tokens it should: it exists only for a key
    set of valid public keys with distinct identifiers, and it accepts a request exactly
    when the header is a bearer token of three parts that names RS256 and the identifier of
    a published key, whose signature over the first two parts that key verifies, and whose
    claims are admissible now; the caller is then the one the claims name. *)
Theorem authenticator_is_exact (rawJwks : string) (o : JwtAuthenticatorOptions) f :
  createJwtAuthenticator rawJwks o = Ok f ->
  exists keys, parsePublicJwks rawJwks = Ok keys /\ NoDup (kid <$> keys) /\ Forall (fun k => publicKeyOk k = true) keys /\
  forall request caller, f request = Ok caller <->
    exists token h p sig header c jwk,
      (exists r, request = Some r /\ String.prefix "Bearer " r = true /\ token = String.substring 7 (String.length r) r) /\
      splitDot "" token = [h; p; sig] /\ decodeJson h = Some header /\ decodeJson p = Some c /\
      member header "alg" = Some (JStr "RS256") /\ member header "kid" = Some (JStr (kid jwk)) /\ kid jwk <> ""%string /\
      keyOf keys (kid jwk) = Some jwk /\ signatureOk jwk (h +:+ "." +:+ p) sig = true /\
      admissible c o /\ callerFor c token caller.
Proof.
  unfold createJwtAuthenticator. intros (u & _ & H)%bind_Ok. apply bind_Ok in H as (keys & Hkeys & [= <-]).
  exists keys. split; [done|].
  assert (NoDup (kid <$> keys) /\ Forall (fun k => publicKeyOk k = true) keys) as [Hd Hf].
  { unfold parsePublicJwks in Hkeys. destruct (parseJson rawJwks) as [[]|]; try done.
    apply bind_Ok in Hkeys as (u' & _ & H). destruct (mget "keys" l) as [[| | | | |[|k ks]|]|]; try done.
    apply canonicalKeys_Ok in H as (Hd & _ & Hf). split; [done|]. eapply Forall_impl; [exact Hf|]. naive_solver. }
  split_and!; [done|done|]. clear Hd Hf. intros request caller. split.
  - destruct request as [r|]; [|done]. destruct (String.prefix "Bearer " r) eqn:Epre; [|done].
    set (token := String.substring 7 (String.length r) r). unfold verifyJwt. intros H.
    destruct (splitDot "" token) as [|h [|p [|sig []]]] eqn:Esplit; try done.
    destruct (decodeJson h) as [header|] eqn:Eh; [|done]. destruct (decodeJson p) as [c|] eqn:Ep; [|done].
    assert ((_ ← require (isStr (member header "alg") "RS256" && truthy (member header "kid")) (AuthError "Unsupported JWT signing algorithm");
       match strOf (member header "kid") ≫= keyOf keys with
       | None => Err (AuthError "Unknown JWT key")
       | Some jwk => _ ← require (signatureOk jwk (h +:+ "." +:+ p) sig) (AuthError "Invalid JWT signature");
           match c with JNull => Err (AuthError "TypeError") | _ => checkClaims c o token end
       end) = Ok caller) as H' by (by destruct header).
    clear H. apply bind_Ok in H' as (u1 & [Ha%isStr_iff Ht]%require_Ok%andb_true_iff & H).
    destruct (strOf (member header "kid")) as [id|] eqn:Ekid; [|done]. cbn [mbind option_bind] in H. apply strOf_iff in Ekid.
    destruct (keyOf keys id) as [jwk|] eqn:Ekey; [|done]. pose proof (keyOf_Some _ _ _ Ekey) as [_ <-].
    apply bind_Ok in H as (u2 & Hs%require_Ok & H).
    assert (checkClaims c o token = Ok caller) as [Hadm Hcaller]%checkClaims_spec by (by destruct c).
    exists token, h, p, sig, header, c, jwk. split_and!; try done; [by exists r|].
    rewrite Ekid in Ht. cbn in Ht. by apply negb_true_iff, String.eqb_neq in Ht.
  - intros (token & h & p & sig & header & c & jwk & (r & -> & Hpre & Htok) & Hsplit & Hh & Hp & Ha & Hk & Hne & Hkey & Hs & Hadm & Hcal).
    rewrite Hpre, <- Htok. unfold verifyJwt. rewrite Hsplit, Hh, Hp.
    assert (checkClaims c o token = Ok caller) as Hc by (by apply checkClaims_spec).
    destruct header; try done. rewrite Ha, Hk. apply String.eqb_neq in Hne. cbn [isStr truthy strOf]. rewrite String.eqb_refl, Hne.
    cbn [negb andb require mbind result_bind option_bind]. rewrite Hkey, Hs. cbn [require mbind result_bind].
    by destruct c.
Qed.
End Auth.

(** ** Witness: one key, one token, a signature check that compares texts *)

Definition demoJwks : json :=
  JObj [("keys", JArr [JObj [("kty", JStr "RSA"); ("alg", JStr "RS256"); ("kid", JStr "k1"); ("n", JStr "AQ"); ("e", JStr "AQAB")]])]%string.
Definition demoClaims : json :=
  JObj [("exp", JNum 2000); ("iat", JNum 1000); ("iss", JStr "iss"); ("aud", JArr [JStr "agent"]); ("enterprise_id", JStr "e");
        ("roles", JArr [JStr "member"; JNull]); ("sub", JStr "u1"); ("tenant_id", JStr "t1")]%string.
Definition demoDecode (s : string) : option json :=
  if String.eqb s "h" then Some (JObj [("alg", JStr "RS256"); ("kid", JStr "k1")]%string)
  else if String.eqb s "p" then Some demoClaims else None.
Definition demoVerify (k : JwtJwk) (signed sig : string) : bool := String.eqb sig (kid k +:+ signed).
Definition demoOptions : JwtAuthenticatorOptions := mkOptions "iss" "agent" None 1500000.

Lemma authenticator_is_exact_witness :
  exists f, createJwtAuthenticator (fun _ => Some demoJwks) demoDecode (fun _ => true) demoVerify "{}" demoOptions = Ok f /\
    f (Some "Bearer h.p.k1h.p"%string) = Err (AuthError "Malformed JWT") /\
    (exists keys, parsePublicJwks (fun _ => Some demoJwks) (fun _ => true) "{}" = Ok keys /\ NoDup (kid <$> keys)) /\
    verifyJwt demoDecode (fun _ _ sig => String.eqb sig "s") "h.p.s" [mkJwk "AQ" "AQAB" "k1" false] demoOptions
      = Ok (mkCaller "u1" "u1" "t1" ["member"%string] demoClaims "h.p.s").
Proof.
  eexists. split; [reflexivity|]. split; [vm_compute; reflexivity|]. split; [|vm_compute; reflexivity].
  destruct (authenticator_is_exact (fun _ => Some demoJwks) demoDecode (fun _ => true) demoVerify "{}" demoOptions _ eq_refl)
    as (keys & Hk & Hd & _). exact (ex_intro _ keys (conj Hk Hd)).
Defined.
