(* ===== verification/Todo.v ===== *)
(** The checklist of a run: the [todo_update] tool (tools/todo.ts), the reminder added to
    the model's view (pi/todo-reminder.ts) and the closing turn (pi/todo-reconcile.ts).

    Texts are code units; a tool argument is a JSON value as in Redaction. *)

From S2P Require Import Prelude Regex Redaction.
Local Open Scope Z_scope.

Definition TODO_UPDATE_TOOL_NAME : text := u "todo_update".
Definition MAX_TODO_ITEMS : Z := 32.
Definition MAX_TODO_ID_CHARS : Z := 128.
Definition MAX_TODO_TITLE_CHARS : Z := 500.

(** ** Patterns, flags [gi] without [u]: only ASCII letters fold *)

Definition fold_ascii (c : Z) : Z := if (65 <=? c) && (c <=? 90) then c + 32 else c.
Fixpoint AText (s : text) : re :=
  match s with [] => REps | c :: s => RSeq (RChar (fun x => fold_ascii x =? c)) (AText s) end.
Definition ASet (l : text) : re := RChar (fun x => existsb (fun c => fold_ascii x =? c) l).
Definition isAlnum (c : Z) : bool := let c := fold_ascii c in ((48 <=? c) && (c <=? 57)) || ((97 <=? c) && (c <=? 122)).
Definition spaces : re := RStar (RChar is_space).

Definition INLINE_SECRET : re :=
  RAlt
    (RSeq (RAlts [RSeq (AText (u "bearer")) (RPlus (RChar is_space)); RSeq (AText (u "basic")) (RPlus (RChar is_space));
                  RSeq (RAlts [AText (u "sk"); AText (u "pk"); AText (u "rk")]) (AText (u "-"))])
       (RPlus (RChar (fun c => isAlnum c || existsb (Z.eqb c) (u "._~+/=-")))))
    (RSeq (RAlts [AText (u "token"); AText (u "secret"); AText (u "password");
                  RSeq (AText (u "api")) (RSeq (ROpt (ASet (u " _-"))) (AText (u "key")))])
       (RSeq spaces (RSeq (ASet (u ":=")) (RSeq spaces (RPlus (RNot (fun c => is_space c || (c =? 44) || (c =? 59)))))))).

(** No space, quote or angle bracket. *)
Definition pathChar : re := RNot (fun c => is_space c || existsb (Z.eqb c) [34; 39; 60; 62]).
Definition INLINE_PATH : re :=
  RAlt
    (RSeq (AText (u "/")) (RSeq (RAlts (AText <$> [u "users"; u "private"; u "home"; u "tmp"; u "var"; u "workspace"; u "etc"; u "root"]))
       (RStar (RSeq (AText (u "/")) (RStar pathChar)))))
    (RSeq (RChar (fun c => let c := fold_ascii c in (97 <=? c) && (c <=? 122))) (RSeq (AText [58; 92]) (RStar pathChar))).

(** ** The tool *)

Inductive TodoStatus : Type := Pending | InProgress | Completed.
#[export] Instance TodoStatus_eq_dec : EqDecision TodoStatus.
Proof. solve_decision. Defined.
Record TodoItem : Type := mkItem { id : text; title : text; status : TodoStatus }.

Inductive todo_error : Type := TodoError (what : string).

(** [/[\\/]/u.test(id)]. *)
Definition hasSlash (s : text) : bool := existsb (fun c => (c =? 92) || (c =? 47)) s.
Definition statusOf (v : option json) : option TodoStatus :=
  match v with
  | Some (JStr s) => if bool_decide (s = u "pending") then Some Pending else if bool_decide (s = u "in_progress") then Some InProgress
                     else if bool_decide (s = u "completed") then Some Completed else None
  | _ => None
  end.

Definition redactTitle (s : text) : text := replaceAll INLINE_PATH HIDDEN_PATH (replaceAll INLINE_SECRET HIDDEN s).

Definition normalizeItem (ids : list text) (v : json) : result todo_error TodoItem :=
  match v with
  | JObj raw =>
      _ ← require (forallb (fun f => bool_decide (f.1 ∈ [u "id"; u "title"; u "status"])) raw) (TodoError "todo_update item has unsupported fields");
      match field "id" raw with
      | Some (JStr i) =>
          _ ← require ((0 <? tlen i) && (tlen i <=? MAX_TODO_ID_CHARS) && negb (hasSlash i)) (TodoError "todo_update item id is invalid");
          match field "title" raw with
          | Some (JStr t) =>
              _ ← require (negb (blank t) && (tlen t <=? MAX_TODO_TITLE_CHARS)) (TodoError "todo_update item title is invalid");
              match statusOf (field "status" raw) with
              | Some s =>
                  _ ← require (negb (bool_decide (i ∈ ids))) (TodoError "todo_update item ids must be unique");
                  Ok (mkItem i (redactTitle t) s)
              | None => Err (TodoError "todo_update item status is invalid")
              end
          | _ => Err (TodoError "todo_update item title is invalid")
          end
      | _ => Err (TodoError "todo_update item id is invalid")
      end
  | _ => Err (TodoError "todo_update items must be objects")
  end.

Fixpoint normalizeItems (ids : list text) (l : list json) : result todo_error (list TodoItem) :=
  match l with
  | [] => Ok []
  | v :: l => i ← normalizeItem ids v; rest ← normalizeItems (ids ++ [id i]) l; Ok (i :: rest)
  end.

Definition normalizeTodoItems (value : json) : result todo_error (list TodoItem) :=
  match value with
  | JArr l => _ ← require (Z.of_nat (length l) <=? MAX_TODO_ITEMS) (TodoError "todo_update requires at most 32 items"); normalizeItems [] l
  | _ => Err (TodoError "todo_update requires at most 32 items")
  end.

(** [todoUpdateAllowed]. *)
Definition todoUpdateAllowed (toolPolicy : json) : bool :=
  let allowed := match toolPolicy with JObj l => field "allowed_tools" l | _ => None end in
  let names := match allowed with Some (JArr l) => omap (fun v => match v with JStr s => Some s | _ => None end) l | _ => [] end in
  match names with [] => true | _ => existsb (fun x => bool_decide (x = TODO_UPDATE_TOOL_NAME)) names end.

(** ** The reminder *)

(** A message of the model's context; [checklist] is [details.items] when it is an array. *)
Inductive Message : Type :=
| User (content : list text)
| CustomMessage (customType : text) (content : list text)
| Assistant (content : list text)
| ToolResult (toolName : text) (isError : bool) (checklist : option (list TodoItem)) (content : list text).

Definition TODO_REMINDER_AFTER_TOOL_CALLS : nat := 8.

Definition checklistItems (m : Message) : option (list TodoItem) :=
  match m with
  | ToolResult name err items _ => if bool_decide (name = TODO_UPDATE_TOOL_NAME) && negb err then items else None
  | _ => None
  end.

Definition isCompleted (i : TodoItem) : bool := bool_decide (status i = Completed).

(** The loop from the newest message back, over the reversed context: is a reminder due? *)
Fixpoint reminderDue (toolCalls : nat) (newestFirst : list Message) : bool :=
  match newestFirst with
  | [] => false
  | m :: rest =>
      match m with
      | User _ | CustomMessage _ _ => false
      | Assistant _ => reminderDue toolCalls rest
      | ToolResult _ _ _ _ =>
          match checklistItems m with
          | None => reminderDue (S toolCalls) rest
          | Some items => negb ((toolCalls <? TODO_REMINDER_AFTER_TOOL_CALLS)%nat || forallb isCompleted items)
          end
      end
  end.

Section Reminder.
Context (REMINDER : text).

Definition withTodoReminder (messages : list Message) : option (list Message) :=
  match last messages with
  | Some (ToolResult name err items content) =>
      if reminderDue 0 (reverse messages)
      then Some (removelast messages ++ [ToolResult name err items (content ++ [REMINDER])]) else None
  | _ => None
  end.

(** ** The closing turn *)

(** A session entry: a message, or a custom message with its type. *)
Inductive SessionEntry : Type := EMessage (m : Message) | ECustom (customType : text) | EOther.

Definition TODO_RECONCILE_TYPE : text := u "todo_reconcile".

Fixpoint latestOf (newestFirst : list SessionEntry) : option (list TodoItem) :=
  match newestFirst with
  | [] => None
  | EMessage m :: rest => match checklistItems m with Some items => Some items | None => latestOf rest end
  | _ :: rest => latestOf rest
  end.
Definition latestChecklist (entries : list SessionEntry) : option (list TodoItem) := latestOf (reverse entries).
Definition checklistUnfinished (entries : list SessionEntry) : bool :=
  match latestChecklist entries with Some items => existsb (fun i => negb (isCompleted i)) items | None => false end.

Definition isPrompt (e : SessionEntry) : bool := match e with ECustom t => bool_decide (t = TODO_RECONCILE_TYPE) | _ => false end.
Definition isUser (e : SessionEntry) : bool := match e with EMessage (User _) => true | _ => false end.

Fixpoint positionsFrom (inside : bool) (index : nat) (entries : list SessionEntry) : list nat :=
  match entries with
  | [] => []
  | e :: rest =>
      if isPrompt e then positionsFrom true (S index) rest
      else if isUser e then positionsFrom false (S index) rest
      else if inside then index :: positionsFrom inside (S index) rest
      else positionsFrom inside (S index) rest
  end.
Definition reconcileEntryPositions (entries : list SessionEntry) : list nat := positionsFrom false 0 entries.
End Reminder.

(** ** What the tool accepts *)

(** An argument describes an item. *)
Definition describes (v : json) (i : TodoItem) : Prop :=
  exists raw t, v = JObj raw /\ (forall f, f ∈ raw -> f.1 ∈ [u "id"; u "title"; u "status"]) /\
    field "id" raw = Some (JStr (id i)) /\ 0 < tlen (id i) <= MAX_TODO_ID_CHARS /\ hasSlash (id i) = false /\
    field "title" raw = Some (JStr t) /\ blank t = false /\ tlen t <= MAX_TODO_TITLE_CHARS /\ title i = redactTitle t /\
    statusOf (field "status" raw) = Some (status i).

Lemma normalizeItem_spec ids v i : normalizeItem ids v = Ok i <-> describes v i /\ id i ∉ ids.
Proof.
  unfold normalizeItem, describes. split.
  - destruct v as [| | | | | |raw]; try done. intros (u1 & H1%require_Ok & H)%bind_Ok.
    destruct (field "id" raw) as [[]|] eqn:Eid; try done. apply bind_Ok in H as (u2 & H2%require_Ok & H).
    destruct (field "title" raw) as [[]|] eqn:Etitle; try done. apply bind_Ok in H as (u3 & H3%require_Ok & H).
    destruct (statusOf (field "status" raw)) as [st|] eqn:Es; [|done]. apply bind_Ok in H as (u4 & H4%require_Ok & [= <-]).
    rewrite !andb_true_iff, Z.ltb_lt, Z.leb_le, negb_true_iff in H2. rewrite andb_true_iff, Z.leb_le, negb_true_iff in H3.
    apply negb_true_iff, bool_decide_eq_false in H4. split; [|done].
    exists raw, s0. cbn [id title status]. split_and!; try done; try tauto.
    intros f Hf. rewrite forallb_forall in H1. specialize (H1 f). rewrite bool_decide_eq_true in H1. apply H1. by apply list_elem_of_In.
  - intros [(raw & t & -> & Hk & Hid & Hl & Hs & Ht & Hb & Htl & Htitle & Hst) Hn].
    assert (forallb (fun f : text * json => bool_decide (f.1 ∈ [u "id"; u "title"; u "status"])) raw = true) as ->.
    { apply forallb_forall. intros f Hf. apply bool_decide_eq_true, Hk. by apply list_elem_of_In. }
    cbn [require mbind result_bind]. rewrite Hid.
    assert ((0 <? tlen (id i)) && (tlen (id i) <=? MAX_TODO_ID_CHARS) && negb (hasSlash (id i)) = true) as ->.
    { rewrite !andb_true_iff, Z.ltb_lt, Z.leb_le, negb_true_iff. tauto. }
    cbn [require mbind result_bind]. rewrite Ht. rewrite Hb, (proj2 (Z.leb_le _ _) Htl). cbn [negb andb require mbind result_bind].
    rewrite Hst, (bool_decide_eq_false_2 _ Hn). cbn. f_equal. destruct i; cbn in *; congruence.
Qed.

Lemma normalizeItems_spec ids l items : normalizeItems ids l = Ok items <->
  Forall2 describes l items /\ NoDup (id <$> items) /\ (forall x, x ∈ ids -> x ∉ id <$> items).
Proof.
  revert ids items. induction l as [|v l IH]; intros ids items; cbn [normalizeItems].
  - split.
    + intros [= <-]. split_and!; [constructor|constructor|by intros x _ ?%not_elem_of_nil].
    + intros (H & _). by inversion H.
  - split.
    + intros (i & [Hi Hn]%normalizeItem_spec & H)%bind_Ok. apply bind_Ok in H as (rest & (Hf & Hd & Hids)%IH & [= <-]).
      rewrite fmap_cons. split_and!; [by constructor| |].
      * constructor; [|done]. apply Hids. set_solver.
      * intros x Hx [->|Hin]%elem_of_cons; [done|]. apply (Hids x); [set_solver|done].
    + intros (Hf & Hd & Hids). inversion Hf as [|? i ? rest Hi Hrest]; subst. rewrite fmap_cons in Hd, Hids.
      apply NoDup_cons in Hd as [Hin Hd].
      assert (normalizeItem ids v = Ok i) as ->.
      { apply normalizeItem_spec. split; [done|]. intros H. apply (Hids _ H). by left. }
      cbn [mbind result_bind]. assert (normalizeItems (ids ++ [id i]) l = Ok rest) as ->; [|done].
      apply IH. split_and!; [done|done|]. intros x Hx. apply elem_of_app in Hx as [Hx|Hx]; [|apply list_elem_of_singleton in Hx as ->; done].
      intros H. apply (Hids x Hx). by right.
Qed.

(** The tool replaces the checklist exactly when it is given an array of at most 32
    well-formed items with distinct identifiers: the result then has one item per argument,
    in order, with the given identifier and status and the title with secrets and paths
    hidden; anything else is refused. *)
Theorem checklist_is_exactly_the_valid_items (value : json) (items : list TodoItem) :
  normalizeTodoItems value = Ok items <->
  exists l, value = JArr l /\ Z.of_nat (length l) <= MAX_TODO_ITEMS /\ Forall2 describes l items /\ NoDup (id <$> items).
Proof.
  unfold normalizeTodoItems. split.
  - destruct value as [| | | | |l|]; try done. intros (u1 & H1%require_Ok%Z.leb_le & (Hf & Hd & _)%normalizeItems_spec)%bind_Ok.
    by exists l.
  - intros (l & -> & Hl & Hf & Hd). rewrite (proj2 (Z.leb_le _ _) Hl). cbn [require mbind result_bind].
    apply normalizeItems_spec. split_and!; [done|done|by intros x ?%not_elem_of_nil].
Qed.

(** The title limit is checked before the title is redacted, and a notice can be longer
    than what it hides: an accepted title can be longer than the limit afterwards. *)
Definition longTitle : text := concat (replicate 100 (u "/tmp ")).
Example redacted_title_exceeds_limit :
  match normalizeTodoItems (JArr [JObj [(u "id", JStr (u "a")); (u "title", JStr longTitle); (u "status", JStr (u "pending"))]]) with
  | Ok [i] => tlen longTitle = 500 /\ tlen (title i) = 800
  | _ => False
  end.
Proof. vm_compute. done. Qed.

(** ** When the model is reminded *)

Definition isToolResult (m : Message) : bool := match m with ToolResult _ _ _ _ => true | _ => false end.
(** A message of the running turn that is no checklist update. *)
Definition passive (m : Message) : bool :=
  match m with User _ | CustomMessage _ _ => false | Assistant _ => true | ToolResult _ _ _ _ => negb (bool_decide (is_Some (checklistItems m))) end.
Definition toolResults (l : list Message) : nat := length (List.filter isToolResult l).

Lemma reminderDue_spec k l : reminderDue k l = true <->
  exists later m items earlier, l = later ++ m :: earlier /\ checklistItems m = Some items /\ forallb passive later = true /\
    (TODO_REMINDER_AFTER_TOOL_CALLS <= k + toolResults later)%nat /\ existsb (fun i => negb (isCompleted i)) items = true.
Proof.
  revert k. induction l as [|m l IH]; intros k; cbn [reminderDue].
  { split; [done|]. by intros ([] & ? & ? & ? & [=] & _). }
  assert (Hstop : checklistItems m = None -> passive m = false ->
    ~ exists later m0 items earlier, m :: l = later ++ m0 :: earlier /\ checklistItems m0 = Some items /\ forallb passive later = true /\
      (TODO_REMINDER_AFTER_TOOL_CALLS <= k + toolResults later)%nat /\ existsb (fun i => negb (isCompleted i)) items = true).
  { intros Hc Hp ([|x later] & m0 & items & earlier & E & H1 & H2 & _); injection E as <- ->; [congruence|].
    cbn in H2. by rewrite Hp in H2. }
  assert (Hgo : checklistItems m = None -> passive m = true ->
    (exists later m0 items earlier, m :: l = later ++ m0 :: earlier /\ checklistItems m0 = Some items /\ forallb passive later = true /\
      (TODO_REMINDER_AFTER_TOOL_CALLS <= k + toolResults later)%nat /\ existsb (fun i => negb (isCompleted i)) items = true) <->
    reminderDue (if isToolResult m then S k else k) l = true).
  { intros Hc Hp. rewrite IH. split.
    - intros ([|x later] & m0 & items & earlier & E & H1 & H2 & H3 & H4); injection E as <- ->; [congruence|].
      exists later, m0, items, earlier. cbn in H2. apply andb_true_iff in H2 as [_ H2]. split_and!; try done.
      unfold toolResults in *. cbn in H3. destruct (isToolResult m); cbn in H3; lia.
    - intros (later & m0 & items & earlier & -> & H1 & H2 & H3 & H4). exists (m :: later), m0, items, earlier. split_and!; try done.
      + cbn. by rewrite Hp.
      + unfold toolResults in *. cbn. destruct (isToolResult m); cbn; lia. }
  destruct m as [c|t c|c|name err its c]; [|..].
  - split; [done|]. intros H. by destruct (Hstop eq_refl eq_refl).
  - split; [done|]. intros H. by destruct (Hstop eq_refl eq_refl).
  - by rewrite Hgo.
  - destruct (checklistItems (ToolResult name err its c)) as [items|] eqn:Ec.
    + rewrite negb_true_iff, orb_false_iff, Nat.ltb_ge. split.
      * intros [Hk Hf]. exists [], (ToolResult name err its c), items, l. split_and!; [done..|cbn; lia|].
        apply existsb_exists. apply not_true_iff_false in Hf. rewrite forallb_forall in Hf.
        destruct (List.find (fun i => negb (isCompleted i)) items) as [i|] eqn:Ef; [apply find_some in Ef; by exists i|].
        destruct Hf. intros i Hi. destruct (isCompleted i) eqn:Ei; [done|]. pose proof (find_none _ _ Ef i Hi) as H. cbn in H. by rewrite Ei in H.
      * intros ([|x later] & m0 & items' & earlier & E & H1 & H2 & H3 & H4); injection E as <- ->.
        -- rewrite Ec in H1. injection H1 as <-. split; [cbn in H3; lia|]. apply existsb_exists in H4 as (i & Hi & Hn).
           apply not_true_iff_false. rewrite forallb_forall. intros Hall. by rewrite (Hall i Hi) in Hn.
        -- cbn [forallb] in H2. apply andb_true_iff in H2 as [H2 _]. unfold passive in H2. rewrite Ec in H2. cbn in H2. done.
    + rewrite Hgo; [done|done|]. unfold passive. by rewrite Ec.
Qed.

(** The model is reminded exactly when it should be: the context it sees is changed
    only when its newest message is a tool result, the run's last checklist has an
    unfinished item and at least eight tool results came after it with no user or custom
    message in between; and then only the newest tool result changes, by one line added at
    its end. *)
Theorem reminder_is_exact (REMINDER : text) (messages out : list Message) :
  withTodoReminder REMINDER messages = Some out <->
  exists front name err its content,
    messages = front ++ [ToolResult name err its content] /\ out = front ++ [ToolResult name err its (content ++ [REMINDER])] /\
    exists earlier m items later, messages = earlier ++ m :: later /\ checklistItems m = Some items /\ forallb passive later = true /\
      (TODO_REMINDER_AFTER_TOOL_CALLS <= toolResults later)%nat /\ existsb (fun i => negb (isCompleted i)) items = true.
Proof.
  assert (Hrev : reminderDue 0 (reverse messages) = true <->
    exists earlier m items later, messages = earlier ++ m :: later /\ checklistItems m = Some items /\ forallb passive later = true /\
      (TODO_REMINDER_AFTER_TOOL_CALLS <= toolResults later)%nat /\ existsb (fun i => negb (isCompleted i)) items = true).
  { rewrite reminderDue_spec.
    assert (forall l, forallb passive (reverse l) = forallb passive l /\ toolResults (reverse l) = toolResults l) as Hr.
    { intros l. split.
      - apply eq_true_iff_eq. rewrite !forallb_forall. split; intros H x Hx; apply H;
          rewrite <- list_elem_of_In in *; by rewrite ?elem_of_reverse in *.
      - unfold toolResults. unfold reverse. rewrite <- rev_alt, List.filter_rev. apply length_rev. }
    split; intros (a & m & items & b & E & H1 & H2 & H3 & H4); exists (reverse b), m, items, (reverse a).
    - destruct (Hr a) as [-> ->]. split_and!; try done.
      rewrite <- (reverse_involutive messages), E, reverse_app, reverse_cons, <- app_assoc. done.
    - destruct (Hr b) as [-> ->]. split_and!; try done. rewrite E, reverse_app, reverse_cons, <- app_assoc. done. }
  unfold withTodoReminder. split.
  - destruct (last messages) as [[| | |name err its content]|] eqn:El; try done.
    destruct (reminderDue 0 (reverse messages)) eqn:Ed; [|done]. intros [= <-].
    apply last_Some in El as [front ->]. exists front, name, err, its, content. rewrite removelast_last.
    split_and!; [done|done|]. by apply Hrev.
  - intros (front & name & err & its & content & E & -> & H). rewrite (proj2 Hrev H), E, last_snoc, removelast_last. done.
Qed.

(** ** What a closing turn wrote *)

(** The last prompt or user message before a position is a closing prompt. *)
Definition afterPrompt (before : list SessionEntry) : Prop :=
  exists a p b, before = a ++ p :: b /\ isPrompt p = true /\ forall e, e ∈ b -> isUser e = false.

Lemma afterPrompt_snoc before e : afterPrompt (before ++ [e]) <-> isPrompt e = true \/ (isUser e = false /\ afterPrompt before).
Proof.
  split.
  - intros (a & p & b & E & Hp & Hb). destruct b as [|x b _] using rev_ind.
    + apply app_inj_tail in E as [_ ->]. by left.
    + rewrite app_comm_cons, app_assoc in E. apply app_inj_tail in E as [-> ->]. right. split; [apply Hb; set_solver|].
      exists a, p, b. split_and!; try done. intros y Hy. apply Hb. set_solver.
  - intros [Hp|[Hu (a & p & b & -> & Hp & Hb)]].
    + exists before, e, []. split_and!; try done. by intros y ?%not_elem_of_nil.
    + exists a, p, (b ++ [e]). split_and!; [by rewrite <- app_assoc|done|].
      intros y [Hy|Hy]%elem_of_app; [by apply Hb|by apply list_elem_of_singleton in Hy as ->].
Qed.

Lemma positionsFrom_spec entries before inside i : (inside = true <-> afterPrompt before) ->
  i ∈ positionsFrom inside (length before) entries <->
  exists e pre, (length before <= i)%nat /\ take i (before ++ entries) = before ++ pre /\ (before ++ entries) !! i = Some e /\
    isPrompt e = false /\ isUser e = false /\ afterPrompt (before ++ pre).
Proof.
  revert before inside. induction entries as [|e rest IH]; intros before inside Hin; cbn [positionsFrom].
  { split; [by intros ?%not_elem_of_nil|]. intros (e & pre & Hi & _ & He & _). rewrite app_nil_r in He.
    apply lookup_lt_Some in He. lia. }
  assert (Hassoc : before ++ e :: rest = (before ++ [e]) ++ rest) by (by rewrite <- app_assoc).
  assert (Hlen : S (length before) = length (before ++ [e])) by (rewrite length_app; cbn; lia).
  (* positions after the first entry *)
  assert (Hnext : forall inside', (inside' = true <-> afterPrompt (before ++ [e])) ->
    i ∈ positionsFrom inside' (S (length before)) rest <->
    exists e' pre, (length before < i)%nat /\ take i (before ++ e :: rest) = before ++ pre /\ (before ++ e :: rest) !! i = Some e' /\
      isPrompt e' = false /\ isUser e' = false /\ afterPrompt (before ++ pre)).
  { intros inside' H'. rewrite Hlen, (IH (before ++ [e]) inside' H'), Hassoc. split.
    - intros (e' & pre & Hi & Ht & He & Hp & Hu & Ha). rewrite length_app in Hi. cbn in Hi. rewrite <- (app_assoc before [e] pre) in Ht, Ha.
      exists e', ([e] ++ pre). split_and!; try done. lia.
    - intros (e' & pre & Hi & Ht & He & Hp & Hu & Ha). destruct pre as [|x pre].
      { exfalso. apply (f_equal length) in Ht. rewrite length_take, !length_app in Ht. cbn in Ht. lia. }
      assert (x = e) as ->.
      { assert (take i ((before ++ [e]) ++ rest) !! length before = Some x) as Hx.
        { rewrite Ht, lookup_app_r by lia. by rewrite Nat.sub_diag. }
        rewrite lookup_take_lt in Hx by lia. rewrite <- app_assoc, lookup_app_r in Hx by lia. rewrite Nat.sub_diag in Hx. by injection Hx. }
      exists e', pre. rewrite length_app. cbn. split_and!; try done; [lia|rewrite Ht|]; by rewrite <- (app_assoc before [e] pre). }
  assert (Hhere : (exists e' pre, (length before <= i)%nat /\ take i (before ++ e :: rest) = before ++ pre /\
      (before ++ e :: rest) !! i = Some e' /\ isPrompt e' = false /\ isUser e' = false /\ afterPrompt (before ++ pre)) <->
    (i = length before /\ isPrompt e = false /\ isUser e = false /\ afterPrompt before) \/
    (exists e' pre, (length before < i)%nat /\ take i (before ++ e :: rest) = before ++ pre /\ (before ++ e :: rest) !! i = Some e' /\
      isPrompt e' = false /\ isUser e' = false /\ afterPrompt (before ++ pre))).
  { split.
    - intros (e' & pre & Hi & Ht & He & Hp & Hu & Ha). destruct (decide (i = length before)) as [->|]; [left|right; exists e', pre; split_and!; try done; lia].
      rewrite lookup_app_r in He by lia. rewrite Nat.sub_diag in He. injection He as ->.
      rewrite take_app_length in Ht. rewrite <- Ht in Ha. done.
    - intros [(-> & Hp & Hu & Ha)|(e' & pre & Hi & H)]; [|exists e', pre; split; [lia|done]].
      exists e, []. rewrite app_nil_r, take_app_length. split_and!; try done. rewrite lookup_app_r by lia. by rewrite Nat.sub_diag. }
  rewrite Hhere. destruct (isPrompt e) eqn:Ep; [|destruct (isUser e) eqn:Eu; [|destruct inside]].
  - rewrite Hnext by (rewrite afterPrompt_snoc; tauto). naive_solver.
  - rewrite Hnext by (rewrite afterPrompt_snoc; split; [done|intros [?|[? _]]; congruence]). naive_solver.
  - rewrite elem_of_cons, Hnext by (rewrite afterPrompt_snoc; tauto). split.
    + intros [->|H]; [left|by right]. split_and!; try done. by apply Hin.
    + intros [(-> & _)|H]; [by left|by right].
  - rewrite Hnext by (rewrite afterPrompt_snoc; split; [done|intros [?|[_ ?%Hin]]; congruence]). split; [by right|].
    intros [(_ & _ & _ & H%Hin)|H]; [done|done].
Qed.

(** The entries attributed to a closing turn are exactly those written between its
    prompt and the next user message: a position is listed when its entry is neither a
    closing prompt nor a user message and the last such entry before it is a prompt. *)
Theorem reconcile_positions_are_exact (entries : list SessionEntry) (i : nat) :
  i ∈ reconcileEntryPositions entries <->
  exists e, entries !! i = Some e /\ isPrompt e = false /\ isUser e = false /\ afterPrompt (take i entries).
Proof.
  unfold reconcileEntryPositions. rewrite (positionsFrom_spec entries [] false i).
  - cbn [app]. split.
    + intros (e & pre & _ & Ht & He & Hp & Hu & Ha). exists e. by rewrite Ht.
    + intros (e & He & Hp & Hu & Ha). exists e, (take i entries). split_and!; try done. cbn. lia.
  - split; [done|]. intros (a & p & b & E & _). by destruct a.
Qed.
