(* ===== verification/Groups.v ===== *)
(** Group configuration (groups/orchestration.ts): orchestration rules, references to
    members in a rule, and the checks on custom and free groups.  Texts are code units. *)

From S2P Require Import Prelude Regex Redaction.
Local Open Scope Z_scope.

Inductive GroupOrchestration : Type := Auto | Custom (prompt : text).
Inductive group_error : Type := GroupConfigurationError (code : string).

Definition isText (v : option json) (s : string) : bool := match v with Some (JStr t) => bool_decide (t = u s) | _ => false end.
Definition onlyKeys (l : list (text * json)) (ks : list string) : bool := forallb (fun f => bool_decide (f.1 ∈ u <$> ks)) l.

Definition invalidOrchestration : group_error := GroupConfigurationError "invalid_group_orchestration".

Definition parseOrchestration (value : json) : result group_error GroupOrchestration :=
  match value with
  | JObj l =>
      if isText (field "mode" l) "auto" && onlyKeys l ["mode"%string] then Ok Auto
      else if isText (field "mode" l) "custom" && isText (field "format" l) "collaboration-markdown-v1"
              && onlyKeys l ["mode"; "format"; "prompt"]%string
      then match field "prompt" l with
           | Some (JStr p) => if negb (blank p) && (tlen p <=? 16000) then Ok (Custom (trim p)) else Err invalidOrchestration
           | _ => Err invalidOrchestration
           end
      else Err invalidOrchestration
  | _ => Err invalidOrchestration
  end.

(** ** References: [/@\{([^{}\s]+)\}/gu] *)

Definition AT : Z := 64.
Definition OPEN : Z := 123.
Definition CLOSE : Z := 125.
(** [[^{}\s]]. *)
Definition plain (c : Z) : bool := negb ((c =? OPEN) || (c =? CLOSE) || is_space c).

Fixpoint span (p : Z -> bool) (s : text) : text * text :=
  match s with
  | c :: s' => if p c then let '(a, b) := span p s' in (c :: a, b) else ([], s)
  | [] => ([], [])
  end.

(** A reference at the start of the text: its identifier and the rest. *)
Definition reference (s : text) : option (text * text) :=
  match s with
  | a :: o :: s' =>
      if (a =? AT) && (o =? OPEN) then
        match span plain s' with
        | (id, c :: rest) => if negb (bool_decide (id = [])) && (c =? CLOSE) then Some (id, rest) else None
        | _ => None
        end
      else None
  | _ => None
  end.

(** The scan of [replace]: every reference is checked and dropped. *)
Fixpoint dropReferences (fuel : nat) (ids : list text) (s : text) : result group_error text :=
  match fuel with
  | O => Ok s
  | S fuel =>
      match reference s with
      | Some (id, rest) =>
          if bool_decide (id ∈ ids) then dropReferences fuel ids rest
          else Err (GroupConfigurationError "invalid_orchestration_reference")
      | None => match s with
                | [] => Ok []
                | c :: s' => r ← dropReferences fuel ids s'; Ok (c :: r)
                end
      end
  end.

Fixpoint includesOpen (s : text) : bool :=
  match s with
  | a :: s' => match s' with o :: _ => ((a =? AT) && (o =? OPEN)) || includesOpen s' | [] => false end
  | [] => false
  end.

Definition validateMemberReferences (prompt : text) (members : list text) : result group_error unit :=
  remainder ← dropReferences (S (length prompt)) members prompt;
  require (negb (includesOpen remainder)) (GroupConfigurationError "invalid_orchestration_reference").

(** ** Groups *)

Record CustomGroup : Type := mkCustom {
  g_title : text; g_description : option text; g_members : list text; g_coordinator : text; g_orchestration : json;
}.

Definition descriptionLength (d : option text) : Z := nullish (tlen <$> d) 0.

Definition validateCustomGroup (g : CustomGroup) : result group_error GroupOrchestration :=
  _ ← require (negb (blank (g_title g)) && (tlen (g_title g) <=? 200) && (descriptionLength (g_description g) <=? 4000))
        (GroupConfigurationError "invalid_group_configuration");
  let members := g_members g in
  let n := Z.of_nat (length members) in
  _ ← require ((1 <=? n) && (n <=? 32) && forallb (fun id => negb (blank id) && forallb plain id) members && bool_decide (NoDup members))
        (GroupConfigurationError "invalid_group_members");
  _ ← require (bool_decide (g_coordinator g ∈ members)) (GroupConfigurationError "invalid_group_coordinator");
  orchestration ← parseOrchestration (g_orchestration g);
  match orchestration with
  | Auto => _ ← require (match g_description g with Some d => negb (blank d) | None => false end) invalidOrchestration; Ok orchestration
  | Custom prompt => _ ← validateMemberReferences prompt members; Ok orchestration
  end.

Definition validateFreeGroup (description : option text) (members : list text) (coordinator : text) (previousMemberCount : Z)
    : result group_error unit :=
  _ ← require (descriptionLength description <=? 4000) (GroupConfigurationError "invalid_group_configuration");
  let limit := Z.max 32 previousMemberCount in
  let n := Z.of_nat (length members) in
  _ ← require ((1 <=? n) && (n <=? limit) && forallb (fun id => negb (blank id)) members && bool_decide (NoDup members))
        (GroupConfigurationError "invalid_group_members");
  require (bool_decide (coordinator ∈ members)) (GroupConfigurationError "invalid_group_coordinator").

(** ** Every reference is checked *)

(** The text of a reference. *)
Definition referenceText (id : text) : text := [AT; OPEN] ++ id ++ [CLOSE].
Definition isId (id : text) : Prop := id <> [] /\ forallb plain id = true.

Lemma span_spec p s : let '(a, b) := span p s in s = a ++ b /\ forallb p a = true /\ match b with c :: _ => p c = false | [] => True end.
Proof.
  induction s as [|c s IH]; cbn; [done|]. destruct (p c) eqn:E; [|done].
  destruct (span p s) as [a b]. destruct IH as (-> & Ha & Hb). cbn. by rewrite E.
Qed.

Lemma span_app p a c b : forallb p a = true -> p c = false -> span p (a ++ c :: b) = (a, c :: b).
Proof.
  intros Ha Hc. induction a as [|x a IH]; cbn; [by rewrite Hc|]. cbn in Ha. apply andb_true_iff in Ha as [-> Ha].
  by rewrite (IH Ha).
Qed.

Lemma reference_spec s id rest : reference s = Some (id, rest) <-> s = referenceText id ++ rest /\ isId id.
Proof.
  unfold reference, referenceText, isId. split.
  - destruct s as [|a [|o s]]; try done. destruct ((a =? AT) && (o =? OPEN)) eqn:E; [|done].
    apply andb_true_iff in E as [->%Z.eqb_eq ->%Z.eqb_eq]. pose proof (span_spec plain s) as H.
    destruct (span plain s) as [x [|c b]]; [done|]. destruct H as (-> & Ha & _).
    destruct (negb (bool_decide (x = [])) && (c =? CLOSE)) eqn:E; [|done]. intros [= <- <-].
    apply andb_true_iff in E as [Hn%negb_true_iff%bool_decide_eq_false ->%Z.eqb_eq].
    split; [|done]. cbn. by rewrite <- app_assoc.
  - intros [-> [Hn Hp]]. cbn. rewrite <- app_assoc. cbn [app]. rewrite span_app by done.
    by rewrite (bool_decide_eq_false_2 _ Hn).
Qed.

(** A reference further on is not inside one that starts here. *)
Lemma reference_disjoint c s id rest a id' b : reference (c :: s) = Some (id, rest) -> isId id' ->
  c :: s = c :: a ++ referenceText id' ++ b -> exists a', rest = a' ++ referenceText id' ++ b.
Proof.
  intros [E [Hn Hp]]%reference_spec Hid' E'. rewrite E in E'. unfold referenceText in E' at 1. cbn in E'. injection E' as <- E'.
  (* skip the opening brace and the identifier *)
  assert (Hin : forall x a, forallb plain x = true -> (x ++ [CLOSE]) ++ rest = a ++ referenceText id' ++ b ->
    exists a', rest = a' ++ referenceText id' ++ b).
  { clear -Hid'. induction x as [|y x IH]; intros a Hx Hx'; cbn in Hx'.
    - destruct a as [|z a]; cbn in Hx'; injection Hx'; [done|]. intros -> _. by exists a.
    - cbn in Hx. apply andb_true_iff in Hx as [Hy Hx]. destruct a as [|z a]; cbn in Hx'.
      + injection Hx' as -> Hx'. destruct x as [|y' x]; cbn in Hx'; [done|]. injection Hx' as -> _. cbn in Hx. done.
      + injection Hx' as -> Hx'. by apply (IH a). }
  destruct a as [|z a]; cbn in E'; [done|]. injection E' as <- E'. by apply (Hin id a).
Qed.

Lemma dropReferences_checks fuel ids s r a id b : (length s < fuel)%nat -> dropReferences fuel ids s = Ok r -> isId id ->
  s = a ++ referenceText id ++ b -> id ∈ ids.
Proof.
  revert s r a. induction fuel as [|fuel IH]; intros s r a Hf H Hid E; [lia|]. cbn [dropReferences] in H.
  destruct (reference s) as [[id' rest]|] eqn:Er.
  - destruct (bool_decide (id' ∈ ids)) eqn:Hin; [|done]. apply bool_decide_eq_true in Hin.
    destruct a as [|c a].
    + assert (reference s = Some (id, b)) as Er' by (by apply reference_spec). congruence.
    + destruct s as [|c' s]; [done|]. injection E as -> ->.
      destruct (reference_disjoint _ _ _ _ a id b Er Hid eq_refl) as [a' Ha'].
      apply (IH rest r a'); [|done|done|done].
      apply reference_spec in Er as [Er _]. apply (f_equal length) in Er. unfold referenceText in Er. rewrite !length_app in Er. cbn in *. 
      rewrite !length_app in *. cbn in *. lia.
  - destruct s as [|c s]; [by destruct a|]. apply bind_Ok in H as (r' & H & _).
    destruct a as [|c' a].
    + assert (reference (c :: s) = Some (id, b)) as Er' by (by apply reference_spec). congruence.
    + injection E as -> E. apply (IH s r' a); [cbn in Hf; lia|done|done|done].
Qed.

(** A custom group that passes the checks is consistent: between one and thirty-two
    distinct members, each usable in a reference, with the coordinator among them; an
    automatic rule comes with a description; and in a written rule of at most 16000 units
    every reference to an employee, wherever it stands, is to a member of the group. *)
Theorem custom_group_is_consistent (g : CustomGroup) (o : GroupOrchestration) :
  validateCustomGroup g = Ok o ->
  (1 <= length (g_members g) <= 32)%nat /\ NoDup (g_members g) /\ (forall id, id ∈ g_members g -> isId id) /\
  g_coordinator g ∈ g_members g /\
  match o with
  | Auto => exists d, g_description g = Some d /\ blank d = false
  | Custom prompt => tlen prompt <= 16000 /\
      forall a id b, isId id -> prompt = a ++ referenceText id ++ b -> id ∈ g_members g
  end.
Proof.
  unfold validateCustomGroup. intros (u1 & _ & H)%bind_Ok. apply bind_Ok in H as (u2 & H2%require_Ok & H).
  apply bind_Ok in H as (u3 & H3%require_Ok%bool_decide_eq_true & H). apply bind_Ok in H as (o' & Ho & H).
  rewrite !andb_true_iff, !Z.leb_le, forallb_forall in H2. destruct H2 as [[[H21 H22] H23] H24%bool_decide_eq_true].
  split_and!; [lia|lia|done| |done|].
  - intros id Hid. apply list_elem_of_In, H23, andb_true_iff in Hid as [Hb Hp]. split; [|done]. by intros ->.
  - destruct o' as [|p]; apply bind_Ok in H as (u4 & H4 & [= <-]).
    + apply require_Ok in H4. destruct (g_description g) as [d|]; [|done]. exists d. by apply negb_true_iff in H4.
    + split.
      * unfold parseOrchestration in Ho. destruct (g_orchestration g) as [| | | | | |l]; try done.
        destruct (_ && _); [done|]. destruct (_ && _ && _); [|done]. destruct (field "prompt" l) as [[]|]; try done.
        destruct (negb (blank s) && (tlen s <=? 16000)) eqn:E; [|done]. injection Ho as <-.
        apply andb_true_iff in E as [_ E%Z.leb_le]. pose proof (trim_length s) as Ht. unfold tlen in *. lia.
      * intros a id b Hid ->. unfold validateMemberReferences in H4. apply bind_Ok in H4 as (r & Hr & _).
        by eapply (dropReferences_checks _ (g_members g)); [|exact Hr|exact Hid|reflexivity]; lia.
Qed.

Definition demoGroup : CustomGroup :=
  mkCustom (u "Team") None [u "ann"; u "bob"] (u "ann")
    (JObj [(u "mode", JStr (u "custom")); (u "format", JStr (u "collaboration-markdown-v1")); (u "prompt", JStr (u " @{ann} then @{bob} "))]).

Lemma custom_group_is_consistent_witness :
  g_coordinator demoGroup ∈ g_members demoGroup /\
  (forall a id b, isId id -> u "@{ann} then @{bob}" = a ++ referenceText id ++ b -> id ∈ g_members demoGroup).
Proof.
  assert (validateCustomGroup demoGroup = Ok (Custom (u "@{ann} then @{bob}"))) as E by (vm_compute; reflexivity).
  destruct (custom_group_is_consistent demoGroup _ E) as (_ & _ & _ & Hc & _ & Hr). exact (conj Hc Hr).
Defined.

(** A reference to somebody else is refused, and so is a malformed one. *)
Example outsider_is_refused : validateMemberReferences (u "ask @{eve}") [u "ann"] = Err (GroupConfigurationError "invalid_orchestration_reference").
Proof. vm_compute. reflexivity. Qed.
Example nested_is_refused : validateMemberReferences (u "@@{ann}{ann}") [u "ann"] = Err (GroupConfigurationError "invalid_orchestration_reference").
Proof. vm_compute. reflexivity. Qed.
