(* ===== verification/Projections.v ===== *)
(** Employee, solution and snapshot projections (storage/sqlite.ts, tables
    [loaded_employee_projection], [loaded_solution_projection] and [frozen_snapshot]):
    what a sync from the Manager stores, what the store lists, and the avatar metadata the
    Agent keeps for itself.

    A [projection_json] column holds the value its text encodes, [None] when the text is not
    JSON.  Objects are lists of members; the order of members is not observed. *)

From S2P Require Import Prelude Decimal Sql.
Local Open Scope Z_scope.

(** ** Values *)

Inductive json : Type :=
| JNull
| JBool (b : bool)
| JInt (z : Z)
| JFrac (printed : string) (* a number that is not an integer *)
| JStr (s : string)
| JArr (l : list json)
| JObj (l : list (string * json)).

Notation fields := (list (string * json)).

(** [{ ...v }] of a parsed value: arrays and strings spread their indices. *)
Definition spread (v : json) : fields :=
  match v with
  | JObj l => l
  | JArr l => imap (fun i x => (pretty i, x)) l
  | JStr s => imap (fun i c => (pretty i, JStr (String c EmptyString))) (String.list_ascii_of_string s)
  | _ => []
  end.

(** [typeof v === "string"], with the string. *)
Definition asStr (v : option json) : option string := match v with Some (JStr s) => Some s | _ => None end.
(** [Number.isInteger(v)], with the integer. *)
Definition asInt (v : option json) : option Z := match v with Some (JInt z) => Some z | _ => None end.
Definition nonEmpty (s : option string) : option string := s ≫= fun s => if String.eqb s "" then None else Some s.
(** A member assigned from a value that may be [undefined], which JSON drops. *)
Definition assign (k : string) (v : option json) (o : fields) : fields :=
  match v with Some v => mset k v o | None => mdelete k o end.

(** ** Avatar metadata *)

Definition LOCAL_AVATAR_PATH_FIELD : string := "local_avatar_path".
Definition LOCAL_AVATAR_MIME_FIELD : string := "local_avatar_mime_type".
Definition LOCAL_AVATAR_VERSION_FIELD : string := "local_avatar_version".
Definition LOCAL_AVATAR_URL_FIELD : string := "local_avatar_url".
Definition AVATAR_SOURCE_FIELD : string := "avatar_source".
Definition LOCAL_FIELDS : list string :=
  [LOCAL_AVATAR_PATH_FIELD; LOCAL_AVATAR_MIME_FIELD; LOCAL_AVATAR_VERSION_FIELD; LOCAL_AVATAR_URL_FIELD].

Definition avatarSyncVersion (value : fields) : string :=
  match nonEmpty (asStr (mget "avatar_sync_version" value)) with
  | Some s => s
  | None =>
      match nonEmpty (asStr (mget "version" value)) with
      | Some s => (s +:+ ":avatar-" +:+ pretty (nullish (asInt (mget "avatar_version" value)) 0))%string
      | None => ""%string
      end
  end.

(** [typeof v === "string" || v === null ? v : null]. *)
Definition urlOf (v : option json) : json := match v with Some (JStr s) => JStr s | _ => JNull end.

Definition existingOf (existingJson : option (option json)) : fields :=
  match existingJson with Some (Some (JObj l)) => l | _ => [] end.

Definition managerAvatarUrl (existing incoming : fields) : json :=
  match mget "avatar_url" incoming with
  | Some v => urlOf (Some v)
  | None => urlOf (mget "manager_avatar_url" existing)
  end.
Definition managerAvatarVersion (existing incoming : fields) : Z :=
  match asInt (mget "avatar_version" incoming) with
  | Some z => z
  | None => nullish (asInt (mget "manager_avatar_version" existing)) 0
  end.
Definition managerSyncVersion (existing incoming : fields) : string :=
  let s := avatarSyncVersion incoming in if String.eqb s "" then avatarSyncVersion existing else s.

(** The path and the URL of a local override. *)
Definition localOverride (existing : fields) : option (string * string) :=
  match nonEmpty (asStr (mget LOCAL_AVATAR_PATH_FIELD existing)), nonEmpty (asStr (mget LOCAL_AVATAR_URL_FIELD existing)) with
  | Some path, Some url =>
      if bool_decide (asStr (mget AVATAR_SOURCE_FIELD existing) = Some "local"%string) then Some (path, url) else None
  | _, _ => None
  end.

Definition deleteLocal (o : fields) : fields :=
  mdelete LOCAL_AVATAR_URL_FIELD (mdelete LOCAL_AVATAR_VERSION_FIELD (mdelete LOCAL_AVATAR_MIME_FIELD (mdelete LOCAL_AVATAR_PATH_FIELD o))).

Definition mergeAvatarProjection (existingJson : option (option json)) (incoming : fields) : fields :=
  let existing := existingOf existingJson in
  let url := managerAvatarUrl existing incoming in
  let merged := mset "avatar_sync_version" (JStr (managerSyncVersion existing incoming))
               (mset "manager_avatar_version" (JInt (managerAvatarVersion existing incoming))
               (mset "manager_avatar_url" url incoming)) in
  let merged := deleteLocal merged in
  match localOverride existing with
  | Some (path, localUrl) =>
      let merged := mset "avatar_url" (JStr localUrl) merged in
      let merged := mset AVATAR_SOURCE_FIELD (JStr "local") merged in
      let merged := mset LOCAL_AVATAR_PATH_FIELD (JStr path) merged in
      let merged := mset LOCAL_AVATAR_URL_FIELD (JStr localUrl) merged in
      let merged := assign LOCAL_AVATAR_MIME_FIELD (mget LOCAL_AVATAR_MIME_FIELD existing) merged in
      assign LOCAL_AVATAR_VERSION_FIELD (mget LOCAL_AVATAR_VERSION_FIELD existing) merged
  | None =>
      mset AVATAR_SOURCE_FIELD (JStr (match url with JStr s => if String.eqb s "" then "template" else "manager" | _ => "template" end)) merged
  end.

Definition publicAvatarProjection (value : fields) : fields := deleteLocal value.

(** ** Tables *)

Record ExpertRow : Type := mkExpertRow {
  ex_employee_id : string; ex_tenant_id : string; ex_member_id : string; ex_version : string;
  ex_projection : option json; ex_revoked : bool; ex_synced_at : string;
}.
Record SolutionRow : Type := mkSolutionRow {
  so_instance_id : string; so_tenant_id : string; so_member_id : string; so_version : string;
  so_projection : option json; so_synced_at : string;
}.
Record SnapshotRow : Type := mkSnapshotRow {
  sn_employee_id : string; sn_tenant_id : string; sn_member_id : string; sn_snapshot_version : string;
  sn_version : string; sn_projection : option json; sn_synced_at : string;
}.
Record ProjectionDb : Type := mkProjections { experts : list ExpertRow; solutions : list SolutionRow; snapshots : list SnapshotRow }.

Inductive projection_error : Type := SyntaxError.

(** ** What a sync brings: the typed members and the rest of each object *)

Record Expert : Type := mkExpert {
  e_employee_id : string; e_tenant_id : string; e_member_id : option string; e_version : string;
  e_synced_at : option string; e_rest : fields;
}.
Record Solution : Type := mkSolution {
  s_instance_id : string; s_tenant_id : option string; s_member_id : option string; s_version : string; s_rest : fields;
}.
Record Snapshot : Type := mkSnapshot {
  p_employee_id : string; p_tenant_id : option string; p_member_id : option string; p_version : string;
  p_snapshot_version : string; p_rest : fields;
}.

Definition jstr (s : option string) : option json := JStr <$> s.
Definition expertFields (e : Expert) : fields :=
  mset "employee_id" (JStr (e_employee_id e)) (mset "tenant_id" (JStr (e_tenant_id e))
   (assign "member_id" (jstr (e_member_id e)) (mset "version" (JStr (e_version e)) (assign "synced_at" (jstr (e_synced_at e)) (e_rest e))))).
Definition solutionFields (s : Solution) : fields :=
  mset "solution_instance_id" (JStr (s_instance_id s)) (assign "tenant_id" (jstr (s_tenant_id s))
   (assign "member_id" (jstr (s_member_id s)) (mset "version" (JStr (s_version s)) (s_rest s)))).
Definition snapshotFields (p : Snapshot) : fields :=
  mset "employee_id" (JStr (p_employee_id p)) (assign "tenant_id" (jstr (p_tenant_id p))
   (assign "member_id" (jstr (p_member_id p)) (mset "version" (JStr (p_version p))
    (mset "snapshot_version" (JStr (p_snapshot_version p)) (p_rest p))))).

(** [...(v ? { k: v } : {})]. *)
Definition withNonEmpty (k : string) (v : option string) (o : fields) : fields :=
  match nonEmpty v with Some s => mset k (JStr s) o | None => o end.

(** ** Reading *)

Definition nullOr (x : option string) (p : string -> bool) : bool := match x with None => true | Some v => p v end.
Definition in_scope (tenantId memberId : option string) (t m : string) : bool :=
  nullOr tenantId (fun v => String.eqb t v) && nullOr memberId (fun v => String.eqb m "" || String.eqb m v).

Definition listLoadedExperts (db : ProjectionDb) (tenantId memberId : option string) (includeRevoked : bool)
    : result projection_error (list fields) :=
  mapM_result (fun r =>
      match ex_projection r with
      | None => Err SyntaxError
      | Some v =>
          let projection := publicAvatarProjection (spread v) in
          let o := withNonEmpty "member_id" (Some (ex_member_id r)) (mset "tenant_id" (JStr (ex_tenant_id r)) projection) in
          Ok (mset "revoked" (JBool (ex_revoked r || match mget "revoked" projection with Some (JBool true) => true | _ => false end)) o)
      end)
    (order_by (fun a b => String.leb (ex_employee_id a) (ex_employee_id b))
      (sql_select (fun r => (includeRevoked || negb (ex_revoked r)) && in_scope tenantId memberId (ex_tenant_id r) (ex_member_id r)) (experts db))).

(** The filters of [listSnapshots] and [listSolutions] also admit rows without a tenant. *)
Definition in_loose_scope (tenantId memberId : option string) (t m : string) : bool :=
  nullOr tenantId (fun v => String.eqb t "" || String.eqb t v) && nullOr memberId (fun v => String.eqb m "" || String.eqb m v).

Definition listSnapshots (db : ProjectionDb) (tenantId memberId : option string) : result projection_error (list fields) :=
  mapM_result (fun r =>
      match sn_projection r with
      | None => Err SyntaxError
      | Some v => Ok (withNonEmpty "member_id" (Some (sn_member_id r)) (withNonEmpty "tenant_id" (Some (sn_tenant_id r)) (publicAvatarProjection (spread v))))
      end)
    (order_by (fun a b => String.leb (sn_employee_id a) (sn_employee_id b))
      (sql_select (fun r => in_loose_scope tenantId memberId (sn_tenant_id r) (sn_member_id r)) (snapshots db))).

Definition listSolutions (db : ProjectionDb) (tenantId memberId : option string) : result projection_error (list fields) :=
  mapM_result (fun r =>
      match so_projection r with
      | None => Err SyntaxError
      | Some v => Ok (withNonEmpty "member_id" (Some (so_member_id r)) (withNonEmpty "tenant_id" (Some (so_tenant_id r)) (spread v)))
      end)
    (order_by (fun a b => String.leb (so_instance_id a) (so_instance_id b))
      (sql_select (fun r => in_loose_scope tenantId memberId (so_tenant_id r) (so_member_id r)) (solutions db))).

(** ** A sync from the Manager ([replaceProjections]) *)

Record Owner : Type := mkOwner { o_tenantId : string; o_memberId : string }.

Definition is_expert (i t m : string) (r : ExpertRow) : bool :=
  String.eqb (ex_employee_id r) i && String.eqb (ex_tenant_id r) t && String.eqb (ex_member_id r) m.
Definition is_solution (i t m : string) (r : SolutionRow) : bool :=
  String.eqb (so_instance_id r) i && String.eqb (so_tenant_id r) t && String.eqb (so_member_id r) m.
Definition is_snapshot (i t m : string) (r : SnapshotRow) : bool :=
  String.eqb (sn_employee_id r) i && String.eqb (sn_tenant_id r) t && String.eqb (sn_member_id r) m.

(** The distinct elements, in order of first occurrence: [new Set(l)]. *)
Fixpoint distinct (seen : list string) (l : list string) : list string :=
  match l with
  | [] => []
  | x :: l => if bool_decide (x ∈ seen) then distinct seen l else x :: distinct (x :: seen) l
  end.

Definition removeLegacy (tenantId : string) (db : ProjectionDb) (employeeId : string) : ProjectionDb :=
  mkProjections (sql_delete (is_expert employeeId tenantId "") (experts db)) (solutions db)
    (sql_delete (is_snapshot employeeId tenantId "") (snapshots db)).

Definition superseded (o : Owner) (es : list Expert) (revokedIds : list string) : list string :=
  distinct [] ((e_employee_id <$> List.filter (fun e => String.eqb (e_tenant_id e) (o_tenantId o) && bool_decide (e_member_id e = Some (o_memberId o))) es)
               ++ revokedIds).

Definition upsertExpert (now : string) (db : ProjectionDb) (e : Expert) : ProjectionDb :=
  let memberId := nullish (e_member_id e) "" in
  let clash := is_expert (e_employee_id e) (e_tenant_id e) memberId in
  let previous := sql_get clash (experts db) in
  let incoming := mset "revoked" (JBool false) (mset "synced_at" (JStr (nullish (e_synced_at e) now))
                   (withNonEmpty "member_id" (e_member_id e) (mset "tenant_id" (JStr (e_tenant_id e)) (expertFields e)))) in
  let projection := Some (JObj (mergeAvatarProjection (ex_projection <$> previous) incoming)) in
  mkProjections
    (sql_upsert clash
       (fun r => mkExpertRow (ex_employee_id r) (ex_tenant_id r) (ex_member_id r) (e_version e) projection false now)
       (mkExpertRow (e_employee_id e) (e_tenant_id e) memberId (e_version e) projection false now) (experts db))
    (solutions db) (snapshots db).

Definition upsertSolution (now : string) (db : ProjectionDb) (s : Solution) : ProjectionDb :=
  let tenantId := nullish (s_tenant_id s) "" in
  let memberId := nullish (s_member_id s) "" in
  let clash := is_solution (s_instance_id s) tenantId memberId in
  let projection := Some (JObj (withNonEmpty "member_id" (s_member_id s) (withNonEmpty "tenant_id" (s_tenant_id s) (solutionFields s)))) in
  mkProjections (experts db)
    (sql_upsert clash
       (fun r => mkSolutionRow (so_instance_id r) (so_tenant_id r) (so_member_id r) (s_version s) projection now)
       (mkSolutionRow (s_instance_id s) tenantId memberId (s_version s) projection now) (solutions db))
    (snapshots db).

Definition upsertSnapshot (now : string) (db : ProjectionDb) (p : Snapshot) : ProjectionDb :=
  let tenantId := nullish (p_tenant_id p) "" in
  let memberId := nullish (p_member_id p) "" in
  let clash := is_snapshot (p_employee_id p) tenantId memberId in
  let previous := sn_projection <$> sql_get clash (snapshots db) in
  let previousExpert := ex_projection <$> sql_get (is_expert (p_employee_id p) tenantId memberId) (experts db) in
  let incoming := withNonEmpty "member_id" (p_member_id p) (withNonEmpty "tenant_id" (p_tenant_id p) (snapshotFields p)) in
  let projection := Some (JObj (mergeAvatarProjection (match previous with Some x => Some x | None => previousExpert end) incoming)) in
  mkProjections (experts db) (solutions db)
    (sql_upsert clash
       (fun r => mkSnapshotRow (sn_employee_id r) (sn_tenant_id r) (sn_member_id r) (p_snapshot_version p) (p_version p) projection now)
       (mkSnapshotRow (p_employee_id p) tenantId memberId (p_snapshot_version p) (p_version p) projection now) (snapshots db)).

Definition set_revoked (now : string) (r : ExpertRow) : ExpertRow :=
  mkExpertRow (ex_employee_id r) (ex_tenant_id r) (ex_member_id r) (ex_version r) (ex_projection r) true now.

(** The rows a revocation reaches: the owner's and the member-less ones, or every row. *)
Definition reaches (owner : option Owner) (t m : string) : bool :=
  match owner with
  | Some o => String.eqb t (o_tenantId o) && (String.eqb m (o_memberId o) || String.eqb m "")
  | None => true
  end.

Definition revokeId (owner : option Owner) (now : string) (db : ProjectionDb) (i : string) : ProjectionDb :=
  mkProjections
    (sql_update (fun r => String.eqb (ex_employee_id r) i && reaches owner (ex_tenant_id r) (ex_member_id r)) (set_revoked now) (experts db))
    (sql_delete (fun r => String.eqb (so_instance_id r) i && reaches owner (so_tenant_id r) (so_member_id r)) (solutions db))
    (sql_delete (fun r => String.eqb (sn_employee_id r) i && reaches owner (sn_tenant_id r) (sn_member_id r)) (snapshots db)).

Definition replaceProjectionRows (db : ProjectionDb) (es : list Expert) (ss : list Solution) (ps : list Snapshot)
    (revokedIds : list string) (owner : option Owner) (now : string) : ProjectionDb * (nat * nat) :=
  let db := match owner with
            | Some o => fold_left (removeLegacy (o_tenantId o)) (superseded o es revokedIds) db
            | None => db
            end in
  let db := fold_left (upsertExpert now) es db in
  let db := fold_left (upsertSolution now) ss db in
  let db := fold_left (upsertSnapshot now) ps db in
  let db := fold_left (revokeId owner now) revokedIds db in
  (db, (length es + length ss + length ps, length revokedIds)%nat).

(** No statement of the transaction can fail on typed rows, so the [ROLLBACK] is never taken. *)
Definition replaceProjections (db : ProjectionDb) (es : list Expert) (ss : list Solution) (ps : list Snapshot)
    (revokedIds : list string) (owner : option Owner) (now : string) : ProjectionDb * (nat * nat) :=
  replaceProjectionRows db es ss ps revokedIds owner now.

(** ** Members of a merged projection *)

Lemma mget_assign k k' v o : mget k (assign k' v o) = if String.eqb k k' then v else mget k o.
Proof. destruct v; cbn [assign]; by rewrite ?mget_mset, ?mget_mdelete. Qed.

Lemma mget_withNonEmpty k k' v o : mget k (withNonEmpty k' v o) =
  match nonEmpty v with Some s => if String.eqb k k' then Some (JStr s) else mget k o | None => mget k o end.
Proof. unfold withNonEmpty. destruct (nonEmpty v); by rewrite ?mget_mset. Qed.

Lemma mget_deleteLocal k o : mget k (deleteLocal o) = if bool_decide (k ∈ LOCAL_FIELDS) then None else mget k o.
Proof.
  unfold deleteLocal. rewrite !mget_mdelete. case_bool_decide as H.
  - repeat (apply elem_of_cons in H as [->|H]; [by vm_compute|]). by apply not_elem_of_nil in H.
  - unfold LOCAL_FIELDS in H. rewrite !not_elem_of_cons in H. destruct H as (H1 & H2 & H3 & H4 & _).
    apply String.eqb_neq in H1 as ->, H2 as ->, H3 as ->, H4 as ->. done.
Qed.

#[export] Hint Rewrite mget_assign mget_withNonEmpty mget_deleteLocal : aiteam.

(** [members]: read a named member through the updates of an object. *)
Ltac members := autorewrite with aiteam; cbn.

Definition AVATAR_FIELDS : list string :=
  ["avatar_url"; AVATAR_SOURCE_FIELD; "manager_avatar_url"; "manager_avatar_version"; "avatar_sync_version"]%string ++ LOCAL_FIELDS.

Lemma eqb_notin (k k' : string) (l : list string) : k ∉ l -> k' ∈ l -> String.eqb k k' = false.
Proof. intros H H'. apply String.eqb_neq. by intros ->. Qed.

(** Everything that is not avatar metadata is the Manager's. *)
Lemma merge_other k ex inc : k ∉ AVATAR_FIELDS -> mget k (mergeAvatarProjection ex inc) = mget k inc.
Proof.
  intros Hk. unfold mergeAvatarProjection.
  destruct (localOverride _) as [[path url]|]; autorewrite with aiteam;
    rewrite bool_decide_eq_false_2 by (intros H; apply Hk; unfold AVATAR_FIELDS; apply elem_of_app; by right);
    rewrite !(eqb_notin k _ AVATAR_FIELDS Hk) by (unfold AVATAR_FIELDS; set_solver); done.
Qed.

Lemma asStr_nonEmpty o s : nonEmpty (asStr o) = Some s -> o = Some (JStr s).
Proof. destruct o as [[]|]; cbn; try done. case_match; [done|]. by intros [= ->]. Qed.

Lemma localOverride_spec o path url : localOverride o = Some (path, url) ->
  mget LOCAL_AVATAR_PATH_FIELD o = Some (JStr path) /\ mget LOCAL_AVATAR_URL_FIELD o = Some (JStr url).
Proof.
  unfold localOverride. destruct (nonEmpty (asStr (mget LOCAL_AVATAR_PATH_FIELD o))) as [p|] eqn:E1; [|done].
  destruct (nonEmpty (asStr (mget LOCAL_AVATAR_URL_FIELD o))) as [q|] eqn:E2; [|done].
  case_bool_decide; [|done]. intros [= <- <-]. split; by apply asStr_nonEmpty.
Qed.

(** The Agent's own avatar metadata never comes from the Manager: after merging any
    incoming projection, each of the four local members has the value the stored row had, if
    that row recorded a local override, and is absent otherwise; what the store lists has none
    of them. *)
Theorem local_avatar_metadata_is_local ex incoming f : f ∈ LOCAL_FIELDS ->
  mget f (mergeAvatarProjection ex incoming) =
    (if localOverride (existingOf ex) then mget f (existingOf ex) else None)
  /\ forall o, mget f (publicAvatarProjection o) = None.
Proof.
  intros Hf. split; [|intros o; unfold publicAvatarProjection; rewrite mget_deleteLocal; by rewrite bool_decide_eq_true_2].
  unfold mergeAvatarProjection. destruct (localOverride _) as [[path url]|] eqn:E.
  - apply localOverride_spec in E as [Ep Eu].
    repeat (apply elem_of_cons in Hf as [->|Hf]; [by members|]). by apply not_elem_of_nil in Hf.
  - autorewrite with aiteam. rewrite bool_decide_eq_true_2 by done.
    repeat (apply elem_of_cons in Hf as [->|Hf]; [done|]). by apply not_elem_of_nil in Hf.
Qed.

(** ** Histories of syncs *)

Record Sync : Type := mkSync {
  sy_experts : list Expert; sy_solutions : list Solution; sy_snapshots : list Snapshot;
  sy_revoked : list string; sy_owner : option Owner; sy_now : string;
}.
Definition sync (db : ProjectionDb) (s : Sync) : ProjectionDb :=
  (replaceProjections db (sy_experts s) (sy_solutions s) (sy_snapshots s) (sy_revoked s) (sy_owner s) (sy_now s)).1.
Definition emptyProjections : ProjectionDb := mkProjections [] [] [].

(** What every stored row satisfies: its projection is an object that names the row. *)
Definition wf_expert (r : ExpertRow) : Prop := exists o, ex_projection r = Some (JObj o)
  /\ mget "employee_id" o = Some (JStr (ex_employee_id r)) /\ mget "version" o = Some (JStr (ex_version r))
  /\ mget "revoked" o = Some (JBool false).
Definition wf_snapshot (r : SnapshotRow) : Prop := exists o, sn_projection r = Some (JObj o)
  /\ mget "employee_id" o = Some (JStr (sn_employee_id r)) /\ mget "version" o = Some (JStr (sn_version r))
  /\ mget "snapshot_version" o = Some (JStr (sn_snapshot_version r))
  /\ (sn_tenant_id r = ""%string -> mget "tenant_id" o = None \/ mget "tenant_id" o = Some (JStr "")).
Definition wf_db (db : ProjectionDb) : Prop := Forall wf_expert (experts db) /\ Forall wf_snapshot (snapshots db).

Lemma Forall_sql_update {R} (P : R -> Prop) p f t : Forall P t -> (forall r, P r -> p r = true -> P (f r)) -> Forall P (sql_update p f t).
Proof.
  intros H Hf. apply Forall_forall. intros r (r0 & Hr0 & ->)%elem_of_sql_update.
  rewrite Forall_forall in H. destruct (p r0) eqn:E; auto.
Qed.
Lemma Forall_sql_delete {R} (P : R -> Prop) p t : Forall P t -> Forall P (sql_delete p t).
Proof. rewrite !Forall_forall. intros H r [Hr _]%elem_of_sql_delete. auto. Qed.
Lemma Forall_sql_upsert {R} (P : R -> Prop) clash f r t :
  Forall P t -> (forall x, P x -> clash x = true -> P (f x)) -> P r -> Forall P (sql_upsert clash f r t).
Proof.
  intros H Hf Hr. unfold sql_upsert. case_match; [by apply Forall_sql_update|].
  apply Forall_app. split; [done|]. by apply Forall_singleton.
Qed.

Ltac not_avatar := unfold AVATAR_FIELDS, LOCAL_FIELDS; rewrite ?not_elem_of_app, ?not_elem_of_cons;
  repeat split; try (by vm_compute); try discriminate; apply not_elem_of_nil.

Lemma upsertExpert_wf now db e : wf_db db -> wf_db (upsertExpert now db e).
Proof.
  intros [He Hs]. split; [|done]. unfold upsertExpert. cbn [experts].
  apply Forall_sql_upsert; [done| |]; [intros r _ Hc; unfold is_expert in Hc; boolify|];
    (eexists; split_and!; [reflexivity|..]; rewrite merge_other by not_avatar; unfold expertFields; members;
     destruct (nonEmpty (e_member_id e)); members; congruence).
Qed.

Lemma upsertSnapshot_wf now db p : wf_db db -> wf_db (upsertSnapshot now db p).
Proof.
  intros [He Hs]. split; [done|]. unfold upsertSnapshot. cbn [snapshots].
  apply Forall_sql_upsert; [done| |]; [intros r _ Hc; unfold is_snapshot in Hc; boolify|];
    (eexists; split_and!; [reflexivity|..]; rewrite merge_other by not_avatar; unfold snapshotFields; members;
     destruct (nonEmpty (p_member_id p)), (nonEmpty (p_tenant_id p)) eqn:?; cbn in *; try congruence; intros Ht;
     (destruct (p_tenant_id p) as [t|]; [cbn in *; assert (t = ""%string) as -> by congruence|]); cbn in *; try done; auto).
Qed.

Lemma fold_left_inv {S A} (P : S -> Prop) (f : S -> A -> S) l s :
  (forall s a, a ∈ l -> P s -> P (f s a)) -> P s -> P (fold_left f l s).
Proof.
  revert s. induction l as [|a l IH]; intros s Hf Hs; cbn; [done|].
  apply IH; [intros; apply Hf; [by right|done]|]. apply Hf; [by left|done].
Qed.

Lemma sync_wf db s : wf_db db -> wf_db (sync db s).
Proof.
  intros H. unfold sync, replaceProjections, replaceProjectionRows. cbn [fst].
  apply fold_left_inv.
  { intros db' i _ [He Hs]. split; cbn.
    - apply Forall_sql_update; [done|]. intros r (o & ? & ? & ? & ?) _. by exists o.
    - by apply Forall_sql_delete. }
  apply fold_left_inv; [intros; by apply upsertSnapshot_wf|].
  apply fold_left_inv; [done|].
  apply fold_left_inv; [intros; by apply upsertExpert_wf|].
  destruct (sy_owner s); [|done].
  apply fold_left_inv; [|done]. intros db' i _ [He Hs]. split; by apply Forall_sql_delete.
Qed.

Lemma history_wf h : wf_db (fold_left sync h emptyProjections).
Proof. apply fold_left_inv; [intros; by apply sync_wf|]. split; by constructor. Qed.

(** ** What the listings show *)

Definition expertView (r : ExpertRow) : fields :=
  let projection := publicAvatarProjection (spread (nullish (ex_projection r) JNull)) in
  mset "revoked" (JBool (ex_revoked r || match mget "revoked" projection with Some (JBool true) => true | _ => false end))
    (withNonEmpty "member_id" (Some (ex_member_id r)) (mset "tenant_id" (JStr (ex_tenant_id r)) projection)).
Definition snapshotView (r : SnapshotRow) : fields :=
  withNonEmpty "member_id" (Some (sn_member_id r)) (withNonEmpty "tenant_id" (Some (sn_tenant_id r))
    (publicAvatarProjection (spread (nullish (sn_projection r) JNull)))).

Lemma mapM_result_total {E A B} (f : A -> result E B) (g : A -> B) l :
  (forall a, a ∈ l -> f a = Ok (g a)) -> mapM_result f l = Ok (g <$> l).
Proof.
  induction l as [|a l IH]; intros H; cbn; [done|]. rewrite H by (by left). cbn. rewrite IH; [done|].
  intros; apply H; by right.
Qed.

Lemma listLoadedExperts_total db t m b : wf_db db -> exists l, listLoadedExperts db t m b = Ok l
  /\ forall x, x ∈ l <-> exists r, x = expertView r /\ r ∈ experts db
       /\ (b || negb (ex_revoked r)) = true /\ in_scope t m (ex_tenant_id r) (ex_member_id r) = true.
Proof.
  intros [He _]. eexists. split.
  - unfold listLoadedExperts. apply (mapM_result_total _ expertView). intros r Hr.
    apply elem_of_order_by, elem_of_sql_select in Hr as [Hr _]. rewrite Forall_forall in He.
    destruct (He r Hr) as (o & Ho & _). unfold expertView. by rewrite Ho.
  - intros x. rewrite list_elem_of_fmap. setoid_rewrite elem_of_order_by. setoid_rewrite elem_of_sql_select.
    unfold in_scope. setoid_rewrite andb_true_iff. setoid_rewrite andb_true_iff. naive_solver.
Qed.

Lemma listSnapshots_total db t m : wf_db db -> exists l, listSnapshots db t m = Ok l
  /\ forall x, x ∈ l <-> exists r, x = snapshotView r /\ r ∈ snapshots db /\ in_loose_scope t m (sn_tenant_id r) (sn_member_id r) = true.
Proof.
  intros [_ Hs]. eexists. split.
  - unfold listSnapshots. apply (mapM_result_total _ snapshotView). intros r Hr.
    apply elem_of_order_by, elem_of_sql_select in Hr as [Hr _]. rewrite Forall_forall in Hs.
    destruct (Hs r Hr) as (o & Ho & _). unfold snapshotView. by rewrite Ho.
  - intros x. rewrite list_elem_of_fmap. setoid_rewrite elem_of_order_by. setoid_rewrite elem_of_sql_select. naive_solver.
Qed.

Lemma expertView_spec r : wf_expert r ->
  mget "employee_id" (expertView r) = Some (JStr (ex_employee_id r)) /\ mget "version" (expertView r) = Some (JStr (ex_version r))
  /\ mget "tenant_id" (expertView r) = Some (JStr (ex_tenant_id r)) /\ mget "revoked" (expertView r) = Some (JBool (ex_revoked r)).
Proof.
  intros (o & Ho & Hi & Hv & Hr). unfold expertView, publicAvatarProjection. rewrite Ho. cbn [nullish default id].
  autorewrite with aiteam. cbn. rewrite Hi, Hv, Hr, orb_false_r. cbn.
  destruct (ex_member_id r =? "")%string; cbn; by members.
Qed.

Lemma snapshotView_spec r : wf_snapshot r ->
  mget "employee_id" (snapshotView r) = Some (JStr (sn_employee_id r)) /\ mget "version" (snapshotView r) = Some (JStr (sn_version r))
  /\ mget "snapshot_version" (snapshotView r) = Some (JStr (sn_snapshot_version r))
  /\ (forall t, mget "tenant_id" (snapshotView r) = Some (JStr t) -> sn_tenant_id r = t).
Proof.
  intros (o & Ho & Hi & Hv & Hs & Ht). unfold snapshotView, publicAvatarProjection. rewrite Ho. cbn [nullish default id spread].
  autorewrite with aiteam. cbn.
  destruct (String.eqb_spec (sn_tenant_id r) "") as [E|E], (sn_member_id r =? "")%string; cbn; split_and!; try done;
    intros t Hx; try congruence; cbv [LOCAL_FIELDS] in Hx; rewrite bool_decide_eq_false_2 in Hx by not_avatar; destruct (Ht E); congruence.
Qed.

(** ** Revocation *)

Section Revoked.
Variables (o : Owner) (i : string).
Implicit Types (db : ProjectionDb).

Definition theirs (t m : string) : bool := reaches (Some o) t m.
Arguments theirs : simpl never.
Definition hidden db : Prop :=
  (forall r, r ∈ experts db -> ex_employee_id r = i -> theirs (ex_tenant_id r) (ex_member_id r) = true -> ex_revoked r = true)
  /\ (forall r, r ∈ snapshots db -> sn_employee_id r = i -> theirs (sn_tenant_id r) (sn_member_id r) = false).

Definition mentions (s : Sync) : bool :=
  existsb (fun e => String.eqb (e_employee_id e) i && theirs (e_tenant_id e) (nullish (e_member_id e) "")) (sy_experts s)
  || existsb (fun p => String.eqb (p_employee_id p) i && theirs (nullish (p_tenant_id p) "") (nullish (p_member_id p) "")) (sy_snapshots s).

Lemma elem_of_sql_upsert {R} clash f (new r : R) t :
  r ∈ sql_upsert clash f new t -> (r ∈ t /\ clash r = false) \/ (exists r0, r0 ∈ t /\ clash r0 = true /\ r = f r0) \/ r = new \/ r ∈ t.
Proof.
  unfold sql_upsert. case_match.
  - intros (r0 & Hr0 & ->)%elem_of_sql_update. destruct (clash r0) eqn:E; naive_solver.
  - intros [?|?%list_elem_of_singleton]%elem_of_app; auto.
Qed.

Lemma upsertExpert_hidden now db e :
  String.eqb (e_employee_id e) i && theirs (e_tenant_id e) (nullish (e_member_id e) "") = false ->
  hidden db -> hidden (upsertExpert now db e).
Proof.
  intros Hn [He Hs]. split; [|done]. cbn. intros r [[Hr _]|[(r0 & Hr0 & Hc & ->)|[->|Hr]]]%elem_of_sql_upsert; auto; cbn.
  - unfold is_expert in Hc. boolify. intros <- Ht. apply andb_false_iff in Hn as [Hn|Hn]; [by apply String.eqb_neq in Hn; congruence|congruence].
  - intros <- Ht. by rewrite String.eqb_refl, Ht in Hn.
Qed.

Lemma upsertSnapshot_hidden now db p :
  String.eqb (p_employee_id p) i && theirs (nullish (p_tenant_id p) "") (nullish (p_member_id p) "") = false ->
  hidden db -> hidden (upsertSnapshot now db p).
Proof.
  intros Hn [He Hs]. split; [done|]. cbn. intros r [[Hr _]|[(r0 & Hr0 & Hc & ->)|[->|Hr]]]%elem_of_sql_upsert; auto; cbn.
  - unfold is_snapshot in Hc. boolify. intros <-. apply andb_false_iff in Hn as [Hn|Hn]; [by apply String.eqb_neq in Hn; congruence|congruence].
  - intros <-. by rewrite String.eqb_refl in Hn.
Qed.

Lemma revokeId_hidden owner now db j : hidden db -> hidden (revokeId owner now db j).
Proof.
  intros [He Hs]. split; cbn.
  - intros r (r0 & Hr0 & ->)%elem_of_sql_update. case_match; cbn; auto.
  - intros r [Hr _]%elem_of_sql_delete. auto.
Qed.

Lemma revokeId_hides owner now db : owner = Some o \/ owner = None -> hidden (revokeId owner now db i).
Proof.
  intros Ho. assert (forall t m, theirs t m = true -> reaches owner t m = true) as Hsub by (destruct Ho; subst; done).
  split; cbn.
  - intros r (r0 & Hr0 & ->)%elem_of_sql_update. case_match eqn:E; cbn; [done|]. intros <- Ht.
    rewrite String.eqb_refl, (Hsub _ _ Ht) in E. done.
  - intros r [Hr E]%elem_of_sql_delete. intros <-. rewrite String.eqb_refl in E. cbn in E.
    apply not_true_iff_false. intros Ht. by rewrite (Hsub _ _ Ht) in E.
Qed.

Lemma sync_revokes db s : i ∈ sy_revoked s -> sy_owner s = Some o \/ sy_owner s = None -> hidden (sync db s).
Proof.
  intros (l1 & l2 & Hl)%list_elem_of_split Ho. unfold sync, replaceProjections, replaceProjectionRows. cbn [fst].
  rewrite Hl, fold_left_app. cbn [fold_left]. apply fold_left_inv; [intros; by apply revokeId_hidden|]. by apply revokeId_hides.
Qed.

Lemma sync_keeps_hidden db s : mentions s = false -> hidden db -> hidden (sync db s).
Proof.
  intros [Me Ms]%orb_false_iff H. unfold sync, replaceProjections, replaceProjectionRows. cbn [fst].
  apply fold_left_inv; [intros; by apply revokeId_hidden|].
  apply fold_left_inv; [intros; apply upsertSnapshot_hidden; [|done]|].
  { apply not_true_iff_false. intros E. apply not_true_iff_false in Ms. apply Ms, existsb_exists. exists a.
    by rewrite <- list_elem_of_In. }
  apply fold_left_inv; [done|].
  apply fold_left_inv; [intros; apply upsertExpert_hidden; [|done]|].
  { apply not_true_iff_false. intros E. apply not_true_iff_false in Me. apply Me, existsb_exists. exists a.
    by rewrite <- list_elem_of_In. }
  destruct (sy_owner s); [|done]. apply fold_left_inv; [|done]. intros db' j _ [He Hs]. split; cbn;
    intros r [Hr _]%elem_of_sql_delete; auto.
Qed.
End Revoked.
Arguments theirs : simpl never.

Lemma in_scope_theirs o t m : in_scope (Some (o_tenantId o)) (Some (o_memberId o)) t m = true -> theirs o t m = true.
Proof. unfold in_scope, theirs, reaches. cbn. by rewrite (orb_comm (String.eqb m "")). Qed.

(** C33. Revocation wins and lasts: after any history of syncs in which an employee was
    revoked for a member (or for everyone), the member's employee listing has no such
    employee and no snapshot of the member's tenant shows it, until a later sync mentions the
    employee again; a stale copy in the revoking sync itself does not count.  The listings
    never fail. *)
Theorem revocation_wins h s h' o i :
  i ∈ sy_revoked s -> sy_owner s = Some o \/ sy_owner s = None ->
  Forall (fun s' => mentions o i s' = false) h' ->
  let db := fold_left sync (h ++ s :: h') emptyProjections in
  exists es ps, listLoadedExperts db (Some (o_tenantId o)) (Some (o_memberId o)) false = Ok es
  /\ listSnapshots db (Some (o_tenantId o)) (Some (o_memberId o)) = Ok ps
  /\ (forall x, x ∈ es -> asStr (mget "employee_id" x) <> Some i)
  /\ (forall x, x ∈ ps -> mget "employee_id" x = Some (JStr i) -> mget "tenant_id" x <> Some (JStr (o_tenantId o))).
Proof.
  intros Hi Ho Hh db. pose proof (history_wf (h ++ s :: h')) as Hwf. fold db in Hwf.
  assert (hidden o i db) as [He Hs].
  { unfold db. rewrite fold_left_app. cbn [fold_left]. apply fold_left_inv.
    - intros db' s' Hs'. rewrite Forall_forall in Hh. apply sync_keeps_hidden; auto.
    - by apply sync_revokes. }
  destruct (listLoadedExperts_total db (Some (o_tenantId o)) (Some (o_memberId o)) false Hwf) as (es & Ees & Hes).
  destruct (listSnapshots_total db (Some (o_tenantId o)) (Some (o_memberId o)) Hwf) as (ps & Eps & Hps).
  exists es, ps. split_and!; [done|done|..]; destruct Hwf as [We Ws].
  - intros x (r & -> & Hr & Hn & Hsc)%Hes. rewrite Forall_forall in We. destruct (expertView_spec r (We r Hr)) as (-> & _). cbn.
    intros [= Hid]. cbn in Hn. rewrite (He r Hr Hid) in Hn; [done|]. by apply in_scope_theirs.
  - intros x (r & -> & Hr & Hsc)%Hps. rewrite Forall_forall in Ws. destruct (snapshotView_spec r (Ws r Hr)) as (-> & _ & _ & Ht).
    intros [= Hid] Htid. apply Ht in Htid. specialize (Hs r Hr Hid). rewrite in_scope_theirs in Hs; [done|].
    unfold in_loose_scope, in_scope in *. cbn [nullOr] in *. rewrite Htid, String.eqb_refl, orb_true_r in *. done.
Qed.

(** ** A sync stays within its owner *)

Section Frame.
Context {R : Type} (q : R -> bool).
Lemma select_update_frame p f t : (forall r, p r = true -> q r = false /\ q (f r) = false) ->
  sql_select q (sql_update p f t) = sql_select q t.
Proof.
  intros H. unfold sql_select, sql_update. induction t as [|r t IH]; cbn; [done|].
  destruct (p r) eqn:E; [destruct (H r E) as [-> ->]; done|]. by rewrite IH.
Qed.
Lemma select_delete_frame p t : (forall r, p r = true -> q r = false) -> sql_select q (sql_delete p t) = sql_select q t.
Proof.
  intros H. unfold sql_select, sql_delete. induction t as [|r t IH]; cbn; [done|].
  destruct (p r) eqn:E; cbn; [by rewrite (H r E)|]. by rewrite IH.
Qed.
Lemma select_upsert_frame clash f new t :
  (forall r, clash r = true -> q r = false /\ q (f r) = false) -> q new = false ->
  sql_select q (sql_upsert clash f new t) = sql_select q t.
Proof.
  intros H Hn. unfold sql_upsert. case_match; [by apply select_update_frame|].
  unfold sql_select. rewrite List.filter_app. cbn. by rewrite Hn, app_nil_r.
Qed.
End Frame.

Section Confined.
Variable o : Owner.
Definition outside (db : ProjectionDb) : list ExpertRow * list SolutionRow * list SnapshotRow :=
  (sql_select (fun r => negb (theirs o (ex_tenant_id r) (ex_member_id r))) (experts db),
   sql_select (fun r => negb (theirs o (so_tenant_id r) (so_member_id r))) (solutions db),
   sql_select (fun r => negb (theirs o (sn_tenant_id r) (sn_member_id r))) (snapshots db)).

Definition belongs (t m : option string) : Prop := t = Some (o_tenantId o) /\ m = Some (o_memberId o).

Lemma theirs_own t m : belongs t m -> theirs o (nullish t "") (nullish m "") = true.
Proof. intros [-> ->]. unfold theirs. cbn. by rewrite !String.eqb_refl. Qed.
Lemma theirs_legacy : theirs o (o_tenantId o) "" = true.
Proof. unfold theirs. cbn. by rewrite String.eqb_refl, orb_true_r. Qed.

(** [in_clash]: a row that clashes with an owned key is the owner's. *)
Ltac in_clash := let r := fresh "r" in let H := fresh "H" in intros r H; unfold is_expert, is_solution, is_snapshot in H; boolify;
  cbn; repeat match goal with E : _ r = _ |- _ => rewrite E; clear E end.

Lemma removeLegacy_outside db i : outside (removeLegacy (o_tenantId o) db i) = outside db.
Proof.
  unfold outside, removeLegacy. cbn [experts solutions snapshots]. f_equal; [f_equal|]; try apply select_delete_frame; in_clash;
    by rewrite theirs_legacy.
Qed.
Lemma upsertExpert_outside now db e : belongs (Some (e_tenant_id e)) (e_member_id e) -> outside (upsertExpert now db e) = outside db.
Proof.
  intros H%theirs_own. change (theirs o (e_tenant_id e) (nullish (e_member_id e) "") = true) in H.
  unfold outside, upsertExpert. cbn [experts solutions snapshots]. f_equal; f_equal.
  apply select_upsert_frame; [in_clash|cbn]; by rewrite H.
Qed.
Lemma upsertSolution_outside now db s : belongs (s_tenant_id s) (s_member_id s) -> outside (upsertSolution now db s) = outside db.
Proof.
  intros H%theirs_own. unfold outside, upsertSolution. cbn [experts solutions snapshots]. f_equal; f_equal.
  apply select_upsert_frame; [in_clash|cbn]; by rewrite H.
Qed.
Lemma upsertSnapshot_outside now db p : belongs (p_tenant_id p) (p_member_id p) -> outside (upsertSnapshot now db p) = outside db.
Proof.
  intros H%theirs_own. unfold outside, upsertSnapshot. cbn [experts solutions snapshots]. f_equal.
  apply select_upsert_frame; [in_clash|cbn]; by rewrite H.
Qed.
Lemma revokeId_outside now db i : outside (revokeId (Some o) now db i) = outside db.
Proof.
  unfold outside, revokeId. cbn [experts solutions snapshots]. f_equal; [f_equal|].
  - apply select_update_frame. intros r H. boolify. unfold theirs. cbn [ex_tenant_id ex_member_id set_revoked]. by rewrite H0.
  - apply select_delete_frame. intros r H. boolify. unfold theirs. by rewrite H0.
  - apply select_delete_frame. intros r H. boolify. unfold theirs. by rewrite H0.
Qed.
End Confined.

Lemma fold_left_frame {S A B} (g : S -> B) (f : S -> A -> S) l s :
  (forall s a, a ∈ l -> g (f s a) = g s) -> g (fold_left f l s) = g s.
Proof. intros H. apply (fold_left_inv (fun s' => g s' = g s)); [|done]. intros s' a Ha <-. auto. Qed.

Lemma in_upsertExpert_other now db e r : r ∈ experts db ->
  (ex_employee_id r, ex_tenant_id r, ex_member_id r) <> (e_employee_id e, e_tenant_id e, nullish (e_member_id e) "") ->
  r ∈ experts (upsertExpert now db e).
Proof.
  intros Hr Hk. cbn. unfold sql_upsert. case_match; [|apply elem_of_app; by left].
  apply elem_of_sql_update. exists r. split; [done|]. case_match eqn:E; [|done].
  unfold is_expert in E. boolify. congruence.
Qed.

(** The row an upsert leaves for its key. *)
Lemma upsertExpert_row now db e : wf_db db -> exists r, r ∈ experts (upsertExpert now db e) /\ wf_expert r
  /\ ex_employee_id r = e_employee_id e /\ ex_tenant_id r = e_tenant_id e /\ ex_member_id r = nullish (e_member_id e) ""
  /\ ex_version r = e_version e /\ ex_revoked r = false.
Proof.
  intros Hwf. pose proof (upsertExpert_wf now db e Hwf) as [We _]. rewrite Forall_forall in We.
  assert (exists r, r ∈ experts (upsertExpert now db e) /\ is_expert (e_employee_id e) (e_tenant_id e) (nullish (e_member_id e) "") r = true
    /\ ex_version r = e_version e /\ ex_revoked r = false) as (r & Hr & Hi & Hv & Hn).
  { cbn. unfold sql_upsert. case_match eqn:E.
    - apply existsb_exists in E as (r & Hr & Hc). eexists. split; [apply elem_of_sql_update; exists r; split; [by apply list_elem_of_In|reflexivity]|].
      rewrite Hc. done.
    - eexists. split; [apply elem_of_app; right; by apply list_elem_of_singleton|]. unfold is_expert. cbn. by rewrite !String.eqb_refl. }
  exists r. split; [done|]. split; [auto|]. unfold is_expert in Hi. boolify. auto.
Qed.

Definition expert_key (e : Expert) : string * string * string := (e_employee_id e, e_tenant_id e, nullish (e_member_id e) "").

(** A sync for one owner changes no row of another tenant or member, in any of the three
    tables, and every employee it brings, unless a later entry has the same key or it is
    revoked by the same sync, is listed for the owner afterwards, in its new version and not
    revoked. *)
Theorem sync_is_confined_and_complete h s o es1 e es2 :
  sy_owner s = Some o ->
  Forall (fun e => belongs o (Some (e_tenant_id e)) (e_member_id e)) (sy_experts s) ->
  Forall (fun x => belongs o (s_tenant_id x) (s_member_id x)) (sy_solutions s) ->
  Forall (fun p => belongs o (p_tenant_id p) (p_member_id p)) (sy_snapshots s) ->
  let db := fold_left sync h emptyProjections in
  outside o (sync db s) = outside o db
  /\ (sy_experts s = es1 ++ e :: es2 -> Forall (fun e' => expert_key e' <> expert_key e) es2 -> e_employee_id e ∉ sy_revoked s ->
      exists l x, listLoadedExperts (sync db s) (Some (o_tenantId o)) (Some (o_memberId o)) false = Ok l /\ x ∈ l
        /\ mget "employee_id" x = Some (JStr (e_employee_id e)) /\ mget "version" x = Some (JStr (e_version e))
        /\ mget "tenant_id" x = Some (JStr (o_tenantId o)) /\ mget "revoked" x = Some (JBool false)).
Proof.
  intros Ho Fe Fs Fp db. rewrite Forall_forall in Fe. rewrite Forall_forall in Fs. rewrite Forall_forall in Fp. split.
  - unfold sync, replaceProjections, replaceProjectionRows. cbn [fst]. rewrite Ho.
    rewrite !fold_left_frame; try done; intros.
    + apply removeLegacy_outside. + by apply upsertExpert_outside, Fe. + by apply upsertSolution_outside, Fs.
    + by apply upsertSnapshot_outside, Fp. + apply revokeId_outside.
  - intros He Hlast Hrev. pose proof (sync_wf db s (history_wf h)) as Hwf.
    assert (exists r, r ∈ experts (sync db s) /\ ex_employee_id r = e_employee_id e /\ ex_tenant_id r = e_tenant_id e
      /\ ex_member_id r = nullish (e_member_id e) "" /\ ex_version r = e_version e /\ ex_revoked r = false) as (r & Hr & Hi & Ht & Hm & Hv & Hn).
    { unfold sync, replaceProjections, replaceProjectionRows. cbn [fst]. rewrite Ho, He, fold_left_app. cbn [fold_left].
      set (db0 := fold_left (upsertExpert (sy_now s)) es1 _).
      destruct (upsertExpert_row (sy_now s) db0 e) as (r & Hr & _ & Hk).
      { unfold db0. apply fold_left_inv; [intros; by apply upsertExpert_wf|]. apply fold_left_inv; [|apply history_wf].
        intros db' j _ [We Ws]. split; by apply Forall_sql_delete. }
      exists r. split; [|done]. destruct Hk as (Hi & Ht & Hm & Hv & Hn).
      apply fold_left_inv.
      { intros db' j Hj Hin. cbn. apply elem_of_sql_update. exists r. split; [done|]. case_match eqn:E; [|done]. boolify. congruence. }
      rewrite !(fold_left_frame experts) by done.
      apply fold_left_inv; [|done]. intros db' e' He' Hin. apply in_upsertExpert_other; [done|].
      rewrite Forall_forall in Hlast. specialize (Hlast e' He'). unfold expert_key in Hlast. congruence. }
    destruct (listLoadedExperts_total (sync db s) (Some (o_tenantId o)) (Some (o_memberId o)) false Hwf) as (l & El & Hl).
    destruct (Fe e) as [[= Ete] Eme]; [rewrite He; set_solver|].
    destruct Hwf as [We _]. rewrite Forall_forall in We. destruct (expertView_spec r (We r Hr)) as (V1 & V2 & V3 & V4).
    exists l, (expertView r). split_and!; [done| |congruence..]. apply Hl. exists r. split_and!; try done; [by rewrite Hn|].
    unfold in_scope. cbn. rewrite Ht, Hm, Ete, Eme. cbn. by rewrite !String.eqb_refl, orb_true_r.
Qed.

(** ** Instances *)

Definition demoOwner : Owner := mkOwner "t" "m".
Definition demoExpert : Expert :=
  mkExpert "e1" "t" (Some "m") "v2" None [("display_name", JStr "Ada"); ("local_avatar_path", JStr "/etc/passwd")]%string.
Definition demoSnapshot : Snapshot := mkSnapshot "e1" (Some "t") (Some "m") "v2" "s2" [].
Definition demoSync : Sync := mkSync [demoExpert] [] [demoSnapshot] [] (Some demoOwner) "now".
Definition demoRevoke : Sync := mkSync [demoExpert] [] [demoSnapshot] ["e1"%string] (Some demoOwner) "later".
Definition demoOther : Sync := mkSync [] [] [] ["e2"%string] (Some demoOwner) "last".

Lemma local_avatar_metadata_is_local_witness :
  mget LOCAL_AVATAR_PATH_FIELD (mergeAvatarProjection None (expertFields demoExpert)) = None.
Proof.
  destruct (local_avatar_metadata_is_local None (expertFields demoExpert) LOCAL_AVATAR_PATH_FIELD) as [H _].
  - apply elem_of_cons. by left.
  - exact H.
Defined.

Lemma revocation_wins_witness :
  exists es ps, listLoadedExperts (fold_left sync [demoSync; demoRevoke; demoOther] emptyProjections) (Some "t"%string) (Some "m"%string) false = Ok es
    /\ listSnapshots (fold_left sync [demoSync; demoRevoke; demoOther] emptyProjections) (Some "t"%string) (Some "m"%string) = Ok ps
    /\ (forall x, x ∈ es -> asStr (mget "employee_id" x) <> Some "e1"%string)
    /\ (forall x, x ∈ ps -> mget "employee_id" x = Some (JStr "e1") -> mget "tenant_id" x <> Some (JStr "t")).
Proof.
  apply (revocation_wins [demoSync] demoRevoke [demoOther] demoOwner "e1").
  - apply elem_of_cons. by left.
  - by left.
  - repeat constructor.
Defined.

Lemma sync_is_confined_and_complete_witness :
  exists l x, listLoadedExperts (sync emptyProjections demoSync) (Some "t"%string) (Some "m"%string) false = Ok l /\ x ∈ l
    /\ mget "version" x = Some (JStr "v2").
Proof.
  destruct (sync_is_confined_and_complete [] demoSync demoOwner [] demoExpert []) as [_ H].
  - reflexivity.
  - repeat constructor.
  - constructor.
  - repeat constructor.
  - destruct H as (l & x & Hl & Hx & _ & Hv & _); [reflexivity|constructor|apply not_elem_of_nil|].
    exists l, x. split; [exact Hl|]. split; [exact Hx|exact Hv].
Defined.
