(* ===== verification/Paths.v ===== *)
(** POSIX paths: the functions of [node:path] the sources use.

    An absolute normalised path is the list of its segments, [abs]; [showAbs] prints it.
    Relative paths are strings.  The functions follow Node's segment rules: empty segments and
    [.] are dropped, [..] removes the segment before it and is kept only at the front of a
    relative path. *)

From S2P Require Import Prelude.
From Stdlib Require Import Ascii.

(** [path.split("/")]. *)
Fixpoint splitSlash (s : string) : list string :=
  match s with
  | EmptyString => [""%string]
  | String c s =>
      match splitSlash s with
      | [] => []
      | x :: l => if Ascii.eqb c "/" then ""%string :: x :: l else String c x :: l
      end
  end.

Fixpoint joinSlash (l : list string) : string :=
  match l with
  | [] => ""%string
  | [x] => x
  | x :: l => (x +:+ "/" +:+ joinSlash l)%string
  end.

(** [normalizeString]: [acc] is what is kept so far, last segment first. *)
Fixpoint normalizeSegments (allowAboveRoot : bool) (acc : list string) (l : list string) : list string :=
  match l with
  | [] => rev acc
  | x :: l =>
      if String.eqb x "" || String.eqb x "." then normalizeSegments allowAboveRoot acc l
      else if String.eqb x ".." then
        match acc with
        | y :: acc' =>
            if String.eqb y ".." then normalizeSegments allowAboveRoot (if allowAboveRoot then ".."%string :: acc else acc) l
            else normalizeSegments allowAboveRoot acc' l
        | [] => normalizeSegments allowAboveRoot (if allowAboveRoot then [".."%string] else []) l
        end
      else normalizeSegments allowAboveRoot (x :: acc) l
  end.

Definition isAbsolute (s : string) : bool := match s with String c _ => Ascii.eqb c "/" | EmptyString => false end.
Fixpoint endsWithSlash (s : string) : bool :=
  match s with EmptyString => false | String c EmptyString => Ascii.eqb c "/" | String _ s => endsWithSlash s end.

Definition normalize (s : string) : string :=
  if String.eqb s "" then "."%string
  else
    let res := joinSlash (normalizeSegments (negb (isAbsolute s)) [] (splitSlash s)) in
    let res := if String.eqb res "" then (if isAbsolute s then ""%string else if endsWithSlash s then "./"%string else "."%string)
               else if endsWithSlash s then (res +:+ "/")%string else res in
    if isAbsolute s then ("/" +:+ res)%string else res.

(** [path.join(a, b)]. *)
Definition join2 (a b : string) : string :=
  if String.eqb a "" then (if String.eqb b "" then "."%string else normalize b)
  else if String.eqb b "" then normalize a else normalize (a +:+ "/" +:+ b).

(** ** Extensions *)

Fixpoint lastDot (i : nat) (s : string) : option nat :=
  match s with
  | EmptyString => None
  | String c s => match lastDot (S i) s with Some j => Some j | None => if Ascii.eqb c "." then Some i else None end
  end.

Definition lastSegment (s : string) : string :=
  default ""%string (last (List.filter (fun x => negb (String.eqb x "")) (splitSlash s))).

Definition extname (s : string) : string :=
  let name := lastSegment s in
  if String.eqb name ".." then ""%string
  else match lastDot 0 name with
       | Some (S i) => String.substring (S i) (String.length name) name
       | _ => ""%string
       end.

Definition lowerAscii (c : ascii) : ascii :=
  let n := nat_of_ascii c in if Nat.leb 65 n && Nat.leb n 90 then ascii_of_nat (n + 32) else c.
Fixpoint toLowerAscii (s : string) : string :=
  match s with EmptyString => EmptyString | String c s => String (lowerAscii c) (toLowerAscii s) end.

(** ** Absolute paths *)

Notation abs := (list string).
Definition showAbs (p : abs) : string := ("/" +:+ joinSlash p)%string.

(** The segments of the arguments from the last absolute one on; without one, from the
    working directory. *)
Fixpoint fromLastAbsolute (base : list string) (args : list string) : list string :=
  match args with
  | [] => base
  | x :: args => if isAbsolute x then fromLastAbsolute (splitSlash x) args else fromLastAbsolute (base ++ splitSlash x) args
  end.

Definition resolve (cwd : abs) (args : list string) : abs := normalizeSegments false [] (fromLastAbsolute cwd args).

Definition dirname (p : abs) : abs := take (pred (length p)) p.
Definition basename (p : abs) : string := default ""%string (last p).

Fixpoint dropCommon (a b : abs) : abs * abs :=
  match a, b with
  | x :: a', y :: b' => if String.eqb x y then dropCommon a' b' else (a, b)
  | _, _ => (a, b)
  end.
(** [path.relative] of two absolute paths: up from the first, then down to the second. *)
Definition relative (from to_ : abs) : string :=
  let (up, down) := dropCommon from to_ in joinSlash (map (fun _ => ".."%string) up ++ down).

(** ** Properties *)

(** A segment a normalised absolute path can have. *)
Definition segment (x : string) : Prop := x <> ""%string /\ x <> "."%string /\ x <> ".."%string /\ splitSlash x = [x].
Definition normal (p : abs) : Prop := Forall segment p.

Lemma splitSlash_segments s : Forall (fun x => splitSlash x = [x]) (splitSlash s) /\ splitSlash s <> [].
Proof.
  induction s as [|c s [IH1 IH2]]; cbn; [by repeat constructor|].
  destruct (splitSlash s) as [|x l] eqn:E; [done|]. inversion IH1; subst.
  destruct (Ascii.eqb c "/") eqn:Ec; split; try done; constructor; auto. cbn. by rewrite H1, Ec.
Qed.

Lemma normalizeSegments_normal acc l :
  normal acc -> Forall (fun x => splitSlash x = [x]) l -> normal (normalizeSegments false acc l).
Proof.
  revert acc. induction l as [|x l IH]; intros acc Ha Hl; cbn; [by apply Forall_rev|].
  inversion Hl as [|? ? Hx Hl']; subst. destruct (String.eqb x "") eqn:E1, (String.eqb x ".") eqn:E2; cbn; auto.
  destruct (String.eqb x "..") eqn:E3; boolify.
  - destruct acc as [|y acc]; [auto|]. inversion Ha; subst. destruct (String.eqb y ".."); auto.
  - apply IH; [|done]. by constructor.
Qed.

Lemma fromLastAbsolute_segments base args :
  Forall (fun x => splitSlash x = [x]) base -> Forall (fun x => splitSlash x = [x]) (fromLastAbsolute base args).
Proof.
  revert base. induction args as [|x args IH]; intros base Hb; cbn; [done|].
  destruct (isAbsolute x); apply IH; [apply splitSlash_segments|].
  apply Forall_app. split; [done|apply splitSlash_segments].
Qed.

(** [resolve] gives a normalised absolute path. *)
Lemma resolve_normal cwd args : normal cwd -> normal (resolve cwd args).
Proof.
  intros Hc. apply normalizeSegments_normal; [constructor|]. apply fromLastAbsolute_segments.
  eapply Forall_impl; [done|]. by intros x (_ & _ & _ & ?).
Qed.

Lemma normalizeSegments_id acc l : normal l -> normalizeSegments false acc l = rev acc ++ l.
Proof.
  revert acc. induction l as [|x l IH]; intros acc Hl; cbn; [by rewrite app_nil_r|].
  inversion Hl as [|? ? (H1 & H2 & H3 & _) Hl']; subst.
  apply String.eqb_neq in H1 as ->, H2 as ->, H3 as ->. cbn. rewrite IH by done. cbn. by rewrite <- app_assoc.
Qed.

Lemma dropCommon_prefix a b : (dropCommon a b).1 = [] -> b = a ++ (dropCommon a b).2.
Proof.
  revert b. induction a as [|x a IH]; intros [|y b]; cbn; try done.
  destruct (String.eqb_spec x y) as [->|]; [|done]. intros H. f_equal. by apply IH.
Qed.

Lemma joinSlash_dotdot l : String.prefix ".." (joinSlash (".."%string :: l)) = true.
Proof. destruct l; cbn; [done|]. by destruct (joinSlash _). Qed.

(** A relative path that does not climb stays inside. *)
Lemma relative_inside from to_ : String.prefix ".." (relative from to_) = false -> from `prefix_of` to_.
Proof.
  unfold relative. pose proof (dropCommon_prefix from to_) as H. destruct (dropCommon from to_) as [up down]. cbn in *.
  destruct up as [|x up]; [intros _; exists down; auto|]. change (map _ (x :: up) ++ down) with (".."%string :: (map (fun _ => ".."%string) up ++ down)).
  by rewrite joinSlash_dotdot.
Qed.

Lemma length_dirname p : p <> [] -> (length (dirname p) < length p)%nat.
Proof. unfold dirname. destruct p; [done|]. rewrite length_take. cbn. lia. Qed.

Lemma dirname_basename p : p <> [] -> p = dirname p ++ [basename p].
Proof.
  intros H. destruct p as [|x p] using rev_ind; [done|]. unfold dirname, basename.
  rewrite length_app. cbn. rewrite Nat.add_1_r. cbn. by rewrite take_app_length, last_snoc.
Qed.

Lemma isAbsolute_segment x : segment x -> isAbsolute x = false.
Proof.
  intros (H & _ & _ & Hs). destruct x as [|c x]; [done|]. cbn in *. destruct (Ascii.eqb c "/") eqn:E; [|done].
  destruct (splitSlash x) as [|y l]; [done|]. by injection Hs.
Qed.

(** Resolving plain segments appends them. *)
Lemma resolve_rest base rest : normal base -> normal rest -> resolve base rest = base ++ rest.
Proof.
  intros Hb Hr. unfold resolve.
  assert (fromLastAbsolute base rest = base ++ rest) as ->.
  { clear Hb. revert base. induction rest as [|x rest IH]; intros base; cbn; [by rewrite app_nil_r|].
    inversion Hr as [|? ? Hx Hr']; subst. rewrite isAbsolute_segment, IH by done. destruct Hx as (_ & _ & _ & ->). by rewrite <- app_assoc. }
  rewrite normalizeSegments_id; [done|]. by apply Forall_app.
Qed.

Lemma splitSlash_app x s : splitSlash x = [x] -> splitSlash (x +:+ "/" +:+ s)%string = x :: splitSlash s.
Proof.
  induction x as [|c x IH]; cbn.
  - intros _. change (String.app "" (String.app "/" s)) with (String "/" s). cbn [splitSlash]. destruct (splitSlash_segments s) as [_ Hn]. by destruct (splitSlash s).
  - intros Hx. destruct (splitSlash x) as [|y l] eqn:E; [done|]. destruct (Ascii.eqb c "/") eqn:Ec; [done|].
    injection Hx as -> ->. change (String.app (String c x) ?t) with (String c (x +:+ t)). cbn [splitSlash]. by rewrite (IH eq_refl), Ec.
Qed.

Lemma splitSlash_join p : p <> [] -> Forall (fun x => splitSlash x = [x]) p -> splitSlash (joinSlash p) = p.
Proof.
  induction p as [|x [|y p] IH]; intros Hn Hf; [done|by inversion Hf|]. inversion Hf; subst.
  change (joinSlash (x :: y :: p)) with (x +:+ "/" +:+ joinSlash (y :: p))%string. rewrite splitSlash_app by done. by rewrite IH.
Qed.

(** Printing a normalised path and resolving the text gives the path back. *)
Lemma resolve_showAbs cwd p : normal p -> resolve cwd [showAbs p] = p.
Proof.
  intros Hp. unfold resolve, showAbs. cbn [fromLastAbsolute isAbsolute].
  change (isAbsolute ("/" +:+ joinSlash p)) with true. cbn [fromLastAbsolute].
  change ("/" +:+ joinSlash p)%string with ("" +:+ "/" +:+ joinSlash p)%string. rewrite splitSlash_app by done.
  destruct p as [|x p]; [done|]. rewrite splitSlash_join; [|done|]; cycle 1.
  { eapply Forall_impl; [done|]. by intros y (_ & _ & _ & ?). }
  change (normalizeSegments false [] ("" :: x :: p)) with (normalizeSegments false [] (x :: p)). by apply normalizeSegments_id.
Qed.
