(* ===== verification/Sandbox.v ===== *)
(** The sandbox of coding tools (pi/sandbox.ts, [LocalSandbox]): which path a tool call may
    touch, how a command is started, and the lifetime of the process.

    The file system is [fs]: what is at a path, a file or directory or a symbolic link with the
    text it holds.  [walk] is how the host follows a path through it, at most [links] links on
    the way, and [existsSync], [realpathSync] and the place an operation on a path reaches are
    read off it.  [canonicalPath] and [confine] are the functions of the sandbox library.  Paths
    are those of Paths.v.  The file system is the same when a path is checked and when it is used. *)

From S2P Require Import Prelude Paths.
Local Open Scope Z_scope.

Inductive PermissionMode : Type := ReadOnly | WorkspaceWrite | FullAccess.
#[export] Instance PermissionMode_eq_dec : EqDecision PermissionMode.
Proof. solve_decision. Defined.
Inductive Platform : Type := Linux | Darwin | Windows.
Inductive sandbox_error : Type := EscapesWorkspace | ReadOnlySession | Unavailable (why : string) | RealpathFailed | OutOfFuel.

(** ** Network isolation of a command line *)

Fixpoint indexOf (x : string) (l : list string) : option nat :=
  match l with [] => None | y :: l => if String.eqb y x then Some 0%nat else S <$> indexOf x l end.

Fixpoint endsWith (suffix s : string) : bool :=
  String.eqb s suffix || match s with String _ s => endsWith suffix s | EmptyString => false end.

Definition networkIsolatedArgv (platform : Platform) (boundary : string) (argv : list string) : result sandbox_error (list string) :=
  match indexOf "--" argv with
  | None | Some O => Err (Unavailable "Sandbox runner did not return a command separator")
  | Some separator =>
      let first := default ""%string (head argv) in
      match platform with
      | Linux =>
          if String.eqb first "bwrap" then Ok (take separator argv ++ "--unshare-net"%string :: drop separator argv)
          else if endsWith "/landlock-run" first || String.eqb first "landlock-run"
          then Ok ("unshare" :: "--net" :: "--" :: argv)%string
          else Err (Unavailable "Linux sandbox runner has no network isolation")
      | Darwin =>
          if endsWith "sandbox-exec" first then
            match indexOf "-p" argv ≫= fun i => (fun p => (i, p)) <$> argv !! S i with
            | Some (i, profile) =>
                if String.eqb profile "" then Err (Unavailable "Seatbelt profile is missing")
                else Ok (<[S i := (profile +:+ " (deny network*)" +:+ boundary)%string]> argv)
            | None => Err (Unavailable "Seatbelt profile is missing")
            end
          else Err (Unavailable "Sandbox runner has no network isolation")
      | Windows => Err (Unavailable "Sandbox runner has no network isolation")
      end
  end.

(** ** Paths of tool calls *)

(** What is at a path. *)
Inductive node : Type := Entry | Link (target : string).
(** Where following a path ends: at something, with the links that may still be followed; at the
    first missing name, with what was left to follow; or after too many links. *)
Inductive outcome : Type := Found (left : nat) (p : abs) | Missing (p : abs) (rest : list string) | Loop.

Section Sandbox.
Context (cwd : abs) (fs : abs -> option node) (links : nat) (canonicalPath : abs -> abs).

Fixpoint walk (links : nat) : abs -> list string -> outcome :=
  fix go (cur : abs) (todo : list string) {struct todo} : outcome :=
    match todo with
    | [] => Found links cur
    | x :: todo =>
        if String.eqb x "" || String.eqb x "." then go cur todo
        else if String.eqb x ".." then go (dirname cur) todo
        else match fs (cur ++ [x]) with
             | None => Missing (cur ++ [x]) todo
             | Some Entry => go (cur ++ [x]) todo
             | Some (Link target) =>
                 match links with
                 | O => Loop
                 | S links => walk links (if isAbsolute target then [] else cur) (splitSlash target ++ todo)
                 end
             end
    end.

Definition existsSync (p : abs) : bool := match walk links [] p with Found _ _ => true | _ => false end.
Definition realpathSync (p : abs) : option abs := match walk links [] p with Found _ r => Some r | _ => None end.
(** The place an operation on a path reads or writes, or where it would create what is missing. *)
Definition reached (p : abs) : option abs :=
  match walk links [] p with Found _ r => Some r | Missing q rest => Some (q ++ rest) | Loop => None end.

(** The loop of [assertWorkspacePath]: up to the nearest existing parent. *)
Fixpoint nearestExisting (fuel : nat) (existing : abs) (suffix : list string) : result sandbox_error (abs * list string) :=
  match fuel with
  | O => Err OutOfFuel
  | S fuel =>
      if existsSync existing then Ok (existing, suffix)
      else
        let parent := dirname existing in
        if bool_decide (parent = existing) then Err EscapesWorkspace
        else nearestExisting fuel parent (suffix ++ [basename existing])
  end.

Definition assertWorkspacePath (path workspaceRoot : string) : result sandbox_error abs :=
  let absolute := resolve cwd [workspaceRoot; path] in
  let root := canonicalPath (resolve cwd [workspaceRoot]) in
  found ← nearestExisting (S (length absolute)) absolute [];
  match realpathSync found.1 with
  | None => Err RealpathFailed
  | Some real =>
      let candidate := resolve real (rev found.2) in
      let escaped := relative root candidate in
      if String.prefix ".." escaped || isAbsolute escaped then Err EscapesWorkspace else Ok candidate
  end.

(** ** What a tool call is turned into *)

Record Confined : Type := mkConfined { argv : list string; fullEnforcement : bool }.
Context (platform : Platform) (confine : list string -> PermissionMode -> abs -> option Confined) (boundary : abs -> string).

Inductive request : Type :=
| BashExec (command wd : string)
| ReadFile (path : string) | ReadAccess (path : string)
| WriteFile (path content : string) | Mkdir (path : string)
| EditRead (path : string) | EditWrite (path content : string) | EditAccess (path : string).

Inductive action : Type :=
| Spawn (argv : list string) (wd : abs)
| DoRead (p : abs) | DoAccess (p : abs) (writable : bool)
| DoWrite (p : abs) (content : string) | DoMkdir (p : abs).

Definition confinedOperation (root : abs) (mode : PermissionMode) (r : request) : result sandbox_error action :=
  let at_ p := assertWorkspacePath p (showAbs root) in
  let readOnly := bool_decide (mode = ReadOnly) in
  let write p content := if readOnly then Err ReadOnlySession else (fun p => DoWrite p content) <$> at_ p in
  match r with
  | BashExec command wd =>
      actualCwd ← at_ wd;
      match confine ["bash"; "-c"; command]%string mode root with
      | None => Err (Unavailable "confine")
      | Some confined =>
          _ ← require (fullEnforcement confined) (Unavailable "Sandbox backend provides only partial enforcement");
          argv ← networkIsolatedArgv platform (boundary root) (argv confined);
          Ok (Spawn argv actualCwd)
      end
  | ReadFile p | EditRead p => DoRead <$> at_ p
  | ReadAccess p => (fun p => DoAccess p false) <$> at_ p
  | WriteFile p content | EditWrite p content => write p content
  | Mkdir p => if readOnly then Err ReadOnlySession else DoMkdir <$> at_ p
  | EditAccess p => (fun p => DoAccess p (negb readOnly)) <$> at_ p
  end.

Definition unconfinedOperation (root : abs) (r : request) : result sandbox_error action :=
  let at_ p := resolve cwd [p] in
  match r with
  | BashExec command wd => Ok (Spawn ["bash"; "-c"; command]%string (if String.eqb wd "" then root else at_ wd))
  | ReadFile p | EditRead p => Ok (DoRead (at_ p))
  | ReadAccess p => Ok (DoAccess (at_ p) false)
  | WriteFile p content | EditWrite p content => Ok (DoWrite (at_ p) content)
  | Mkdir p => Ok (DoMkdir (at_ p))
  | EditAccess p => Ok (DoAccess (at_ p) true)
  end.

Definition operations (workspaceRoot : string) (mode : PermissionMode) (r : request) : result sandbox_error action :=
  match mode with
  | FullAccess => unconfinedOperation (resolve cwd [workspaceRoot]) r
  | _ => confinedOperation (canonicalPath (resolve cwd [workspaceRoot])) mode r
  end.

(** ** The search for an existing parent *)

Lemma dirname_fixed p : dirname p = p <-> p = [].
Proof.
  split; [|by intros ->]. intros H. destruct p as [|x p]; [done|]. pose proof (length_dirname (x :: p) ltac:(done)) as H0. rewrite H in H0. lia.
Qed.

(** The nearest existing ancestor, by definition. *)
Definition nearest (p existing : abs) (rest : list string) : Prop :=
  p = existing ++ rest /\ existsSync existing = true
  /\ forall a b, p = a ++ b -> (length b < length rest)%nat -> existsSync a = false.

Lemma nearestExisting_spec fuel p suffix : (length p < fuel)%nat ->
  match nearestExisting fuel p suffix with
  | Ok (e, s) => exists rest, s = suffix ++ rev rest /\ nearest p e rest
  | Err x => x = EscapesWorkspace /\ forall a b, p = a ++ b -> existsSync a = false
  end.
Proof.
  revert p suffix. induction fuel as [|fuel IH]; intros p suffix Hf; [lia|]. cbn.
  destruct (existsSync p) eqn:Ep.
  { exists []. cbn. rewrite !app_nil_r. split; [done|]. split; [by rewrite app_nil_r|]. split; [done|]. cbn. lia. }
  assert (forall a b, p = a ++ b -> b = [] -> existsSync a = false) as H0 by (intros a b -> ->; by rewrite app_nil_r in Ep).
  case_bool_decide as Hd.
  - apply dirname_fixed in Hd as ->. split; [done|]. intros a b [-> ->]%eq_sym%app_nil. done.
  - assert (p <> []) as Hp by (intros ->; apply Hd; by apply dirname_fixed).
    pose proof (length_dirname p Hp) as Hl. pose proof (dirname_basename p Hp) as Hs.
    assert (forall a b, p = a ++ b -> b <> [] -> exists b', b = b' ++ [basename p] /\ dirname p = a ++ b') as Hsplit.
    { intros a b Hab Hb. destruct b as [|x b' _] using rev_ind; [done|]. rewrite Hs, app_assoc in Hab.
      apply app_inj_tail in Hab as [H1 H2]. exists b'. by rewrite H2. }
    specialize (IH (dirname p) (suffix ++ [basename p])). destruct (nearestExisting fuel _ _) as [[e s]|x].
    + destruct IH as (rest & -> & Hn & He & Hmax); [lia|]. exists (rest ++ [basename p]). rewrite rev_app_distr. cbn. rewrite <- app_assoc.
      split; [done|]. split; [|split; [done|]]. { rewrite app_assoc, <- Hn. done. }
      intros a b Hab Hlen. destruct (decide (b = [])) as [->|Hb]; [eauto|]. destruct (Hsplit a b Hab Hb) as (b' & -> & Hab').
      apply (Hmax a b' Hab'). rewrite !length_app in Hlen. lia.
    + destruct IH as [-> Hmax]; [lia|]. split; [done|]. intros a b Hab. destruct (decide (b = [])) as [->|Hb]; [eauto|].
      destruct (Hsplit a b Hab Hb) as (b' & -> & Hab'). eauto.
Qed.

(** The path check terminates, and a path is accepted only as the real path of its nearest existing
    ancestor followed by the missing segments, and only if that lies inside the canonical
    workspace root. *)
Lemma workspace_path_ends path workspaceRoot : assertWorkspacePath path workspaceRoot <> Err OutOfFuel.
Proof.
  unfold assertWorkspacePath. set (p := resolve cwd [workspaceRoot; path]). pose proof (nearestExisting_spec (S (length p)) p []) as H.
  destruct (nearestExisting _ p []) as [[e s]|x]; cbn; [repeat case_match; done|]. destruct H as [-> _]; [lia|done].
Qed.

Lemma workspace_path_ok path workspaceRoot c :
  normal cwd -> (forall a b r, resolve cwd [workspaceRoot; path] = a ++ b -> realpathSync a = Some r -> normal r) ->
  assertWorkspacePath path workspaceRoot = Ok c ->
  canonicalPath (resolve cwd [workspaceRoot]) `prefix_of` c
  /\ exists existing rest real, nearest (resolve cwd [workspaceRoot; path]) existing rest
       /\ realpathSync existing = Some real /\ c = real ++ rest.
Proof.
  intros Hcwd Hreal. unfold assertWorkspacePath. set (p := resolve cwd [workspaceRoot; path]) in *.
  assert (normal p) as Hp by (by apply resolve_normal).
  pose proof (nearestExisting_spec (S (length p)) p []) as H. destruct (nearestExisting _ p []) as [[e s]|x]; cbn; [|done].
  destruct H as (rest & -> & Hn); [lia|]. destruct (realpathSync e) as [real|] eqn:Er; [|done].
  intros Hc. split_ifs_in Hc. boolify. split; [by apply relative_inside|].
  exists e, rest, real. split_and!; [done|done|]. cbn. rewrite rev_involutive. destruct Hn as (Hsp & _).
  apply resolve_rest; [by eapply Hreal|]. rewrite Hsp in Hp. by apply Forall_app in Hp as [_ ?].
Qed.

(** ** Following a path *)

Lemma walk_cons n cur x todo : walk n cur (x :: todo) =
  if String.eqb x "" || String.eqb x "." then walk n cur todo
  else if String.eqb x ".." then walk n (dirname cur) todo
  else match fs (cur ++ [x]) with
       | None => Missing (cur ++ [x]) todo
       | Some Entry => walk n (cur ++ [x]) todo
       | Some (Link target) =>
           match n with O => Loop | S n => walk n (if isAbsolute target then [] else cur) (splitSlash target ++ todo) end
       end.
Proof. by destruct n. Qed.
Lemma walk_nil n cur : walk n cur [] = Found n cur.
Proof. by destruct n. Qed.

Lemma walk_app n cur a b : walk n cur (a ++ b) =
  match walk n cur a with Found k r => walk k r b | Missing q rest => Missing q (rest ++ b) | Loop => Loop end.
Proof.
  revert cur a. induction n as [n IHn] using lt_wf_ind. intros cur a. revert cur. induction a as [|x a IH]; intros cur; [by rewrite walk_nil|].
  cbn [app]. rewrite !walk_cons. destruct (_ || _); [apply IH|]. destruct (String.eqb x ".."); [apply IH|].
  destruct (fs (cur ++ [x])) as [[|target]|]; [apply IH| |done]. destruct n as [|n]; [done|]. rewrite app_assoc. apply IHn. lia.
Qed.

(** More links allowed change nothing of a walk that ended. *)
Lemma walk_more k n cur t : (k <= n)%nat ->
  match walk k cur t with Found j r => exists j', walk n cur t = Found j' r | Missing q rest => walk n cur t = Missing q rest | Loop => True end.
Proof.
  revert n cur t. induction k as [k IHk] using lt_wf_ind. intros n cur t Hn. revert cur. induction t as [|x t IH]; intros cur; [rewrite !walk_nil; eauto|].
  rewrite !walk_cons. destruct (_ || _); [apply IH|]. destruct (String.eqb x ".."); [apply IH|].
  destruct (fs (cur ++ [x])) as [[|target]|]; [apply IH| |done]. destruct k as [|k]; [done|]. destruct n as [|n]; [lia|]. apply IHk; lia.
Qed.
Lemma walk_left n cur t k r : walk n cur t = Found k r -> (k <= n)%nat.
Proof.
  revert cur t. induction n as [n IHn] using lt_wf_ind. intros cur t. revert cur. induction t as [|x t IH]; intros cur; [rewrite walk_nil; intros [= -> _]; lia|].
  rewrite walk_cons. destruct (_ || _); [apply IH|]. destruct (String.eqb x ".."); [apply IH|].
  destruct (fs (cur ++ [x])) as [[|target]|]; [apply IH| |done]. destruct n as [|n]; [done|]. intros H%IHn; lia.
Qed.

(** A real path: no part of it is a link. *)
Definition solid (p : abs) : Prop := normal p /\ forall a b, p = a ++ b -> a <> [] -> fs a = Some Entry.

Lemma solid_prefix a b : solid (a ++ b) -> solid a.
Proof.
  intros [Hn Hs]. apply Forall_app in Hn as [Hn _]. split; [done|]. intros a' b' -> Ha. apply (Hs a' (b' ++ b)); [by rewrite app_assoc|done].
Qed.
Lemma solid_snoc cur x : solid cur -> segment x -> fs (cur ++ [x]) = Some Entry -> solid (cur ++ [x]).
Proof.
  intros [Hn Hs] Hx He. split; [apply Forall_app_2; [done|by apply Forall_singleton]|]. intros a b Hab Ha. destruct b as [|y b _] using rev_ind; [by rewrite app_nil_r in Hab; subst|].
  rewrite app_assoc in Hab. apply app_inj_tail in Hab as [Hab _]. by apply (Hs a b).
Qed.
Lemma solid_dirname p : solid p -> solid (dirname p).
Proof. intros H. destruct (decide (p = [])) as [->|Hp]; [done|]. rewrite (dirname_basename p Hp) in H. by eapply solid_prefix. Qed.

Lemma walk_solid n cur t k r : solid cur -> Forall (fun x => splitSlash x = [x]) t -> walk n cur t = Found k r -> solid r.
Proof.
  revert cur t. induction n as [n IHn] using lt_wf_ind. intros cur t Hc Ht. revert cur Hc. induction Ht as [|x t Hx Ht IH]; intros cur Hc; [rewrite walk_nil; by intros [= _ <-]|].
  rewrite walk_cons. destruct (String.eqb_spec x ""); [by apply IH|]. destruct (String.eqb_spec x "."); [by apply IH|]. cbn [orb].
  destruct (String.eqb_spec x ".."); [by apply IH, solid_dirname|]. destruct (fs (cur ++ [x])) as [[|target]|] eqn:Ef; [apply IH; by apply solid_snoc| |done].
  destruct n as [|n]; [done|]. apply IHn; [lia| |apply Forall_app; split; [apply splitSlash_segments|done]].
  destruct (isAbsolute target); [|done]. split; [constructor|]. by intros a b [-> _]%eq_sym%app_nil.
Qed.

Lemma walk_real n cur p : solid (cur ++ p) -> normal p -> walk n cur p = Found n (cur ++ p).
Proof.
  revert cur. induction p as [|x p IH]; intros cur Hs Hn; [by rewrite walk_nil, app_nil_r|]. inversion Hn as [|? ? (H1 & H2 & H3 & _) Hp]; subst.
  rewrite walk_cons. rewrite (proj2 (String.eqb_neq x "") H1), (proj2 (String.eqb_neq x ".") H2), (proj2 (String.eqb_neq x "..") H3). cbn [orb].
  assert (fs (cur ++ [x]) = Some Entry) as ->. { apply (proj2 Hs _ p); [by rewrite <- app_assoc|by destruct cur]. }
  replace (cur ++ x :: p) with ((cur ++ [x]) ++ p) in * by (by rewrite <- app_assoc). by apply IH.
Qed.

(** ** Where an accepted path leads *)

(** Every link in a directory leads to something that exists. *)
Definition noDangling (root : abs) : Prop := forall p target q rest, root `prefix_of` p -> fs p = Some (Link target) -> walk links [] p <> Missing q rest.
(** The host does not give up on the path for its number of links. *)
Definition followable (p : abs) : Prop := forall a b, p = a ++ b -> walk links [] a <> Loop.

Lemma segments_normal p : normal p -> Forall (fun x => splitSlash x = [x]) p.
Proof. intros H. eapply Forall_impl; [exact H|]. by intros x (_ & _ & _ & ?). Qed.

Lemma accepted_place root path c : normal cwd -> canonicalPath root = root -> solid root -> noDangling root ->
  followable (resolve cwd [showAbs root; path]) -> assertWorkspacePath path (showAbs root) = Ok c ->
  root `prefix_of` c /\ reached c = Some c /\ reached (resolve cwd [showAbs root; path]) = Some c.
Proof.
  intros Hcwd Hcan Hroot Hno Hloop Hok. set (p := resolve cwd [showAbs root; path]) in *. assert (normal p) as Hp by (by apply resolve_normal).
  assert (solid []) as Hnil by (split; [constructor|]; by intros a b [-> _]%eq_sym%app_nil).
  assert (forall a b r, p = a ++ b -> realpathSync a = Some r -> exists k, walk links [] a = Found k r /\ (k <= links)%nat /\ solid r) as Hreal.
  { intros a b r Hab Hr. unfold realpathSync in Hr. destruct (walk links [] a) as [k r'| |] eqn:Hw; [|done..]. injection Hr as ->.
    exists k. split_and!; [done|by eapply walk_left|]. eapply walk_solid; [exact Hnil| |exact Hw]. rewrite Hab in Hp. apply Forall_app in Hp as [Ha _]. by apply segments_normal. }
  destruct (workspace_path_ok path (showAbs root) c Hcwd) as (Hin & existing & rest & real & Hn & Hr & ->); [|done|].
  { intros a b r Hab Hr. destruct (Hreal a b r Hab Hr) as (_ & _ & _ & Hs). apply Hs. }
  rewrite resolve_showAbs, Hcan in Hin by apply Hroot. fold p in Hn. destruct Hn as (Hsp & _ & Hmax). destruct (Hreal _ _ _ Hsp Hr) as (k & Hw & Hk & Hs).
  split; [done|]. assert (normal rest) as Hrest by (rewrite Hsp in Hp; by apply Forall_app in Hp as [_ ?]).
  assert (walk links [] p = walk k real rest) as Ep by (by rewrite Hsp, walk_app, Hw).
  assert (walk links [] (real ++ rest) = walk links real rest) as Ec by (by rewrite walk_app, (walk_real links [] real Hs (proj1 Hs))).
  unfold reached. rewrite Ep, Ec. destruct rest as [|y rest]; [rewrite !walk_nil, !app_nil_r; done|].
  inversion Hrest as [|? ? (H1 & H2 & H3 & _) _]; subst. rewrite !walk_cons.
  rewrite (proj2 (String.eqb_neq y "") H1), (proj2 (String.eqb_neq y ".") H2), (proj2 (String.eqb_neq y "..") H3). cbn [orb].
  assert (walk links [] (existing ++ [y]) = walk k real [y]) as Ey by (by rewrite walk_app, Hw).
  assert (existsSync (existing ++ [y]) = false) as Hy. { apply (Hmax _ rest); [by rewrite Hsp, <- app_assoc|cbn; lia]. }
  unfold existsSync in Hy. rewrite Ey in Hy. destruct (fs (real ++ [y])) as [[|target]|] eqn:Ef; [| |by rewrite <- !app_assoc].
  { rewrite walk_cons, (proj2 (String.eqb_neq y "") H1), (proj2 (String.eqb_neq y ".") H2), (proj2 (String.eqb_neq y "..") H3) in Hy. cbn [orb] in Hy. by rewrite Ef, walk_nil in Hy. }
  exfalso. destruct (walk k real [y]) as [|q t|] eqn:Wy; [done| |].
  - apply (Hno (real ++ [y]) target q t).
    + destruct (prefix_weak_total root (real ++ [y]) (real ++ y :: rest)) as [Hpre|[z Hz]]; [done|by exists rest; rewrite <- app_assoc|done|].
      rewrite (proj2 Hroot (real ++ [y]) z Hz) in Ef by (by destruct real). done.
    + done.
    + rewrite walk_app, (walk_real links [] real Hs (proj1 Hs)). pose proof (walk_more k links real [y] Hk) as Hm. by rewrite Wy in Hm.
  - apply (Hloop (existing ++ [y]) rest); [by rewrite Hsp, <- app_assoc|done].
Qed.

(** ** What a tool call does *)

(** The path of the call the host is given; for a command, the directory it is started in. *)
Definition actsOn (a : action) : abs :=
  match a with Spawn _ p | DoRead p | DoAccess p _ | DoWrite p _ | DoMkdir p => p end.
(** The path the tool asked for. *)
Definition aimedAt (r : request) : string :=
  match r with BashExec _ p | ReadFile p | ReadAccess p | WriteFile p _ | Mkdir p | EditRead p | EditWrite p _ | EditAccess p => p end.
(** The call is of the kind the tool asked for. *)
Definition sameKind (r : request) (a : action) : Prop :=
  match r, a with
  | BashExec _ _, Spawn _ _ | ReadFile _, DoRead _ | EditRead _, DoRead _ | ReadAccess _, DoAccess _ false | EditAccess _, DoAccess _ _ | Mkdir _, DoMkdir _ => True
  | WriteFile _ content, DoWrite _ content' | EditWrite _ content, DoWrite _ content' => content = content'
  | _, _ => False
  end.
(** The call writes, creates or asks for leave to write; a command is not such a call, its writes
    are the sandbox library's affair. *)
Definition writesFile (a : action) : bool :=
  match a with DoWrite _ _ | DoMkdir _ | DoAccess _ true => true | _ => false end.

(** C17. Without full access a file call of a tool acts on exactly the place the tool asked for,
    after every link has been followed, and only if that is inside the canonical workspace root;
    in a read-only session no file call writes, creates or asks for leave to write.  A command is
    started in such a directory, under a sandbox of the workspace root and of the session's mode
    that enforces fully, with the network isolation added to its command line; what it does there
    is up to that sandbox.  This is under the condition that no symbolic link in the workspace
    dangles, without which it is false ([dangling_link_escapes]), and that the host does not give
    up on the number of links; the canonical root is a real path and its own canonical path. *)
Theorem tool_calls_are_confined workspaceRoot mode r a :
  let root := canonicalPath (resolve cwd [workspaceRoot]) in
  normal cwd -> canonicalPath root = root -> solid root -> noDangling root -> followable (resolve cwd [showAbs root; aimedAt r]) ->
  mode <> FullAccess -> operations workspaceRoot mode r = Ok a ->
  sameKind r a
  /\ (root `prefix_of` actsOn a /\ reached (actsOn a) = Some (actsOn a) /\ reached (resolve cwd [showAbs root; aimedAt r]) = Some (actsOn a))
  /\ (mode = ReadOnly -> writesFile a = false)
  /\ (forall av wd, a = Spawn av wd -> exists command cf, r = BashExec command (aimedAt r) /\ confine ["bash"; "-c"; command]%string mode root = Some cf
        /\ fullEnforcement cf = true /\ networkIsolatedArgv platform (boundary root) (argv cf) = Ok av).
Proof.
  intros root Hc Hcan Hroot Hno Hloop Hm H. assert (confinedOperation root mode r = Ok a) as H' by (by destruct mode). clear H.
  assert (forall c, assertWorkspacePath (aimedAt r) (showAbs root) = Ok c -> root `prefix_of` c /\ reached c = Some c /\ reached (resolve cwd [showAbs root; aimedAt r]) = Some c) as Hin
    by (intros c; by apply accepted_place).
  destruct r; cbv beta iota zeta delta [confinedOperation] in H'; cbn [aimedAt] in *;
    repeat first [ apply bind_Ok in H' as (? & ? & H') | injection H' as <-
                 | match type of H' with context [bool_decide ?P] => destruct (bool_decide_reflect P); try discriminate H' end ].
  all: try (cbn [actsOn writesFile sameKind]; split_and!; [try done; by destruct (negb _)|by apply Hin..|by intros ->|done]).
  destruct (confine _ _ _) as [cf|] eqn:Ecf; [|done].
  apply bind_Ok in H' as (u & Hf%require_Ok & (av & Hav & [= <-])%bind_Ok). cbn [actsOn writesFile sameKind]. split_and!; [done|by apply Hin..|done|].
  intros ? ? [= <- <-]. eauto 10.
Qed.
End Sandbox.

(** ** What isolation changes of the command line *)

Lemma indexOf_Some x l i : indexOf x l = Some i -> l = take i l ++ x :: drop (S i) l /\ x ∉ take i l.
Proof.
  revert i. induction l as [|y l IH]; intros i; cbn; [done|]. destruct (String.eqb_spec y x) as [->|Hne].
  - intros [= <-]. cbn. rewrite drop_0. split; [done|]. apply not_elem_of_nil.
  - destruct (indexOf x l) as [j|] eqn:E; [|done]. intros [= <-]. destruct (IH j eq_refl) as [H1 H2]. cbn.
    split; [by f_equal|]. apply not_elem_of_cons. by split.
Qed.

(** On Linux the isolated command line runs the same command, and the isolation stands before
    the separator that ends the runner's own options. *)
Lemma linux_isolation argv boundary av : networkIsolatedArgv Linux boundary argv = Ok av ->
  exists pre command, argv = pre ++ "--"%string :: command /\ pre <> [] /\ "--"%string ∉ pre
    /\ (av = pre ++ "--unshare-net"%string :: "--"%string :: command \/ av = ("unshare" :: "--net" :: "--" :: argv)%string).
Proof.
  unfold networkIsolatedArgv. destruct (indexOf "--" argv) as [[|i]|] eqn:E; [done| |done]. intros H.
  destruct (indexOf_Some _ _ _ E) as [Hs Hn]. exists (take (S i) argv), (drop (S (S i)) argv). split_and!; [done| |done|].
  - intros H0. rewrite H0 in Hs. cbn in Hs. rewrite Hs in E. done.
  - split_ifs_in H; [left|by right..]. f_equal. f_equal. rewrite Hs at 1. rewrite drop_app_ge by (rewrite length_take; lia).
    rewrite length_take_le. 2:{ apply (f_equal length) in Hs. rewrite length_app in Hs. cbn in Hs. rewrite length_take in Hs. lia. }
    by rewrite Nat.sub_diag.
Qed.

(** ** The lifetime of a process ([run])

    The variables of the closure, with the timers as flags that say whether they are armed and
    the listeners of the child and of the abort signal as flags that say whether they are still
    registered.  [signals] and [outcomes] record what was sent to the process group and how the
    promise was settled. *)

Module Process.

Inductive signal : Type := SIGTERM | SIGKILL.
Inductive run_error : Type := Aborted | TimedOut | ChildError | InvalidTimeout.
Inductive outcome : Type := Resolved (exitCode : option Z) | Rejected (e : run_error).
#[export] Instance signal_eq_dec : EqDecision signal.
Proof. solve_decision. Defined.

Record State : Type := mkState {
  timeoutArmed : bool; killArmed : bool; terminationError : option run_error; settled : bool;
  abortListener : bool; errorListener : bool; closeListener : bool;
  signals : list signal; outcomes : list outcome;
}.

(** The start: refused before anything is spawned, or the state in which the child runs. *)
Definition start (alreadyAborted hasSignal : bool) (timeout : option num) : result run_error State :=
  if alreadyAborted then Err Aborted
  else if match timeout with
          | None => false
          | Some (Fin t) => t <=? 0
          | Some _ => true
          end then Err InvalidTimeout
  else Ok (mkState (match timeout with Some _ => true | None => false end) false None false hasSignal true true [] []).

Definition finish (o : outcome) (s : State) : State :=
  if settled s then s
  else mkState false false (terminationError s) true false (errorListener s) (closeListener s) (signals s) (outcomes s ++ [o]).

Definition kill (x : signal) (s : State) : State :=
  mkState (timeoutArmed s) (killArmed s) (terminationError s) (settled s) (abortListener s) (errorListener s) (closeListener s)
    (signals s ++ [x]) (outcomes s).

Definition terminate (e : run_error) (s : State) : State :=
  match terminationError s with
  | Some _ => s
  | None =>
      if settled s then s
      else
        let s := kill SIGTERM (mkState (timeoutArmed s) (killArmed s) (Some e) (settled s) (abortListener s) (errorListener s) (closeListener s) (signals s) (outcomes s)) in
        mkState (timeoutArmed s) true (terminationError s) (settled s) (abortListener s) (errorListener s) (closeListener s) (signals s) (outcomes s)
  end.

Inductive event : Type := AbortSignal | TimeoutFires | KillFires | ErrorEvent | CloseEvent (code : option Z).

(** A cleared timer does not fire, a removed listener is not called; [once] listeners are
    removed by the event. *)
Definition handle (s : State) (e : event) : State :=
  match e with
  | AbortSignal =>
      if abortListener s
      then terminate Aborted (mkState (timeoutArmed s) (killArmed s) (terminationError s) (settled s) false (errorListener s) (closeListener s) (signals s) (outcomes s))
      else s
  | TimeoutFires =>
      if timeoutArmed s
      then terminate TimedOut (mkState false (killArmed s) (terminationError s) (settled s) (abortListener s) (errorListener s) (closeListener s) (signals s) (outcomes s))
      else s
  | KillFires =>
      if killArmed s
      then kill SIGKILL (mkState (timeoutArmed s) false (terminationError s) (settled s) (abortListener s) (errorListener s) (closeListener s) (signals s) (outcomes s))
      else s
  | ErrorEvent =>
      if errorListener s
      then finish (Rejected ChildError) (mkState (timeoutArmed s) (killArmed s) (terminationError s) (settled s) (abortListener s) false (closeListener s) (signals s) (outcomes s))
      else s
  | CloseEvent code =>
      if closeListener s
      then finish (match terminationError s with Some e => Rejected e | None => Resolved code end)
             (mkState (timeoutArmed s) (killArmed s) (terminationError s) (settled s) (abortListener s) (errorListener s) false (signals s) (outcomes s))
      else s
  end.

(** The signals a state may have sent, by what it remembers. *)
Definition sent (s : State) : Prop :=
  match terminationError s with
  | None => signals s = [] /\ killArmed s = false
  | Some _ => (signals s = [SIGTERM] \/ signals s = [SIGTERM; SIGKILL]) /\ (killArmed s = true -> signals s = [SIGTERM])
  end.

Definition ok_state (s : State) : Prop :=
  sent s /\ (if settled s then timeoutArmed s = false /\ killArmed s = false /\ abortListener s = false /\ exists o, outcomes s = [o]
             else outcomes s = [] /\ closeListener s = true /\ errorListener s = true).

Lemma handle_ok s e : ok_state s -> ok_state (handle s e).
Proof.
  destruct s as [ta ka te se al el cl sg oc]. unfold ok_state, sent. cbn. intros [Hs Ho].
  destruct e; cbn; destruct ta, ka, te, se, al, el, cl; cbn in *; destruct_and?; destruct_or?; simplify_eq/=;
    try (split_and!; eauto; fail); try discriminate; try naive_solver.
Qed.

Lemma handle_settled s e : settled s = true -> settled (handle s e) = true /\ outcomes (handle s e) = outcomes s.
Proof.
  destruct s as [ta ka te se al el cl sg oc]. cbn. intros ->.
  destruct e; cbn; destruct ta, ka, te, al, el, cl; done.
Qed.

Lemma run_ok l s : ok_state s -> ok_state (fold_left handle l s).
Proof. revert s. induction l as [|e l IH]; intros s H; cbn; [done|]. by apply IH, handle_ok. Qed.

Lemma run_settled l s : settled s = true -> settled (fold_left handle l s) = true.
Proof. revert s. induction l as [|e l IH]; intros s H; cbn; [done|]. by apply IH, handle_settled. Qed.

(** An error or a close settles. *)
Lemma ending_settles s e : ok_state s -> (e = ErrorEvent \/ exists code, e = CloseEvent code) -> settled (handle s e) = true.
Proof.
  intros [_ Ho] He. destruct (settled s) eqn:Es; [by apply handle_settled|]. destruct s as [ta ka te se al el cl sg oc]. cbn in *.
  destruct Ho as (_ & -> & ->). subst. destruct He as [->|[code ->]]; done.
Qed.

Lemma process_start_ok a h t s : start a h t = Ok s -> ok_state s.
Proof.
  unfold start. destruct a; [done|]. destruct (match t with None => _ | _ => _ end); [done|]. by intros [= <-].
Qed.

(** A started process settles its promise at most once, and exactly when the child
    reports an error or closes; by then both timers are cleared and the abort listener is
    gone.  A termination sends SIGTERM once and SIGKILL at most once, after it, and never once
    the promise is settled; a close after a termination rejects with the first cause of the
    termination, and a plain close resolves with the exit code. *)
Theorem process_settles_once alreadyAborted hasSignal timeout s0 l :
  start alreadyAborted hasSignal timeout = Ok s0 ->
  let s := fold_left handle l s0 in
  (if settled s then timeoutArmed s = false /\ killArmed s = false /\ abortListener s = false /\ exists o, outcomes s = [o]
   else outcomes s = [] /\ forall e, e ∈ l -> e <> ErrorEvent /\ forall code, e <> CloseEvent code)
  /\ (signals s = [] \/ signals s = [SIGTERM] \/ signals s = [SIGTERM; SIGKILL])
  /\ (forall e, settled s = true -> signals (handle s e) = signals s /\ outcomes (handle s e) = outcomes s)
  /\ (forall code, settled s = false ->
        outcomes (handle s (CloseEvent code)) = [match terminationError s with Some x => Rejected x | None => Resolved code end])
  /\ (forall e x, terminationError s = Some x -> terminationError (handle s e) = Some x).
Proof.
  intros H0%process_start_ok s. pose proof (run_ok l s0 H0) as Hok. fold s in Hok. pose proof Hok as [Hsent Hset]. split_and!.
  - destruct (settled s) eqn:Es; [done|]. destruct Hset as (Ho & _). split; [done|]. intros e (l1 & l2 & ->)%list_elem_of_split.
    unfold s in Es. rewrite fold_left_app in Es. cbn [fold_left] in Es.
    assert (~ (e = ErrorEvent \/ exists code, e = CloseEvent code)) as Hn; [|naive_solver].
    intros He. rewrite run_settled in Es; [done|]. apply ending_settles; [by apply run_ok|done].
  - unfold sent in Hsent. destruct (terminationError s); naive_solver.
  - intros e Hs. rewrite Hs in Hset. destruct s as [ta ka te se al el cl sg oc]. cbn in *. destruct Hset as (-> & -> & -> & _). subst.
    destruct e; cbn; try done; [destruct el|destruct cl]; done.
  - intros code Hs. rewrite Hs in Hset. destruct s as [ta ka te se al el cl sg oc]. cbn in *. destruct Hset as (-> & -> & ->). by subst.
  - intros e x Hx. destruct s as [ta ka te se al el cl sg oc]. cbn in *. subst. destruct e, ta, ka, se, al, el, cl; done.
Qed.
End Process.

(** ** Instances *)

(** A host with [/], [/w], [/w/a], a link [/w/in] to [a] beside it and a link [/w/out] to [/etc]. *)
Definition demoNodes : list (abs * node) :=
  [(["w"], Entry); (["w"; "a"], Entry); (["w"; "in"], Link "./a"); (["w"; "out"], Link "/etc"); (["etc"], Entry)]%string.
Definition nodesAt (l : list (abs * node)) (p : abs) : option node := snd <$> List.find (fun x => bool_decide (x.1 = p)) l.
Definition demoFs : abs -> option node := nodesAt demoNodes.
Definition demoCanonical (_ : abs) : abs := ["w"%string].
Definition demoConfine (c : list string) (_ : PermissionMode) (_ : abs) : option Confined :=
  Some (mkConfined (["bwrap"; "--ro-bind"; "/"; "/"; "--"]%string ++ c) true).

Example link_inside_followed : assertWorkspacePath [] demoFs 40 demoCanonical "in/b.txt" "/w" = Ok ["w"; "a"; "b.txt"]%string.
Proof. reflexivity. Qed.
Example link_outside_refused : assertWorkspacePath [] demoFs 40 demoCanonical "out/passwd" "/w" = Err EscapesWorkspace.
Proof. reflexivity. Qed.

(** A link in the workspace to a file outside that does not exist yet passes the check, because the
    link itself counts as missing; writing to it creates the file outside. *)
Definition danglingFs : abs -> option node := nodesAt ((["w"; "new"], Link "/etc/cron")%string :: demoNodes).
Example dangling_link_escapes :
  operations [] danglingFs 40 demoCanonical Linux demoConfine (fun _ => ""%string) "/w" WorkspaceWrite (WriteFile "new" "x") = Ok (DoWrite ["w"; "new"]%string "x"%string)
  /\ reached danglingFs 40 ["w"; "new"]%string = Some ["etc"; "cron"]%string.
Proof. split; reflexivity. Qed.

Lemma demo_nodes p n : demoFs p = Some n -> (p, n) ∈ demoNodes.
Proof.
  unfold demoFs, nodesAt. destruct (List.find _ demoNodes) as [[q m]|] eqn:E; [|done]. intros [= <-]. apply find_some in E as [Hin Hq].
  apply bool_decide_eq_true in Hq. cbn in Hq. subst. by apply list_elem_of_In.
Qed.
Lemma demo_solid : solid demoFs ["w"%string].
Proof.
  split; [by repeat constructor|]. intros [|x [|y a]] b Hab Ha; [done|by injection Hab as <- <-|discriminate Hab].
Qed.
Lemma demo_no_dangling : noDangling demoFs 40 ["w"%string].
Proof.
  intros p target q rest _ Hl%demo_nodes. repeat (apply elem_of_cons in Hl as [Hl|Hl]; [injection Hl as -> ?; done|]). by apply not_elem_of_nil in Hl.
Qed.

(** A command in the workspace of a read-only session, and a file written through a link inside. *)
Lemma tool_calls_are_confined_witness :
  (exists command cf, demoConfine ["bash"; "-c"; command]%string ReadOnly ["w"%string] = Some cf /\ fullEnforcement cf = true
    /\ networkIsolatedArgv Linux "" (argv cf)
       = Ok ["bwrap"; "--ro-bind"; "/"; "/"; "--unshare-net"; "--"; "bash"; "-c"; "ls"]%string)
  /\ operations [] demoFs 40 demoCanonical Linux demoConfine (fun _ => ""%string) "/w" WorkspaceWrite (WriteFile "in/b.txt" "x")
     = Ok (DoWrite ["w"; "a"; "b.txt"]%string "x"%string)
  /\ reached demoFs 40 ["w"; "in"; "b.txt"]%string = Some ["w"; "a"; "b.txt"]%string.
Proof.
  assert (forall p, demoCanonical p = ["w"%string]) as Hcan by reflexivity.
  split; [|split; [reflexivity|]].
  - destruct (tool_calls_are_confined [] demoFs 40 demoCanonical Linux demoConfine (fun _ => ""%string) "/w" ReadOnly
                (BashExec "ls" "") (Spawn ["bwrap"; "--ro-bind"; "/"; "/"; "--unshare-net"; "--"; "bash"; "-c"; "ls"]%string ["w"%string]))
      as (_ & _ & _ & H); [constructor|reflexivity|exact demo_solid|exact demo_no_dangling| |discriminate|reflexivity|].
    + intros [|x [|y a]] b Hab; [done|by injection Hab as <- <-|discriminate Hab].
    + destruct (H _ _ eq_refl) as (command & cf & _ & H'). exists command, cf. exact H'.
  - destruct (tool_calls_are_confined [] demoFs 40 demoCanonical Linux demoConfine (fun _ => ""%string) "/w" WorkspaceWrite
                (WriteFile "in/b.txt" "x") (DoWrite ["w"; "a"; "b.txt"]%string "x"%string))
      as (_ & (_ & _ & H) & _); [constructor|reflexivity|exact demo_solid|exact demo_no_dangling| |discriminate|reflexivity|exact H].
    intros [|x [|y [|z [|t a]]]] b Hab; [done|by injection Hab as <- <-|by injection Hab as <- <- <-|by injection Hab as <- <- <- <-|discriminate Hab].
Defined.

Lemma process_settles_once_witness :
  exists s0, Process.start false true (Some (Fin 5)) = Ok s0
  /\ Process.outcomes (Process.handle (fold_left Process.handle [Process.TimeoutFires; Process.AbortSignal; Process.KillFires] s0) (Process.CloseEvent None))
     = [Process.Rejected Process.TimedOut].
Proof.
  eexists. split; [reflexivity|].
  destruct (Process.process_settles_once false true (Some (Fin 5)) _ [Process.TimeoutFires; Process.AbortSignal; Process.KillFires] eq_refl)
    as (_ & _ & _ & H & _).
  exact (H None eq_refl).
Defined.
