(* ===== verification/Async.v ===== *)
(** Asynchronous code of one process.

    JavaScript runs a function without interruption between two [await]s; at an [await] any
    other code of the process may run.  [async] is the type of such functions: reading the
    clock and the shared state, writing it, and awaiting the reply to a request.  [runs] gives
    every run in which the rest of the process changes the state by [rely] at each [await] and
    replies are arbitrary; it records the requests with their replies.  [wp] is the weakest
    precondition that proves facts about all runs. *)

From S2P Require Import Prelude.

Section Async.
Context {W C Q R E : Type}.

Inductive async (A : Type) : Type :=
| Done (r : result E A)
| Get (k : C -> W -> async A)
| Put (w : W) (k : async A)
| Await (q : Q) (k : result E R -> async A).
Arguments Done {A} r.
Arguments Get {A} k.
Arguments Put {A} w k.
Arguments Await {A} q k.

(** [then]: continue with whatever the first part returned or threw. *)
Fixpoint afterwards {A B} (c : async A) (f : result E A -> async B) : async B :=
  match c with
  | Done r => f r
  | Get k => Get (fun t w => afterwards (k t w) f)
  | Put w k => Put w (afterwards k f)
  | Await q k => Await q (fun r => afterwards (k r) f)
  end.

#[global] Instance async_ret : MRet async := fun A a => Done (Ok a).
#[global] Instance async_bind : MBind async := fun A B f c =>
  afterwards c (fun r => match r with Ok a => f a | Err e => Done (Err e) end).

Definition throw {A} (e : E) : async A := Done (Err e).
(** A synchronous piece of code: one clock reading, from the state to the state. *)
Definition atomically {A} (f : C -> W -> W * result E A) : async A :=
  Get (fun t w => Put (f t w).1 (Done (f t w).2)).
(** [await host.request(q)]. *)
Definition await (q : Q) : async R := Await q Done.
(** [c.finally(f)] with a synchronous [f]. *)
Definition finally {A} (c : async A) (f : W -> W) : async A :=
  afterwards c (fun r => Get (fun _ w => Put (f w) (Done r))).

Section Runs.
Variable rely : W -> W -> Prop.

Inductive runs {A} : W -> async A -> list (Q * result E R) -> result E A -> W -> Prop :=
| runs_done r w : runs w (Done r) [] r w
| runs_get k t w log r w' : runs w (k t w) log r w' -> runs w (Get k) log r w'
| runs_put w0 w k log r w' : runs w k log r w' -> runs w0 (Put w k) log r w'
| runs_await q k x w w1 log r w' : rely w w1 -> runs w1 (k x) log r w' -> runs w (Await q k) ((q, x) :: log) r w'.

Fixpoint wp {A} (c : async A) (Φ : list (Q * result E R) -> result E A -> W -> Prop) (log : list (Q * result E R)) (w : W) : Prop :=
  match c with
  | Done r => Φ log r w
  | Get k => forall t, wp (k t w) Φ log w
  | Put w' k => wp k Φ log w'
  | Await q k => forall x w', rely w w' -> wp (k x) Φ (log ++ [(q, x)]) w'
  end.

Lemma wp_adequate {A} (c : async A) Φ log0 w log r w' :
  wp c Φ log0 w -> runs w c log r w' -> Φ (log0 ++ log) r w'.
Proof.
  intros Hwp Hr. revert log0 Hwp. induction Hr; cbn; intros log0 Hwp; [by rewrite app_nil_r|auto..].
  rewrite cons_middle, app_assoc. auto.
Qed.

Lemma wp_mono {A} (c : async A) (Φ Ψ : list (Q * result E R) -> result E A -> W -> Prop) log w :
  (forall log' r w', log `prefix_of` log' -> Φ log' r w' -> Ψ log' r w') -> wp c Φ log w -> wp c Ψ log w.
Proof.
  revert log w. induction c as [r|k IH|w1 k IH|q k IH]; cbn; intros log w H; auto.
  intros Hwp x w' Hr. apply IH; [|auto]. intros log' r w'' Hp. apply H. etrans; [|done]. by eexists.
Qed.

Lemma wp_afterwards {A B} (c : async A) (f : result E A -> async B) Φ log w :
  wp c (fun log r w => wp (f r) Φ log w) log w -> wp (afterwards c f) Φ log w.
Proof. revert log w. induction c as [r|k IH|w1 k IH|q k IH]; cbn; intros log w H; auto. Qed.

Lemma wp_bind {A B} (c : async A) (f : A -> async B) Φ log w :
  wp c (fun log r w => match r with Ok a => wp (f a) Φ log w | Err e => Φ log (Err e) w end) log w ->
  wp (c ≫= f) Φ log w.
Proof. intros H. apply wp_afterwards. eapply wp_mono; [|done]. by intros log' [a|e] w' _. Qed.

Lemma wp_atomically {A} (f : C -> W -> W * result E A) Φ log w :
  (forall t, Φ log (f t w).2 (f t w).1) -> wp (atomically f) Φ log w.
Proof. done. Qed.

Lemma wp_await q Φ log w : (forall x w', rely w w' -> Φ (log ++ [(q, x)]) x w') -> wp (await q) Φ log w.
Proof. done. Qed.

Lemma wp_finally {A} (c : async A) f Φ log w :
  wp c (fun log r w => Φ log r (f w)) log w -> wp (finally c f) Φ log w.
Proof. intros H. apply wp_afterwards. eapply wp_mono; [|done]. cbn. auto. Qed.

(** *** Crashes

    [stops w c w']: a run from [w] that is cut off anywhere leaves [w'].  [wpc] is the
    weakest precondition that also keeps [I] at every point where the run may be cut off. *)
Inductive stops {A} : W -> async A -> W -> Prop :=
| stops_here w c : stops w c w
| stops_get k t w w' : stops w (k t w) w' -> stops w (Get k) w'
| stops_put w0 w k w' : stops w k w' -> stops w0 (Put w k) w'
| stops_await q k x w w1 w' : rely w w1 -> stops w1 (k x) w' -> stops w (Await q k) w'.

Fixpoint wpc {A} (c : async A) (Φ : result E A -> W -> Prop) (I : W -> Prop) (w : W) : Prop :=
  I w /\
  match c with
  | Done r => Φ r w
  | Get k => forall t, wpc (k t w) Φ I w
  | Put w' k => wpc k Φ I w'
  | Await q k => forall x w', rely w w' -> wpc (k x) Φ I w'
  end.

Lemma wpc_stops {A} (c : async A) Φ I w w' : wpc c Φ I w -> stops w c w' -> I w'.
Proof. intros Hw Hs. induction Hs as [w [] | | | ]; cbn in Hw; destruct Hw as [? Hw]; auto. Qed.

Lemma wpc_runs {A} (c : async A) Φ I w log r w' : wpc c Φ I w -> runs w c log r w' -> Φ r w' /\ I w'.
Proof. intros Hw Hr. induction Hr; cbn in Hw; destruct Hw as [? Hw]; auto. Qed.

Lemma wpc_mono {A} (c : async A) (Φ Ψ : result E A -> W -> Prop) I w :
  (forall r w', Φ r w' -> Ψ r w') -> wpc c Φ I w -> wpc c Ψ I w.
Proof. intros H. revert w. induction c as [r|k IH|w1 k IH|q k IH]; cbn; intros w [? Hw]; split; auto. Qed.

Lemma wpc_afterwards {A B} (c : async A) (f : result E A -> async B) Φ I w :
  wpc c (fun r w => wpc (f r) Φ I w) I w -> wpc (afterwards c f) Φ I w.
Proof. revert w. induction c as [r|k IH|w1 k IH|q k IH]; cbn; intros w [? H]; try split; auto. Qed.

Lemma wpc_bind {A B} (c : async A) (f : A -> async B) Φ I w :
  wpc c (fun r w => match r with Ok a => wpc (f a) Φ I w | Err e => Φ (Err e) w /\ I w end) I w -> wpc (c ≫= f) Φ I w.
Proof.
  intros H. apply wpc_afterwards. revert H. generalize w. induction c as [r|k IH|w1 k IH|q k IH]; cbn; intros w0 [HI H]; split; auto.
  destruct r as [a|e]; cbn; [done|]. by destruct H.
Qed.

Lemma wpc_atomically {A} (f : C -> W -> W * result E A) Φ (I : W -> Prop) w :
  I w -> (forall t, I (f t w).1 /\ Φ (f t w).2 (f t w).1) -> wpc (atomically f) Φ I w.
Proof. intros HI H. cbn. split; [done|]. intros t. destruct (H t). auto. Qed.
End Runs.

(** A run in which nothing else happens: every request is answered by [host]. *)
Fixpoint run_alone {A} (clock : C) (host : Q -> result E R) (c : async A) (w : W) : result E A * W :=
  match c with
  | Done r => (r, w)
  | Get k => run_alone clock host (k clock w) w
  | Put w' k => run_alone clock host k w'
  | Await q k => run_alone clock host (k (host q)) w
  end.

Fixpoint log_alone {A} (clock : C) (host : Q -> result E R) (c : async A) (w : W) : list (Q * result E R) :=
  match c with
  | Done r => []
  | Get k => log_alone clock host (k clock w) w
  | Put w' k => log_alone clock host k w'
  | Await q k => (q, host q) :: log_alone clock host (k (host q)) w
  end.

Lemma run_alone_runs (rely : W -> W -> Prop) {A} clock host (c : async A) w : (forall w, rely w w) ->
  runs rely w c (log_alone clock host c w) (run_alone clock host c w).1 (run_alone clock host c w).2.
Proof.
  intros Hr. revert w. induction c as [r|k IH|w1 k IH|q k IH]; cbn; intros w; [constructor|..].
  - eapply runs_get, IH.
  - apply runs_put, IH.
  - eapply runs_await; [apply Hr|apply IH].
Qed.

Lemma log_alone_host {A} clock host (c : async A) w q r : (q, r) ∈ log_alone clock host c w -> r = host q.
Proof.
  revert w. induction c as [|k IH|w1 k IH|q' k IH]; cbn; intros w; [by intros ?%not_elem_of_nil|by apply IH..|].
  intros [[= -> ->]|H]%elem_of_cons; [done|]. by eapply IH.
Qed.
End Async.
Arguments async : clear implicits.
Arguments Done {W C Q R E A} r.
Arguments Get {W C Q R E A} k.
Arguments Put {W C Q R E A} w k.
Arguments Await {W C Q R E A} q k.
