(* ===== verification/Directories.v ===== *)
(** Local directories a member has granted to employees (storage/local-directories.ts,
    [LocalDirectoryStore]; the policy and authorization of services/local-directories.ts).

    The two tables are lists of rows.  Revisions are integers; whether a requested revision is
    a safe integer is part of the input ([num]). *)

From S2P Require Import Prelude Sql.
From S2P Require Projections Conversations ExecAuth.
Local Open Scope Z_scope.

Inductive dir_error : Type :=
| DirectoryError (code : string)
| OtherError (what : string)
| OutOfFuel (* of the model only *).

Record DirectoryOwner : Type := mkDOwner { tenantId : string; memberId : string }.
#[export] Instance DirectoryOwner_eq_dec : EqDecision DirectoryOwner.
Proof. solve_decision. Defined.

Record DirectoryResource : Type := mkResource {
  directory_id : string; r_owner : DirectoryOwner; canonical_path : string; display_name : string;
  root_identity : string; revision : Z; created_at : string; revoked_at : option string;
}.
Record BindingRow : Type := mkBinding {
  b_owner : DirectoryOwner; b_employee_id : string; b_directory_id : string; b_enabled : bool; b_revision : Z; b_updated_at : string;
}.
Record DirDb : Type := mkDirDb { resources : list DirectoryResource; bindings_ : list BindingRow }.

Record DirectoryBinding : Type := mkDBinding { employee_id : string; d_directory_id : string; enabled : bool; brevision : Z }.

(** ** The store *)

Definition unrevoked (r : DirectoryResource) : bool := match revoked_at r with None => true | Some _ => false end.
Definition owned_by (o : DirectoryOwner) (r : DirectoryResource) : bool := bool_decide (r_owner r = o).

Definition by_created (a b : DirectoryResource) : bool :=
  String.ltb (created_at a) (created_at b) || (String.eqb (created_at a) (created_at b) && String.leb (directory_id a) (directory_id b)).
Definition list_ (db : DirDb) (o : DirectoryOwner) : list DirectoryResource :=
  order_by by_created (sql_select (fun r => owned_by o r && unrevoked r) (resources db)).

Definition get (db : DirDb) (o : DirectoryOwner) (id : string) : result dir_error DirectoryResource :=
  match sql_get (fun r => String.eqb (directory_id r) id && owned_by o r && unrevoked r) (resources db) with
  | Some r => Ok r
  | None => Err (DirectoryError "unauthorized")
  end.

Record HostDirectory : Type := mkHost { h_canonical_path : string; h_display_name : string; h_root_identity : string }.

(** [uuid] is the identifier drawn, [now] the time text; a clash of the primary key throws. *)
Definition register (db : DirDb) (o : DirectoryOwner) (host : HostDirectory) (uuid now : string) : DirDb * result dir_error DirectoryResource :=
  match List.find (fun r => String.eqb (canonical_path r) (h_canonical_path host)) (list_ db o) with
  | Some existing =>
      if String.eqb (root_identity existing) (h_root_identity host) then (db, Ok existing)
      else (db, Err (DirectoryError "source_changed"))
  | None =>
      match sql_insert (fun r => String.eqb (directory_id r) uuid)
              (mkResource uuid o (h_canonical_path host) (h_display_name host) (h_root_identity host) 1 now None) (resources db) with
      | Some rs => let db := mkDirDb rs (bindings_ db) in (db, get db o uuid)
      | None => (db, Err (OtherError "constraint"))
      end
  end.

Definition by_employee (a b : BindingRow) : bool := String.leb (b_employee_id a) (b_employee_id b).
Definition of_directory (o : DirectoryOwner) (id : string) (b : BindingRow) : bool :=
  bool_decide (b_owner b = o) && String.eqb (b_directory_id b) id.
Definition toBinding (b : BindingRow) : DirectoryBinding := mkDBinding (b_employee_id b) (b_directory_id b) (b_enabled b) (b_revision b).

Definition bindings (db : DirDb) (o : DirectoryOwner) (id : string) : result dir_error (list DirectoryBinding) :=
  _ ← get db o id;
  Ok (toBinding <$> order_by by_employee (sql_select (of_directory o id) (bindings_ db))).

Definition of_employee (e : string) (b : DirectoryBinding) : bool := String.eqb (employee_id b) e.

(** [Number.isSafeInteger(x) && x >= 0], with the integer. *)
Definition safeRevision (x : num) : option Z :=
  match x with Fin z => if (0 <=? z) && (z <=? 9007199254740991) then Some z else None | _ => None end.

Definition is_binding (o : DirectoryOwner) (e id : string) (b : BindingRow) : bool :=
  bool_decide (b_owner b = o) && String.eqb (b_employee_id b) e && String.eqb (b_directory_id b) id.

Definition bind (db : DirDb) (o : DirectoryOwner) (id employee : string) (on : bool) (expected : num) (now : string)
    : DirDb * result dir_error DirectoryBinding :=
  match get db o id, safeRevision expected with
  | Err e, _ => (db, Err e)
  | Ok _, None => (db, Err (DirectoryError "invalid_revision"))
  | Ok _, Some expectedRevision =>
      match bindings db o id with
      | Err e => (db, Err e)
      | Ok bs =>
          let current := List.find (of_employee employee) bs in
          if negb (nullish (brevision <$> current) 0 =? expectedRevision) then (db, Err (DirectoryError "revision_conflict"))
          else
            let revision := expectedRevision + 1 in
            let row := mkBinding o employee id on revision now in
            let written := (mkDirDb (resources db) (sql_upsert (is_binding o employee id) (fun _ => row) row (bindings_ db)),
                            Ok (mkDBinding employee id on revision)) in
            match current with
            | Some c => if Bool.eqb (enabled c) on then (db, Ok c) else written
            | None => written
            end
      end
  end.

Definition revoke_resource (now : string) (r : DirectoryResource) : DirectoryResource :=
  mkResource (directory_id r) (r_owner r) (canonical_path r) (display_name r) (root_identity r) (revision r + 1) (created_at r) (Some now).
Definition disable_binding (now : string) (b : BindingRow) : BindingRow :=
  mkBinding (b_owner b) (b_employee_id b) (b_directory_id b) false (b_revision b + 1) now.

Definition revoke (db : DirDb) (o : DirectoryOwner) (id now : string) : DirDb * result dir_error unit :=
  match get db o id with
  | Err e => (db, Err e)
  | Ok _ =>
      (mkDirDb (sql_update (fun r => String.eqb (directory_id r) id && owned_by o r) (revoke_resource now) (resources db))
               (sql_update (fun b => String.eqb (b_directory_id b) id && bool_decide (b_owner b = o)) (disable_binding now) (bindings_ db)),
       Ok tt)
  end.

(** ** Grants

    A grant is what the service checks: the directory is registered and not revoked, and the
    employee's binding to it is enabled at the revision seen before. *)

Definition bindingOf (db : DirDb) (o : DirectoryOwner) (id employee : string) : option DirectoryBinding :=
  match bindings db o id with Ok bs => List.find (of_employee employee) bs | Err _ => None end.

Definition granted (db : DirDb) (o : DirectoryOwner) (id employee : string) (rev : Z) : bool :=
  match bindingOf db o id employee with Some b => enabled b && (brevision b =? rev) | None => false end.

Inductive op : Type :=
| Register (o : DirectoryOwner) (host : HostDirectory) (uuid now : string)
| Bind (o : DirectoryOwner) (id employee : string) (on : bool) (expected : num) (now : string)
| Revoke (o : DirectoryOwner) (id now : string).

Definition apply_op (db : DirDb) (x : op) : DirDb :=
  match x with
  | Register o host uuid now => (register db o host uuid now).1
  | Bind o id e on rev now => (bind db o id e on rev now).1
  | Revoke o id now => (revoke db o id now).1
  end.
Definition emptyDirDb : DirDb := mkDirDb [] [].

(** *** Keys *)

Definition binding_key (b : BindingRow) := (b_owner b, b_employee_id b, b_directory_id b).
Definition wf_dirs (db : DirDb) : Prop := NoDup (directory_id <$> resources db) /\ NoDup (binding_key <$> bindings_ db).

Lemma is_binding_key o e id b : is_binding o e id b = true <-> binding_key b = (o, e, id).
Proof.
  unfold is_binding, binding_key. split.
  - intros H. boolify. congruence.
  - intros [= <- <- <-]. by rewrite bool_decide_eq_true_2, !String.eqb_refl.
Qed.

Definition bindingRow (db : DirDb) (o : DirectoryOwner) (id e : string) : option BindingRow := sql_get (is_binding o e id) (bindings_ db).

Lemma find_toBinding e l : List.find (of_employee e) (toBinding <$> l) = toBinding <$> List.find (fun b => String.eqb (b_employee_id b) e) l.
Proof. induction l as [|b l IH]; cbn; [done|]. unfold of_employee at 1. cbn. by destruct (String.eqb (b_employee_id b) e). Qed.

(** With unique keys, the binding the service finds is the row of the key. *)
Lemma bindingOf_row db o id e : wf_dirs db ->
  bindingOf db o id e = match get db o id with Ok _ => toBinding <$> bindingRow db o id e | Err _ => None end.
Proof.
  intros [_ Hd]. unfold bindingOf, bindings. destruct (get db o id) as [r|]; [|done]. cbn [mbind result_bind]. rewrite find_toBinding. f_equal.
  unfold bindingRow. set (L := order_by by_employee _).
  assert (forall b, b ∈ L /\ String.eqb (b_employee_id b) e = true <-> b ∈ bindings_ db /\ is_binding o e id b = true) as HL.
  { intros b. unfold L. rewrite elem_of_order_by, elem_of_sql_select. unfold of_directory, is_binding. rewrite !andb_true_iff. tauto. }
  destruct (List.find _ L) as [b|] eqn:E.
  - apply find_some in E as [Hb He]. rewrite <- list_elem_of_In in Hb. destruct (proj1 (HL b) (conj Hb He)) as [Hin Hi].
    symmetry. apply (sql_get_key binding_key); [done|done|done|]. intros b' Hb'. apply is_binding_key in Hi, Hb'. congruence.
  - symmetry. apply sql_get_None. intros b Hb. apply not_true_iff_false. intros Hi. destruct (proj2 (HL b) (conj Hb Hi)) as [Hin He].
    rewrite (find_none _ _ E b) in He; [done|]. by apply list_elem_of_In.
Qed.

Lemma sql_upsert_keys {R K} (key : R -> K) clash f new (t : list R) :
  (forall r, clash r = true <-> key r = key new) -> (forall r, clash r = true -> key (f r) = key new) ->
  NoDup (key <$> t) -> NoDup (key <$> sql_upsert clash f new t).
Proof.
  intros Hc Hf Hd. unfold sql_upsert. destruct (existsb clash t) eqn:E.
  - assert (key <$> sql_update clash f t = key <$> t) as ->; [|done].
    unfold sql_update. clear E Hd. induction t as [|r t IH]; cbn; [done|]. f_equal; [|done].
    destruct (clash r) eqn:Er; [|done]. rewrite Hf by done. symmetry. by apply Hc.
  - rewrite fmap_app. apply NoDup_app. split_and!; [done| |apply NoDup_singleton].
    intros k (r & -> & Hr)%list_elem_of_fmap Hk. cbn in Hk. apply list_elem_of_singleton in Hk.
    apply Hc in Hk. assert (existsb clash t = true); [|congruence]. apply existsb_exists. exists r. by rewrite <- list_elem_of_In.
Qed.

(** What an operation writes. *)
Lemma bind_cases db o id e on rev now : (bind db o id e on rev now).1 = db
  \/ exists b, (exists r, get db o id = Ok r) /\ bindingOf db o id e = b /\ (forall c, b = Some c -> enabled c <> on)
     /\ (bind db o id e on rev now).1 = mkDirDb (resources db) (sql_upsert (is_binding o e id)
          (fun _ => mkBinding o e id on (nullish (brevision <$> b) 0 + 1) now) (mkBinding o e id on (nullish (brevision <$> b) 0 + 1) now) (bindings_ db)).
Proof.
  unfold bind, bindingOf. destruct (get db o id) as [r|]; [|by left]. destruct (safeRevision rev) as [z|]; [|by left].
  destruct (bindings db o id) as [bs|]; [|by left]. cbv zeta. destruct (negb _) eqn:Er; [by left|]. boolify. subst z.
  destruct (List.find (of_employee e) bs) as [c|] eqn:Ec.
  - destruct (Bool.eqb (enabled c) on) eqn:Eon; [by left|]. right. exists (Some c). split_and!; eauto.
    intros ? [= <-]. intros H. by rewrite H, eqb_reflx in Eon.
  - right. exists None. split_and!; eauto.
Qed.

Lemma register_cases db o h u now : (register db o h u now).1 = db
  \/ (u ∉ directory_id <$> resources db
      /\ (register db o h u now).1 = mkDirDb (resources db ++ [mkResource u o (h_canonical_path h) (h_display_name h) (h_root_identity h) 1 now None]) (bindings_ db)).
Proof.
  unfold register. destruct (List.find _ _) as [r|]; [case_match; by left|]. unfold sql_insert.
  destruct (existsb _ _) eqn:E; [by left|]. right. split; [|done]. intros (r & -> & Hr)%list_elem_of_fmap.
  assert (existsb (fun r' => String.eqb (directory_id r') (directory_id r)) (resources db) = true); [|congruence].
  apply existsb_exists. exists r. rewrite <- list_elem_of_In, String.eqb_refl. done.
Qed.

Lemma apply_op_wf db x : wf_dirs db -> wf_dirs (apply_op db x).
Proof.
  intros [Hr Hb]. destruct x as [o h u now|o id e on rev now|o id now]; cbn [apply_op].
  - destruct (register_cases db o h u now) as [->|[Hu ->]]; [done|]. split; [|done]. cbn. rewrite fmap_app. apply NoDup_app.
    split_and!; [done| |apply NoDup_singleton]. intros k Hk Hk'. cbn in Hk'. apply list_elem_of_singleton in Hk' as ->. done.
  - destruct (bind_cases db o id e on rev now) as [->|(b & _ & _ & _ & ->)]; [done|]. split; [done|]. cbn.
    apply sql_upsert_keys; [|done|done]. intros r. by rewrite is_binding_key.
  - unfold revoke. destruct (get db o id); [|done]. split; cbn; by rewrite keys_sql_update.
Qed.

Lemma history_wf_dirs l : wf_dirs (fold_left apply_op l emptyDirDb).
Proof.
  assert (forall db, wf_dirs db -> wf_dirs (fold_left apply_op l db)) as H; [|apply H; split; constructor].
  induction l as [|x l IH]; intros db Hd; cbn; [done|]. by apply IH, apply_op_wf.
Qed.

(** *** The life of a grant *)

Section Grant.
Variables (o : DirectoryOwner) (id e : string) (rev : Z).
Implicit Types (db : DirDb).

Definition revoked_row db : Prop := exists r, r ∈ resources db /\ directory_id r = id /\ revoked_at r <> None.
(** Beyond recall: the directory is revoked, or the binding has moved on from the revision. *)
Definition dead db : Prop := revoked_row db
  \/ exists b, bindingRow db o id e = Some b /\ (rev < b_revision b \/ (rev = b_revision b /\ b_enabled b = false)).

Lemma get_unrevoked db r : get db o id = Ok r -> r ∈ resources db /\ directory_id r = id /\ revoked_at r = None.
Proof.
  unfold get. destruct (sql_get _ _) as [r'|] eqn:E; [|done]. intros [= ->]. apply sql_get_Some in E as [Hr H]. unfold unrevoked in H.
  boolify. destruct (revoked_at r); done.
Qed.

Lemma granted_spec db : wf_dirs db -> granted db o id e rev = true ->
  exists r b, get db o id = Ok r /\ bindingRow db o id e = Some b /\ b_enabled b = true /\ b_revision b = rev.
Proof.
  intros Hd. unfold granted. rewrite bindingOf_row by done. destruct (get db o id) as [r|]; [|done].
  destruct (bindingRow db o id e) as [b|]; [|done]. cbn. intros H. boolify. eauto 6.
Qed.

Lemma dead_not_granted db : wf_dirs db -> dead db -> granted db o id e rev = false.
Proof.
  intros Hd H. apply not_true_iff_false. intros (r & b & Hg & Hb & He & Hr)%granted_spec; [|done].
  destruct H as [(r' & Hr' & Hi & Hn)|(b' & Hb' & [Hlt|[_ Hf]])]; [|rewrite Hb in Hb'; injection Hb' as <-; lia|congruence].
  apply get_unrevoked in Hg as (Hin & Hid & Hu). destruct Hd as [Hd _].
  assert (r = r') as -> by (eapply (NoDup_key_eq directory_id); eauto; congruence). done.
Qed.

(** How an operation moves the row of a key. *)
Lemma row_step db x : wf_dirs db ->
  match bindingRow db o id e, bindingRow (apply_op db x) o id e with
  | Some b, Some b' => b' = b \/ b_revision b < b_revision b'
  | Some _, None => False
  | None, _ => True
  end.
Proof.
  intros Hd. unfold bindingRow. destruct (sql_get (is_binding o e id) (bindings_ db)) as [b|] eqn:Eb; [|done].
  destruct (sql_get_Some _ _ _ Eb) as [Hin Hi].
  destruct x as [o' h u now|o' id' e' on rv now|o' id' now]; cbn [apply_op].
  - destruct (register_cases db o' h u now) as [->|[_ ->]]; cbn [bindings_]; rewrite Eb; by left.
  - destruct (bind_cases db o' id' e' on rv now) as [->|(c & [r Hg] & Hc & Hne & ->)]; [rewrite Eb; by left|].
    cbn [bindings_]. unfold sql_upsert. destruct (existsb (is_binding o' e' id') (bindings_ db)) eqn:Hex; [|rewrite sql_get_app, Eb; by left].
    destruct (decide ((o', e', id') = (o, e, id))) as [[= -> -> ->]|Hk].
    + rewrite sql_get_update, Eb by (intros r0 ->; by apply is_binding_key). cbn. rewrite Hi. right. cbn.
      rewrite bindingOf_row, Hg in Hc by done. unfold bindingRow in Hc. rewrite Eb in Hc. subst c. cbn. lia.
    + rewrite sql_get_update, Eb.
      * cbn. destruct (is_binding o' e' id' b) eqn:E; [|by left]. apply is_binding_key in E, Hi. congruence.
      * intros r0 Hr. apply is_binding_key in Hr. transitivity false; [|symmetry]; apply not_true_iff_false; rewrite is_binding_key; [unfold binding_key; cbn|]; congruence.
  - unfold revoke. destruct (get db o' id'); cbn [fst]; [|rewrite Eb; by left]. cbn [bindings_].
    rewrite sql_get_update, Eb by (intros r _; done). cbn. case_match; [right; cbn; lia|by left].
Qed.
Lemma revoked_row_step db x : revoked_row db -> revoked_row (apply_op db x).
Proof.
  intros (r & Hr & Hi & Hn). destruct x as [o' h u now|o' id' e' on rv now|o' id' now]; cbn [apply_op].
  - destruct (register_cases db o' h u now) as [->|[_ ->]]; exists r; [done|]. split; [|done]. cbn. apply elem_of_app. by left.
  - destruct (bind_cases db o' id' e' on rv now) as [->|(c & _ & _ & _ & ->)]; by exists r.
  - unfold revoke. destruct (get db o' id'); [|by exists r]. cbn [fst].
    eexists. split; [apply elem_of_sql_update; exists r; split; [done|reflexivity]|]. by case_match.
Qed.

Lemma dead_step db x : wf_dirs db -> dead db -> dead (apply_op db x).
Proof.
  intros Hd [H|(b & Hb & H)]; [left; by apply revoked_row_step|right]. pose proof (row_step db x Hd) as Hs. rewrite Hb in Hs.
  destruct (bindingRow (apply_op db x) o id e) as [b'|]; [|done]. exists b'. split; [done|]. destruct Hs as [->|Hs]; [done|lia].
Qed.

(** A directory that can no longer be got was revoked. *)
Lemma get_step db x r : wf_dirs db -> get db o id = Ok r -> (exists r', get (apply_op db x) o id = Ok r') \/ revoked_row (apply_op db x).
Proof.
  intros [Hd _] Hg. pose proof (get_unrevoked db r Hg) as (Hr & Hi & Hn).
  assert (r_owner r = o) as Ho.
  { unfold get in Hg. destruct (sql_get _ _) eqn:E; [|done]. injection Hg as ->. apply sql_get_Some in E as [_ E]. unfold owned_by in E. by boolify. }
  assert (forall db', r ∈ resources db' -> exists r', get db' o id = Ok r') as Hget.
  { intros db' Hin. unfold get. destruct (sql_get _ (resources db')) eqn:E; [eauto|].
    rewrite sql_get_None in E. specialize (E r Hin). unfold owned_by, unrevoked in E. rewrite Hi, Hn, Ho, String.eqb_refl, bool_decide_eq_true_2 in E; done. }
  destruct x as [o' h u now|o' id' e' on rv now|o' id' now]; cbn [apply_op].
  - left. apply Hget. destruct (register_cases db o' h u now) as [->|[_ ->]]; [done|]. cbn. apply elem_of_app. by left.
  - left. apply Hget. by destruct (bind_cases db o' id' e' on rv now) as [->|(c & _ & _ & _ & ->)].
  - unfold revoke. destruct (get db o' id'); cbn [fst]; [|left; by apply Hget].
    destruct (String.eqb (directory_id r) id' && owned_by o' r) eqn:E.
    + right. exists (revoke_resource now r). split_and!; [|done|done]. cbn. apply elem_of_sql_update. exists r. by rewrite E.
    + left. apply Hget. cbn. apply elem_of_sql_update. exists r. by rewrite E.
Qed.

Lemma grant_step db x : wf_dirs db -> granted db o id e rev = true -> granted (apply_op db x) o id e rev = true \/ dead (apply_op db x).
Proof.
  intros Hd (r & b & Hg & Hb & He & Hr)%granted_spec; [|done].
  destruct (get_step db x r Hd Hg) as [[r' Hg']|Hrev]; [|right; by left].
  pose proof (row_step db x Hd) as Hs. rewrite Hb in Hs. destruct (bindingRow (apply_op db x) o id e) as [b'|] eqn:Eb; [|done].
  destruct Hs as [->|Hs]; [left|right; right; exists b'; split; [done|lia]].
  unfold granted. rewrite bindingOf_row, Hg', Eb by (by apply apply_op_wf). cbn. by rewrite He, Hr, Z.eqb_refl.
Qed.

Lemma run_dead l db : wf_dirs db -> dead db -> wf_dirs (fold_left apply_op l db) /\ dead (fold_left apply_op l db).
Proof. revert db. induction l as [|x l IH]; intros db Hd H; cbn; [done|]. apply IH; [by apply apply_op_wf|by apply dead_step]. Qed.

Lemma run_grant l db : wf_dirs db -> granted db o id e rev = true ->
  granted (fold_left apply_op l db) o id e rev = true \/ dead (fold_left apply_op l db).
Proof.
  revert db. induction l as [|x l IH]; intros db Hd H; cbn; [by left|].
  destruct (grant_step db x Hd H) as [H'|H']; [by apply IH, H'; apply apply_op_wf|]. right. apply run_dead; [by apply apply_op_wf|done].
Qed.
End Grant.

(** A successful [bind] leaves the binding it returns, switched as asked. *)
Lemma bind_reads_back db o id e on rev now db' b : wf_dirs db -> bind db o id e on rev now = (db', Ok b) ->
  bindingOf db' o id e = Some b /\ enabled b = on.
Proof.
  intros Hd H. pose proof (apply_op_wf db (Bind o id e on rev now) Hd) as Hd'. cbn [apply_op] in Hd'. rewrite H in Hd'. cbn [fst] in Hd'.
  rewrite bindingOf_row by done. unfold bind in H. destruct (get db o id) as [r|] eqn:Eg; [|done].
  destruct (safeRevision rev) as [z|]; [|done]. destruct (bindings db o id) as [bs|] eqn:Eb; [|done]. cbv zeta in H.
  destruct (negb _); [done|]. destruct (match List.find _ _ with Some _ => _ | None => _ end) as [d1 r1] eqn:E in H.
  assert (forall x d, (mkDirDb (resources db) (sql_upsert (is_binding o e id) (fun _ => mkBinding o e id on x now) (mkBinding o e id on x now) (bindings_ db)),
                 Ok (E := dir_error) (mkDBinding e id on x)) = (d, Ok b) ->
     match get d o id with Ok _ => toBinding <$> bindingRow d o id e | Err _ => None end = Some b /\ enabled b = on) as Hw.
  { intros x d [= <- <-]. split; [|done]. unfold get in *. cbn [resources]. destruct (sql_get _ (resources db)); [|done].
    unfold bindingRow. cbn [bindings_]. unfold sql_upsert. destruct (existsb _ _) eqn:Ex.
    - rewrite sql_get_update by (intros r0 ->; by apply is_binding_key). destruct (sql_get (is_binding o e id) (bindings_ db)) as [b0|] eqn:E0.
      + cbn. apply sql_get_Some in E0 as [_ ->]. done.
      + rewrite sql_get_None in E0. apply existsb_exists in Ex as (b0 & Hb0 & Hi). rewrite E0 in Hi; [done|]. by apply list_elem_of_In.
    - rewrite sql_get_app. destruct (sql_get (is_binding o e id) (bindings_ db)) as [b0|] eqn:E0.
      + apply sql_get_Some in E0 as [Hb0 Hi]. assert (existsb (is_binding o e id) (bindings_ db) = true); [|congruence].
        apply existsb_exists. exists b0. by rewrite <- list_elem_of_In.
      + cbn. by rewrite (proj2 (is_binding_key o e id (mkBinding o e id on x now)) eq_refl). }
  destruct (List.find (of_employee e) bs) as [c|] eqn:Ec; [|rewrite <- E in H; by eapply Hw].
  destruct (Bool.eqb (enabled c) on) eqn:Eon; [|rewrite <- E in H; by eapply Hw].
  injection E as <- <-. injection H as <- <-. rewrite Eg. split; [|by apply eqb_prop].
  assert (bindingOf db o id e = Some c) as Hc by (unfold bindingOf; by rewrite Eb). by rewrite bindingOf_row, Eg in Hc.
Qed.

(** C32. A grant that was withdrawn never comes back: over any history of registrations,
    bindings and revocations, once an employee's access to a directory at some binding
    revision has ended, no later operation makes that revision valid again; and a revocation
    or a binding that is switched off ends every revision at once. *)
Theorem withdrawn_grants_never_return l1 l2 l3 o id e rev :
  let db1 := fold_left apply_op l1 emptyDirDb in
  let db2 := fold_left apply_op l2 db1 in
  (granted db1 o id e rev = true -> granted db2 o id e rev = false -> granted (fold_left apply_op l3 db2) o id e rev = false)
  /\ (forall now db', revoke db1 o id now = (db', Ok tt) -> forall e' rev', granted db' o id e' rev' = false)
  /\ (forall expected now db' b, bind db1 o id e false expected now = (db', Ok b) -> forall rev', granted db' o id e rev' = false).
Proof.
  intros db1 db2. pose proof (history_wf_dirs l1) as Hw1. fold db1 in Hw1. split_and!.
  - intros H1 H2. destruct (run_grant o id e rev l2 db1 Hw1 H1) as [H|H]; [fold db2 in H; congruence|]. fold db2 in H.
    assert (wf_dirs db2) as Hw2.
    { unfold db2, db1. rewrite <- fold_left_app. apply history_wf_dirs. }
    destruct (run_dead o id e rev l3 db2 Hw2 H) as [Hw3 Hd3]. by apply dead_not_granted.
  - intros now db' H e' rev'. pose proof (apply_op_wf db1 (Revoke o id now) Hw1) as Hw. cbn [apply_op] in Hw. rewrite H in Hw. cbn in Hw.
    apply dead_not_granted; [done|]. left. unfold revoke in H. destruct (get db1 o id) as [r|] eqn:Eg; [|done]. injection H as <-.
    destruct (get_unrevoked o id db1 r Eg) as (Hr & Hi & _). exists (revoke_resource now r). split_and!; [|done|done]. cbn.
    apply elem_of_sql_update. exists r. split; [done|]. unfold get in Eg. destruct (sql_get _ _) eqn:E; [|done]. injection Eg as ->.
    apply sql_get_Some in E as [_ E]. boolify. unfold owned_by in *. boolify. subst. by rewrite String.eqb_refl, bool_decide_eq_true_2.
  - intros expected now db' b H rev'. apply not_true_iff_false. intros Hg.
    pose proof (apply_op_wf db1 (Bind o id e false expected now) Hw1) as Hw. cbn [apply_op] in Hw. rewrite H in Hw. cbn in Hw.
    destruct (bind_reads_back _ _ _ _ _ _ _ _ _ Hw1 H) as [Hb Hoff]. unfold granted in Hg. rewrite Hb, Hoff in Hg. done.
Qed.

(** *** Operations on other keys leave a grant alone *)

Section Others.
Variables (o : DirectoryOwner) (id e : string) (rev : Z).
Implicit Types (db : DirDb).

Lemma granted_intro db r b : wf_dirs db -> get db o id = Ok r -> bindingRow db o id e = Some b -> b_enabled b = true -> b_revision b = rev ->
  granted db o id e rev = true.
Proof. intros Hd Hg Hb He Hr. unfold granted. rewrite bindingOf_row, Hg, Hb by done. cbn. by rewrite He, Hr, Z.eqb_refl. Qed.

Lemma granted_register db o' h u now : wf_dirs db -> granted db o id e rev = true -> granted (register db o' h u now).1 o id e rev = true.
Proof.
  intros Hd Hg. destruct (grant_step o id e rev db (Register o' h u now) Hd Hg) as [H|H]; [done|].
  destruct (granted_spec o id e rev db Hd Hg) as (r & b & Hr & Hb & He & Hv). cbn [apply_op] in H.
  pose proof (apply_op_wf db (Register o' h u now) Hd) as Hd'. cbn [apply_op] in Hd'.
  destruct (register_cases db o' h u now) as [E|[_ E]]; rewrite E in *; [done|].
  apply (granted_intro _ r b); try done. unfold get in *. cbn [resources]. rewrite sql_get_app. by destruct (sql_get _ (resources db)).
Qed.

Lemma granted_bind_other db o' id' e' on rv now : wf_dirs db -> (o', e', id') <> (o, e, id) -> granted db o id e rev = true ->
  granted (bind db o' id' e' on rv now).1 o id e rev = true.
Proof.
  intros Hd Hk Hg. pose proof (apply_op_wf db (Bind o' id' e' on rv now) Hd) as Hd'. cbn [apply_op] in Hd'.
  destruct (granted_spec o id e rev db Hd Hg) as (r & b & Hr & Hb & He & Hv).
  destruct (bind_cases db o' id' e' on rv now) as [E|(c & _ & _ & _ & E)]; rewrite E in *; [done|].
  apply (granted_intro _ r b); try done. unfold bindingRow in *. cbn [bindings_]. unfold sql_upsert.
  destruct (existsb _ _); [|by rewrite sql_get_app, Hb]. destruct (sql_get_Some _ _ _ Hb) as [_ Hi]. apply is_binding_key in Hi.
  rewrite sql_get_update, Hb.
  - cbn. destruct (is_binding o' e' id' b) eqn:Ei; [|done]. apply is_binding_key in Ei. congruence.
  - intros r0 Hr0. apply is_binding_key in Hr0.
    transitivity false; [|symmetry]; apply not_true_iff_false; rewrite is_binding_key; [unfold binding_key; cbn|]; congruence.
Qed.

Lemma granted_revoke_other db o' id' now : wf_dirs db -> (o', id') <> (o, id) -> granted db o id e rev = true ->
  granted (revoke db o' id' now).1 o id e rev = true.
Proof.
  intros Hd Hk Hg. pose proof (apply_op_wf db (Revoke o' id' now) Hd) as Hd'. cbn [apply_op] in Hd'.
  destruct (granted_spec o id e rev db Hd Hg) as (r & b & Hr & Hb & He & Hv). unfold revoke in *. destruct (get db o' id'); [|done]. cbn [fst] in *.
  apply (granted_intro _ r b); try done.
  - unfold get in *. cbn [resources]. destruct (sql_get _ (resources db)) as [r0|] eqn:E; [|done]. injection Hr as ->.
    pose proof (sql_get_Some _ _ _ E) as [_ Hp]. rewrite sql_get_update, E.
    + cbn. destruct (String.eqb (directory_id r) id' && owned_by o' r) eqn:E'; [|done]. unfold owned_by in *. boolify. congruence.
    + intros r1 E'. unfold owned_by in *. boolify. cbn. transitivity false; [|symmetry]; apply not_true_iff_false; intros E1; boolify; congruence.
  - unfold bindingRow in *. cbn [bindings_]. destruct (sql_get_Some _ _ _ Hb) as [_ Hi]. apply is_binding_key in Hi.
    rewrite sql_get_update, Hb; [|done]. cbn. destruct (String.eqb (b_directory_id b) id' && bool_decide (b_owner b = o')) eqn:E'; [|done]. unfold binding_key in Hi. boolify. congruence.
Qed.
End Others.

Definition demoDir : DirectoryOwner := mkDOwner "t" "m".
Lemma withdrawn_grants_never_return_witness :
  let l1 := [Register demoDir (mkHost "/docs" "Docs" "root") "d1" "now"; Bind demoDir "d1" "e1" true (Fin 0) "now"] in
  let db2 := fold_left apply_op [Bind demoDir "d1" "e1" false (Fin 1) "now"] (fold_left apply_op l1 emptyDirDb) in
  let db3 := fold_left apply_op [Bind demoDir "d1" "e1" true (Fin 2) "now"] db2 in
  granted db3 demoDir "d1" "e1" 1 = false /\ granted db3 demoDir "d1" "e1" 3 = true.
Proof.
  cbv zeta. split; [|reflexivity].
  destruct (withdrawn_grants_never_return
    [Register demoDir (mkHost "/docs" "Docs" "root") "d1" "now"; Bind demoDir "d1" "e1" true (Fin 0) "now"]
    [Bind demoDir "d1" "e1" false (Fin 1) "now"] [Bind demoDir "d1" "e1" true (Fin 2) "now"] demoDir "d1" "e1" 1) as [H _].
  apply H; reflexivity.
Defined.
