(* ===== verification/DirectoryService.v ===== *)
(** Searching and reading granted directories (services/local-directories.ts,
    [LocalDirectoryService]).

    The shared state is [World]: the directory store, the citations and running tasks of the
    service, and the parts of the process it consults (execution identities, conversations,
    employee projections).  Asynchronous methods are programs of Async.v; the host that reads
    the disk is the other side of their requests.  A synchronous piece of code reads the clocks
    once.  Texts are UTF-16 code units; [fold] is NFKC normalisation followed by lower-casing
    for zh-CN, [localeCompare] the host's collation and [verified] the check that a caller
    object was produced by the authenticator. *)

From S2P Require Import Prelude Decimal Sql Regex Paths Async Directories.
From S2P Require Projections Conversations ExecAuth Redaction.
Local Open Scope Z_scope.

(** ** Which tools a snapshot grants *)

Inductive LocalDirectoryTool : Type := LocalDirSearch | LocalDirRead.
#[export] Instance LocalDirectoryTool_eq_dec : EqDecision LocalDirectoryTool.
Proof. solve_decision. Defined.
Definition LOCAL_DIRECTORY_TOOLS : list LocalDirectoryTool := [LocalDirSearch; LocalDirRead].
Definition toolName (t : LocalDirectoryTool) : string := match t with LocalDirSearch => "local_dir_search" | LocalDirRead => "local_dir_read" end.
Definition KNOWLEDGE_ALIAS (t : LocalDirectoryTool) : string := match t with LocalDirSearch => "knowledge_search" | LocalDirRead => "knowledge_get" end.

Definition isString (v : Projections.json) : bool := match v with Projections.JStr _ => true | _ => false end.
Definition includesStr (s : string) (l : list Projections.json) : bool :=
  existsb (fun v => match v with Projections.JStr t => String.eqb t s | _ => false end) l.

Definition localDirectoryTools (snapshot : Projections.fields) : list LocalDirectoryTool :=
  match mget "knowledge_policy" snapshot with
  | Some (Projections.JObj value) =>
      match mget "state" value, mget "allowed_operations" value with
      | Some (Projections.JStr state), Some (Projections.JArr operations) =>
          if negb (String.eqb state "inherit" || String.eqb state "allow") then []
          else
            let rawAllowed := match mget "tool_policy" snapshot with
                              | Some (Projections.JObj p) => match mget "allowed_tools" p with Some (Projections.JArr l) => Some l | _ => None end
                              | _ => None
                              end in
            if existsb (fun v => negb (isString v)) (nullish rawAllowed []) then []
            else
              let allowed := nullish rawAllowed [] in
              let granted t := match allowed with [] => true | _ => includesStr (toolName t) allowed || includesStr (KNOWLEDGE_ALIAS t) allowed end in
              List.filter (fun t => includesStr (KNOWLEDGE_ALIAS t) operations && granted t) LOCAL_DIRECTORY_TOOLS
      | _, _ => []
      end
  | _ => []
  end.

(** ** State *)

Record DirectoryExecution : Type := mkExecution {
  x_caller : ExecAuth.AuthenticatedCaller; x_employeeId : string; x_conversationId : string; x_sessionId : string; x_turnId : string;
  x_snapshotVersion : string; x_generation : Z; x_permissionMode : string; x_background : bool;
}.
Definition withCaller (x : DirectoryExecution) (c : ExecAuth.AuthenticatedCaller) : DirectoryExecution :=
  mkExecution c (x_employeeId x) (x_conversationId x) (x_sessionId x) (x_turnId x) (x_snapshotVersion x) (x_generation x) (x_permissionMode x) (x_background x).

Record Citation : Type := mkCitation {
  ci_context : DirectoryExecution; ci_owner : DirectoryOwner; ci_resource : DirectoryResource; ci_title : string; ci_relative : string;
  ci_snippet : text; ci_version : string; ci_authority : string; ci_bindingRevision : Z; ci_expires : Z;
}.
Record ActiveTask : Type := mkTask { tk_owner : DirectoryOwner; tk_employeeId : string; tk_directoryIds : list string; tk_aborted : bool }.

Record World : Type := mkWorld {
  dirs : DirDb;
  citations : list (string * Citation);
  tasks : list (nat * ActiveTask);
  nextTask : nat;
  nextUuid : nat;
  registry : ExecAuth.Registry;
  store : Conversations.Store;
  projections : Projections.ProjectionDb;
}.
Definition set_dirs (x : DirDb) (w : World) : World := mkWorld x (citations w) (tasks w) (nextTask w) (nextUuid w) (registry w) (store w) (projections w).
Definition set_citations (x : list (string * Citation)) (w : World) : World := mkWorld (dirs w) x (tasks w) (nextTask w) (nextUuid w) (registry w) (store w) (projections w).
Definition set_tasks (x : list (nat * ActiveTask)) (w : World) : World := mkWorld (dirs w) (citations w) x (nextTask w) (nextUuid w) (registry w) (store w) (projections w).
Definition set_registry (x : ExecAuth.Registry) (w : World) : World := mkWorld (dirs w) (citations w) (tasks w) (nextTask w) (nextUuid w) x (store w) (projections w).
Definition set_nextUuid (x : nat) (w : World) : World := mkWorld (dirs w) (citations w) (tasks w) (nextTask w) x (registry w) (store w) (projections w).

(** Clock readings: [Date.now()], its ISO text, and the Manager clock of the identities. *)
Record Clock : Type := mkClock { date : Z; dateText : string; managerNow : Z }.

(** What the host is asked, and what it answers. *)
Inductive request : Type :=
| ReqStatus | ReqChallenge (o : DirectoryOwner) | ReqConsume (o : DirectoryOwner) (ticket : string)
| ReqCheck (r : DirectoryResource) | ReqList (r : DirectoryResource) (relative : string) | ReqRead (r : DirectoryResource) (relative : string).
Record Entry : Type := mkEntry { en_name : string; en_directory : bool }.
Inductive reply : Type :=
| RepDone | RepChallenge (challenge : string) | RepDirectory (h : HostDirectory) | RepAuthority (authority : string)
| RepListing (authority : string) (entries : list Entry) (partial : bool)
| RepSource (authority : string) (content : text) (version : string).

Notation prog := (async World Clock request reply dir_error).

(** ** Locating terms in a text *)

Fixpoint startsWith (p s : text) : bool :=
  match p, s with
  | [], _ => true
  | x :: p, y :: s => (x =? y) && startsWith p s
  | _ :: _, [] => false
  end.
(** [s.indexOf(p)]. *)
Fixpoint indexOfText (p s : text) : option nat :=
  if startsWith p s then Some 0%nat else match s with [] => None | _ :: s => S <$> indexOfText p s end.
Definition includesText (s p : text) : bool := match indexOfText p s with Some _ => true | None => false end.

(** [String.split(/\s+/u).filter(Boolean)]. *)
Fixpoint words (cur : text) (s : text) : list text :=
  match s with
  | [] => match cur with [] => [] | _ => [rev cur] end
  | c :: s => if is_space c then match cur with [] => words [] s | _ => rev cur :: words [] s end else words (c :: cur) s
  end.
Fixpoint distinctTexts (seen : list text) (l : list text) : list text :=
  match l with
  | [] => []
  | x :: l => if bool_decide (x ∈ seen) then distinctTexts seen l else x :: distinctTexts (x :: seen) l
  end.

Record Hit : Type := mkHit { hit_score : Z; hit_offset : nat; hit_snippet : text }.

Section Locate.
Context (fold : text -> text).

(** The folded text, with the index of the code point each folded unit comes from. *)
Definition foldPoint (i : nat) (p : text) : list (Z * nat) := (fun unit => (unit, i)) <$> fold p.
Definition normalizeWithMap (s : text) : list (Z * nat) := concat (imap foldPoint (codePoints s)).

Definition locateHit (terms : list text) (name s : text) : option Hit :=
  let mapped := normalizeWithMap s in
  let normalized := mapped.*1 in
  let inName term := includesText name term in
  let inText term := includesText normalized term in
  if negb (forallb (fun term => inName term || inText term) terms) then None
  else
    let score := foldr (fun term total => total + (if inName term then 5 else 0) + (if inText term then 1 else 0)) 0 terms in
    let anchors := omap (fun term => (fun i => nullish (snd <$> mapped !! i) 0%nat) <$> indexOfText term normalized) terms in
    let first := match anchors with [] => 0%nat | a :: l => foldr Nat.min a l end in
    let offset := (first - 100)%nat in
    Some (mkHit score offset (concat (take 400 (drop offset (codePoints s))))).
End Locate.

(** ** Searching *)

Definition FORMATS : list string := [".txt"; ".md"; ".markdown"; ".csv"; ".json"; ".log"]%string.
Definition SKIPPABLE : list string :=
  ["file_unavailable"; "unsupported_file"; "unsupported_format"; "parse_failed"; "budget_exhausted"; "source_changed"]%string.
Definition MAX_SEARCH_OUTPUT_BYTES : Z := 32 * 1024.
Definition MAX_BYTES : Z := 32 * 1024 * 1024.

Record Coverage : Type := mkCoverage { files_examined : Z; files_skipped : Z; entries_examined : Z; bytes_read : Z }.
Record Candidate : Type := mkCandidate {
  cd_title : string; cd_path : string; cd_version : string; cd_hit : Hit; cd_resource : DirectoryResource; cd_authority : string; cd_bindingRevision : Z;
}.
Record DeliveredHit : Type := mkDelivered {
  dh_citation_id : string; dh_title : string; dh_path : string; dh_version : string; dh_snippet : text; dh_offset : nat;
}.
Record Scan : Type := mkScan { sc_coverage : Coverage; sc_partial : bool; sc_candidates : list Candidate; sc_queue : list string }.
Record SearchResult : Type := mkSearchResult { sr_partial : bool; sr_coverage : Coverage; sr_items : list DeliveredHit }.
Record Checked : Type := mkChecked { ck_resource : DirectoryResource; ck_binding : Z; ck_authority : string }.

(** [JSON.stringify({ ...candidate, citation_id: id })]. *)
Definition jtext (s : string) : Redaction.json := Redaction.JStr (u s).
Definition jnum (z : Z) : Redaction.json := Redaction.JNum (u (pretty z)).
Definition resourceJson (r : DirectoryResource) : Redaction.json :=
  Redaction.JObj [(u "directory_id", jtext (directory_id r)); (u "tenant_id", jtext (tenantId (r_owner r))); (u "member_id", jtext (memberId (r_owner r)));
    (u "canonical_path", jtext (canonical_path r)); (u "display_name", jtext (display_name r)); (u "root_identity", jtext (root_identity r));
    (u "revision", jnum (revision r)); (u "created_at", jtext (created_at r)); (u "revoked_at", match revoked_at r with Some s => jtext s | None => Redaction.JNull end)].
Definition candidateJson (c : Candidate) (id : string) : Redaction.json :=
  Redaction.JObj [(u "title", jtext (cd_title c)); (u "relative_path", jtext (cd_path c)); (u "content_version", jtext (cd_version c));
    (u "snippet", Redaction.JStr (hit_snippet (cd_hit c))); (u "offset", jnum (Z.of_nat (hit_offset (cd_hit c)))); (u "score", jnum (hit_score (cd_hit c)));
    (u "resource", resourceJson (cd_resource c)); (u "authority", jtext (cd_authority c)); (u "bindingRevision", jnum (cd_bindingRevision c));
    (u "citation_id", jtext id)].
Definition candidateSize (c : Candidate) (id : string) : Z := byteLength (nullish (Redaction.stringify (candidateJson c id)) []).

Definition zeroCoverage : Coverage := mkCoverage 0 0 0 0.
Definition withinBudget (c : Coverage) (now deadline : Z) : bool :=
  (now <? deadline) && (files_examined c + files_skipped c <? 2000) && (entries_examined c <? 8000) && (bytes_read c <? MAX_BYTES).
Definition count_entry (c : Coverage) : Coverage := mkCoverage (files_examined c) (files_skipped c) (entries_examined c + 1) (bytes_read c).
Definition count_skip (c : Coverage) : Coverage := mkCoverage (files_examined c) (files_skipped c + 1) (entries_examined c) (bytes_read c).
Definition count_file (bytes : Z) (c : Coverage) : Coverage := mkCoverage (files_examined c + 1) (files_skipped c) (entries_examined c) (bytes_read c + bytes).

(** [prune]: drop what has expired, then the oldest while 512 or more remain. *)
Definition prune (now : Z) (cs : list (string * Citation)) : list (string * Citation) :=
  let alive := List.filter (fun p => now <? ci_expires p.2) cs in
  drop (length alive - 511) alive.

Section Service.
Context (verified : ExecAuth.AuthenticatedCaller -> bool) (uuid : nat -> string)
        (fold : text -> text) (localeCompare : string -> string -> Z).

Definition unauthorized {A} : result dir_error A := Err (DirectoryError "unauthorized").

(** ** Who may do what *)

Definition owner (c : ExecAuth.AuthenticatedCaller) (now : Z) : result dir_error DirectoryOwner :=
  match ExecAuth.c_tenantId c, ExecAuth.c_userId c, finite_of (ExecAuth.c_exp c) with
  | Some t, Some m, Some exp =>
      if verified c && negb (String.eqb t "") && negb (String.eqb m "") && (now <? exp * 1000) then Ok (mkDOwner t m) else unauthorized
  | _, _, _ => unauthorized
  end.

Definition strIs (v : option Projections.json) (s : string) : bool :=
  match v with Some (Projections.JStr t) => String.eqb t s | _ => false end.
(** [a === b] of two members. *)
Definition sameValue (a b : option Projections.json) : bool :=
  match a, b with
  | None, None | Some Projections.JNull, Some Projections.JNull => true
  | Some (Projections.JStr x), Some (Projections.JStr y) => String.eqb x y
  | Some (Projections.JInt x), Some (Projections.JInt y) => x =? y
  | Some (Projections.JFrac x), Some (Projections.JFrac y) => String.eqb x y
  | Some (Projections.JBool x), Some (Projections.JBool y) => Bool.eqb x y
  | _, _ => false
  end.
(** [!v]. *)
Definition falsyValue (v : option Projections.json) : bool :=
  match v with
  | None | Some Projections.JNull | Some (Projections.JBool false) | Some (Projections.JInt 0) => true
  | Some (Projections.JStr s) => String.eqb s ""
  | _ => false
  end.

Definition liftP {A} (r : result Projections.projection_error A) : result dir_error A :=
  match r with Ok a => Ok a | Err _ => Err (OtherError "SyntaxError") end.

Definition belongsTo (o : DirectoryOwner) (id : string) (row : Projections.fields) : bool :=
  strIs (mget "employee_id" row) id && strIs (mget "tenant_id" row) (tenantId o) && strIs (mget "member_id" row) (memberId o).

Definition employee (db : Projections.ProjectionDb) (o : DirectoryOwner) (id : string) : result dir_error Projections.fields :=
  experts ← liftP (Projections.listLoadedExperts db (Some (tenantId o)) (Some (memberId o)) false);
  match List.find (fun row => belongsTo o id row && falsyValue (mget "revoked" row)) experts with
  | None => unauthorized
  | Some expert =>
      if match mget "lifecycle_status" expert with None => false | Some v => negb (strIs (Some v) "active") end then unauthorized
      else
        snapshots ← liftP (Projections.listSnapshots db (Some (tenantId o)) (Some (memberId o)));
        match List.find (fun row => belongsTo o id row && sameValue (mget "version" row) (mget "version" expert)) snapshots with
        | Some snapshot => Ok snapshot
        | None => unauthorized
        end
  end.

Definition modeText (m : Conversations.PermissionMode) : string :=
  match m with Conversations.ReadOnly => "read-only" | Conversations.WorkspaceWrite => "workspace-write" | Conversations.FullAccess => "full-access" end.

(** The conversation the execution runs in admits the employee in the execution's mode. *)
Definition conversationAdmits (s : Conversations.Store) (o : DirectoryOwner) (x : DirectoryExecution) : bool :=
  match sql_get (Conversations.is_row (x_conversationId x)) (Conversations.rows s) with
  | None => false
  | Some c =>
      bool_decide (Conversations.tenant_id c = Some (tenantId o)) && bool_decide (Conversations.member_id c = Some (memberId o))
      && String.eqb (modeText (Conversations.permission_mode c)) (x_permissionMode x)
      && (if String.eqb (Conversations.kind c) "group"
          then existsb (fun p => String.eqb (Conversations.p_employee_id p) (x_employeeId x)) (Conversations.listConversationParticipants s (x_conversationId x) false)
          else bool_decide (Conversations.entry_employee_id c = Some (x_employeeId x)))
  end.

Definition authorize (w : World) (t : Clock) (x : DirectoryExecution) (tool : option LocalDirectoryTool)
    : World * result dir_error Projections.fields :=
  match owner (x_caller x) (date t) with
  | Err e => (w, Err e)
  | Ok o =>
      let (reg, identity) := ExecAuth.get (registry w) (tenantId o) (memberId o) (managerNow t) in
      let w := set_registry reg w in
      (w,
       match identity with
       | None => unauthorized
       | Some identity =>
           _ ← require ((ExecAuth.i_generation identity =? x_generation x) && verified (ExecAuth.i_caller identity)) (DirectoryError "unauthorized");
           _ ← require (negb (x_background x) && (String.eqb (x_permissionMode x) "read-only" || String.eqb (x_permissionMode x) "workspace-write")) (DirectoryError "unauthorized");
           _ ← require (conversationAdmits (store w) o x) (DirectoryError "unauthorized");
           snapshot ← employee (projections w) o (x_employeeId x);
           _ ← require (strIs (mget "snapshot_version" snapshot) (x_snapshotVersion x)
                        && match tool with None => true | Some tool => bool_decide (tool ∈ localDirectoryTools snapshot) end) (DirectoryError "unauthorized");
           Ok snapshot
       end)
  end.

Definition aborted (w : World) (h : option nat) : bool :=
  match h with
  | None => false
  | Some h => match List.find (fun p => Nat.eqb p.1 h) (tasks w) with Some (_, task) => tk_aborted task | None => false end
  end.

(** ** The check before every access *)

Definition checkBefore (x : DirectoryExecution) (resource : DirectoryResource) (bindingRevision : Z) (tool : LocalDirectoryTool) (h : option nat)
    (t : Clock) (w : World) : World * result dir_error DirectoryOwner :=
  if aborted w h then (w, Err (DirectoryError "cancelled"))
  else
    let (w, snapshot) := authorize w t x (Some tool) in
    (w, _ ← snapshot;
        o ← owner (x_caller x) (date t);
        current ← get (dirs w) o (directory_id resource);
        bs ← bindings (dirs w) o (directory_id resource);
        match List.find (of_employee (x_employeeId x)) bs with
        | Some b => if (revision current =? revision resource) && enabled b && (brevision b =? bindingRevision) then Ok o else unauthorized
        | None => unauthorized
        end).

Definition checkAfter (x : DirectoryExecution) (resource : DirectoryResource) (bindingRevision : Z) (authority : option string) (tool : LocalDirectoryTool)
    (h : option nat) (o : DirectoryOwner) (actual : string) (t : Clock) (w : World) : World * result dir_error string :=
  if aborted w h then (w, Err (DirectoryError "cancelled"))
  else
    let (w, snapshot) := authorize w t x (Some tool) in
    (w, _ ← snapshot;
        _ ← get (dirs w) o (directory_id resource);
        bs ← bindings (dirs w) o (directory_id resource);
        match List.find (of_employee (x_employeeId x)) bs with
        | Some b => if enabled b && (brevision b =? bindingRevision) && match authority with None => true | Some a => String.eqb a actual end
                    then Ok actual else unauthorized
        | None => unauthorized
        end).

(** A reply of the wrong kind does not occur with a typed host. *)
Definition typed {A} (f : reply -> option A) (r : reply) : prog A :=
  match f r with Some a => mret a | None => throw (OtherError "TypeError") end.

Definition check (x : DirectoryExecution) (resource : DirectoryResource) (bindingRevision : Z) (authority : option string)
    (tool : LocalDirectoryTool) (h : option nat) : prog string :=
  o ← atomically (checkBefore x resource bindingRevision tool h);
  r ← await (ReqCheck resource);
  actual ← typed (fun r => match r with RepAuthority a => Some a | _ => None end) r;
  atomically (checkAfter x resource bindingRevision authority tool h o actual).

(** ** Managing directories *)

(** [invalidate]: abort the tasks and drop the citations of an owner, optionally of one
    directory and one employee. *)
Definition invalidate (o : DirectoryOwner) (id employeeId : option string) (w : World) : World :=
  let match_employee e := match employeeId with None => true | Some e' => String.eqb e' "" || String.eqb e e' end in
  let no_id := match id with None => true | Some i => String.eqb i "" end in
  let hit (k : ActiveTask) := bool_decide (tk_owner k = o) && match_employee (tk_employeeId k)
      && (no_id || bool_decide (tk_directoryIds k = []) || match id with Some i => bool_decide (i ∈ tk_directoryIds k) | None => false end) in
  let ts := map (fun p => (p.1, if hit p.2 then mkTask (tk_owner p.2) (tk_employeeId p.2) (tk_directoryIds p.2) true else p.2)) (tasks w) in
  let gone (c : Citation) := bool_decide (ci_owner c = o)
      && (no_id || match id with Some i => String.eqb (directory_id (ci_resource c)) i | None => false end) && match_employee (x_employeeId (ci_context c)) in
  set_citations (List.filter (fun p => negb (gone p.2)) (citations w)) (set_tasks ts w).

Definition ownerP (c : ExecAuth.AuthenticatedCaller) : prog DirectoryOwner := atomically (fun t w => (w, owner c (date t))).

Record DirectoryStatus : Type := mkDStatus { ds_resource : DirectoryResource; ds_status : string; ds_bindings : list DirectoryBinding }.

(** The statuses of the directories, asked one after the other. *)
Fixpoint statuses (o : DirectoryOwner) (rows : list DirectoryResource) : prog (list DirectoryStatus) :=
  match rows with
  | [] => mret []
  | row :: rows =>
      d ← Await (ReqCheck row) (fun r =>
            atomically (fun t w => (w, bs ← bindings (dirs w) o (directory_id row);
              Ok (mkDStatus row (match r with
                                 | Ok _ => "ready"
                                 | Err (DirectoryError code) => code
                                 | Err _ => "authorization_unavailable"
                                 end) bs))));
      ds ← statuses o rows;
      mret (d :: ds)
  end.

Definition listDirectories (c : ExecAuth.AuthenticatedCaller) : prog (bool * list DirectoryStatus) :=
  orows ← atomically (fun t w => (w, o ← owner c (date t); Ok (o, list_ (dirs w) o)));
  available ← Await ReqStatus (fun r => mret (match r with Ok _ => true | Err _ => false end));
  ds ← statuses orows.1 orows.2;
  mret (available, ds).

Definition challenge (c : ExecAuth.AuthenticatedCaller) : prog string :=
  o ← ownerP c;
  r ← await (ReqChallenge o);
  typed (fun r => match r with RepChallenge s => Some s | _ => None end) r.

Definition registerDirectory (c : ExecAuth.AuthenticatedCaller) (ticket : string) : prog DirectoryResource :=
  o ← ownerP c;
  r ← await (ReqConsume o ticket);
  receipt ← typed (fun r => match r with RepDirectory h => Some h | _ => None end) r;
  atomically (fun t w =>
    match owner c (date t) with
    | Err e => (w, Err e)
    | Ok _ =>
        let (db, res) := register (dirs w) o receipt (uuid (nextUuid w)) (dateText t) in
        (set_nextUuid (S (nextUuid w)) (set_dirs db w), res)
    end).

(** The synchronous end of [bind]: the write and the invalidation it causes. *)
Definition bindNow (o : DirectoryOwner) (id e : string) (on : bool) (rev : num) (t : Clock) (w : World) : World * result dir_error DirectoryBinding :=
  match bind (dirs w) o id e on rev (dateText t) with
  | (db, Ok b) => (invalidate o (Some id) (Some e) (set_dirs db w), Ok b)
  | (db, Err x) => (set_dirs db w, Err x)
  end.

Definition bindDirectory (c : ExecAuth.AuthenticatedCaller) (id e : string) (on : bool) (rev : num) : prog DirectoryBinding :=
  if on then
    ro ← atomically (fun t w => (w, o ← owner c (date t); _ ← employee (projections w) o e; r ← get (dirs w) o id; Ok (o, r)));
    _ ← await (ReqCheck ro.2);
    atomically (fun t w => match owner c (date t) with Err x => (w, Err x) | Ok _ => bindNow ro.1 id e on rev t w end)
  else
    atomically (fun t w => match owner c (date t) with Err x => (w, Err x) | Ok o => bindNow o id e on rev t w end).

Definition revokeDirectory (c : ExecAuth.AuthenticatedCaller) (id : string) (t : Clock) (w : World) : World * result dir_error unit :=
  match owner c (date t) with
  | Err e => (w, Err e)
  | Ok o =>
      match revoke (dirs w) o id (dateText t) with
      | (db, Ok u) => (invalidate o (Some id) None (set_dirs db w), Ok u)
      | (db, Err e) => (set_dirs db w, Err e)
      end
  end.

(** The enabled binding of the employee to a directory. *)
Definition enabledBinding (db : DirDb) (o : DirectoryOwner) (id e : string) : result dir_error (option DirectoryBinding) :=
  bs ← bindings db o id; Ok (List.find (fun b => of_employee e b && enabled b) bs).

(** [tools]: any error hides them. *)
Definition tools (x : DirectoryExecution) (t : Clock) (w : World) : World * list LocalDirectoryTool :=
  let (w, r) := authorize w t x None in
  (w, match (snapshot ← r; o ← owner (x_caller x) (date t);
             some ← mapM_result (fun res => bs ← bindings (dirs w) o (directory_id res);
                                            Ok (existsb (fun b => of_employee (x_employeeId x) b && enabled b) bs)) (list_ (dirs w) o);
             Ok (if existsb id some then localDirectoryTools snapshot else [])) with
      | Ok l => l
      | Err _ => []
      end).

(** *** Tasks *)

Definition addTask (k : ActiveTask) (w : World) : World * nat :=
  (mkWorld (dirs w) (citations w) (tasks w ++ [(nextTask w, k)]) (S (nextTask w)) (nextUuid w) (registry w) (store w) (projections w), nextTask w).
Definition removeTask (h : nat) (w : World) : World := set_tasks (List.filter (fun p => negb (Nat.eqb p.1 h)) (tasks w)) w.
Definition addDirectory (h : nat) (id : string) (w : World) : World :=
  set_tasks (map (fun p => if Nat.eqb p.1 h then (p.1, mkTask (tk_owner p.2) (tk_employeeId p.2)
    (if bool_decide (id ∈ tk_directoryIds p.2) then tk_directoryIds p.2 else tk_directoryIds p.2 ++ [id]) (tk_aborted p.2)) else p) (tasks w)) w.

(** [trackTask]; [signalAborted] says whether the caller's signal was aborted already. *)
Definition trackTask {A} (o : DirectoryOwner) (e : string) (signalAborted : bool) (fn : nat -> prog A) : prog A :=
  if signalAborted then throw (DirectoryError "cancelled")
  else
    h ← atomically (fun t w => let (w, h) := addTask (mkTask o e [] false) w in (w, Ok h));
    finally (fn h) (removeTask h).

(** *** The walk over one directory *)

Definition byRelevance (a b : Candidate) : bool :=
  let d := hit_score (cd_hit b) - hit_score (cd_hit a) in
  if d =? 0 then localeCompare (cd_path a) (cd_path b) <=? 0 else d <? 0.

(** [checkBudget], which also fails when the task was aborted. *)
Definition checkBudget (h : nat) (c : Coverage) (deadline : Z) : prog bool :=
  atomically (fun t w => (w, if aborted w (Some h) then Err (DirectoryError "cancelled") else Ok (withinBudget c (date t) deadline))).

Section Walk.
Variables (x : DirectoryExecution) (terms : list text) (limit : nat) (h : nat) (deadline : Z)
          (resource : DirectoryResource) (rev : Z) (authority : string).

Definition recheck : prog string := check x resource rev (Some authority) LocalDirSearch (Some h).

Definition addCandidate (entry : Entry) (path version : string) (hit : Hit) (s : Scan) : Scan :=
  mkScan (sc_coverage s) (sc_partial s)
    (take limit (order_by byRelevance (sc_candidates s ++ [mkCandidate (en_name entry) path version hit resource authority rev]))) (sc_queue s).

(** One entry: the scan, and whether the loop over the entries goes on. *)
Definition visitEntry (directory : string) (entry : Entry) (s : Scan) : prog (Scan * bool) :=
  let stop := mkScan (sc_coverage s) true (sc_candidates s) (sc_queue s) in
  go ← checkBudget h (sc_coverage s) deadline;
  if negb go then mret (stop, false)
  else
    let coverage := count_entry (sc_coverage s) in
    let path := join2 directory (en_name entry) in
    if en_directory entry then mret (mkScan coverage (sc_partial s) (sc_candidates s) (sc_queue s ++ [path]), true)
    else if negb (bool_decide (toLowerAscii (extname (en_name entry)) ∈ FORMATS))
    then mret (mkScan (count_skip coverage) (sc_partial s) (sc_candidates s) (sc_queue s), true)
    else
      _ ← recheck;
      Await (ReqRead resource path) (fun r =>
        match r with
        | Err (DirectoryError code) =>
            if bool_decide (code ∈ SKIPPABLE) then mret (mkScan (count_skip coverage) true (sc_candidates s) (sc_queue s), true)
            else throw (DirectoryError code)
        | Err e => throw e
        | Ok (RepSource a content version) =>
            if negb (String.eqb a authority) then throw (DirectoryError "unauthorized")
            else
              let coverage := count_file (byteLength content) coverage in
              if MAX_BYTES <? bytes_read coverage then mret (mkScan coverage true (sc_candidates s) (sc_queue s), false)
              else
                let s := mkScan coverage (sc_partial s) (sc_candidates s) (sc_queue s) in
                match locateHit fold terms (fold (u path)) content with
                | None => mret (s, true)
                | Some hit => mret (addCandidate entry path version hit s, true)
                end
        | Ok _ => throw (OtherError "TypeError")
        end).

Fixpoint visitEntries (directory : string) (entries : list Entry) (s : Scan) : prog Scan :=
  match entries with
  | [] => mret s
  | entry :: entries =>
      visitEntry directory entry s ≫= fun r : Scan * bool =>
      if r.2 then visitEntries directory entries r.1 else mret r.1
  end.

(** The [while] loop over the queue of directories. *)
Fixpoint walk (fuel : nat) (s : Scan) : prog Scan :=
  match sc_queue s with
  | [] => mret s
  | directory :: queue =>
      match fuel with
      | O => throw OutOfFuel
      | S fuel =>
          go ← checkBudget h (sc_coverage s) deadline;
          if negb go then mret (mkScan (sc_coverage s) true (sc_candidates s) (sc_queue s))
          else
            _ ← recheck;
            r ← await (ReqList resource directory);
            match r with
            | RepListing a entries partial =>
                if negb (String.eqb a authority) then throw (DirectoryError "unauthorized")
                else
                  s ← visitEntries directory entries (mkScan (sc_coverage s) (sc_partial s || partial) (sc_candidates s) queue);
                  walk fuel s
            | _ => throw (OtherError "TypeError")
            end
      end
  end.
End Walk.

(** Enough for any walk: a directory is queued per examined entry, of which there are at most
    8000, and one to begin with ([walk_never_runs_dry]). *)
Definition WALK_FUEL : nat := 8002.

(** The loop over the member's directories. *)
Fixpoint searchResources (x : DirectoryExecution) (terms : list text) (limit : nat) (h : nat) (deadline : Z) (o : DirectoryOwner)
    (rs : list DirectoryResource) (s : Scan) (checks : list Checked) : prog (Scan * list Checked) :=
  match rs with
  | [] => mret (s, checks)
  | resource :: rs =>
      atomically (fun t w => (w, enabledBinding (dirs w) o (directory_id resource) (x_employeeId x))) ≫= fun binding : option DirectoryBinding =>
      match binding with
      | None => searchResources x terms limit h deadline o rs s checks
      | Some b =>
          _ ← atomically (fun t w => (addDirectory h (directory_id resource) w, Ok tt));
          authority ← check x resource (brevision b) None LocalDirSearch (Some h);
          s ← walk x terms limit h deadline resource (brevision b) authority WALK_FUEL (mkScan (sc_coverage s) (sc_partial s) (sc_candidates s) [""%string]);
          searchResources x terms limit h deadline o rs s (checks ++ [mkChecked resource (brevision b) authority])
      end
  end.

Fixpoint recheckAll (x : DirectoryExecution) (h : nat) (checks : list Checked) : prog unit :=
  match checks with
  | [] => mret tt
  | c :: checks =>
      _ ← check x (ck_resource c) (ck_binding c) (Some (ck_authority c)) LocalDirSearch (Some h);
      recheckAll x h checks
  end.

Definition CITATION_TTL_MS : Z := 15 * 60000.
Definition citationOf (x : DirectoryExecution) (o : DirectoryOwner) (c : Candidate) (now : Z) : Citation :=
  mkCitation x o (cd_resource c) (cd_title c) (cd_path c) (hit_snippet (cd_hit c)) (cd_version c) (cd_authority c) (cd_bindingRevision c) (now + CITATION_TTL_MS).
Definition deliveredOf (c : Candidate) (id : string) : DeliveredHit :=
  mkDelivered id (cd_title c) (cd_path c) (cd_version c) (hit_snippet (cd_hit c)) (hit_offset (cd_hit c)).

(** The output loop: candidates within the size budget get a citation and are returned. *)
Fixpoint deliver (x : DirectoryExecution) (o : DirectoryOwner) (now : Z) (cs : list Candidate) (outputBytes : Z) (items : list DeliveredHit) (w : World)
    : World * (list DeliveredHit * bool) :=
  match cs with
  | [] => (w, (items, false))
  | c :: cs =>
      let id := ("localdir:" +:+ uuid (nextUuid w))%string in
      let w := set_nextUuid (S (nextUuid w)) w in
      let size := candidateSize c id in
      if negb (bool_decide (items = [])) && (MAX_SEARCH_OUTPUT_BYTES <? outputBytes + size) then (w, (items, true))
      else
        let w := set_citations (mset id (citationOf x o c now) (prune now (citations w))) w in
        deliver x o now cs (outputBytes + size) (items ++ [deliveredOf c id]) w
  end.

(** [!query.trim() || query.length > 512 || !Number.isInteger(limit) || limit < 1 || limit > 15]. *)
Definition validLimit (query : text) (limit : num) : option nat :=
  match limit with
  | Fin l => if negb (blank query) && (tlen query <=? 512) && (1 <=? l) && (l <=? 15) then Some (Z.to_nat l) else None
  | _ => None
  end.
Definition termsOf (query : text) : list text := distinctTexts [] (words [] (fold query)).

Definition finishSearch (x : DirectoryExecution) (o : DirectoryOwner) (h : nat) (s : Scan) (t : Clock) (w : World) : World * result dir_error SearchResult :=
  if aborted w (Some h) then (w, Err (DirectoryError "cancelled"))
  else
    let '(w, (items, truncated)) := deliver x o (date t) (sc_candidates s) 0 [] w in
    (w, Ok (mkSearchResult (sc_partial s || truncated) (sc_coverage s) items)).

Definition searchTask (x : DirectoryExecution) (o : DirectoryOwner) (terms : list text) (limit : nat) (h : nat) : prog SearchResult :=
  atomically (fun t w => (w, Ok (date t + 5000, list_ (dirs w) o))) ≫= fun start : Z * list DirectoryResource =>
  searchResources x terms limit h start.1 o start.2 (mkScan zeroCoverage false [] []) [] ≫= fun r : Scan * list Checked =>
  match r.2 with
  | [] => throw (DirectoryError "unauthorized")
  | _ => _ ← recheckAll x h r.2; atomically (finishSearch x o h r.1)
  end.

Definition search (x : DirectoryExecution) (query : text) (limit : num) (signalAborted : bool) : prog SearchResult :=
  _ ← atomically (fun t w => authorize w t x (Some LocalDirSearch));
  match validLimit query limit with
  | None => throw (DirectoryError "invalid_query")
  | Some l =>
      o ← ownerP (x_caller x);
      trackTask o (x_employeeId x) signalAborted (searchTask x o (termsOf query) l)
  end.

(** ** Reading a cited source *)

Record ReadResult : Type := mkReadResult { rd_version : string; rd_text : text; rd_offset : Z; rd_next : option Z }.
Definition READ_POINTS : Z := 12000.

Definition sameContext (a b : DirectoryExecution) : bool :=
  bool_decide (ExecAuth.c_tenantId (x_caller a) = ExecAuth.c_tenantId (x_caller b))
  && bool_decide (ExecAuth.c_userId (x_caller a) = ExecAuth.c_userId (x_caller b))
  && String.eqb (x_employeeId a) (x_employeeId b) && String.eqb (x_sessionId a) (x_sessionId b)
  && String.eqb (x_turnId a) (x_turnId b) && String.eqb (x_conversationId a) (x_conversationId b).

(** The synchronous prefix of [read]. *)
Definition readBegin (x : DirectoryExecution) (id : string) (offset : num) (t : Clock) (w : World) : World * result dir_error (Citation * Z * DirectoryOwner) :=
  let (w, r) := authorize w t x (Some LocalDirRead) in
  (w, _ ← r;
      match safeRevision offset with
      | None => Err (DirectoryError "invalid_offset")
      | Some off =>
          match mget id (citations w) with
          | None => Err (DirectoryError "citation_expired")
          | Some c =>
              _ ← require (date t <? ci_expires c) (DirectoryError "citation_expired");
              _ ← require (sameContext (ci_context c) x) (DirectoryError "unauthorized");
              o ← owner (x_caller x) (date t);
              Ok (c, off, o)
          end
      end).

(** [points.slice(offset, offset + 12000)], and where the next part begins. *)
Definition sliceSource (content : text) (off : Z) : result dir_error (text * option Z) :=
  let points := codePoints content in
  let len := Z.of_nat (length points) in
  if len <? off then Err (DirectoryError "invalid_offset")
  else Ok (concat (take (Z.to_nat READ_POINTS) (drop (Z.to_nat off) points)), if off + READ_POINTS <? len then Some (off + READ_POINTS) else None).

Definition readTask (x : DirectoryExecution) (c : Citation) (off : Z) (h : nat) : prog ReadResult :=
  _ ← atomically (fun t w => (addDirectory h (directory_id (ci_resource c)) w, Ok tt));
  _ ← check x (ci_resource c) (ci_bindingRevision c) (Some (ci_authority c)) LocalDirRead (Some h);
  r ← await (ReqRead (ci_resource c) (ci_relative c));
  match r with
  | RepSource a content version =>
      if negb (String.eqb version (ci_version c)) then throw (DirectoryError "source_changed")
      else if negb (String.eqb a (ci_authority c)) then throw (DirectoryError "unauthorized")
      else
        match sliceSource content off with
        | Err e => throw e
        | Ok (part, next) =>
            _ ← check x (ci_resource c) (ci_bindingRevision c) (Some (ci_authority c)) LocalDirRead (Some h);
            mret (mkReadResult (ci_version c) part off next)
        end
  | _ => throw (OtherError "TypeError")
  end.

Definition read (x : DirectoryExecution) (id : string) (offset : num) (signalAborted : bool) : prog ReadResult :=
  atomically (readBegin x id offset) ≫= fun r : Citation * Z * DirectoryOwner =>
  trackTask r.2 (x_employeeId x) signalAborted (readTask x r.1.1 r.1.2).

(** ** The final gate before text is shown *)

Definition assertCitationCurrent (c : ExecAuth.AuthenticatedCaller) (id : string) (t : Clock) (w : World) : World * result dir_error Citation :=
  match owner c (date t) with
  | Err e => (w, Err e)
  | Ok o =>
      match mget id (citations w) with
      | None => (w, Err (DirectoryError "citation_expired"))
      | Some ci =>
          if negb (date t <? ci_expires ci) then (w, Err (DirectoryError "citation_expired"))
          else if negb (bool_decide (ci_owner ci = o)) then (w, unauthorized)
          else
            let x := withCaller (ci_context ci) c in
            let (w, r) := authorize w t x (Some LocalDirRead) in
            (w, _ ← r;
                resource ← get (dirs w) o (directory_id (ci_resource ci));
                bs ← bindings (dirs w) o (directory_id resource);
                match List.find (of_employee (x_employeeId x)) bs with
                | Some b => if (revision resource =? revision (ci_resource ci)) && enabled b && (brevision b =? ci_bindingRevision ci) then Ok ci else unauthorized
                | None => unauthorized
                end)
      end
  end.

Definition verifyCitation (c : ExecAuth.AuthenticatedCaller) (id : string) (offset : num) : prog (Citation * ReadResult) :=
  ci ← atomically (assertCitationCurrent c id);
  source ← read (withCaller (ci_context ci) c) id offset false;
  _ ← atomically (assertCitationCurrent c id);
  mret (ci, source).

(** ** The capability state shown to the session

    One part per enabled directory; a directory the host cannot vouch for now counts as
    unavailable.  Every error disables the capability. *)

Definition capabilityPart (res : DirectoryResource) (b : DirectoryBinding) (authority : string) : string :=
  (directory_id res +:+ ":" +:+ pretty (revision res) +:+ ":" +:+ pretty (brevision b) +:+ ":" +:+ authority)%string.
Fixpoint joinCommas (l : list string) : string :=
  match l with [] => ""%string | [x] => x | x :: l => (x +:+ "," +:+ joinCommas l)%string end.
Fixpoint endsWithText (suffix s : string) : bool :=
  String.eqb s suffix || match s with String _ s => endsWithText suffix s | EmptyString => false end.

Fixpoint capabilityParts (x : DirectoryExecution) (o : DirectoryOwner) (rs : list DirectoryResource) (parts : list string) : prog (list string) :=
  match rs with
  | [] => mret parts
  | res :: rs =>
      atomically (fun t w => (w, enabledBinding (dirs w) o (directory_id res) (x_employeeId x))) ≫= fun binding : option DirectoryBinding =>
      match binding with
      | None => capabilityParts x o rs parts
      | Some b =>
          Await (ReqCheck res) (fun r =>
            capabilityParts x o rs (parts ++ [capabilityPart res b (match r with Ok (RepAuthority a) => a | _ => "unavailable" end)]))
      end
  end.

Definition capabilityState (x : DirectoryExecution) : prog (string * list LocalDirectoryTool) :=
  afterwards
    (snapshot ← atomically (fun t w => authorize w t (mkExecution (x_caller x) (x_employeeId x) (x_conversationId x) "probe" "probe" (x_snapshotVersion x)
                                          (x_generation x) (x_permissionMode x) (x_background x)) None);
     match localDirectoryTools snapshot with
     | [] => mret ("disabled:policy"%string, [])
     | configured =>
         atomically (fun t w => (w, o ← owner (x_caller x) (date t); Ok (o, list_ (dirs w) o))) ≫= fun start : DirectoryOwner * list DirectoryResource =>
         parts ← capabilityParts x start.1 start.2 [];
         match List.filter (fun p => negb (endsWithText ":unavailable" p)) parts with
         | [] => mret (("inactive:" +:+ joinCommas parts)%string, [])
         | _ => mret (("active:" +:+ joinCommas parts)%string, configured)
         end
     end)
    (fun r => match r with Ok a => mret a | Err _ => mret ("disabled:unauthorized"%string, []) end).
End Service.
