(* ===== verification/DirectorySafety.v ===== *)
(** What the local directory service guarantees (DirectoryService.v): reads and searches
    return text only while the grant behind it stands, whatever the rest of the process does
    at each [await]; searches end within their budget. *)

From S2P Require Import Prelude Decimal Sql Regex Paths Async Directories DirectoryService.
From S2P Require Automation WorkRecords Projections Conversations ExecAuth Redaction.
Local Open Scope Z_scope.

Section Safety.
Context (verified : ExecAuth.AuthenticatedCaller -> bool) (uuid : nat -> string)
        (fold : text -> text) (localeCompare : string -> string -> Z).
Notation authorize := (authorize verified).
Notation owner := (owner verified).
Notation check := (check verified).

(** ** Authorization *)

(** The execution passes every test of [authorize] in this state, at some time. *)
Definition admitted (w : World) (x : DirectoryExecution) (tool : LocalDirectoryTool) : Prop :=
  exists t snapshot, (authorize w t x (Some tool)).2 = Ok snapshot.

(** Only the registry can change, and not when the execution is admitted. *)
Lemma authorize_world w t x tool : exists reg, (authorize w t x tool).1 = set_registry reg w.
Proof.
  unfold DirectoryService.authorize. destruct (owner (x_caller x) (date t)) as [o|].
  - destruct (ExecAuth.get _ _ _ _) as [reg i]. by exists reg.
  - exists (registry w). by destruct w.
Qed.

Lemma get_Some_registry r t m now i r' : ExecAuth.get r t m now = (r', Some i) -> r' = r.
Proof.
  unfold ExecAuth.get, ExecAuth.resolve. destruct (mget _ (ExecAuth.identities r)) as [j|]; [|done].
  destruct (_ || _); [done|]. cbn. by intros [= <- _].
Qed.

Lemma authorize_Ok w t x tool s : (authorize w t x tool).2 = Ok s -> (authorize w t x tool).1 = w.
Proof.
  unfold DirectoryService.authorize. destruct (owner (x_caller x) (date t)) as [o|]; [|done].
  destruct (ExecAuth.get _ _ _ _) as [reg [i|]] eqn:E; [|done]. apply get_Some_registry in E as ->. by destruct w.
Qed.

(** Authorization does not look at tasks, citations or directories. *)
Lemma admitted_frame w w' x tool : registry w' = registry w -> store w' = store w -> projections w' = projections w ->
  admitted w x tool -> admitted w' x tool.
Proof.
  intros Hr Hs Hp (t & s & H). exists t, s. unfold DirectoryService.authorize in *. rewrite Hr.
  destruct (owner (x_caller x) (date t)); [|done]. destruct (ExecAuth.get _ _ _ _) as [reg i]. cbn in *. by rewrite Hs, Hp.
Qed.

(** What the final test of a check has established. *)
Definition checked (x : DirectoryExecution) (id : string) (rev : Z) (tool : LocalDirectoryTool) (h : option nat) (w : World) : Prop :=
  exists o, (exists t, owner (x_caller x) t = Ok o) /\ admitted w x tool
    /\ granted (dirs w) o id (x_employeeId x) rev = true /\ aborted w h = false.

Lemma owner_fun c t t' o o' : owner c t = Ok o -> owner c t' = Ok o' -> o' = o.
Proof. unfold DirectoryService.owner. intros H H'. repeat case_match; simplify_eq; done. Qed.

Lemma checkAfter_Ok x res rev auth tool h o actual t w a :
  (exists t0, owner (x_caller x) t0 = Ok o) ->
  (checkAfter verified x res rev auth tool h o actual t w).2 = Ok a ->
  (checkAfter verified x res rev auth tool h o actual t w).1 = w
  /\ checked x (directory_id res) rev tool h w /\ a = actual /\ (forall s, auth = Some s -> s = actual).
Proof.
  intros Ho. unfold checkAfter. destruct (aborted w h) eqn:Ea; [done|].
  destruct (authorize w t x (Some tool)) as [w1 r] eqn:E. cbn [fst snd].
  intros (snap & -> & H)%bind_Ok. pose proof (authorize_Ok w t x (Some tool) snap) as Hw. rewrite E in Hw. cbn in Hw. rewrite Hw in * by done.
  apply bind_Ok in H as (r0 & Hg & (bs & Hb & H)%bind_Ok). destruct (List.find _ bs) as [b|] eqn:Ef; [|done].
  destruct (enabled b && _ && _) eqn:Et; [|done]. injection H as <-. boolify. split_and!; [done| |done|].
  - exists o. split_and!; [done|exists t, snap; by rewrite E| |done]. unfold granted, bindingOf. rewrite Hb, Ef.
    apply andb_true_iff. split; [done|by apply Z.eqb_eq].
  - intros s ->. by boolify.
Qed.

(** ** Errors of the model *)

(** A result that is not the model running out of fuel. *)
Definition real {A} (r : result dir_error A) : Prop := r <> Err OutOfFuel.
(** Running out of fuel can only be what the host replied. *)
Definition blamed (log : list (request * result dir_error reply)) (e : dir_error) : Prop :=
  e = OutOfFuel -> exists q, (q, Err OutOfFuel) ∈ log.

Lemma real_bind {A B} (m : result dir_error A) (f : A -> result dir_error B) : real m -> (forall a, real (f a)) -> real (m ≫= f).
Proof. destruct m as [a|e]; cbn; [auto|]. intros H _ E. apply H. by injection E as ->. Qed.
Lemma real_require b e : e <> OutOfFuel -> real (require b e).
Proof. unfold require, real. destruct b; congruence. Qed.
Lemma real_get db o id : real (get db o id).
Proof. unfold get, real. by case_match. Qed.
Lemma real_bindings db o id : real (bindings db o id).
Proof. unfold bindings. apply real_bind; [apply real_get|done]. Qed.
Lemma real_owner c t : real (owner c t).
Proof. unfold DirectoryService.owner, real, unauthorized. by repeat case_match. Qed.
Lemma real_employee db o id : real (employee db o id).
Proof.
  unfold employee, liftP, unauthorized. apply real_bind; [by destruct (Projections.listLoadedExperts _ _ _ _)|]. intros es.
  destruct (List.find _ es) as [e|]; [|done]. destruct (match mget _ e with None => _ | _ => _ end); [done|].
  apply real_bind; [by destruct (Projections.listSnapshots _ _ _)|]. intros ps. by destruct (List.find _ ps).
Qed.
Lemma real_authorize w t x tool : real (authorize w t x tool).2.
Proof.
  pose proof (real_owner (x_caller x) (date t)) as Ho.
  unfold DirectoryService.authorize. destruct (owner (x_caller x) (date t)) as [o|e]; [|intros [= ->]; by destruct Ho].
  destruct (ExecAuth.get _ _ _ _) as [reg [i|]]; [|done]. cbn [snd].
  repeat (apply real_bind; [first [by apply real_require|apply real_employee]|intros ?]). done.
Qed.
Lemma blamed_real {A} log (r : result dir_error A) e : real r -> r = Err e -> blamed log e.
Proof. intros H -> ->. by destruct H. Qed.

Lemma real_checkBefore x res rev tool h t w : real (checkBefore verified x res rev tool h t w).2.
Proof.
  unfold checkBefore. destruct (aborted w h); [done|]. pose proof (real_authorize w t x (Some tool)) as Ha.
  destruct (authorize w t x (Some tool)) as [w1 r]. cbn [snd] in *. apply real_bind; [done|]. intros _.
  apply real_bind; [apply real_owner|]. intros o. apply real_bind; [apply real_get|]. intros cur.
  apply real_bind; [apply real_bindings|]. intros bs. unfold unauthorized. destruct (List.find _ bs); [|done]. by case_match.
Qed.
Lemma real_checkAfter x res rev auth tool h o a t w : real (checkAfter verified x res rev auth tool h o a t w).2.
Proof.
  unfold checkAfter. destruct (aborted w h); [done|]. pose proof (real_authorize w t x (Some tool)) as Ha.
  destruct (authorize w t x (Some tool)) as [w1 r]. cbn [snd] in *. apply real_bind; [done|]. intros _.
  apply real_bind; [apply real_get|]. intros cur.
  apply real_bind; [apply real_bindings|]. intros bs. unfold unauthorized. destruct (List.find _ bs); [|done]. by case_match.
Qed.

(** ** One check under interference *)

Section Check.
Variables (rely : World -> World -> Prop) (J : World -> Prop).
Hypothesis J_rely : forall w w', rely w w' -> J w -> J w'.
Hypothesis J_registry : forall w r, J w -> J (set_registry r w).
Notation wp := (wp rely).

Lemma checkBefore_J x res rev tool h t w : J w -> J (checkBefore verified x res rev tool h t w).1.
Proof.
  intros Hj. unfold checkBefore. destruct (aborted w h); [done|]. destruct (authorize_world w t x (Some tool)) as [reg Hr].
  destruct (authorize w t x (Some tool)) as [w1 r]. cbn in *. subst. auto.
Qed.
Lemma checkAfter_J x res rev auth tool h o a t w : J w -> J (checkAfter verified x res rev auth tool h o a t w).1.
Proof.
  intros Hj. unfold checkAfter. destruct (aborted w h); [done|]. destruct (authorize_world w t x (Some tool)) as [reg Hr].
  destruct (authorize w t x (Some tool)) as [w1 r]. cbn in *. subst. auto.
Qed.

Lemma checkBefore_owner x res rev tool h t w o : (checkBefore verified x res rev tool h t w).2 = Ok o -> owner (x_caller x) (date t) = Ok o.
Proof.
  unfold checkBefore. destruct (aborted w h); [done|]. destruct (authorize w t x (Some tool)) as [w1 r]. cbn [snd].
  intros (s & _ & (o' & Ho & (cur & _ & (bs & _ & H)%bind_Ok)%bind_Ok)%bind_Ok)%bind_Ok.
  destruct (List.find _ bs); [|done]. destruct (_ && _); [|done]. by injection H as <-.
Qed.

Lemma wp_check x res rev auth tool h (Φ : list (request * result dir_error reply) -> result dir_error string -> World -> Prop) log w :
  J w ->
  (forall log' a w', log `prefix_of` log' -> J w' -> checked x (directory_id res) rev tool h w' -> (forall s, auth = Some s -> a = s) -> Φ log' (Ok a) w') ->
  (forall log' e w', log `prefix_of` log' -> J w' -> blamed log' e -> Φ log' (Err e) w') ->
  wp (check x res rev auth tool h) Φ log w.
Proof.
  intros Hj Hok Herr. unfold DirectoryService.check. apply wp_bind, wp_atomically. intros t.
  pose proof (checkBefore_J x res rev tool h t w Hj) as Hj1. pose proof (real_checkBefore x res rev tool h t w) as Hreal.
  destruct (checkBefore verified x res rev tool h t w).2 as [o|e] eqn:Eb; [|apply Herr; [done|done|by eapply blamed_real]].
  apply checkBefore_owner in Eb. apply wp_bind, wp_await. intros r w1 Hr. pose proof (J_rely _ _ Hr Hj1) as Hj2.
  assert (log `prefix_of` log ++ [(ReqCheck res, r)]) as Hp by by eexists.
  destruct r as [r|e]; [|apply Herr; [done|done|]]; cycle 1.
  { intros ->. exists (ReqCheck res). apply elem_of_app. right. by apply list_elem_of_singleton. }
  apply wp_bind. unfold typed. destruct r; try (apply Herr; [done|done|by intros [=]]).
  cbn. intros t1. pose proof (checkAfter_J x res rev auth tool h o authority t1 w1 Hj2) as Hj3.
  pose proof (real_checkAfter x res rev auth tool h o authority t1 w1) as Hreal2.
  destruct (checkAfter verified x res rev auth tool h o authority t1 w1).2 as [a|e] eqn:Ea; [|apply Herr; [done|done|by eapply blamed_real]].
  destruct (checkAfter_Ok x res rev auth tool h o authority t1 w1 a) as (Hw & Hc & -> & Hs); [by eexists|done|].
  rewrite Hw in *. apply Hok; try done. intros s Hs'. by rewrite (Hs s Hs').
Qed.
End Check.

(** ** Reading *)

Notation read := (read verified).
Notation readTask := (readTask verified).

Lemma readBegin_Ok x id offset t w c off o : (readBegin verified x id offset t w).2 = Ok (c, off, o) ->
  mget id (citations w) = Some c /\ sameContext (ci_context c) x = true /\ date t < ci_expires c /\ 0 <= off /\ offset = Fin off.
Proof.
  unfold readBegin. pose proof (authorize_Ok w t x (Some LocalDirRead)) as Hw. destruct (authorize w t x (Some LocalDirRead)) as [w1 r]. cbn [fst snd] in *.
  intros (s & -> & H)%bind_Ok. rewrite (Hw s eq_refl) in H. destruct (safeRevision offset) as [z|] eqn:Ez; [|done].
  destruct (mget id (citations w)) as [c'|] eqn:Ec; [|done].
  apply bind_Ok in H as (? & H1%require_Ok & (? & H2%require_Ok & (o' & _ & [= <- <- <-])%bind_Ok)%bind_Ok).
  unfold safeRevision in Ez. destruct offset; try done. destruct (_ && _) eqn:E; [|done]. injection Ez as <-. boolify. split_and!; [done|done|lia|lia|done].
Qed.

Definition sourceOf (c : Citation) (content : text) : request * result dir_error reply :=
  (ReqRead (ci_resource c) (ci_relative c), Ok (RepSource (ci_authority c) content (ci_version c))).

Lemma elem_of_prefix {A} (l l' : list A) x : l `prefix_of` l' -> x ∈ l -> x ∈ l'.
Proof. intros [k ->] H. apply elem_of_app. by left. Qed.

Lemma readTask_sound rely x c off h log w :
  wp rely (readTask x c off h)
    (fun log r w => match r with
       | Ok res => checked x (directory_id (ci_resource c)) (ci_bindingRevision c) LocalDirRead (Some h) w
           /\ rd_offset res = off /\ rd_version res = ci_version c
           /\ exists content, sourceOf c content ∈ log /\ sliceSource content off = Ok (rd_text res, rd_next res)
       | Err _ => True
       end) log w.
Proof.
  unfold DirectoryService.readTask. apply wp_bind, wp_atomically. intros t. cbn [fst snd].
  apply wp_bind. apply (wp_check rely (fun _ => True)); [done|done|done| |done]. intros log1 a w1 _ _ _ _.
  apply wp_bind, wp_await. intros r w2 _. destruct r as [r|]; [|done]. destruct r; try done.
  destruct (String.eqb_spec version (ci_version c)) as [->|]; [|done]. cbn [negb].
  destruct (String.eqb_spec authority (ci_authority c)) as [->|]; [|done]. cbn [negb].
  destruct (sliceSource content off) as [[part next]|e] eqn:Es; [|done].
  apply wp_bind. apply (wp_check rely (fun _ => True)); [done|done|done| |done]. intros log2 a2 w3 Hp _ Hc _. cbn.
  split_and!; [done|done|done|]. exists content. split; [|done]. eapply elem_of_prefix; [exact Hp|]. apply elem_of_app. right. by apply list_elem_of_singleton.
Qed.

(** A read at [offset] that began in [w] and returned [res] in [w'], with the host's replies in [log]. *)
Definition granted_read (w : World) (x : DirectoryExecution) (id : string) (offset : num) (log : list (request * result dir_error reply)) (res : ReadResult) (w' : World) : Prop :=
  exists c o, mget id (citations w) = Some c /\ sameContext (ci_context c) x = true
  /\ (exists t, owner (x_caller x) t = Ok o) /\ admitted w' x LocalDirRead
  /\ granted (dirs w') o (directory_id (ci_resource c)) (x_employeeId x) (ci_bindingRevision c) = true
  /\ rd_version res = ci_version c /\ offset = Fin (rd_offset res) /\ 0 <= rd_offset res
  /\ exists content, sourceOf c content ∈ log /\ let points := codePoints content in
     rd_offset res <= Z.of_nat (length points)
     /\ rd_text res = concat (take 12000 (drop (Z.to_nat (rd_offset res)) points))
     /\ rd_next res = if rd_offset res + 12000 <? Z.of_nat (length points) then Some (rd_offset res + 12000) else None.

Lemma sliceSource_Ok content off part next : sliceSource content off = Ok (part, next) -> let points := codePoints content in
  off <= Z.of_nat (length points) /\ part = concat (take 12000 (drop (Z.to_nat off) points))
  /\ next = if off + 12000 <? Z.of_nat (length points) then Some (off + 12000) else None.
Proof.
  unfold sliceSource. destruct (Z.ltb_spec (Z.of_nat (length (codePoints content))) off); [done|]. intros [= <- <-]. split_and!; [lia|done|done].
Qed.

(** C14. Text is read only under a standing grant: whatever else the process does at every
    [await] and whatever the host answers, when [read] returns text, at that moment the caller
    is verified and authorised for the read tool, the directory is registered and unrevoked,
    the employee's binding is enabled at the revision the citation was made under, and the
    text is the 12000 code points from the requested offset on (fewer at the end) of a source the
    host returned for the cited file in the cited version under the cited authority, with the
    offset where the next part begins if there is more; the citation was of this conversation, turn and
    employee. *)
Theorem read_returns_only_granted_text rely w x id offset signalAborted log res w' :
  runs rely w (read x id offset signalAborted) log (Ok res) w' -> granted_read w x id offset log res w'.
Proof.
  apply (wp_adequate rely _ (fun log r w' => match r with Ok res => granted_read w x id offset log res w' | Err _ => True end) []).
  unfold DirectoryService.read. apply wp_bind, wp_atomically. intros t.
  destruct (readBegin verified x id offset t w).2 as [[[c off] o]|] eqn:Eb; [|done]. apply readBegin_Ok in Eb as (Hc & Hs & _ & Hz & He).
  unfold trackTask. destruct signalAborted; [done|]. apply wp_bind, wp_atomically. intros t1. cbn [fst snd].
  apply wp_finally. eapply wp_mono; [|apply readTask_sound]. intros log' [r|e] w1 _; [|done].
  intros ((o' & Ho & Ha & Hg & _) & Hoff & Hv & content & Hin & Hsl). exists c, o'. rewrite Hoff. split_and!; try done.
  - by eapply admitted_frame; [..|exact Ha].
  - exists content. split; [done|]. by apply sliceSource_Ok.
Qed.

(** ** Walking a directory *)

Section Walk.
Variables (rely : World -> World -> Prop) (J : World -> Prop).
Hypothesis J_rely : forall w w', rely w w' -> J w -> J w'.
Hypothesis J_registry : forall w r, J w -> J (set_registry r w).
Variables (x : DirectoryExecution) (terms : list text) (limit : nat) (h : nat) (deadline : Z)
          (resource : DirectoryResource) (rev : Z) (authority : string) (P : Candidate -> Prop).
Hypothesis P_new : forall title path version hit, P (mkCandidate title path version hit resource authority rev).
Notation walk := (walk verified fold localeCompare x terms limit h deadline resource rev authority).
Notation visitEntry := (visitEntry verified fold localeCompare x terms limit h deadline resource rev authority).
Notation visitEntries := (visitEntries verified fold localeCompare x terms limit h deadline resource rev authority).

Definition scan_ok (s : Scan) : Prop :=
  Forall P (sc_candidates s) /\ (length (sc_candidates s) <= limit)%nat /\ 0 <= entries_examined (sc_coverage s).
(** Directories waiting plus entries that may still be examined. *)
Definition potential (s : Scan) : nat := (length (sc_queue s) + Z.to_nat (8000 - entries_examined (sc_coverage s)))%nat.

Lemma addCandidate_ok entry path version hit s : scan_ok s ->
  scan_ok (addCandidate localeCompare limit resource rev authority entry path version hit s).
Proof.
  intros (Hf & _ & He). split_and!; cbn; [|rewrite length_take; lia|done].
  apply Forall_take. rewrite order_by_perm. apply Forall_app. split; [done|]. by apply Forall_singleton.
Qed.

Definition walked (bound : nat) (Φ : Scan -> Prop) (log : list (request * result dir_error reply)) (r : result dir_error Scan) (w : World) : Prop :=
  J w /\ match r with Ok s => scan_ok s /\ (potential s <= bound)%nat /\ Φ s | Err e => blamed log e end.

Lemma wp_checkBudget c Φ log w :
  (forall go, (go = true -> entries_examined c < 8000) -> Φ log (Ok go) w) ->
  (forall e, blamed log e -> Φ log (Err e) w) -> wp rely (checkBudget h c deadline) Φ log w.
Proof.
  intros Hok Herr. apply wp_atomically. intros t. cbn [fst snd]. destruct (aborted w (Some h)); [apply Herr; by intros [=]|].
  apply Hok. unfold withinBudget. intros E. boolify. done.
Qed.

Lemma visitEntry_ok directory entry s log w : J w -> scan_ok s ->
  wp rely (visitEntry directory entry s)
    (fun log r w => J w /\ match r with Ok (s', _) => scan_ok s' /\ (potential s' <= potential s)%nat | Err e => blamed log e end) log w.
Proof.
  intros Hj Hs. unfold DirectoryService.visitEntry. apply wp_bind, wp_checkBudget; [|done]. intros go Hgo.
  destruct go; cbn [negb]; [|done]. specialize (Hgo eq_refl).
  assert (Z.to_nat (8000 - entries_examined (sc_coverage s)) = S (Z.to_nat (8000 - (entries_examined (sc_coverage s) + 1)))) as Hn by lia.
  assert (forall cov part q, entries_examined cov = entries_examined (sc_coverage s) + 1 -> scan_ok (mkScan cov part (sc_candidates s) q)) as Hs'.
  { intros cov part q E. destruct Hs as (? & ? & ?). split_and!; cbn; [done|done|lia]. }
  assert (forall s', length (sc_queue s') = length (sc_queue s) -> entries_examined (sc_coverage s') = entries_examined (sc_coverage s) + 1 ->
            (potential s' <= potential s)%nat) as Hpot by (intros s' E1 E2; unfold potential; rewrite E1, E2; lia).
  destruct (en_directory entry).
  { cbn. split_and!; [done|by apply Hs'|]. unfold potential. cbn. rewrite length_app, Hn. cbn. lia. }
  destruct (bool_decide _); cbn [negb]; [|cbn [Async.wp mret async_ret]; split_and!; [done|by apply Hs'|by apply Hpot]].
  apply wp_bind. apply (wp_check rely J); [done|done|done| |done]. intros log1 a w1 _ Hj1 _ _.
  intros r w2 Hr. pose proof (J_rely _ _ Hr Hj1) as Hj2. destruct r as [r|[code|what|]].
  - destruct r; try (split; [done|by intros [=]]). destruct (negb _); [split; [done|by intros [=]]|].
    destruct (_ <? _); [cbn [Async.wp mret async_ret]; split_and!; [done|by apply Hs'|by apply Hpot]|].
    destruct (locateHit _ _ _ _) as [hit|]; cbn [Async.wp mret async_ret]; (split_and!; [done|first [by apply addCandidate_ok, Hs'|by apply Hs']|by apply Hpot]).
  - destruct (bool_decide _); [cbn [Async.wp mret async_ret]; split_and!; [done|by apply Hs'|by apply Hpot]|]. split; [done|by intros [=]].
  - split; [done|by intros [=]].
  - split; [done|]. intros _. eexists. apply elem_of_app. right. by apply list_elem_of_singleton.
Qed.

Lemma visitEntries_ok directory entries s log w : J w -> scan_ok s ->
  wp rely (visitEntries directory entries s) (walked (potential s) (fun _ => True)) log w.
Proof.
  revert s log w. induction entries as [|entry entries IH]; intros s log w Hj Hs; cbn [DirectoryService.visitEntries].
  - cbn. done.
  - apply wp_bind. eapply wp_mono; [|by apply visitEntry_ok]. intros log1 [[s1 go]|e] w1 _ [Hj1 H1]; cbn [fst snd]; [|by split].
    destruct H1 as [Hs1 Hle]. destruct go; [|cbn; done]. eapply wp_mono; [|by apply IH].
    intros log2 [s2|e] w2 _ [Hj2 H2]; split; try done. destruct H2 as (Hs2 & Hle2 & _). split_and!; [done|lia|done].
Qed.

(** With fuel for every waiting directory and every entry still allowed, the walk ends. *)
Lemma walk_ok fuel s log w : J w -> scan_ok s -> (potential s <= fuel)%nat ->
  wp rely (walk fuel s) (walked fuel (fun _ => True)) log w.
Proof.
  revert s log w. induction fuel as [|fuel IH]; intros s log w Hj Hs Hf; destruct s as [cov part cands queue]; cbn [DirectoryService.walk sc_queue].
  - destruct queue; [cbn; done|]. unfold potential in Hf. cbn in Hf. lia.
  - destruct queue as [|directory queue]; [cbn; done|].
    apply wp_bind, wp_checkBudget; [|by intros e He]. intros go _. destruct go; cbn [negb]; [|cbn; done].
    apply wp_bind. apply (wp_check rely J); [done|done|done| |by intros]. intros log1 a w1 _ Hj1 _ _.
    apply wp_bind, wp_await. intros r w2 Hr. pose proof (J_rely _ _ Hr Hj1) as Hj2.
    destruct r as [r|e]; [|split; [done|]; intros ->; eexists; apply elem_of_app; right; by apply list_elem_of_singleton].
    destruct r; try (split; [done|by intros [=]]). destruct (negb _); [split; [done|by intros [=]]|].
    apply wp_bind. eapply wp_mono; [|by apply visitEntries_ok].
    intros log2 [s2|e] w3 _ [Hj3 H3]; [|by split]. destruct H3 as (Hs3 & Hle & _). unfold potential in *. cbn in *.
    eapply wp_mono; [|apply IH; [done|done|lia]]. intros log3 [s3|e] w4 _ [Hj4 H4]; split; try done.
    destruct H4 as (? & ? & _). split_and!; [done|lia|done].
Qed.
End Walk.

(** ** What the rest of the process may do during a search *)

Definition taskOf (w : World) (h : nat) : option (nat * ActiveTask) := List.find (fun p => Nat.eqb p.1 h) (tasks w).
Definition abortTask (h : nat) (w : World) : World :=
  set_tasks (map (fun p => if Nat.eqb p.1 h then (p.1, mkTask (tk_owner p.2) (tk_employeeId p.2) (tk_directoryIds p.2) true) else p) (tasks w)) w.

(** Citation handles are distinct and were all drawn from the stream of identifiers. *)
Definition fresh_ids (w : World) : Prop := NoDup (mkeys (citations w))
  /\ forall k, k ∈ mkeys (citations w) -> exists n, (n < nextUuid w)%nat /\ k = ("localdir:" +:+ uuid n)%string.

(** Everything other code can do while task [h] waits: the directory operations of the service
    with the invalidations they cause, sign-out, aborting any task, starting and ending other
    tasks, issuing and pruning citations, and any change to identities, conversations and
    employees. *)
Inductive step (h : nat) : World -> World -> Prop :=
| st_register o host t w : step h w (set_nextUuid (S (nextUuid w)) (set_dirs (register (dirs w) o host (uuid (nextUuid w)) (dateText t)).1 w))
| st_bind o id e on rev t w : step h w (bindNow o id e on rev t w).1
| st_revoke c id t w : step h w (revokeDirectory verified c id t w).1
| st_invalidate o id e w : step h w (invalidate o id e w)
| st_abort h' w : step h w (abortTask h' w)
| st_tasks ts n w : List.find (fun p => Nat.eqb p.1 h) ts = taskOf w h ->
    step h w (mkWorld (dirs w) (citations w) ts n (nextUuid w) (registry w) (store w) (projections w))
| st_citations cs n w : (nextUuid w <= n)%nat -> let w' := mkWorld (dirs w) cs (tasks w) (nextTask w) n (registry w) (store w) (projections w) in
    fresh_ids w' -> step h w w'
| st_rest reg st pr w : step h w (mkWorld (dirs w) (citations w) (tasks w) (nextTask w) (nextUuid w) reg st pr).
Definition interference (h : nat) : World -> World -> Prop := rtc (step h).

Lemma find_map_key {A} (f : nat * A -> nat * A) h l : (forall p, (f p).1 = p.1) ->
  List.find (fun p => Nat.eqb p.1 h) (map f l) = f <$> List.find (fun p => Nat.eqb p.1 h) l.
Proof. intros Hf. induction l as [|p l IH]; cbn; [done|]. rewrite Hf. by destruct (Nat.eqb p.1 h). Qed.

Section Search.
Variables (h : nat) (o : DirectoryOwner) (e : string).

(** The task is registered for owner and employee with (at least) the given directories, and
    each checked grant still stands unless the task was aborted. *)
Definition tracked (cks : list Checked) (ids : list string) (w : World) : Prop :=
  wf_dirs (dirs w) /\ fresh_ids w
  /\ exists k, taskOf w h = Some (h, k) /\ tk_owner k = o /\ tk_employeeId k = e
     /\ (forall id, id ∈ ids -> id ∈ tk_directoryIds k)
     /\ forall c, c ∈ cks -> directory_id (ck_resource c) ∈ tk_directoryIds k
          /\ (tk_aborted k = true \/ granted (dirs w) o (directory_id (ck_resource c)) e (ck_binding c) = true).

(** The task aborted by a change to its owner's directory, or the change does not concern it. *)
Lemma tracked_tasks cks ids w w' (f : ActiveTask -> ActiveTask) :
  tracked cks ids w -> wf_dirs (dirs w') -> fresh_ids w' ->
  taskOf w' h = (fun p => (p.1, f p.2)) <$> taskOf w h ->
  (forall k, tk_owner (f k) = tk_owner k /\ tk_employeeId (f k) = tk_employeeId k /\ tk_directoryIds (f k) = tk_directoryIds k
             /\ (tk_aborted k = true -> tk_aborted (f k) = true)) ->
  (forall k id rev, tk_owner k = o -> tk_employeeId k = e -> id ∈ tk_directoryIds k -> granted (dirs w) o id e rev = true ->
     tk_aborted (f k) = true \/ granted (dirs w') o id e rev = true) ->
  tracked cks ids w'.
Proof.
  intros (_ & _ & k & Hk & Ho & He & Hids & Hc) Hd Hf Ht Hsame Hg. split; [done|]. split; [done|].
  exists (f k). rewrite Ht, Hk. destruct (Hsame k) as (E1 & E2 & E3 & E4). rewrite E1, E2, E3. split_and!; try done.
  intros c Hin. destruct (Hc c Hin) as [Hid [Ha|Hgr]]; split; auto.
Qed.

Lemma invalidate_dirs o' id' e' w : dirs (invalidate o' id' e' w) = dirs w.
Proof. done. Qed.

Definition hit_by (o' : DirectoryOwner) (id' e' : option string) (k : ActiveTask) : bool :=
  bool_decide (tk_owner k = o') && match e' with None => true | Some e' => String.eqb e' "" || String.eqb (tk_employeeId k) e' end
  && (match id' with None => true | Some i => String.eqb i "" end || bool_decide (tk_directoryIds k = [])
      || match id' with Some i => bool_decide (i ∈ tk_directoryIds k) | None => false end).

Lemma hit_by_intro o' i e' k : tk_owner k = o' -> e' = None \/ e' = Some (tk_employeeId k) -> i ∈ tk_directoryIds k -> hit_by o' (Some i) e' k = true.
Proof.
  intros Ho He Hi. unfold hit_by. rewrite (bool_decide_eq_true_2 _ Ho), (bool_decide_eq_true_2 _ Hi), orb_true_r, andb_true_r. cbn.
  destruct He as [->| ->]; [done|]. by rewrite String.eqb_refl, orb_true_r.
Qed.

Lemma invalidate_task o' id' e' w : taskOf (invalidate o' id' e' w) h
  = (fun p => (p.1, if hit_by o' id' e' p.2 then mkTask (tk_owner p.2) (tk_employeeId p.2) (tk_directoryIds p.2) true else p.2)) <$> taskOf w h.
Proof. unfold taskOf, invalidate. cbn [tasks set_citations set_tasks]. by rewrite find_map_key. Qed.

Lemma mkeys_filter {V} (p : string * V -> bool) (m : list (string * V)) : mkeys (List.filter p m) `sublist_of` mkeys m.
Proof. induction m as [|x m IH]; cbn; [constructor|]. destruct (p x); cbn; by constructor. Qed.

Lemma fresh_sub cs n w : mkeys cs `sublist_of` mkeys (citations w) -> (nextUuid w <= n)%nat -> fresh_ids w ->
  forall d ts nt r s p, fresh_ids (mkWorld d cs ts nt n r s p).
Proof.
  intros Hs Hn [Hd Hk] d ts nt r s p. split; [by eapply sublist_NoDup|]. cbn. intros k Hin.
  destruct (Hk k) as (m & Hm & ->); [by eapply elem_of_submseteq, sublist_submseteq|]. exists m. split; [lia|done].
Qed.

Lemma invalidate_fresh o' id' e' w : fresh_ids w -> fresh_ids (invalidate o' id' e' w).
Proof. intros H. apply (fresh_sub _ _ w); [apply mkeys_filter|done|done]. Qed.

Lemma task_id w : taskOf w h = (fun p => (p.1, p.2)) <$> taskOf w h.
Proof. by destruct (taskOf w h) as [[]|]. Qed.

(** A world that differs only in what the task does not depend on. *)
Lemma tracked_frame cks ids w w' : dirs w' = dirs w -> fresh_ids w' -> taskOf w' h = taskOf w h -> tracked cks ids w -> tracked cks ids w'.
Proof.
  intros Hd Hf Ht H. apply (tracked_tasks cks ids w w' (fun k => k)); try done; [rewrite Hd; apply H|rewrite Ht; apply task_id|].
  intros k id rev _ _ _ Hg. right. by rewrite Hd.
Qed.

Lemma bind_Err_same db o' id' e' on rev now db' x : bind db o' id' e' on rev now = (db', Err x) -> db' = db.
Proof.
  unfold bind. destruct (get db o' id'); [|by intros [= <-]]. destruct (safeRevision rev); [|by intros [= <-]].
  destruct (bindings db o' id'); [|by intros [= <-]]. cbv zeta. destruct (negb _); [by intros [= <-]|].
  destruct (List.find _ _) as [c|]; [destruct (Bool.eqb (enabled c) on)|]; by intros [=].
Qed.

(** The write of a directory operation followed by the invalidation it causes. *)
Lemma tracked_invalidated cks ids w db o' id' e' : tracked cks ids w -> wf_dirs db ->
  (forall k id rev, tk_owner k = o -> tk_employeeId k = e -> id ∈ tk_directoryIds k -> granted (dirs w) o id e rev = true ->
     hit_by o' id' e' k = true \/ granted db o id e rev = true) ->
  tracked cks ids (invalidate o' id' e' (set_dirs db w)).
Proof.
  intros Ht Hdb Hg. pose proof Ht as (_ & Hf & _).
  apply (tracked_tasks cks ids w _ (fun k => if hit_by o' id' e' k then mkTask (tk_owner k) (tk_employeeId k) (tk_directoryIds k) true else k)); try done.
  - apply invalidate_fresh. by apply (fresh_sub _ _ w).
  - exact (invalidate_task o' id' e' (set_dirs db w)).
  - intros k. by destruct (hit_by o' id' e' k).
  - intros k id rev Ho He Hin Hgr. destruct (Hg k id rev Ho He Hin Hgr) as [->|?]; [by left|by right].
Qed.

Lemma tracked_step cks ids w w' : step h w w' -> tracked cks ids w -> tracked cks ids w'.
Proof.
  intros Hs Ht. pose proof Ht as (Hd & Hf & _). destruct Hs as [o' host t w|o' id' e' on rev t w|c id' t w|o' id' e' w|h' w|ts n w Hts|cs n w Hn w' Hf'|].
  - apply (tracked_tasks cks ids w _ (fun k => k)); try done; cbn [dirs set_nextUuid set_dirs].
    + apply (apply_op_wf (dirs w) (Register o' host (uuid (nextUuid w)) (dateText t)) Hd).
    + apply (fresh_sub _ _ w); [done|lia|done].
    + exact (task_id w).
    + intros k id rev _ _ _ Hg. right. by apply granted_register.
  - unfold bindNow. pose proof (apply_op_wf (dirs w) (Bind o' id' e' on rev (dateText t)) Hd) as Hd'. cbn [apply_op] in Hd'.
    pose proof (fun id rv => granted_bind_other o id e rv (dirs w) o' id' e' on rev (dateText t) Hd) as Hoth.
    destruct (bind (dirs w) o' id' e' on rev (dateText t)) as [db [b|x]] eqn:Eb; cbn [fst] in *.
    + apply tracked_invalidated; [done|done|]. intros k id rv Ho He Hin Hg. destruct (decide ((o', e', id') = (o, e, id))) as [[= -> -> ->]|Hne]; [left|right; auto].
      apply hit_by_intro; [done|right; by f_equal|done].
    + apply bind_Err_same in Eb as ->. by destruct w.
  - unfold revokeDirectory. destruct (owner c (date t)) as [o'|]; [|done].
    pose proof (apply_op_wf (dirs w) (Revoke o' id' (dateText t)) Hd) as Hd'. cbn [apply_op] in Hd'.
    pose proof (fun id rv => granted_revoke_other o id e rv (dirs w) o' id' (dateText t) Hd) as Hoth.
    destruct (revoke (dirs w) o' id' (dateText t)) as [db [b|x]] eqn:Eb; cbn [fst] in *.
    + apply tracked_invalidated; [done|done|]. intros k id rv Ho He Hin Hg. destruct (decide ((o', id') = (o, id))) as [[= -> ->]|Hne]; [left|right; auto].
      apply hit_by_intro; [done|by left|done].
    + unfold revoke in Eb. destruct (get (dirs w) o' id'); [done|]. injection Eb as <- _. by destruct w.
  - replace w with (set_dirs (dirs w) w) at 2 by (by destruct w). apply tracked_invalidated; [done|done|]. by right.
  - apply (tracked_tasks cks ids w _ (fun k => if Nat.eqb h h' then mkTask (tk_owner k) (tk_employeeId k) (tk_directoryIds k) true else k)); try done.
    + unfold taskOf, abortTask. cbn [tasks set_tasks]. rewrite find_map_key by (intros p; by destruct (Nat.eqb p.1 h')).
      destruct (List.find (fun p => Nat.eqb p.1 h) (tasks w)) as [[h0 k]|] eqn:E; [|done]. cbn. apply find_some in E as [_ E]. cbn in E. apply Nat.eqb_eq in E as ->.
      by destruct (Nat.eqb h h').
    + intros k. by destruct (Nat.eqb h h').
    + intros k id rv _ _ _ Hg. by right.
  - by apply (tracked_frame cks ids w); [|apply (fresh_sub _ _ w)|..].
  - by apply (tracked_frame cks ids w).
  - by apply (tracked_frame cks ids w).
Qed.

Lemma tracked_interference cks ids w w' : interference h w w' -> tracked cks ids w -> tracked cks ids w'.
Proof. induction 1; [done|]. intros. by eauto using tracked_step. Qed.

Lemma tracked_registry cks ids w r : tracked cks ids w -> tracked cks ids (set_registry r w).
Proof. intros H. apply (tracked_frame cks ids w); try done. apply H. Qed.

(** *** Delivery *)

Definition given (x : DirectoryExecution) (now : Z) (p : Candidate * string) : string * Citation := (p.2, citationOf x o p.1 now).

Lemma prune_keeps now pre ours : Forall (fun p : string * Citation => now < ci_expires p.2) ours -> (length ours <= 511)%nat ->
  exists pre', prune now (pre ++ ours) = pre' ++ ours /\ mkeys pre' `sublist_of` mkeys pre /\ (length (pre' ++ ours) <= 511)%nat.
Proof.
  intros Ha Hl. unfold prune. rewrite List.filter_app.
  assert (List.filter (fun p : string * Citation => now <? ci_expires p.2) ours = ours) as ->.
  { clear Hl. induction ours as [|p ours IH]; cbn; [done|]. inversion Ha; subst. rewrite (proj2 (Z.ltb_lt _ _)) by done. by rewrite IH. }
  set (pre1 := List.filter _ pre). exists (drop (length (pre1 ++ ours) - 511) pre1). rewrite drop_app_le by (rewrite length_app; lia).
  split_and!; [done| |rewrite length_app, length_drop; rewrite length_app in *; lia].
  etrans; [|apply mkeys_filter]. unfold mkeys. rewrite fmap_drop. apply sublist_drop.
Qed.

Lemma deliver_keeps_handles x now cs out done_ w pre : Inj (=) (=) uuid ->
  fresh_ids w -> citations w = pre ++ (given x now <$> done_) -> (length done_ + length cs <= 511)%nat ->
  exists done_' pre' n trunc, deliver uuid x o now cs out ((fun p => deliveredOf p.1 p.2) <$> done_) w
      = (set_nextUuid n (set_citations (pre' ++ (given x now <$> done_')) w), ((fun p => deliveredOf p.1 p.2) <$> done_', trunc))
    /\ fresh_ids (set_nextUuid n (set_citations (pre' ++ (given x now <$> done_')) w))
    /\ (forall p, p ∈ done_' -> p ∈ done_ \/ p.1 ∈ cs) /\ (length done_' <= length done_ + length cs)%nat.
Proof.
  intros Hinj. revert out done_ w pre. induction cs as [|c cs IH]; intros out done_ w pre Hf Hc Hl; cbn [deliver].
  { exists done_, pre, (nextUuid w), false. rewrite <- Hc. destruct w. split_and!; [done|done|by left|cbn; lia]. }
  set (id := ("localdir:" +:+ uuid (nextUuid w))%string).
  destruct (negb _ && _).
  { exists done_, pre, (S (nextUuid w)), true. rewrite <- Hc. split_and!; [by destruct w|by apply (fresh_sub _ _ w); [rewrite <- ?Hc|lia|]|by left|cbn; lia]. }
  cbn [citations set_nextUuid]. rewrite Hc.
  destruct (prune_keeps now pre (given x now <$> done_)) as (pre1 & Hp & Hsub & _).
  { apply Forall_fmap, Forall_true. intros p. cbn. unfold CITATION_TTL_MS. lia. } { rewrite length_fmap. cbn in Hl. lia. }
  assert (mkeys (pre1 ++ (given x now <$> done_)) `sublist_of` mkeys (citations w)) as Hsub'.
  { rewrite Hc. unfold mkeys in *. rewrite !fmap_app. by apply sublist_app. }
  assert (id ∉ mkeys (pre1 ++ (given x now <$> done_))) as Hnew.
  { intros Hin. destruct Hf as [_ Hk]. destruct (Hk id) as (n & Hn & E); [by eapply elem_of_submseteq, sublist_submseteq|].
    unfold id in E. apply (inj (String.app "localdir:")) in E. apply Hinj in E. lia. }
  rewrite Hp, mset_fresh; cycle 1.
  { destruct (mget id _) eqn:E; [|done]. destruct Hnew. apply elem_of_mkeys. by eexists. }
  set (w1 := set_citations _ _).
  specialize (IH (out + candidateSize c id) (done_ ++ [(c, id)]) w1 pre1).
  assert (fresh_ids w1) as Hf1.
  { destruct Hf as [Hd Hk]. split; cbn [w1 citations set_citations]; unfold mkeys in *; rewrite fmap_app; cbn [fmap list_fmap].
    - apply NoDup_app. split_and!; [by eapply sublist_NoDup| |apply NoDup_singleton]. intros k Hk1 Hk2. by apply list_elem_of_singleton in Hk2 as ->.
    - intros k [Hk1|Hk1]%elem_of_app.
      + destruct (Hk k) as (n & Hn & ->); [by eapply elem_of_submseteq, sublist_submseteq|]. exists n. cbn. split; [lia|done].
      + apply list_elem_of_singleton in Hk1 as ->. exists (nextUuid w). cbn. split; [lia|done]. }
  destruct IH as (done' & pre' & n & trunc & E & Hf' & Hin & Hlen); [done| |rewrite length_app; cbn in *; lia|].
  { cbn [w1 citations set_citations]. rewrite fmap_app, app_assoc. done. }
  exists done', pre', n, trunc. rewrite fmap_app in E. cbn [fmap list_fmap] in E. split_and!.
  - exact E.
  - exact Hf'.
  - intros p Hp1. destruct (Hin p Hp1) as [H|?]; [|right; by right]. apply elem_of_app in H as [?|H]; [by left|].
    apply list_elem_of_singleton in H as ->. right. by left.
  - rewrite length_app in Hlen. cbn in *. lia.
Qed.

(** *** The loop over the directories *)

Lemma addDirectory_tracked cks ids w id : tracked cks ids w -> tracked cks [id] (addDirectory h id w).
Proof.
  intros (Hd & Hf & k & Hk & Ho & He & _ & Hc). split; [done|]. split; [by apply (fresh_sub _ _ w)|].
  eexists. split.
  - unfold taskOf, addDirectory. cbn [tasks set_tasks]. rewrite find_map_key by (intros p; by destruct (Nat.eqb p.1 h)).
    unfold taskOf in Hk. rewrite Hk. cbn. rewrite Nat.eqb_refl. reflexivity.
  - cbn. split_and!; [done|done| |].
    + intros id' ->%list_elem_of_singleton. case_bool_decide; [done|]. apply elem_of_app. right. by apply list_elem_of_singleton.
    + intros c Hin. destruct (Hc c Hin) as [H1 H2]. split; [|done]. case_bool_decide; [done|]. apply elem_of_app. by left.
Qed.

Definition covered (cks : list Checked) (c : Candidate) : Prop := mkChecked (cd_resource c) (cd_bindingRevision c) (cd_authority c) ∈ cks.

Lemma covered_app cks c' c : covered cks c -> covered (cks ++ [c']) c.
Proof. intros H. apply elem_of_app. by left. Qed.

(** A check that succeeds adds its grant to what is tracked. *)
Lemma checked_tracked cks x res rev a tool w : (exists t, owner (x_caller x) t = Ok o) -> x_employeeId x = e ->
  tracked cks [directory_id res] w -> checked x (directory_id res) rev tool (Some h) w -> tracked (cks ++ [mkChecked res rev a]) [] w.
Proof.
  intros [t Ho] He (Hd & Hf & k & Hk & Hko & Hke & Hids & Hc) (o' & [t' Ho'] & _ & Hg & _).
  rewrite (owner_fun _ _ _ _ _ Ho Ho'), He in Hg. split; [done|]. split; [done|]. exists k. split_and!; try done.
  - intros id Hid. by apply not_elem_of_nil in Hid.
  - intros c [Hin|Hin]%elem_of_app; [auto|]. apply list_elem_of_singleton in Hin as ->. cbn. split; [|by right].
    apply Hids. by apply list_elem_of_singleton.
Qed.

Variables (x : DirectoryExecution) (terms : list text) (limit : nat).
Hypothesis x_owner : exists t, owner (x_caller x) t = Ok o.
Hypothesis x_employee : x_employeeId x = e.
Notation searchResources := (searchResources verified fold localeCompare x terms limit h).

Lemma searchResources_sound deadline rs s cks log w :
  tracked cks [] w -> scan_ok limit (covered cks) s ->
  wp (interference h) (searchResources deadline o rs s cks)
    (fun log r w => match r with Ok (s', cks') => tracked cks' [] w /\ scan_ok limit (covered cks') s' | Err _ => True end) log w.
Proof.
  revert s cks log w. induction rs as [|res rs IH]; intros s cks log w Ht Hs; cbn [DirectoryService.searchResources]; [done|].
  apply wp_bind, wp_atomically. intros t. cbn [fst snd]. destruct (enabledBinding _ _ _ _) as [[b|]|]; [|by apply IH|done].
  apply wp_bind, wp_atomically. intros t1. cbn [fst snd]. apply wp_bind.
  apply (wp_check _ (tracked cks [directory_id res])); [apply tracked_interference|apply tracked_registry|by eapply addDirectory_tracked| |done].
  intros log1 a w1 _ Ht1 Hck _. pose proof (checked_tracked cks x res (brevision b) a _ w1 x_owner x_employee Ht1 Hck) as Ht2.
  set (cks' := cks ++ [mkChecked res (brevision b) a]) in *. apply wp_bind.
  assert (scan_ok limit (covered cks') (mkScan (sc_coverage s) (sc_partial s) (sc_candidates s) [""%string])) as Hs'.
  { destruct Hs as (H1 & H2 & H3). split_and!; [|done|done]. cbn. eapply Forall_impl; [done|]. intros c. apply covered_app. }
  eapply wp_mono; [|apply (walk_ok _ (tracked cks' [])) with (P := covered cks')];
    [|apply tracked_interference|apply tracked_registry| |done|done|].
  - intros log2 [s2|err] w2 _ [Ht3 H3]; [|done]. destruct H3 as (Hs3 & _). by apply IH.
  - intros. apply elem_of_app. right. by apply list_elem_of_singleton.
  - unfold potential, WALK_FUEL. cbn. destruct Hs as (_ & _ & ?). lia.
Qed.

Lemma recheckAll_sound cks0 cks log w : tracked cks0 [] w -> (cks = [] -> admitted w x LocalDirSearch) ->
  wp (interference h) (recheckAll verified x h cks)
    (fun log r w => match r with Ok _ => tracked cks0 [] w /\ admitted w x LocalDirSearch | Err _ => True end) log w.
Proof.
  revert log w. induction cks as [|c cks IH]; intros log w Ht Ha; cbn [recheckAll]; [cbn; auto|].
  apply wp_bind. apply (wp_check _ (tracked cks0 [])); [apply tracked_interference|apply tracked_registry|done| |done].
  intros log1 a w1 _ Ht1 (o' & _ & Had & _) _. by apply IH.
Qed.
End Search.

(** *** A whole search *)

(** A delivered hit in the state in which it is handed out. *)
Definition delivered_under_grant (x : DirectoryExecution) (o : DirectoryOwner) (w : World) (it : DeliveredHit) : Prop :=
  exists c, mget (dh_citation_id it) (citations w) = Some c
  /\ ci_title c = dh_title it /\ ci_relative c = dh_path it /\ ci_version c = dh_version it /\ ci_snippet c = dh_snippet it
  /\ ci_owner c = o /\ ci_context c = x
  /\ granted (dirs w) o (directory_id (ci_resource c)) (x_employeeId x) (ci_bindingRevision c) = true.

(** What a search task guarantees when it is done. *)
Definition search_granted (x : DirectoryExecution) (o : DirectoryOwner) (limit : nat) (res : SearchResult) (w : World) : Prop :=
  (length (sr_items res) <= limit)%nat /\ admitted w x LocalDirSearch /\ forall it, it ∈ sr_items res -> delivered_under_grant x o w it.

Lemma searchTask_sound w x o terms limit h log :
  Inj (=) (=) uuid -> (limit <= 15)%nat -> (exists t, owner (x_caller x) t = Ok o) ->
  wf_dirs (dirs w) -> fresh_ids w -> taskOf w h = Some (h, mkTask o (x_employeeId x) [] false) ->
  wp (interference h) (searchTask verified uuid fold localeCompare x o terms limit h)
    (fun _ r w' => match r with Ok res => search_granted x o limit res w' | Err _ => True end) log w.
Proof.
  intros Hinj Hlim Ho Hd Hf Ht.
  unfold searchTask. apply wp_bind, wp_atomically. intros t. cbn [fst snd]. apply wp_bind.
  eapply wp_mono; [|apply (searchResources_sound h o (x_employeeId x)); try done].
  2:{ split; [done|]. split; [done|]. eexists. split; [exact Ht|]. split_and!; [done|done|..]; intros ? Hin; by apply not_elem_of_nil in Hin. }
  2:{ split_and!; [constructor|cbn; lia|done]. }
  intros log1 [[s cks]|err] w1 _; [|done]. cbn [fst snd]. intros [Htr (Hcov & Hlen & _)]. destruct cks as [|c0 cks]; [done|].
  apply wp_bind. eapply wp_mono; [|by apply (recheckAll_sound h o (x_employeeId x) x (c0 :: cks))].
  intros log2 [[]|err] w2 _; [|done]. intros [Htr2 Had]. apply wp_atomically. intros t2. unfold finishSearch.
  destruct Htr2 as (Hd2 & Hf2 & k & Hk & Hko & Hke & _ & Hg).
  assert (aborted w2 (Some h) = tk_aborted k) as Hab by (unfold aborted, taskOf in *; by rewrite Hk).
  destruct (aborted w2 (Some h)) eqn:Ea; [done|].
  destruct (deliver_keeps_handles o x (date t2) (sc_candidates s) 0 [] w2 (citations w2)) as (dn & pre & n & trunc & E & Hf3 & Hin & Hln);
    [done|done|by rewrite app_nil_r|cbn; lia|]. cbn [fmap list_fmap] in E. rewrite E. unfold search_granted. cbn [fst snd sr_items].
  split_and!.
  - rewrite length_fmap. cbn in Hln. lia.
  - by eapply admitted_frame; [..|exact Had].
  - intros it (p & -> & Hp)%list_elem_of_fmap. destruct (Hin p Hp) as [Hn|Hc]; [by apply not_elem_of_nil in Hn|].
    rewrite Forall_forall in Hcov. destruct (Hg _ (Hcov _ Hc)) as [_ [Habs|Hgr]]; [congruence|].
    exists (citationOf x o p.1 (date t2)). split_and!; try done. cbn [dh_citation_id deliveredOf].
    destruct Hf3 as [Hnd _]. apply In_mget; [done|]. cbn. apply elem_of_app. right. apply list_elem_of_fmap. exists p. by destruct p.
Qed.

Lemma validLimit_bound query limit l : validLimit query limit = Some l -> (l <= 15)%nat.
Proof. unfold validLimit. destruct limit as [z| | |]; try done. destruct (_ && _) eqn:E; [|done]. intros [= <-]. boolify. lia. Qed.

Lemma addTask_found k w : Forall (fun p => p.1 < nextTask w)%nat (tasks w) -> taskOf (addTask k w).1 (nextTask w) = Some (nextTask w, k).
Proof.
  intros Hf. unfold taskOf, addTask. cbn [fst tasks]. induction (tasks w) as [|p l IH]; cbn; [by rewrite Nat.eqb_refl|].
  apply Forall_cons in Hf as [Hp Hf]. rewrite (proj2 (Nat.eqb_neq p.1 _)) by lia. auto.
Qed.

Lemma removeTask_granted x o limit res h w : search_granted x o limit res w -> search_granted x o limit res (removeTask h w).
Proof.
  intros (Hl & Ha & Hi). split_and!; [done|by eapply admitted_frame; [..|exact Ha]|]. intros it Hit.
  destruct (Hi it Hit) as (c & Hc). by exists c.
Qed.

(** C15. Search results are handed out only under standing grants: whatever other code of the
    process does at every [await] of a running search (registering, binding, revoking, signing
    out, aborting, other searches), when the search returns, at that moment the execution is
    authorised, and every returned hit has a live citation of the calling member whose
    directory is unrevoked and bound to the employee at the revision it was found under; there
    are at most as many hits as were asked for. *)
Theorem search_returns_only_granted_hits w x query limit signalAborted log res w' :
  Inj (=) (=) uuid -> wf_dirs (dirs w) -> fresh_ids w -> Forall (fun p => p.1 < nextTask w)%nat (tasks w) ->
  runs (interference (nextTask w)) w (search verified uuid fold localeCompare x query limit signalAborted) log (Ok res) w' ->
  exists o l t, owner (x_caller x) t = Ok o /\ validLimit query limit = Some l /\ (length (sr_items res) <= l)%nat
    /\ admitted w' x LocalDirSearch /\ forall it, it ∈ sr_items res -> delivered_under_grant x o w' it.
Proof.
  intros Hinj Hd Hf Hn Hrun. set (h := nextTask w).
  refine (wp_adequate (interference h) _ (fun _ r w' => match r with Ok res => exists o l t, owner (x_caller x) t = Ok o
            /\ validLimit query limit = Some l /\ search_granted x o l res w' | Err _ => True end) [] w log (Ok res) w' _ Hrun). clear Hrun.
  unfold search. apply wp_bind, wp_atomically. intros t. destruct (authorize w t x (Some LocalDirSearch)).2 as [s|] eqn:E; [|done].
  rewrite (authorize_Ok _ _ _ _ _ E). destruct (validLimit query limit) as [l|] eqn:El; [|done].
  apply wp_bind, wp_atomically. intros t1. cbn [fst snd]. destruct (owner (x_caller x) (date t1)) as [o|] eqn:Eo; [|done].
  unfold trackTask. destruct signalAborted; [done|]. apply wp_bind, wp_atomically. intros t2. cbn [fst snd]. apply wp_finally.
  eapply wp_mono; [|apply (searchTask_sound _ x o); try done; [by eapply validLimit_bound|by exists (date t1)|by apply addTask_found]].
  intros log1 [r|] w1 _ Hr; [|done]. exists o, l, (date t1). split_and!; [done|done|]. by apply removeTask_granted.
Qed.

(** *** Searches end *)

Lemma real_enabledBinding db o id e : real (enabledBinding db o id e).
Proof. unfold enabledBinding. apply real_bind; [apply real_bindings|done]. Qed.

Definition settles {A} (Φ : A -> Prop) (log : list (request * result dir_error reply)) (r : result dir_error A) (w : World) : Prop :=
  match r with Ok a => Φ a | Err e => blamed log e end.

Lemma searchResources_ends rely x terms limit h deadline o rs s cks log w : scan_ok limit (fun _ => True) s ->
  wp rely (searchResources verified fold localeCompare x terms limit h deadline o rs s cks)
    (settles (fun p => scan_ok limit (fun _ => True) p.1)) log w.
Proof.
  revert s cks log w. induction rs as [|res rs IH]; intros s cks log w Hs; cbn [searchResources]; [done|].
  apply wp_bind, wp_atomically. intros t. cbn [fst snd]. pose proof (real_enabledBinding (dirs w) o (directory_id res) (x_employeeId x)) as Hr.
  destruct (enabledBinding _ _ _ _) as [[b|]|err] eqn:Eb; [|by apply IH|by eapply blamed_real].
  apply wp_bind, wp_atomically. intros t1. cbn [fst snd]. apply wp_bind.
  apply (wp_check rely (fun _ => True)); [done|done|done| |done]. intros log1 a w1 _ _ _ _. apply wp_bind.
  eapply wp_mono; [|apply (walk_ok rely (fun _ => True)) with (P := fun _ => True); try done].
  - intros log2 [s2|err] w2 _ [_ H3]; [|done]. destruct H3 as (Hs3 & _). by apply IH.
  - unfold potential, WALK_FUEL. cbn. destruct Hs as (_ & _ & ?). lia.
Qed.

Lemma recheckAll_ends rely x h cks log w : wp rely (recheckAll verified x h cks) (settles (fun _ => True)) log w.
Proof.
  revert log w. induction cks as [|c cks IH]; intros log w; cbn [recheckAll]; [done|].
  apply wp_bind. apply (wp_check rely (fun _ => True)); [done|done|done| |done]. intros. apply IH.
Qed.

Lemma search_ends w x query limit signalAborted rely log r w' :
  runs rely w (search verified uuid fold localeCompare x query limit signalAborted) log r w' ->
  (forall q, (q, Err OutOfFuel) ∉ log) -> r <> Err OutOfFuel.
Proof.
  intros Hrun Hlog. cut (settles (fun _ => True) log r w').
  { intros H ->. destruct (H eq_refl) as [q Hq]. by apply (Hlog q). }
  refine (wp_adequate rely _ _ [] w log r w' _ Hrun). clear Hrun Hlog. unfold search.
  apply wp_bind, wp_atomically. intros t. pose proof (real_authorize w t x (Some LocalDirSearch)) as Ha.
  destruct (authorize w t x (Some LocalDirSearch)).2 as [s|err] eqn:E; [|by eapply blamed_real].
  destruct (validLimit query limit) as [l|]; [|by intros [=]]. apply wp_bind, wp_atomically. intros t1. cbn [fst snd].
  pose proof (real_owner (x_caller x) (date t1)) as Ho. destruct (owner (x_caller x) (date t1)) as [o|err]; [|by eapply blamed_real].
  unfold trackTask. destruct signalAborted; [by intros [=]|]. apply wp_bind, wp_atomically. intros t2. cbn [fst snd]. apply wp_finally.
  unfold searchTask. apply wp_bind, wp_atomically. intros t3. cbn [fst snd]. apply wp_bind.
  eapply wp_mono; [|apply searchResources_ends; split_and!; [constructor|cbn; lia|done]].
  intros log1 [[sc cks]|err] w1 _ H1; [|done]. cbn [fst snd]. destruct cks as [|c cks]; [by intros [=]|].
  apply wp_bind. eapply wp_mono; [|apply recheckAll_ends]. intros log2 [[]|err] w2 _ H2; [|done].
  apply wp_atomically. intros t4. unfold finishSearch. destruct (aborted w2 _); [by intros [=]|].
  by destruct (deliver _ _ _ _ _ _ _ _) as [w3 [items trunc]].
Qed.

(** C36. A search always ends within its bounds: in every run, whatever directory trees the
    host reports (cyclic ones and ones that repeat names included) and whatever else the
    process does, the walk never needs more iterations than the directories it starts with and
    the 8000 entries it may examine allow; and with any host that answers, the search returns. *)
Theorem search_always_ends w x query limit signalAborted clock host :
  (forall q, host q <> Err OutOfFuel) ->
  let prog := search verified uuid fold localeCompare x query limit signalAborted in
  (exists log r w', runs eq w prog log r w' /\ real r /\ r = (run_alone clock host prog w).1)
  /\ forall rely log r w', runs rely w prog log r w' -> (forall q, (q, Err OutOfFuel) ∉ log) -> real r.
Proof.
  intros Hhost prog. assert (forall rely log r w', runs rely w prog log r w' -> (forall q, (q, Err OutOfFuel) ∉ log) -> r <> Err OutOfFuel) as Hall by apply search_ends.
  split; [|done]. exists (log_alone clock host prog w), (run_alone clock host prog w).1, (run_alone clock host prog w).2.
  pose proof (run_alone_runs eq clock host prog w (fun _ => eq_refl)) as Hr. split_and!; [done| |done].
  eapply Hall; [exact Hr|]. intros q Hq%log_alone_host. by apply (Hhost q).
Qed.
End Safety.

(** ** Reading on *)

(** Following [next_offset]. *)
Fixpoint readOn (fuel : nat) (content : text) (off : Z) : option text :=
  match fuel with
  | O => None
  | S fuel =>
      match sliceSource content off with
      | Ok (part, Some next) => (fun rest => part ++ rest) <$> readOn fuel content next
      | Ok (part, None) => Some part
      | Err _ => None
      end
  end.

(** Reading from the start and following the offsets returns the whole source, in parts of at
    most 12000 code points. *)
Theorem reading_on_is_complete content fuel : Z.of_nat (length (codePoints content)) < Z.of_nat fuel * READ_POINTS ->
  readOn fuel content 0 = Some content.
Proof.
  rewrite <- (concat_codePoints content) at 3. set (P := codePoints content). intros Hf.
  cut (forall f off, 0 <= off -> off <= Z.of_nat (length P) -> Z.of_nat (length P) < off + Z.of_nat f * READ_POINTS ->
         readOn f content off = Some (concat (drop (Z.to_nat off) P))).
  { intros H. rewrite (H fuel 0); [by rewrite drop_0|lia|lia|lia]. }
  induction f as [|f IH]; intros off H0 Hle Hlt; [unfold READ_POINTS in *; lia|]. cbn [readOn]. unfold sliceSource. fold P.
  rewrite (proj2 (Z.ltb_ge _ _)) by lia. unfold READ_POINTS in *. destruct (_ <? _) eqn:E; boolify.
  - rewrite IH by lia. cbn [fmap option_fmap option_map]. f_equal. rewrite <- concat_app. f_equal.
    replace (Z.to_nat (off + 12000)) with (Z.to_nat off + Z.to_nat 12000)%nat by lia. rewrite <- drop_drop. apply take_drop.
  - f_equal. f_equal. apply take_ge. rewrite length_drop. unfold text in *. lia.
Qed.

(** ** Located hits *)

Lemma normalizeWithMap_index fold s i v : normalizeWithMap fold s !! i = Some v -> (v.2 < length (codePoints s))%nat.
Proof.
  unfold normalizeWithMap. intros H%list_elem_of_lookup_2. apply list_elem_of_In, in_concat in H as (l & Hl & Hv).
  apply list_elem_of_In in Hl, Hv. apply elem_of_lookup_imap in Hl as (j & p & -> & Hp).
  unfold foldPoint in Hv. apply list_elem_of_fmap in Hv as (unit & -> & _). cbn. by apply lookup_lt_Some in Hp.
Qed.

Lemma startsWith_length p s : startsWith p s = true -> (length p <= length s)%nat.
Proof. revert s. induction p as [|x p IH]; intros [|y s]; cbn; try done; try lia. intros H. boolify. specialize (IH s H0). lia. Qed.

Lemma indexOfText_spec p s i : indexOfText p s = Some i -> (i + length p <= length s)%nat /\ startsWith p (drop i s) = true.
Proof.
  revert i. induction s as [|c s IH]; intros i; cbn [indexOfText]; destruct (startsWith p _) eqn:E; try done.
  - intros [= <-]. split; [by apply startsWith_length|by rewrite drop_0].
  - intros [= <-]. split; [by apply startsWith_length|by rewrite drop_0].
  - destruct (indexOfText p s) as [j|]; [|done]. intros [= <-]. destruct (IH j eq_refl). cbn. split; [lia|done].
Qed.

Lemma min_anchor a l : foldr Nat.min a l ∈ a :: l.
Proof.
  induction l as [|b l IH]; cbn; [by left|]. destruct (Nat.min_spec b (foldr Nat.min a l)) as [[_ ->]|[_ ->]]; [right; by left|].
  apply elem_of_cons in IH as [->|?]; [by left|right; by right].
Qed.

(** Every reported hit can be found in the original text: each term occurs in the file name or
    in the folded text, the snippet is a run of at most 400 code points of the original, and
    when a non-empty term occurs in the text the snippet contains the code point at which some
    term's first occurrence begins, at most 100 points in. *)
Theorem hits_are_locatable fold terms name s hit : Forall (fun t => t <> []) terms -> locateHit fold terms name s = Some hit ->
  let normalized := (normalizeWithMap fold s).*1 in
  (forall t, t ∈ terms -> includesText name t = true \/ includesText normalized t = true)
  /\ hit_snippet hit = concat (take 400 (drop (hit_offset hit) (codePoints s)))
  /\ ((exists t, t ∈ terms /\ includesText normalized t = true) ->
      exists t i p, t ∈ terms /\ indexOfText t normalized = Some i /\ snd <$> normalizeWithMap fold s !! i = Some p
        /\ (hit_offset hit <= p <= hit_offset hit + 100)%nat /\ (p < length (codePoints s))%nat).
Proof.
  intros Hne H normalized. unfold locateHit in H. cbv zeta in H. fold normalized in H. destruct (forallb (fun term => includesText name term || includesText normalized term) terms) eqn:E; cbn [negb] in H; [|done].
  injection H as <-. cbn [hit_snippet hit_offset]. rewrite forallb_forall in E. split_and!; [|done|].
  - intros t Ht. apply list_elem_of_In in Ht. apply E in Ht. by apply orb_true_iff.
  - intros (t0 & Ht0 & Hi0). match goal with |- context [omap ?f terms] => set (anchors := omap f terms) end. unfold includesText in Hi0. destruct (indexOfText t0 normalized) as [i0|] eqn:Ei0; [|done].
    assert (exists a l, anchors = a :: l) as (a & l & Ha).
    { destruct anchors as [|a l] eqn:Ea; [|eauto]. exfalso. eapply not_elem_of_nil. rewrite <- Ea. unfold anchors. apply list_elem_of_omap.
      exists t0. split; [done|]. rewrite Ei0. reflexivity. }
    rewrite Ha. pose proof (min_anchor a l) as Hm. rewrite <- Ha in Hm. unfold anchors in Hm. apply list_elem_of_omap in Hm as (t & Ht & Hti).
    destruct (indexOfText t normalized) as [i|] eqn:Ei; [|done]. cbn in Hti. destruct (indexOfText_spec _ _ _ Ei) as [Hlen _].
    rewrite Forall_forall in Hne. specialize (Hne t Ht). destruct t as [|c t]; [done|]. cbn in Hlen. unfold normalized in Hlen. rewrite length_fmap in Hlen.
    destruct (lookup_lt_is_Some_2 (normalizeWithMap fold s) i) as [[v p] Hv]; [lia|]. rewrite Hv in Hti. cbn in Hti.
    exists (c :: t), i, p. rewrite Hv. pose proof (normalizeWithMap_index fold s i _ Hv) as Hp. cbn in Hp. injection Hti as Hti.
    split_and!; try done; lia.
Qed.

(** ** Instances *)

Definition demoCaller : ExecAuth.AuthenticatedCaller := ExecAuth.mkCaller (Some "t"%string) (Some "m"%string) "m" (Some (Fin 1000)) (Some "token"%string).
Definition demoVerified (_ : ExecAuth.AuthenticatedCaller) : bool := true.
Definition demoClock : Clock := mkClock 5000 "2026-01-01T00:00:00.000Z" 5000.
Definition demoDOwner : DirectoryOwner := mkDOwner "t" "m".
Definition demoDirs : DirDb :=
  fold_left apply_op [Register demoDOwner (mkHost "/docs" "Docs" "root") "d1" "now"; Bind demoDOwner "d1" "e1" true (Fin 0) "now"] emptyDirDb.
Definition demoPolicy : Projections.fields :=
  [("knowledge_policy", Projections.JObj [("state", Projections.JStr "allow");
     ("allowed_operations", Projections.JArr [Projections.JStr "knowledge_search"; Projections.JStr "knowledge_get"])])]%string.
Definition demoProjections : Projections.ProjectionDb :=
  Projections.sync Projections.emptyProjections
    (Projections.mkSync [Projections.mkExpert "e1" "t" (Some "m"%string) "v1" None []] []
       [Projections.mkSnapshot "e1" (Some "t"%string) (Some "m"%string) "v1" "s1" demoPolicy] [] (Some (Projections.mkOwner "t" "m")) "now").
Definition demoConversation : Conversations.ConversationRow :=
  Conversations.mkRow "c1" "f" "w" None None None "chat" [] Conversations.Active (Some "e1"%string) None None (Some "t"%string) (Some "m"%string) None 0
    Conversations.ReadOnly None 0 0.
Definition demoConversations : Conversations.Store :=
  Conversations.mkStore [demoConversation] [] [] [] [] [] [] [] [] (Automation.mkAutomation [] [] [] []) WorkRecords.emptyDb [].
Definition demoExecution : DirectoryExecution := mkExecution demoCaller "e1" "c1" "session" "turn" "s1" 0 "read-only" false.
Definition demoRegistry : ExecAuth.Registry := (ExecAuth.register ExecAuth.emptyRegistry demoCaller 5000).1.
Definition demoWorld : World := mkWorld demoDirs [] [(0%nat, mkTask demoDOwner "e1" [] false)] 1 0 demoRegistry demoConversations demoProjections.
Definition demoDirUuid (n : nat) : string := pretty n.

(** One directory with one matching file. *)
Definition demoHost (q : request) : result dir_error reply :=
  match q with
  | ReqCheck _ => Ok (RepAuthority "a")
  | ReqList _ _ => Ok (RepListing "a" [mkEntry "note.txt" false; mkEntry "image.png" false] false)
  | ReqRead _ _ => Ok (RepSource "a" (u "an agenda for monday") "v")
  | _ => Ok RepDone
  end.
Definition demoSearch : prog SearchResult := search demoVerified demoDirUuid (fun s => s) (fun _ _ => 0) demoExecution (u "agenda") (Fin 15) false.
Definition demoFound : result dir_error SearchResult * World := Eval vm_compute in run_alone demoClock demoHost demoSearch demoWorld.

Lemma demo_wf_dirs : wf_dirs demoDirs.
Proof. apply history_wf_dirs. Qed.

Lemma search_returns_only_granted_hits_witness :
  exists res o, demoFound.1 = Ok res /\ length (sr_items res) = 1%nat
    /\ (forall it, it ∈ sr_items res -> delivered_under_grant demoExecution o demoFound.2 it).
Proof.
  destruct demoFound.1 as [res|] eqn:E; [|discriminate E]. exists res.
  assert (runs (interference demoVerified demoDirUuid 1) demoWorld demoSearch (log_alone demoClock demoHost demoSearch demoWorld) (Ok res) demoFound.2) as Hr.
  { rewrite <- E. replace demoFound with (run_alone demoClock demoHost demoSearch demoWorld) by (vm_compute; reflexivity).
    apply run_alone_runs. constructor. }
  assert (fresh_ids demoDirUuid demoWorld) as Hf by (split; [constructor|]; intros k Hk; by apply not_elem_of_nil in Hk).
  destruct (search_returns_only_granted_hits demoVerified demoDirUuid (fun s => s) (fun _ _ => 0) demoWorld demoExecution
              (u "agenda") (Fin 15) false _ res demoFound.2 _ demo_wf_dirs Hf ltac:(repeat constructor) Hr) as (o & l & t & _ & _ & _ & _ & Hit).
  exists o. split; [reflexivity|]. split; [|exact Hit]. injection E as <-. reflexivity.
Defined.

Lemma search_always_ends_witness : (run_alone demoClock demoHost demoSearch demoWorld).1 <> Err OutOfFuel.
Proof.
  destruct (search_always_ends demoVerified demoDirUuid (fun s => s) (fun _ _ => 0) demoWorld demoExecution (u "agenda") (Fin 15) false demoClock demoHost)
    as [(log & r & w' & _ & Hr & ->) _]; [by intros []|exact Hr].
Defined.

(** Reading the hit that was found. *)
Definition demoRead : prog ReadResult := read demoVerified demoExecution "localdir:0" (Fin 3) false.
Definition demoText : result dir_error ReadResult * World := Eval vm_compute in run_alone demoClock demoHost demoRead demoFound.2.

Lemma read_returns_only_granted_text_witness :
  exists res, demoText.1 = Ok res /\ rd_text res = u "agenda for monday"
    /\ granted_read demoVerified demoFound.2 demoExecution "localdir:0" (Fin 3) (log_alone demoClock demoHost demoRead demoFound.2) res demoText.2.
Proof.
  destruct demoText.1 as [res|] eqn:E; [|discriminate E]. exists res. split; [reflexivity|]. split; [injection E as <-; reflexivity|].
  apply (read_returns_only_granted_text demoVerified eq demoFound.2 demoExecution "localdir:0" (Fin 3) false). rewrite <- E.
  replace demoText with (run_alone demoClock demoHost demoRead demoFound.2) by (vm_compute; reflexivity).
  apply run_alone_runs. reflexivity.
Defined.
