(* ===== verification/ManagerJwks.v ===== *)
(** Authentication against the Manager's published keys (http/manager-jwks.ts,
    [ManagerJwksAuthenticator]): the cache of public keys per tenant, its refresh, and the
    requests that wait for it.

    A cache entry is a shared object: a request keeps the entry it found even when the cache
    drops it meanwhile.  Entries are therefore cells of a heap, and [entries] maps a tenant to
    its cell.  A request is a task that is run up to its next [await] by one event; any other
    event may come in between.  The token functions are those of JwtAuth.v. *)

From S2P Require Import Prelude Decimal JwtAuth.
From Stdlib Require Import Ascii.
Local Open Scope Z_scope.

Definition TTL_MS : Z := 60000.
Definition COOLDOWN_MS : Z := 5000.

(** [pending]: no promise, a download under way, or a download whose outcome is known but
    whose [finally] has not run. *)
Inductive Pending : Type := Idle | Downloading | Settled (ok : bool).
#[export] Instance Pending_eq_dec : EqDecision Pending.
Proof. solve_decision. Defined.

Record Entry : Type := mkEntry { keys : list JwtJwk; expires : Z; attempted : Z; pending : Pending }.

Inductive jwks_error : Type := Rejected (what : string) | ManagerUnavailable (what : string).

(** ** Tokens and keys of a tenant *)

Definition isHex (c : ascii) : bool :=
  let n := Z.of_N (N_of_ascii c) in ((48 <=? n) && (n <=? 57)) || ((65 <=? n) && (n <=? 70)) || ((97 <=? n) && (n <=? 102)).
(** [/^[0-9a-f]{8}-[0-9a-f]{4}-[0-9a-f]{4}-[0-9a-f]{4}-[0-9a-f]{12}$/i]. *)
Fixpoint matchGroups (groups : list nat) (l : list ascii) : bool :=
  match groups with
  | [] => bool_decide (l = [])
  | [n] => Nat.eqb (length l) n && forallb isHex l
  | n :: groups => Nat.eqb (length (take n l)) n && forallb isHex (take n l)
                   && match drop n l with c :: l => Ascii.eqb c "-" && matchGroups groups l | [] => false end
  end.
Definition TENANT (s : string) : bool := matchGroups [8; 4; 4; 4; 12]%nat (chars s).

(** [/^[1-9][0-9]{0,9}$/]. *)
Definition keyNumber (s : string) : bool :=
  match chars s with
  | c :: l => is_digit c && negb (Ascii.eqb c "0") && Nat.leb (length l) 9 && forallb is_digit l
  | [] => false
  end.
Definition scopedKid (kid tenant : string) : bool :=
  String.prefix (tenant +:+ ":") kid && keyNumber (String.substring (String.length tenant + 1) (String.length kid) kid).

Section Authenticator.
Context (parseJson decodeJson : string -> option json) (publicKeyOk : JwtJwk -> bool)
        (signatureOk : JwtJwk -> string -> string -> bool) (issuer_ audience_ : string).

Definition selector (token : string) : result jwks_error (string * string) :=
  if 16384 <? slen token then Err (Rejected "Invalid JWT")
  else
    match splitDot "" token with
    | [h; p; _] =>
        match decodeJson h, decodeJson p with
        | Some header, Some claims =>
            match strOf (member claims "tenant_id"), strOf (member header "kid") with
            | Some tenant, Some kid =>
                if isStr (member header "alg") "RS256" && TENANT tenant && scopedKid kid tenant then Ok (tenant, kid)
                else Err (Rejected "Invalid JWT tenant/key scope")
            | _, _ => Err (Rejected "Invalid JWT tenant/key scope")
            end
        | _, _ => Err (Rejected "SyntaxError")
        end
    | _ => Err (Rejected "Malformed JWT")
    end.

(** ** Downloads *)

(** What a fetch of the key set can bring: a failure, or a response with its body in chunks. *)
Inductive response : Type := NetworkError | Response (ok json body : bool) (chunks : list string).

Fixpoint readBody (size : Z) (acc : string) (chunks : list string) : result jwks_error string :=
  match chunks with
  | [] => Ok acc
  | c :: chunks =>
      let size := size + slen c in
      if 65536 <? size then Err (Rejected "Manager public key response too large") else readBody size (acc +:+ c) chunks
  end.

Definition download (tenant : string) (r : response) : result jwks_error (list JwtJwk) :=
  match r with
  | NetworkError => Err (Rejected "fetch failed")
  | Response ok json_ body chunks =>
      if negb ok || negb json_ || negb body then Err (Rejected "Manager public key response invalid")
      else
        raw ← readBody 0 "" chunks;
        match parsePublicJwks parseJson publicKeyOk raw with
        | Err _ => Err (Rejected "Manager public keys invalid")
        | Ok ks =>
            if (32 <? Z.of_nat (length ks)) || existsb (fun k => negb (scopedKid (kid k) tenant)) ks
            then Err (Rejected "Manager public key tenant scope invalid") else Ok ks
        end
  end.

(** ** The authenticator *)

Inductive phase : Type :=
| Waiting                               (* for the refresh of its entry *)
| Ready                                 (* the refresh is over *)
| Checking (caller : AuthenticatedCaller) (* for the Manager's verdict on the session *)
| Finished (r : result jwks_error AuthenticatedCaller).
Record Task : Type := mkTask { tk_token : string; tk_tenant : string; tk_cell : nat; tk_phase : phase }.

Record State : Type := mkState {
  heap : list Entry;
  entries : list (string * nat);
  active : Z;
  window : Z;
  requests : Z;
  owners : list string; (* the tenant of each cell *)
  tasks : list Task;
}.
Definition initial : State := mkState [] [] 0 0 0 [] [].

Definition set_cell (h : nat) (e : Entry) (s : State) : State :=
  mkState (<[h := e]> (heap s)) (entries s) (active s) (window s) (requests s) (owners s) (tasks s).
Definition set_tasks (ts : list Task) (s : State) : State :=
  mkState (heap s) (entries s) (active s) (window s) (requests s) (owners s) ts.
Definition add_task (t : Task) (s : State) : State := set_tasks (tasks s ++ [t]) s.

(** [refresh]: the state, and whether the caller waits, goes on or fails. *)
Inductive refreshed : Type := Wait | GoOn | Fail (e : jwks_error).

Definition refresh (s : State) (h : nat) (entry : Entry) (now : Z) : State * refreshed :=
  if negb (bool_decide (pending entry = Idle)) then (s, Wait)
  else
    let fresh := now <? expires entry in
    if now - attempted entry <? COOLDOWN_MS then (s, if fresh then GoOn else Fail (ManagerUnavailable "Manager public key refresh cooling down"))
    else
      let w := now / 1000 in
      let s := if window s =? w then s else mkState (heap s) (entries s) (active s) w 0 (owners s) (tasks s) in
      if (4 <=? active s) || (16 <=? requests s) then (s, if fresh then GoOn else Fail (ManagerUnavailable "Manager public key refresh busy"))
      else
        (mkState (<[h := mkEntry (keys entry) (expires entry) now Downloading]> (heap s)) (entries s) (active s + 1) (window s) (requests s + 1) (owners s) (tasks s), Wait).

(** The rest of [authenticate] once the refresh is over: the keys must be unexpired, the
    signature and claims are checked, and the session is asked for. *)
Definition verifyToken (token : string) (entry : Entry) (now managerNow : Z) : result jwks_error AuthenticatedCaller :=
  if expires entry <=? now then Err (Rejected "Manager public keys expired")
  else match verifyJwt decodeJson signatureOk token (keys entry) (mkOptions issuer_ audience_ (Some 0) managerNow) with
       | Ok caller => Ok caller
       | Err _ => Err (Rejected "JWT")
       end.

Definition after_verify (r : result jwks_error AuthenticatedCaller) : phase :=
  match r with Ok caller => Checking caller | Err e => Finished (Err e) end.

(** [authenticate] up to its first [await]; refused requests leave no task. *)
Definition authenticate (s : State) (header : option string) (now managerNow : Z) : State :=
  match header with
  | None => s
  | Some hd =>
      if negb (String.prefix "Bearer " hd) then s
      else
        let token := String.substring 7 (String.length hd) hd in
        match selector token with
        | Err _ => s
        | Ok (tenant, kid_) =>
            match mget tenant (entries s) with
            | None => s
            | Some h =>
                match heap s !! h with
                | None => s
                | Some entry =>
                    if (expires entry <=? now) || negb (bool_decide (is_Some (keyOf (keys entry) kid_))) then
                      match refresh s h entry now with
                      | (s, Wait) => add_task (mkTask token tenant h Waiting) s
                      | (s, GoOn) => add_task (mkTask token tenant h Ready) s
                      | (s, Fail e) => add_task (mkTask token tenant h (Finished (Err e))) s
                      end
                    else add_task (mkTask token tenant h (after_verify (verifyToken token entry now managerNow))) s
                end
            end
        end
  end.

(** The first entry whose cell has no promise. *)
Definition idle (s : State) : option (string * nat) :=
  List.find (fun p => match heap s !! p.2 with Some e => bool_decide (pending e = Idle) | None => true end) (entries s).

Definition addEntry (s : State) (tenant : string) : State :=
  mkState (heap s ++ [mkEntry [] 0 0 Idle]) (mset tenant (length (heap s)) (entries s)) (active s) (window s) (requests s) (owners s ++ [tenant]) (tasks s).

(** [verifyLoginToken]: admits a tenant after a successful login. *)
Definition verifyLoginToken (s : State) (token expectedTenant : string) (now managerNow : Z) : State :=
  match selector token with
  | Err _ => s
  | Ok (tenant, _) =>
      if negb (String.eqb tenant expectedTenant) then s
      else
        let go s := authenticate s (Some ("Bearer " +:+ token)%string) now managerNow in
        match mget tenant (entries s) with
        | Some _ => go s
        | None =>
            if 256 <=? Z.of_nat (length (entries s)) then
              match idle s with
              | None => s
              | Some (t, _) => go (addEntry (mkState (heap s) (mdelete t (entries s)) (active s) (window s) (requests s) (owners s) (tasks s)) tenant)
              end
            else go (addEntry s tenant)
        end
  end.

(** The download of a cell ends: success replaces the keys. *)
Definition downloaded (s : State) (h : nat) (r : response) (now : Z) : State :=
  match heap s !! h, owners s !! h with
  | Some entry, Some tenant =>
      if negb (bool_decide (pending entry = Downloading)) then s
      else match download tenant r with
           | Ok ks => set_cell h (mkEntry ks (now + TTL_MS) (attempted entry) (Settled true)) s
           | Err _ => set_cell h (mkEntry (keys entry) (expires entry) (attempted entry) (Settled false)) s
           end
  | _, _ => s
  end.

(** The [finally] of a download: the slot is free again and the waiting requests wake up. *)
Definition wake (h : nat) (ok : bool) (t : Task) : Task :=
  match tk_phase t with
  | Waiting => if Nat.eqb (tk_cell t) h
               then mkTask (tk_token t) (tk_tenant t) (tk_cell t) (if ok then Ready else Finished (Err (ManagerUnavailable "Manager public keys are unavailable")))
               else t
  | _ => t
  end.
Definition settled (s : State) (h : nat) : State :=
  match heap s !! h with
  | Some entry =>
      match pending entry with
      | Settled ok =>
          mkState (<[h := mkEntry (keys entry) (expires entry) (attempted entry) Idle]> (heap s)) (entries s) (active s - 1) (window s) (requests s) (owners s)
            (map (wake h ok) (tasks s))
      | _ => s
      end
  | None => s
  end.

Definition set_phase (p : phase) (t : Task) : Task := mkTask (tk_token t) (tk_tenant t) (tk_cell t) p.

(** A woken request goes on. *)
Definition resume (s : State) (i : nat) (now managerNow : Z) : State :=
  match tasks s !! i with
  | Some t =>
      match tk_phase t, heap s !! tk_cell t with
      | Ready, Some entry => set_tasks (<[i := set_phase (after_verify (verifyToken (tk_token t) entry now managerNow)) t]> (tasks s)) s
      | _, _ => s
      end
  | None => s
  end.

(** [verifyManagerSession]: the Manager's verdict; only 401 and 403 say that the session is
    revoked. *)
Inductive verdict : Type := NoAnswer | Status (ok : bool) (code : Z).
Definition verifyManagerSession (v : verdict) : result jwks_error unit :=
  match v with
  | NoAnswer => Err (ManagerUnavailable "Manager authentication session is unavailable")
  | Status ok code =>
      if ok then Ok tt
      else if (code =? 401) || (code =? 403) then Err (Rejected "Manager authentication session is revoked")
      else Err (ManagerUnavailable "Manager authentication session check failed")
  end.

Definition answered (s : State) (i : nat) (v : verdict) : State :=
  match tasks s !! i with
  | Some t =>
      match tk_phase t with
      | Checking caller => set_tasks (<[i := set_phase (Finished (_ ← verifyManagerSession v; Ok caller)) t]> (tasks s)) s
      | _ => s
      end
  | None => s
  end.

(** The parts of a parsed URL the constructor looks at; it refuses to be created otherwise. *)
Record Url : Type := mkUrl { protocol : string; username : string; password : string; searchPart : string; hashPart : string; pathname : string }.
Definition createAuthenticator (url : Url) : result jwks_error unit :=
  _ ← require ((String.eqb (protocol url) "http:" || String.eqb (protocol url) "https:") && String.eqb (username url) "" && String.eqb (password url) ""
               && String.eqb (searchPart url) "" && String.eqb (hashPart url) "" && String.eqb (pathname url) "/")
        (Rejected "Manager JWKS requires a fixed http(s) origin without credentials, path, query or fragment");
  require (negb (String.eqb issuer_ "") && negb (String.eqb audience_ "")) (Rejected "JWT issuer and audience are required").

(** [ManagerSessionAuthenticator]: a locally verified caller, confirmed by the Manager. *)
Definition sessionAuthenticate (local : result jwks_error AuthenticatedCaller) (v : verdict) : result jwks_error AuthenticatedCaller :=
  caller ← local;
  _ ← require (negb (String.eqb (accessToken caller) "")) (Rejected "Manager bearer token is unavailable");
  _ ← verifyManagerSession v;
  Ok caller.

Inductive event : Type :=
| EvAuthenticate (header : option string) (now managerNow : Z)
| EvLogin (token tenant : string) (now managerNow : Z)
| EvDownloaded (h : nat) (r : response) (now : Z)
| EvSettled (h : nat)
| EvResume (i : nat) (now managerNow : Z)
| EvAnswered (i : nat) (v : verdict).

Definition handle (s : State) (ev : event) : State :=
  match ev with
  | EvAuthenticate hd now mnow => authenticate s hd now mnow
  | EvLogin token tenant now mnow => verifyLoginToken s token tenant now mnow
  | EvDownloaded h r now => downloaded s h r now
  | EvSettled h => settled s h
  | EvResume i now mnow => resume s i now mnow
  | EvAnswered i v => answered s i v
  end.

(** ** Invariants *)

Definition busy (e : Entry) : bool := negb (bool_decide (pending e = Idle)).
Definition inFlight (l : list Entry) : Z := Z.of_nat (length (List.filter busy l)).

Lemma inFlight_insert l h e e' : l !! h = Some e ->
  inFlight (<[h := e']> l) = inFlight l + (if busy e' then 1 else 0) - (if busy e then 1 else 0).
Proof.
  unfold inFlight. revert h. induction l as [|x l IH]; intros [|h] H; [done|done| |].
  - injection H as ->. change (<[0%nat:=e']> (e :: l)) with (e' :: l). cbn [List.filter]. destruct (busy e), (busy e'); cbn [length]; lia.
  - specialize (IH h H). change (<[S h:=e']> (x :: l)) with (x :: <[h:=e']> l). cbn [List.filter]. destruct (busy x); cbn [length]; lia.
Qed.
Lemma inFlight_app l e : inFlight (l ++ [e]) = inFlight l + (if busy e then 1 else 0).
Proof. unfold inFlight. rewrite List.filter_app, length_app. cbn. destruct (busy e); cbn; lia. Qed.

(** Where the keys of a cell come from: nowhere yet, or one whole download. *)
Definition origin (l : list event) (h : nat) (tenant : string) (e : Entry) : Prop :=
  (keys e = [] /\ expires e = 0)
  \/ exists r d, EvDownloaded h r d ∈ l /\ download tenant r = Ok (keys e) /\ expires e = d + TTL_MS.

(** The time readings of a verification. *)
Definition clocked (l : list event) (now mnow : Z) : Prop :=
  (exists hd, EvAuthenticate hd now mnow ∈ l) \/ (exists tok t, EvLogin tok t now mnow ∈ l) \/ (exists i, EvResume i now mnow ∈ l).

(** The token was verified with the keys of one download of its tenant, within a minute of it. *)
Definition verified (l : list event) (t : Task) (caller : AuthenticatedCaller) : Prop :=
  exists r d ks now mnow, EvDownloaded (tk_cell t) r d ∈ l /\ download (tk_tenant t) r = Ok ks /\ now < d + TTL_MS /\ clocked l now mnow
    /\ verifyJwt decodeJson signatureOk (tk_token t) ks (mkOptions issuer_ audience_ (Some 0) mnow) = Ok caller.

Definition task_ok (l : list event) (s : State) (i : nat) (t : Task) : Prop :=
  owners s !! tk_cell t = Some (tk_tenant t)
  /\ match tk_phase t with
     | Waiting => exists e, heap s !! tk_cell t = Some e /\ pending e <> Idle
     | Checking caller => verified l t caller
     | Finished (Ok caller) => verified l t caller /\ exists code, EvAnswered i (Status true code) ∈ l
     | _ => True
     end.

Record inv (l : list event) (s : State) : Prop := mkInv {
  inv_owners : length (owners s) = length (heap s);
  inv_active : active s = inFlight (heap s);
  inv_bound : 0 <= active s <= 4;
  inv_requests : 0 <= requests s <= 16;
  inv_entries : (length (entries s) <= 256)%nat;
  inv_nodup : NoDup (mkeys (entries s));
  inv_cells : forall tenant h, mget tenant (entries s) = Some h -> owners s !! h = Some tenant;
  inv_origin : forall h e tenant, heap s !! h = Some e -> owners s !! h = Some tenant -> origin l h tenant e;
  inv_tasks : forall i t, tasks s !! i = Some t -> task_ok l s i t;
}.

Lemma initial_inv : inv [] initial.
Proof. split; cbn; try done; try lia. constructor. Qed.

Lemma origin_more l ev h tenant e : origin l h tenant e -> origin (l ++ [ev]) h tenant e.
Proof. intros [?|(r & d & H & ?)]; [by left|right]. exists r, d. split; [|done]. apply elem_of_app. by left. Qed.
Lemma verified_more l ev t c : verified l t c -> verified (l ++ [ev]) t c.
Proof.
  intros (r & d & ks & now & mnow & H & ? & ? & Hc & ?). exists r, d, ks, now, mnow. split_and!; try done; [apply elem_of_app; by left|].
  destruct Hc as [[hd ?]|[(tok & tn & ?)|[i ?]]]; [left|right; left|right; right]; repeat eexists; apply elem_of_app; by left.
Qed.
Lemma task_more l ev s i t : task_ok l s i t -> task_ok (l ++ [ev]) s i t.
Proof.
  intros [H1 H2]. split; [done|]. destruct (tk_phase t) as [| |c|[c|]]; try done; [by apply verified_more|].
  destruct H2 as [H2 [code Hc]]. split; [by apply verified_more|]. exists code. apply elem_of_app. by left.
Qed.
Lemma inv_more l ev s : inv l s -> inv (l ++ [ev]) s.
Proof. intros []. split; try done; eauto using origin_more, task_more. Qed.

(** Without keys nothing verifies. *)
Lemma verifyJwt_nil token o caller : verifyJwt decodeJson signatureOk token [] o <> Ok caller.
Proof.
  unfold verifyJwt. destruct (splitDot "" token) as [|h [|p [|sig [|]]]]; try done.
  destruct (decodeJson h) as [header|]; [|done]. destruct (decodeJson p) as [c|]; [|done].
  assert (forall x, (x ≫= keyOf []) = None) as Hn by (by intros [|]).
  destruct header; try done; rewrite Hn; cbn [mbind result_bind]; destruct (require _ _); done.
Qed.

(** A verification under the invariant. *)
Lemma verifyToken_verified l s h e t now mnow caller : inv l s -> heap s !! h = Some e -> owners s !! h = Some (tk_tenant t) -> tk_cell t = h ->
  clocked l now mnow -> verifyToken (tk_token t) e now mnow = Ok caller -> verified l t caller.
Proof.
  intros Hi He Ho <- Hc H. unfold verifyToken in H. destruct (expires e <=? now) eqn:Ex; [done|]. boolify.
  destruct (verifyJwt _ _ _ _ _) as [c|] eqn:Ev; [|done]. injection H as ->.
  destruct (inv_origin _ _ Hi _ _ _ He Ho) as [[Hk _]|(r & d & Hin & Hd & Hx)].
  - rewrite Hk in Ev. by apply verifyJwt_nil in Ev.
  - exists r, d, (keys e), now, mnow. split_and!; try done. lia.
Qed.

Lemma task_ok_same l s s' i t : owners s' = owners s -> heap s' = heap s -> task_ok l s i t -> task_ok l s' i t.
Proof. unfold task_ok. by intros -> ->. Qed.

Lemma inv_add_task l s t : inv l s -> task_ok l s (length (tasks s)) t -> inv l (add_task t s).
Proof.
  intros [] Ht. split; try done. cbn [tasks add_task set_tasks]. intros i t' H.
  apply (task_ok_same l s); [done|done|]. apply lookup_app_Some in H as [H|[Hi H]]; [auto|].
  destruct (i - length (tasks s))%nat as [|k] eqn:Ek; [|done]. injection H as <-. by replace i with (length (tasks s)) by lia.
Qed.

(** Changing one cell, with the counters and the tasks. *)
Lemma inv_cell l s h e e' act req win ts : inv l s -> heap s !! h = Some e ->
  (forall tenant, owners s !! h = Some tenant -> origin l h tenant e') ->
  act = active s + (if busy e' then 1 else 0) - (if busy e then 1 else 0) -> 0 <= act <= 4 -> 0 <= req <= 16 ->
  let s' := mkState (<[h := e']> (heap s)) (entries s) act win req (owners s) ts in
  (forall i t, ts !! i = Some t -> task_ok l s' i t) -> inv l s'.
Proof.
  intros Hi He Ho Ha Hb Hr s' Hts. pose proof Hi as []. split; try done; cbn [s' heap entries active requests owners].
  - by rewrite length_insert.
  - rewrite (inFlight_insert _ _ e) by done. lia.
  - intros h' x tenant Hx Hown. destruct (decide (h = h')) as [<-|Hne].
    + rewrite list_lookup_insert_eq in Hx by (by eapply lookup_lt_Some). injection Hx as <-. auto.
    + rewrite list_lookup_insert_ne in Hx by done. eauto.
Qed.

(** A task keeps its standing when a cell stays busy or the task does not wait for it. *)
Lemma task_ok_cell l s h e e' act req win ts i t : heap s !! h = Some e -> task_ok l s i t -> pending e' <> Idle \/ tk_phase t <> Waiting \/ tk_cell t <> h ->
  task_ok l (mkState (<[h := e']> (heap s)) (entries s) act win req (owners s) ts) i t.
Proof.
  intros He [H1 H2] Hc. split; [done|]. destruct (tk_phase t); try done. destruct H2 as (x & Hx & Hp). cbn.
  destruct (decide (tk_cell t = h)) as [<-|Hne].
  - exists e'. rewrite list_lookup_insert_eq by (by eapply lookup_lt_Some). split; [done|]. destruct Hc as [?|[?|?]]; done.
  - exists x. by rewrite list_lookup_insert_ne.
Qed.

Lemma refresh_inv l s h e now s' r : inv l s -> heap s !! h = Some e -> refresh s h e now = (s', r) ->
  inv l s' /\ owners s' = owners s /\ (r = Wait -> exists e', heap s' !! h = Some e' /\ pending e' <> Idle).
Proof.
  intros Hi He H. unfold refresh in H. destruct (bool_decide (pending e = Idle)) eqn:Eb; cbn [negb] in H; boolify; cycle 1.
  { injection H as <- <-. eauto. }
  destruct (now - attempted e <? COOLDOWN_MS); [injection H as <- <-; split_and!; [done|done|by destruct (_ <? _)]|].
  set (s1 := if window s =? now / 1000 then s else _) in H.
  assert (inv l s1 /\ heap s1 = heap s /\ owners s1 = owners s) as (Hi1 & Hh & Ho).
  { unfold s1. destruct (window s =? now / 1000); [done|]. split; [|done]. destruct Hi. split; try done; cbn; lia. }
  destruct (_ || _) eqn:Eo; [injection H as <- <-; split_and!; [done|done|by destruct (_ <? _)]|]. boolify.
  injection H as <- <-. cbn [owners heap]. split_and!; [|done|].
  - apply (inv_cell l s1 h e); [done|by rewrite Hh| | |destruct Hi1; lia|destruct Hi1; lia|].
    + intros tenant Hown. pose proof (inv_origin _ _ Hi1 h e tenant) as Hor. rewrite Hh in Hor. destruct (Hor He Hown) as [?|?]; [by left|by right].
    + unfold busy. cbn [pending]. rewrite (bool_decide_eq_true_2 _ Eb), bool_decide_eq_false_2 by done. cbn [negb]. lia.
    + intros i t Ht. apply (task_ok_cell l s1 h e); [by rewrite Hh|by apply (inv_tasks _ _ Hi1)|by left].
  - intros _. eexists. split; [apply list_lookup_insert_eq; rewrite Hh; by eapply lookup_lt_Some|done].
Qed.

Lemma after_verify_ok l s h e t now mnow : inv l s -> heap s !! h = Some e -> owners s !! h = Some (tk_tenant t) -> tk_cell t = h -> clocked l now mnow ->
  forall i, task_ok l s i (set_phase (after_verify (verifyToken (tk_token t) e now mnow)) t).
Proof.
  intros Hi He Ho Ht Hc i. split; [by rewrite <- Ht in Ho|]. cbn [tk_phase set_phase].
  destruct (verifyToken (tk_token t) e now mnow) as [c|] eqn:Ev; [|done]. cbn. eapply verifyToken_verified in Ev; eauto.
Qed.

Lemma authenticate_inv l s hd now mnow : inv l s -> clocked l now mnow -> inv l (authenticate s hd now mnow).
Proof.
  intros Hi Hc. unfold authenticate. destruct hd as [hd|]; [|done]. destruct (negb _); [done|]. cbv zeta. set (token := String.substring _ _ _).
  destruct (selector token) as [[tenant kid_]|]; [|done]. destruct (mget tenant (entries s)) as [h|] eqn:Em; [|done].
  pose proof (inv_cells _ _ Hi _ _ Em) as Ho. destruct (heap s !! h) as [e|] eqn:He; [|done].
  destruct (_ || _).
  - destruct (refresh s h e now) as [s' r] eqn:Er. destruct (refresh_inv l s h e now s' r Hi He Er) as (Hi' & Ho' & Hw).
    destruct r; apply inv_add_task; try done; (split; [cbn; by rewrite Ho'|]); cbn; auto.
  - apply inv_add_task; [done|]. apply (after_verify_ok l s h e (mkTask token tenant h Waiting)); done.
Qed.

Lemma addEntry_inv l s tenant : inv l s -> mget tenant (entries s) = None -> (length (entries s) <= 255)%nat -> inv l (addEntry s tenant).
Proof.
  intros Hi Hm Hl. pose proof Hi as []. split; cbn [addEntry heap owners active requests entries tasks]; try done.
  - rewrite !length_app. cbn. lia.
  - rewrite inFlight_app. unfold busy. rewrite bool_decide_eq_true_2 by done. cbn [negb]. lia.
  - rewrite mset_fresh, length_app by done. cbn. lia.
  - by apply NoDup_mset.
  - intros t h. rewrite mget_mset. destruct (String.eqb_spec t tenant) as [->|].
    + intros [= <-]. rewrite <- inv_owners0. by apply list_lookup_middle.
    + intros H. apply lookup_app_l_Some. eauto.
  - intros h e t He Hown. apply lookup_app_Some in He as [He|[Hge He]].
    + rewrite lookup_app_l in Hown by (rewrite inv_owners0; by eapply lookup_lt_Some). eauto.
    + destruct (h - length (heap s))%nat; [|done]. injection He as <-. by left.
  - intros i t Ht. destruct (inv_tasks0 i t Ht) as [H1 H2]. split; [cbn; by apply lookup_app_l_Some|]. destruct (tk_phase t); try done.
    destruct H2 as (e & He & Hp). exists e. split; [cbn; by apply lookup_app_l_Some|done].
Qed.

Lemma evict_inv l s t h : inv l s -> mget t (entries s) = Some h ->
  inv l (mkState (heap s) (mdelete t (entries s)) (active s) (window s) (requests s) (owners s) (tasks s))
  /\ (length (mdelete t (entries s)) <= 255)%nat.
Proof.
  intros Hi Hm. pose proof Hi as []. pose proof (length_mdelete_present t h (entries s) Hm) as Hlt. split; [|lia].
  split; cbn [heap owners active requests entries tasks]; try done; [lia|by apply NoDup_mdelete|].
  intros t' h'. rewrite mget_mdelete. destruct (String.eqb t' t); [done|]. auto.
Qed.

Lemma login_inv l s token expected now mnow : inv l s -> clocked l now mnow -> inv l (verifyLoginToken s token expected now mnow).
Proof.
  intros Hi Hc. unfold verifyLoginToken. destruct (selector token) as [[tenant k]|]; [|done]. destruct (negb _); [done|]. cbv zeta.
  destruct (mget tenant (entries s)) as [h|] eqn:Em; [by apply authenticate_inv|]. destruct (256 <=? _) eqn:El; boolify.
  - destruct (idle s) as [[t h]|] eqn:Ei; [|done]. unfold idle in Ei. apply find_some in Ei as [Hin _].
    assert (mget t (entries s) = Some h) as Ht by (apply In_mget; [apply Hi|by apply list_elem_of_In]).
    destruct (evict_inv l s t h Hi Ht) as [Hi' Hl]. apply authenticate_inv; [|done]. apply addEntry_inv; [done| |done]. cbn.
    rewrite mget_mdelete, Em. by destruct (String.eqb tenant t).
  - apply authenticate_inv; [|done]. apply addEntry_inv; [done|done|lia].
Qed.

Lemma downloaded_inv l s h r now : inv l s -> EvDownloaded h r now ∈ l -> inv l (downloaded s h r now).
Proof.
  intros Hi Hin. unfold downloaded. destruct (heap s !! h) as [e|] eqn:He; [|done]. destruct (owners s !! h) as [tenant|] eqn:Ho; [|done].
  destruct (bool_decide (pending e = Downloading)) eqn:Ed; [|done]. cbn [negb]. boolify.
  assert (busy e = true) as Hb by (unfold busy; rewrite bool_decide_eq_false_2; [done|congruence]).
  assert (forall e' b, pending e' = Settled b -> (forall tn, owners s !! h = Some tn -> origin l h tn e') -> inv l (set_cell h e' s)) as Hset.
  { intros e' b Hp Hor. apply (inv_cell l s h e); try done; [|apply Hi|apply Hi|].
    - unfold busy at 1. rewrite bool_decide_eq_false_2 by congruence. rewrite Hb. cbn [negb]. lia.
    - intros i t Ht. apply (task_ok_cell l s h e); [done|by apply Hi|left; congruence]. }
  destruct (download tenant r) as [ks|] eqn:Edl; (eapply Hset; [reflexivity|]); intros tn Htn; rewrite Ho in Htn; injection Htn as <-.
  - right. exists r, now. done.
  - destruct (inv_origin _ _ Hi _ _ _ He Ho) as [?|?]; [by left|by right].
Qed.

Lemma settled_inv l s h : inv l s -> inv l (settled s h).
Proof.
  intros Hi. unfold settled. destruct (heap s !! h) as [e|] eqn:He; [|done]. destruct (pending e) as [| |ok] eqn:Ep; [done|done|].
  assert (busy e = true) as Hb by (unfold busy; rewrite bool_decide_eq_false_2; [done|congruence]).
  assert (1 <= inFlight (heap s)) as Hf.
  { pose proof (inFlight_insert (heap s) h e (mkEntry [] 0 0 Idle) He) as H. rewrite Hb in H. change (busy (mkEntry [] 0 0 Idle)) with false in H. unfold inFlight in *. lia. }
  pose proof (inv_active _ _ Hi) as Ha. apply (inv_cell l s h e); [done|done| | |destruct Hi; lia|apply Hi|].
  - intros tenant Ho. destruct (inv_origin _ _ Hi _ _ _ He Ho) as [?|?]; [by left|by right].
  - rewrite Hb. unfold busy. rewrite bool_decide_eq_true_2 by done. cbn [negb]. lia.
  - intros i t Ht. change (map ?f ?x) with (f <$> x) in Ht. rewrite list_lookup_fmap in Ht. destruct (tasks s !! i) as [t0|] eqn:Et; [|done].
    injection Ht as <-. pose proof (inv_tasks _ _ Hi i t0 Et) as Hok. apply (task_ok_cell l s h e); [done| |].
    + unfold wake. destruct (tk_phase t0) eqn:Eph; try done. destruct (Nat.eqb _ _); [|done]. destruct Hok as [H1 _]. split; [done|]. by destruct ok.
    + right. unfold wake. destruct (tk_phase t0) eqn:Eph; try (left; by rewrite Eph).
      destruct (Nat.eqb_spec (tk_cell t0) h); [left; by destruct ok|by right].
Qed.

Lemma inv_set_task l s i t t' : inv l s -> tasks s !! i = Some t -> task_ok l s i t' -> inv l (set_tasks (<[i := t']> (tasks s)) s).
Proof.
  intros [] Ht Hok. split; try done. cbn [tasks set_tasks]. intros j x Hx. apply (task_ok_same l s); [done|done|].
  destruct (decide (i = j)) as [<-|Hne].
  - rewrite list_lookup_insert_eq in Hx by (by eapply lookup_lt_Some). by injection Hx as <-.
  - rewrite list_lookup_insert_ne in Hx by done. auto.
Qed.

Lemma handle_inv l s ev : inv l s -> inv (l ++ [ev]) (handle s ev).
Proof.
  intros Hi0. pose proof (inv_more l ev s Hi0) as Hi. clear Hi0. assert (ev ∈ l ++ [ev]) as Hin by (apply elem_of_app; right; by apply list_elem_of_singleton).
  destruct ev as [hd now mnow|token tenant now mnow|h r now|h|i now mnow|i v]; cbn [handle].
  - apply authenticate_inv; [done|]. left. eauto.
  - apply login_inv; [done|]. right; left. eauto.
  - by apply downloaded_inv.
  - by apply settled_inv.
  - unfold resume. destruct (tasks s !! i) as [t|] eqn:Et; [|done]. destruct (tk_phase t) eqn:Ep; try done.
    destruct (heap s !! tk_cell t) as [e|] eqn:He; [|done]. eapply inv_set_task; [done|done|].
    pose proof (inv_tasks _ _ Hi i t Et) as [Ho _]. apply (after_verify_ok _ s (tk_cell t)); try done. right; right. eauto.
  - unfold answered. destruct (tasks s !! i) as [t|] eqn:Et; [|done]. destruct (tk_phase t) as [| |c|] eqn:Ep; try done.
    eapply inv_set_task; [done|done|]. pose proof (inv_tasks _ _ Hi i t Et) as [Ho Hv]. rewrite Ep in Hv. split; [done|]. cbn [tk_phase set_phase].
    destruct v as [|ok code]; [done|]. unfold verifyManagerSession. destruct ok; [|by destruct (_ || _)]. cbn. split; [done|]. by exists code.
Qed.

Definition run (l : list event) : State := fold_left handle l initial.

Lemma run_inv l : inv l (run l).
Proof.
  induction l as [|ev l IH] using rev_ind; [apply initial_inv|]. unfold run in *. rewrite fold_left_app. cbn. by apply handle_inv.
Qed.

Lemma download_scoped tenant r ks : download tenant r = Ok ks -> Forall (fun k => scopedKid (kid k) tenant = true) ks.
Proof.
  unfold download. destruct r as [|ok js body chunks]; [done|].
  destruct (negb ok || negb js || negb body); [done|]. intros (raw & _ & H)%bind_Ok.
  destruct (parsePublicJwks _ _ raw) as [ks'|]; [|done]. destruct (_ || existsb _ ks') eqn:E; [done|]. injection H as ->. boolify.
  apply Forall_forall. intros k Hk. destruct (scopedKid (kid k) tenant) eqn:Es; [done|].
  assert (existsb (fun k => negb (scopedKid (kid k) tenant)) ks = true); [|congruence].
  apply existsb_exists. exists k. rewrite <- list_elem_of_In. by rewrite Es.
Qed.

(** ** The tenant of a request *)

(** The token names the tenant: in its payload, and in the scope of the key it says it was signed with. *)
Definition namesTenant (token tenant : string) : Prop :=
  exists h p sig header claims kid_, splitDot "" token = [h; p; sig] /\ decodeJson h = Some header /\ decodeJson p = Some claims
    /\ strOf (member claims "tenant_id") = Some tenant /\ strOf (member header "kid") = Some kid_
    /\ TENANT tenant = true /\ scopedKid kid_ tenant = true.

Lemma selector_names token tenant kid_ : selector token = Ok (tenant, kid_) -> namesTenant token tenant.
Proof.
  unfold selector. destruct (_ <? _); [done|]. destruct (splitDot "" token) as [|h [|p [|sig [|]]]] eqn:Es; try done.
  destruct (decodeJson h) as [header|] eqn:Eh; [|done]. destruct (decodeJson p) as [claims|] eqn:Ep; [|done].
  destruct (strOf (member claims "tenant_id")) as [t|] eqn:Et; [|done]. destruct (strOf (member header "kid")) as [k|] eqn:Ek; [|done].
  destruct (_ && _) eqn:E; [|done]. intros [= <- <-]. boolify. by exists h, p, sig, header, claims, k.
Qed.

Definition allNamed (s : State) : Prop := Forall (fun t => namesTenant (tk_token t) (tk_tenant t)) (tasks s).

Lemma refresh_tasks s h e now : tasks (refresh s h e now).1 = tasks s.
Proof. unfold refresh. by repeat case_match. Qed.

Lemma authenticate_named s hd now mnow : allNamed s -> allNamed (authenticate s hd now mnow).
Proof.
  intros H. unfold authenticate. destruct hd as [hd|]; [|done]. destruct (negb _); [done|]. cbv zeta. set (token := String.substring _ _ _).
  destruct (selector token) as [[tenant k]|] eqn:Es; [|done]. apply selector_names in Es. destruct (mget _ _); [|done]. destruct (heap s !! n) as [e|]; [|done].
  assert (forall s' ph, tasks s' = tasks s -> allNamed (add_task (mkTask token tenant n ph) s')) as Hadd.
  { intros s' ph E. unfold allNamed, add_task. cbn. rewrite E. apply Forall_app_2; [exact H|by constructor]. }
  destruct (_ || _); [|by apply Hadd]. pose proof (refresh_tasks s n e now) as E. destruct (refresh s n e now) as [s' []]; by apply Hadd.
Qed.

Lemma allNamed_map s f : (forall t, tk_token (f t) = tk_token t /\ tk_tenant (f t) = tk_tenant t) -> allNamed s -> Forall (fun t => namesTenant (tk_token t) (tk_tenant t)) (map f (tasks s)).
Proof. intros Hf H. unfold allNamed in H. rewrite Forall_forall in *. intros t (t0 & -> & Ht)%list_elem_of_fmap. destruct (Hf t0) as [-> ->]. by apply H. Qed.

Lemma allNamed_phase s i t ph : tasks s !! i = Some t -> allNamed s -> allNamed (set_tasks (<[i := set_phase ph t]> (tasks s)) s).
Proof. intros Ht H. unfold allNamed. cbn. apply Forall_insert; [exact H|]. by eapply (Forall_lookup_1 _ _ _ _ H Ht). Qed.

Lemma run_named l : allNamed (run l).
Proof.
  induction l as [|ev l IH] using rev_ind; [constructor|]. unfold run in *. rewrite fold_left_app. cbn. set (s := fold_left handle l initial) in *.
  destruct ev as [hd now mnow|token tenant now mnow|h r now|h|i now mnow|i v]; cbn [handle].
  - by apply authenticate_named.
  - unfold verifyLoginToken. destruct (selector token) as [[t k]|]; [|done]. destruct (negb _); [done|]. cbv zeta. repeat case_match; try done; by apply authenticate_named.
  - unfold downloaded. repeat case_match; done.
  - unfold settled. repeat case_match; try done. apply (allNamed_map s); [|done]. intros t. unfold wake. by repeat case_match.
  - unfold resume. destruct (tasks s !! i) as [t|] eqn:Et; [|done]. repeat case_match; try done. by apply allNamed_phase.
  - unfold answered. destruct (tasks s !! i) as [t|] eqn:Et; [|done]. repeat case_match; try done; by apply allNamed_phase.
Qed.

(** The caller a verified token gives is the one its payload describes. *)
Lemma verifyJwt_caller token ks o caller : verifyJwt decodeJson signatureOk token ks o = Ok caller ->
  exists h p sig c, splitDot "" token = [h; p; sig] /\ decodeJson p = Some c /\ callerFor c token caller.
Proof.
  unfold verifyJwt. destruct (splitDot "" token) as [|h [|p [|sig [|]]]] eqn:Es; try done. destruct (decodeJson h) as [header|]; [|done].
  destruct (decodeJson p) as [c|] eqn:Ep; [|done]. intros H. exists h, p, sig, c. split; [done|]. split; [done|].
  destruct header; try done; apply bind_Ok in H as (? & _ & H); (destruct (_ ≫= _); [|done]); apply bind_Ok in H as (? & _ & H);
    (assert (checkClaims c o token = Ok caller) as Hc by (by destruct c)); by apply checkClaims_spec in Hc as [_ Hc].
Qed.

Lemma verified_names token tenant ks o caller : namesTenant token tenant -> verifyJwt decodeJson signatureOk token ks o = Ok caller ->
  tenantId caller = tenant /\ accessToken caller = token.
Proof.
  intros (h & p & sig & header & c & k & Es & _ & Ep & Et%strOf_iff & _) (h' & p' & sig' & c' & Es' & Ep' & t & rs & Ht & _ & _ & ->)%verifyJwt_caller.
  cbn. split; [congruence|done].
Qed.

(** C16. An accepted caller was authenticated with current keys of its own tenant: over any
    interleaving of requests, logins, downloads, evictions and Manager verdicts, a request that
    is accepted is of the tenant its token names, in its payload and in the scope of its key;
    it was verified, signature and claims, with exactly the key set of one download for that
    tenant, less than a minute after that download, all of whose keys are scoped to that tenant,
    and the Manager then confirmed its session. *)
Theorem accepted_by_current_tenant_keys l i t caller :
  tasks (run l) !! i = Some t -> tk_phase t = Finished (Ok caller) ->
  namesTenant (tk_token t) (tenantId caller) /\ accessToken caller = tk_token t /\
  exists r d ks now mnow code, EvDownloaded (tk_cell t) r d ∈ l /\ download (tenantId caller) r = Ok ks
    /\ Forall (fun k => scopedKid (kid k) (tenantId caller) = true) ks
    /\ now < d + TTL_MS /\ clocked l now mnow
    /\ verifyJwt decodeJson signatureOk (tk_token t) ks (mkOptions issuer_ audience_ (Some 0) mnow) = Ok caller
    /\ EvAnswered i (Status true code) ∈ l.
Proof.
  intros Ht Hp. destruct (inv_tasks _ _ (run_inv l) i t Ht) as [_ H]. rewrite Hp in H.
  destruct H as ((r & d & ks & now & mnow & H1 & H2 & H3 & H4 & H5) & code & H6).
  pose proof (Forall_lookup_1 _ _ _ _ (run_named l) Ht) as Hn. cbn in Hn.
  assert (verifyJwt decodeJson signatureOk (tk_token t) ks (mkOptions issuer_ audience_ (Some 0) mnow) = Ok caller) as Hv by done.
  destruct (verified_names _ _ _ _ _ Hn Hv) as [-> Ha]. split; [done|]. split; [done|].
  exists r, d, ks, now, mnow, code. split_and!; try done. by eapply download_scoped.
Qed.

(** The key cache stays within its limits: at most four downloads are in flight at any
    time and exactly the cells with a promise hold a slot, at most sixteen are started per
    window of a second, at most 256 tenants are cached, and every waiting request waits for a
    download that is still to be settled. *)
Theorem jwks_cache_is_bounded l :
  let s := run l in
  active s = inFlight (heap s) /\ 0 <= active s <= 4 /\ 0 <= requests s <= 16 /\ (length (entries s) <= 256)%nat
  /\ forall i t, tasks s !! i = Some t -> tk_phase t = Waiting -> exists e, heap s !! tk_cell t = Some e /\ pending e <> Idle.
Proof.
  intros s. pose proof (run_inv l : inv l s) as []. split; [done|]. split; [done|]. split; [done|]. split; [done|]. intros i t Ht Hp.
  destruct (inv_tasks0 i t Ht) as [_ H]. by rewrite Hp in H.
Qed.
End Authenticator.

(** ** Instance: a login whose keys are fetched, verified and confirmed *)

Definition demoTenant : string := "0123abcd-0000-4000-8000-0123456789ab".
Definition demoKid : string := (demoTenant +:+ ":1")%string.
Definition demoKeySet : json :=
  JObj [("keys", JArr [JObj [("kty", JStr "RSA"); ("alg", JStr "RS256"); ("kid", JStr demoKid); ("n", JStr "AQ"); ("e", JStr "AQAB")]])]%string.
Definition demoTokenClaims : json :=
  JObj [("exp", JNum (QArith_base.inject_Z 2000)); ("iat", JNum (QArith_base.inject_Z 1000)); ("iss", JStr "iss"); ("aud", JStr "agent"); ("enterprise_id", JStr "e");
        ("roles", JArr []); ("sub", JStr "u1"); ("tenant_id", JStr demoTenant)]%string.
Definition demoTokenDecode (s : string) : option json :=
  if String.eqb s "h" then Some (JObj [("alg", JStr "RS256"); ("kid", JStr demoKid)]%string)
  else if String.eqb s "p" then Some demoTokenClaims else None.
Definition demoEvents : list event :=
  [EvLogin "h.p.s" demoTenant 1500000 1500000; EvDownloaded 0 (Response true true true ["{}"%string]) 1500100; EvSettled 0;
   EvResume 0 1500100 1500100; EvAnswered 0 (Status true 200)].
Definition demoRun : State :=
  run (fun _ => Some demoKeySet) demoTokenDecode (fun _ => true) (fun _ _ _ => true) "iss" "agent" demoEvents.

Lemma accepted_by_current_tenant_keys_witness :
  exists t caller ks, tasks demoRun !! 0%nat = Some t /\ tk_phase t = Finished (Ok caller) /\ userId caller = "u1"%string /\ tenantId caller = demoTenant
    /\ Forall (fun k => scopedKid (kid k) demoTenant = true) ks /\ length ks = 1%nat
    /\ verifyJwt demoTokenDecode (fun _ _ _ => true) "h.p.s" ks (mkOptions "iss" "agent" (Some 0) 1500100) = Ok caller.
Proof.
  destruct (tasks demoRun !! 0%nat) as [t|] eqn:Et; [|vm_compute in Et; discriminate Et].
  destruct (tk_phase t) as [| | |[caller|]] eqn:Ep;
    try (vm_compute in Et; injection Et as <-; vm_compute in Ep; discriminate Ep).
  destruct (accepted_by_current_tenant_keys (fun _ => Some demoKeySet) demoTokenDecode (fun _ => true) (fun _ _ _ => true) "iss" "agent" demoEvents 0 t caller Et Ep)
    as (_ & _ & r & d & ks & now & mnow & code & H1 & H2 & H3 & H4 & H5 & H6 & H7).
  vm_compute in Et. injection Et as <-. vm_compute in Ep. injection Ep as <-. cbn [tk_tenant tk_token tk_phase tenantId] in *.
  assert (ks = [mkJwk "AQ" "AQAB" demoKid false]) as ->.
  { repeat (apply elem_of_cons in H1 as [H1|H1]; [try discriminate H1|]); [|by apply not_elem_of_nil in H1].
    injection H1 as -> ->. vm_compute in H2. by injection H2 as <-. }
  eexists _, _, [mkJwk "AQ" "AQAB" demoKid false]. split; [reflexivity|]. split; [reflexivity|]. split; [reflexivity|]. split; [reflexivity|].
  split; [exact H3|]. split; reflexivity.
Defined.
