(* ===== verification/Layout.v ===== *)
(** Names of workspace folders (workspace-layout.ts; [safePathSegment] of local-files.ts).

    Names are computed on UTF-16 texts and become path segments as their UTF-8 bytes.
    [existsSync] asks the disk, [taken] the store, [sha256] is the hexadecimal digest and
    [localDate] the host's calendar date of a time. *)

From S2P Require Import Prelude Decimal Regex Paths.
From Stdlib Require Import Ascii.
Local Open Scope Z_scope.

(** ** Cleaning a name *)

Definition isUnsafe (c : Z) : bool := ((0 <=? c) && (c <=? 31)) || (c =? 127) || (c =? 47) || (c =? 92) || (c =? 58).
Definition dotOrSpace (c : Z) : bool := (c =? 46) || is_space c.
Definition isNameUnit (c : Z) : bool := is_word c || (c =? 45).
(** Asterisk, question mark, double quote, angle brackets and bar. *)
Definition isShell (c : Z) : bool := existsb (Z.eqb c) [42; 63; 34; 60; 62; 124].

Fixpoint dropLeading (p : Z -> bool) (s : text) : text := match s with c :: s' => if p c then dropLeading p s' else s | [] => [] end.
Definition dropTrailing (p : Z -> bool) (s : text) : text := reverse (dropLeading p (reverse s)).
(** [a || b] on texts. *)
Definition orText (a b : text) : text := match a with [] => b | _ => a end.

Definition safePathSegment (value : option text) (fallback : text) : text :=
  let cleaned := trim (tslice 64 (trim (dropLeading dotOrSpace (replaceAll (RPlus (RChar isUnsafe)) (u "_") (nullish value []))))) in
  orText cleaned (orText (tslice 64 (replaceAll (RPlus (RNot isNameUnit)) (u "_") fallback)) (u "_")).

Definition NAME_CHARS : nat := 40.
(** "会话". *)
Definition UNTITLED : text := [20250; 35805].

Definition folderSegment (value fallback : text) : text :=
  let cleaned := replaceAll (RPlus (RChar isShell)) (u "_") (safePathSegment (Some value) fallback) in
  let short := dropTrailing dotOrSpace (concat (take NAME_CHARS (codePoints cleaned))) in
  orText short (safePathSegment (Some fallback) fallback).

(** [padStart(2, "0")] of a number. *)
Definition pad2 (n : Z) : text := if n <? 10 then u "0" ++ u (pretty n) else u (pretty n).

Section Layout.
Context (sha256 : string -> text) (localDate : Z -> Z * Z * Z).

(** [createdAt] is [None] when it is missing or not a date. *)
Definition conversationFolderBase (title employeeName : option text) (createdAt : option Z) (now : Z) : text :=
  let title := trim (nullish title []) in
  match title with
  | _ :: _ => folderSegment title UNTITLED
  | [] =>
      let '(year, month, date) := localDate (nullish createdAt now) in
      let stamp := u (pretty year) ++ pad2 month ++ pad2 date in
      folderSegment (orText (trim (nullish employeeName [])) UNTITLED ++ u "-" ++ stamp) UNTITLED
  end.

Definition shortId (id : string) (n : nat) : text := take n (sha256 id).

(** *** UTF-8 *)

Definition pointValue (p : text) : Z :=
  match p with
  | [h; l] => 65536 + (h - 55296) * 1024 + (l - 56320)
  | [c] => if isHigh c || isLow c then 65533 else c
  | _ => 65533
  end.
Definition byte (z : Z) : ascii := ascii_of_N (Z.to_N z).
Definition utf8Point (v : Z) : list ascii :=
  if v <? 128 then [byte v]
  else if v <? 2048 then [byte (192 + v / 64 mod 32); byte (128 + v mod 64)]
  else if v <? 65536 then [byte (224 + v / 4096 mod 16); byte (128 + v / 64 mod 64); byte (128 + v mod 64)]
  else [byte (240 + v / 262144 mod 8); byte (128 + v / 4096 mod 64); byte (128 + v / 64 mod 64); byte (128 + v mod 64)].
Definition utf8Bytes (s : text) : list ascii := concat (map (fun p => utf8Point (pointValue p)) (codePoints s)).
Definition utf8 (s : text) : string := String.string_of_list_ascii (utf8Bytes s).

(** *** Free folders *)

(** [path.join(p, x)] of an absolute path and a name without a trailing slash. *)
Definition join (p : abs) (x : string) : abs := normalizeSegments false [] (p ++ splitSlash x).

Inductive layout_error : Type := NoFreeFolder.

Section Free.
Context (existsSync : abs -> bool) (taken : abs -> bool).
Definition firstFree (candidates : list abs) : result layout_error abs :=
  match List.find (fun c => negb (existsSync c) && negb (taken c)) candidates with Some c => Ok c | None => Err NoFreeFolder end.

Definition conversationFolder (root : abs) (base : text) (conversationId : string) : result layout_error abs :=
  firstFree (map (fun n => join root (utf8 (base ++ u "-" ++ shortId conversationId n))) [6; 12; 24]%nat).

Definition employeeFolder (conversationDir : abs) (displayName : option text) (employeeName : text) (employeeId : string) : result layout_error abs :=
  let name := folderSegment (nullish displayName []) employeeName in
  firstFree (map (fun x => join conversationDir (utf8 x)) [name; name ++ u "-" ++ shortId employeeId 6; name ++ u "-" ++ shortId employeeId 24]).
End Free.
End Layout.

(** *** Workspace keys *)

(** The units [KEY_SEGMENT] excludes anywhere in a segment. *)
Definition keyExcluded (c : Z) : bool := (c =? 47) || (c =? 92) || ((0 <=? c) && (c <=? 31)) || (c =? 127).
Definition keySegment (t : text) : bool :=
  match codePoints t with
  | p :: ps => negb (bool_decide (p = [46])) && forallb (fun q => forallb (fun c => negb (keyExcluded c)) q) (p :: ps) && (length ps <=? 127)%nat
  | [] => false
  end.
Fixpoint splitUnits (c : Z) (s : text) : list text :=
  match s with
  | [] => [[]]
  | d :: s => match splitUnits c s with x :: l => if d =? c then [] :: x :: l else (d :: x) :: l | [] => [] end
  end.
(** [WORKSPACE_KEY_PATTERN.test]: one segment, or two with a slash between. *)
Definition workspaceKey (t : text) : bool :=
  match splitUnits 47 t with
  | [a] => keySegment a
  | [a; b] => keySegment a && keySegment b
  | _ => false
  end.

Example folder_example : folderSegment (u " ..My: notes? ") UNTITLED = u "My_ notes_".
Proof. vm_compute. reflexivity. Qed.
Example folder_empty : folderSegment (u "...") UNTITLED = u "_".
Proof. vm_compute. reflexivity. Qed.
Example utf8_example : utf8Bytes UNTITLED = map byte [228; 188; 154; 232; 175; 157].
Proof. vm_compute. reflexivity. Qed.

(** ** What the cleaned names are made of *)

Lemma class_match_None p before c s : matchAt (RPlus (RChar p)) before (c :: s) = None -> p c = false.
Proof.
  unfold matchAt, RPlus. cbn [rmatch]. destruct (p c); [|done]. intros H. exfalso. revert H.
  generalize (Some c) as b. generalize (length s) as fuel. intros fuel. revert s.
  induction fuel as [|fuel IH]; intros s b; cbn [star]; [done|]. case_match; done.
Qed.
Lemma replace_class_from p by_ fuel before s : (length s <= fuel)%nat ->
  Forall (fun c => c ∈ by_ \/ (c ∈ s /\ p c = false)) (replace_from fuel (RPlus (RChar p)) by_ before s).
Proof.
  revert before s. induction fuel as [|fuel IH]; intros before [|c s] Hle; cbn [replace_from].
  1,3: by constructor.
  { cbn in Hle. lia. }
  cbn in Hle.
  destruct (matchAt _ before (c :: s)) as [rest|] eqn:E.
  - apply rmatch_sound in E as (b1 & s1 & HL & [= ->]). pose proof (lang_suffix _ _ _ HL) as [q Hq].
    assert (length rest < length (c :: s))%nat as Hlt.
    { inversion HL as [| |? ? ? s2 ? H1 H2| | | | |]; subst. inversion H1; subst. apply lang_suffix in H2 as [q' ->]. cbn. rewrite length_app. lia. }
    rewrite (proj2 (Nat.ltb_lt _ _) Hlt). apply Forall_app. split.
    + apply Forall_forall. auto.
    + eapply Forall_impl; [apply IH; cbn in Hlt; lia|]. cbn. intros x [?|[? ?]]; [auto|]. right. split; [|done]. rewrite Hq. set_solver.
  - constructor; [right; split; [left|by eapply class_match_None]|].
    eapply Forall_impl; [apply IH; lia|]. cbn. intros x [?|[? ?]]; [auto|]. right. split; [by right|done].
Qed.
Lemma replace_class p by_ s : Forall (fun c => c ∈ by_ \/ (c ∈ s /\ p c = false)) (replaceAll (RPlus (RChar p)) by_ s).
Proof. by apply replace_class_from. Qed.

(** The first unit of a replacement. *)
Lemma replace_class_head p c0 by_ s x l : replaceAll (RPlus (RChar p)) (c0 :: by_) s = x :: l -> x = c0 \/ exists s', s = x :: s'.
Proof.
  unfold replaceAll. destruct s as [|c s]; cbn [length replace_from]; [done|]. destruct (matchAt _ _ _) as [rest|]; [destruct (_ <? _)%nat|]; intros [= -> _]; eauto.
Qed.

(** *** Names with a plain first unit and no excluded unit *)

Definition plainHead (s : text) : Prop := match s with c :: _ => dotOrSpace c = false | [] => True end.
Definition clean (s : text) : Prop := plainHead s /\ Forall (fun c => keyExcluded c = false) s.

Lemma clean_prefix s t : s `prefix_of` t -> clean t -> clean s.
Proof.
  intros [k ->] [Hh Hf]. split; [by destruct s|]. by apply Forall_app in Hf as [? _].
Qed.
Lemma dropLeading_plain s : plainHead (dropLeading dotOrSpace s).
Proof. induction s as [|c s IH]; cbn; [done|]. destruct (dotOrSpace c) eqn:E; cbn; auto. Qed.
Lemma dropLeading_suffix p s : dropLeading p s `suffix_of` s.
Proof. induction s as [|c s IH]; cbn; [done|]. destruct (p c); [by apply suffix_cons_r|done]. Qed.
Lemma dropTrailing_prefix p s : dropTrailing p s `prefix_of` s.
Proof.
  unfold dropTrailing. destruct (dropLeading_suffix p (reverse s)) as [k Hk]. exists (reverse k).
  rewrite <- reverse_app, <- Hk. by rewrite reverse_involutive.
Qed.
Lemma trimStart_dropLeading s : trimStart s = dropLeading is_space s.
Proof. induction s as [|c s IH]; cbn; [done|]. by rewrite IH. Qed.
Lemma trim_prefix s : plainHead s -> trim s `prefix_of` s.
Proof.
  intros Hs. unfold trim. rewrite !trimStart_dropLeading. replace (dropLeading is_space s) with s; [apply dropTrailing_prefix|].
  destruct s as [|c s]; [done|]. cbn in *. unfold dotOrSpace in Hs. boolify. by case_match.
Qed.

Lemma word_clean c : isNameUnit c = true -> keyExcluded c = false /\ dotOrSpace c = false.
Proof.
  intros H. unfold isNameUnit, is_word, keyExcluded, dotOrSpace, is_space in *.
  assert ((48 <= c <= 57) \/ (65 <= c <= 90) \/ (97 <= c <= 122) \/ c = 95 \/ c = 45) as Hc.
  { repeat match goal with H : (_ || _) = true |- _ => apply orb_true_iff in H as [H|H] end; boolify; lia. }
  clear H. split; apply not_true_iff_false; intros H.
  all: repeat match goal with H : (_ || _) = true |- _ => apply orb_true_iff in H as [H|H] end; boolify; lia.
Qed.

Lemma name_text_clean s : Forall (fun c => isNameUnit c = true) s -> clean s.
Proof.
  intros H. split; [|eapply Forall_impl; [done|]; intros c Hc; by apply word_clean].
  destruct s as [|c s]; [done|]. inversion H; subst. by apply word_clean.
Qed.

Lemma unsafe_excluded c : isUnsafe c = false -> keyExcluded c = false.
Proof.
  unfold isUnsafe, keyExcluded. destruct ((0 <=? c) && (c <=? 31)), (c =? 127), (c =? 47), (c =? 92), (c =? 58); done.
Qed.

Lemma safePathSegment_spec value fallback :
  clean (safePathSegment value fallback) /\ safePathSegment value fallback <> [] /\ (length (safePathSegment value fallback) <= 64)%nat.
Proof.
  unfold safePathSegment. set (r := replaceAll (RPlus (RChar isUnsafe)) (u "_") (nullish value [])).
  set (d := dropLeading dotOrSpace r). set (t := trim (tslice 64 (trim d))).
  assert (clean d) as Hd.
  { split; [apply dropLeading_plain|]. destruct (dropLeading_suffix dotOrSpace r) as [k Hk]. fold d in Hk.
    pose proof (replace_class isUnsafe (u "_") (nullish value [])) as Hr. fold r in Hr. rewrite Hk in Hr. apply Forall_app in Hr as [_ Hr].
    eapply Forall_impl; [done|]. cbn. intros c [Hc|[_ Hc]]; [apply list_elem_of_singleton in Hc as ->; done|].
    by apply unsafe_excluded. }
  assert (clean (trim d)) as Htd by (eapply clean_prefix; [apply trim_prefix, Hd|done]).
  assert (clean (tslice 64 (trim d))) as Hts by (eapply clean_prefix; [apply take_prefix_of || apply prefix_take|done]).
  assert (clean t) as Ht by (eapply clean_prefix; [apply trim_prefix, Hts|done]).
  assert (length t <= 64)%nat as Hl.
  { unfold t. etrans; [apply trim_length|]. unfold tslice. rewrite length_take. lia. }
  destruct t as [|c t'] eqn:Et; cbn [orText]; [|split_and!; [done|done|done]].
  set (f := tslice 64 (replaceAll (RPlus (RNot isNameUnit)) (u "_") fallback)).
  assert (Forall (fun c => isNameUnit c = true) f) as Hf.
  { unfold f, tslice. apply Forall_take. eapply Forall_impl; [apply replace_class|]. cbn.
    intros c [Hc|[_ Hc]]; [by apply list_elem_of_singleton in Hc as ->|by apply negb_false_iff in Hc]. }
  assert (length f <= 64)%nat as Hfl by (unfold f, tslice; rewrite length_take; lia).
  destruct f as [|c f'] eqn:Ef; cbn [orText]; [|split_and!; [by apply name_text_clean|done|done]].
  split_and!; [apply name_text_clean; by repeat constructor|done|cbn; lia].
Qed.

Lemma codePoints_short s : Forall (fun p => length p <= 2 /\ p <> [])%nat (codePoints s).
Proof.
  remember (length s) as n eqn:Hn. assert (length s <= n)%nat as Hle by lia. clear Hn. revert s Hle.
  induction n as [|n IH]; intros [|c [|d s]] Hle; cbn [codePoints]; cbn in Hle; try lia; try by repeat constructor.
  destruct (isHigh c && isLow d); (constructor; [cbn; split; [lia|done]|]); [apply IH; lia|apply (IH (d :: s)); cbn; lia].
Qed.

Lemma length_concat_le (n : nat) (l : list text) : Forall (fun p => length p <= n)%nat l -> (length (concat l) <= n * length l)%nat.
Proof. induction 1; cbn; [lia|]. rewrite length_app. lia. Qed.
Lemma length_concat_ge (l : list text) : Forall (fun p => p <> []) l -> (length l <= length (concat l))%nat.
Proof. induction 1 as [|p l Hp]; cbn; [lia|]. rewrite length_app. destruct p; [done|]. cbn. lia. Qed.
Lemma codePoints_length s : (length (codePoints s) <= length s)%nat.
Proof.
  rewrite <- (concat_codePoints s) at 2. apply length_concat_ge. eapply Forall_impl; [apply codePoints_short|]. by intros p [_ ?].
Qed.

Lemma folderSegment_spec value fallback :
  clean (folderSegment value fallback) /\ folderSegment value fallback <> [] /\ (length (folderSegment value fallback) <= 80)%nat.
Proof.
  unfold folderSegment. destruct (safePathSegment_spec (Some fallback) fallback) as (Hf & Hfn & Hfl).
  destruct (safePathSegment_spec (Some value) fallback) as (Hv & _ & _). set (v := safePathSegment (Some value) fallback) in *.
  set (r := replaceAll (RPlus (RChar isShell)) (u "_") v).
  assert (clean r) as Hr.
  { split.
    - destruct r as [|x l] eqn:E; [done|]. apply (replace_class_head isShell 95 []) in E as [->|[s' Es]]; [done|]. rewrite Es in Hv. apply Hv.
    - eapply Forall_impl; [apply replace_class|]. cbn. intros c [Hc|[Hc _]]; [by apply list_elem_of_singleton in Hc as ->|].
      destruct Hv as [_ Hv]. rewrite Forall_forall in Hv. auto. }
  set (s := concat (take NAME_CHARS (codePoints r))).
  assert (s `prefix_of` r) as Hs.
  { exists (concat (drop NAME_CHARS (codePoints r))). unfold s. by rewrite <- concat_app, take_drop, concat_codePoints. }
  assert (length s <= 80)%nat as Hl.
  { unfold s. etrans; [apply (length_concat_le 2)|rewrite length_take; unfold NAME_CHARS; lia].
    apply Forall_take. eapply Forall_impl; [apply codePoints_short|]. by intros p [? _]. }
  pose proof (dropTrailing_prefix dotOrSpace s) as Hd. set (t := dropTrailing dotOrSpace s) in *.
  assert (clean t) as Ht by (eapply clean_prefix; [|exact Hr]; by etrans).
  pose proof (prefix_length _ _ Hd) as Hdl.
  destruct t as [|c t'] eqn:Et; cbn [orText]; split_and!; try done; lia.
Qed.

(** *** Keys *)

Lemma clean_key s : clean s -> s <> [] -> (length s <= 128)%nat -> keySegment s = true.
Proof.
  intros [Hh Hf] Hn Hl. unfold keySegment. pose proof (codePoints_length s) as Hlen. pose proof (concat_codePoints s) as Hc.
  pose proof (codePoints_short s) as Hsh. destruct (codePoints s) as [|p ps]; [cbn in Hc; congruence|].
  apply andb_true_iff. split; [apply andb_true_iff; split|].
  - apply negb_true_iff, bool_decide_eq_false. intros ->. rewrite <- Hc in Hh. done.
  - apply forallb_forall. intros q Hq. apply forallb_forall. intros c Hcq. apply negb_true_iff. rewrite Forall_forall in Hf. apply Hf.
    rewrite <- Hc. apply list_elem_of_In, in_concat. eauto.
  - apply Nat.leb_le. cbn in Hlen. lia.
Qed.

Lemma clean_app s t : clean s -> s <> [] -> Forall (fun c => keyExcluded c = false) t -> clean (s ++ t).
Proof. intros [Hh Hf] Hn Ht. split; [by destruct s|]. by apply Forall_app. Qed.

Lemma splitUnits_none c s : Forall (fun x => x <> c) s -> splitUnits c s = [s].
Proof. induction 1 as [|x s Hx _ IH]; cbn; [done|]. rewrite IH. by rewrite (proj2 (Z.eqb_neq x c)). Qed.
Lemma splitUnits_app c s t : Forall (fun x => x <> c) s -> splitUnits c (s ++ c :: t) = s :: splitUnits c t.
Proof.
  assert (splitUnits c t <> []) as Hn by (induction t as [|d t IH]; cbn; [done|]; destruct (splitUnits c t); [done|]; by case_match).
  induction 1 as [|x s Hx _ IH]; cbn [app splitUnits].
  - rewrite Z.eqb_refl. by destruct (splitUnits c t).
  - rewrite IH. by rewrite (proj2 (Z.eqb_neq x c)).
Qed.
Lemma key_no_slash s : clean s -> Forall (fun x => x <> 47) s.
Proof. intros [_ H]. eapply Forall_impl; [done|]. cbn. by intros c Hc ->. Qed.

(** *** Bytes *)

Lemma byte_inj z n : 0 <= z < 256 -> byte z = ascii_of_N n -> (n < 256)%N -> z = Z.of_N n.
Proof.
  intros Hz H Hn. unfold byte in H. apply (f_equal N_of_ascii) in H. rewrite !N_ascii_embedding in H by lia. lia.
Qed.

Lemma utf8Point_ascii v n : (0 < n < 128)%N -> ascii_of_N n ∈ utf8Point v -> v = Z.of_N n.
Proof.
  intros Hn H. unfold utf8Point in H. destruct (v <? 128) eqn:E; boolify.
  - apply list_elem_of_singleton in H. destruct (decide (0 <= v)); [symmetry in H; apply byte_inj in H; lia|].
    apply (f_equal N_of_ascii) in H. unfold byte in H. rewrite !N_ascii_embedding in H by lia. lia.
  - exfalso. assert (forall z, 128 <= z < 256 -> ascii_of_N n <> byte z) as Hb.
    { intros z Hz He. symmetry in He. apply byte_inj in He; lia. }
    pose proof (Z.mod_pos_bound (v / 64) 32 ltac:(lia)). pose proof (Z.mod_pos_bound v 64 ltac:(lia)).
    pose proof (Z.mod_pos_bound (v / 64) 64 ltac:(lia)). pose proof (Z.mod_pos_bound (v / 4096) 16 ltac:(lia)).
    pose proof (Z.mod_pos_bound (v / 4096) 64 ltac:(lia)). pose proof (Z.mod_pos_bound (v / 262144) 8 ltac:(lia)).
    destruct (v <? 2048), (v <? 65536); repeat (apply elem_of_cons in H as [H|H]; [eapply Hb; [|exact H]; lia|]); by apply not_elem_of_nil in H.
Qed.

Lemma codePoints_values s : Forall (fun p => forall n, 0 < n < 128 -> pointValue p = n -> p = [n]) (codePoints s).
Proof.
  remember (length s) as n eqn:Hn. assert (length s <= n)%nat as Hle by lia. clear Hn. revert s Hle.
  assert (forall c n, 0 < n < 128 -> pointValue [c] = n -> [c] = [n]) as H1.
  { intros c m Hm. cbn. destruct (isHigh c || isLow c); [lia|]. by intros ->. }
  induction n as [|n IH]; intros [|c [|d s]] Hle; cbn [codePoints]; cbn in Hle; try lia; try (repeat constructor; by auto).
  destruct (isHigh c && isLow d) eqn:E; (constructor; [|apply IH || apply (IH (d :: s)); cbn; lia]); [|auto].
  intros m Hm. unfold isHigh, isLow in E. boolify. cbn [pointValue]. lia.
Qed.

Lemma utf8_ascii s n : 0 < n < 128 -> byte n ∈ utf8Bytes s -> n ∈ s.
Proof.
  intros Hn H. unfold utf8Bytes in H. apply list_elem_of_In, in_concat in H as (bs & Hbs & Hb). apply in_map_iff in Hbs as (p & <- & Hp).
  apply list_elem_of_In in Hb, Hp. unfold byte in Hb. apply utf8Point_ascii in Hb; [|lia].
  pose proof (codePoints_values s) as Hv. rewrite Forall_forall in Hv. specialize (Hv p Hp n Hn). rewrite Hb in Hv.
  rewrite <- (concat_codePoints s). apply list_elem_of_In, in_concat. exists p. split; [by apply list_elem_of_In|]. rewrite Hv by lia. by left.
Qed.

Lemma splitSlash_bytes l : "/"%char ∉ l -> splitSlash (String.string_of_list_ascii l) = [String.string_of_list_ascii l].
Proof.
  induction l as [|c l IH]; cbn; [done|]. intros [Hc Hl]%not_elem_of_cons. rewrite IH by done.
  destruct (Ascii.eqb_spec c "/"); congruence.
Qed.

(** The bytes of a key are one segment of a path. *)
Lemma utf8_segment s : clean s -> s <> [] -> segment (utf8 s).
Proof.
  intros Hs Hn. assert (utf8Bytes s <> [] /\ head (utf8Bytes s) <> Some "."%char) as [Hne Hd].
  { destruct Hs as [Hh _]. unfold utf8Bytes. pose proof (concat_codePoints s) as Hc. pose proof (codePoints_values s) as Hv.
    pose proof (codePoints_short s) as Hsh. destruct (codePoints s) as [|p ps]; [cbn in Hc; congruence|]. cbn [map concat].
    assert (exists b bs, utf8Point (pointValue p) = b :: bs) as (b & bs & E) by (unfold utf8Point; repeat case_match; eauto).
    rewrite E. split; [done|]. cbn. intros [= ->]. assert (byte 46 ∈ utf8Point (pointValue p)) as Hin by (rewrite E; by left).
    unfold byte in Hin. apply utf8Point_ascii in Hin; [|lia]. inversion Hv as [|? ? Hp _]; subst. rewrite (Hp 46) in Hh by (lia || done). done. }
  unfold segment, utf8. destruct (utf8Bytes s) as [|b bs] eqn:E; [done|]. split_and!; [done|..].
  - intros [= -> _]. done.
  - intros [= -> _]. done.
  - apply splitSlash_bytes. rewrite <- E. intros H. assert (byte 47 ∈ utf8Bytes s) as H' by done. apply utf8_ascii in H'; [|lia].
    pose proof (key_no_slash s Hs) as Hk. rewrite Forall_forall in Hk. by apply (Hk 47 H').
Qed.

Lemma join_segment root x : normal root -> segment x -> join root x = root ++ [x].
Proof.
  intros Hr Hx. unfold join. pose proof Hx as (_ & _ & _ & ->). rewrite normalizeSegments_id; [done|]. apply Forall_app. split; [done|]. by apply Forall_singleton.
Qed.

(** ** Every folder has a valid key *)

Section Keys.
Context (sha256 : string -> text) (localDate : Z -> Z * Z * Z).
Hypothesis sha256_hex : forall x, Forall (fun c => isNameUnit c = true) (sha256 x).

Lemma suffixed_clean s x n : clean s -> s <> [] -> (length s <= 80)%nat -> (n <= 24)%nat ->
  let t := s ++ u "-" ++ shortId sha256 x n in clean t /\ t <> [] /\ (length t <= 128)%nat.
Proof.
  intros Hs Hn Hl Hle. cbv zeta. split_and!.
  - apply clean_app; [done|done|]. apply Forall_app. split; [by repeat constructor|]. unfold shortId. apply Forall_take.
    eapply Forall_impl; [apply sha256_hex|]. intros c Hc. by apply word_clean.
  - by destruct s.
  - rewrite !length_app. unfold shortId. rewrite length_take. change (length (u "-")) with 1%nat. unfold text in *. lia.
Qed.

Lemma base_spec title name created now : let s := conversationFolderBase localDate title name created now in
  clean s /\ s <> [] /\ (length s <= 80)%nat.
Proof.
  cbv zeta. unfold conversationFolderBase. destruct (trim _) as [|c t]; [|apply folderSegment_spec].
  destruct (localDate _) as [[y m] d]. apply folderSegment_spec.
Qed.

Lemma firstFree_Ok ex taken cs p : firstFree ex taken cs = Ok p -> p ∈ cs /\ ex p = false /\ taken p = false.
Proof.
  unfold firstFree. destruct (List.find _ cs) as [c|] eqn:E; [|done]. intros [= ->].
  apply List.find_some in E as [Hin Hb]. boolify. split; [by apply list_elem_of_In|done].
Qed.

Lemma conversationFolder_Ok ex taken root base x p : normal root -> clean base -> base <> [] -> (length base <= 80)%nat ->
  conversationFolder sha256 ex taken root base x = Ok p ->
  exists s, clean s /\ s <> [] /\ (length s <= 128)%nat /\ p = root ++ [utf8 s] /\ ex p = false /\ taken p = false.
Proof.
  intros Hr Hc Hn Hl (Hin & He & Ht)%firstFree_Ok. apply list_elem_of_In, in_map_iff in Hin as (n & <- & Hn24).
  destruct (suffixed_clean base x n Hc Hn Hl) as (H1 & H2 & H3).
  { destruct Hn24 as [<-|[<-|[<-|[]]]]; lia. }
  eexists. split_and!; [exact H1|done|done|by apply join_segment, utf8_segment|done|done].
Qed.

Lemma employeeFolder_Ok ex taken dir display name x p : normal dir -> employeeFolder sha256 ex taken dir display name x = Ok p ->
  exists s, clean s /\ s <> [] /\ (length s <= 128)%nat /\ p = dir ++ [utf8 s] /\ ex p = false /\ taken p = false.
Proof.
  intros Hr (Hin & He & Ht)%firstFree_Ok. apply list_elem_of_In, in_map_iff in Hin as (s & <- & Hs).
  destruct (folderSegment_spec (nullish display []) name) as (Hc & Hn & Hl).
  assert (clean s /\ s <> [] /\ (length s <= 128)%nat) as (H1 & H2 & H3).
  { destruct Hs as [<-|[<-|[<-|[]]]]; [split_and!; [done|done|lia]|..]; apply suffixed_clean; done || lia. }
  exists s. split_and!; [done|done|done|by apply join_segment, utf8_segment|done|done].
Qed.

(** Every folder a workspace is given has a valid workspace key: whatever the titles, names
    and ids are (empty, made of dots, spaces and separators, or long), the folder of a
    conversation is directly below the root, the folder of a member directly below that one,
    both are free on the disk and in the store, and their keys match the rule the desktop
    client checks. *)
Theorem folders_have_valid_keys ex taken root title name created now conversationId display employeeName employeeId dir p :
  normal root ->
  conversationFolder sha256 ex taken root (conversationFolderBase localDate title name created now) conversationId = Ok dir ->
  employeeFolder sha256 ex taken dir display employeeName employeeId = Ok p ->
  exists a b, dir = root ++ [utf8 a] /\ p = root ++ [utf8 a; utf8 b] /\ workspaceKey a = true /\ workspaceKey (a ++ 47 :: b) = true
    /\ segment (utf8 a) /\ segment (utf8 b) /\ ex dir = false /\ taken dir = false /\ ex p = false /\ taken p = false.
Proof.
  intros Hr Hd Hp. destruct (base_spec title name created now) as (Hb & Hbn & Hbl).
  destruct (conversationFolder_Ok _ _ _ _ _ _ Hr Hb Hbn Hbl Hd) as (a & Ha & Han & Hal & -> & ? & ?).
  apply employeeFolder_Ok in Hp as (b & Hb' & Hbn' & Hbl' & -> & ? & ?); [|apply Forall_app; split; [done|]; by apply Forall_singleton, utf8_segment].
  exists a, b. pose proof (clean_key a Ha Han Hal) as Ka. pose proof (clean_key b Hb' Hbn' Hbl') as Kb.
  split_and!; try done; try by apply utf8_segment.
  - by rewrite <- app_assoc.
  - unfold workspaceKey. by rewrite splitUnits_none by (by apply key_no_slash).
  - unfold workspaceKey. rewrite splitUnits_app by (by apply key_no_slash). rewrite splitUnits_none by (by apply key_no_slash). by rewrite Ka, Kb.
Qed.
End Keys.

Definition demoHex (x : string) : text := u "0123456789abcdef0123456789abcdef".
Lemma folders_have_valid_keys_witness :
  exists a b, utf8 a = "_etc-012345"%string /\ utf8 b = "e1"%string /\ workspaceKey a = true /\ workspaceKey (a ++ 47 :: b) = true.
Proof.
  destruct (folders_have_valid_keys demoHex (fun _ => (2026, 1, 2)) ltac:(intros; repeat constructor) (fun _ => false) (fun _ => false)
    ["ws"%string] (Some (u "../etc")) None None 0 "c1" (Some (u "...")) (u "e1") "e1" ["ws"; "_etc-012345"]%string ["ws"; "_etc-012345"; "e1"]%string)
    as (a & b & Ha & Hb & Ka & Kb & _); [|vm_compute; reflexivity..|].
  - apply Forall_singleton. by split_and!.
  - exists a, b. injection Ha as Ha. injection Hb as _ Hb. split; [by symmetry|]. split; [by symmetry|]. by split.
Defined.
