(* ===== verification/Migration.v ===== *)
(** Moving the folders of older builds to the named layout at start-up
    (services/workspace-migration.ts; [hindsightStateDir] of pi/resources.ts).

    [Host] is what survives a crash: the store and the disk.  The migration is one synchronous
    piece of JavaScript, so nothing else runs meanwhile, but the process may die after any
    durable effect: each transaction, directory creation and rename is one step of a program of
    Async.v, and [stops] of that file gives every state a crash may leave.  [Os] is the fate of
    one call: whether the operating system (or SQLite) refuses it, and the time.

    The disk maps lexical absolute paths to nodes; [lstatSync] throws for a path that does not
    exist, and for one of the [hidden] paths, which the process may not examine.  Reads of the
    store succeed.  [units] gives the UTF-16 text of a stored string; [sha256] and [localDate]
    are those of Layout.v, [cwd] is the working directory. *)

From S2P Require Import Prelude Decimal Sql Regex Paths Async Layout.
From S2P Require Projections Conversations Automation WorkRecords.
From Stdlib Require Import Ascii.
Local Open Scope Z_scope.
Import Conversations(Store, OwnedWorkspaces, ow_row, ow_participants, rows, participants, moves, mv_old, mv_new,
  workspace, p_workspace, p_employee_id, listWorkspaceMoves, planWorkspaceMoves, finishWorkspaceMove, workspaceInUse,
  listAllConversationWorkspaces).

(** ** The disk *)

Inductive node : Type := Directory | File (bytes : string) | Link (resolves : bool).
#[export] Instance node_eq_dec : EqDecision node.
Proof. solve_decision. Defined.
Definition disk : Type := abs -> option node.

Definition existsNode (d : disk) (p : abs) : bool := match d p with Some (Link b) => b | Some _ => true | None => false end.
Definition passable (n : option node) : bool := match n with Some Directory | Some (Link true) => true | _ => false end.

(** [mkdirSync(p, { recursive: true })]; [None] when a file is in the way. *)
Definition mkdirp (d : disk) (p : abs) : option disk :=
  if existsb (fun n => match d (take n p) with None => false | x => negb (passable x) end) (seq 0 (S (length p))) then None
  else Some (fun k => match d k with None => if bool_decide (k `prefix_of` p) then Some Directory else None | x => x end).

(** [renameSync(p, q)] of an existing directory to a name that must be free. *)
Definition rename (d : disk) (p q : abs) : option disk :=
  if bool_decide (d q = None) && passable (d (dirname q)) && negb (bool_decide (p `prefix_of` q))
  then Some (fun k => if bool_decide (q `prefix_of` k) then d (p ++ drop (length q) k) else if bool_decide (p `prefix_of` k) then None else d k)
  else None.

(** ** State *)

Record Host : Type := mkHost { store : Store; projections : Projections.ProjectionDb; files : disk }.
Definition set_store (s : Store) (w : Host) : Host := mkHost s (projections w) (files w).
Definition set_files (d : disk) (w : Host) : Host := mkHost (store w) (projections w) d.

Record Os : Type := mkOs { refuses : bool; now : Z }.
Inductive move_error : Type := Refused | NoPlan.
Definition prog : Type -> Type := async Host Os Empty_set Empty_set move_error.

Section Migration.
Context (units : string -> text) (sha256 : string -> text) (localDate : Z -> Z * Z * Z) (cwd root agentDir : abs) (hidden : abs -> bool).

Definition at_ (path : string) : abs := resolve cwd [path].

(** ** Planning *)

Definition lowerHex (c : ascii) : bool := let n := nat_of_ascii c in (Nat.leb 48 n && Nat.leb n 57) || (Nat.leb 97 n && Nat.leb n 102).
(** [LEGACY_WORKSPACE_NAME]. *)
Definition legacyName (s : string) : bool :=
  String.prefix "conversation-" s && (let rest := drop 13 (chars s) in Nat.eqb (length rest) 24 && forallb lowerHex rest).

Definition legacyPath (path : string) : bool := bool_decide (at_ path = join root (lastSegment path)) && legacyName (lastSegment path).
Definition addLegacy (planned : list string) (legacy : list (string * option string)) (c : string * option string) : list (string * option string) :=
  if String.eqb c.1 "" || bool_decide (c.1 ∈ planned) || bool_decide (c.1 ∈ mkeys legacy) || negb (legacyPath c.1) then legacy else legacy ++ [c].
Definition legacyWorkspaces (c : OwnedWorkspaces) (planned : list string) : list (string * option string) :=
  fold_left (addLegacy planned)
    (((fun p => (p_workspace p, Some (p_employee_id p))) <$> ow_participants c) ++ [(workspace (ow_row c), Conversations.entry_employee_id (ow_row c))]) [].

Definition displayName (experts : list Projections.fields) (employeeId : option string) : option text :=
  e ← employeeId;
  if String.eqb e "" then None
  else x ← List.find (fun x => bool_decide (Projections.asStr (mget "employee_id" x) = Some e)) experts;
       units <$> Projections.asStr (mget "display_name" x).

Section Plan.
Context (w : Host).
Definition taken (p : abs) : bool := workspaceInUse (store w) (showAbs p).

(** Employee folders one after the other; [chosen] holds those given already. *)
Fixpoint planMembers (experts : list Projections.fields) (dir : abs) (chosen : list abs) (legacy : list (string * option string))
    : result layout_error (list (string * string)) :=
  match legacy with
  | [] => Ok []
  | (oldPath, e) :: legacy =>
      let id := nullish e "conversation"%string in
      newPath ← employeeFolder sha256 (existsNode (files w)) (fun p => bool_decide (p ∈ chosen) || taken p) dir (displayName experts e) (units id) id;
      rest ← planMembers experts dir (newPath :: chosen) legacy;
      Ok ((oldPath, showAbs newPath) :: rest)
  end.

Definition sharedDir (c : OwnedWorkspaces) : option abs :=
  (fun path => dirname (at_ path)) <$>
    List.find (fun path => negb (String.eqb path "") && bool_decide (dirname (dirname (at_ path)) = root)) (p_workspace <$> ow_participants c).

Definition folderFor (experts : list Projections.fields) (c : OwnedWorkspaces) (employeeId : option string) (t : Z) : result layout_error abs :=
  let r := ow_row c in
  conversationFolder sha256 (existsNode (files w)) taken root
    (conversationFolderBase localDate (units <$> Conversations.title r) (displayName experts employeeId) (Some (Conversations.created_at r)) t)
    (Conversations.id r).

Definition plan (c : OwnedWorkspaces) (legacy : list (string * option string)) (t : Z) : result layout_error (list (string * string)) :=
  let r := ow_row c in
  match Projections.listLoadedExperts (projections w) (Conversations.tenant_id r) (Conversations.member_id r) true with
  | Err _ => Err NoFreeFolder
  | Ok experts =>
      if String.eqb (Conversations.kind r) "group" || bool_decide (Conversations.coordinator_employee_id r <> None) || Nat.ltb 1 (length legacy) then
        let leader := match Conversations.coordinator_employee_id r with
                      | Some x => Some x
                      | None => match Conversations.entry_employee_id r with Some x => Some x | None => head legacy ≫= snd end
                      end in
        conversationDir ← match sharedDir c with Some d => Ok d | None => folderFor experts c leader t end;
        planMembers experts conversationDir [] legacy
      else
        match legacy with
        | (oldPath, employeeId) :: _ => newPath ← folderFor experts c employeeId t; Ok [(oldPath, showAbs newPath)]
        | [] => Ok []
        end
  end.
End Plan.

Definition planConversation (c : OwnedWorkspaces) : prog unit :=
  atomically (fun os w =>
    match legacyWorkspaces c ((listWorkspaceMoves (store w)).*1) with
    | [] => (w, Ok tt)
    | legacy =>
        match plan w c legacy (now os) with
        | Ok l => (if refuses os then w else set_store (planWorkspaceMoves (store w) l (now os)).1 w, Ok tt)
        | Err _ => (w, Ok tt)
        end
    end).

Fixpoint planAll (cs : list OwnedWorkspaces) : prog unit :=
  match cs with [] => mret tt | c :: cs => _ ← planConversation c; planAll cs end.

(** ** Moving *)

Definition hindsightStateDir (path : string) : abs := agentDir ++ ["hindsight"%string; utf8 (take 32 (sha256 (showAbs (at_ path))))].

Inductive verdict : Type := Missing | InTheWay | Ready.
Definition prepareMove (oldPath newPath : string) : prog verdict :=
  atomically (fun os w =>
    match (if hidden (at_ oldPath) then None else files w (at_ oldPath)) with
    | None => (w, Ok Missing)
    | Some Directory =>
        if existsNode (files w) (at_ newPath) then (w, Ok InTheWay)
        else match (if refuses os then None else mkdirp (files w) (dirname (at_ newPath))) with
             | Some d => (set_files d w, Ok Ready)
             | None => (w, Err Refused)
             end
    | Some _ => (w, Ok InTheWay)
    end).
Definition renameFolder (p q : abs) : prog unit :=
  atomically (fun os w => match (if refuses os then None else rename (files w) p q) with Some d => (set_files d w, Ok tt) | None => (w, Err Refused) end).
Definition moveState (oldPath newPath : string) : prog unit :=
  let fromState := hindsightStateDir oldPath in
  let toState := hindsightStateDir newPath in
  Get (fun _ w => if existsNode (files w) fromState && negb (existsNode (files w) toState) then renameFolder fromState toState else mret tt).
Definition recordMove (oldPath newPath : string) : prog unit :=
  atomically (fun os w => if refuses os then (w, Err Refused) else (set_store (finishWorkspaceMove (store w) oldPath newPath) w, Ok tt)).

Definition finishMove (oldPath newPath : string) : prog bool :=
  v ← prepareMove oldPath newPath;
  match v with
  | InTheWay => mret false
  | Missing | Ready =>
      _ ← match v with Ready => renameFolder (at_ oldPath) (at_ newPath) | _ => mret tt end;
      _ ← moveState oldPath newPath;
      _ ← recordMove oldPath newPath;
      mret true
  end.

Fixpoint finishAll (l : list (string * string)) (moved pending : nat) : prog (nat * nat) :=
  match l with
  | [] => mret (moved, pending)
  | (o, n) :: l =>
      afterwards (finishMove o n) (fun r => match r with Ok true => finishAll l (S moved) pending | _ => finishAll l moved (S pending) end)
  end.

Definition migrateWorkspaceLayout : prog (nat * nat) :=
  Get (fun _ w =>
    _ ← planAll (listAllConversationWorkspaces (store w));
    Get (fun _ w => finishAll (listWorkspaceMoves (store w)) 0 0)).
End Migration.

(** ** Disk lemmas *)

(** Whatever exists lies in a directory. *)
Definition tree (d : disk) : Prop := forall k x, d (k ++ [x]) <> None -> passable (d k) = true.
Definition apart (a b : abs) : Prop := ~ a `prefix_of` b /\ ~ b `prefix_of` a.

Lemma apart_sym a b : apart a b -> apart b a.
Proof. intros [? ?]. by split. Qed.
Lemma apart_app a b c : apart a b -> apart a (b ++ c).
Proof.
  intros [H1 H2]. split; [|intros H; apply H2; etrans; [|exact H]; by apply prefix_app_r].
  intros [k Hk]. symmetry in Hk. apply app_eq_inv in Hk as [(l & -> & _)|(l & -> & _)]; [apply H2|apply H1]; by eexists.
Qed.

Lemma tree_none d k : tree d -> d k = None -> forall l, d (k ++ l) = None.
Proof.
  intros Ht Hk l. induction l as [|x l IH] using rev_ind; [by rewrite app_nil_r|]. rewrite app_assoc.
  destruct (d ((k ++ l) ++ [x])) eqn:E; [|done]. exfalso. specialize (Ht (k ++ l) x). rewrite E, IH in Ht. by specialize (Ht ltac:(done)).
Qed.

Lemma mkdirp_spec d p d' : mkdirp d p = Some d' -> tree d -> tree d' /\ (forall k, ~ k `prefix_of` p -> d' k = d k) /\ (forall k, d k <> None -> d' k = d k)
  /\ passable (d' p) = true.
Proof.
  unfold mkdirp. destruct (existsb _ _) eqn:E; [done|]. intros [= <-] Ht.
  assert (forall k, k `prefix_of` p -> d k = None \/ passable (d k) = true) as Hp.
  { intros k [l ->]. destruct (d k) as [n|] eqn:Ek; [right|by left]. destruct (passable (Some n)) eqn:Ep; [done|].
    enough (existsb (fun n => match d (take n (k ++ l)) with None => false | x => negb (passable x) end) (seq 0 (S (length (k ++ l)))) = true) by congruence.
    apply existsb_exists. exists (length k). split; [apply in_seq; rewrite length_app; lia|]. by rewrite take_app_length, Ek, Ep. }
  split_and!.
  - intros k x Hk. destruct (d k) as [n|] eqn:Ek.
    + destruct (d (k ++ [x])) as [m|] eqn:Ekx; [rewrite <- Ek; apply (Ht k x); by rewrite Ekx|].
      case_bool_decide as Hpre; [|done]. assert (k `prefix_of` p) as Hkp by (etrans; [|exact Hpre]; by apply prefix_app_r). destruct (Hp k Hkp) as [?|?]; congruence.
    + destruct (d (k ++ [x])) as [m|] eqn:Ekx; [specialize (Ht k x); rewrite Ekx, Ek in Ht; by specialize (Ht ltac:(done))|].
      case_bool_decide as Hpre; [|done]. rewrite bool_decide_eq_true_2; [done|]. etrans; [|exact Hpre]. by apply prefix_app_r.
  - intros k Hk. destruct (d k); [done|]. by rewrite bool_decide_eq_false_2.
  - intros k Hk. by destruct (d k).
  - destruct (d p) as [n|] eqn:En; [destruct (Hp p (reflexivity p)) as [?|?]; congruence|]. by rewrite bool_decide_eq_true_2.
Qed.

Lemma rename_spec d p q d' : rename d p q = Some d' -> tree d -> tree d' /\ (forall k, d' (q ++ k) = d (p ++ k)) /\ d' p = None
  /\ (forall a, apart a p -> apart a q -> forall k, d' (a ++ k) = d (a ++ k)).
Proof.
  unfold rename. destruct (bool_decide_reflect (d q = None)) as [Hq|]; [|done]. destruct (passable (d (dirname q))) eqn:Hpar; [|done].
  destruct (bool_decide_reflect (p `prefix_of` q)) as [|Hpq]; [done|]. intros [= <-] Ht. split_and!.
  - intros k x. destruct (bool_decide_reflect (q `prefix_of` k)) as [[l ->]|Hk].
    + rewrite bool_decide_eq_true_2 by (rewrite <- app_assoc; by apply prefix_app_r). rewrite <- app_assoc, !drop_app_length, app_assoc. apply Ht.
    + destruct (bool_decide_reflect (p `prefix_of` k)) as [Hpk|Hpk].
      * case_bool_decide as Hq'; [|rewrite bool_decide_eq_true_2 by (etrans; [exact Hpk|by apply prefix_app_r]); done].
        destruct Hq' as [l Hl]. destruct l as [|y l] using rev_ind.
        -- rewrite app_nil_r in Hl. exfalso. apply Hpq. rewrite <- Hl. etrans; [exact Hpk|by apply prefix_app_r].
        -- clear IHl. rewrite app_assoc in Hl. apply app_inj_tail in Hl as [-> _]. exfalso. apply Hk. by eexists.
      * case_bool_decide as Hq'.
        -- destruct Hq' as [l Hl]. destruct l as [|y l _] using rev_ind.
           ++ rewrite app_nil_r in Hl. intros _. replace k with (dirname q); [done|]. rewrite <- Hl. unfold dirname.
              rewrite length_app. cbn. rewrite Nat.add_1_r. cbn. apply take_app_length.
           ++ rewrite app_assoc in Hl. apply app_inj_tail in Hl as [-> _]. exfalso. apply Hk. by eexists.
        -- case_bool_decide; [done|apply Ht].
  - intros k. rewrite bool_decide_eq_true_2 by (by apply prefix_app_r). by rewrite drop_app_length.
  - case_bool_decide as H; [|by rewrite bool_decide_eq_true_2]. destruct H as [l ->]. rewrite drop_app_length.
    rewrite <- app_assoc. by apply (tree_none d q).
  - intros a Hap Haq k. rewrite bool_decide_eq_false_2; [rewrite bool_decide_eq_false_2; [done|]|].
    + apply (apart_app p a k), apart_sym, Hap.
    + apply (apart_app q a k), apart_sym, Haq.
Qed.

(** ** Stored paths *)

(** The workspace of every conversation and participant, in table order. *)
Definition stored (s : Store) : list string := (workspace <$> rows s) ++ (p_workspace <$> participants s).

Lemma stored_finish s o n : stored (finishWorkspaceMove s o n) = (fun x => if String.eqb x o then n else x) <$> stored s.
Proof.
  unfold stored, finishWorkspaceMove. cbn. rewrite fmap_app, <- !list_fmap_compose. unfold sql_update. rewrite <- !list_fmap_compose.
  f_equal; apply list_fmap_ext; intros _ x _; cbn; by case_match.
Qed.
Lemma moves_finish s o n : moves (finishWorkspaceMove s o n) = sql_delete (fun m => String.eqb (mv_old m) o) (moves s).
Proof. done. Qed.
Lemma stored_plan s l t : stored (planWorkspaceMoves s l t).1 = stored s.
Proof. unfold planWorkspaceMoves. by destruct (Conversations.insertMoves l t (moves s)). Qed.

Lemma joinSlash_app p r : p <> [] -> r <> [] -> joinSlash (p ++ r) = (joinSlash p +:+ "/" +:+ joinSlash r)%string.
Proof.
  intros Hp Hr. induction p as [|x [|y p] IH]; [done| |].
  - destruct r as [|z r]; [done|]. reflexivity.
  - change (joinSlash ((x :: y :: p) ++ r)) with (x +:+ "/" +:+ joinSlash ((y :: p) ++ r))%string. rewrite IH by done.
    change (joinSlash (x :: y :: p)) with (x +:+ "/" +:+ joinSlash (y :: p))%string. by rewrite !append_assoc.
Qed.
Lemma prefix_append a b : String.prefix a (a +:+ b) = true.
Proof.
  induction a as [|c a IH]; [by destruct b|]. change (String.app (String c a) b) with (String c (a +:+ b)). cbn. by destruct (ascii_dec c c).
Qed.

(** A folder inside another one is under it as text. *)
Lemma under_prefix p q : p <> [] -> p `prefix_of` q -> Conversations.under (showAbs p) (showAbs q) = true.
Proof.
  intros Hp [r ->]. unfold Conversations.under. destruct r as [|x r]; [by rewrite app_nil_r, String.eqb_refl|].
  apply orb_true_iff. right. unfold showAbs. rewrite joinSlash_app by done. rewrite <- !append_assoc. apply prefix_append.
Qed.

Lemma insertMoves_spec l t ms ms' : Conversations.insertMoves l t ms = Some ms' ->
  (forall m, m ∈ ms' <-> m ∈ ms \/ exists p, p ∈ l /\ m = Conversations.mkMove p.1 p.2 t)
  /\ (NoDup (mv_old <$> ms) -> NoDup (mv_old <$> ms')).
Proof.
  revert ms. induction l as [|[o n] l IH]; intros ms; cbn; [intros [= <-]; set_solver|]. unfold sql_insert.
  destruct (existsb _ ms) eqn:E; [done|]. intros H. apply IH in H as [H1 H2]. split.
  - intros m. rewrite H1, elem_of_app, list_elem_of_singleton. split.
    + intros [[?| ->]|(p & ? & ->)]; [by left|right; exists (o, n)|right; exists p]; (split; [|done]); [by left|by right].
    + intros [?|(p & Hp & ->)]; [by do 2 left|]. apply elem_of_cons in Hp as [->|?]; [left; by right|right; eauto].
  - intros Hn. apply H2. rewrite fmap_app. cbn. apply NoDup_app. split_and!; [done| |apply NoDup_singleton].
    intros x Hx ->%list_elem_of_singleton. apply list_elem_of_fmap in Hx as (m & Hm & Hin).
    assert (existsb (fun m => String.eqb (mv_old m) o || String.eqb (mv_new m) n) ms = true); [|congruence].
    apply existsb_exists. exists m. split; [by apply list_elem_of_In|]. by rewrite <- Hm, String.eqb_refl.
Qed.

(** ** The invariant *)

Section Safe.
Context (units : string -> text) (sha256 : string -> text) (localDate : Z -> Z * Z * Z) (cwd root agentDir : abs) (hidden : abs -> bool).
Hypothesis examinable : forall p, hidden p = false.
Notation at_ := (at_ cwd).
Notation hindsight := (agentDir ++ ["hindsight"%string]).

(** Stored paths are normalised and none lies inside another; pending moves lead from stored
    paths to new ones apart from everything in use; the state directory is apart from both. *)
Record layout_ok (w : Host) : Prop := mkLayout {
  lo_canon : forall x, x ∈ stored (store w) -> x <> ""%string -> exists p, normal p /\ x = showAbs p;
  lo_stored : forall x y, x ∈ stored (store w) -> y ∈ stored (store w) -> x <> ""%string -> y <> ""%string -> at_ x `prefix_of` at_ y -> x = y;
  lo_move : forall m, m ∈ moves (store w) -> mv_old m ∈ stored (store w) /\ mv_old m <> ""%string /\ exists n, normal n /\ mv_new m = showAbs n;
  lo_new : forall m x, m ∈ moves (store w) -> x ∈ stored (store w) -> x <> ""%string -> apart (at_ x) (at_ (mv_new m));
  lo_news : forall m m', m ∈ moves (store w) -> m' ∈ moves (store w) -> at_ (mv_new m) `prefix_of` at_ (mv_new m') -> mv_old m = mv_old m';
  lo_olds : NoDup (mv_old <$> moves (store w));
  lo_tree : tree (files w);
  lo_state : forall x, x ∈ stored (store w) -> x <> ""%string -> apart hindsight (at_ x);
  lo_state_new : forall m, m ∈ moves (store w) -> apart hindsight (at_ (mv_new m));
}.

(** The folder of a stored path holds in [w] what the folder of [x0] held in [w0]. *)
Definition folder_kept (w0 w : Host) (x0 x : string) : Prop := forall k, files w (at_ x ++ k) = files w0 (at_ x0 ++ k).
(** ... or the folder was renamed and its move is still to be recorded. *)
Definition folder_on_the_way (w0 w : Host) (x0 x : string) : Prop :=
  exists m, m ∈ moves (store w) /\ mv_old m = x /\ files w (at_ x) = None /\ folder_kept w0 w x0 (mv_new m).

Definition nothing_lost (w0 w : Host) : Prop :=
  length (stored (store w)) = length (stored (store w0))
  /\ forall i x0 x, stored (store w0) !! i = Some x0 -> stored (store w) !! i = Some x -> x0 <> ""%string -> files w0 (at_ x0) = Some Directory ->
       x <> ""%string /\ (folder_kept w0 w x0 x \/ folder_on_the_way w0 w x0 x).

Definition safe (w0 w : Host) : Prop := layout_ok w /\ nothing_lost w0 w.

Lemma old_eq w m m' : layout_ok w -> m ∈ moves (store w) -> m' ∈ moves (store w) -> mv_old m = mv_old m' -> m = m'.
Proof. intros H Hm Hm' He. eapply NoDup_key_eq; [apply (lo_olds _ H)|..]; done. Qed.

(** Changes of the disk away from every folder in use. *)
Lemma frame_files w0 w d : safe w0 w -> tree d ->
  (forall x, x ∈ stored (store w) -> x <> ""%string -> forall k, d (at_ x ++ k) = files w (at_ x ++ k)) ->
  (forall m, m ∈ moves (store w) -> forall k, d (at_ (mv_new m) ++ k) = files w (at_ (mv_new m) ++ k)) -> safe w0 (set_files d w).
Proof.
  intros [Hl [Hlen Hk]] Ht Hs Hn. split; [by destruct Hl; constructor|]. split; [done|]. intros i x0 x Hi0 Hi Hne Hd.
  destruct (Hk i x0 x Hi0 Hi Hne Hd) as [Hx H]. split; [done|]. assert (x ∈ stored (store w)) as Hin by (by eapply list_elem_of_lookup_2).
  destruct H as [H|(m & Hm & Ho & Hnone & H)]; [left|right; exists m; split_and!; [done|done|..]].
  - intros k. cbn [files set_files]. by rewrite Hs.
  - cbn [files set_files]. rewrite <- (app_nil_r (at_ x)), Hs, app_nil_r; done.
  - intros k. cbn [files set_files]. by rewrite Hn.
Qed.

Lemma mkdir_safe w0 w m d : safe w0 w -> m ∈ moves (store w) -> mkdirp (files w) (dirname (at_ (mv_new m))) = Some d -> safe w0 (set_files d w).
Proof.
  intros Hs Hm Hd. destruct Hs as [Hl Hk] eqn:Es. clear Es. apply mkdirp_spec in Hd as (Ht & Ho & _ & _); [|apply (lo_tree _ Hl)].
  assert (dirname (at_ (mv_new m)) `prefix_of` at_ (mv_new m)) as Hdir by (unfold dirname; apply prefix_take).
  apply frame_files; [by split|done|..].
  - intros x Hx Hne k. apply Ho. intros Hp. destruct (lo_new _ Hl m x Hm Hx Hne) as [Hnp _]. apply Hnp.
    etrans; [by apply prefix_app_r|]. by etrans.
  - intros m' Hm' k. apply Ho. intros Hp.
    assert (at_ (mv_new m') `prefix_of` dirname (at_ (mv_new m))) as Hp' by (etrans; [by apply prefix_app_r|done]).
    assert (m' = m) as ->.
    { eapply old_eq; [done..|]. apply (lo_news _ Hl); [done|done|]. by etrans. }
    apply prefix_length in Hp'. destruct (decide (at_ (mv_new m) = [])) as [He|He]; [|pose proof (length_dirname _ He); lia].
    destruct (lo_move _ Hl m Hm) as (Hin & Hne & _). destruct (lo_new _ Hl m (mv_old m) Hm Hin Hne) as [_ []]. rewrite He. apply prefix_nil.
Qed.

Lemma rename_safe w0 w m d : safe w0 w -> m ∈ moves (store w) -> files w (at_ (mv_old m)) = Some Directory ->
  rename (files w) (at_ (mv_old m)) (at_ (mv_new m)) = Some d -> safe w0 (set_files d w) /\ d (at_ (mv_old m)) = None.
Proof.
  intros [Hl [Hlen Hk]] Hm Hdir Hd. apply rename_spec in Hd as (Ht & Hnew & Hnone & Ho); [|apply (lo_tree _ Hl)]. split; [|done].
  destruct (lo_move _ Hl m Hm) as (Hoin & Hone & _).
  assert (forall x, x ∈ stored (store w) -> x <> ""%string -> x <> mv_old m -> forall k, d (at_ x ++ k) = files w (at_ x ++ k)) as Hframe.
  { intros x Hx Hne Hxo. apply Ho; [|by apply (lo_new _ Hl)]. split; intros Hp; apply Hxo; [|symmetry]; by apply (lo_stored _ Hl). }
  split; [by destruct Hl; constructor|]. split; [done|]. intros i x0 x Hi0 Hi Hne Hd0.
  destruct (Hk i x0 x Hi0 Hi Hne Hd0) as [Hx H]. split; [done|]. assert (x ∈ stored (store w)) as Hin by (by eapply list_elem_of_lookup_2).
  destruct (decide (x = mv_old m)) as [->|Hxo].
  - right. exists m. split_and!; [done|done|done|]. destruct H as [H|(m' & _ & _ & Hn & _)]; [|congruence]. intros k. cbn [files set_files]. by rewrite Hnew, H.
  - destruct H as [H|(m' & Hm' & Hm'o & Hn & H)]; [left; intros k; cbn [files set_files]; by rewrite Hframe|right]. exists m'. split_and!; [done|done|..].
    + cbn [files set_files]. rewrite <- (app_nil_r (at_ x)), Hframe, app_nil_r; done.
    + intros k. cbn [files set_files]. rewrite Ho; [apply H|..].
      * apply apart_sym. by apply (lo_new _ Hl).
      * split; intros Hp; apply Hxo; rewrite <- Hm'o; [|symmetry]; by apply (lo_news _ Hl).
Qed.

Lemma state_safe w0 w a b d : safe w0 w -> hindsight `prefix_of` a -> hindsight `prefix_of` b -> rename (files w) a b = Some d ->
  safe w0 (set_files d w) /\ (forall x, x ∈ stored (store w) -> x <> ""%string -> forall k, d (at_ x ++ k) = files w (at_ x ++ k)).
Proof.
  intros Hs [ka ->] [kb ->] Hd. pose proof Hs as [Hl _]. apply rename_spec in Hd as (Ht & _ & _ & Ho); [|apply (lo_tree _ Hl)].
  assert (forall x, x ∈ stored (store w) -> x <> ""%string -> forall k, d (at_ x ++ k) = files w (at_ x ++ k)) as Hf.
  { intros x Hx Hne. apply Ho; apply apart_app, apart_sym; by apply (lo_state _ Hl). }
  split; [|done]. apply frame_files; [done|done|done|].
  - intros m Hm. apply Ho; apply apart_app, apart_sym; by apply (lo_state_new _ Hl).
Qed.

Lemma record_safe w0 w m : normal cwd -> safe w0 w -> m ∈ moves (store w) -> files w (at_ (mv_old m)) = None ->
  safe w0 (set_store (finishWorkspaceMove (store w) (mv_old m) (mv_new m)) w).
Proof.
  intros Hcwd [Hl [Hlen Hk]] Hm Hnone. destruct (lo_move _ Hl m Hm) as (Hoin & Hone & n & Hn & En).
  assert (mv_new m <> ""%string) as Hnne by (rewrite En; done).
  assert (forall x, x ∈ stored (finishWorkspaceMove (store w) (mv_old m) (mv_new m)) -> x = mv_new m \/ (x ∈ stored (store w) /\ x <> mv_old m)) as Hst.
  { intros x. rewrite stored_finish. intros (y & -> & Hy)%list_elem_of_fmap. destruct (String.eqb_spec y (mv_old m)); [by left|by right]. }
  assert (forall m', m' ∈ moves (finishWorkspaceMove (store w) (mv_old m) (mv_new m)) -> m' ∈ moves (store w) /\ mv_old m' <> mv_old m) as Hmv.
  { intros m'. rewrite moves_finish, elem_of_sql_delete. intros [? ?]. by boolify. }
  assert (forall m', m' ∈ moves (store w) -> mv_old m' <> mv_old m -> apart (at_ (mv_new m)) (at_ (mv_new m'))) as Hapart.
  { intros m' Hm' Hne. split; intros Hp; apply Hne; [symmetry|]; by apply (lo_news _ Hl). }
  split; [constructor; cbn [store set_store files]|split; cbn [store set_store]].
  - intros x [->|[Hx _]]%Hst Hne; [eauto|by apply (lo_canon _ Hl)].
  - intros x y [->|[Hx _]]%Hst [->|[Hy _]]%Hst Hxn Hyn Hp; [done|..].
    + by destruct (lo_new _ Hl m y Hm Hy Hyn) as [_ []].
    + by destruct (lo_new _ Hl m x Hm Hx Hxn) as [[] _].
    + by apply (lo_stored _ Hl).
  - intros m' [Hm' Hne]%Hmv. destruct (lo_move _ Hl m' Hm') as (Hin & Hn' & Hnew). split_and!; [|done|done]. rewrite stored_finish.
    apply list_elem_of_fmap. exists (mv_old m'). split; [|done]. by destruct (String.eqb_spec (mv_old m') (mv_old m)).
  - intros m' x [Hm' Hne]%Hmv [->|[Hx _]]%Hst Hxn; [by apply Hapart|by apply (lo_new _ Hl)].
  - intros m1 m2 [H1 _]%Hmv [H2 _]%Hmv. by apply (lo_news _ Hl).
  - rewrite moves_finish. eapply sublist_NoDup; [apply (lo_olds _ Hl)|apply keys_sql_delete].
  - apply (lo_tree _ Hl).
  - intros x [->|[Hx _]]%Hst Hxn; [by apply (lo_state_new _ Hl)|by apply (lo_state _ Hl)].
  - intros m' [Hm' _]%Hmv. by apply (lo_state_new _ Hl).
  - by rewrite stored_finish, length_fmap.
  - intros i x0 x Hi0 Hi Hne Hd. rewrite stored_finish, list_lookup_fmap in Hi. destruct (stored (store w) !! i) as [y|] eqn:Ey; [|done].
    injection Hi as <-. destruct (Hk i x0 y Hi0 Ey Hne Hd) as [Hyn H]. destruct (String.eqb_spec y (mv_old m)) as [->|Hyo].
    + split; [done|]. left. destruct H as [H|(m' & Hm' & Ho & _ & H)].
      * specialize (H []). rewrite !app_nil_r in H. congruence.
      * rewrite (old_eq w m' m Hl Hm' Hm Ho) in H. exact H.
    + split; [done|]. destruct H as [H|(m' & Hm' & Ho & Hn' & H)]; [left; exact H|right]. exists m'. split_and!; [|done|done|exact H].
      cbn [store set_store]. rewrite moves_finish. apply elem_of_sql_delete. split; [done|]. apply String.eqb_neq. congruence.
Qed.

(** *** Planning *)

Hypothesis cwd_normal : normal cwd.
Hypothesis root_normal : normal root.
Hypothesis state_apart : apart hindsight root.
Hypothesis sha256_hex : forall x, Forall (fun c => isNameUnit c = true) (sha256 x).

(** A path nothing in use contains or lies in. *)
Definition unused (w : Host) (p : abs) : Prop :=
  normal p /\ (forall x, x ∈ stored (store w) -> x <> ""%string -> apart (at_ x) p) /\ (forall m, m ∈ moves (store w) -> apart (at_ (mv_new m)) p)
  /\ apart hindsight p.

(** A directory that no folder in use contains. *)
Definition outside (w : Host) (dir : abs) : Prop :=
  (forall x, x ∈ stored (store w) -> x <> ""%string -> ~ at_ x `prefix_of` dir) /\ (forall m, m ∈ moves (store w) -> ~ at_ (mv_new m) `prefix_of` dir).

Lemma taken_false w p : layout_ok w -> p <> [] -> normal p -> taken w p = false ->
  (forall x, x ∈ stored (store w) -> x <> ""%string -> ~ p `prefix_of` at_ x) /\ (forall m, m ∈ moves (store w) -> ~ p `prefix_of` at_ (mv_new m)).
Proof.
  intros Hl Hp Hn Ht. unfold taken, workspaceInUse in Ht. apply orb_false_iff in Ht as [Ht Hmv]. apply orb_false_iff in Ht as [Hr Hpt].
  assert (forall (A : Type) (f : A -> string) l x, existsb (fun r => Conversations.under (showAbs p) (f r)) l = false -> x ∈ l ->
            (exists q, normal q /\ f x = showAbs q) -> ~ p `prefix_of` at_ (f x)) as Hgen.
  { intros A f l x He Hx (q & Hq & Eq) Hpre. rewrite Eq in Hpre. unfold Migration.at_ in Hpre. rewrite resolve_showAbs in Hpre by done.
    assert (existsb (fun r => Conversations.under (showAbs p) (f r)) l = true); [|congruence].
    apply existsb_exists. exists x. split; [by apply list_elem_of_In|]. rewrite Eq. by apply under_prefix. }
  split.
  - intros x Hx Hne. pose proof (lo_canon _ Hl x Hx Hne) as Hc. unfold stored in Hx. apply elem_of_app in Hx as [Hx|Hx];
      apply list_elem_of_fmap in Hx as (r & -> & Hx); by eapply Hgen.
  - intros m Hm. destruct (lo_move _ Hl m Hm) as (_ & _ & Hnew). by eapply Hgen.
Qed.

Lemma child_unused w dir y : layout_ok w -> outside w dir -> normal dir -> segment y -> apart hindsight (dir ++ [y]) ->
  taken w (dir ++ [y]) = false -> unused w (dir ++ [y]).
Proof.
  intros Hl [Ho1 Ho2] Hn Hy Hst Ht. assert (normal (dir ++ [y])) as Hny by (apply Forall_app; split; [done|by apply Forall_singleton]).
  destruct (taken_false w (dir ++ [y]) Hl) as [H1 H2]; [by destruct dir|done|done|].
  assert (forall q, q `prefix_of` dir ++ [y] -> q `prefix_of` dir \/ dir ++ [y] `prefix_of` q) as Hcase.
  { intros q Hq. destruct (decide (length q <= length dir)%nat) as [Hle|Hgt].
    - left. destruct Hq as [r Hr]. symmetry in Hr. apply app_eq_inv in Hr as [(l & -> & _)|(l & -> & _)]; [|by eexists].
      rewrite length_app in Hle. destruct l; [by rewrite app_nil_r|cbn in Hle; lia].
    - right. destruct Hq as [r Hr]. destruct r as [|z r]; [rewrite app_nil_r in Hr; by rewrite Hr|].
      apply (f_equal length) in Hr. rewrite !length_app in Hr. cbn in Hr. lia. }
  split_and!; [done|..|done].
  - intros x Hx Hne. split; [|by apply H1]. intros [Hp|Hp]%Hcase; [by apply (Ho1 x)|by apply (H1 x)].
  - intros m Hm. split; [|by apply H2]. intros [Hp|Hp]%Hcase; [by apply (Ho2 m)|by apply (H2 m)].
Qed.

Lemma legacy_at path : legacyPath cwd root path = true -> exists b, segment b /\ at_ path = root ++ [b].
Proof.
  unfold legacyPath. intros [H Hn]%andb_true_iff. apply bool_decide_eq_true in H. exists (lastSegment path).
  assert (segment (lastSegment path)) as Hs; [|by rewrite H, join_segment].
  unfold legacyName in Hn. apply andb_true_iff in Hn as [Hp _]. split_and!; try (by intros E; rewrite E in Hp).
  unfold lastSegment in *. destruct (last _) as [x|] eqn:El; [|done]. cbn [default from_option id].
  apply last_Some in El as [l El]. assert (x ∈ splitSlash path) as Hx.
  { apply list_elem_of_In, (filter_In (fun x => negb (String.eqb x ""))). rewrite El. apply in_or_app. right. by left. }
  destruct (splitSlash_segments path) as [Hf _]. rewrite Forall_forall in Hf. by apply Hf.
Qed.

Lemma legacyWorkspaces_spec c planned a : a ∈ legacyWorkspaces cwd root c planned ->
  a.1 <> ""%string /\ legacyPath cwd root a.1 = true /\ a.1 ∈ (p_workspace <$> ow_participants c) ++ [workspace (ow_row c)].
Proof.
  unfold legacyWorkspaces. set (cs := _ ++ [_]). assert (cs.*1 = (p_workspace <$> ow_participants c) ++ [workspace (ow_row c)]) as <-.
  { unfold cs. rewrite fmap_app, <- list_fmap_compose. done. }
  assert (forall acc, (forall a, a ∈ acc -> a.1 <> ""%string /\ legacyPath cwd root a.1 = true /\ a.1 ∈ cs.*1) -> forall l, (forall a, a ∈ l -> a ∈ cs) ->
            forall a, a ∈ fold_left (addLegacy cwd root planned) l acc -> a.1 <> ""%string /\ legacyPath cwd root a.1 = true /\ a.1 ∈ cs.*1) as H.
  { intros acc Hacc l. revert acc Hacc. induction l as [|x l IH]; intros acc Hacc Hl; cbn [fold_left]; [done|]. apply IH; [|set_solver].
    intros b. unfold addLegacy. destruct (_ || _ || _ || _) eqn:E; [apply Hacc|]. boolify.
    intros [?| ->%list_elem_of_singleton]%elem_of_app; [by apply Hacc|]. split_and!; [done|done|]. apply list_elem_of_fmap. exists x. split; [done|]. apply Hl. by left. }
  apply H; [set_solver|done].
Qed.

Definition legacy_ok (w : Host) (legacy : list (string * option string)) : Prop :=
  forall a, a ∈ legacy -> a.1 ∈ stored (store w) /\ a.1 <> ""%string /\ exists b, segment b /\ at_ a.1 = root ++ [b].

Lemma root_outside w legacy : layout_ok w -> legacy <> [] -> legacy_ok w legacy -> outside w root.
Proof.
  intros Hl Hne Hok. destruct legacy as [|a legacy]; [done|]. destruct (Hok a ltac:(by left)) as (Hin & Hn & b & _ & Hb).
  assert (root `prefix_of` at_ a.1) as Hr by (rewrite Hb; by apply prefix_app_r). split.
  - intros x Hx Hxn Hp. assert (x = a.1) as -> by (apply (lo_stored _ Hl); [done..|by etrans]).
    apply prefix_length in Hp. rewrite Hb, length_app in Hp. cbn in Hp. lia.
  - intros m Hm Hp. destruct (lo_new _ Hl m a.1 Hm Hin Hn) as [_ []]. by etrans.
Qed.

Lemma planMembers_spec w experts dir chosen legacy l : normal dir -> planMembers units sha256 w experts dir chosen legacy = Ok l ->
  (forall a, a ∈ l -> a.1 ∈ legacy.*1 /\ exists y, segment y /\ a.2 = showAbs (dir ++ [y]) /\ taken w (dir ++ [y]) = false /\ dir ++ [y] ∉ chosen)
  /\ (forall a b, a ∈ l -> b ∈ l -> at_ a.2 = at_ b.2 -> a = b).
Proof.
  intros Hd. revert chosen l. induction legacy as [|[o e] legacy IH]; intros chosen l; cbn [planMembers]; [intros [= <-]; set_solver|].
  intros (p & Hp & (rest & Hrest & [= <-])%bind_Ok)%bind_Ok. apply employeeFolder_Ok in Hp as (s & Hs & Hsn & _ & -> & _ & Ht); [|done|done].
  pose proof (utf8_segment s Hs Hsn) as Hseg. apply orb_false_iff in Ht as [Hch%bool_decide_eq_false Ht].
  apply IH in Hrest as [H1 H2]. assert (forall y, segment y -> at_ (showAbs (dir ++ [y])) = dir ++ [y]) as Hat.
  { intros y Hy. apply resolve_showAbs. apply Forall_app. split; [done|by apply Forall_singleton]. }
  split.
  - intros a [->|Ha]%elem_of_cons; [split; [by left|eauto 6]|]. destruct (H1 a Ha) as (? & y & ? & ? & ? & Hy).
    split; [by right|]. exists y. split_and!; [done|done|done|]. set_solver.
  - assert (forall b, b ∈ rest -> at_ (showAbs (dir ++ [utf8 s])) <> at_ b.2) as Hne.
    { intros b Hb Heq. destruct (H1 b Hb) as (_ & y & Hy & Eb & _ & Hnc). rewrite Eb, !Hat in Heq by done. apply Hnc. rewrite <- Heq. by left. }
    intros a b [->|Ha]%elem_of_cons [->|Hb]%elem_of_cons Heq; [done|by destruct (Hne b Hb)|by destruct (Hne a Ha)|by apply H2].
Qed.

Lemma sharedDir_spec w c dir : layout_ok w -> (forall p, p ∈ ow_participants c -> p_workspace p ∈ stored (store w)) ->
  sharedDir cwd root c = Some dir -> normal dir /\ root `prefix_of` dir /\ outside w dir.
Proof.
  intros Hl Hc. unfold sharedDir. destruct (List.find _ _) as [sh|] eqn:E; [|done]. intros [= <-]. apply List.find_some in E as [Hin Hb].
  boolify. apply list_elem_of_In, list_elem_of_fmap in Hin as (p & -> & Hin). specialize (Hc p Hin). set (sh := p_workspace p) in *.
  assert (dirname (at_ sh) `prefix_of` at_ sh) as Hpre by apply prefix_take.
  split_and!.
  - apply Forall_take. by apply resolve_normal.
  - rewrite <- H0. apply prefix_take.
  - split; [|intros m Hm Hp; destruct (lo_new _ Hl m sh Hm Hc H) as [_ []]; by etrans].
    intros x Hx Hxn Hp. assert (x = sh) as -> by (apply (lo_stored _ Hl); [done..|by etrans]). apply prefix_length in Hp.
    destruct (decide (at_ sh = [])) as [He|He]; [|pose proof (length_dirname _ He); lia].
    rewrite He in H0. destruct state_apart as [_ []]. rewrite <- H0. apply prefix_nil.
Qed.

Lemma folderFor_spec w experts c e t p : folderFor units sha256 localDate root w experts c e t = Ok p ->
  exists s, segment (utf8 s) /\ p = root ++ [utf8 s] /\ taken w p = false.
Proof.
  intros H. unfold folderFor in H.
  destruct (base_spec localDate (units <$> Conversations.title (ow_row c)) (displayName units experts e) (Some (Conversations.created_at (ow_row c))) t) as (Hb & Hbn & Hbl).
  apply conversationFolder_Ok in H as (s & Hs & Hsn & _ & -> & _ & Ht); [|done..]. exists s. split_and!; [by apply utf8_segment|done|done].
Qed.

Lemma plan_spec w c legacy t l : layout_ok w -> legacy <> [] -> legacy_ok w legacy -> (forall p, p ∈ ow_participants c -> p_workspace p ∈ stored (store w)) ->
  plan units sha256 localDate cwd root w c legacy t = Ok l ->
  (forall a, a ∈ l -> a.1 ∈ legacy.*1 /\ exists n, a.2 = showAbs n /\ unused w n) /\ (forall a b, a ∈ l -> b ∈ l -> at_ a.2 `prefix_of` at_ b.2 -> a = b).
Proof.
  intros Hl Hne Hok Hc. unfold plan. destruct (Projections.listLoadedExperts _ _ _ _) as [experts|]; [|done].
  pose proof (root_outside w legacy Hl Hne Hok) as Hro.
  assert (forall s, segment (utf8 s) -> taken w (root ++ [utf8 s]) = false -> unused w (root ++ [utf8 s])) as Hroot.
  { intros s Hs Ht. apply child_unused; [done..|by apply apart_app|done]. }
  destruct (_ || _ || _).
  - intros (dir & Hdir & Hp)%bind_Ok.
    assert (normal dir /\ root `prefix_of` dir /\ outside w dir) as (Hn & Hpre & Ho).
    { destruct (sharedDir cwd root c) as [d|] eqn:Ed; [injection Hdir as <-; by eapply sharedDir_spec|].
      apply folderFor_spec in Hdir as (s & Hs & -> & Ht). destruct (Hroot s Hs Ht) as (Hn & Hu1 & Hu2 & _).
      split_and!; [done|by apply prefix_app_r|]. split; [intros x Hx Hxn; by apply Hu1|intros m Hm; by apply Hu2]. }
    apply planMembers_spec in Hp as [H1 H2]; [|done].
    assert (forall y, segment y -> at_ (showAbs (dir ++ [y])) = dir ++ [y]) as Hat.
    { intros y Hy. apply resolve_showAbs. apply Forall_app. split; [done|by apply Forall_singleton]. }
    split.
    + intros a Ha. destruct (H1 a Ha) as (? & y & Hy & Ea & Ht & _). split; [done|]. exists (dir ++ [y]). split; [done|].
      apply child_unused; [done..|destruct Hpre as [k ->]; rewrite <- app_assoc; by apply apart_app|done].
    + intros a b Ha Hb Hp. apply H2; [done..|]. destruct (H1 a Ha) as (_ & y & Hy & Ea & _), (H1 b Hb) as (_ & z & Hz & Eb & _).
      rewrite Ea, Eb, !Hat in * by done. destruct Hp as [k Hk]. rewrite <- app_assoc in Hk. apply app_inv_head in Hk. by injection Hk as ->.
  - destruct legacy as [|[o e] legacy]; [done|]. intros (p & Hp & [= <-])%bind_Ok. apply folderFor_spec in Hp as (s & Hs & -> & Ht). split.
    + intros a ->%list_elem_of_singleton. split; [by left|]. exists (root ++ [utf8 s]). split; [done|by apply Hroot].
    + by intros a b ->%list_elem_of_singleton ->%list_elem_of_singleton.
Qed.

Lemma plan_safe w0 w legacy l t : safe w0 w -> legacy_ok w legacy ->
  (forall a, a ∈ l -> a.1 ∈ legacy.*1 /\ exists n, a.2 = showAbs n /\ unused w n) -> (forall a b, a ∈ l -> b ∈ l -> at_ a.2 `prefix_of` at_ b.2 -> a = b) ->
  safe w0 (set_store (planWorkspaceMoves (store w) l t).1 w).
Proof.
  intros Hs Hok H1 H2. pose proof (stored_plan (store w) l t) as Hst. unfold planWorkspaceMoves in *.
  destruct (Conversations.insertMoves l t (moves (store w))) as [ms|] eqn:Ei; [|by destruct w, Hs]. cbn [fst] in *.
  destruct Hs as [Hl [Hlen Hk]]. apply insertMoves_spec in Ei as [Hin Hnd].
  assert (forall a, a ∈ l -> exists n, a.2 = showAbs n /\ at_ a.2 = n /\ unused w n) as H1'.
  { intros a Ha. destruct (H1 a Ha) as (_ & n & En & Hu). exists n. split_and!; [done| |done]. rewrite En. apply resolve_showAbs, Hu. }
  assert (moves (Conversations.set_moves ms (store w)) = ms) as Em by done.
  split; [constructor; cbn [store set_store files]; rewrite ?Hst, ?Em|split; cbn [store set_store]; rewrite ?Hst].
  - apply (lo_canon _ Hl).
  - apply (lo_stored _ Hl).
  - intros m [Hm|(a & Ha & ->)]%Hin; [by apply (lo_move _ Hl)|]. cbn [Conversations.mv_old Conversations.mv_new].
    destruct (H1 a Ha) as [(b & -> & Hb)%list_elem_of_fmap (n & En & Hu)]. destruct (Hok b Hb) as (? & ? & _). split_and!; [done|done|]. exists n. split; [apply Hu|done].
  - intros m x [Hm|(a & Ha & ->)]%Hin Hx Hxn; [by apply (lo_new _ Hl)|]. cbn [Conversations.mv_new]. destruct (H1' a Ha) as (n & _ & -> & Hu). by apply Hu.
  - intros m m' [Hm|(a & Ha & ->)]%Hin [Hm'|(b & Hb & ->)]%Hin; cbn [Conversations.mv_new Conversations.mv_old]; [by apply (lo_news _ Hl)|..].
    + destruct (H1' b Hb) as (n & _ & -> & _ & _ & Hu & _). intros Hp. by destruct (Hu m Hm) as [[] _].
    + destruct (H1' a Ha) as (n & _ & -> & _ & _ & Hu & _). intros Hp. by destruct (Hu m' Hm') as [_ []].
    + intros Hp. by rewrite (H2 a b Ha Hb Hp).
  - apply Hnd, (lo_olds _ Hl).
  - apply (lo_tree _ Hl).
  - apply (lo_state _ Hl).
  - intros m [Hm|(a & Ha & ->)]%Hin; [by apply (lo_state_new _ Hl)|]. cbn [Conversations.mv_new]. destruct (H1' a Ha) as (n & _ & -> & Hu). apply Hu.
  - done.
  - intros i x0 x Hi0 Hi Hne Hd. destruct (Hk i x0 x Hi0 Hi Hne Hd) as [? [?|(m & Hm & ? & ? & ?)]]; split; auto. right.
    exists m. split_and!; [|done..]. cbn [store set_store]. rewrite Em. apply Hin. by left.
Qed.

(** ** Runs *)

Definition listed (st : list string) (c : OwnedWorkspaces) : Prop :=
  workspace (ow_row c) ∈ st /\ forall p, p ∈ ow_participants c -> p_workspace p ∈ st.

Lemma groupParticipants_sub l i p : p ∈ nullish (mget i (Conversations.groupParticipants l)) [] -> p ∈ l.
Proof.
  unfold Conversations.groupParticipants.
  match goal with |- context [fold_left ?f l []] => assert (forall l acc i p, p ∈ nullish (mget i (fold_left f l acc)) [] -> p ∈ nullish (mget i acc) [] \/ p ∈ l) as H end.
  { clear. induction l as [|x l IH]; intros acc i p Hp; cbn [fold_left] in Hp; [by left|]. apply IH in Hp as [Hp|Hp]; [|right; by right].
    rewrite mget_mset in Hp. destruct (String.eqb_spec i (Conversations.p_conversation_id x)) as [->|]; [|by left].
    cbn [nullish default from_option id] in Hp. apply elem_of_app in Hp as [?| ->%list_elem_of_singleton]; [by left|right; by left]. }
  intros [Hp|Hp]%H; [by apply not_elem_of_nil in Hp|done].
Qed.

Lemma all_listed s c : c ∈ listAllConversationWorkspaces s -> listed (stored s) c.
Proof.
  unfold listAllConversationWorkspaces, Conversations.withParticipants. intros (r & -> & Hr)%list_elem_of_fmap. apply elem_of_order_by in Hr.
  unfold listed, stored. cbn [ow_row ow_participants]. split.
  - apply elem_of_app. left. by apply list_elem_of_fmap_2.
  - intros p Hp%groupParticipants_sub%elem_of_order_by. apply elem_of_app. right. by apply list_elem_of_fmap_2.
Qed.

Notation wpc := (wpc eq).

Lemma planConversation_safe w0 w c : safe w0 w -> listed (stored (store w)) c ->
  wpc (planConversation units sha256 localDate cwd root c) (fun r w' => r = Ok tt /\ safe w0 w' /\ stored (store w') = stored (store w)) (safe w0) w.
Proof.
  intros Hs [Hr Hp]. apply wpc_atomically; [done|]. intros os.
  destruct (legacyWorkspaces _ _ c _) as [|a legacy] eqn:El; [done|].
  assert (legacy_ok w (a :: legacy)) as Hok.
  { intros b Hb. rewrite <- El in Hb. apply legacyWorkspaces_spec in Hb as (Hn & Hl & Hin). split_and!; [|done|by apply legacy_at].
    apply elem_of_app in Hin as [(p & -> & Hin)%list_elem_of_fmap| ->%list_elem_of_singleton]; auto. }
  destruct (plan _ _ _ _ _ w c _ (now os)) as [l|] eqn:Epl; [|done]. cbn [fst snd].
  destruct (refuses os); [done|]. apply plan_spec in Epl as [H1 H2]; [|apply Hs|done|done|done].
  assert (safe w0 (set_store (planWorkspaceMoves (store w) l (now os)).1 w)) by (by eapply plan_safe).
  split; [done|]. split_and!; [done|done|]. apply stored_plan.
Qed.

Lemma planAll_safe w0 cs w : safe w0 w -> Forall (listed (stored (store w))) cs ->
  wpc (planAll units sha256 localDate cwd root cs) (fun r w' => r = Ok tt /\ safe w0 w') (safe w0) w.
Proof.
  revert w. induction cs as [|c cs IH]; intros w Hs Hc; cbn [planAll]; [done|]. inversion Hc; subst. apply wpc_bind.
  eapply wpc_mono; [|by apply planConversation_safe]. intros r w' (-> & Hs' & Hst). apply IH; [done|]. by rewrite Hst.
Qed.

(** What one call of [finishMove] leaves: the move is gone exactly when it reports success. *)
Definition recorded (w0 : Host) (ms : list Conversations.WorkspaceMove) (o : string) (r : result move_error bool) (w : Host) : Prop :=
  safe w0 w /\ moves (store w) = match r with Ok true => sql_delete (fun m => String.eqb (mv_old m) o) ms | _ => ms end.

Lemma recordMove_safe w0 w m : safe w0 w -> m ∈ moves (store w) -> files w (at_ (mv_old m)) = None ->
  wpc (_ ← recordMove (mv_old m) (mv_new m); mret true) (recorded w0 (moves (store w)) (mv_old m)) (safe w0) w.
Proof.
  intros Hs Hm Hnone. apply wpc_bind, wpc_atomically; [done|]. intros os. destruct (refuses os); cbn [fst snd]; [done|].
  assert (safe w0 (set_store (finishWorkspaceMove (store w) (mv_old m) (mv_new m)) w)) as Hs' by (by apply record_safe). done.
Qed.

Lemma moveState_safe w0 w m : safe w0 w -> m ∈ moves (store w) -> files w (at_ (mv_old m)) = None ->
  wpc (_ ← moveState sha256 cwd agentDir (mv_old m) (mv_new m); _ ← recordMove (mv_old m) (mv_new m); mret true)
    (recorded w0 (moves (store w)) (mv_old m)) (safe w0) w.
Proof.
  intros Hs Hm Hnone. apply wpc_bind. unfold moveState. split; [done|]. intros _.
  destruct (_ && _); [|split; [done|]; by apply recordMove_safe]. apply wpc_atomically; [done|]. intros os.
  destruct (refuses os); [done|]. destruct (rename _ _ _) as [d|] eqn:Ed; [|done]. cbn [fst snd].
  apply (state_safe w0) in Ed as [Hs' Hf]; [|done|eexists [_]; unfold hindsightStateDir; rewrite <- app_assoc; reflexivity..].
  split; [done|]. apply (recordMove_safe w0 (set_files d w) m Hs' Hm). destruct Hs as [Hl _]. destruct (lo_move _ Hl m Hm) as (Hin & Hne & _).
  cbn [files set_files]. by rewrite <- (app_nil_r (at_ _)), Hf, app_nil_r.
Qed.

Lemma finishMove_safe w0 w m : safe w0 w -> m ∈ moves (store w) ->
  wpc (finishMove sha256 cwd agentDir hidden (mv_old m) (mv_new m)) (recorded w0 (moves (store w)) (mv_old m)) (safe w0) w.
Proof.
  intros Hs Hm. unfold finishMove. apply wpc_bind, wpc_atomically; [done|]. intros os.
  rewrite examinable. destruct (files w (at_ (mv_old m))) as [[|b|b]|] eqn:Eo; cbn [fst snd]; try done.
  - destruct (existsNode _ _); cbn [fst snd]; [done|]. destruct (refuses os); cbn [fst snd]; [done|].
    destruct (mkdirp _ _) as [d|] eqn:Ed; cbn [fst snd]; [|done]. pose proof (mkdir_safe w0 w m d Hs Hm Ed) as Hs1. split; [done|].
    apply mkdirp_spec in Ed as (_ & _ & Hkeep & _); [|apply Hs]. assert (d (at_ (mv_old m)) = Some Directory) as Hd by (rewrite Hkeep; [done|congruence]).
    apply wpc_bind, wpc_atomically; [done|]. intros os1. destruct (refuses os1); cbn [fst snd]; [done|].
    destruct (rename _ _ _) as [d1|] eqn:Ed1; cbn [fst snd]; [|done].
    destruct (rename_safe w0 (set_files d w) m d1 Hs1 Hm Hd Ed1) as [Hs2 Hn]. split; [done|]. by apply (moveState_safe w0 (set_files d1 (set_files d w))).
  - split; [done|]. apply wpc_bind. split; [done|]. by apply moveState_safe.
Qed.

(** All pending moves one after the other. *)
Definition all_recorded (w0 w : Host) (l : list (string * string)) (pending : nat) (r : result move_error (nat * nat)) (w' : Host) : Prop :=
  safe w0 w' /\ exists moved' pending', r = Ok (moved', pending') /\ (pending <= pending')%nat
  /\ (pending' = pending -> forall m, m ∈ moves (store w') -> m ∈ moves (store w) /\ mv_old m ∉ l.*1).

Lemma finishAll_safe w0 l moved pending w : safe w0 w -> NoDup l.*1 -> (forall p, p ∈ l -> exists m, m ∈ moves (store w) /\ p = (mv_old m, mv_new m)) ->
  wpc (finishAll sha256 cwd agentDir hidden l moved pending) (all_recorded w0 w l pending) (safe w0) w.
Proof.
  revert moved pending w. induction l as [|p l IH]; intros moved pending w Hs Hnd Hl.
  { split; [done|]. split; [done|]. exists moved, pending. split_and!; [done|done|]. intros _ m Hm. split; [done|]. apply not_elem_of_nil. }
  destruct (Hl p) as (m & Hm & ->); [by left|]. apply NoDup_cons in Hnd as [Hout Hnd].
  apply wpc_afterwards. eapply wpc_mono; [|by apply finishMove_safe]. intros r w1 [Hs1 Em].
  assert (forall moved' pending', (pending <= pending')%nat -> (moves (store w1) = moves (store w) /\ pending < pending' \/
      moves (store w1) = sql_delete (fun m' => String.eqb (mv_old m') (mv_old m)) (moves (store w)))%nat ->
      wpc (finishAll sha256 cwd agentDir hidden l moved' pending') (all_recorded w0 w ((mv_old m, mv_new m) :: l) pending) (safe w0) w1) as Hgo.
  { intros moved' pending' Hle Hcase. eapply wpc_mono; [|apply IH; [done|done|]].
    - intros r' w2 (Hs2 & moved2 & pending2 & -> & Hle2 & Hfin). split; [done|]. exists moved2, pending2. split_and!; [done|lia|].
      intros -> m2 Hm2. destruct Hcase as [[_ ?]|Ed]; [lia|]. destruct (Hfin ltac:(lia) m2 Hm2) as [Hin Hno]. rewrite Ed in Hin.
      apply elem_of_sql_delete in Hin as [Hin Hne]. boolify. split; [done|]. cbn. by apply not_elem_of_cons.
    - intros q Hq. destruct (Hl q ltac:(by right)) as (m' & Hm' & ->). exists m'. split; [|done]. destruct Hcase as [[-> _]| ->]; [done|].
      apply elem_of_sql_delete. split; [done|]. apply String.eqb_neq. intros He. apply Hout. cbn. rewrite <- He. by apply (list_elem_of_fmap_2 fst _ (mv_old m', mv_new m')). }
  destruct r as [[]|e]; apply Hgo; rewrite ?Em; auto with lia.
Qed.

Notation migrate := (migrateWorkspaceLayout units sha256 localDate cwd root agentDir hidden).

Lemma migrate_safe w0 w : safe w0 w ->
  wpc migrate (fun r w' => safe w0 w' /\ exists moved pending, r = Ok (moved, pending) /\ (pending = 0%nat -> moves (store w') = [])) (safe w0) w.
Proof.
  intros Hs. split; [done|]. intros _. apply wpc_bind. eapply wpc_mono; [|apply (planAll_safe w0); [done|]].
  2:{ apply Forall_forall. intros c Hc. by apply all_listed. }
  intros r w1 [-> Hs1]. split; [done|]. intros _. eapply wpc_mono; [|apply finishAll_safe; [done|..]].
  - intros r w2 (Hs2 & moved & pending & -> & _ & Hfin). split; [done|]. exists moved, pending. split; [done|]. intros ->.
    destruct (moves (store w2)) as [|m ms] eqn:Em; [done|]. destruct (Hfin eq_refl m) as [Hin Hno]; [by left|]. exfalso. apply Hno.
    unfold listWorkspaceMoves. rewrite <- list_fmap_compose. apply list_elem_of_fmap. exists m. split; [done|]. by apply elem_of_order_by.
  - unfold listWorkspaceMoves. rewrite <- list_fmap_compose. destruct Hs1 as [Hl _]. eapply NoDup_Permutation_proper; [|apply (lo_olds _ Hl)].
    apply (fmap_Permutation mv_old), order_by_perm.
  - intros p. unfold listWorkspaceMoves. intros (m & -> & Hm)%list_elem_of_fmap. exists m. split; [by apply elem_of_order_by in Hm|done].
Qed.

(** Any number of starts, each cut off anywhere or run to its end. *)
Inductive started (w0 : Host) : Host -> Prop :=
| started_first : started w0 w0
| started_again w w' : started w0 w -> stops eq w migrate w' -> started w0 w'.

Lemma started_safe w0 w : layout_ok w0 -> started w0 w -> safe w0 w.
Proof.
  intros H0. induction 1 as [|w w' _ IH Hst]; [|by eapply wpc_stops; [apply migrate_safe, IH|]].
  split; [done|]. split; [done|]. intros i x0 x H1 H2 Hne Hd. assert (x0 = x) as <- by congruence. split; [done|]. left. by intros k.
Qed.

(** C19. Moving folders loses nothing, wherever a crash strikes: from a store and disk in order
    ([layout_ok]: stored paths are normalised and none lies inside another, pending moves lead to
    places apart from everything in use), and with no folder hidden from [lstatSync], after any
    number of starts, each cut off after any durable effect and with any directory creation,
    rename or write refused, the folder of every conversation and participant still holds exactly
    what it held, either at its stored path or at the target of a pending move that the next
    start will record.  Every further start returns, and when it reports no pending move, none is
    left and every folder is at its stored path.  A folder that exists but cannot be examined is
    lost from view: [hidden_folder_is_lost]. *)
Theorem migration_is_crash_safe w0 w : layout_ok w0 -> started w0 w ->
  nothing_lost w0 w
  /\ forall log r w', runs eq w migrate log r w' -> nothing_lost w0 w' /\ exists moved pending, r = Ok (moved, pending)
     /\ (pending = 0%nat -> moves (store w') = [] /\ forall i x0 x, stored (store w0) !! i = Some x0 -> stored (store w') !! i = Some x ->
           x0 <> ""%string -> files w0 (at_ x0) = Some Directory -> folder_kept w0 w' x0 x).
Proof.
  intros H0 Hst. pose proof (started_safe w0 w H0 Hst) as Hs. split; [apply Hs|]. intros log r w' Hrun.
  destruct (wpc_runs _ _ _ _ _ _ _ _ (migrate_safe w0 w Hs) Hrun) as [(Hs' & moved & pending & -> & Hfin) _].
  split; [apply Hs'|]. exists moved, pending. split; [done|]. intros Hp. specialize (Hfin Hp). split; [done|].
  intros i x0 x Hi0 Hi Hne Hd. destruct Hs' as [_ [_ Hk]]. destruct (Hk i x0 x Hi0 Hi Hne Hd) as [_ [H|(m & Hm & _)]]; [done|].
  rewrite Hfin in Hm. by apply not_elem_of_nil in Hm.
Qed.
End Safe.

(** ** Instance: one private chat whose folder holds one file *)

Definition demoOld : string := "/ws/conversation-0123456789abcdef01234567".
Definition demoEntries : list (abs * node) :=
  [([], Directory); (["ws"], Directory); (["ws"; "conversation-0123456789abcdef01234567"], Directory);
   (["ws"; "conversation-0123456789abcdef01234567"; "a.txt"], File "hello")]%string.
Definition demoDisk : disk := fun k => snd <$> List.find (fun e => bool_decide (e.1 = k)) demoEntries.
Definition demoChat : Conversations.ConversationRow :=
  Conversations.mkRow "c1" "f" demoOld (Some "Notes"%string) None None "private" [] Conversations.Active (Some "e1"%string) None None (Some "t"%string) (Some "m"%string)
    None 0 Conversations.ReadOnly None 0 0.
Definition demoStore : Store :=
  Conversations.mkStore [demoChat] [] [] [] [] [] [] [] [] (Automation.mkAutomation [] [] [] []) WorkRecords.emptyDb [].
Definition demoStart : Host := mkHost demoStore Projections.emptyProjections demoDisk.
Definition demoMigrateHiding (hidden : abs -> bool) : prog (nat * nat) := migrateWorkspaceLayout u demoHex (fun _ => (2026, 1, 2)) [] ["ws"%string] ["agent"%string] hidden.
Definition demoMigrate : prog (nat * nat) := demoMigrateHiding (fun _ => false).

(** A folder that is there but cannot be examined is taken for gone: it stays where it is, and the
    stored path changes to a place where there is nothing. *)
Example hidden_folder_is_lost :
  let (r, w) := run_alone (mkOs false 0) (fun q : Empty_set => match q with end) (demoMigrateHiding (fun p => bool_decide (p = at_ [] demoOld))) demoStart in
  r = Ok (1, 0)%nat /\ moves (store w) = [] /\ stored (store w) = ["/ws/Notes-012345"%string] /\ files w (at_ [] "/ws/Notes-012345") = None
  /\ files w (at_ [] demoOld) = Some Directory.
Proof. vm_compute. repeat split. Qed.

Lemma demo_tree : tree demoDisk.
Proof.
  intros k x H. destruct (demoDisk (k ++ [x])) as [n|] eqn:E; [|done]. clear H. unfold demoDisk in E. destruct (List.find _ _) as [e|] eqn:Ef; [|done].
  apply List.find_some in Ef as [Hin Hb]. apply bool_decide_eq_true in Hb. assert (dirname e.1 = k) as <-.
  { rewrite Hb. unfold dirname. rewrite length_app. cbn. rewrite Nat.add_1_r. cbn. apply take_app_length. }
  assert (e.1 = [] \/ passable (demoDisk (dirname e.1)) = true) as [He|]; [|rewrite He in Hb; discriminate Hb|done].
  destruct Hin as [<-|[<-|[<-|[<-|[]]]]]; [by left|right; reflexivity..].
Qed.

Lemma demo_layout : layout_ok [] ["agent"%string] demoStart.
Proof.
  assert (forall x, x ∈ stored (store demoStart) -> x = demoOld) as Hx by (intros x Hx; by apply list_elem_of_singleton in Hx).
  assert (forall m, m ∉ moves (store demoStart)) as Hm by (intros m; apply not_elem_of_nil).
  constructor; try (by intros ? []%Hm); try (by intros ? ? []%Hm).
  - intros x ->%Hx _. exists ["ws"; "conversation-0123456789abcdef01234567"]%string. split; [|done].
    repeat (apply Forall_cons; split; [by split_and!|]). constructor.
  - by intros x y ->%Hx ->%Hx.
  - constructor.
  - apply demo_tree.
  - intros x ->%Hx _. split; intros [k Hk]; vm_compute in Hk; discriminate Hk.
Qed.

Lemma migration_is_crash_safe_witness :
  let end_ := (run_alone (mkOs false 0) (fun q : Empty_set => match q with end) demoMigrate demoStart).2 in
  stored (store end_) = ["/ws/Notes-012345"%string] /\ folder_kept [] demoStart end_ demoOld "/ws/Notes-012345"%string.
Proof.
  intros end_. assert (stored (store end_) = ["/ws/Notes-012345"%string]) as Hst by (vm_compute; reflexivity). split; [exact Hst|].
  destruct (migration_is_crash_safe u demoHex (fun _ => (2026, 1, 2)) [] ["ws"%string] ["agent"%string] (fun _ => false) (fun _ => eq_refl) ltac:(constructor)
    ltac:(apply Forall_singleton; by split_and!) ltac:(split; intros [k Hk]; discriminate Hk) ltac:(intros; repeat constructor)
    demoStart demoStart demo_layout (started_first _ _ _ _ _ _ _ _)) as [_ H].
  destruct (H _ _ _ (run_alone_runs eq (mkOs false 0) (fun q : Empty_set => match q with end) demoMigrate demoStart (fun _ => eq_refl)))
    as (_ & moved & pending & Hr & Hfin).
  assert ((run_alone (mkOs false 0) (fun q : Empty_set => match q with end) demoMigrate demoStart).1 = Ok (1, 0)%nat) as E by (vm_compute; reflexivity).
  rewrite E in Hr. injection Hr as <- <-. destruct (Hfin eq_refl) as [_ Hk]. apply (Hk 0%nat); [reflexivity|exact (f_equal (fun l : list string => l !! 0%nat) Hst)|done|reflexivity].
Defined.
