(* ===== verification/Redact.v ===== *)
(** Hiding credentials and paths in texts (pi/event-sse.ts, [redactSecrets], [safeText],
    [failureText], [safeMessageText]).

    Texts are UTF-16 code units.  The patterns have the flags [gi] without [u], so only ASCII
    letters match in either case.  [replaceWith] is [String.prototype.replace] with a global
    pattern and a callback: [m] returns the replacement of a match at the start of a text and
    the rest. *)

From S2P Require Import Prelude Decimal Regex.
Local Open Scope Z_scope.

Definition foldAscii (c : Z) : Z := if (65 <=? c) && (c <=? 90) then c + 32 else c.
Definition IChar (c : Z) : re := RChar (fun x => foldAscii x =? foldAscii c).
Fixpoint IText (s : text) : re := match s with [] => REps | c :: s => RSeq (IChar c) (IText s) end.
Definition ISet (l : text) : re := RChar (fun x => existsb (fun c => foldAscii x =? foldAscii c) l).
Definition isAlnum (c : Z) : bool := let c := foldAscii c in ((97 <=? c) && (c <=? 122)) || ((48 <=? c) && (c <=? 57)).
(** [.] without the flag [s]. *)
Definition isDot (c : Z) : bool := negb ((c =? 10) || (c =? 13) || (c =? 8232) || (c =? 8233)).
Definition ISpaced (a b : string) : re := RSeq (IText (u a)) (RSeq (ROpt (RChar isDot)) (IText (u b))).

Fixpoint replaceWithFrom (fuel : nat) (m : option Z -> text -> option (text * text)) (before : option Z) (s : text) : text :=
  match fuel with
  | O => s
  | S fuel =>
      match s with
      | [] => []
      | c :: s' =>
          match m before s with
          | Some (by_, rest) =>
              if (length rest <? length s)%nat
              then by_ ++ replaceWithFrom fuel m (last (take (length s - length rest) s)) rest
              else c :: replaceWithFrom fuel m (Some c) s'
          | None => c :: replaceWithFrom fuel m (Some c) s'
          end
      end
  end.
Definition replaceWith (m : option Z -> text -> option (text * text)) (s : text) : text := replaceWithFrom (length s) m None s.

(** ** Patterns *)

Definition SECRET_KEY : re :=
  RAlts [IText (u "authorization"); ISpaced "access" "token"; ISpaced "refresh" "token"; IText (u "token"); ISpaced "api" "key";
         IText (u "credential"); IText (u "secret"); IText (u "password"); ISpaced "session" "file"; IText (u "workspace"); IText (u "cwd");
         IText (u "path"); IText (u "filename"); ISpaced "file" "path"; ISpaced "private" "key"].
Definition UNSAFE_VALUE_KEYS : list text := [u "api"; u "provider"; u "model"; u "raw"; u "headers"; u "request"; u "diagnostics"; u "session"].
Definition secretKey (k : text) : bool := test SECRET_KEY k.
Definition unsafeValueKey (k : text) : bool := bool_decide (map foldAscii k ∈ UNSAFE_VALUE_KEYS).

Definition INLINE_SECRET : re :=
  RAlt (RSeq (RAlts [RSeq (IText (u "bearer")) (RPlus (RChar is_space)); RSeq (IText (u "basic")) (RPlus (RChar is_space));
                     RSeq (RAlts [IText (u "sk"); IText (u "pk"); IText (u "rk")]) (IText (u "-"))])
             (RPlus (RChar (fun c => isAlnum c || existsb (Z.eqb c) (u "._~+/=-")))))
       (RSeq (RAlts [IText (u "token"); IText (u "secret"); IText (u "password"); RSeq (IText (u "api")) (RSeq (ROpt (ISet (u " _-"))) (IText (u "key")))])
             (RSeq (RStar (RChar is_space)) (RSeq (ISet (u ":=")) (RSeq (RStar (RChar is_space)) (RPlus (RNot (fun c => is_space c || (c =? 44) || (c =? 59)))))))).

(** The group of [URL_SECRET_PARAM] and what follows it.  The group ends at the first equals
    sign, so it can be matched before the value. *)
Definition URL_PARAM_NAME : re :=
  RSeq (ISet (u "?&;")) (RSeq (RStar (RSeq (RPlus (RChar isAlnum)) (ISet (u "_.-"))))
    (RSeq (RAlts [IText (u "key"); IText (u "apikey"); IText (u "token"); IText (u "secret"); IText (u "signature"); IText (u "sig"); IText (u "password");
                  IText (u "passwd"); IText (u "pwd"); IText (u "credential"); IText (u "auth")]) (IText (u "=")))).
Definition URL_PARAM_VALUE : re := RPlus (RNot (fun c => is_space c || existsb (Z.eqb c) [38; 35; 34; 39; 60; 62])).

(** Brackets, quotes, white space and the sentence punctuation a path stops at. *)
Definition pathStop (c : Z) : bool :=
  is_space c || existsb (Z.eqb c) [34; 39; 60; 62; 40; 41; 91; 93; 123; 125; 65292; 12290; 65307; 65306; 65281; 65311; 12289; 65289; 12305; 12299; 12301; 12303].
Definition INLINE_PATH : re :=
  RAlt (RSeq (IText (u "/")) (RSeq
          (RAlts [IText (u "Users"); IText (u "Volumes"); IText (u "private"); IText (u "home"); IText (u "tmp"); IText (u "var"); IText (u "workspace");
                  IText (u "etc"); IText (u "root"); IText (u "opt"); IText (u "srv"); IText (u "mnt"); IText (u "data")])
          (RStar (RSeq (IText (u "/")) (RStar (RNot pathStop))))))
       (RSeq (RChar (fun c => let c := foldAscii c in (97 <=? c) && (c <=? 122))) (RSeq (IText (u ":\")) (RStar (RNot pathStop)))).

(** ** Texts *)

(** What a match consumed. *)
Definition consumed (s rest : text) : text := take (length s - length rest) s.

Definition secretAt (before : option Z) (s : text) : option (text * text) :=
  match (rest ← matchAt URL_PARAM_NAME before s; end_ ← matchAt URL_PARAM_VALUE None rest; Some (consumed s rest ++ HIDDEN, end_)) with
  | Some r => Some r
  | None => (fun rest => (HIDDEN, rest)) <$> matchAt INLINE_SECRET before s
  end.
Definition redactSecrets (value : text) : text := replaceWith secretAt value.

Definition isTrailing (c : Z) : bool := existsb (Z.eqb c) (u ".,;:!?").
Fixpoint trailingRun (s : text) : text :=
  match s with [] => [] | c :: s' => if forallb isTrailing s then s else trailingRun s' end.
Definition pathAt (before : option Z) (s : text) : option (text * text) :=
  (fun rest => (HIDDEN_PATH ++ trailingRun (consumed s rest), rest)) <$> matchAt INLINE_PATH before s.
Definition redactInlinePaths (value : text) : text := replaceWith pathAt value.

Definition boundText (value : text) (max : nat) : text := if (length value <=? max)%nat then value else take (max - 1) value ++ [8230].

Definition safeText (value : text) (max : nat) : text := boundText (redactInlinePaths (redactSecrets value)) max.
Definition safeMessageText (value : text) (max : nat) : text := boundText (redactSecrets value) max.

Fixpoint dropTrailingSlashes (s : text) : text :=
  match s with [] => [] | c :: s' => if forallb (fun c => (c =? 47) || (c =? 92)) s then [] else c :: dropTrailingSlashes s' end.
Fixpoint stripPrefix (p s : text) : option text :=
  match p, s with [], _ => Some s | c :: p, d :: s => if c =? d then stripPrefix p s else None | _ :: _, [] => None end.
Definition homeEnd (c : Z) : bool := is_space c || existsb (Z.eqb c) [92; 47; 34; 39; 60; 62; 40; 41; 91; 93; 123; 125].
Definition homeAt (root : text) (before : option Z) (s : text) : option (text * text) :=
  rest ← stripPrefix root s; if match rest with [] => true | c :: _ => homeEnd c end then Some (u "~", rest) else None.
Definition shortenHome (value home : text) : text :=
  let root := dropTrailingSlashes home in if (length root <? 2)%nat then value else replaceWith (homeAt root) value.
Definition MAX_FAILURE_MESSAGE_CHARS : nat := Z.to_nat 1000.
Definition failureText (value home : text) : text := boundText (shortenHome (redactSecrets value) home) MAX_FAILURE_MESSAGE_CHARS.

(** ** Examples *)

Example redact_url : redactSecrets (u "see https://h/x?access_token=abc&lang=en") = u "see https://h/x?access_token=" ++ HIDDEN ++ u "&lang=en".
Proof. vm_compute. reflexivity. Qed.
Example redact_bearer : redactSecrets (u "Authorization: Bearer abc.def") = u "Authorization: " ++ HIDDEN.
Proof. vm_compute. reflexivity. Qed.
Example redact_path : redactInlinePaths (u "(see /tmp/a/b.txt.)") = u "(see " ++ HIDDEN_PATH ++ u ".)".
Proof. vm_compute. reflexivity. Qed.
Example redact_home : shortenHome (u "/Users/ed/x and /Users/edy/x") (u "/Users/ed/") = u "~/x and /Users/edy/x".
Proof. vm_compute. reflexivity. Qed.

(** A credential that follows its scheme after an assignment survives: the assignment rule
    takes the scheme word as the value and hides it, and the credential itself stays. *)
Theorem bearer_after_assignment_leaks : safeText (u "token: Bearer abc123") (Z.to_nat 4000) = HIDDEN ++ u " abc123".
Proof. vm_compute. reflexivity. Qed.
