(* ===== verification/EventSse.v ===== *)
(** The boundary between the agent runtime and the client (pi/event-sse.ts): which events and
    entries are shown, with which fields, and how their values are cut down.

    Runtime values are trees ([val]): [VObj plain l] is an object with its own members in
    property order, [plain] when its prototype is that of object literals; [VFunc] stands for
    functions and other values JSON has no text for.  A number carries the text JSON prints for
    it and what the code asks of it.  [parseJson] is [JSON.parse], [dateParse] is [Date.parse]
    and [home] the home directory.  Cyclic objects are outside the model; the code cuts them at
    the same depth. *)

From S2P Require Import Prelude Decimal Regex Redact IsoTime.
From S2P Require Redaction.
Local Open Scope Z_scope.

Inductive numkind : Type := NInt (z : Z) | NFrac (floor : Z) | NNonFinite.
Inductive val : Type :=
| VUndef | VNull | VBool (b : bool) | VNum (printed : text) (k : numkind) | VStr (s : text)
| VArr (l : list val) | VObj (plain : bool) (l : list (text * val)) | VFunc.
Notation fields := (list (text * val)).

(** ** Values *)

Definition getf (o : fields) (k : string) : val := nullish (snd <$> List.find (fun f => bool_decide (f.1 = u k)) o) VUndef.
Definition hasOwn (o : fields) (k : string) : bool := existsb (fun f => bool_decide (f.1 = u k)) o.
Definition asRecord (v : val) : option fields := match v with VObj _ l => Some l | _ => None end.
Definition strOf (v : val) : option text := match v with VStr s => Some s | _ => None end.
Definition isText (v : val) (s : string) : bool := match v with VStr t => bool_decide (t = u s) | _ => false end.
Definition isOneOf (v : val) (l : list string) : bool := existsb (isText v) l.
Definition nonEmptyText (s : option text) : option text := match s with Some (c :: s) => Some (c :: s) | _ => None end.
(** [r.k = v] for a fixed name [k]. *)
Definition put (k : string) (v : val) (r : fields) : fields :=
  if hasOwn r k then map (fun f => if bool_decide (f.1 = u k) then (f.1, v) else f) r else r ++ [(u k, v)].
Definition putText (k : string) (v : option text) (r : fields) : fields := match v with Some s => put k (VStr s) r | None => r end.
Definition putVal (k : string) (v : option val) (r : fields) : fields := match v with Some s => put k s r | None => r end.
Definition isUndef (v : val) : bool := match v with VUndef => true | _ => false end.

(** [JSON.stringify] and [Buffer.byteLength] of its text. *)
Fixpoint toJson (v : val) : Redaction.json :=
  match v with
  | VUndef | VFunc => Redaction.JUndef
  | VNull => Redaction.JNull
  | VBool b => Redaction.JBool b
  | VNum _ NNonFinite => Redaction.JNull
  | VNum t _ => Redaction.JNum t
  | VStr s => Redaction.JStr s
  | VArr l => Redaction.JArr (map toJson l)
  | VObj _ l => Redaction.JObj (map (fun kv => match kv with (k, x) => (k, toJson x) end) l)
  end.
Definition jsonBytes (v : val) : Z := byteLength (nullish (Redaction.stringify (toJson v)) []).

(** ** Limits *)

Definition ALLOWED_EVENTS : list string :=
  ["agent_start"; "agent_end"; "agent_settled"; "message_update"; "message_end"; "tool_execution_start"; "tool_execution_update"; "tool_execution_end";
   "auto_retry_start"; "auto_retry_end"; "compaction_start"; "compaction_end"; "approval_required"]%string.
Definition TOOL_EVENTS : list string := ["tool_execution_start"; "tool_execution_update"; "tool_execution_end"]%string.
Definition ASSISTANT_EVENTS : list string :=
  ["start"; "text_start"; "text_delta"; "text_end"; "thinking_start"; "thinking_delta"; "thinking_end"; "toolcall_start"; "toolcall_delta"; "toolcall_end"; "done"; "error"]%string.
Definition STOP_REASONS : list string := ["stop"; "length"; "toolUse"; "deferred"; "aborted"; "error"]%string.
Definition FILE_TOOLS : list string := ["read"; "write"; "edit"]%string.
Definition MAX_EVENT_BYTES : Z := 24 * 1024.
Definition MAX_TEXT_CHARS : nat := Z.to_nat 4000.
Definition MAX_MESSAGE_TEXT_CHARS : nat := Z.to_nat 200000.
Definition MAX_TOOL_NAME_CHARS : nat := 128.
Definition MAX_IDENTIFIER_CHARS : nat := 256.
Definition MAX_FILE_NAME_CHARS : nat := 255.
Definition MAX_SOURCE_NAME_CHARS : nat := 256.
Definition MAX_OBJECT_KEYS : nat := 24.
Definition MAX_ARRAY_ITEMS : nat := 32.
Definition MAX_JSON_DEPTH : nat := 4.
Definition CONTEXT_RESET_ENTRY_TYPE : string := "aiteam_context_reset".
(** "[对象已省略]". *)
Definition OBJECT_OMITTED : text := [91; 23545; 35937; 24050; 30465; 30053; 93].

(** ** Cutting values down *)

Definition ownKeys {A} (l : list (text * A)) : list (text * A) :=
  Redaction.sortBy (fun a b => Redaction.unitsVal a.1 <=? Redaction.unitsVal b.1) (List.filter (fun kv => Redaction.isIndex kv.1) l)
  ++ List.filter (fun kv => negb (Redaction.isIndex kv.1)) l.

Fixpoint boundedValue (key : text) (depth : nat) (v : val) : val :=
  if secretKey key || unsafeValueKey key then VUndef
  else match v with
  | VNull | VBool _ | VNum _ _ => v
  | VStr s => VStr (safeText s MAX_TEXT_CHARS)
  | VUndef | VFunc => VUndef
  | VArr l =>
      if (MAX_JSON_DEPTH <=? depth)%nat then VStr OMITTED
      else VArr (List.filter (fun x => negb (isUndef x)) (take MAX_ARRAY_ITEMS (map (boundedValue [] (S depth)) l)))
  | VObj plain l =>
      if (MAX_JSON_DEPTH <=? depth)%nat then VStr OMITTED
      else if negb plain then VStr OBJECT_OMITTED
      else VObj true (ownKeys (List.filter (fun kv => negb (isUndef kv.2) && negb (Redaction.isProto kv.1))
                                 (take MAX_OBJECT_KEYS (map (fun kv => match kv with (k, x) => (k, boundedValue k (S depth) x) end) l))))
  end.

Definition boundedIdentifier (v : val) (max : nat) : option text :=
  match v with VStr s => if blank s then None else Some (safeText s max) | _ => None end.

Section Events.
Context (parseJson : text -> option val) (dateParse : text -> option Z) (home : text).

(** [[...].filter(...).map((part) => part.text).join("")]. *)
Definition textParts (l : list val) : text :=
  concat (omap (fun p => r ← asRecord p; if isText (getf r "type") "text" then strOf (getf r "text") else None) l).
Definition unwrapToolResult (v : val) : val :=
  match asRecord v with
  | None => v
  | Some raw =>
      let rest := if isUndef (getf raw "details") then v else getf raw "details" in
      match getf raw "content" with
      | VArr content =>
          match textParts content with
          | [] => rest
          | t => let bounded := safeText t MAX_TEXT_CHARS in nullish (parseJson bounded) (VObj true [(u "text", VStr bounded)])
          end
      | _ => rest
      end
  end.
Definition safeToolValue (v : val) : val := boundedValue [] 0 v.
Definition safeToolResult (v : val) : val := safeToolValue (unwrapToolResult v).

Inductive ToolKind : Type := Memory | Rag | TodoKind.
Definition kindText (k : ToolKind) : text := match k with Memory => u "memory" | Rag => u "rag" | TodoKind => u "todo" end.
Definition classifyToolKind (toolName : val) : option ToolKind :=
  if isText toolName "todo_update" then Some TodoKind
  else if isOneOf toolName ["knowledge_search"; "knowledge_get"] then Some Rag
  else if isOneOf toolName ["hindsight_recall"; "hindsight_retain"; "memory_recall"; "memory_retain"] then Some Memory
  else None.

(** *** Copying single fields *)

Definition copyToolName (raw r : fields) : fields := putText "toolName" (nonEmptyText (boundedIdentifier (getf raw "toolName") MAX_TOOL_NAME_CHARS)) r.
Definition copyIdentifier (raw : fields) (k : string) (r : fields) : fields := putText k (nonEmptyText (boundedIdentifier (getf raw k) MAX_IDENTIFIER_CHARS)) r.
Definition copyApprovalSummary (raw r : fields) : fields := putText "summary" ((fun s => boundText (redactSecrets s) MAX_TEXT_CHARS) <$> strOf (getf raw "summary")) r.
Definition copyText (raw : fields) (k : string) (r : fields) : fields := putText k ((fun s => safeText s MAX_TEXT_CHARS) <$> strOf (getf raw k)) r.
Definition copyFailure (raw : fields) (k : string) (r : fields) : fields := putText k ((fun s => failureText s home) <$> strOf (getf raw k)) r.
Definition copyInteger (raw : fields) (k : string) (r : fields) : fields :=
  match getf raw k with VNum t (NInt z) => if 0 <=? z then put k (VNum t (NInt z)) r else r | _ => r end.
Definition copyBoolean (raw : fields) (k : string) (r : fields) : fields := match getf raw k with VBool b => put k (VBool b) r | _ => r end.
Definition copyReason (raw r : fields) : fields :=
  match getf raw "reason" with VStr s => if isOneOf (VStr s) ["manual"; "threshold"; "overflow"] then put "reason" (VStr s) r else r | _ => r end.
Definition putKind (k : option ToolKind) (r : fields) : fields := putText "tool_kind" (kindText <$> k) r.

Definition serializeMetadata (extra : fields) : fields :=
  let id k r := putText k (nonEmptyText (boundedIdentifier (getf extra k) MAX_IDENTIFIER_CHARS)) r in
  let r := id "tool_call_id"%string (id "source_ref"%string (id "conversation_id"%string [])) in
  let r := id "source_employee_id"%string r in
  let r := putText "source_employee_display_name" (nonEmptyText (boundedIdentifier (getf extra "source_employee_display_name") MAX_SOURCE_NAME_CHARS)) r in
  match getf extra "source_role" with
  | VStr s => if isOneOf (VStr s) ["human"; "child"; "participant"; "coordinator"] then put "source_role" (VStr s) r else r
  | _ => r
  end.

(** *** Messages *)

Definition serializeToolCall (v : fields) : option fields :=
  let id := nonEmptyText (boundedIdentifier (getf v "id") MAX_IDENTIFIER_CHARS) in
  let name := nonEmptyText (boundedIdentifier (getf v "name") MAX_TOOL_NAME_CHARS) in
  match id, name with
  | None, None => None
  | _, _ =>
      let r := match getf v "type" with
               | VStr s => if isOneOf (VStr s) ["toolCall"; "tool_call"; "toolUse"; "tool_use"] then put "type" (VStr s) [] else []
               | _ => []
               end in
      let r := putText "name" name (putText "id" id r) in
      Some (if hasOwn v "arguments" then put "arguments" (safeToolValue (getf v "arguments")) r else r)
  end.

Definition serializePart (body : bool) (max : nat) (part : val) : option val :=
  raw ← asRecord part;
  match getf raw "type" with
  | VStr ty =>
      if bool_decide (ty = u "text") then
        t ← strOf (getf raw "text");
        let item := [(u "type", VStr (u "text")); (u "text", VStr (if body then safeMessageText t max else safeText t max))] in
        Some (VObj true (if body && (max <? length (redactSecrets t))%nat then item ++ [(u "truncated", VBool true)] else item))
      else if bool_decide (ty = u "thinking") then
        t ← strOf (getf raw "thinking"); Some (VObj true [(u "type", VStr (u "thinking")); (u "thinking", VStr (safeText t MAX_TEXT_CHARS))])
      else if bool_decide (ty = u "toolCall") then VObj true <$> serializeToolCall raw
      else if bool_decide (ty = u "image") then Some (VObj true [(u "type", VStr (u "image"))])
      else None
  | _ => None
  end.
Definition serializeContent (v : val) (body : bool) (max : nat) : option val :=
  match v with
  | VStr s => Some (VStr (if body then safeMessageText s max else safeText s max))
  | VArr l => Some (VArr (omap (serializePart body max) (take MAX_ARRAY_ITEMS l)))
  | _ => None
  end.

Definition finiteNumber (v : val) : bool := match v with VNum _ (NInt _ | NFrac _) => true | _ => false end.
Definition serializeMessage (v : val) (bodyMax : nat) : option fields :=
  raw ← asRecord v;
  match getf raw "role" with
  | VStr role =>
      if negb (isOneOf (VStr role) ["user"; "assistant"; "toolResult"]) then None
      else
        let tool := bool_decide (role = u "toolResult") in
        let r := [(u "role", VStr role)] in
        let r := if finiteNumber (getf raw "timestamp") then put "timestamp" (getf raw "timestamp") r else r in
        let content := if tool then serializeContent (getf raw "content") false MAX_TEXT_CHARS else serializeContent (getf raw "content") true bodyMax in
        let r := putVal "content" content r in
        let r := if bool_decide (role = u "assistant") then
                   let stop := getf raw "stopReason" in
                   let r := match stop with VStr s => if isOneOf stop STOP_REASONS then put "stopReason" (VStr s) r else r | _ => r end in
                   if isText stop "error" then putText "errorMessage" ((fun s => failureText s home) <$> strOf (getf raw "errorMessage")) r else r
                 else r in
        Some (if tool then
                let r := copyBoolean raw "isError" (copyToolName raw (copyIdentifier raw "toolCallId" r)) in
                match classifyToolKind (getf raw "toolName") with
                | Some k =>
                    let r := putKind (Some k) r in
                    match content with Some c => put "result" (safeToolResult (VObj true [(u "content", c)])) r | None => r end
                | None => r
                end
              else r)
  | _ => None
  end.

Definition serializeAssistantMessageEvent (v : val) : option fields :=
  raw ← asRecord v;
  match getf raw "type" with
  | VStr ty =>
      if negb (isOneOf (VStr ty) ASSISTANT_EVENTS) then None
      else
        let r := [(u "type", VStr ty)] in
        let r := match getf raw "contentIndex" with
                 | VNum t (NInt z) => if (0 <=? z) && (z <? 1000) then put "contentIndex" (VNum t (NInt z)) r else r
                 | _ => r
                 end in
        let cut s := if bool_decide (stripPrefix (u "text_") ty <> None) then safeMessageText s MAX_TEXT_CHARS else safeText s MAX_TEXT_CHARS in
        let r := putText "content" (cut <$> strOf (getf raw "content")) (putText "delta" (cut <$> strOf (getf raw "delta")) r) in
        let r := match getf raw "reason" with VStr s => if isOneOf (VStr s) STOP_REASONS then put "reason" (VStr s) r else r | _ => r end in
        Some (putVal "toolCall" (VObj true <$> serializeToolCall (nullish (asRecord (getf raw "toolCall")) [])) r)
  | _ => None
  end.

(** *** Files a tool works on *)

Definition SENSITIVE_NAMES : re :=
  RAlts [RText (u "env"); RText (u "secret"); RText (u "secrets"); RText (u "credential"); RText (u "credentials"); RText (u "password"); RText (u "passwd");
         RText (u "token"); RText (u "private"); RSeq (RText (u "api")) (RSeq (ROpt (RSet (u "_-"))) (RText (u "key")));
         RSeq (RText (u "access")) (RSeq (ROpt (RSet (u "_-"))) (RText (u "key")))].
Definition isSeparator (c : Z) : bool := existsb (Z.eqb c) (u "._-").
(** The pattern from a position on: its first group is the start of the text or a separator, its
    last the end or a separator. *)
Definition sensitiveAt (before : option Z) (s : text) : bool :=
  let close (_ : option Z) (rest : text) := match rest with [] => Some [] | c :: _ => if isSeparator c then Some rest else None end in
  let names before s := bool_decide (is_Some (rmatch SENSITIVE_NAMES before s close)) in
  (match before with None => names None s | Some _ => false end)
  || match s with c :: s' => isSeparator c && names (Some c) s' | [] => false end.
Fixpoint sensitiveFrom (before : option Z) (s : text) : bool :=
  sensitiveAt before s || match s with c :: s' => sensitiveFrom (Some c) s' | [] => false end.
Definition SENSITIVE_ARTIFACT_NAME (name : text) : bool := sensitiveFrom None name.
Definition isSafeArtifactFilename (filename : text) : bool :=
  negb (existsb (Z.eqb 47) filename)
  && negb (match filename with c :: _ => c =? 46 | [] => false end) && negb (SENSITIVE_ARTIFACT_NAME filename).

(** The part after the last slash or backslash. *)
Definition lastSegment (path : text) : text :=
  fold_left (fun acc c => if (c =? 47) || (c =? 92) then [] else acc ++ [c]) path [].
Definition toolFileName (raw : fields) : option text :=
  if negb (isOneOf (getf raw "toolName") FILE_TOOLS) then None
  else
    args ← asRecord (getf raw "args");
    path ← strOf (getf args "path");
    let name := lastSegment path in
    if bool_decide (name = []) || bool_decide (name = u ".") || bool_decide (name = u "..") || (MAX_FILE_NAME_CHARS <? length (codePoints name))%nat then None
    else if existsb (fun c => ((0 <=? c) && (c <=? 31)) || (c =? 127)) name || negb (isSafeArtifactFilename name) then None
    else if bool_decide (safeText name MAX_FILE_NAME_CHARS = name) then Some name else None.

(** *** Events *)

Definition putArgs (raw r : fields) : fields := if hasOwn raw "args" then put "args" (safeToolValue (getf raw "args")) r else r.
Definition serializeToolEvent (ty : text) (raw r : fields) : fields :=
  let isTy (k : string) := bool_decide (ty = u k) in
  let r := copyToolName raw (copyIdentifier raw "toolCallId" r) in
  let r := putKind (classifyToolKind (getf raw "toolName")) r in
  let r := if isTy "tool_execution_end" then r else putText "file_name" (toolFileName raw) (putArgs raw r) in
  let r := if isTy "tool_execution_update" && hasOwn raw "partialResult" then put "partialResult" (safeToolResult (getf raw "partialResult")) r else r in
  if isTy "tool_execution_end"
  then copyBoolean raw "isError" (if hasOwn raw "result" then put "result" (safeToolResult (getf raw "result")) r else r)
  else r.

(** The serialized size of the bodies of user and assistant messages. *)
Definition textBytes (s : text) : Z := jsonBytes (VStr s).
Definition bodyBytes (message : val) : Z :=
  match asRecord message with
  | None => 0
  | Some raw =>
      if negb (isOneOf (getf raw "role") ["user"; "assistant"]) then 0
      else match getf raw "content" with
           | VStr s => textBytes s
           | VArr l => fold_left (fun total p => match (item ← asRecord p; if isText (getf item "type") "text" then strOf (getf item "text") else None) with
                                                 | Some t => total + textBytes t | None => total end) l 0
           | _ => 0
           end
  end.

Definition MINIMAL_KEYS : list string :=
  ["conversation_id"; "source_ref"; "tool_call_id"; "source_employee_id"; "source_employee_display_name"; "source_role"; "tool_kind"; "toolName"; "toolCallId"; "isError"]%string.
Definition minimalEvent (v : fields) : fields :=
  fold_left (fun r k => if isUndef (getf v k) then r else put k (getf v k) r) MINIMAL_KEYS [(u "type", getf v "type")].
Definition withinBudget (v : fields) : bool := jsonBytes (VObj true v) - bodyBytes (getf v "message") <=? MAX_EVENT_BYTES.
Definition boundEvent (v : fields) : fields := if withinBudget v then v else minimalEvent v.

Definition numberOf (z : Z) : val := VNum (u (pretty z)) (NInt z).
Definition copyOutcome (raw r : fields) : fields := copyFailure raw "error_message" (copyIdentifier raw "error_code" (copyBoolean raw "failed" r)).
Definition approvalFields (raw r : fields) : fields :=
  let r := foldl (fun r k => copyIdentifier raw k r) r ["toolCallId"; "approvalId"; "approval_id"; "approvalBatchId"; "argsHash"]%string in
  let r := copyApprovalSummary raw (copyText raw "expiresAt" (copyInteger raw "decisionRevision" r)) in
  let r := copyToolName raw (copyText raw "riskLevel" r) in
  putArgs raw (putKind (classifyToolKind (getf raw "toolName")) r).
Definition eventFields (ty : text) (raw r : fields) : fields :=
  let isTy (k : string) := bool_decide (ty = u k) in
  if isOneOf (VStr ty) TOOL_EVENTS then serializeToolEvent ty raw r
  else if isTy "message_update" then
    let message := serializeMessage (getf raw "message") MAX_TEXT_CHARS in
    let event := serializeAssistantMessageEvent (getf raw "assistantMessageEvent") in
    putVal "assistantMessageEvent" (VObj true <$> event) (putVal "message" (VObj true <$> message) r)
  else if isTy "message_end" then putVal "message" (VObj true <$> serializeMessage (getf raw "message") MAX_MESSAGE_TEXT_CHARS) r
  else if isTy "agent_end" then
    copyOutcome raw (match getf raw "messages" with VArr l => put "message_count" (numberOf (Z.of_nat (Nat.min (length l) MAX_ARRAY_ITEMS))) r | _ => r end)
  else if isTy "agent_settled" then copyOutcome raw r
  else if isTy "auto_retry_start" then copyText raw "errorMessage" (copyInteger raw "delayMs" (copyInteger raw "maxAttempts" (copyInteger raw "attempt" r)))
  else if isTy "auto_retry_end" then copyText raw "finalError" (copyInteger raw "attempt" (copyBoolean raw "success" r))
  else if isTy "compaction_start" then copyReason raw r
  else if isTy "compaction_end" then copyText raw "errorMessage" (copyBoolean raw "willRetry" (copyBoolean raw "aborted" (copyReason raw r)))
  else if isTy "approval_required" then approvalFields raw r
  else r.
Definition serializePiEvent (event : val) (extra : fields) : option fields :=
  raw ← asRecord event;
  match getf raw "type" with
  | VStr ty =>
      if isOneOf (VStr ty) ALLOWED_EVENTS then Some (boundEvent (eventFields ty raw ((u "type", VStr ty) :: serializeMetadata extra))) else None
  | _ => None
  end.

(** *** Entries of the session history *)

Definition isSafeNat (z : Z) : bool := (0 <=? z) && (z <=? 9007199254740991).
Definition serializeReplyFile (v : val) : option fields :=
  raw ← asRecord v;
  match getf raw "chars" with
  | VNum t (NInt chars) =>
      if negb (isSafeNat chars) then None
      else
        id ← nonEmptyText (boundedIdentifier (getf raw "id") MAX_IDENTIFIER_CHARS);
        filename ← nonEmptyText (strOf (getf raw "filename"));
        Some [(u "id", VStr id); (u "filename", VStr (safeMessageText filename 255));
              (u "path", match nonEmptyText (strOf (getf raw "path")) with Some p => VStr (safeMessageText p (Z.to_nat 1024)) | None => VNull end);
              (u "chars", VNum t (NInt chars))]
  | _ => None
  end.

Definition isBase64Url (c : Z) : bool := is_word c || (c =? 45).
Definition ENTRY_REF (s : text) : bool :=
  match stripPrefix (u "entry_v1_") s with Some rest => (length rest =? 43)%nat && forallb isBase64Url rest | None => false end.

Definition ENTRY_IDENTIFIERS : list string :=
  ["work_id"; "participant_employee_id"; "logical_message_id"; "source_type"; "source_id"; "source_display_name"; "source_employee_id";
   "source_employee_display_name"; "source_role"]%string.
(** [key.includes("display_name")]. *)
Definition identifierMax (k : string) : nat := if test (RText (u "display_name")) (u k) then MAX_SOURCE_NAME_CHARS else MAX_IDENTIFIER_CHARS.
Definition copyOneOf (raw : fields) (k : string) (l : list string) (r : fields) : fields :=
  match getf raw k with VStr s => if isOneOf (VStr s) l then put k (VStr s) r else r | _ => r end.
Definition putDefined (k : string) (v : val) (r : fields) : fields := if isUndef v then r else put k v r.
Definition optText (o : option text) : val := match o with Some s => VStr s | None => VUndef end.
Definition entryTimestamp (v : val) : option val :=
  match v with
  | VStr s => (fun ms => VStr (u (toISOString ms))) <$> dateParse s
  | VNum t (NInt z) => Some (VNum t (NInt z))
  | VNum t (NFrac z) => Some (VNum t (NFrac z))
  | _ => None
  end.
Definition tokensBefore (v : val) : option val :=
  match v with
  | VNum t (NInt z) => Some (if 0 <=? z then VNum t (NInt z) else numberOf 0)
  | VNum _ (NFrac z) => Some (numberOf (Z.max 0 z))
  | _ => None
  end.

(** A field of the reduced entry: kept when it is not [undefined], [null], empty or 0. *)
Definition truthy (v : val) : bool :=
  match v with
  | VUndef | VNull | VNum _ (NInt 0) | VStr [] => false
  | VBool b => b
  | VNum t NNonFinite => bool_decide (t <> u "NaN")
  | _ => true
  end.
Definition boundEntry (v : fields) : fields :=
  if withinBudget v then v
  else
    let keep k r := if truthy (getf v k) then put k (getf v k) r else r in
    let r := [(u "id", getf v "id"); (u "type", getf v "type")] in
    let r := keep "participant_employee_id"%string (keep "entry_ref"%string (keep "work_id"%string r)) in
    keep "source_employee_id"%string (putDefined "timestamp" (getf v "timestamp") r).

Definition entryFields (id type : text) (raw : fields) : fields :=
  let r := [(u "id", optText (boundedIdentifier (VStr id) MAX_IDENTIFIER_CHARS)); (u "type", optText (boundedIdentifier (VStr type) MAX_IDENTIFIER_CHARS))] in
  let r := match getf raw "parentId" with VStr s => put "parentId" (VStr s) r | VNull => put "parentId" VNull r | _ => r end in
  let r := putVal "timestamp" (entryTimestamp (getf raw "timestamp")) r in
  let r := putVal "message" (VObj true <$> serializeMessage (getf raw "message") MAX_MESSAGE_TEXT_CHARS) r in
  let r := putVal "reply_file" (VObj true <$> serializeReplyFile (getf raw "reply_file")) r in
  let r := match getf raw "entry_ref" with VStr s => if ENTRY_REF s then put "entry_ref" (VStr s) r else r | _ => r end in
  let r := foldl (fun r k => putText k (nonEmptyText (boundedIdentifier (getf raw k) (identifierMax k))) r) r ENTRY_IDENTIFIERS in
  let r := copyOneOf raw "source_type" ["human"; "employee"]%string r in
  let r := copyOneOf raw "source_role" ["human"; "child"; "participant"; "coordinator"]%string r in
  let r := if bool_decide (type = u "custom") && isText (getf raw "customType") CONTEXT_RESET_ENTRY_TYPE
           then putDefined "data" (boundedValue [] 0 (getf raw "data")) (put "customType" (VStr (u CONTEXT_RESET_ENTRY_TYPE)) r) else r in
  let r := foldl (fun r k => copyText raw k r) r ["summary"; "firstKeptEntryId"; "reason"]%string in
  putDefined "details" (boundedValue [] 0 (getf raw "details")) (putVal "tokensBefore" (tokensBefore (getf raw "tokensBefore")) r).
Definition serializePiEntry (entry : val) : option fields :=
  raw ← asRecord entry;
  id ← strOf (getf raw "id");
  type ← strOf (getf raw "type");
  Some (boundEntry (entryFields id type raw)).
End Events.
