(* ===== verification/EventSafety.v ===== *)
(** What the event boundary guarantees (see EventSse).

    [built r0 r]: [r] comes from [r0] by assigning fields whose names are harmless and, for the
    fields an oversized event keeps, whose values are small.  Every serializer is a sequence of
    such assignments, so one induction gives the names, the sizes and the type of an event. *)

From S2P Require Import Prelude Decimal Regex Redact EventSse.
From S2P Require Redaction.
Local Open Scope Z_scope.

Create HintDb events.

(** ** Names *)

Definition safeKey (k : text) : bool := negb (secretKey k || unsafeValueKey k).
(** No object inside the value has a member with the name of a credential, a path or a runtime object. *)
Fixpoint keysSafe (v : val) : bool :=
  match v with
  | VArr l => forallb keysSafe l
  | VObj _ l => forallb (fun kv => match kv with (k, x) => safeKey k && keysSafe x end) l
  | _ => true
  end.

Lemma val_nested_ind (P : val -> Prop) :
  P VUndef -> P VNull -> (forall b, P (VBool b)) -> (forall t k, P (VNum t k)) -> (forall s, P (VStr s)) ->
  (forall l, Forall P l -> P (VArr l)) -> (forall pl l, Forall (fun kv => P kv.2) l -> P (VObj pl l)) -> P VFunc -> forall v, P v.
Proof.
  intros HU HN HB HNum HS HA HO HF. fix IH 1. intros [| |b|t k|s|l|pl l|]; [exact HU|exact HN|apply HB|apply HNum|apply HS| | |exact HF].
  - apply HA. induction l as [|x l IHl]; constructor; [apply IH|exact IHl].
  - apply HO. induction l as [|[k x] l IHl]; constructor; [apply IH|exact IHl].
Qed.

Lemma boundedValue_undef key depth v : safeKey key = false -> boundedValue key depth v = VUndef.
Proof. unfold safeKey. intros H%negb_false_iff. destruct v; cbn [boundedValue]; rewrite H; done. Qed.

Lemma in_ownKeys {A} (kv : text * A) l : In kv (ownKeys l) -> In kv l.
Proof.
  unfold ownKeys. rewrite <- !list_elem_of_In. intros [H|H]%elem_of_app.
  - apply Redaction.elem_sortBy in H. apply list_elem_of_In, filter_In in H. apply list_elem_of_In. tauto.
  - apply list_elem_of_In, filter_In in H. apply list_elem_of_In. tauto.
Qed.

Lemma boundedValue_safe v : forall key depth, keysSafe (boundedValue key depth v) = true.
Proof.
  induction v as [| |b|t k|s|l IH|pl l IH|] using val_nested_ind; intros key depth; cbn [boundedValue];
    destruct (_ || _); try done; destruct (_ <=? _)%nat; try done.
  - cbn. apply forallb_forall. intros x [Hx _]%filter_In. apply list_elem_of_In, elem_of_take in Hx as (i & Hx & _).
    apply list_elem_of_lookup_2, list_elem_of_fmap in Hx as (y & -> & Hy). by apply (proj1 (Forall_forall _ _) IH).
  - destruct pl; [|done]. cbn. apply forallb_forall. intros [k x] [Hx Hd]%in_ownKeys%filter_In.
    apply list_elem_of_In, elem_of_take in Hx as (i & Hx & _).
    apply list_elem_of_lookup_2, list_elem_of_fmap in Hx as ([k' y] & [= -> ->] & Hy).
    rewrite (proj1 (Forall_forall _ _) IH _ Hy). destruct (safeKey k') eqn:Hk; [done|].
    rewrite boundedValue_undef in Hd by done. done.
Qed.

(** ** Sizes *)

(** A bound on the UTF-8 bytes of a text that adds up over concatenation. *)
Definition weight (s : text) : Z := foldr (fun c n => (if c <? 128 then 1 else 3) + n) 0 s.
Lemma weight_app a b : weight (a ++ b) = weight a + weight b.
Proof. unfold weight. induction a as [|c a IH]; cbn; lia. Qed.
Lemma weight_nonneg s : 0 <= weight s.
Proof. unfold weight. induction s as [|c s IH]; cbn; [done|]. case_match; lia. Qed.
Lemma byteLength_nonneg s : 0 <= byteLength s.
Proof.
  unfold byteLength. induction (codePoints s) as [|p l IH]; cbn; [done|].
  assert (0 <= pointBytes p); [|lia]. unfold pointBytes. repeat case_match; lia.
Qed.
Lemma byteLength_weight s : byteLength s <= weight s.
Proof.
  remember (length s) as n eqn:Hn. assert (length s <= n)%nat as Hle by lia. clear Hn. revert s Hle.
  unfold byteLength, weight. induction n as [|n IH]; intros [|c [|d s]] Hle; cbn in Hle; try lia; try done.
  - cbn. repeat case_match; lia.
  - cbn [codePoints]. destruct (isHigh c && isLow d) eqn:Hp.
    + cbn. specialize (IH s ltac:(lia)). unfold isHigh, isLow in Hp. repeat case_match; lia.
    + specialize (IH (d :: s) ltac:(cbn; lia)). cbn in *. repeat case_match; lia.
Qed.

Lemma hexDigit_ascii n : 0 <= n < 16 -> Redaction.hexDigit n < 128.
Proof. unfold Redaction.hexDigit. case_match; lia. Qed.
Lemma weight_escape paired c : weight (Redaction.escape paired c) <= 6.
Proof.
  unfold Redaction.escape. repeat (case_match; [done|]). case_match.
  - unfold Redaction.hex4. assert (forall n, Redaction.hexDigit (n mod 16) <? 128 = true) as Hx.
    { intros n. apply Z.ltb_lt, hexDigit_ascii, Z.mod_pos_bound. lia. }
    unfold weight. cbn -[Z.modulo Z.div]. rewrite !Hx. done.
  - unfold weight. cbn. case_match; lia.
Qed.
Lemma weight_quote s : weight (Redaction.quote s) <= 6 * Z.of_nat (length s) + 2.
Proof.
  unfold Redaction.quote. rewrite !weight_app. enough (forall b, weight (Redaction.quoteBody b s) <= 6 * Z.of_nat (length s)).
  { specialize (H false). unfold weight at 1 3. cbn -[Z.mul]. lia. }
  induction s as [|c s IH]; intros b; cbn [Redaction.quoteBody length]; [done|]. rewrite weight_app.
  match goal with |- context [Redaction.escape ?p c] => pose proof (weight_escape p c) end.
  match goal with |- context [Redaction.quoteBody ?p s] => specialize (IH p) end. lia.
Qed.

Definition jsonWeight (v : val) : Z := weight (nullish (Redaction.stringify (toJson v)) []).
Lemma jsonBytes_weight v : jsonBytes v <= jsonWeight v.
Proof. apply byteLength_weight. Qed.
Definition MAX_SMALL : Z := 6 * 256 + 2.
Definition small (v : val) : Prop := jsonWeight v <= MAX_SMALL.
Lemma small_text s : (length s <= 256)%nat -> small (VStr s).
Proof. intros H. change (weight (Redaction.quote s) <= 1538). pose proof (weight_quote s). unfold text in *. lia. Qed.
Lemma small_bool b : small (VBool b).
Proof. destruct b; vm_compute; discriminate. Qed.
#[export] Hint Resolve small_bool : events.

Lemma weight_joinComma l (n : Z) : 0 <= n -> Forall (fun s => weight s <= n) l -> weight (Redaction.joinComma l) <= Z.of_nat (length l) * (n + 1).
Proof.
  intros Hn. induction 1 as [|s l Hs Hl IH]; [done|]. cbn [Redaction.joinComma length].
  destruct l as [|s' l]; [lia|]. rewrite !weight_app. unfold weight at 2. cbn -[Z.mul Redaction.joinComma] in *. lia.
Qed.

Lemma weight_record (r : fields) (n : Z) : 0 <= n ->
  Forall (fun kv => weight (Redaction.quote kv.1) + 1 + jsonWeight kv.2 <= n) r -> jsonWeight (VObj true r) <= Z.of_nat (length r) * (n + 1) + 2.
Proof.
  intros Hn H. unfold jsonWeight. cbn [toJson Redaction.stringify]. unfold nullish, default, from_option, id. rewrite !weight_app.
  set (l := omap _ _). assert ((length l <= length r)%nat /\ Forall (fun s => weight s <= n) l) as [Hlen HF].
  { subst l. induction H as [|[k x] r Hx Hr [IH1 IH2]]; [done|]. unfold jsonWeight in Hx. cbn [fst snd] in Hx. cbn [map omap list_omap length].
    destruct (Redaction.stringify (toJson x)) as [t|] eqn:E; cbn [fmap option_fmap option_map]; [|split; [lia|done]].
    split; [cbn [length]; lia|]. constructor; [|done]. rewrite !weight_app. change (weight [58]) with 1. unfold nullish, default, from_option, id in Hx. lia. }
  pose proof (weight_joinComma l n Hn HF) as HJ. change (weight [123]) with 1. change (weight [125]) with 1.
  assert (Z.of_nat (length l) * (n + 1) <= Z.of_nat (length r) * (n + 1)) by (apply Z.mul_le_mono_nonneg_r; lia).
  clearbody l. unfold text in *. lia.
Qed.

(** ** Records built by harmless assignments *)

(** The fields an event keeps when it is too large. *)
Definition keptKey (k : text) : bool := existsb (fun n => bool_decide (k = u n)) ("type"%string :: MINIMAL_KEYS).
Definition goodField (kv : text * val) : Prop := safeKey kv.1 = true /\ keysSafe kv.2 = true /\ (keptKey kv.1 = true -> small kv.2).
Definition good (k : string) (v : val) : Prop := u k <> u "type" /\ goodField (u k, v).

Inductive built (r0 : fields) : fields -> Prop :=
| built_start : built r0 r0
| built_put k v r : good k v -> built r0 r -> built r0 (put k v r).

Lemma put_good k v r : goodField (u k, v) -> Forall goodField r -> Forall goodField (put k v r).
Proof.
  intros Hv Hr. unfold put. destruct (hasOwn r k).
  - induction Hr as [|f r Hf Hr IH]; constructor; [|done]. case_bool_decide as E; [|done]. rewrite E. done.
  - apply Forall_app. auto.
Qed.
Lemma built_good r0 r : built r0 r -> Forall goodField r0 -> Forall goodField r.
Proof. induction 1 as [|k v r [_ Hv] Hr IH]; auto using put_good. Qed.
Lemma put_head k v r x : u k <> u "type" -> exists r', put k v ((u "type", x) :: r) = (u "type", x) :: r'.
Proof.
  intros Hk. unfold put, hasOwn. cbn [existsb fst].
  rewrite (bool_decide_eq_false_2 (u "type" = u k)) by congruence. cbn [orb map app fst].
  rewrite (bool_decide_eq_false_2 (u "type" = u k)) by congruence. destruct (existsb _ _); eauto.
Qed.
Lemma built_head r0 r x : built ((u "type", x) :: r0) r -> exists r', r = (u "type", x) :: r'.
Proof. induction 1 as [|k v r [Hk _] Hr [r' ->]]; [eauto|]. by apply put_head. Qed.
Lemma good_object r : Forall goodField r -> keysSafe (VObj true r) = true.
Proof.
  intros H. cbn. apply forallb_forall. intros [k x] Hx%list_elem_of_In. apply (proj1 (Forall_forall _ _) H) in Hx as (H1 & H2 & _).
  cbn in *. rewrite H1, H2. done.
Qed.

Ltac harmless := repeat split; cbn [fst snd]; try solve [vm_compute; reflexivity | vm_compute; discriminate | intros ?; vm_compute; discriminate | auto with events].
#[export] Hint Constructors built : events.

(** *** Values the serializers assign *)

Lemma boundText_length s max : (0 < max)%nat -> (length (boundText s max) <= max)%nat.
Proof. intros H. unfold boundText. destruct (Nat.leb_spec (length s) max); [done|]. rewrite length_app, length_take. cbn. lia. Qed.
Lemma boundedIdentifier_length v max s : (0 < max)%nat -> boundedIdentifier v max = Some s -> (length s <= max)%nat.
Proof. intros H. unfold boundedIdentifier. repeat case_match; try done. intros [= <-]. by apply boundText_length. Qed.
Lemma identifier_small v max s : (0 < max <= 256)%nat -> nonEmptyText (boundedIdentifier v max) = Some s -> small (VStr s).
Proof.
  intros Hm H. apply small_text. destruct (boundedIdentifier v max) as [[|c s']|] eqn:E; try done. injection H as <-.
  apply boundedIdentifier_length in E; unfold text in *; lia.
Qed.
Lemma isOneOf_in s l : isOneOf (VStr s) l = true -> exists k, k ∈ l /\ s = u k.
Proof. unfold isOneOf. intros (k & Hk & H)%existsb_exists. cbn in H. boolify. exists k. by rewrite list_elem_of_In. Qed.
Lemma one_of_small s l : forallb (fun k => (String.length k <=? 256)%nat) l = true -> isOneOf (VStr s) l = true -> small (VStr s).
Proof.
  intros Hl (k & Hk & ->)%isOneOf_in. apply small_text. unfold u, chars. rewrite length_fmap.
  apply list_elem_of_In in Hk. apply (proj1 (forallb_forall _ _) Hl) in Hk. apply Nat.leb_le in Hk.
  enough (length (String.list_ascii_of_string k) = String.length k) as -> by done. clear. induction k; cbn; auto.
Qed.

(** *** Single assignments *)

Section Built.
Context (r0 : fields).
Notation B := (built r0).

Lemma putText_built k o r : (forall s, o = Some s -> good k (VStr s)) -> B r -> B (putText k o r).
Proof. intros H Hr. destruct o; cbn; eauto with events. Qed.
Lemma putVal_built k o r : (forall v, o = Some v -> good k v) -> B r -> B (putVal k o r).
Proof. intros H Hr. destruct o; cbn; eauto with events. Qed.
(** A text under a name an oversized event does not keep. *)
Definition freeKey (k : string) : Prop := u k <> u "type" /\ safeKey (u k) = true /\ keptKey (u k) = false.
Definition cleanKey (k : string) : Prop := u k <> u "type" /\ safeKey (u k) = true.
Lemma good_free k v : freeKey k -> keysSafe v = true -> good k v.
Proof. intros (H1 & H2 & H3) Hv. repeat split; cbn [fst snd]; [done..|congruence]. Qed.
Lemma good_small k v : cleanKey k -> keysSafe v = true -> small v -> good k v.
Proof. intros (H1 & H2) Hv Hs. repeat split; cbn [fst snd]; done. Qed.
Lemma putText_free k o r : freeKey k -> B r -> B (putText k o r).
Proof. intros H. apply putText_built. intros s _. by apply good_free. Qed.
Lemma copyIdentifier_built raw k r : cleanKey k -> B r -> B (copyIdentifier raw k r).
Proof. intros H. apply putText_built. intros s Hs. apply good_small; [done|done|]. eapply identifier_small, Hs. unfold MAX_IDENTIFIER_CHARS. lia. Qed.
Lemma copyToolName_built raw r : B r -> B (copyToolName raw r).
Proof.
  apply putText_built. intros s Hs. apply good_small; [harmless|done|]. eapply identifier_small, Hs. unfold MAX_TOOL_NAME_CHARS. lia.
Qed.
Lemma copyText_built raw k r : freeKey k -> B r -> B (copyText raw k r).
Proof. apply putText_free. Qed.
Lemma copyFailure_built home raw k r : freeKey k -> B r -> B (copyFailure home raw k r).
Proof. apply putText_free. Qed.
Lemma copyApprovalSummary_built raw r : B r -> B (copyApprovalSummary raw r).
Proof. apply putText_free. harmless. Qed.
Lemma copyInteger_built raw k r : freeKey k -> B r -> B (copyInteger raw k r).
Proof. intros. unfold copyInteger. repeat case_match; auto using good_free with events. Qed.
Lemma copyBoolean_built raw k r : cleanKey k -> B r -> B (copyBoolean raw k r).
Proof. intros. unfold copyBoolean. repeat case_match; auto using good_small with events. Qed.
Lemma copyReason_built raw r : B r -> B (copyReason raw r).
Proof. intros. unfold copyReason. repeat case_match; auto with events. apply built_put; [apply good_free; [harmless|done]|done]. Qed.
Lemma putKind_built k r : B r -> B (putKind k r).
Proof.
  apply putText_built. intros s Hs. destruct k as [[]|]; try done; injection Hs as <-; (apply good_small; [harmless|done|vm_compute; discriminate]).
Qed.
Lemma putArgs_built raw r : B r -> B (putArgs raw r).
Proof. intros. unfold putArgs. case_match; [|done]. apply built_put; [|done]. apply good_free; [harmless|apply boundedValue_safe]. Qed.
Lemma put_value k v r : freeKey k -> B r -> B (put k (safeToolValue v) r).
Proof. intros. apply built_put; [|done]. apply good_free; [done|apply boundedValue_safe]. Qed.
End Built.

#[export] Hint Resolve copyToolName_built copyApprovalSummary_built copyReason_built putKind_built putArgs_built : events.
#[export] Hint Extern 3 (built _ (copyIdentifier _ _ _)) => apply copyIdentifier_built; [harmless|] : events.
#[export] Hint Extern 3 (built _ (copyText _ _ _)) => apply copyText_built; [harmless|] : events.
#[export] Hint Extern 3 (built _ (copyFailure _ _ _ _)) => apply copyFailure_built; [harmless|] : events.
#[export] Hint Extern 3 (built _ (copyInteger _ _ _)) => apply copyInteger_built; [harmless|] : events.
#[export] Hint Extern 3 (built _ (copyBoolean _ _ _)) => apply copyBoolean_built; [harmless|] : events.
#[export] Hint Extern 4 (built _ (put _ (VStr _) _)) => apply built_put; [apply good_free; [harmless|reflexivity]|] : events.
#[export] Hint Extern 4 (built _ (put _ (VNum _ _) _)) => apply built_put; [apply good_free; [harmless|reflexivity]|] : events.
#[export] Hint Extern 4 (built _ (put _ (numberOf _) _)) => apply built_put; [apply good_free; [harmless|reflexivity]|] : events.
#[export] Hint Extern 4 (built _ (put _ (safeToolValue _) _)) => apply put_value; [harmless|] : events.
#[export] Hint Extern 4 (built _ (put _ (safeToolResult _ _) _)) => apply put_value; [harmless|] : events.

Lemma if_built r0 (b : bool) r r' : built r0 r -> built r0 r' -> built r0 (if b then r else r').
Proof. by destruct b. Qed.
#[export] Hint Resolve if_built : events.

(** *** The parts of an event *)

Lemma putIdentifier_built r0 k v max r : cleanKey k -> (0 < max <= 256)%nat -> built r0 r ->
  built r0 (putText k (nonEmptyText (boundedIdentifier v max)) r).
Proof. intros Hk Hm. apply putText_built. intros s Hs. apply good_small; [done|done|]. by eapply identifier_small. Qed.
Lemma putOneOf_built r0 k s l r : cleanKey k -> forallb (fun k => (String.length k <=? 256)%nat) l = true -> isOneOf (VStr s) l = true -> built r0 r ->
  built r0 (put k (VStr s) r).
Proof. intros Hk Hl Hs. apply built_put, good_small; [done|done|]. by eapply one_of_small. Qed.

Lemma serializeMetadata_good extra : Forall goodField (serializeMetadata extra).
Proof.
  eapply (built_good []); [|constructor]. unfold serializeMetadata.
  assert (forall r, built [] r -> built [] (match getf extra "source_role" with
    | VStr s => if isOneOf (VStr s) ["human"; "child"; "participant"; "coordinator"]%string then put "source_role" (VStr s) r else r | _ => r end)) as H.
  { intros r Hr. destruct (getf extra "source_role"); try done. destruct (isOneOf _ _) eqn:E; [|done].
    eapply putOneOf_built; [harmless|..|exact E|done]. done. }
  apply H. repeat (apply putIdentifier_built; [harmless|unfold MAX_IDENTIFIER_CHARS, MAX_SOURCE_NAME_CHARS; lia|]). constructor.
Qed.

Lemma serializeToolCall_good v r : serializeToolCall v = Some r -> Forall goodField r.
Proof.
  unfold serializeToolCall. set (id := nonEmptyText _). set (name := nonEmptyText (boundedIdentifier (getf v "name") _)).
  set (start := match getf v "type" with VStr _ => _ | _ => _ end). intros H.
  assert (Forall goodField start) as Hstart.
  { subst start. destruct (getf v "type"); try constructor. destruct (isOneOf _ _) eqn:E; repeat constructor.
    intros _. eapply one_of_small, E. done. }
  eapply (built_good start); [|done]. clear Hstart.
  assert (built start (putText "name" name (putText "id" id start))) as Hr by (repeat (apply putText_free; [harmless|]); constructor).
  destruct id, name; try done; injection H as <-; (destruct (hasOwn v "arguments"); [auto with events|done]).
Qed.

Lemma serializePart_safe body max part v : serializePart body max part = Some v -> keysSafe v = true.
Proof.
  unfold serializePart. destruct (asRecord part) as [raw|]; [|done]. cbn [mbind option_bind]. destruct (getf raw "type"); try done.
  repeat case_bool_decide; try done.
  - destruct (strOf _); [|done]. cbn. intros [= <-]. destruct (_ && _); reflexivity.
  - destruct (strOf _); [|done]. cbn. intros [= <-]. reflexivity.
  - destruct (serializeToolCall raw) as [r|] eqn:E; [|done]. intros [= <-]. by apply good_object, (serializeToolCall_good raw).
  - intros [= <-]. reflexivity.
Qed.
Lemma serializeContent_safe v body max c : serializeContent v body max = Some c -> keysSafe c = true.
Proof.
  destruct v; try done; [intros [= <-]; done|]. intros [= <-]. cbn. apply forallb_forall. intros x Hx%list_elem_of_In.
  apply list_elem_of_omap in Hx as (y & _ & Hy). by eapply serializePart_safe.
Qed.

Section Serializers.
Context (parseJson : text -> option val) (home : text).

Lemma put_content r0 o r : (forall c, o = Some c -> keysSafe c = true) -> built r0 r -> built r0 (putVal "content" o r).
Proof. intros H. apply putVal_built. intros c Hc. apply good_free; [harmless|auto]. Qed.

Lemma serializeMessage_good v bodyMax r : serializeMessage parseJson home v bodyMax = Some r -> Forall goodField r.
Proof.
  unfold serializeMessage. destruct (asRecord v) as [raw|]; [|done]. cbn [mbind option_bind].
  destruct (getf raw "role") as [| | | |role| | |]; try done. destruct (negb _); [done|]. cbv zeta.
  set (content := if bool_decide (role = u "toolResult") then serializeContent _ _ _ else serializeContent _ _ _). intros [= <-].
  assert (forall c, content = Some c -> keysSafe c = true) as Hc.
  { subst content. intros c. case_bool_decide; apply serializeContent_safe. }
  clearbody content. eapply (built_good [(u "role", VStr role)]); [|repeat constructor; intros H; vm_compute in H; discriminate].
  set (stamped := if finiteNumber _ then _ else _).
  assert (built [(u "role", VStr role)] stamped) as Hs.
  { subst stamped. destruct (getf raw "timestamp") as [| | |t []| | | |]; cbn [finiteNumber]; auto with events. }
  clearbody stamped. apply (put_content _ content) in Hs; [|done]. revert Hs. generalize (putVal "content" content stamped). intros r1 H1.
  set (stopped := if bool_decide (role = u "assistant") then _ else _).
  assert (built [(u "role", VStr role)] stopped) as H2.
  { subst stopped. case_bool_decide; [|done]. destruct (getf raw "stopReason") as [| | | |s| | |]; [done..| |done|done|done].
    apply if_built; [apply putText_free; [harmless|]|]; auto with events. }
  clearbody stopped. case_bool_decide; [|done]. destruct (classifyToolKind _); [|auto with events]. destruct content; auto 8 with events.
Qed.

Lemma serializeAssistantMessageEvent_good v r : serializeAssistantMessageEvent v = Some r -> Forall goodField r.
Proof.
  unfold serializeAssistantMessageEvent. destruct (asRecord v) as [raw|]; [|done]. cbn [mbind option_bind].
  destruct (getf raw "type") as [| | | |ty| | |]; try done. destruct (isOneOf (VStr ty) ASSISTANT_EVENTS) eqn:Hty; [|done]. cbv zeta. cbn [negb].
  intros [= <-]. eapply (built_good [(u "type", VStr ty)]).
  2:{ repeat constructor. intros _. eapply one_of_small, Hty. done. }
  apply putVal_built.
  { intros x Hx. apply good_free; [harmless|]. destruct (serializeToolCall _) as [t|] eqn:E; [|done]. injection Hx as <-. by apply good_object, (serializeToolCall_good _ _ E). }
  set (indexed := match getf raw "contentIndex" with VNum _ _ => _ | _ => _ end).
  assert (built [(u "type", VStr ty)] indexed) as Hi.
  { subst indexed. destruct (getf raw "contentIndex") as [| | |t []| | | |]; try constructor. destruct (_ && _); auto with events. }
  clearbody indexed. set (texts := putText "content" _ _).
  assert (built [(u "type", VStr ty)] texts) as Ht by (subst texts; repeat (apply putText_free; [harmless|]); done).
  clearbody texts. destruct (getf raw "reason"); auto with events.
Qed.

Lemma serializeToolEvent_built r0 ty raw r : built r0 r -> built r0 (serializeToolEvent parseJson ty raw r).
Proof.
  intros Hr. unfold serializeToolEvent. cbv zeta.
  assert (built r0 (putKind (classifyToolKind (getf raw "toolName")) (copyToolName raw (copyIdentifier raw "toolCallId" r)))) as H1 by auto with events.
  revert H1. generalize (putKind (classifyToolKind (getf raw "toolName")) (copyToolName raw (copyIdentifier raw "toolCallId" r))). intros r1 H1.
  assert (built r0 (putText "file_name" (toolFileName raw) (putArgs raw r1))) as H2 by (apply putText_free; [harmless|auto with events]).
  auto 8 with events.
Qed.

Lemma copyOutcome_built r0 raw r : built r0 r -> built r0 (copyOutcome home raw r).
Proof. intros. unfold copyOutcome. auto with events. Qed.
Lemma approvalFields_built r0 raw r : built r0 r -> built r0 (approvalFields raw r).
Proof. intros. unfold approvalFields. cbn [foldl]. auto 20 with events. Qed.

Lemma putMessage_built r0 v max r : built r0 r -> built r0 (putVal "message" (VObj true <$> serializeMessage parseJson home v max) r).
Proof.
  apply putVal_built. intros x Hx. destruct (serializeMessage _ _ _ _) as [m|] eqn:E; [|done]. injection Hx as <-.
  apply good_free; [harmless|]. by eapply good_object, serializeMessage_good.
Qed.
Lemma putAssistantEvent_built r0 v r : built r0 r -> built r0 (putVal "assistantMessageEvent" (VObj true <$> serializeAssistantMessageEvent v) r).
Proof.
  apply putVal_built. intros x Hx. destruct (serializeAssistantMessageEvent _) as [m|] eqn:E; [|done]. injection Hx as <-.
  apply good_free; [harmless|]. by eapply good_object, serializeAssistantMessageEvent_good.
Qed.
Hint Resolve copyOutcome_built approvalFields_built putMessage_built putAssistantEvent_built serializeToolEvent_built : events.

Lemma eventFields_built r0 ty raw r : built r0 r -> built r0 (eventFields parseJson home ty raw r).
Proof.
  intros Hr. unfold eventFields. cbv zeta. repeat (apply if_built; [try solve [auto 8 with events]|]); [|done].
  destruct (getf raw "messages"); auto with events.
Qed.
End Serializers.

(** *** Oversized events *)

Definition keptField (kv : text * val) : Prop := keptKey kv.1 = true /\ goodField kv.
Lemma getf_good r k : safeKey (u k) = true -> Forall goodField r -> goodField (u k, getf r k).
Proof.
  intros Hk Hr. unfold getf. destruct (List.find _ r) as [[k' x]|] eqn:E; cbn.
  - apply find_some in E as [Hin E]. cbn in E. boolify. apply list_elem_of_In in Hin. subst k'. exact (proj1 (Forall_forall _ _) Hr _ Hin).
  - repeat split; cbn [fst snd]; [done|]. intros _. vm_compute. discriminate.
Qed.
Lemma put_length k v r : (length (put k v r) <= S (length r))%nat.
Proof. unfold put. destruct (hasOwn r k); [rewrite length_map; lia|rewrite length_app; cbn; lia]. Qed.
Lemma put_kept k v r : keptField (u k, v) -> Forall keptField r -> Forall keptField (put k v r).
Proof.
  intros Hv Hr. unfold put. destruct (hasOwn r k).
  - induction Hr as [|f r Hf Hr IH]; constructor; [|done]. case_bool_decide as E; [|done]. rewrite E. done.
  - apply Forall_app. auto.
Qed.
Lemma minimal_fold v l : forall r, Forall goodField v -> Forall (fun k => safeKey (u k) = true /\ keptKey (u k) = true) l -> Forall keptField r ->
  let r' := fold_left (fun r k => if isUndef (getf v k) then r else put k (getf v k) r) l r in
  Forall keptField r' /\ (length r' <= length r + length l)%nat.
Proof.
  induction l as [|k l IH]; intros r Hv Hl Hr; cbn [fold_left length]; [split; [done|lia]|]. inversion_clear Hl as [|?? [Hs Hk] Hl'].
  destruct (isUndef (getf v k)).
  - destruct (IH r Hv Hl' Hr). split; [done|lia].
  - destruct (IH (put k (getf v k) r) Hv Hl') as [H1 H2].
    { apply put_kept; [|done]. split; [done|]. by apply getf_good. }
    split; [done|]. pose proof (put_length k (getf v k) r). lia.
Qed.
Lemma minimalEvent_kept v : Forall goodField v -> Forall keptField (minimalEvent v) /\ (length (minimalEvent v) <= 11)%nat.
Proof.
  intros Hv. unfold minimalEvent. apply (minimal_fold v MINIMAL_KEYS); [done|..].
  - unfold MINIMAL_KEYS. repeat constructor.
  - repeat constructor; cbn [fst snd]; apply (getf_good v "type"); done.
Qed.
Lemma keptKey_weight k : keptKey k = true -> weight (Redaction.quote k) <= 64.
Proof. unfold keptKey. intros (n & Hn & H)%existsb_exists. boolify. subst. repeat destruct Hn as [<-|Hn]; try (vm_compute; discriminate). done. Qed.
Lemma minimalEvent_small v : Forall goodField v -> jsonBytes (VObj true (minimalEvent v)) <= MAX_EVENT_BYTES.
Proof.
  intros [H Hlen]%minimalEvent_kept. etrans; [apply jsonBytes_weight|].
  etrans; [apply (weight_record _ (64 + 1 + MAX_SMALL)); [done|]|].
  - eapply Forall_impl; [exact H|]. intros [k x] [Hk (_ & _ & Hs)]. specialize (Hs Hk). apply keptKey_weight in Hk. unfold small in Hs. cbn [fst snd] in *. lia.
  - unfold MAX_SMALL, MAX_EVENT_BYTES. nia.
Qed.
Lemma minimalEvent_head v : exists r, minimalEvent v = (u "type", getf v "type") :: r.
Proof.
  unfold minimalEvent. enough (forall l r0, Forall (fun k => u k <> u "type") l -> exists r,
    fold_left (fun r k => if isUndef (getf v k) then r else put k (getf v k) r) l ((u "type", getf v "type") :: r0) = (u "type", getf v "type") :: r) as H.
  { apply H. unfold MINIMAL_KEYS. repeat constructor; vm_compute; discriminate. }
  induction l as [|k l IH]; intros r0 Hl; cbn [fold_left]; [eauto|]. inversion_clear Hl as [|?? Hk Hl'].
  destruct (isUndef (getf v k)); [by apply IH|]. destruct (put_head k (getf v k) r0 (getf v "type") Hk) as [r' ->]. by apply IH.
Qed.
Lemma bodyBytes_nonneg v : 0 <= bodyBytes v.
Proof.
  unfold bodyBytes. assert (forall s, 0 <= textBytes s) as Ht by (intros; apply byteLength_nonneg).
  destruct (asRecord v) as [raw|]; [|done]. destruct (negb _); [done|]. destruct (getf _ _) as [| | | |s|l| |]; try done.
  enough (forall n, 0 <= n -> 0 <= fold_left (fun total p => match (item ← asRecord p; if isText (getf item "type") "text" then strOf (getf item "text") else None) with
                                                 | Some t => total + textBytes t | None => total end) l n) as H by (by apply H).
  induction l as [|p l IH]; intros n Hn; cbn [fold_left]; [done|]. apply IH. case_match; [|done]. specialize (Ht t). lia.
Qed.

(** C20. An event the client receives is of an allowed type, taken from the runtime's event and
    in front of all other members; no object at any depth of it has a member named like a
    credential, a path or a runtime object, whatever the tools returned and whatever JSON their
    output parses to; and apart from the bodies of user and assistant messages it is never larger
    than 24 KiB of JSON, however large the event was. *)
Theorem events_are_safe_and_bounded parseJson home event extra r :
  serializePiEvent parseJson home event extra = Some r ->
  (exists raw ty r', asRecord event = Some raw /\ getf raw "type" = VStr (u ty) /\ ty ∈ ALLOWED_EVENTS /\ r = (u "type", VStr (u ty)) :: r') /\
  keysSafe (VObj true r) = true /\
  jsonBytes (VObj true r) - bodyBytes (getf r "message") <= MAX_EVENT_BYTES.
Proof.
  unfold serializePiEvent. destruct (asRecord event) as [raw|] eqn:Hraw; [|done]. cbn [mbind option_bind].
  destruct (getf raw "type") as [| | | |ty| | |] eqn:Hty; try done. destruct (isOneOf _ _) eqn:Hall; [|done]. intros [= <-].
  set (base := (u "type", VStr ty) :: serializeMetadata extra).
  pose proof (eventFields_built parseJson home base ty raw base (built_start _)) as HB. revert HB.
  generalize (eventFields parseJson home ty raw base). intros v HB.
  assert (Forall goodField v) as Hv.
  { eapply built_good; [exact HB|]. constructor; [|apply serializeMetadata_good]. repeat split. intros _. eapply one_of_small, Hall. done. }
  apply isOneOf_in in Hall as (k & Hk & ->). destruct (built_head _ _ _ HB) as [v' ->]. unfold boundEvent.
  destruct (withinBudget _) eqn:HW.
  - split; [exists raw, k, v'; done|]. split; [by apply good_object|]. unfold withinBudget in HW. by apply Z.leb_le.
  - split; [|split].
    + exists raw, k. destruct (minimalEvent_head ((u "type", VStr (u k)) :: v')) as [r' ->]. exists r'. done.
    + apply good_object. eapply Forall_impl; [by apply minimalEvent_kept|]. intros kv [_ H]. exact H.
    + pose proof (minimalEvent_small _ Hv). pose proof (bodyBytes_nonneg (getf (minimalEvent ((u "type", VStr (u k)) :: v')) "message")). lia.
Qed.

Definition readEvent : val :=
  VObj true [(u "type", VStr (u "tool_execution_start")); (u "toolName", VStr (u "read")); (u "provider", VStr (u "x"));
             (u "args", VObj true [(u "path", VStr (u "/tmp/w/notes.md")); (u "api_key", VStr (u "k1")); (u "why", VStr (u "see /tmp/w/a.md. now"))])].
Definition readShown : fields :=
  [(u "type", VStr (u "tool_execution_start")); (u "conversation_id", VStr (u "c1")); (u "toolName", VStr (u "read"));
   (u "args", VObj true [(u "why", VStr (u "see " ++ HIDDEN_PATH ++ u ". now"))]); (u "file_name", VStr (u "notes.md"))].
Lemma events_are_safe_and_bounded_witness :
  serializePiEvent (fun _ => None) (u "/home/a") readEvent [(u "conversation_id", VStr (u "c1"))] = Some readShown /\
  keysSafe (VObj true readShown) = true /\ jsonBytes (VObj true readShown) - bodyBytes (getf readShown "message") <= MAX_EVENT_BYTES.
Proof.
  assert (serializePiEvent (fun _ => None) (u "/home/a") readEvent [(u "conversation_id", VStr (u "c1"))] = Some readShown) as H by (vm_compute; reflexivity).
  split; [exact H|]. exact (proj2 (events_are_safe_and_bounded _ _ _ _ _ H)).
Defined.
