(* ===== verification/Codec.v ===== *)
(** Standard-library codecs the sources rely on: UTF-8 and base64url of [Buffer], and
    [JSON.parse].

    Texts are UTF-16 code units, bytes are numbers from 0 to 255.  [utf8Decode] replaces
    malformed input the way [Buffer.toString] does (one U+FFFD for each maximal malformed
    prefix).  A parsed number is kept as the integer it denotes after rounding to a double, or
    as a number that is no integer: the sources ask no more of it.  [Codec] states that a
    decoder undoes an encoder on a domain; the instances compose. *)

From S2P Require Import Prelude Decimal Regex.
From S2P Require Redaction.
From Stdlib Require Import Ascii.
Local Open Scope Z_scope.

(** ** Decoders that undo encoders *)

Class Codec {A B} (dom : A -> Prop) (enc : A -> B) (dec : B -> A) : Prop := codec_law x : dom x -> dec (enc x) = x.

Lemma codec_compose {A B C} (dom : A -> Prop) (dom' : B -> Prop) (enc : A -> B) (dec : B -> A) (enc' : B -> C) (dec' : C -> B)
  `{!Codec dom enc dec} `{!Codec dom' enc' dec'} : (forall x, dom x -> dom' (enc x)) -> Codec dom (enc' ∘ enc) (dec ∘ dec').
Proof. intros H x Hx. cbn. rewrite (codec_law (enc x)) by auto. by apply codec_law. Qed.

Definition isByte (b : Z) : Prop := 0 <= b < 256.
Definition isUnit (c : Z) : Prop := 0 <= c < 65536.

(** ** base64url without padding *)

Definition digit64 (n : Z) : Z := if n <? 26 then 65 + n else if n <? 52 then 71 + n else if n <? 62 then n - 4 else if n =? 62 then 45 else 95.
Definition value64 (c : Z) : Z :=
  if (65 <=? c) && (c <=? 90) then c - 65 else if (97 <=? c) && (c <=? 122) then c - 71
  else if (48 <=? c) && (c <=? 57) then c + 4 else if c =? 45 then 62 else 63.
Definition isDigit64 (c : Z) : bool := is_word c || (c =? 45).

Fixpoint base64url (bs : list Z) : text :=
  match bs with
  | a :: b :: c :: bs =>
      digit64 (a / 4) :: digit64 (a mod 4 * 16 + b / 16) :: digit64 (b mod 16 * 4 + c / 64) :: digit64 (c mod 64) :: base64url bs
  | [a; b] => [digit64 (a / 4); digit64 (a mod 4 * 16 + b / 16); digit64 (b mod 16 * 4)]
  | [a] => [digit64 (a / 4); digit64 (a mod 4 * 16)]
  | [] => []
  end.
(** On a text of base64url digits; the bits left over at the end are dropped. *)
Fixpoint fromBase64url (s : text) : list Z :=
  match s with
  | p :: q :: r :: t :: s =>
      let '(p, q, r, t) := (value64 p, value64 q, value64 r, value64 t) in
      (p * 4 + q / 16) :: (q mod 16 * 16 + r / 4) :: (r mod 4 * 64 + t) :: fromBase64url s
  | [p; q; r] => let '(p, q, r) := (value64 p, value64 q, value64 r) in [p * 4 + q / 16; q mod 16 * 16 + r / 4]
  | [p; q] => [value64 p * 4 + value64 q / 16]
  | _ => []
  end.

Lemma value64_digit64 n : 0 <= n < 64 -> value64 (digit64 n) = n.
Proof. intros H. unfold digit64, value64. repeat case_match; boolify; lia. Qed.
Lemma digit64_isDigit64 n : 0 <= n < 64 -> isDigit64 (digit64 n) = true.
Proof. intros H. unfold digit64, isDigit64, is_word. repeat case_match; boolify; lia. Qed.

(** Induction in groups of three bytes. *)
Lemma triples_ind {A} (P : list A -> Prop) :
  P [] -> (forall a, P [a]) -> (forall a b, P [a; b]) -> (forall a b c l, P l -> P (a :: b :: c :: l)) -> forall l, P l.
Proof. intros H0 H1 H2 H3. fix IH 1. intros [|a [|b [|c l]]]; [exact H0|apply H1|apply H2|apply H3, IH]. Qed.

Ltac byteSplit := Z.div_mod_to_equations; lia.
#[global] Instance base64url_codec : Codec (Forall isByte) base64url fromBase64url.
Proof.
  intros bs. induction bs as [|a|a b|a b c bs IH] using triples_ind; intros H; [done|..];
    repeat match goal with H : Forall _ (_ :: _) |- _ => apply Forall_cons in H as [? H] end; unfold isByte in *; cbn [base64url fromBase64url];
    rewrite ?value64_digit64 by byteSplit; [repeat f_equal; byteSplit..|]. rewrite IH by done. repeat f_equal; byteSplit.
Qed.
Lemma base64url_digits bs : Forall isByte bs -> forallb isDigit64 (base64url bs) = true.
Proof.
  induction bs as [|a|a b|a b c bs IH] using triples_ind; intros H; [done|..];
    repeat match goal with H : Forall _ (_ :: _) |- _ => apply Forall_cons in H as [? H] end; unfold isByte in *; cbn [base64url forallb];
    rewrite ?digit64_isDigit64 by byteSplit; auto.
Qed.

(** ** UTF-8 *)

Definition REPLACEMENT : Z := 65533.
Definition utf8Point (p : text) : list Z :=
  match p with
  | [c] =>
      if c <? 128 then [c] else if c <? 2048 then [192 + c / 64; 128 + c mod 64]
      else if isHigh c || isLow c then [239; 191; 189]
      else [224 + c / 4096; 128 + c / 64 mod 64; 128 + c mod 64]
  | h :: l :: _ =>
      let n := 65536 + (h - 55296) * 1024 + (l - 56320) in
      [240 + n / 262144; 128 + n / 4096 mod 64; 128 + n / 64 mod 64; 128 + n mod 64]
  | [] => []
  end.
Definition utf8 (s : text) : list Z := concat (map utf8Point (codePoints s)).

Definition isCont (b : Z) : bool := (128 <=? b) && (b <=? 191).
(** The second byte a lead byte of three or four bytes allows. *)
Definition second3 (a b : Z) : bool := if a =? 224 then (160 <=? b) && (b <=? 191) else if a =? 237 then (128 <=? b) && (b <=? 159) else isCont b.
Definition second4 (a b : Z) : bool := if a =? 240 then (144 <=? b) && (b <=? 191) else if a =? 244 then (128 <=? b) && (b <=? 143) else isCont b.
Definition fromPoint (n : Z) : text := if n <? 65536 then [n] else [55296 + (n - 65536) / 1024; 56320 + (n - 65536) mod 1024].
Fixpoint utf8Decode (bs : list Z) : text :=
  match bs with
  | [] => []
  | a :: r =>
      if a <? 128 then a :: utf8Decode r
      else if (194 <=? a) && (a <=? 223) then
        match r with
        | b :: r1 => if isCont b then ((a - 192) * 64 + (b - 128)) :: utf8Decode r1 else REPLACEMENT :: utf8Decode r
        | [] => [REPLACEMENT]
        end
      else if (224 <=? a) && (a <=? 239) then
        match r with
        | b :: r1 =>
            if second3 a b then
              match r1 with
              | c :: r2 => if isCont c then ((a - 224) * 4096 + (b - 128) * 64 + (c - 128)) :: utf8Decode r2 else REPLACEMENT :: utf8Decode r1
              | [] => [REPLACEMENT]
              end
            else REPLACEMENT :: utf8Decode r
        | [] => [REPLACEMENT]
        end
      else if (240 <=? a) && (a <=? 244) then
        match r with
        | b :: r1 =>
            if second4 a b then
              match r1 with
              | c :: r2 =>
                  if isCont c then
                    match r2 with
                    | d :: r3 =>
                        if isCont d then fromPoint ((a - 240) * 262144 + (b - 128) * 4096 + (c - 128) * 64 + (d - 128)) ++ utf8Decode r3
                        else REPLACEMENT :: utf8Decode r2
                    | [] => [REPLACEMENT]
                    end
                  else REPLACEMENT :: utf8Decode r1
              | [] => [REPLACEMENT]
              end
            else REPLACEMENT :: utf8Decode r
        | [] => [REPLACEMENT]
        end
      else REPLACEMENT :: utf8Decode r
  end.

(** Texts without lone surrogates. *)
Definition scalarPoint (p : text) : Prop :=
  match p with
  | [c] => isUnit c /\ isHigh c = false /\ isLow c = false
  | [h; l] => isHigh h = true /\ isLow l = true
  | _ => False
  end.
Definition wellFormed (s : text) : Prop := Forall scalarPoint (codePoints s).

(** Decide the tests of the decoder on the bytes of an encoded point. *)
Ltac byteTest :=
  match goal with
  | |- context [if ?b then _ else _] =>
      first [ replace b with true by (symmetry; unfold second3, second4, isCont; repeat case_match; boolify; byteSplit)
            | replace b with false by (symmetry; unfold second3, second4, isCont; repeat case_match; boolify; byteSplit) ]
  end; cbv iota.

Lemma utf8Decode_unit c bs : isUnit c -> isHigh c = false -> isLow c = false -> utf8Decode (utf8Point [c] ++ bs) = c :: utf8Decode bs.
Proof.
  intros Hc Hh Hl. cbn [utf8Point]. rewrite Hh, Hl. cbn [orb]. unfold isUnit, isHigh, isLow in *.
  destruct (Z.ltb_spec c 128); [cbn [app utf8Decode]; by byteTest|].
  destruct (Z.ltb_spec c 2048); cbn [app utf8Decode]; repeat byteTest; f_equal; byteSplit.
Qed.
Lemma utf8Decode_pair h l bs : isHigh h = true -> isLow l = true -> utf8Decode (utf8Point [h; l] ++ bs) = h :: l :: utf8Decode bs.
Proof.
  unfold isHigh, isLow. intros Hh Hl. boolify. cbn [utf8Point]. set (n := 65536 + (h - 55296) * 1024 + (l - 56320)).
  assert (65536 <= n <= 1114111) as Hn by (subst n; lia). assert (h = 55296 + (n - 65536) / 1024) as Eh by (subst n; byteSplit).
  assert (l = 56320 + (n - 65536) mod 1024) as El by (subst n; byteSplit). clearbody n. subst h l. clear -Hn.
  cbn [app utf8Decode]. repeat byteTest. unfold fromPoint.
  replace ((240 + n / 262144 - 240) * 262144 + (128 + n / 4096 mod 64 - 128) * 4096 + (128 + n / 64 mod 64 - 128) * 64 + (128 + n mod 64 - 128)) with n by byteSplit.
  by byteTest.
Qed.
Lemma utf8Decode_point p bs : scalarPoint p -> utf8Decode (utf8Point p ++ bs) = p ++ utf8Decode bs.
Proof.
  destruct p as [|c [|l [|]]]; try done; cbn [scalarPoint].
  - intros (? & ? & ?). by apply utf8Decode_unit.
  - intros (? & ?). by apply utf8Decode_pair.
Qed.

#[global] Instance utf8_codec : Codec wellFormed utf8 utf8Decode.
Proof.
  intros s Hs. unfold utf8, wellFormed in *. rewrite <- (concat_codePoints s) at 2.
  induction Hs as [|p l Hp Hl IH]; [done|]. cbn [map concat]. by rewrite utf8Decode_point, IH.
Qed.
Lemma utf8_bytes s : wellFormed s -> Forall isByte (utf8 s).
Proof.
  unfold wellFormed, utf8. induction 1 as [|p l Hp Hl IH]; [constructor|]. cbn [map concat]. apply Forall_app. split; [|done].
  destruct p as [|c [|d [|]]]; try done; cbn [scalarPoint] in Hp; unfold isUnit, isHigh, isLow in Hp; destruct_and?; boolify; cbn [utf8Point].
  - repeat case_match; boolify; repeat constructor; byteSplit.
  - repeat constructor; byteSplit.
Qed.

(** ** [JSON.parse] *)

Inductive jv : Type :=
| PNull | PBool (b : bool) | PInt (z : Z) | PNotInt | PStr (s : text) | PArr (l : list jv) | PObj (l : list (text * jv)).

(** The integer a non-negative rational [n / d] denotes as a double, if it denotes one: [e] is
    the exponent of the last bit, the significand is rounded half to even. *)
Definition roundHalfEven (n d : Z) : Z :=
  let q := n / d in let r := 2 * (n mod d) in
  if (d <? r) || ((r =? d) && Z.odd q) then q + 1 else q.
Definition doubleInt (n d : Z) : option Z :=
  if n =? 0 then Some 0
  else
    let k := Z.log2 n - Z.log2 d in
    let below := if 0 <=? k then n <? d * 2 ^ k else n * 2 ^ (- k) <? d in
    let e := Z.max ((if below then k - 1 else k) - 52) (-1074) in
    if 0 <=? e then
      let v := roundHalfEven n (d * 2 ^ e) * 2 ^ e in if v <? 2 ^ 1024 then Some v else None
    else
      let m := roundHalfEven (n * 2 ^ (- e)) d in if m mod 2 ^ (- e) =? 0 then Some (m / 2 ^ (- e)) else None.

Definition isDigit (c : Z) : bool := (48 <=? c) && (c <=? 57).
(** A run of digits: its value, its length and the rest. *)
Fixpoint digitRun (acc : Z) (n : nat) (s : text) : Z * nat * text :=
  match s with
  | c :: s' => if isDigit c then digitRun (acc * 10 + (c - 48)) (S n) s' else (acc, n, s)
  | [] => (acc, n, [])
  end.
(** [int]: a digit, or a run of digits that does not start with 0. *)
Definition parseInt (s : text) : option (Z * text) :=
  match s with
  | c :: s' => if c =? 48 then Some (0, s') else if isDigit c then let '(v, _, r) := digitRun 0 0 s in Some (v, r) else None
  | [] => None
  end.
(** [frac]: the digits appended to the integer part, and how many there are. *)
Definition parseFrac (v : Z) (s : text) : option (Z * nat * text) :=
  match s with
  | c :: s' => if c =? 46 then let '(v', n, r) := digitRun v 0 s' in if (n =? 0)%nat then None else Some (v', n, r) else Some (v, 0%nat, s)
  | [] => Some (v, 0%nat, s)
  end.
Definition parseExp (s : text) : option (Z * text) :=
  match s with
  | c :: s' =>
      if (c =? 101) || (c =? 69) then
        let '(sign, s') := match s' with 43 :: r => (1, r) | 45 :: r => (-1, r) | _ => (1, s') end in
        let '(v, n, r) := digitRun 0 0 s' in if (n =? 0)%nat then None else Some (sign * v, r)
      else Some (0, s)
  | [] => Some (0, s)
  end.
Definition numberValue (negative : bool) (m e : Z) : jv :=
  match (if 0 <=? e then doubleInt (m * 10 ^ e) 1 else doubleInt m (10 ^ (- e))) with
  | Some z => PInt (if negative then - z else z)
  | None => PNotInt
  end.
Definition parseNumber (s : text) : option (jv * text) :=
  let '(negative, s) := match s with c :: r => if c =? 45 then (true, r) else (false, s) | [] => (false, s) end in
  '(i, s) ← parseInt s;
  '(m, n, s) ← parseFrac i s;
  '(e, s) ← parseExp s;
  Some (numberValue negative m (e - Z.of_nat n), s).

Definition hexValue (c : Z) : option Z :=
  if isDigit c then Some (c - 48) else if (97 <=? c) && (c <=? 102) then Some (c - 87) else if (65 <=? c) && (c <=? 70) then Some (c - 55) else None.
Definition unescape (c : Z) : option Z :=
  if (c =? 34) || (c =? 92) || (c =? 47) then Some c
  else if c =? 98 then Some 8 else if c =? 102 then Some 12 else if c =? 110 then Some 10 else if c =? 114 then Some 13 else if c =? 116 then Some 9 else None.
(** A string after its opening quote. *)
Fixpoint parseChars (s : text) : option (text * text) :=
  match s with
  | [] => None
  | c :: r =>
      if c =? 34 then Some ([], r)
      else if c =? 92 then
        match r with
        | e :: r' =>
            if e =? 117 then
              match r' with
              | w :: x :: y :: z :: r' =>
                  w ← hexValue w; x ← hexValue x; y ← hexValue y; z ← hexValue z;
                  '(t, rest) ← parseChars r'; Some ((w * 4096 + x * 256 + y * 16 + z) :: t, rest)
              | _ => None
              end
            else e ← unescape e; '(t, rest) ← parseChars r'; Some (e :: t, rest)
        | [] => None
        end
      else if c <? 32 then None
      else '(t, rest) ← parseChars r; Some (c :: t, rest)
  end.

Fixpoint skipSpace (s : text) : text :=
  match s with c :: r => if (c =? 32) || (c =? 9) || (c =? 10) || (c =? 13) then skipSpace r else s | [] => [] end.
Fixpoint literal (l : text) (s : text) : option text :=
  match l, s with [], _ => Some s | c :: l, d :: s => if c =? d then literal l s else None | _ :: _, [] => None end.
(** A member of an object: the last value of a repeated name, at the place of the first. *)
Fixpoint setMember (k : text) (v : jv) (l : list (text * jv)) : list (text * jv) :=
  match l with [] => [(k, v)] | (k', v') :: l => if bool_decide (k' = k) then (k, v) :: l else (k', v') :: setMember k v l end.

Section Parser.
Context (value : text -> option (jv * text)).
(** The items of an array or the members of an object after the opening bracket; every value
    starts with its own fuel. *)
Definition member (s : text) : option (text * jv * text) :=
  match skipSpace s with
  | c :: r =>
      if c =? 34 then '(k, r) ← parseChars r; match skipSpace r with d :: r => if d =? 58 then '(v, r) ← value r; Some (k, v, r) else None | [] => None end
      else None
  | [] => None
  end.
Fixpoint items (fuel : nat) (acc : list jv) (s : text) : option (jv * text) :=
  match fuel with
  | O => None
  | S fuel =>
      '(v, r) ← value s;
      match skipSpace r with c :: r => if c =? 44 then items fuel (acc ++ [v]) r else if c =? 93 then Some (PArr (acc ++ [v]), r) else None | [] => None end
  end.
Fixpoint members (fuel : nat) (acc : list (text * jv)) (s : text) : option (jv * text) :=
  match fuel with
  | O => None
  | S fuel =>
      '(k, v, r) ← member s;
      match skipSpace r with c :: r => if c =? 44 then members fuel (setMember k v acc) r else if c =? 125 then Some (PObj (setMember k v acc), r) else None | [] => None end
  end.
End Parser.

Fixpoint parseValue (fuel : nat) (s : text) : option (jv * text) :=
  match fuel with
  | O => None
  | S fuel =>
      match skipSpace s with
      | [] => None
      | c :: r =>
          if c =? 34 then '(t, r) ← parseChars r; Some (PStr t, r)
          else if c =? 91 then match skipSpace r with c :: r' => if c =? 93 then Some (PArr [], r') else items (parseValue fuel) (length s) [] r | [] => None end
          else if c =? 123 then match skipSpace r with c :: r' => if c =? 125 then Some (PObj [], r') else members (parseValue fuel) (length s) [] r | [] => None end
          else match literal (u "null") (c :: r), literal (u "true") (c :: r), literal (u "false") (c :: r) with
               | Some r, _, _ => Some (PNull, r)
               | _, Some r, _ => Some (PBool true, r)
               | _, _, Some r => Some (PBool false, r)
               | None, None, None => parseNumber (c :: r)
               end
      end
  end.
(** [None] is a thrown [SyntaxError].  The fuel bounds the nesting; every value, item and member
    takes a character, so the length of the text is enough ([parseValue_fuel]). *)
Definition parseJson (s : text) : option jv :=
  match parseValue (S (length s)) s with Some (v, r) => match skipSpace r with [] => Some v | _ => None end | None => None end.

Example parse_example : parseJson (u "{ 'a':[1,-2.5e1, 0.5 ,'x\n'],'b':null,'a':true }") = None.
Proof. vm_compute. reflexivity. Qed.
Example parse_object : parseJson ([123; 34; 97; 34; 58] ++ u "[1,-2.5e1, 0.5 ,9007199254740993]" ++ [125]) =
  Some (PObj [(u "a", PArr [PInt 1; PInt (-25); PNotInt; PInt 9007199254740992])]).
Proof. vm_compute. reflexivity. Qed.

(** ** Parsing what [JSON.stringify] printed *)

(** What may follow a number. *)
Definition afterNumber (s : text) : bool :=
  match s with c :: _ => negb (isDigit c || (c =? 46) || (c =? 101) || (c =? 69)) | [] => true end.
Definition unitOf (c : ascii) : Z := Z.of_N (N_of_ascii c).

Lemma digitRun_digits l : forall acc n rest, forallb is_digit l = true -> afterNumber rest = true -> 0 <= acc ->
  digitRun acc n (map unitOf l ++ rest) = (Z.of_N (digits_fold (Z.to_N acc) l), (n + length l)%nat, rest).
Proof.
  induction l as [|c l IH]; intros acc n rest Hl Hr Hacc; cbn [map app].
  - cbn. rewrite Z2N.id by done. rewrite Nat.add_0_r. destruct rest as [|d rest]; [done|]. cbn in *. destruct (isDigit d); done.
  - cbn in Hl. boolify. cbn [digitRun]. unfold is_digit in H. boolify.
    assert (isDigit (unitOf c) = true) as -> by (unfold isDigit, unitOf; apply andb_true_iff; split; apply Z.leb_le; lia).
    unfold unitOf in *. rewrite IH by (done || lia). cbn [length]. rewrite Nat.add_succ_r. f_equal. f_equal. f_equal.
    unfold digits_fold. cbn [fold_left]. f_equal. unfold digit_val. lia.
Qed.

Lemma doubleInt_exact z : 0 <= z < 2 ^ 53 -> doubleInt z 1 = Some z.
Proof.
  intros Hz. unfold doubleInt. destruct (Z.eqb_spec z 0) as [->|Hn]; [done|]. cbv zeta.
  change (Z.log2 1) with 0. rewrite Z.sub_0_r. pose proof (Z.log2_spec z ltac:(lia)) as [Hlo Hhi]. pose proof (Z.log2_nonneg z).
  assert (Z.log2 z < 53) by (apply Z.log2_lt_pow2; lia).
  rewrite (proj2 (Z.leb_le 0 (Z.log2 z))) by done. rewrite Z.mul_1_l. rewrite (proj2 (Z.ltb_ge z (2 ^ Z.log2 z))) by done.
  rewrite Z.max_l by lia. assert (forall n, roundHalfEven n 1 = n) as HR.
  { intros n. unfold roundHalfEven. rewrite Z.div_1_r, Z.mod_1_r. done. }
  destruct (Z.leb_spec 0 (Z.log2 z - 52)).
  - replace (Z.log2 z - 52) with 0 by lia. rewrite Z.pow_0_r, HR, !Z.mul_1_r. cbv zeta. rewrite (proj2 (Z.ltb_lt z (2 ^ 1024))); [done|].
    etrans; [apply Hz|]. by vm_compute.
  - rewrite HR. assert (0 < 2 ^ (- (Z.log2 z - 52))) by (apply Z.pow_pos_nonneg; lia). rewrite Z.mod_mul, Z.div_mul by lia. done.
Qed.

(** The first character of a printed positive number is not 0. *)
Lemma pretty_go_head x s : (0 < x)%N -> exists c s', pretty_N_go x s = String c s' /\ unitOf c <> 48.
Proof.
  revert s. induction (N.lt_wf_0 x) as [x _ IH]; intros s Hx. rewrite pretty_N_go_step by done.
  destruct (N.eq_0_gt_0_cases (x / 10)) as [H0|Hp].
  - rewrite H0, pretty_N_go_0. eexists _, _. split; [done|]. apply N.div_small_iff in H0; [|done]. rewrite N.mod_small by done.
    assert (x = 1 \/ x = 2 \/ x = 3 \/ x = 4 \/ x = 5 \/ x = 6 \/ x = 7 \/ x = 8 \/ x = 9)%N as Hc by lia.
    by repeat (destruct Hc as [->|Hc]; [vm_compute; discriminate|]); subst.
  - apply IH; [by apply N.div_lt|done].
Qed.

Lemma u_map s : u s = map unitOf (chars s).
Proof. done. Qed.

(** A character a value can start with. *)
Definition valueStart (c : Z) : bool := isDigit c || existsb (Z.eqb c) [45; 34; 91; 123; 110; 116; 102].

Lemma parseInt_pretty n rest : afterNumber rest = true -> parseInt (u (pretty n) ++ rest) = Some (Z.of_N n, rest).
Proof.
  intros Hr. destruct (pretty_N_spec n) as (Hd & Hv & _). unfold all_digits, digits_val in *.
  destruct n as [|p]; [done|]. unfold pretty, pretty_N in *. rewrite decide_False in * by done.
  destruct (pretty_go_head (N.pos p) "") as (c & s & E & Hc); [done|]. rewrite E in *. rewrite u_map. cbn [chars String.list_ascii_of_string] in *.
  pose proof (digitRun_digits (c :: String.list_ascii_of_string s) 0 0 rest Hd Hr ltac:(done)) as HR.
  cbn [map app] in *. cbn [parseInt]. rewrite (proj2 (Z.eqb_neq _ _) Hc).
  cbn in Hd. apply andb_true_iff in Hd as [Hdc _]. unfold is_digit in Hdc. change (isDigit (unitOf c) = true) in Hdc. rewrite Hdc, HR.
  change (Z.to_N 0) with 0%N. unfold chars in Hv. cbn [String.list_ascii_of_string] in Hv. rewrite Hv. done.
Qed.

Lemma parseFrac_none v rest : afterNumber rest = true -> parseFrac v rest = Some (v, 0%nat, rest).
Proof. destruct rest as [|c rest]; [done|]. cbn. destruct (isDigit c), (c =? 46), (c =? 101), (c =? 69); done. Qed.
Lemma parseExp_none rest : afterNumber rest = true -> parseExp rest = Some (0, rest).
Proof. destruct rest as [|c rest]; [done|]. cbn. destruct (isDigit c), (c =? 46), (c =? 101), (c =? 69); done. Qed.

Definition MAX_SAFE : Z := 9007199254740991.
Lemma numberValue_int b z : 0 <= z <= MAX_SAFE -> numberValue b z 0 = PInt (if b then - z else z).
Proof. intros Hz. unfold numberValue, MAX_SAFE in *. cbn [Z.leb Z.compare]. rewrite Z.mul_1_r, doubleInt_exact by lia. done. Qed.

Lemma pretty_digit (n : N) : exists c s, pretty n = String c s /\ isDigit (unitOf c) = true.
Proof.
  destruct (pretty_N_spec n) as (Hd & _ & Hne). destruct (pretty n) as [|c s]; [done|]. exists c, s. split; [done|].
  unfold all_digits, chars in Hd. cbn in Hd. apply andb_true_iff in Hd as [Hd _]. done.
Qed.
Lemma parseNumber_pretty z rest : - MAX_SAFE <= z <= MAX_SAFE -> afterNumber rest = true ->
  parseNumber (u (pretty z) ++ rest) = Some (PInt z, rest).
Proof.
  intros Hz Hr. assert (forall (b : bool) (n : N), 0 <= Z.of_N n <= MAX_SAFE -> ('(i, s) ← parseInt (u (pretty n) ++ rest); '(m, n, s) ← parseFrac i s;
    '(e, s) ← parseExp s; Some (numberValue b m (e - Z.of_nat n), s)) = Some (PInt (if b then - Z.of_N n else Z.of_N n), rest)) as H.
  { intros b n Hn. rewrite parseInt_pretty by done. cbn [mbind option_bind]. rewrite parseFrac_none by done. cbn [mbind option_bind].
    rewrite parseExp_none by done. cbn [mbind option_bind]. rewrite numberValue_int by done. done. }
  unfold parseNumber. destruct z as [|p|p].
  - exact (H false 0%N ltac:(done)).
  - destruct (pretty_digit (N.pos p)) as (c & s & E & Hc). specialize (H false (N.pos p) Hz). change (pretty (Z.pos p)) with (pretty (N.pos p)).
    rewrite E in *. rewrite u_map in *. unfold chars in *. cbn [String.list_ascii_of_string map app] in *.
    destruct (Z.eqb_spec (unitOf c) 45) as [E'|]; [rewrite E' in Hc; done|]. exact H.
  - specialize (H true (N.pos p)). change (pretty (Z.neg p)) with ("-" +:+ pretty (N.pos p)). apply H. lia.
Qed.

Lemma hexValue_hexDigit n : 0 <= n < 16 -> hexValue (Redaction.hexDigit n) = Some n.
Proof. intros H. unfold hexValue, Redaction.hexDigit, isDigit. repeat case_match; boolify; try (f_equal; lia); lia. Qed.
Lemma parseChars_unicode c rest : isUnit c ->
  parseChars ([92; 117] ++ Redaction.hex4 c ++ rest) = ('(t, rest) ← parseChars rest; Some (c :: t, rest)).
Proof.
  intros Hc. unfold isUnit, Redaction.hex4 in *. cbn [app parseChars Z.eqb Pos.eqb].
  rewrite !hexValue_hexDigit by (apply Z.mod_pos_bound; lia). cbn [mbind option_bind].
  replace (c / 4096 mod 16 * 4096 + c / 256 mod 16 * 256 + c / 16 mod 16 * 16 + c mod 16) with c by byteSplit. done.
Qed.
Lemma parseChars_raw c rest : c <> 34 -> c <> 92 -> 32 <= c -> parseChars (c :: rest) = ('(t, rest) ← parseChars rest; Some (c :: t, rest)).
Proof.
  intros H1 H2 H3. cbn [parseChars]. rewrite (proj2 (Z.eqb_neq c 34)), (proj2 (Z.eqb_neq c 92)), (proj2 (Z.ltb_ge c 32)) by done. done.
Qed.
Lemma parseChars_escape paired c rest : isUnit c ->
  parseChars (Redaction.escape paired c ++ rest) = ('(t, rest) ← parseChars rest; Some (c :: t, rest)).
Proof.
  intros Hc. unfold Redaction.escape.
  repeat match goal with |- context [if c =? ?n then _ else _] => destruct (Z.eqb_spec c n) as [->|]; [reflexivity|] end.
  destruct (_ || _) eqn:E; [rewrite <- app_assoc; by apply parseChars_unicode|]. apply orb_false_iff in E as [E _]. boolify. by apply parseChars_raw.
Qed.
Lemma parseChars_quoteBody s : forall b rest, Forall isUnit s -> parseChars (Redaction.quoteBody b s ++ 34 :: rest) = Some (s, rest).
Proof.
  induction s as [|c s IH]; intros b rest Hs; [done|]. apply Forall_cons in Hs as [Hc Hs]. cbn [Redaction.quoteBody].
  rewrite <- app_assoc, parseChars_escape, IH by done. done.
Qed.

(** *** Values *)

(** [v] is printed as JSON that denotes [w]. *)
Inductive denotes : Redaction.json -> jv -> Prop :=
| den_null : denotes Redaction.JNull PNull
| den_bool b : denotes (Redaction.JBool b) (PBool b)
| den_int z : - MAX_SAFE <= z <= MAX_SAFE -> denotes (Redaction.JNum (u (pretty z))) (PInt z)
| den_str s : Forall isUnit s -> denotes (Redaction.JStr s) (PStr s)
| den_arr l l' : denotesAll l l' -> denotes (Redaction.JArr l) (PArr l')
| den_obj l l' : denotesMembers l l' -> NoDup l'.*1 -> denotes (Redaction.JObj l) (PObj l')
with denotesAll : list Redaction.json -> list jv -> Prop :=
| den_nil : denotesAll [] []
| den_cons v w l l' : denotes v w -> denotesAll l l' -> denotesAll (v :: l) (w :: l')
with denotesMembers : list (text * Redaction.json) -> list (text * jv) -> Prop :=
| den_mnil : denotesMembers [] []
| den_mcons k v w l l' : Forall isUnit k -> denotes v w -> denotesMembers l l' -> denotesMembers ((k, v) :: l) ((k, w) :: l').
Scheme denotes_mut := Minimality for denotes Sort Prop
with denotesAll_mut := Minimality for denotesAll Sort Prop
with denotesMembers_mut := Minimality for denotesMembers Sort Prop.
Combined Scheme denotes_ind3 from denotes_mut, denotesAll_mut, denotesMembers_mut.

(** A printed value: how it starts, and that any fuel of its length parses it back in front of
    what may follow. *)
Definition reads (t : text) (w : jv) : Prop :=
  (exists c t', t = c :: t' /\ valueStart c = true) /\
  forall fuel rest, (length t <= fuel)%nat -> afterNumber rest = true -> parseValue fuel (t ++ rest) = Some (w, rest).

Lemma valueStart_space c s : valueStart c = true -> skipSpace (c :: s) = c :: s.
Proof.
  intros H. cbn [skipSpace]. destruct (_ || _ || _ || _) eqn:E; [|done]. exfalso. unfold valueStart, isDigit in H. cbn in H. lia.
Qed.

Lemma reads_number z : - MAX_SAFE <= z <= MAX_SAFE -> reads (u (pretty z)) (PInt z).
Proof.
  intros Hz. assert (exists c t', u (pretty z) = c :: t' /\ (isDigit c = true \/ c = 45)) as (c & t' & E & Hc).
  { destruct z as [|p|p]; [eexists _, _; split; [done|by left]|..].
    - destruct (pretty_digit (N.pos p)) as (c & s & E & Hc). change (pretty (Z.pos p)) with (pretty (N.pos p)). rewrite E. eexists _, _. split; [done|]. by left.
    - eexists _, _. split; [done|]. by right. }
  split.
  - exists c, t'. split; [done|]. unfold valueStart. destruct Hc as [->| ->]; [done|]. reflexivity.
  - intros [|fuel] rest Hf Hr; [rewrite E in Hf; cbn in Hf; lia|]. pose proof (parseNumber_pretty z rest Hz Hr) as HN. rewrite E in *.
    cbn [app parseValue] in *. rewrite valueStart_space by (unfold valueStart; destruct Hc as [->| ->]; done).
    assert (forall n, n ∈ [34; 91; 123; 110; 116; 102] -> c =? n = false) as HF.
    { intros n Hn. apply Z.eqb_neq. intros ->. destruct Hc as [Hc|Hc]; set_unfold; naive_solver. }
    rewrite !HF by set_solver. cbn [u chars String.list_ascii_of_string fmap list_fmap literal].
    assert (forall n, n ∈ [110; 116; 102] -> n =? c = false) as HF' by (intros n Hn; rewrite Z.eqb_sym; apply HF; set_solver).
    cbn. rewrite !HF' by set_solver. exact HN.
Qed.

Lemma reads_string s : Forall isUnit s -> reads (Redaction.quote s) (PStr s).
Proof.
  intros Hs. split; [by eexists _, _|]. intros [|fuel] rest Hf Hr; [cbn in Hf; lia|]. unfold Redaction.quote. cbn [app parseValue skipSpace Z.eqb Pos.eqb orb].
  rewrite <- app_assoc. cbn [app]. rewrite parseChars_quoteBody by done. done.
Qed.

Lemma parseValue_head fuel t w rest : reads t w -> (length t <= fuel)%nat -> afterNumber rest = true -> parseValue fuel (t ++ rest) = Some (w, rest).
Proof. intros [_ H]. apply H. Qed.

Lemma items_reads fuel ts ws : Forall2 reads ts ws -> forall n acc rest, ts <> [] -> (length ts <= n)%nat -> Forall (fun t => (length t <= fuel)%nat) ts ->
  items (parseValue fuel) n acc (Redaction.joinComma ts ++ 93 :: rest) = Some (PArr (acc ++ ws), rest).
Proof.
  induction 1 as [|t w ts ws Hr Hrs IH]; intros n acc rest Hne Hn Hf; [done|]. destruct n as [|n]; [cbn in Hn; lia|]. apply Forall_cons in Hf as [Hf Hfs].
  cbn [items Redaction.joinComma]. destruct ts as [|t' ts].
  - rewrite parseValue_head with (w := w) by done. cbn [mbind option_bind skipSpace]. inversion Hrs. done.
  - rewrite <- !app_assoc. rewrite parseValue_head with (w := w) by done. cbn [mbind option_bind app skipSpace Z.eqb Pos.eqb orb].
    rewrite IH by (done || (cbn in *; lia)). by rewrite <- app_assoc.
Qed.

Lemma joinComma_lengths ts : Forall (fun t => (1 <= length t)%nat) ts ->
  (length ts <= length (Redaction.joinComma ts))%nat /\ Forall (fun t => (length t <= length (Redaction.joinComma ts))%nat) ts.
Proof.
  induction 1 as [|t ts Ht Hts [IH1 IH2]]; [done|]. cbn [Redaction.joinComma length]. destruct ts as [|t' ts].
  - split; [cbn; lia|]. by repeat constructor.
  - rewrite !length_app. cbn [length] in *. split; [lia|]. constructor; [lia|]. eapply Forall_impl; [exact IH2|]. cbn. intros; lia.
Qed.
Lemma reads_nonempty t w : reads t w -> (1 <= length t)%nat.
Proof. intros [(c & t' & -> & _) _]. cbn. lia. Qed.

Lemma reads_array ts ws : Forall2 reads ts ws -> reads ([91] ++ Redaction.joinComma ts ++ [93]) (PArr ws).
Proof.
  intros H. split; [by eexists _, _|]. intros [|fuel] rest Hf Hr; [cbn in Hf; lia|]. cbn [app parseValue skipSpace Z.eqb Pos.eqb orb].
  rewrite length_app in Hf. cbn [length] in Hf. rewrite length_app in Hf. cbn [length] in Hf. rewrite <- app_assoc. cbn [app].
  destruct (joinComma_lengths ts) as [Hl Hls].
  { clear -H. induction H as [|t w ts ws Ht H IH]; constructor; [by eapply reads_nonempty|done]. }
  destruct ts as [|t ts]; [inversion H; done|].
  assert (exists c s, Redaction.joinComma (t :: ts) ++ 93 :: rest = c :: s /\ valueStart c = true) as (c & s & E & Hc).
  { inversion H as [|?? ? ? [(c & t' & -> & Hc) _]]. exists c. cbn [Redaction.joinComma]. destruct ts; eexists; (split; [reflexivity|done]). }
  rewrite E, valueStart_space by done. destruct (Z.eqb_spec c 93) as [->|]; [done|]. rewrite <- E.
  apply (items_reads fuel (t :: ts) ws H _ [] rest); [done| |].
  - cbn [length]. rewrite length_app. cbn [length] in *. unfold text in *. lia.
  - eapply Forall_impl; [exact Hls|]. cbn [length]. intros; unfold text in *; lia.
Qed.

(** *** Objects *)

Definition memberText (kt : text * text) : text := Redaction.quote kt.1 ++ [58] ++ kt.2.
Definition readsMember (kt : text * text) (kw : text * jv) : Prop := kt.1 = kw.1 /\ Forall isUnit kt.1 /\ reads kt.2 kw.2.

Lemma setMember_new k v l : k ∉ l.*1 -> setMember k v l = l ++ [(k, v)].
Proof.
  induction l as [|[k' v'] l IH]; intros H; [done|]. cbn in *. rewrite bool_decide_eq_false_2 by set_solver. rewrite IH by set_solver. done.
Qed.
Lemma member_reads fuel kt kw rest : readsMember kt kw -> (length kt.2 <= fuel)%nat -> afterNumber rest = true ->
  member (parseValue fuel) (memberText kt ++ rest) = Some (kw.1, kw.2, rest).
Proof.
  intros (Hk & Hu & Hr) Hf Ha. destruct kt as [k t], kw as [k' w]. cbn in *. subst k'. unfold member, memberText, Redaction.quote. cbn [fst snd app skipSpace Z.eqb Pos.eqb orb].
  rewrite <- !app_assoc. cbn [app]. rewrite parseChars_quoteBody by done. cbn [mbind option_bind skipSpace Z.eqb Pos.eqb orb].
  rewrite parseValue_head with (w := w) by done. done.
Qed.
Lemma members_reads fuel kts kws : Forall2 readsMember kts kws -> forall n acc rest, kts <> [] -> (length kts <= n)%nat ->
  Forall (fun kt => (length kt.2 <= fuel)%nat) kts -> NoDup (acc.*1 ++ kws.*1) ->
  members (parseValue fuel) n acc (Redaction.joinComma (map memberText kts) ++ 125 :: rest) = Some (PObj (acc ++ kws), rest).
Proof.
  induction 1 as [|kt kw kts kws Hr Hrs IH]; intros n acc rest Hne Hn Hf Hd; [done|]. destruct n as [|n]; [cbn in Hn; lia|]. apply Forall_cons in Hf as [Hf Hfs].
  assert (kw.1 ∉ acc.*1) as Hnew.
  { apply NoDup_app in Hd as (_ & Hd & _). intros Hin. apply (Hd _ Hin). cbn. set_solver. }
  cbn [members map Redaction.joinComma]. destruct kts as [|kt' kts].
  - cbn [map]. rewrite member_reads with (kw := kw) by done. cbn [mbind option_bind skipSpace Z.eqb Pos.eqb orb]. rewrite setMember_new by done.
    inversion Hrs. by destruct kw.
  - cbn [map]. rewrite <- !app_assoc. rewrite member_reads with (kw := kw) by done. cbn [mbind option_bind app skipSpace Z.eqb Pos.eqb orb].
    rewrite setMember_new by done. destruct kw as [k w]. cbn [fst snd] in *. cbn [map] in IH. rewrite IH; [by rewrite <- app_assoc|done|cbn in *; lia|done|].
    rewrite fmap_app, <- app_assoc. exact Hd.
Qed.

Lemma reads_object kts kws : Forall2 readsMember kts kws -> NoDup kws.*1 -> reads ([123] ++ Redaction.joinComma (map memberText kts) ++ [125]) (PObj kws).
Proof.
  intros H Hd. split; [by eexists _, _|]. intros [|fuel] rest Hf Hr; [cbn in Hf; lia|]. cbn [app parseValue skipSpace Z.eqb Pos.eqb orb].
  rewrite length_app in Hf. cbn [length] in Hf. rewrite length_app in Hf. cbn [length] in Hf. rewrite <- app_assoc. cbn [app].
  destruct (joinComma_lengths (map memberText kts)) as [Hl Hls].
  { apply Forall_map, Forall_true. intros kt. unfold memberText. rewrite length_app. cbn. lia. }
  destruct kts as [|kt kts]; [inversion H; done|].
  assert (exists s, Redaction.joinComma (map memberText (kt :: kts)) ++ 125 :: rest = 34 :: s) as (s & E).
  { cbn [map Redaction.joinComma]. destruct (map memberText kts); eexists; reflexivity. }
  rewrite E. cbn [skipSpace Z.eqb Pos.eqb orb]. rewrite <- E.
  apply (members_reads fuel (kt :: kts) kws H _ [] rest); [done| | |done].
  - rewrite length_map in Hl. cbn [length] in *. rewrite length_app. cbn [length] in *. unfold text in *. lia.
  - apply Forall_map in Hls. eapply Forall_impl; [exact Hls|]. intros kt' Hkt'. cbv beta in Hkt'.
    assert (length kt'.2 < length (memberText kt'))%nat by (unfold memberText; rewrite !length_app; cbn [length]; unfold text in *; lia). unfold text in *. cbn [length] in *. lia.
Qed.

(** Whatever [JSON.stringify] printed reads back as the same value. *)
Lemma stringify_reads v w : denotes v w -> exists t, Redaction.stringify v = Some t /\ reads t w.
Proof.
  revert v w. apply (denotes_mut (fun v w => exists t, Redaction.stringify v = Some t /\ reads t w)
    (fun l ws => Forall2 reads (map (fun x => nullish (Redaction.stringify x) (u "null")) l) ws)
    (fun l ws => exists kts, omap (fun kv => match kv with (k, x) => (fun t => Redaction.quote k ++ [58] ++ t) <$> Redaction.stringify x end) l = map memberText kts /\
       Forall2 readsMember kts ws)).
  - eexists; split; [done|]. split; [by eexists _, _|]. by intros [|fuel] rest; [cbn; lia|].
  - intros b. eexists; split; [done|]. split; [by destruct b; eexists _, _|]. destruct b; (intros [|fuel] rest; [cbn; lia|done]).
  - intros z Hz. eexists; split; [done|]. by apply reads_number.
  - intros s Hs. eexists; split; [done|]. by apply reads_string.
  - intros l ws _ IH. eexists; split; [done|]. by apply reads_array.
  - intros l ws _ (kts & E & H) Hd. exists ([123] ++ Redaction.joinComma (map memberText kts) ++ [125]).
    split; [cbn [Redaction.stringify]; by rewrite <- E|]. by apply reads_object.
  - constructor.
  - intros v w l ws _ (t & E & Ht) _ IH. cbn [map]. rewrite E. by constructor.
  - exists []. by split.
  - intros k v w l ws Hk _ (t & E & Ht) _ (kts & E' & H). exists ((k, t) :: kts). cbn [omap list_omap]. rewrite E. cbn [fmap option_fmap option_map]. rewrite E'.
    split; [done|]. constructor; [by split|done].
Qed.

Lemma parseJson_stringify v w : denotes v w -> exists t, Redaction.stringify v = Some t /\ parseJson t = Some w.
Proof.
  intros (t & E & _ & H)%stringify_reads. exists t. split; [done|]. unfold parseJson.
  specialize (H (S (length t)) []). rewrite app_nil_r in H. rewrite H by (done || lia). done.
Qed.

(** ** Printed JSON has no lone surrogates *)

Inductive wf : text -> Prop :=
| wf_nil : wf []
| wf_unit c s : isUnit c -> isHigh c = false -> isLow c = false -> wf s -> wf (c :: s)
| wf_pair h l s : isHigh h = true -> isLow l = true -> wf s -> wf (h :: l :: s).

Lemma wf_app a b : wf a -> wf b -> wf (a ++ b).
Proof. induction 1; cbn; auto using wf. Qed.
Lemma wf_wellFormed s : wf s -> wellFormed s.
Proof.
  unfold wellFormed. induction 1 as [|c s Hc Hh Hl Hs IH|h l s Hh Hl Hs IH]; [constructor|..]; cbn [codePoints].
  - destruct s as [|d s]; [constructor; [done|constructor]|]. rewrite Hh. cbn [andb]. by constructor.
  - rewrite Hh, Hl. cbn [andb]. by constructor.
Qed.
Definition isAscii (c : Z) : bool := (0 <=? c) && (c <? 128).
Lemma wf_ascii s : forallb isAscii s = true -> wf s.
Proof.
  induction s as [|c s IH]; intros H; [constructor|]. cbn in H. apply andb_true_iff in H as [Hc H]. unfold isAscii in Hc. boolify.
  apply wf_unit; [unfold isUnit; lia|unfold isHigh|unfold isLow|auto]; lia.
Qed.
Lemma hex4_ascii c : forallb isAscii (Redaction.hex4 c) = true.
Proof.
  assert (forall n, isAscii (Redaction.hexDigit (n mod 16)) = true) as H.
  { intros n. pose proof (Z.mod_pos_bound n 16 ltac:(lia)). unfold isAscii, Redaction.hexDigit. case_match; lia. }
  unfold Redaction.hex4. cbn [forallb]. by rewrite !H.
Qed.
Lemma escape_wf paired c : isUnit c -> (isHigh c || isLow c = true -> paired = false) -> wf (Redaction.escape paired c).
Proof.
  intros Hc Hp. unfold Redaction.escape.
  repeat match goal with |- context [if c =? ?n then _ else _] => destruct (c =? n); [by apply wf_ascii|] end.
  assert (wf ([92; 117] ++ Redaction.hex4 c)) as Hu by (apply wf_app; apply wf_ascii; [done|apply hex4_ascii]).
  destruct (isHigh c || isLow c) eqn:Es; [rewrite (Hp eq_refl), orb_true_r; exact Hu|]. rewrite orb_false_r.
  destruct (c <? 32); [exact Hu|]. apply orb_false_iff in Es as [? ?]. constructor; [done..|constructor].
Qed.
Lemma escape_pair c : isHigh c || isLow c = true -> Redaction.escape true c = [c].
Proof.
  intros H. unfold Redaction.escape. unfold isHigh, isLow in *.
  repeat match goal with |- context [if c =? ?n then _ else _] => destruct (Z.eqb_spec c n) as [->|]; [done|] end.
  rewrite andb_false_r, orb_false_r. destruct (Z.ltb_spec c 32); [lia|done].
Qed.
Lemma high_not_low c : isHigh c = true -> isLow c = false.
Proof. unfold isHigh, isLow. lia. Qed.
Lemma quoteBody_wf s : Forall isUnit s -> wf (Redaction.quoteBody false s).
Proof.
  remember (length s) as n eqn:Hn. assert (length s <= n)%nat as Hle by lia. clear Hn. revert s Hle.
  induction n as [|n IH]; intros [|c s] Hle Hs; cbn in Hle; try lia; try constructor. apply Forall_cons in Hs as [Hc Hs].
  cbn [Redaction.quoteBody]. destruct (isHigh c) eqn:Hh; cbn [andb].
  2:{ apply wf_app; [apply escape_wf; [done|]|apply IH; [lia|done]]. done. }
  destruct s as [|d s]; [apply wf_app; [apply escape_wf; done|constructor]|]. destruct (isLow d) eqn:Hl.
  2:{ apply wf_app; [apply escape_wf; done|apply IH; [cbn in *; lia|done]]. }
  apply Forall_cons in Hs as [Hd Hs]. cbn [Redaction.quoteBody]. assert (isHigh d = false) as Hhd by (unfold isHigh, isLow in *; lia). rewrite Hhd. cbn [andb].
  rewrite !escape_pair by (rewrite ?Hh, ?Hl, ?Hhd; done). cbn [app]. apply wf_pair; [done..|]. apply IH; [cbn in *; lia|done].
Qed.
Lemma quote_wf s : Forall isUnit s -> wf (Redaction.quote s).
Proof. intros H. unfold Redaction.quote. apply wf_app; [by apply wf_ascii|]. apply wf_app; [by apply quoteBody_wf|by apply wf_ascii]. Qed.
Lemma joinComma_wf ts : Forall wf ts -> wf (Redaction.joinComma ts).
Proof.
  induction 1 as [|t ts Ht Hts IH]; [constructor|]. cbn [Redaction.joinComma]. destruct ts; [done|].
  apply wf_app; [done|]. by apply wf_app; [apply wf_ascii|].
Qed.
Lemma pretty_wf (z : Z) : wf (u (pretty z)).
Proof.
  assert (forall n : N, wf (u (pretty n))) as H.
  { intros n. apply wf_ascii. destruct (pretty_N_spec n) as [Hd _]. unfold all_digits in Hd. rewrite u_map. induction (chars (pretty n)) as [|c l IH]; [done|].
    cbn in *. boolify. rewrite IH by done. unfold is_digit in *. boolify. unfold isAscii, unitOf. lia. }
  destruct z as [|p|p]; [by apply wf_ascii|apply (H (N.pos p))|]. change (wf (45 :: u (pretty (N.pos p)))). by apply wf_unit.
Qed.
Lemma stringify_wf v w : denotes v w -> forall t, Redaction.stringify v = Some t -> wf t.
Proof.
  revert v w. apply (denotes_mut (fun v _ => forall t, Redaction.stringify v = Some t -> wf t)
    (fun l _ => Forall wf (map (fun x => nullish (Redaction.stringify x) (u "null")) l))
    (fun l _ => Forall wf (omap (fun kv => match kv with (k, x) => (fun t => Redaction.quote k ++ [58] ++ t) <$> Redaction.stringify x end) l))).
  - intros t [= <-]. by apply wf_ascii.
  - intros [] t [= <-]; by apply wf_ascii.
  - intros z _ t [= <-]. apply pretty_wf.
  - intros s Hs t [= <-]. by apply quote_wf.
  - intros l _ _ IH t [= <-]. apply (wf_app [91]); [by apply wf_ascii|]. apply wf_app; [by apply joinComma_wf|by apply wf_ascii].
  - intros l _ _ IH _ t [= <-]. apply (wf_app [123]); [by apply wf_ascii|]. apply wf_app; [by apply joinComma_wf|by apply wf_ascii].
  - constructor.
  - intros v _ l _ _ IH _ IHl. cbn [map]. constructor; [|done]. destruct (Redaction.stringify v); [by apply IH|by apply wf_ascii].
  - constructor.
  - intros k v _ l _ Hk _ IH _ IHl. cbn [omap list_omap]. destruct (Redaction.stringify v) as [t|]; [|done]. cbn [fmap option_fmap option_map].
    constructor; [|done]. apply wf_app; [by apply quote_wf|]. apply wf_app; [by apply wf_ascii|by apply IH].
Qed.

(** ** The fuel of the parser is enough *)

(** A parser that takes at least one character. *)
Definition consumes {A} (p : text -> option (A * text)) : Prop := forall s v r, p s = Some (v, r) -> (length r < length s)%nat.

Lemma skipSpace_length s : (length (skipSpace s) <= length s)%nat.
Proof. induction s as [|c s IH]; cbn [skipSpace]; [done|]. destruct (_ || _); cbn; lia. Qed.
Lemma digitRun_length s : forall acc n, (length (digitRun acc n s).2 <= length s)%nat.
Proof. induction s as [|c s IH]; intros acc n; cbn [digitRun]; [done|]. destruct (isDigit c); [|done]. etrans; [apply IH|]. cbn. lia. Qed.
Lemma parseInt_consumes : consumes parseInt.
Proof.
  intros [|c s] v r H; [done|]. cbn [parseInt] in H. destruct (c =? 48); [injection H as <- <-; cbn; lia|]. destruct (isDigit c) eqn:E; [|done].
  cbn [digitRun] in H. rewrite E in H. pose proof (digitRun_length s (0 * 10 + (c - 48)) 1) as HL. destruct (digitRun _ _ _) as [[v' n] r']. injection H as <- <-. cbn in *. lia.
Qed.
Lemma parseFrac_length v s v' n r : parseFrac v s = Some (v', n, r) -> (length r <= length s)%nat.
Proof.
  destruct s as [|c s]; cbn [parseFrac]; [by intros [= <- <- <-]|]. destruct (c =? 46); [|by intros [= <- <- <-]].
  pose proof (digitRun_length s v 0) as HL. destruct (digitRun _ _ _) as [[x k] r']. destruct (k =? 0)%nat; [done|]. intros [= <- <- <-]. cbn in *. lia.
Qed.
Lemma parseExp_length s e r : parseExp s = Some (e, r) -> (length r <= length s)%nat.
Proof.
  destruct s as [|c s]; cbn [parseExp]; [by intros [= <- <-]|]. destruct (_ || _); [|by intros [= <- <-]].
  set (p := match s with 43 :: _ => _ | _ => _ end). assert (length p.2 <= length s)%nat as Hp by (subst p; repeat case_match; cbn; lia).
  destruct p as [sign s']. cbn in Hp. pose proof (digitRun_length s' 0 0) as HL. destruct (digitRun _ _ _) as [[x k] r']. destruct (k =? 0)%nat; [done|].
  intros [= <- <-]. cbn in *. lia.
Qed.
Lemma parseNumber_consumes : consumes parseNumber.
Proof.
  intros s v r. unfold parseNumber. set (p := match s with _ :: _ => _ | [] => _ end). assert (length p.2 <= length s)%nat as Hp by (subst p; repeat case_match; cbn; lia).
  destruct p as [neg s']. cbn in Hp. destruct (parseInt s') as [[i s1]|] eqn:H1; [|done]. cbn [mbind option_bind]. apply parseInt_consumes in H1.
  destruct (parseFrac i s1) as [[[f n] s2]|] eqn:H2; [|done]. cbn [mbind option_bind]. apply parseFrac_length in H2.
  destruct (parseExp s2) as [[e s3]|] eqn:H3; [|done]. cbn [mbind option_bind]. apply parseExp_length in H3. intros [= <- <-]. lia.
Qed.
Lemma parseChars_consumes : consumes parseChars.
Proof.
  intros s. remember (length s) as n eqn:Hn. assert (length s <= n)%nat as Hle by lia. rewrite Hn. clear Hn. revert s Hle.
  induction n as [|n IH]; intros [|c s] Hle v r; cbn [length] in *; try lia; try done.
  assert (Htail : forall (f : text -> text) s', (length s' <= length s)%nat -> ('(t, rest) ← parseChars s'; Some (f t, rest)) = Some (v, r) -> (length r < S (length s))%nat).
  { intros f s' Hs H. destruct (parseChars s') as [[t rest]|] eqn:E; [|done]. cbn in H. injection H as _ <-. apply IH in E; lia. }
  cbn [parseChars]. destruct (c =? 34); [intros [= <- <-]; lia|]. destruct (c =? 92).
  - destruct s as [|e s]; [done|]. destruct (e =? 117).
    + destruct s as [|w [|x [|y [|z s]]]]; try done. destruct (hexValue w), (hexValue x), (hexValue y), (hexValue z); try done. cbn [mbind option_bind].
      apply (Htail (cons _)). cbn. lia.
    + destruct (unescape e); [|done]. cbn [mbind option_bind]. apply (Htail (cons _)). cbn. lia.
  - destruct (c <? 32); [done|]. apply (Htail (cons _)). lia.
Qed.
Lemma literal_length l : forall s r, literal l s = Some r -> (length r + length l = length s)%nat.
Proof.
  induction l as [|c l IH]; intros s r H; [injection H as <-; cbn; lia|]. destruct s as [|d s]; [done|]. cbn in H. destruct (c =? d); [|done].
  apply IH in H. cbn. lia.
Qed.


Section Enough.
Context (value value' : text -> option (jv * text)).

Lemma member_length s k v r : consumes value -> member value s = Some (k, v, r) -> (length r < length s)%nat.
Proof.
  intros Hv. unfold member. pose proof (skipSpace_length s) as H1. destruct (skipSpace s) as [|c s1]; [done|]. destruct (c =? 34); [|done].
  destruct (parseChars s1) as [[k' s2]|] eqn:E; [|done]. cbn [mbind option_bind]. apply parseChars_consumes in E.
  pose proof (skipSpace_length s2) as H2. destruct (skipSpace s2) as [|d s3]; [done|]. destruct (d =? 58); [|done].
  destruct (value s3) as [[v' s4]|] eqn:E'; [|done]. cbn [mbind option_bind]. apply Hv in E'. intros [= <- <- <-]. cbn in *. lia.
Qed.
Lemma items_length fuel : consumes value -> forall acc s v r, items value fuel acc s = Some (v, r) -> (length r < length s)%nat.
Proof.
  intros Hv. induction fuel as [|fuel IH]; intros acc s v r; [done|]. cbn [items]. destruct (value s) as [[x s1]|] eqn:E; [|done]. cbn [mbind option_bind].
  apply Hv in E. pose proof (skipSpace_length s1) as H1. destruct (skipSpace s1) as [|c s2]; [done|]. cbn in H1.
  destruct (c =? 44); [intros H%IH; lia|]. destruct (c =? 93); [|done]. intros [= <- <-]. lia.
Qed.
Lemma members_length fuel : consumes value -> forall acc s v r, members value fuel acc s = Some (v, r) -> (length r < length s)%nat.
Proof.
  intros Hv. induction fuel as [|fuel IH]; intros acc s v r; [done|]. cbn [members]. destruct (member value s) as [[[k x] s1]|] eqn:E; [|done]. cbn [mbind option_bind].
  apply member_length in E; [|done]. pose proof (skipSpace_length s1) as H1. destruct (skipSpace s1) as [|c s2]; [done|]. cbn in H1.
  destruct (c =? 44); [intros H%IH; lia|]. destruct (c =? 125); [|done]. intros [= <- <-]. lia.
Qed.

(** The loops agree when the values agree on shorter texts, whatever fuel above the length. *)
Lemma member_agree s : (forall t, (length t <= length s)%nat -> value t = value' t) -> member value s = member value' s.
Proof.
  intros H. unfold member. pose proof (skipSpace_length s) as H1. destruct (skipSpace s) as [|c s1]; [done|]. destruct (c =? 34); [|done].
  destruct (parseChars s1) as [[k' s2]|] eqn:E; [|done]. cbn [mbind option_bind]. apply parseChars_consumes in E.
  pose proof (skipSpace_length s2) as H2. destruct (skipSpace s2) as [|d s3]; [done|]. destruct (d =? 58); [|done]. rewrite H; [done|]. cbn in *. lia.
Qed.
Lemma items_agree f : forall f' acc s, consumes value -> (forall t, (length t <= length s)%nat -> value t = value' t) ->
  (length s < f)%nat -> (length s < f')%nat -> items value f acc s = items value' f' acc s.
Proof.
  induction f as [|f IH]; intros [|f'] acc s Hv H Hf Hf'; try lia. cbn [items]. rewrite <- H by lia. destruct (value s) as [[x s1]|] eqn:E; [|done].
  cbn [mbind option_bind]. apply Hv in E. pose proof (skipSpace_length s1) as H1. destruct (skipSpace s1) as [|c s2]; [done|]. cbn in H1.
  destruct (c =? 44); [|done]. apply IH; [done| |lia..]. intros t Ht. apply H. lia.
Qed.
Lemma members_agree f : forall f' acc s, consumes value -> (forall t, (length t <= length s)%nat -> value t = value' t) ->
  (length s < f)%nat -> (length s < f')%nat -> members value f acc s = members value' f' acc s.
Proof.
  induction f as [|f IH]; intros [|f'] acc s Hv H Hf Hf'; try lia. cbn [members]. rewrite <- member_agree by done. destruct (member value s) as [[[k x] s1]|] eqn:E; [|done].
  cbn [mbind option_bind]. apply member_length in E; [|done]. pose proof (skipSpace_length s1) as H1. destruct (skipSpace s1) as [|c s2]; [done|]. cbn in H1.
  destruct (c =? 44); [|done]. apply IH; [done| |lia..]. intros t Ht. apply H. lia.
Qed.
End Enough.

Lemma parseValue_consumes fuel : consumes (parseValue fuel).
Proof.
  induction fuel as [|fuel IH]; intros s v r; [done|]. cbn [parseValue]. pose proof (skipSpace_length s) as H1. destruct (skipSpace s) as [|c s1]; [done|]. cbn in H1.
  destruct (c =? 34). { destruct (parseChars s1) as [[t s2]|] eqn:E; [|done]. cbn. apply parseChars_consumes in E. intros [= <- <-]. lia. }
  pose proof (skipSpace_length s1) as H2. destruct (c =? 91).
  { destruct (skipSpace s1) as [|d s2]; [done|]. cbn in H2. destruct (d =? 93); [intros [= <- <-]; lia|]. intros H%items_length; [lia|done]. }
  destruct (c =? 123).
  { destruct (skipSpace s1) as [|d s2]; [done|]. cbn in H2. destruct (d =? 125); [intros [= <- <-]; lia|]. intros H%members_length; [lia|done]. }
  destruct (literal (u "null") _) eqn:L1; [intros [= <- <-]; apply literal_length in L1; cbn in L1; lia|].
  destruct (literal (u "true") _) eqn:L2; [intros [= <- <-]; apply literal_length in L2; cbn in L2; lia|].
  destruct (literal (u "false") _) eqn:L3; [intros [= <- <-]; apply literal_length in L3; cbn in L3; lia|].
  intros H%parseNumber_consumes. cbn in H. lia.
Qed.

(** More fuel than the length of the text changes nothing: the parser never stops early. *)
Lemma parseValue_fuel f : forall f' s, (length s < f)%nat -> (length s < f')%nat -> parseValue f s = parseValue f' s.
Proof.
  induction f as [|f IH]; intros [|f'] s Hf Hf'; try lia. cbn [parseValue]. pose proof (skipSpace_length s) as H1. destruct (skipSpace s) as [|c s1]; [done|]. cbn in H1.
  destruct (c =? 34); [done|]. destruct (c =? 91).
  { destruct (skipSpace s1) as [|d s2]; [done|]. destruct (d =? 93); [done|]. apply items_agree; [apply parseValue_consumes| |lia..]. intros t Ht. apply IH; lia. }
  destruct (c =? 123); [|done]. destruct (skipSpace s1) as [|d s2]; [done|]. destruct (d =? 125); [done|].
  apply members_agree; [apply parseValue_consumes| |lia..]. intros t Ht. apply IH; lia.
Qed.
