(* ===== verification/ReadCursor.v ===== *)
(** Page cursors (storage/read-cursor.ts).

    A cursor is the text [page_v1.] and the base64url of the UTF-8 of a JSON object with the
    version, the scope and the boundary.  [sha256] stands for the hash of [node:crypto].  Every
    boundary the sources build has one type for each position, so a comparison never mixes a
    text and a number; [compareItem] is only meant for items of one type. *)

From S2P Require Import Prelude Decimal Regex Codec.
From S2P Require Redaction.
Local Open Scope Z_scope.

Inductive item : Type := IStr (s : text) | INum (z : Z).
Inductive itemType : Type := TString | TNumber.
#[global] Instance itemType_eq_dec : EqDecision itemType.
Proof. solve_decision. Defined.
Definition typeOf (i : item) : itemType := match i with IStr _ => TString | INum _ => TNumber end.
Inductive CursorError : Type := InvalidReadCursorError.

Definition itemJson (i : item) : Redaction.json := match i with IStr s => Redaction.JStr s | INum z => Redaction.JNum (u (pretty z)) end.

Definition nullOr (s : option text) : Redaction.json := match s with Some s => Redaction.JStr s | None => Redaction.JNull end.
Definition jsonText (v : Redaction.json) : text := nullish (Redaction.stringify v) [].
Definition readCursorScope (sha256 : list Z -> list Z) (resource : text) (owner filters : list Redaction.json) : text :=
  base64url (sha256 (utf8 (jsonText (Redaction.JArr [Redaction.JStr resource; Redaction.JArr owner; Redaction.JArr filters])))).

Definition PREFIX : text := u "page_v1.".
Definition cursorObject (scope : text) (boundary : list item) : Redaction.json :=
  Redaction.JObj [(u "v", Redaction.JNum (u "1")); (u "scope", Redaction.JStr scope); (u "boundary", Redaction.JArr (map itemJson boundary))].
Definition encodeReadCursor (scope : text) (boundary : list item) : text :=
  PREFIX ++ base64url (utf8 (jsonText (cursorObject scope boundary))).

Definition memberOf (k : string) (v : jv) : option jv :=
  match v with PObj l => snd <$> List.find (fun kv => bool_decide (kv.1 = u k)) l | _ => None end.
Definition isSafe (z : Z) : bool := (- MAX_SAFE <=? z) && (z <=? MAX_SAFE).
Definition boundaryItem (v : jv) (ty : itemType) : option item :=
  match v, ty with PStr s, TString => Some (IStr s) | PInt z, TNumber => if isSafe z then Some (INum z) else None | _, _ => None end.
Fixpoint boundaryItems (l : list jv) (types : list itemType) : option (list item) :=
  match l, types with
  | [], [] => Some []
  | v :: l, ty :: types => i ← boundaryItem v ty; l ← boundaryItems l types; Some (i :: l)
  | _, _ => None
  end.
Definition checkCursor (v : jv) (scope : text) (types : list itemType) : option (list item) :=
  match memberOf "v" v, memberOf "scope" v, memberOf "boundary" v with
  | Some (PInt 1), Some (PStr s), Some (PArr l) => if bool_decide (s = scope) then boundaryItems l types else None
  | _, _, _ => None
  end.
Definition decodeReadCursor (cursor scope : text) (types : list itemType) : result CursorError (list item) :=
  let invalid := Err InvalidReadCursorError in
  match literal PREFIX cursor with
  | None => invalid
  | Some encoded =>
      if (8192 <? length cursor)%nat || bool_decide (encoded = []) || negb (forallb isDigit64 encoded) then invalid
      else
        let bytes := fromBase64url encoded in
        if negb (bool_decide (base64url bytes = encoded)) then invalid
        else match (v ← parseJson (utf8Decode bytes); checkCursor v scope types) with Some b => Ok b | None => invalid end
  end.

Definition compareItem (a b : item) : Z :=
  match a, b with
  | INum a, INum b => if a <? b then -1 else if b <? a then 1 else 0
  | IStr a, IStr b => Redaction.unitCompare a b
  | _, _ => 0
  end.
Fixpoint compareReadOrder (l r : list item) : Z :=
  match l, r with
  | a :: l, b :: r =>
      let c := compareItem a b in if c <? 0 then -1 else if 0 <? c then 1 else compareReadOrder l r
  | _, _ => 0
  end.

(** ** Round trip and scope *)

Definition goodItem (i : item) : Prop := match i with IStr s => Forall isUnit s | INum z => - MAX_SAFE <= z <= MAX_SAFE end.
Definition itemValue (i : item) : jv := match i with IStr s => PStr s | INum z => PInt z end.

Lemma itemJson_denotes b : Forall goodItem b -> denotesAll (map itemJson b) (map itemValue b).
Proof. induction 1 as [|[s|z] b Hi Hb IH]; cbn; constructor; try done; by constructor. Qed.
Lemma cursorObject_denotes scope b : Forall isUnit scope -> Forall goodItem b ->
  denotes (cursorObject scope b) (PObj [(u "v", PInt 1); (u "scope", PStr scope); (u "boundary", PArr (map itemValue b))]).
Proof.
  assert (forall s, forallb isAscii (u s) = true -> Forall isUnit (u s)) as HA.
  { intros s. generalize (u s). intros t. induction t as [|c t IH]; intros H; constructor; cbn in H; apply andb_true_iff in H as [Hc H]; [|auto].
    unfold isAscii in Hc. boolify. unfold isUnit. lia. }
  intros Hs Hb. apply den_obj.
  - constructor; [by apply HA|apply (den_int 1); done|]. constructor; [by apply HA|by constructor|]. constructor; [by apply HA| |constructor].
    constructor. by apply itemJson_denotes.
  - apply (bool_decide_unpack _). vm_compute. exact I.
Qed.
Lemma boundaryItems_values b : Forall goodItem b -> boundaryItems (map itemValue b) (map typeOf b) = Some b.
Proof.
  induction 1 as [|[s|z] b Hi Hb IH]; [done|..]; cbn [map boundaryItems typeOf itemValue boundaryItem].
  - cbn [mbind option_bind]. by rewrite IH.
  - cbn in Hi. assert (isSafe z = true) as -> by (unfold isSafe; lia). cbn [mbind option_bind]. by rewrite IH.
Qed.
Lemma literal_app p s : literal p (p ++ s) = Some s.
Proof. induction p as [|c p IH]; [done|]. cbn. rewrite Z.eqb_refl. done. Qed.

(** The bytes of a cursor and back. *)
Lemma payload_roundtrip scope b : Forall isUnit scope -> Forall goodItem b ->
  parseJson (utf8Decode (fromBase64url (base64url (utf8 (jsonText (cursorObject scope b)))))) =
    Some (PObj [(u "v", PInt 1); (u "scope", PStr scope); (u "boundary", PArr (map itemValue b))]) /\
  fromBase64url (base64url (utf8 (jsonText (cursorObject scope b)))) = utf8 (jsonText (cursorObject scope b)) /\
  forallb isDigit64 (base64url (utf8 (jsonText (cursorObject scope b)))) = true.
Proof.
  intros Hs Hb. pose proof (cursorObject_denotes scope b Hs Hb) as HD. destruct (parseJson_stringify _ _ HD) as (t & E & HP).
  pose proof (wf_wellFormed _ (stringify_wf _ _ HD t E)) as HW. unfold jsonText. rewrite E. unfold nullish. cbn [default from_option].
  change (id t) with t. pose proof (utf8_bytes _ HW) as HB. split_and!; [|by apply codec_law|by apply base64url_digits].
  by rewrite (codec_law (utf8 t)), (codec_law t).
Qed.

Lemma boundaryItems_typed l : forall types b, boundaryItems l types = Some b ->
  map typeOf b = types /\ Forall (fun i => match i with INum z => isSafe z = true | IStr _ => True end) b.
Proof.
  induction l as [|v l IH]; intros [|ty types] b H; try done; cbn in H; [by injection H as <-|].
  destruct (boundaryItem v ty) as [i|] eqn:Hi; [|done]. cbn in H. destruct (boundaryItems l types) as [b'|] eqn:Hb; [|done]. injection H as <-.
  destruct (IH _ _ Hb) as (<- & HF). unfold boundaryItem in Hi. destruct v, ty; try done.
  - destruct (isSafe z) eqn:Hz; [|done]. injection Hi as <-. split; [done|]. by constructor.
  - injection Hi as <-. split; [done|]. by constructor.
Qed.
Lemma boundaryItems_unique l : forall b types b', map itemValue b = l -> boundaryItems l types = Some b' -> b' = b.
Proof.
  induction l as [|v l IH]; intros [|i b] types b' E H; try done; destruct types as [|ty types]; try done; cbn in H; [by injection H as <-|].
  injection E as <- E. destruct (boundaryItem (itemValue i) ty) as [i'|] eqn:Hi; [|done]. cbn in H.
  destruct (boundaryItems l types) as [b''|] eqn:Hb; [|done]. injection H as <-. f_equal; [|by eapply IH].
  destruct i, ty; cbn in Hi; try done; [by injection Hi as <-|]. destruct (isSafe z); [by injection Hi as <-|done].
Qed.

Lemma decode_encode scope b scope' types : Forall isUnit scope -> Forall goodItem b -> (length (encodeReadCursor scope b) <= 8192)%nat ->
  decodeReadCursor (encodeReadCursor scope b) scope' types =
    match (if bool_decide (scope = scope') then boundaryItems (map itemValue b) types else None) with Some b => Ok b | None => Err InvalidReadCursorError end.
Proof.
  intros Hs Hb Hlen. destruct (payload_roundtrip scope b Hs Hb) as (HP & HU & HD). unfold encodeReadCursor, decodeReadCursor in *.
  rewrite literal_app. set (encoded := base64url _) in *. rewrite (proj2 (Nat.ltb_ge 8192 _)) by exact Hlen.
  rewrite HD. rewrite (bool_decide_eq_false_2 (encoded = [])).
  - cbn [orb negb]. rewrite HU. fold encoded. rewrite bool_decide_eq_true_2 by done. cbn [negb]. rewrite <- HU. rewrite HP. cbn [mbind option_bind].
    unfold checkCursor. cbn [memberOf List.find fst snd fmap option_fmap option_map].
    rewrite (bool_decide_eq_true_2 (u "v" = u "v")) by done. cbn [fmap option_fmap option_map snd].
    rewrite (bool_decide_eq_false_2 (u "v" = u "scope")), (bool_decide_eq_true_2 (u "scope" = u "scope")) by done.
    rewrite (bool_decide_eq_false_2 (u "v" = u "boundary")), (bool_decide_eq_false_2 (u "scope" = u "boundary")), (bool_decide_eq_true_2 (u "boundary" = u "boundary")) by done.
    done.
  - intros E. rewrite E in HP. vm_compute in HP. discriminate.
Qed.

(** C28. A page cursor leads back to exactly the boundary it was made of, whatever characters its
    texts contain (lone surrogates included), as long as it is short enough to be accepted; it is
    refused for every other scope, so it cannot be used with another owner's or another filter's
    list, and for every other list of types.  Whatever text is accepted for a scope, forged or
    not, the boundary has the types the reader asked for and its numbers are safe integers. *)
Theorem cursors_roundtrip_within_their_scope scope b :
  Forall isUnit scope -> Forall goodItem b -> (length (encodeReadCursor scope b) <= 8192)%nat ->
  decodeReadCursor (encodeReadCursor scope b) scope (map typeOf b) = Ok b /\
  (forall scope' types b', decodeReadCursor (encodeReadCursor scope b) scope' types = Ok b' -> scope' = scope /\ types = map typeOf b /\ b' = b) /\
  (forall cursor types b', decodeReadCursor cursor scope types = Ok b' ->
     map typeOf b' = types /\ Forall (fun i => match i with INum z => isSafe z = true | IStr _ => True end) b').
Proof.
  intros Hs Hb Hlen. split_and!.
  - rewrite decode_encode, bool_decide_eq_true_2, boundaryItems_values by done. done.
  - intros scope' types b'. rewrite decode_encode by done. case_bool_decide as E; [|done]. destruct (boundaryItems _ _) as [b''|] eqn:HB; [|done].
    intros [= <-]. pose proof (boundaryItems_unique _ b _ _ eq_refl HB) as ->. by destruct (boundaryItems_typed _ _ _ HB) as (<- & _).
  - intros cursor types b'. unfold decodeReadCursor. destruct (literal _ _) as [e|]; [|done]. destruct (_ || _ || _); [done|].
    destruct (negb _); [done|]. destruct (parseJson _) as [v|]; [|done]. cbn [mbind option_bind]. unfold checkCursor.
    destruct (memberOf "v" v) as [[]|]; try done. destruct z as [|[]|]; try done. destruct (memberOf "scope" v) as [[]|]; try done.
    destruct (memberOf "boundary" v) as [[]|]; try done. destruct (bool_decide _); [|done]. destruct (boundaryItems l types) as [b''|] eqn:HB; [|done].
    intros [= <-]. exact (boundaryItems_typed _ _ _ HB).
Qed.

(** The hypotheses as a test. *)
Definition fits (scope : text) (b : list item) : bool :=
  forallb (fun i => match i with IStr s => forallb (fun c => (0 <=? c) && (c <? 65536)) s | INum z => isSafe z end) b && (length (encodeReadCursor scope b) <=? 8192)%nat.
Lemma fits_spec scope b : fits scope b = true -> Forall goodItem b /\ (length (encodeReadCursor scope b) <= 8192)%nat.
Proof.
  unfold fits. intros [H1 H2]%andb_true_iff. split; [|by apply Nat.leb_le]. apply Forall_forall. intros i Hi%list_elem_of_In.
  apply (proj1 (forallb_forall _ _) H1) in Hi. destruct i as [s|z]; cbn; [|unfold isSafe in Hi; lia].
  apply Forall_forall. intros c Hc%list_elem_of_In. apply (proj1 (forallb_forall _ _) Hi) in Hc. unfold isUnit. lia.
Qed.

(** A boundary of an entry of the history, with a lone surrogate and a non-ASCII title. *)
Definition demoBoundary : list item := [INum 1709210096789; IStr (u "c-1"); IStr [25253; 55296; 34]; INum 7; IStr (u "a\b")].
Lemma cursors_roundtrip_within_their_scope_witness :
  decodeReadCursor (encodeReadCursor (u "scope") demoBoundary) (u "scope") [TNumber; TString; TString; TNumber; TString] = Ok demoBoundary /\
  (forall types b', decodeReadCursor (encodeReadCursor (u "scope") demoBoundary) (u "other") types <> Ok b').
Proof.
  assert (Forall isUnit (u "scope")) as H1 by (unfold isUnit; repeat constructor; vm_compute; done).
  assert (Forall goodItem demoBoundary) as H2 by (unfold demoBoundary, goodItem, isUnit; repeat constructor; vm_compute; done).
  assert (length (encodeReadCursor (u "scope") demoBoundary) <= 8192)%nat as H3 by (apply Nat.leb_le; vm_compute; reflexivity).
  destruct (cursors_roundtrip_within_their_scope (u "scope") demoBoundary H1 H2 H3) as (HR & HS & _).
  split; [exact HR|]. intros types b' H. destruct (HS _ _ _ H) as (E & _). discriminate.
Defined.

(** ** The order of boundaries *)

Lemma unitCompare_sign a b : Redaction.unitCompare b a = - Redaction.unitCompare a b.
Proof.
  revert b. induction a as [|x a IH]; intros [|y b]; cbn; try done. rewrite (IH b).
  destruct (Z.ltb_spec x y), (Z.ltb_spec y x); try lia.
Qed.
Lemma unitCompare_eq a b : Redaction.unitCompare a b = 0 -> a = b.
Proof.
  revert b. induction a as [|x a IH]; intros [|y b]; cbn; try done. destruct (Z.ltb_spec x y), (Z.ltb_spec y x); try done.
  intros E%IH. f_equal; [lia|done].
Qed.
Lemma unitCompare_lt_trans a b c : Redaction.unitCompare a b < 0 -> Redaction.unitCompare b c < 0 -> Redaction.unitCompare a c < 0.
Proof.
  revert b c. induction a as [|x a IH]; intros [|y b] [|z c]; cbn; try lia.
  destruct (Z.ltb_spec x y), (Z.ltb_spec y x), (Z.ltb_spec y z), (Z.ltb_spec z y), (Z.ltb_spec x z), (Z.ltb_spec z x); try lia. apply IH.
Qed.
Lemma compareItem_sign a b : compareItem b a = - compareItem a b.
Proof. destruct a, b; cbn; [apply unitCompare_sign|done|done|]. destruct (Z.ltb_spec z z0), (Z.ltb_spec z0 z); lia. Qed.
Lemma compareItem_eq a b : typeOf a = typeOf b -> compareItem a b = 0 -> a = b.
Proof. destruct a, b; cbn; try done; [by intros _ ->%unitCompare_eq|]. destruct (Z.ltb_spec z z0), (Z.ltb_spec z0 z); try lia. intros. f_equal. lia. Qed.
Lemma compareItem_trans a b c : compareItem a b < 0 -> compareItem b c < 0 -> compareItem a c < 0.
Proof.
  destruct a, b, c; cbn; try lia; [apply unitCompare_lt_trans|]. repeat case_match; boolify; lia.
Qed.

Lemma compareReadOrder_sign l : forall r, compareReadOrder r l = - compareReadOrder l r.
Proof.
  induction l as [|a l IH]; intros [|b r]; cbn; try done. rewrite (compareItem_sign a b), (IH r).
  destruct (Z.ltb_spec (compareItem a b) 0), (Z.ltb_spec 0 (compareItem a b)), (Z.ltb_spec (- compareItem a b) 0), (Z.ltb_spec 0 (- compareItem a b)); lia.
Qed.
Lemma compareReadOrder_refl l : compareReadOrder l l = 0.
Proof. pose proof (compareReadOrder_sign l l). lia. Qed.
Lemma compareReadOrder_eq l : forall r, map typeOf l = map typeOf r -> compareReadOrder l r = 0 -> l = r.
Proof.
  induction l as [|a l IH]; intros [|b r] HT H; try done. injection HT as HT HTs. cbn in H.
  destruct (Z.ltb_spec (compareItem a b) 0), (Z.ltb_spec 0 (compareItem a b)); try lia. f_equal; [apply compareItem_eq; [done|lia]|by apply IH].
Qed.
Lemma compareReadOrder_trans a : forall b c, map typeOf a = map typeOf b -> map typeOf b = map typeOf c ->
  compareReadOrder a b < 0 -> compareReadOrder b c < 0 -> compareReadOrder a c < 0.
Proof.
  induction a as [|x a IH]; intros [|y b] [|z c] T1 T2; cbn; try lia; try done. injection T1 as T1 T1s. injection T2 as T2 T2s.
  specialize (IH b c T1s T2s). pose proof (compareItem_trans x y z) as HT.
  destruct (Z.ltb_spec (compareItem x y) 0) as [Hxy|Hxy].
  - intros _. destruct (Z.ltb_spec (compareItem y z) 0) as [Hyz|Hyz]; [intros _; rewrite (proj2 (Z.ltb_lt _ _) (HT Hxy Hyz)); lia|].
    destruct (Z.ltb_spec 0 (compareItem y z)); [lia|]. assert (y = z) as -> by (apply compareItem_eq; [done|lia]). rewrite (proj2 (Z.ltb_lt _ _) Hxy). lia.
  - destruct (Z.ltb_spec 0 (compareItem x y)); [lia|]. assert (x = y) as -> by (apply compareItem_eq; [done|lia]).
    destruct (Z.ltb_spec (compareItem y z) 0); [lia|]. destruct (Z.ltb_spec 0 (compareItem y z)); lia.
Qed.
