(* ===== verification/History.v ===== *)
(** The history of a conversation (pi/session-history.ts): the entries of every participant's
    session in one order, with where they come from.

    An entry is an object of the runtime ([fields] of EventSse).  What the store says about the
    conversation is a [StoreView]: the display names of its employees, the work records of each
    employee, the files of saved replies by entry reference and the recorded origin of a user
    message.  [sha256] is the hash of [node:crypto], [dateParse] is [Date.parse].  The content of
    an assistant message is an array, as its type says. *)

From S2P Require Import Prelude Decimal Regex Redact EventSse Codec ReadCursor.
From S2P Require Redaction Todo.
From stdpp Require Import sorting.
Local Open Scope Z_scope.

(** ** Data *)

Record WorkRange : Type := mkRange {
  wr_id : text; wr_employee : text; wr_live : bool; wr_active : bool;
  wr_start : Z; wr_end : option Z; wr_first : option text; wr_last : option text;
}.
Record EntryOrigin : Type := mkOrigin { or_type : text; or_id : text; or_name : option text; or_logical : text }.
Record StoreView : Type := mkView {
  sv_name : text -> option text; sv_works : list WorkRange; sv_file : text -> option val;
  sv_origin : text -> text -> option EntryOrigin;
}.
Inductive ParticipantRole : Type := Coordinator | Member.
Record HistorySource : Type := mkSource { hs_employee : option text; hs_role : ParticipantRole; hs_entries : list fields }.
Record Reference : Type := mkRef { ref_id : text; ref_entry : text }.
Record IndexedHistoryEntry : Type := mkIndexed { ix_entry : fields; ix_order : list item; ix_references : list Reference }.

Definition messageOf (raw : fields) : option fields := asRecord (getf raw "message").
Definition roleIs (raw : fields) (l : list string) : bool := match messageOf raw with Some m => isOneOf (getf m "role") l | None => false end.
Definition isMessage (raw : fields) : bool := isText (getf raw "type") "message".
Definition removeKey (k : string) (r : fields) : fields := List.filter (fun f => negb (bool_decide (f.1 = u k))) r.

Section History.
Context (sha256 : list Z -> list Z) (dateParse : text -> option Z).

Definition historyTimestamp (raw : fields) : Z :=
  match getf raw "timestamp" with
  | VNum _ (NInt z) => if isSafe z then z else 0
  | VStr s => nullish (dateParse s) 0
  | _ => 0
  end.

Definition historyEntryRef (conversationId : text) (employeeId : option text) (id : text) : text :=
  u "entry_v1_" ++ base64url (sha256 (utf8 (jsonText (Redaction.JArr [Redaction.JStr conversationId; nullOr employeeId; Redaction.JStr id])))).

(** *** The work record an entry belongs to *)

Definition idAt (entries : list fields) (i : Z) : option text := if i <? 0 then None else e ← entries !! Z.to_nat i; strOf (getf e "id").
(** The next distinct start after [start] among ascending starts, or the number of entries. *)
Fixpoint nextStart (starts : list Z) (start n : Z) : Z :=
  match starts with [] => n | s :: starts => if start <? s then s else nextStart starts start n end.
Definition rangeOf (entries : list fields) (starts : list Z) (row : WorkRange) : option (Z * Z) :=
  let n := Z.of_nat (length entries) in
  let start := wr_start row in
  match (match wr_end row with Some e => Some e | None => if wr_active row then Some (nextStart starts start n) else None end) with
  | None => None
  | Some end_ =>
      if (start <? 0) || (end_ <=? start) || (n <? end_) then None
      else if match wr_first row with Some (c :: id) => negb (bool_decide (idAt entries start = Some (c :: id))) | _ => false end then None
      else if match wr_last row with Some (c :: id) => negb (bool_decide (idAt entries (end_ - 1) = Some (c :: id))) | _ => false end then None
      else Some (start, end_)
  end.
(** The one live range around an ordinal; none when ranges overlap there. *)
Definition workIdsForEntries (entries : list fields) (records : list WorkRange) (ordinal : Z) : option text :=
  let live := Redaction.sortBy (fun a b => wr_start a <=? wr_start b) (List.filter wr_live records) in
  let starts := map wr_start live in
  match List.filter (fun row => match rangeOf entries starts row with Some (a, b) => (a <=? ordinal) && (ordinal <? b) | None => false end) live with
  | [row] => Some (wr_id row)
  | _ => None
  end.

(** *** One entry *)

Definition reconcileToolCallsOnly (entry : fields) : option fields :=
  if negb (isMessage entry && roleIs entry ["assistant"]) then Some entry
  else
    message ← messageOf entry;
    let parts := match getf message "content" with VArr l => l | _ => [] end in
    let content := List.filter (fun p => match asRecord p with Some p => isText (getf p "type") "toolCall" | None => false end) parts in
    match content with
    | [] => None
    | _ => Some (put "message" (VObj true (put "stopReason" (VStr (u "toolUse")) (put "content" (VArr content) (removeKey "errorMessage" message)))) entry)
    end.

(** What Todo asks of an entry. *)
Definition sessionEntry (raw : fields) : Todo.SessionEntry :=
  if isText (getf raw "type") "custom_message" then match getf raw "customType" with VStr t => Todo.ECustom t | _ => Todo.EOther end
  else if isMessage raw && roleIs raw ["user"] then Todo.EMessage (Todo.User [])
  else Todo.EOther.

Definition putSource (view : StoreView) (source : HistorySource) (raw entry : fields) (id : text) : fields :=
  if isMessage raw && roleIs raw ["user"] then
    let origin := employee ← nonEmptyText (hs_employee source); sv_origin view employee id in
    let sourceType := match origin with Some o => or_type o | None => u "human" end in
    let entry := put "source_role" (VStr (if bool_decide (sourceType = u "employee") then u "participant" else u "human")) (put "source_type" (VStr sourceType) entry) in
    match origin with
    | None => entry
    | Some o =>
        let entry := put "logical_message_id" (VStr (or_logical o)) (put "source_id" (VStr (or_id o)) entry) in
        let entry := putText "source_display_name" (nonEmptyText (or_name o)) entry in
        if bool_decide (or_type o = u "employee") then
          let name := match or_name o with Some n => n | None => nullish (sv_name view (or_id o)) (or_id o) end in
          put "source_employee_display_name" (VStr name) (put "source_employee_id" (VStr (or_id o)) entry)
        else entry
    end
  else match nonEmptyText (hs_employee source) with
       | None => entry
       | Some employee =>
           let entry := put "source_employee_display_name" (VStr (nullish (sv_name view employee) employee)) (put "source_employee_id" (VStr employee) entry) in
           put "source_role" (VStr (match hs_role source with Coordinator => u "coordinator" | Member => u "participant" end)) entry
       end.

Definition indexEntry (view : StoreView) (conversationId : text) (source : HistorySource) (workIds : Z -> option text) (hidden : list nat)
    (ordinal : nat) (stored : fields) : option IndexedHistoryEntry :=
  raw ← if bool_decide (ordinal ∈ hidden) then reconcileToolCallsOnly stored else Some stored;
  id ← strOf (getf raw "id");
  if isText (getf raw "type") "session" then None
  else if isText (getf raw "type") "custom_message" && negb (truthy (getf raw "display")) then None
  else
    let ref := historyEntryRef conversationId (hs_employee source) id in
    let entry := removeKey "reply_file" (removeKey "work_id" (put "entry_ref" (VStr ref) raw)) in
    let entry := if isMessage raw && roleIs raw ["assistant"] then putVal "reply_file" (sv_file view ref) entry else entry in
    let entry := if isMessage raw && roleIs raw ["assistant"; "toolResult"] then putText "work_id" (nonEmptyText (workIds (Z.of_nat ordinal))) entry else entry in
    let entry := putText "participant_employee_id" (nonEmptyText (hs_employee source)) entry in
    let entry := putSource view source raw entry id in
    Some (mkIndexed entry [INum (historyTimestamp raw); IStr conversationId; IStr (nullish (hs_employee source) []); INum (Z.of_nat ordinal); IStr id] [mkRef id ref]).

Definition indexSource (view : StoreView) (conversationId : text) (source : HistorySource) : list IndexedHistoryEntry :=
  let works := List.filter (fun row => bool_decide (Some (wr_employee row) = hs_employee source)) (sv_works view) in
  let workIds := workIdsForEntries (hs_entries source) works in
  let hidden := Todo.reconcileEntryPositions (map sessionEntry (hs_entries source)) in
  concat (imap (fun ordinal stored => match indexEntry view conversationId source workIds hidden ordinal stored with Some i => [i] | None => [] end) (hs_entries source)).

(** *** Merging *)

Definition orderLe (a b : IndexedHistoryEntry) : bool := compareReadOrder (ix_order a) (ix_order b) <=? 0.
Definition logicalKey (entry : fields) : option text :=
  if isMessage entry && roleIs entry ["user"] && truthy (getf entry "logical_message_id")
  then Some (jsonText (Redaction.JArr (map (fun k => toJson (getf entry k)) ["source_type"; "source_id"; "logical_message_id"]%string)))
  else None.
(** Add the references of a copy to the message shown for it. *)
Definition addReferences (key : text) (refs : list Reference) (l : list IndexedHistoryEntry) : list IndexedHistoryEntry :=
  map (fun i => if bool_decide (logicalKey (ix_entry i) = Some key) then mkIndexed (ix_entry i) (ix_order i) (ix_references i ++ refs) else i) l.
Definition keepFirst (shown : list IndexedHistoryEntry) (i : IndexedHistoryEntry) : list IndexedHistoryEntry :=
  match logicalKey (ix_entry i) with
  | Some key =>
      if existsb (fun j => bool_decide (logicalKey (ix_entry j) = Some key)) shown then addReferences key (ix_references i) shown else shown ++ [i]
  | None => shown ++ [i]
  end.
Definition mergeHistorySources (view : StoreView) (conversationId : text) (sources : list HistorySource) : list IndexedHistoryEntry :=
  fold_left keepFirst (Redaction.sortBy orderLe (concat (map (indexSource view conversationId) sources))) [].

(** *** Texts *)

Definition IMAGE_MARK : text := [32; 91; 22270; 29255; 93; 32].
(** [safeText(text, Infinity)]. *)
Definition safeWhole (s : text) : text := redactInlinePaths (redactSecrets s).
Definition partText (p : val) : text :=
  match asRecord p with
  | Some r =>
      match (if isText (getf r "type") "text" then strOf (getf r "text") else None) with
      | Some t => t
      | None => if isText (getf r "type") "image" then IMAGE_MARK else []
      end
  | None => []
  end.
Definition searchableHistoryText (entry : fields) : option text :=
  if negb (isMessage entry && roleIs entry ["user"; "assistant"]) then None
  else
    message ← messageOf entry;
    let text := match getf message "content" with VStr s => s | VArr l => concat (map partText l) | _ => [] end in
    nonEmptyText (Some (safeWhole text)).
(** [text.replace(/\s+/gu, " ")]. *)
Fixpoint collapse (inside : bool) (s : text) : text :=
  match s with
  | [] => []
  | c :: s => if is_space c then (if inside then collapse true s else 32 :: collapse true s) else c :: collapse false s
  end.
Definition visibleHistoryText (entry : fields) : option text := nonEmptyText ((fun t => trim (collapse false t)) <$> searchableHistoryText entry).
End History.

(** ** The order of the history *)

Definition HISTORY_ORDER_TYPES : list itemType := [TNumber; TString; TString; TNumber; TString].
Definition employeeKey (source : HistorySource) : text := nullish (hs_employee source) [].
(** Where an entry was stored: the participant and the position. *)
Definition placeOf (order : list item) : item * item := (nullish (order !! 2%nat) (INum 0), nullish (order !! 3%nat) (INum 0)).
Definition before (i j : IndexedHistoryEntry) : Prop := compareReadOrder (ix_order i) (ix_order j) < 0.
Definition typed (i : IndexedHistoryEntry) : Prop := map typeOf (ix_order i) = HISTORY_ORDER_TYPES.

Lemma imap_options_places {A I K} (place : I -> K * item) (e : K) (l : list A) : forall k (g : nat -> A -> option I),
  (forall o s i, g o s = Some i -> place i = (e, INum (Z.of_nat (k + o)))) ->
  let out := concat (imap (fun o s => match g o s with Some i => [i] | None => [] end) l) in
  NoDup (map place out) /\ Forall (fun i => exists o, (k <= o)%nat /\ place i = (e, INum (Z.of_nat o))) out.
Proof.
  induction l as [|s l IH]; intros k g Hg; [split; constructor|]. rewrite imap_cons. cbn [concat].
  destruct (IH (S k) (g ∘ S)) as [Hd HF].
  { intros o x i Hi. rewrite (Hg _ _ _ Hi). do 3 f_equal. lia. }
  change ((fun o s => match g o s with Some i => [i] | None => [] end) ∘ S)
    with (fun o s => match (g ∘ S) o s with Some i => [i] | None => [] end).
  set (rest := concat _) in *. assert (Forall (fun i => exists o, (k <= o)%nat /\ place i = (e, INum (Z.of_nat o))) rest) as HF'.
  { eapply Forall_impl; [exact HF|]. intros i (o & Ho & E). exists o. split; [lia|done]. }
  destruct (g 0%nat s) as [i|] eqn:Hi; [|done]. apply Hg in Hi. rewrite Nat.add_0_r in Hi. cbn [app map]. split; [|constructor; [by exists k|done]].
  constructor; [|done]. rewrite Hi. intros (j & Ej & Hj)%list_elem_of_fmap. eapply Forall_forall in HF as (o & Ho & E); [|exact Hj].
  rewrite E in Ej. injection Ej as Ej. lia.
Qed.

Lemma sortBy_sorted_on {A} (le : A -> A -> bool) (P : A -> Prop) l :
  (forall x y, P x -> P y -> le x y = true \/ le y x = true) -> (forall x y z, P x -> P y -> P z -> le x y = true -> le y z = true -> le x z = true) ->
  Forall P l -> StronglySorted (fun x y => le x y = true) (Redaction.sortBy le l).
Proof.
  intros Htot Htr HP. unfold Redaction.sortBy. induction HP as [|x l Hx HP IH]; cbn; [constructor|]. revert IH.
  assert (Forall P (foldr (Redaction.insertBy le) [] l)) as HK by (change (Forall P (Redaction.sortBy le l)); by rewrite Redaction.sortBy_perm).
  revert HK. generalize (foldr (Redaction.insertBy le) [] l) as k. intros k. induction k as [|y k IHk]; intros HK Hs; cbn; [repeat constructor|].
  apply Forall_cons in HK as [Hy HK]. apply StronglySorted_cons in Hs as [Hall Hs]. destruct (le x y) eqn:E.
  - constructor; [by constructor|]. constructor; [done|]. apply Forall_forall. intros z Hz.
    eapply Htr; [done|exact Hy|by eapply (proj1 (Forall_forall _ _) HK)|done|by eapply (proj1 (Forall_forall _ _) Hall)].
  - constructor; [auto|]. apply Forall_forall. intros z [->|Hz]%Redaction.elem_insertBy.
    + destruct (Htot x y Hx Hy); congruence.
    + by eapply (proj1 (Forall_forall _ _) Hall).
Qed.

Section Merge.
Context (sha256 : list Z -> list Z) (dateParse : text -> option Z) (view : StoreView) (conversationId : text).
Notation index := (indexSource sha256 dateParse view conversationId).

Lemma indexEntry_shape source workIds hidden ordinal stored i :
  indexEntry sha256 dateParse view conversationId source workIds hidden ordinal stored = Some i ->
  exists ts id, ix_order i = [INum ts; IStr conversationId; IStr (employeeKey source); INum (Z.of_nat ordinal); IStr id].
Proof.
  unfold indexEntry. destruct (if bool_decide _ then _ else _) as [raw|]; [|done]. cbn [mbind option_bind].
  destruct (strOf (getf raw "id")) as [id|]; [|done]. cbn [mbind option_bind]. destruct (isText _ _); [done|]. destruct (_ && negb _); [done|].
  intros [= <-]. eexists _, _. reflexivity.
Qed.

Lemma index_places source :
  NoDup (map (placeOf ∘ ix_order) (index source)) /\
  Forall (fun i => typed i /\ exists o, placeOf (ix_order i) = (IStr (employeeKey source), INum o)) (index source).
Proof.
  unfold indexSource. set (g := indexEntry _ _ _ _ _ _ _).
  destruct (imap_options_places (placeOf ∘ ix_order) (IStr (employeeKey source)) (hs_entries source) 0 g) as [Hd HF].
  { intros o s i (ts & id & E)%indexEntry_shape. cbn. by rewrite E. }
  split; [exact Hd|]. apply Forall_forall. intros i Hi. eapply Forall_forall in HF as (o & _ & E); [|exact Hi]. split; [|by eexists].
  apply list_elem_of_In, in_concat in Hi as (l & Hl & Hi). apply list_elem_of_In, elem_of_lookup_imap in Hl as (k & s & -> & _).
  destruct (g k s) as [j|] eqn:Hj; [|done]. destruct Hi as [<-|[]]. apply indexEntry_shape in Hj as (ts & id & Ej). unfold typed. by rewrite Ej.
Qed.

Lemma orders_distinct sources : NoDup (map employeeKey sources) ->
  NoDup (map ix_order (concat (map index sources))) /\ Forall typed (concat (map index sources)).
Proof.
  intros Hd. enough (NoDup (map (placeOf ∘ ix_order) (concat (map index sources))) /\
    Forall (fun i => typed i /\ exists e o, e ∈ map employeeKey sources /\ placeOf (ix_order i) = (IStr e, INum o)) (concat (map index sources))) as [H1 H2].
  { split; [|by eapply Forall_impl; [exact H2|]; intros ? []]. apply (NoDup_fmap_1 placeOf). rewrite <- list_fmap_compose. exact H1. }
  induction sources as [|source sources IH]; [split; constructor|]. cbn [map concat] in *. apply NoDup_cons in Hd as [Hnew Hd].
  destruct (IH Hd) as [IH1 IH2], (index_places source) as [HD HF]. split.
  - rewrite map_app. apply NoDup_app. split_and!; [done| |done]. intros p (i & -> & Hi)%list_elem_of_fmap (j & E & Hj)%list_elem_of_fmap.
    eapply Forall_forall in HF as (_ & o & Ei); [|exact Hi]. eapply Forall_forall in IH2 as (_ & e & o' & He & Ej); [|exact Hj]. cbn in E.
    rewrite Ei, Ej in E. injection E as <- _. by apply Hnew.
  - apply Forall_app. split; eapply Forall_impl; [exact HF| |exact IH2|].
    + intros i (Ht & o & E). split; [done|]. eexists _, _. split; [by left|done].
    + intros i (Ht & e & o & He & E). split; [done|]. eexists _, _. split; [by right|done].
Qed.
End Merge.

Lemma orderLe_sorted l : Forall typed l -> NoDup (map ix_order l) -> StronglySorted before (Redaction.sortBy orderLe l).
Proof.
  intros HT HD. pose proof (Redaction.sortBy_perm orderLe l) as HP.
  assert (StronglySorted (fun x y => orderLe x y = true) (Redaction.sortBy orderLe l)) as HS.
  { apply (sortBy_sorted_on orderLe typed); [| |done]; unfold orderLe, typed.
    - intros x y _ _. pose proof (compareReadOrder_sign (ix_order x) (ix_order y)). rewrite !Z.leb_le. lia.
    - intros x y z Hx Hy Hz. rewrite !Z.leb_le. intros L1 L2. pose proof (compareReadOrder_trans (ix_order x) (ix_order y) (ix_order z)) as HTr.
      destruct (Z.eq_dec (compareReadOrder (ix_order x) (ix_order y)) 0) as [E|]; [apply compareReadOrder_eq in E; [rewrite E; done|congruence]|].
      destruct (Z.eq_dec (compareReadOrder (ix_order y) (ix_order z)) 0) as [E|]; [apply compareReadOrder_eq in E; [rewrite <- E; done|congruence]|].
      specialize (HTr ltac:(congruence) ltac:(congruence)). lia. }
  assert (NoDup (map ix_order (Redaction.sortBy orderLe l))) as HD' by (by rewrite HP).
  assert (Forall typed (Redaction.sortBy orderLe l)) as HT' by (by rewrite HP). clear HP.
  induction HS as [|x k Hs IH Hall]; constructor; cbn in HD'; apply NoDup_cons in HD' as [Hn HD']; apply Forall_cons in HT' as [Hx HT']; [by apply IH|].
  apply Forall_forall. intros y Hy. eapply Forall_forall in Hall; [|exact Hy]. unfold orderLe, before in *. apply Z.leb_le in Hall.
  destruct (Z.eq_dec (compareReadOrder (ix_order x) (ix_order y)) 0) as [E|]; [|lia]. exfalso. apply Hn. apply list_elem_of_fmap. exists y. split; [|done].
  apply compareReadOrder_eq; [|done]. eapply Forall_forall in HT'; [|exact Hy]. unfold typed in *. congruence.
Qed.

(** ** What is shown of a stored entry *)

Definition fieldAt (o : fields) (k : text) : option val := snd <$> List.find (fun f => bool_decide (f.1 = k)) o.
Lemma getf_at o k : getf o k = nullish (fieldAt o (u k)) VUndef.
Proof. done. Qed.

Lemma fieldAt_put o k k' v : fieldAt (put k' v o) k = if bool_decide (k = u k') then Some v else fieldAt o k.
Proof.
  unfold put, fieldAt. destruct (hasOwn o k') eqn:E; unfold hasOwn in E.
  - induction o as [|[x y] o IH]; [done|]. cbn [existsb map List.find fst] in *. destruct (bool_decide_reflect (x = u k')) as [->|Hx]; cbn [orb fst snd] in *.
    + destruct (bool_decide_reflect (u k' = k)) as [<-|Hn]; [by rewrite bool_decide_eq_true_2|]. rewrite (bool_decide_eq_false_2 (k = u k')) by congruence.
      cbn [List.find]. clear IH E. induction o as [|[x' y'] o IH]; [done|]. cbn [map List.find fst]. destruct (bool_decide_reflect (x' = u k')) as [->|]; cbn [fst];
        [by rewrite (bool_decide_eq_false_2 (u k' = k))|]. destruct (bool_decide (x' = k)); [done|exact IH].
    + destruct (bool_decide_reflect (x = k)) as [->|]; [by rewrite bool_decide_eq_false_2|]. by apply IH.
  - induction o as [|[x y] o IH]; cbn [existsb app List.find fst] in *.
    + destruct (bool_decide_reflect (u k' = k)) as [<-|]; [by rewrite bool_decide_eq_true_2|]. by rewrite bool_decide_eq_false_2 by congruence.
    + apply orb_false_iff in E as [E1 E2]. destruct (bool_decide_reflect (x = k)) as [->|]; [by rewrite E1|by apply IH].
Qed.
Lemma fieldAt_remove o k k' : fieldAt (removeKey k' o) k = if bool_decide (k = u k') then None else fieldAt o k.
Proof.
  unfold removeKey, fieldAt. induction o as [|[x y] o IH]; cbn [List.filter List.find fst]; [by case_bool_decide|].
  destruct (bool_decide_reflect (x = u k')) as [->|Hx]; cbn [negb List.find fst].
  - rewrite IH. destruct (bool_decide_reflect (k = u k')) as [->|]; [done|]. by rewrite bool_decide_eq_false_2 by congruence.
  - destruct (bool_decide_reflect (x = k)) as [->|]; [by rewrite bool_decide_eq_false_2|exact IH].
Qed.

(** The members the history writes itself; the others are those of the stored entry. *)
Definition OWN_KEYS : list text := map u ["entry_ref"; "work_id"; "reply_file"; "participant_employee_id"; "source_type"; "source_role"; "source_id";
  "logical_message_id"; "source_display_name"; "source_employee_id"; "source_employee_display_name"]%string.
Definition carries (raw entry : fields) : Prop := forall k, k ∉ OWN_KEYS -> fieldAt entry k = fieldAt raw k.

Definition assistantMessage (e : fields) : bool := isMessage e && roleIs e ["assistant"%string].
Definition isToolCall (p : val) : bool := match asRecord p with Some p => isText (getf p "type") "toolCall" | None => false end.
(** The tool calls of a message. *)
Definition callsOf (e : fields) : list val := match messageOf e with Some m => match getf m "content" with VArr l => List.filter isToolCall l | _ => [] end | None => [] end.

(** [raw] is the entry with its message cut down to the tool calls, without its error. *)
Definition callsOnly (stored raw : fields) : Prop := exists m m', messageOf stored = Some m /\ messageOf raw = Some m'
  /\ (forall k, k <> u "message" -> fieldAt raw k = fieldAt stored k)
  /\ getf m' "content" = VArr (callsOf stored) /\ getf m' "stopReason" = VStr (u "toolUse") /\ fieldAt m' (u "errorMessage") = None
  /\ forall k, k ∉ map u ["content"; "stopReason"; "errorMessage"]%string -> fieldAt m' k = fieldAt m k.

(** The entry was written in a hidden turn that closes a checklist: after the prompt of that turn
    and before the next message of a user. *)
Definition inClosingTurn (source : HistorySource) (n : nat) : Prop := let entries := map sessionEntry (hs_entries source) in
  exists e, entries !! n = Some e /\ Todo.isPrompt e = false /\ Todo.isUser e = false /\ Todo.afterPrompt (take n entries).

(** What is shown of an entry: of an assistant's message in such a turn, its tool calls; of any other, all. *)
Definition presented (source : HistorySource) (n : nat) (stored raw : fields) : Prop :=
  (inClosingTurn source n /\ assistantMessage stored = true /\ callsOnly stored raw)
  \/ (~ (inClosingTurn source n /\ assistantMessage stored = true) /\ raw = stored).

(** The entries that are not shown: those without an identifier, the head of the session file,
    instructions to the model, and the assistant's messages without a tool call in a closing turn. *)
Definition notShown (source : HistorySource) (n : nat) (stored : fields) : Prop :=
  strOf (getf stored "id") = None \/ isText (getf stored "type") "session" = true
  \/ isText (getf stored "type") "custom_message" = true /\ truthy (getf stored "display") = false
  \/ inClosingTurn source n /\ assistantMessage stored = true /\ callsOf stored = [].

Section Shown.
Context (sha256 : list Z -> list Z) (dateParse : text -> option Z) (view : StoreView) (conversationId : text).

(** The indexed entry [i] is what the history has for the stored entry. *)
Definition indexes (source : HistorySource) (n : nat) (stored : fields) (i : IndexedHistoryEntry) : Prop :=
  exists raw id, presented source n stored raw /\ carries raw (ix_entry i) /\ strOf (getf stored "id") = Some id
  /\ ix_order i = [INum (historyTimestamp dateParse stored); IStr conversationId; IStr (employeeKey source); INum (Z.of_nat n); IStr id]
  /\ ix_references i = [mkRef id (historyEntryRef sha256 conversationId (hs_employee source) id)].

Lemma shownAs_refl raw : carries raw raw.
Proof. by intros k. Qed.
Lemma carries_put raw e k v : u k ∈ OWN_KEYS -> carries raw e -> carries raw (put k v e).
Proof. intros Hk H x Hx. rewrite fieldAt_put, bool_decide_eq_false_2 by (intros ->; done). by apply H. Qed.
Lemma carries_putText raw e k v : u k ∈ OWN_KEYS -> carries raw e -> carries raw (putText k v e).
Proof. intros Hk H. destruct v; [by apply carries_put|done]. Qed.
Lemma carries_putVal raw e k v : u k ∈ OWN_KEYS -> carries raw e -> carries raw (putVal k v e).
Proof. intros Hk H. destruct v; [by apply carries_put|done]. Qed.
Lemma carries_remove raw e k : u k ∈ OWN_KEYS -> carries raw e -> carries raw (removeKey k e).
Proof. intros Hk H x Hx. rewrite fieldAt_remove, bool_decide_eq_false_2 by (intros ->; done). by apply H. Qed.

Ltac ownKey := apply (bool_decide_unpack _); vm_compute; exact I.
Ltac carried := repeat first [apply carries_put; [ownKey|] | apply carries_putText; [ownKey|] | apply carries_putVal; [ownKey|] | apply carries_remove; [ownKey|]].

Lemma putSource_carries source raw0 raw entry id : carries raw0 entry -> carries raw0 (putSource view source raw entry id).
Proof. intros H. unfold putSource. repeat case_match; carried; exact H. Qed.

Lemma reconcile_spec stored : assistantMessage stored = true ->
  match reconcileToolCallsOnly stored with Some raw => callsOnly stored raw /\ callsOf stored <> [] | None => callsOf stored = [] end.
Proof.
  intros Ha. unfold reconcileToolCallsOnly. unfold assistantMessage in Ha. rewrite Ha. cbn [negb]. unfold callsOnly, callsOf, messageOf.
  assert (exists m, asRecord (getf stored "message") = Some m) as [m Hm].
  { apply andb_true_iff in Ha as [_ Ha]. unfold roleIs, messageOf in Ha. destruct (asRecord _) as [m|]; [by exists m|done]. }
  rewrite Hm. cbn [mbind option_bind]. change (fun p => match asRecord p with Some p => isText (getf p "type") "toolCall" | None => false end) with isToolCall.
  assert (List.filter isToolCall (match getf m "content" with VArr l => l | _ => [] end) = match getf m "content" with VArr l => List.filter isToolCall l | _ => [] end) as E by (by destruct (getf m "content")).
  rewrite E. set (calls := match getf m "content" with VArr l => List.filter isToolCall l | _ => [] end). destruct calls as [|c cs] eqn:Ec; [done|]. split; [|done].
  exists m. eexists. split; [done|]. split; [rewrite getf_at, fieldAt_put, bool_decide_eq_true_2 by done; reflexivity|]. split_and!.
  - intros k Hk. by rewrite fieldAt_put, bool_decide_eq_false_2.
  - rewrite getf_at, fieldAt_put. rewrite bool_decide_eq_false_2 by done. by rewrite fieldAt_put, bool_decide_eq_true_2.
  - by rewrite getf_at, fieldAt_put, bool_decide_eq_true_2.
  - rewrite fieldAt_put, bool_decide_eq_false_2, fieldAt_put, bool_decide_eq_false_2, fieldAt_remove by done. by rewrite bool_decide_eq_true_2.
  - intros k Hk. cbn [map] in Hk. rewrite !not_elem_of_cons in Hk. destruct Hk as (K1 & K2 & K3 & _).
    rewrite fieldAt_put, bool_decide_eq_false_2, fieldAt_put, bool_decide_eq_false_2, fieldAt_remove by done. by rewrite bool_decide_eq_false_2.
Qed.

Lemma indexEntry_spec source workIds n stored : hs_entries source !! n = Some stored ->
  match indexEntry sha256 dateParse view conversationId source workIds (Todo.reconcileEntryPositions (map sessionEntry (hs_entries source))) n stored with
  | Some i => indexes source n stored i /\ ~ notShown source n stored
  | None => notShown source n stored
  end.
Proof.
  intros _. unfold indexEntry. set (hidden := Todo.reconcileEntryPositions _). assert (n ∈ hidden <-> inClosingTurn source n) as Hh by apply Todo.reconcile_positions_are_exact.
  assert (match (if bool_decide (n ∈ hidden) then reconcileToolCallsOnly stored else Some stored) with
    | Some raw => presented source n stored raw /\ (forall k, k <> u "message" -> fieldAt raw k = fieldAt stored k) /\ ~ (inClosingTurn source n /\ assistantMessage stored = true /\ callsOf stored = [])
    | None => inClosingTurn source n /\ assistantMessage stored = true /\ callsOf stored = []
    end) as Hraw.
  { destruct (bool_decide_reflect (n ∈ hidden)) as [Hn|Hn]; rewrite Hh in Hn; [|split_and!; [right; split; [by intros [? _]|done]|done|by intros (? & _)]].
    destruct (assistantMessage stored) eqn:Ha.
    - pose proof (reconcile_spec stored Ha) as H. destruct (reconcileToolCallsOnly stored) as [raw|]; [|done]. destruct H as [H Hne]. split_and!; [by left| |by intros (_ & _ & ?)].
      by destruct H as (m & m' & _ & _ & ? & _).
    - assert (reconcileToolCallsOnly stored = Some stored) as -> by (unfold reconcileToolCallsOnly; unfold assistantMessage in Ha; by rewrite Ha).
      split_and!; [right; split; [intros [_ ?]; congruence|done]|done|intros (_ & ? & _); congruence]. }
  destruct (if bool_decide _ then _ else _) as [raw|]; cbn [mbind option_bind]; [|right; right; by right]. destruct Hraw as (Hp & Hsame & Hshow).
  assert (forall k : string, u k <> u "message" -> getf raw k = getf stored k) as Hget by (intros k Hk; by rewrite !getf_at, Hsame).
  rewrite (Hget "id"), (Hget "type"), (Hget "display") by (intros E; vm_compute in E; discriminate E).
  destruct (strOf (getf stored "id")) as [id|] eqn:Hid; cbn [mbind option_bind]; [|by left].
  destruct (isText (getf stored "type") "session") eqn:Hs; [right; by left|]. destruct (_ && negb _) eqn:Hc; [right; right; left; by boolify|]. split.
  - exists raw, id. split_and!; [done| |done| |done]; cbn [ix_entry ix_order].
    + apply putSource_carries, carries_putText; [ownKey|]. repeat case_match; carried; apply shownAs_refl.
    + unfold historyTimestamp. rewrite (Hget "timestamp") by (intros E; vm_compute in E; discriminate E). done.
  - intros [H|[H|[[H1 H2]|H]]]; [congruence..| |done]. rewrite H1, H2 in Hc. done.
Qed.

Lemma indexSource_spec source :
  (forall n stored, hs_entries source !! n = Some stored -> notShown source n stored \/ exists i, i ∈ indexSource sha256 dateParse view conversationId source /\ indexes source n stored i)
  /\ forall i, i ∈ indexSource sha256 dateParse view conversationId source -> exists n stored, hs_entries source !! n = Some stored /\ indexes source n stored i /\ ~ notShown source n stored.
Proof.
  unfold indexSource. set (workIds := workIdsForEntries _ _). split.
  - intros n stored Hn. pose proof (indexEntry_spec source workIds n stored Hn) as H. destruct (indexEntry _ _ _ _ _ _ _ n stored) as [i|] eqn:Hi; [right|by left].
    exists i. split; [|apply H]. apply list_elem_of_In, in_concat. exists [i]. split; [|by left]. apply list_elem_of_In, elem_of_lookup_imap. exists n, stored. by rewrite Hi.
  - intros i Hi. apply list_elem_of_In, in_concat in Hi as (l & Hl & Hi). apply list_elem_of_In, elem_of_lookup_imap in Hl as (n & stored & -> & Hn).
    pose proof (indexEntry_spec source workIds n stored Hn) as H. destruct (indexEntry _ _ _ _ _ _ _ n stored) as [j|]; [|by destruct Hi]. destruct Hi as [<-|[]]. by exists n, stored.
Qed.
End Shown.

(** ** Copies of one message *)

(** [j] stands for [i]: it is the same entry, or the earlier copy of the same logical message. *)
Definition standsFor (j i : IndexedHistoryEntry) : Prop :=
  ix_references i ⊆ ix_references j /\
  ((ix_entry j = ix_entry i /\ ix_order j = ix_order i) \/
   (exists key, logicalKey (ix_entry j) = Some key /\ logicalKey (ix_entry i) = Some key /\ before j i)).
Definition keysOf (l : list IndexedHistoryEntry) : list text := omap (logicalKey ∘ ix_entry) l.

Record merged (done_ shown : list IndexedHistoryEntry) : Prop := {
  mg_sorted : StronglySorted before shown;
  mg_orders : forall j, j ∈ shown -> exists i, i ∈ done_ /\ ix_order i = ix_order j /\ ix_entry i = ix_entry j;
  mg_keys : NoDup (keysOf shown);
  mg_stands : forall i, i ∈ done_ -> exists j, j ∈ shown /\ standsFor j i;
}.

Lemma addReferences_order key refs l : map ix_order (addReferences key refs l) = map ix_order l.
Proof. unfold addReferences. rewrite map_map. apply map_ext. intros i. case_bool_decide; done. Qed.
Lemma addReferences_entry key refs l : map ix_entry (addReferences key refs l) = map ix_entry l.
Proof. unfold addReferences. rewrite map_map. apply map_ext. intros i. case_bool_decide; done. Qed.
Lemma keysOf_entries l : keysOf l = omap logicalKey (map ix_entry l).
Proof. unfold keysOf. induction l as [|i l IH]; [done|]. cbn. destruct (logicalKey (ix_entry i)); by rewrite ?IH. Qed.
Lemma sorted_orders l l' : map ix_order l = map ix_order l' -> StronglySorted before l -> StronglySorted before l'.
Proof.
  revert l'. induction l as [|i l IH]; intros [|j l'] E H; try done. injection E as E1 E2. apply StronglySorted_cons in H as [Hall H].
  constructor; [by apply IH|]. apply Forall_forall. intros x Hx. apply (list_elem_of_fmap_2 ix_order) in Hx.
  change (ix_order <$> l') with (map ix_order l') in Hx. rewrite <- E2 in Hx. apply list_elem_of_fmap in Hx as (y & Ey & Hy).
  eapply Forall_forall in Hall; [|exact Hy]. unfold before in *. rewrite Ey. by rewrite <- E1.
Qed.

Lemma elem_addReferences key refs l j : j ∈ l -> exists j', j' ∈ addReferences key refs l /\ ix_entry j' = ix_entry j /\ ix_order j' = ix_order j /\
  ix_references j ⊆ ix_references j' /\ (logicalKey (ix_entry j) = Some key -> refs ⊆ ix_references j').
Proof.
  intros Hj. eexists. split; [apply list_elem_of_fmap_2; exact Hj|]. cbn beta. case_bool_decide; cbn; [set_solver|]. split_and!; [done..|]. done.
Qed.
Lemma standsFor_grow j j' i : standsFor j i -> ix_entry j' = ix_entry j -> ix_order j' = ix_order j -> ix_references j ⊆ ix_references j' -> standsFor j' i.
Proof.
  intros [HR H] He Ho Hr. split; [set_solver|]. unfold before. rewrite He, Ho. exact H.
Qed.

Lemma merged_step done_ shown i : merged done_ shown -> (forall j, j ∈ done_ -> before j i) -> merged (done_ ++ [i]) (keepFirst shown i).
Proof.
  intros [HS HO HK HT] Hlast. assert (forall j, j ∈ shown -> before j i) as Hshown.
  { intros j Hj. destruct (HO j Hj) as (k & Hk & E & _). unfold before. rewrite <- E. by apply Hlast. }
  assert (Happ : (forall key, logicalKey (ix_entry i) = Some key -> key ∉ keysOf shown) -> merged (done_ ++ [i]) (shown ++ [i])).
  { intros Hfresh. split.
    - clear -HS Hshown. induction HS as [|j l Hl IH Hall]; cbn; [repeat constructor|]. constructor; [apply IH; set_solver|]. apply Forall_app. split; [done|].
      repeat constructor. apply Hshown. set_solver.
    - intros j [Hj| ->%list_elem_of_singleton]%elem_of_app; [destruct (HO j Hj) as (k & Hk & E); exists k|exists i]; set_solver.
    - unfold keysOf. rewrite omap_app. cbn. destruct (logicalKey (ix_entry i)) as [key|] eqn:E; [|by rewrite app_nil_r].
      apply NoDup_app. split_and!; [done| |apply NoDup_singleton]. intros k Hk ->%list_elem_of_singleton. by apply (Hfresh key).
    - intros k [Hk| ->%list_elem_of_singleton]%elem_of_app; [destruct (HT k Hk) as (j & Hj & H); exists j; set_solver|].
      exists i. split; [set_solver|]. split; [done|by left]. }
  unfold keepFirst. destruct (logicalKey (ix_entry i)) as [key|] eqn:Hkey; [|by apply Happ].
  destruct (existsb _ shown) eqn:He.
  2:{ apply Happ. intros k [= <-] Hin. apply list_elem_of_omap in Hin as (j & Hj & E). apply not_true_iff_false in He. apply He. apply existsb_exists.
      exists j. split; [by apply list_elem_of_In|]. by apply bool_decide_eq_true_2. }
  clear Happ. apply existsb_exists in He as (j & Hj & E). apply list_elem_of_In in Hj. boolify. split.
  - eapply sorted_orders; [|exact HS]. by rewrite addReferences_order.
  - intros k (k' & -> & Hk)%list_elem_of_fmap. destruct (HO k' Hk) as (x & Hx & Ex & Ee). exists x. split; [set_solver|]. cbn beta. by case_bool_decide.
  - by rewrite keysOf_entries, addReferences_entry, <- keysOf_entries.
  - intros k [Hk| ->%list_elem_of_singleton]%elem_of_app.
    + destruct (HT k Hk) as (x & Hx & H). destruct (elem_addReferences key (ix_references i) shown x Hx) as (x' & Hx' & E1 & E2 & E3 & _).
      exists x'. split; [done|]. by eapply standsFor_grow.
    + destruct (elem_addReferences key (ix_references i) shown j Hj) as (j' & Hj' & E1 & E2 & _ & E3). exists j'. split; [done|]. split; [by apply E3|].
      right. exists key. unfold before. rewrite E1, E2. split_and!; [done..|]. by apply Hshown.
Qed.

Lemma merged_fold todo : forall done_ shown, StronglySorted before (done_ ++ todo) -> merged done_ shown -> merged (done_ ++ todo) (fold_left keepFirst todo shown).
Proof.
  induction todo as [|i todo IH]; intros done_ shown HS HM; cbn [fold_left]; [by rewrite app_nil_r|].
  replace (done_ ++ i :: todo) with ((done_ ++ [i]) ++ todo) in * by (by rewrite <- app_assoc). apply IH; [done|]. apply merged_step; [done|].
  intros j Hj. clear -HS Hj. rewrite <- app_assoc in HS. induction done_ as [|k l IHl]; [by apply not_elem_of_nil in Hj|].
  cbn in HS. apply StronglySorted_cons in HS as [Hall HS]. apply elem_of_cons in Hj as [->|Hj]; [|by apply IHl].
  eapply (proj1 (Forall_forall _ _) Hall). set_solver.
Qed.

(** Everything that is known about a merged history. *)
Lemma history_merged sha256 dateParse view conversationId sources : NoDup (map employeeKey sources) ->
  exists indexed, indexed ≡ₚ concat (map (indexSource sha256 dateParse view conversationId) sources) /\
    merged indexed (mergeHistorySources sha256 dateParse view conversationId sources) /\ Forall typed indexed.
Proof.
  intros Hd. destruct (orders_distinct sha256 dateParse view conversationId sources Hd) as [HD HT].
  exists (Redaction.sortBy orderLe (concat (map (indexSource sha256 dateParse view conversationId) sources))).
  split; [apply Redaction.sortBy_perm|]. split; [|by rewrite Redaction.sortBy_perm].
  apply (merged_fold _ [] []); [by apply orderLe_sorted|]. split; [constructor| |constructor|]; by intros ? ?%not_elem_of_nil.
Qed.

(** C27. The history of a conversation shows what every participant's session has stored, in one
    strict order.  Every stored entry is shown, with its place, identifier and members, unless it
    is one of those that are not to be shown ([notShown]: an entry without an identifier, the head
    of the file, an instruction to the model, or an assistant's message without a tool call in a
    hidden closing turn; of one with tool calls in such a turn only these are shown).  A user's
    message that was delivered to several participants is shown once, as its earliest copy, and
    that one answers to the references of all the copies.  And nothing else is shown. *)
Theorem history_shows_every_message_once sha256 dateParse view conversationId sources : NoDup (map employeeKey sources) ->
  let out := mergeHistorySources sha256 dateParse view conversationId sources in
  let shownFor := indexes sha256 dateParse conversationId in
  StronglySorted before out /\ NoDup (keysOf out)
  /\ (forall source n stored, source ∈ sources -> hs_entries source !! n = Some stored ->
        notShown source n stored \/ exists i j, shownFor source n stored i /\ j ∈ out /\ standsFor j i)
  /\ (forall j, j ∈ out -> exists source n stored i, source ∈ sources /\ hs_entries source !! n = Some stored /\ ~ notShown source n stored
        /\ shownFor source n stored i /\ ix_order j = ix_order i /\ ix_entry j = ix_entry i).
Proof.
  intros (indexed & HP & [HS HO HK HT] & _)%(history_merged sha256 dateParse view conversationId). cbn zeta. split_and!; [done..| |].
  - intros source n stored Hs Hn. destruct (indexSource_spec sha256 dateParse view conversationId source) as [H _]. destruct (H n stored Hn) as [?|(i & Hi & Hx)]; [by left|right].
    destruct (HT i) as (j & Hj & Hst); [|by exists i, j]. rewrite HP. apply list_elem_of_In, in_concat. eexists. split; [|apply list_elem_of_In; exact Hi].
    by apply in_map, list_elem_of_In.
  - intros j Hj. destruct (HO j Hj) as (i & Hi & E1 & E2). rewrite HP in Hi. apply list_elem_of_In, in_concat in Hi as (l & Hl & Hi). apply in_map_iff in Hl as (source & <- & Hs).
    destruct (indexSource_spec sha256 dateParse view conversationId source) as [_ H]. apply list_elem_of_In in Hi, Hs. destruct (H i Hi) as (n & stored & Hn & Hx & Hne).
    exists source, n, stored, i. by split_and!.
Qed.

(** A message delivered to two employees, and one reply. *)
Definition demoMessage (id role body : string) (at_ : Z) : fields :=
  [(u "id", VStr (u id)); (u "type", VStr (u "message")); (u "timestamp", numberOf at_);
   (u "message", VObj true [(u "role", VStr (u role)); (u "content", VStr (u body))])].
Definition demoSources : list HistorySource :=
  [mkSource (Some (u "ann")) Coordinator [demoMessage "a1" "user" "hello" 5; demoMessage "a2" "assistant" "hi there" 7];
   mkSource (Some (u "bob")) Member [demoMessage "b1" "user" "hello" 6]].
Definition demoView : StoreView := mkView (fun _ => None) [] (fun _ => None) (fun _ _ => Some (mkOrigin (u "human") (u "me") None (u "L1"))).
Definition demoHistory : list IndexedHistoryEntry := mergeHistorySources (fun _ => [1; 2; 3]) (fun _ => None) demoView (u "c1") demoSources.
Lemma history_shows_every_message_once_witness :
  map (fun i => map ref_id (ix_references i)) demoHistory = [[u "a1"; u "b1"]; [u "a2"]] /\ StronglySorted before demoHistory.
Proof.
  split; [vm_compute; reflexivity|]. apply (history_shows_every_message_once (fun _ => [1; 2; 3]) (fun _ => None) demoView (u "c1") demoSources).
  apply (bool_decide_unpack _). vm_compute. exact I.
Defined.
