(* ===== verification/ConversationReads.v ===== *)
(** Reading conversations (services/conversation-reads.ts): unread counts, read pointers, pages
    of the history and full-text search.

    [Reads] is what the service gets from the store and the session host: who owns which
    conversation, the recorded sources of its history, the conversations of a member, the
    automation task of a conversation, the employees and which of them can be used.  [lower] is
    [String.prototype.toLowerCase], [sha256] and [dateParse] as in History.  An answer is the
    result of one call against one state; a query is the list of its parameters. *)

From S2P Require Import Prelude Decimal Regex Redact IsoTime EventSse Codec ReadCursor History.
From S2P Require Redaction.
From stdpp Require Import sorting.
Local Open Scope Z_scope.

Record Caller : Type := mkCaller { tenantId : option text; userId : option text; callerId : text }.
Definition memberId (c : Caller) : text := nullish (userId c) (callerId c).
Record Metadata : Type := mkMetadata { md_id : text; md_title : option text; md_lastRead : option text; md_scheduled : bool }.
Record Expert : Type := mkExpert {
  ex_id : text; ex_name : text; ex_handle : text; ex_revoked : bool; ex_status : option text; ex_version : text; ex_roleTitle : val; ex_departments : val;
}.
Record Reads : Type := mkReads {
  rd_owned : text -> text -> text -> option Metadata;
  rd_sources : text -> list HistorySource; rd_view : text -> StoreView;
  rd_conversations : text -> text -> list Metadata;
  rd_task : text -> option text;
  rd_participants : text -> list (text * ParticipantRole);
  rd_experts : text -> text -> list Expert; rd_snapshots : text -> text -> list (text * text);
}.
Inductive ReadError : Type :=
| ConversationNotFound | InvalidQuery | InvalidLimit | InvalidLastRead | InvalidEntryRef | InvalidQ | BadCursor | NotOwned | RangeError | TypeError.

Definition query : Type := list (text * text).
Definition param (q : query) (k : string) : option text := snd <$> List.find (fun p => bool_decide (p.1 = u k)) q.
Definition validateReadQuery (q : query) (allowed : list string) : result ReadError unit :=
  require (forallb (fun p => existsb (fun k => bool_decide (p.1 = u k)) allowed && (length (List.filter (fun p' => bool_decide (p'.1 = p.1)) q) =? 1)%nat) q) InvalidQuery.
Definition readPageLimit (q : query) : result ReadError nat :=
  match param q "limit" with
  | None => Ok (Z.to_nat 50)
  | Some raw =>
      if negb (forallb isDigit raw) || bool_decide (raw = []) then Err InvalidLimit
      else let '(n, _, _) := digitRun 0 0 raw in if (1 <=? n) && (n <=? 100) then Ok (Z.to_nat n) else Err InvalidLimit
  end.

Definition resolveReadEntry (entries : list IndexedHistoryEntry) (reference : text) : option IndexedHistoryEntry :=
  match concat (map (fun i => map (fun _ => i) (List.filter (fun r => bool_decide (ref_entry r = reference) || bool_decide (ref_id r = reference)) (ix_references i))) entries) with
  | [i] => Some i
  | _ => None
  end.

Section Reads.
Context (sha256 : list Z -> list Z) (dateParse : text -> option Z) (parseRuntimeJson : text -> option val) (home : text) (lower : text -> text).

Definition history (w : Reads) (id : text) : list IndexedHistoryEntry := mergeHistorySources sha256 dateParse (rd_view w id) id (rd_sources w id).
Definition shownEntry (e : fields) : option fields := serializePiEntry parseRuntimeJson dateParse home (VObj true e).
Definition owned (w : Reads) (id : text) (c : Caller) : result ReadError Metadata :=
  match (t ← nonEmptyText (tenantId c); rd_owned w id t (memberId c)) with Some m => Ok m | None => Err ConversationNotFound end.
(** The session host checks the owner again. *)
Definition readEntries (w : Reads) (id : text) (c : Caller) : result ReadError (list IndexedHistoryEntry) :=
  match owned w id c with Ok _ => Ok (history w id) | Err _ => Err NotOwned end.

(** *** Metadata and the read pointer *)

Record ReadState : Type := mkReadState { st_preview : option text; st_at : option text; st_unread : Z; st_task : option text }.
Definition MAX_DATE : Z := 8640000000000000.
Definition isoDate (ms : Z) : option text := if (- MAX_DATE <=? ms) && (ms <=? MAX_DATE) then Some (u (toISOString ms)) else None.
Definition timeOf (i : IndexedHistoryEntry) : Z := match ix_order i with INum t :: _ => t | _ => 0 end.
Definition unreadAfter (read : option IndexedHistoryEntry) (i : IndexedHistoryEntry) : bool :=
  isMessage (ix_entry i) && roleIs (ix_entry i) ["assistant"] && match read with Some r => 0 <? compareReadOrder (ix_order i) (ix_order r) | None => true end.
Definition readStep (read : option IndexedHistoryEntry) (st : option text * option text * Z) (i : IndexedHistoryEntry) : option text * option text * Z :=
  match visibleHistoryText (ix_entry i) with
  | None => st
  | Some t =>
      let '(_, _, n) := st in
      (Some (safeText t 200), if 0 <? timeOf i then isoDate (timeOf i) else None, if unreadAfter read i then n + 1 else n)
  end.
Definition metadata (w : Reads) (id : text) (c : Caller) : result ReadError ReadState :=
  m ← owned w id c;
  entries ← readEntries w id c;
  let read := ref ← nonEmptyText (md_lastRead m); resolveReadEntry entries ref in
  let '(preview, at_, n) := fold_left (readStep read) entries (None, None, 0) in
  Ok (mkReadState preview at_ n (match rd_task w id with Some t => Some t | None => if md_scheduled m then Some id else None end)).

Definition readPointer (w : Reads) (id : text) (c : Caller) (value : val) : result ReadError (option text) :=
  _ ← owned w id c;
  match value with
  | VNull => Ok None
  | VStr ((_ :: _) as s) =>
      if (256 <? length s)%nat then Err InvalidLastRead
      else entries ← readEntries w id c;
           match resolveReadEntry entries s with Some i => Ok (strOf (getf (ix_entry i) "entry_ref")) | None => Err InvalidLastRead end
  | _ => Err InvalidLastRead
  end.

(** *** Participants *)

Definition employeeDisplay (e : option Expert) : val * val :=
  (match ex_roleTitle <$> e with Some (VStr ((_ :: _) as s)) => VStr (safeText s 100) | _ => VNull end,
   match ex_departments <$> e with
   | Some (VArr l) => VArr (omap (fun v => (fun s => VStr (safeText s 256)) <$> nonEmptyText (strOf v)) l)
   | _ => VArr []
   end).
Definition available (snapshots : list (text * text)) (e : Expert) : bool :=
  negb (ex_revoked e) && match ex_status e with None => true | Some s => bool_decide (s = u "active") end
  && existsb (fun s => bool_decide (s = (ex_id e, ex_version e))) snapshots.
Record ParticipantView : Type := mkParticipant {
  pv_id : text; pv_name : text; pv_handle : option text; pv_display : val * val; pv_role : ParticipantRole; pv_available : bool;
}.
Definition participants (w : Reads) (id : text) (c : Caller) : result ReadError (list ParticipantView) :=
  _ ← owned w id c;
  let t := nullish (tenantId c) [] in
  let experts := rd_experts w t (memberId c) in
  let snapshots := rd_snapshots w t (memberId c) in
  Ok (map (fun '(employee, role) =>
    (* a map built from a list keeps the last value of a key *)
    let e := List.find (fun e => bool_decide (ex_id e = employee)) (reverse experts) in
    mkParticipant (safeText employee 256) (safeText (nullish (ex_name <$> e) employee) 256) ((fun e => safeText (ex_handle e) 256) <$> e)
      (employeeDisplay e) role (match e with Some e => available snapshots e | None => false end)) (rd_participants w id)).

(** *** Pages of the history *)

Definition scopeOf (resource : string) (c : Caller) (filters : list Redaction.json) : text :=
  readCursorScope sha256 (u resource) [nullOr (tenantId c); Redaction.JStr (memberId c)] filters.
Definition boundaryOf (scope : text) (cursor : option text) : result ReadError (option (list item)) :=
  match cursor with
  | None => Ok None
  | Some s => match decodeReadCursor s scope HISTORY_ORDER_TYPES with Ok b => Ok (Some b) | Err _ => Err BadCursor end
  end.
Record Page (A : Type) : Type := mkPage { pg_data : list A; pg_next : option text; pg_more : bool }.
Arguments mkPage {A}. Arguments pg_data {A}. Arguments pg_next {A}. Arguments pg_more {A}.
Definition cutPage (scope : text) (limit : nat) (l : list IndexedHistoryEntry) : Page IndexedHistoryEntry :=
  let page := take limit l in
  let more := (limit <? length l)%nat in
  mkPage page (if more then (fun i => encodeReadCursor scope (ix_order i)) <$> last page else None) more.
Definition anchored (entries : list IndexedHistoryEntry) (reference : option text) : result ReadError (list IndexedHistoryEntry) :=
  match reference with
  | None => Ok entries
  | Some r =>
      match resolveReadEntry entries r, literal (u "entry_v1_") r with
      | Some anchor, Some _ => Ok (List.filter (fun i => 0 <=? compareReadOrder (ix_order i) (ix_order anchor)) entries)
      | _, _ => Err InvalidEntryRef
      end
  end.
Definition entries (w : Reads) (id : text) (c : Caller) (q : query) : result ReadError (Page fields) :=
  _ ← owned w id c;
  _ ← validateReadQuery q ["limit"; "cursor"; "entry_ref"]%string;
  match q with
  | [] => l ← readEntries w id c; Ok (mkPage (omap shownEntry (map ix_entry l)) None false)
  | _ =>
      limit ← readPageLimit q;
      let scope := scopeOf "entries:ascending" c [Redaction.JStr id] in
      let cursor := param q "cursor" in
      let reference := param q "entry_ref" in
      _ ← require (negb (bool_decide (is_Some cursor) && bool_decide (is_Some reference))) InvalidQuery;
      boundary ← boundaryOf scope cursor;
      l ← readEntries w id c;
      let l := match boundary with Some b => List.filter (fun i => 0 <? compareReadOrder (ix_order i) b) l | None => l end in
      l ← anchored l reference;
      let page := cutPage scope limit l in
      Ok (mkPage (omap shownEntry (map ix_entry (pg_data page))) (pg_next page) (pg_more page))
  end.

(** *** Search *)

Fixpoint indexOf (p s : text) : option nat :=
  if bool_decide (is_Some (literal p s)) then Some 0%nat else match s with _ :: s => S <$> indexOf p s | [] => None end.
Definition SNIPPET_CHARS : nat := 238.
Definition ELLIPSIS : text := [8230].
Definition snippetOf (t : text) (position : nat) : text :=
  let start := (position - 40)%nat in
  (if (0 <? start)%nat then ELLIPSIS else []) ++ trim (collapse false (take SNIPPET_CHARS (drop start t)))
  ++ (if (start + SNIPPET_CHARS <? length t)%nat then ELLIPSIS else []).
Definition HIT_FIELDS : list string :=
  ["source_type"; "source_id"; "source_display_name"; "source_employee_id"; "source_employee_display_name"; "source_role"; "logical_message_id"]%string.
Definition orNull (v : val) : val := match v with VUndef => VNull | _ => v end.
Definition hitValue (conversation : Metadata) (i : IndexedHistoryEntry) (t : text) (position : nat) : result ReadError fields :=
  match shownEntry (put "message" VUndef (ix_entry i)), isoDate (timeOf i) with
  | None, _ => Err TypeError
  | _, None => Err RangeError
  | Some m, Some at_ =>
      let role := match (if isMessage (ix_entry i) then messageOf (ix_entry i) else None) with Some msg => getf msg "role" | None => VStr (u "user") end in
      let base := [(u "conversation_id", VStr (md_id conversation));
                   (u "conversation_title", match md_title conversation with Some s => VStr (safeText s 200) | None => VNull end);
                   (u "entry_ref", getf (ix_entry i) "entry_ref"); (u "id", getf m "id"); (u "participant_employee_id", orNull (getf m "participant_employee_id"));
                   (u "timestamp", VStr at_); (u "role", role); (u "snippet", VStr (snippetOf t position))] in
      Ok (fold_left (fun r k => putDefined k (getf m k) r) HIT_FIELDS base)
  end.
Record Hit : Type := mkHit { hit_order : list item; hit_value : fields }.
Definition hitAt (conversation : Metadata) (q : text) (employeeId : option text) (boundary : option (list item)) (i : IndexedHistoryEntry) : result ReadError (list Hit) :=
  if match boundary with Some b => 0 <=? compareReadOrder (ix_order i) b | None => false end then Ok []
  else if match employeeId with Some e => negb (bool_decide (strOf (getf (ix_entry i) "source_employee_id") = Some e)) | None => false end then Ok []
  else match (t ← searchableHistoryText (ix_entry i); p ← indexOf (lower q) (lower t); Some (t, p)) with
       | None => Ok []
       | Some (t, p) => v ← hitValue conversation i t p; Ok [mkHit (ix_order i) v]
       end.
Fixpoint collect {A B} (f : A -> result ReadError (list B)) (l : list A) : result ReadError (list B) :=
  match l with [] => Ok [] | x :: l => a ← f x; b ← collect f l; Ok (a ++ b) end.
Definition searchIn (w : Reads) (c : Caller) (q : text) (employeeId : option text) (boundary : option (list item)) (m : Metadata) : result ReadError (list Hit) :=
  l ← readEntries w (md_id m) c; collect (hitAt m q employeeId boundary) l.

Definition searchText (q : query) : result ReadError text :=
  match trim <$> param q "q" with
  | Some ((_ :: _) as s) => if (200 <? length s)%nat then Err InvalidQ else Ok s
  | _ => Err InvalidQ
  end.
Definition search (w : Reads) (c : Caller) (q : query) : result ReadError (Page fields) :=
  _ ← validateReadQuery q ["q"; "conversation_id"; "employee_id"; "limit"; "cursor"]%string;
  term ← searchText q;
  limit ← readPageLimit q;
  let conversationId := param q "conversation_id" in
  let employeeId := param q "employee_id" in
  _ ← require (negb (bool_decide (conversationId = Some [])) && negb (bool_decide (employeeId = Some []))) InvalidQuery;
  _ ← match conversationId with Some id => (fun _ => tt) <$> owned w id c | None => Ok tt end;
  let scope := scopeOf "messages:descending" c [Redaction.JStr (lower term); nullOr conversationId; nullOr employeeId] in
  boundary ← boundaryOf scope (param q "cursor");
  conversations ← match conversationId with Some id => (fun m => [m]) <$> owned w id c | None => Ok (rd_conversations w (nullish (tenantId c) []) (memberId c)) end;
  matches ← collect (searchIn w c term employeeId boundary) conversations;
  let sorted := Redaction.sortBy (fun a b => compareReadOrder (hit_order b) (hit_order a) <=? 0) matches in
  let page := take limit sorted in
  let more := (limit <? length sorted)%nat in
  Ok (mkPage (map hit_value page) (if more then (fun h => encodeReadCursor scope (hit_order h)) <$> last page else None) more).
End Reads.
Arguments mkPage {A}. Arguments pg_data {A}. Arguments pg_next {A}. Arguments pg_more {A}.

(** ** Following the cursors *)

Definition pageQuery (limit : text) (cursor : option text) : query := (u "limit", limit) :: match cursor with Some s => [(u "cursor", s)] | None => [] end.
(** Every page from a cursor on, until a page has no next one. *)
Fixpoint walk (ask : query -> result ReadError (Page fields)) (limit : text) (fuel : nat) (cursor : option text) : option (list fields) :=
  match fuel with
  | O => None
  | S fuel =>
      match ask (pageQuery limit cursor) with
      | Ok p => match pg_next p with None => Some (pg_data p) | Some s => (fun rest => pg_data p ++ rest) <$> walk ask limit fuel (Some s) end
      | Err _ => None
      end
  end.

Lemma filter_rejected {A} (f : A -> bool) l : Forall (fun x => f x = false) l -> List.filter f l = [].
Proof. induction 1 as [|x l Hx Hl IH]; cbn; [done|]. by rewrite Hx. Qed.
Lemma filter_accepted {A} (f : A -> bool) l : Forall (fun x => f x = true) l -> List.filter f l = l.
Proof. induction 1 as [|x l Hx Hl IH]; cbn; [done|]. by rewrite Hx, IH. Qed.

Lemma sorted_app_inv {A} (R : A -> A -> Prop) l1 l2 : StronglySorted R (l1 ++ l2) -> StronglySorted R l1 /\ StronglySorted R l2 /\ (forall x y, x ∈ l1 -> y ∈ l2 -> R x y).
Proof.
  induction l1 as [|a l1 IH]; cbn; intros H; [split_and!; [constructor|done|set_solver]|]. apply StronglySorted_cons in H as [Hall H].
  destruct (IH H) as (H1 & H2 & H3). apply Forall_app in Hall as [Ha1 Ha2]. split_and!; [by constructor|done|].
  intros x y [->|Hx]%elem_of_cons Hy; [by apply (proj1 (Forall_forall _ _) Ha2)|auto].
Qed.

(** The entries after the last one of a page. *)
Lemma after_boundary l1 x l2 : StronglySorted before (l1 ++ x :: l2) ->
  List.filter (fun i => 0 <? compareReadOrder (ix_order i) (ix_order x)) (l1 ++ x :: l2) = l2.
Proof.
  intros (_ & H2 & H3)%sorted_app_inv. apply StronglySorted_cons in H2 as [Hall _]. rewrite List.filter_app. cbn [List.filter].
  rewrite compareReadOrder_refl. rewrite filter_rejected, filter_accepted; [done|..]; apply Forall_forall.
  - intros y Hy. eapply Forall_forall in Hall; [|exact Hy]. unfold before in Hall. rewrite compareReadOrder_sign. apply Z.ltb_lt. lia.
  - intros y Hy. specialize (H3 y x Hy ltac:(set_solver)). unfold before in H3. apply Z.ltb_ge. lia.
Qed.

Lemma history_sorted sha256 dateParse w id : NoDup (map employeeKey (rd_sources w id)) ->
  StronglySorted before (history sha256 dateParse w id) /\ Forall typed (history sha256 dateParse w id).
Proof.
  intros (indexed & _ & [HS HO _ _] & HT)%(history_merged sha256 dateParse (rd_view w id) id). split; [done|]. apply Forall_forall. intros j Hj.
  destruct (HO j Hj) as (i & Hi & E & _). eapply Forall_forall in HT; [|exact Hi]. unfold typed in *. by rewrite <- E.
Qed.

Section Paging.
Context (sha256 : list Z -> list Z) (dateParse : text -> option Z) (parseRuntimeJson : text -> option val) (home : text).
Context (w : Reads) (id : text) (c : Caller) (m : Metadata) (limitText : text) (limit : nat).
Context (Hsha : forall x, Forall isByte (sha256 x)) (Hown : owned w id c = Ok m) (Hlim : readPageLimit [(u "limit", limitText)] = Ok limit).
Context (Hsources : NoDup (map employeeKey (rd_sources w id))).
Let scope := scopeOf sha256 "entries:ascending" c [Redaction.JStr id].
Let shown := shownEntry dateParse parseRuntimeJson home.
Let ask := entries sha256 dateParse parseRuntimeJson home w id c.
Context (Hfit : forall i, i ∈ history sha256 dateParse w id -> Forall goodItem (ix_order i) /\ (length (encodeReadCursor scope (ix_order i)) <= 8192)%nat).

Lemma limit_pos : (1 <= limit)%nat.
Proof.
  revert Hlim. unfold readPageLimit, param. cbn [List.find fst]. rewrite bool_decide_eq_true_2 by done. cbn [fmap option_fmap option_map snd].
  destruct (_ || _); [done|]. destruct (digitRun _ _ _) as [[n ?] ?]. destruct (_ && _) eqn:E; [|done]. intros [= <-]. lia.
Qed.
Lemma limit_query cursor : readPageLimit (pageQuery limitText cursor) = Ok limit.
Proof. rewrite <- Hlim. destruct cursor; reflexivity. Qed.
Lemma scope_units : Forall isUnit scope.
Proof.
  unfold scope, scopeOf, readCursorScope. pose proof (base64url_digits _ (Hsha (utf8 (jsonText (Redaction.JArr [Redaction.JStr (u "entries:ascending");
    Redaction.JArr [nullOr (tenantId c); Redaction.JStr (memberId c)]; Redaction.JArr [Redaction.JStr id]]))))) as H. revert H.
  generalize (base64url (sha256 (utf8 (jsonText (Redaction.JArr [Redaction.JStr (u "entries:ascending");
    Redaction.JArr [nullOr (tenantId c); Redaction.JStr (memberId c)]; Redaction.JArr [Redaction.JStr id]]))))). intros s H.
  apply Forall_forall. intros x Hx%list_elem_of_In. apply (proj1 (forallb_forall _ _) H) in Hx. unfold isDigit64, is_word, isUnit in *. lia.
Qed.

(** One page from a given point of the history. *)
Definition cursorAt (l1 : list IndexedHistoryEntry) : option text := (fun i => encodeReadCursor scope (ix_order i)) <$> last l1.
Lemma boundary_at l1 l2 : history sha256 dateParse w id = l1 ++ l2 -> boundaryOf scope (cursorAt l1) = Ok (ix_order <$> last l1).
Proof.
  intros E. unfold cursorAt. destruct (last l1) as [x|] eqn:Hx; [|done]. cbn [fmap option_fmap option_map boundaryOf].
  assert (x ∈ history sha256 dateParse w id) as Hin by (rewrite E; apply elem_of_app; left; by apply last_Some_elem_of).
  destruct (Hfit x Hin) as [Hg Hl]. destruct (history_sorted sha256 dateParse w id Hsources) as [_ HT]. eapply Forall_forall in HT; [|exact Hin].
  rewrite <- HT. rewrite decode_encode by (done || apply scope_units). rewrite bool_decide_eq_true_2 by done. by rewrite boundaryItems_values.
Qed.
Lemma ask_page l1 l2 : history sha256 dateParse w id = l1 ++ l2 ->
  ask (pageQuery limitText (cursorAt l1)) =
    Ok (mkPage (omap shown (map ix_entry (take limit l2))) (if (limit <? length l2)%nat then cursorAt (take limit l2) else None) (limit <? length l2)%nat).
Proof.
  intros E. unfold ask, entries. rewrite Hown. cbn [mbind result_bind].
  assert (validateReadQuery (pageQuery limitText (cursorAt l1)) ["limit"; "cursor"; "entry_ref"]%string = Ok tt) as -> by (destruct (cursorAt l1); reflexivity).
  cbn [mbind result_bind pageQuery]. fold (pageQuery limitText (cursorAt l1)). rewrite limit_query. cbn [mbind result_bind].
  assert (param (pageQuery limitText (cursorAt l1)) "cursor" = cursorAt l1) as -> by (destruct (cursorAt l1); reflexivity).
  assert (param (pageQuery limitText (cursorAt l1)) "entry_ref" = None) as -> by (destruct (cursorAt l1); reflexivity).
  rewrite (bool_decide_eq_false_2 (is_Some (@None text))) by (by intros []). rewrite andb_false_r. cbn [negb require mbind result_bind].
  fold scope. rewrite (boundary_at l1 l2 E). cbn [mbind result_bind]. unfold readEntries. rewrite Hown. cbn [mbind result_bind anchored].
  replace (match ix_order <$> last l1 with Some b => List.filter (fun i => 0 <? compareReadOrder (ix_order i) b) (history sha256 dateParse w id)
           | None => history sha256 dateParse w id end) with l2; [done|].
  destruct (last l1) as [x|] eqn:Hx.
  - apply last_Some in Hx as [l0 ->]. cbn. rewrite E, <- app_assoc. cbn [app]. rewrite after_boundary; [done|].
    destruct (history_sorted sha256 dateParse w id Hsources) as [HS _]. rewrite E, <- app_assoc in HS. exact HS.
  - apply last_None in Hx as ->. done.
Qed.

Lemma walk_complete fuel : forall l1 l2, history sha256 dateParse w id = l1 ++ l2 -> (length l2 < fuel)%nat ->
  walk ask limitText fuel (cursorAt l1) = Some (omap shown (map ix_entry l2)).
Proof.
  pose proof limit_pos as Hpos. induction fuel as [|fuel IH]; intros l1 l2 E Hf; [lia|]. cbn [walk]. rewrite (ask_page l1 l2 E). cbn [pg_next pg_data].
  destruct (Nat.ltb_spec limit (length l2)) as [Hmore|Hmore]; [|by rewrite take_ge].
  assert (cursorAt (take limit l2) = cursorAt (l1 ++ take limit l2)) as Hc.
  { unfold cursorAt. rewrite last_app. destruct (last (take limit l2)) eqn:Hl; [done|]. apply last_None in Hl. apply (f_equal length) in Hl.
    rewrite length_take in Hl. cbn in Hl. lia. }
  destruct (cursorAt (take limit l2)) as [s|] eqn:Hs.
  2:{ unfold cursorAt in Hs. destruct (last (take limit l2)) eqn:Hl; [done|]. apply last_None in Hl. apply (f_equal length) in Hl. rewrite length_take in Hl. cbn in Hl. lia. }
  rewrite Hc, (IH (l1 ++ take limit l2) (drop limit l2)).
  - cbn [fmap option_fmap option_map]. rewrite <- omap_app, <- map_app, take_drop. done.
  - by rewrite <- app_assoc, take_drop.
  - rewrite length_drop. lia.
Qed.
End Paging.

(** C26. Whatever the page size, following the cursors from the first page returns the whole merged
    history, every shown entry exactly once and in order: no entry is skipped or repeated at a
    page border, and the walk ends.  The participants are distinct and the hash returns bytes;
    every cursor is short enough to be accepted. *)
Theorem history_pages_are_complete sha256 dateParse parseRuntimeJson home w id c m limitText limit fuel :
  (forall x, Forall isByte (sha256 x)) -> owned w id c = Ok m -> readPageLimit [(u "limit", limitText)] = Ok limit ->
  NoDup (map employeeKey (rd_sources w id)) ->
  (forall i, i ∈ history sha256 dateParse w id ->
     Forall goodItem (ix_order i) /\ (length (encodeReadCursor (scopeOf sha256 "entries:ascending" c [Redaction.JStr id]) (ix_order i)) <= 8192)%nat) ->
  (length (history sha256 dateParse w id) < fuel)%nat ->
  walk (entries sha256 dateParse parseRuntimeJson home w id c) limitText fuel None =
    Some (omap (shownEntry dateParse parseRuntimeJson home) (map ix_entry (history sha256 dateParse w id))).
Proof.
  intros Hsha Hown Hlim Hsrc Hfit Hfuel.
  exact (walk_complete sha256 dateParse parseRuntimeJson home w id c m limitText limit Hsha Hown Hlim Hsrc Hfit fuel [] _ eq_refl Hfuel).
Qed.

(** ** Search *)

Lemma elem_collect {A B} (f : A -> result ReadError (list B)) l r x : collect f l = Ok r -> x ∈ r -> exists a ra, a ∈ l /\ f a = Ok ra /\ x ∈ ra.
Proof.
  revert r. induction l as [|a l IH]; intros r H Hx; cbn in H; [injection H as <-; by apply not_elem_of_nil in Hx|].
  destruct (f a) as [ra|] eqn:Ha; [|done]. cbn in H. destruct (collect f l) as [rl|]; [|done]. injection H as <-.
  apply elem_of_app in Hx as [Hx|Hx]; [exists a, ra; set_solver|]. destruct (IH rl eq_refl Hx) as (a' & ra' & Ha' & E & Hx'). exists a', ra'. set_solver.
Qed.
Lemma readEntries_owned sha256 dateParse w id c l : readEntries sha256 dateParse w id c = Ok l -> (exists m, owned w id c = Ok m) /\ l = history sha256 dateParse w id.
Proof. unfold readEntries. destruct (owned w id c) as [m|]; [|done]. intros [= <-]. eauto. Qed.

Lemma hitAt_spec dateParse parseRuntimeJson home lower m term e b i r x :
  hitAt dateParse parseRuntimeJson home lower m term e b i = Ok r -> x ∈ r ->
  exists t p, searchableHistoryText (ix_entry i) = Some t /\ indexOf (lower term) (lower t) = Some p /\
    (forall id, e = Some id -> strOf (getf (ix_entry i) "source_employee_id") = Some id) /\
    hit_order x = ix_order i /\ hitValue dateParse parseRuntimeJson home m i t p = Ok (hit_value x) /\
    (forall o, b = Some o -> compareReadOrder (ix_order i) o < 0).
Proof.
  unfold hitAt. destruct (match b with Some _ => _ | None => _ end) eqn:Hb; [intros [= <-]; set_solver|].
  destruct (match e with Some _ => _ | None => _ end) eqn:He; [intros [= <-]; set_solver|].
  destruct (searchableHistoryText (ix_entry i)) as [t|]; cbn [mbind option_bind]; [|intros [= <-]; set_solver].
  destruct (indexOf (lower term) (lower t)) as [p|] eqn:Hp; cbn [mbind option_bind]; [|intros [= <-]; set_solver].
  destruct (hitValue _ _ _ _ _ _ _) as [v|] eqn:Hv; [|done]. cbn [mbind result_bind]. intros [= <-] ->%list_elem_of_singleton.
  exists t, p. split_and!; try done.
  - intros id ->. apply negb_false_iff, bool_decide_eq_true_1 in He. done.
  - intros o ->. apply Z.leb_gt in Hb. done.
Qed.

(** C29. A search answers with at most the page size of hits, and every hit comes from an entry of
    the history of a conversation the caller owns: the entry's redacted text contains the term
    (in lower case), it is by the asked employee if one was asked for, and it lies before the
    boundary of the cursor. *)
Theorem search_is_confined sha256 dateParse parseRuntimeJson home lower w c q page :
  search sha256 dateParse parseRuntimeJson home lower w c q = Ok page ->
  exists term limit, searchText q = Ok term /\ readPageLimit q = Ok limit /\ (length (pg_data page) <= limit)%nat /\
  forall v, v ∈ pg_data page -> exists m own i t p,
    owned w (md_id m) c = Ok own /\ (forall id, param q "conversation_id" = Some id -> owned w id c = Ok m) /\
    i ∈ history sha256 dateParse w (md_id m) /\ searchableHistoryText (ix_entry i) = Some t /\ indexOf (lower term) (lower t) = Some p /\
    (forall e, param q "employee_id" = Some e -> strOf (getf (ix_entry i) "source_employee_id") = Some e) /\
    hitValue dateParse parseRuntimeJson home m i t p = Ok v.
Proof.
  unfold search. destruct (validateReadQuery _ _); [|done]. cbn [mbind result_bind]. destruct (searchText q) as [term|]; [|done]. cbn [mbind result_bind].
  destruct (readPageLimit q) as [limit|]; [|done]. cbn [mbind result_bind]. destruct (require _ _); [|done]. cbn [mbind result_bind].
  destruct (match param q "conversation_id" with Some _ => _ | None => Ok tt end); [|done]. cbn [mbind result_bind].
  set (scope := scopeOf _ _ _ _). destruct (boundaryOf scope (param q "cursor")) as [b|]; [|done]. cbn [mbind result_bind].
  set (conversations := match param q "conversation_id" with Some _ => _ | None => _ end). destruct conversations as [cs|] eqn:Hcs; [|done]. cbn [mbind result_bind].
  destruct (collect _ cs) as [found|] eqn:Hfound; [|done]. cbn [mbind result_bind]. intros [= <-]. exists term, limit. cbn [pg_data].
  split_and!; [done..|rewrite length_map, length_take; lia|]. intros v (h & -> & Hh)%list_elem_of_fmap.
  apply elem_of_take in Hh as (k & Hh & _). apply list_elem_of_lookup_2, Redaction.elem_sortBy in Hh.
  destruct (elem_collect _ _ _ _ Hfound Hh) as (m & rm & Hm & Hrm & Hin). unfold searchIn in Hrm.
  destruct (readEntries _ _ _ _ _) as [l|] eqn:Hl; [|done]. cbn [mbind result_bind] in Hrm. apply readEntries_owned in Hl as [[own Hown] ->].
  destruct (elem_collect _ _ _ _ Hrm Hin) as (i & ri & Hi & Hri & Hx). destruct (hitAt_spec _ _ _ _ _ _ _ _ _ _ _ Hri Hx) as (t & p & Ht & Hp & He & _ & Hv & _).
  exists m, own, i, t, p. split_and!; try done. intros id E. subst conversations. rewrite E in Hcs. destruct (owned w id c) as [m'|]; [|done].
  injection Hcs as <-. apply list_elem_of_singleton in Hm as ->. done.
Qed.

(** ** Witnesses *)

Definition demoReads : Reads :=
  mkReads (fun id t m => if bool_decide (id = u "c1") && bool_decide (t = u "t") && bool_decide (m = u "me") then Some (mkMetadata id None None false) else None)
    (fun _ => demoSources) (fun _ => demoView) (fun _ _ => [mkMetadata (u "c1") None None false]) (fun _ => None) (fun _ => []) (fun _ _ => []) (fun _ _ => []).
Definition demoCaller : Caller := mkCaller (Some (u "t")) (Some (u "me")) (u "device").
Definition demoSha (_ : list Z) : list Z := [1; 2; 3].
Lemma history_pages_are_complete_witness :
  length (history demoSha (fun _ => None) demoReads (u "c1")) = 2%nat /\
  walk (entries demoSha (fun _ => None) (fun _ => None) (u "/h") demoReads (u "c1") demoCaller) (u "1") 3 None =
    Some (omap (shownEntry (fun _ => None) (fun _ => None) (u "/h")) (map ix_entry (history demoSha (fun _ => None) demoReads (u "c1")))).
Proof.
  split; [vm_compute; reflexivity|].
  apply (history_pages_are_complete demoSha (fun _ => None) (fun _ => None) (u "/h") demoReads (u "c1") demoCaller (mkMetadata (u "c1") None None false) (u "1") 1 3).
  - intros x. unfold demoSha, isByte. repeat constructor; done.
  - vm_compute. reflexivity.
  - vm_compute. reflexivity.
  - apply (bool_decide_unpack _). vm_compute. exact I.
  - intros i Hi. apply fits_spec. apply list_elem_of_In in Hi. revert i Hi. apply forallb_forall. vm_compute. reflexivity.
  - apply Nat.ltb_lt. vm_compute. reflexivity.
Defined.
Lemma search_is_confined_witness : exists page,
  search demoSha (fun _ => None) (fun _ => None) (u "/h") (fun s => s) demoReads demoCaller [(u "q", u " there ")] = Ok page /\
  (length (pg_data page) = 1)%nat /\ exists term limit, searchText [(u "q", u " there ")] = Ok term /\ readPageLimit [(u "q", u " there ")] = Ok limit /\ (length (pg_data page) <= limit)%nat.
Proof.
  destruct (search demoSha (fun _ => None) (fun _ => None) (u "/h") (fun s => s) demoReads demoCaller [(u "q", u " there ")]) as [page|e] eqn:E.
  2:{ vm_compute in E. discriminate. }
  exists page. split; [reflexivity|]. split; [vm_compute in E; injection E as <-; reflexivity|].
  destruct (search_is_confined _ _ _ _ _ _ _ _ _ E) as (term & limit & H1 & H2 & H3 & _). exists term, limit. auto.
Defined.

(** A message whose numeric time is a safe integer beyond the range of dates makes every search
    that finds it fail, while the metadata of the conversation just shows no time for it. *)
Definition farReads : Reads :=
  mkReads (fun id _ _ => Some (mkMetadata id None None false)) (fun _ => [mkSource (Some (u "ann")) Coordinator [demoMessage "a1" "user" "hello" 9000000000000000]])
    (fun _ => demoView) (fun _ _ => [mkMetadata (u "c1") None None false]) (fun _ => None) (fun _ => []) (fun _ _ => []) (fun _ _ => []).
Theorem far_timestamp_breaks_search :
  search demoSha (fun _ => None) (fun _ => None) (u "/h") (fun s => s) farReads demoCaller [(u "q", u "hello")] = Err RangeError /\
  (st_at <$> metadata demoSha (fun _ => None) farReads (u "c1") demoCaller) = Ok None.
Proof. split; vm_compute; reflexivity. Qed.
