(* ===== verification/PathSearch.v ===== *)
(** The route search of the office map ([searchPath] of
    clients/desktop/src/scene/office/officeMap/geometry.ts): a breadth-first search over the
    cells of a grid.

    The search is generic in its points and in the three tests it asks for ([Probe]); a test of
    an edge may change a state, the cache of Navigator.  [previous] and [queue] are the typed
    arrays of the source: a write out of range is ignored and a fresh one is filled.  Cells are
    numbered row by row.  The file shows that the arrays are never left, that the loops end, that
    the route found is a shortest one, and that none is found only when none exists. *)

From S2P Require Import Prelude.
Local Open Scope Z_scope.

Definition UNSEEN : Z := -2.
Definition NO_PARENT : Z := -1.

Record Probe (P S : Type) : Type := mkProbe {
  pr_blocked : P -> bool;
  pr_clear : P -> P -> bool;
  pr_edge : Z -> Z -> P -> P -> S -> bool * S;
}.
Arguments mkProbe {P S}. Arguments pr_blocked {P S}. Arguments pr_clear {P S}. Arguments pr_edge {P S}.
(** The grid: its size, the centre of a cell and the column and row of a point. *)
Record Grid (P : Type) : Type := mkGrid { cols : Z; rows : Z; center : Z -> P; cellOf : P -> Z * Z }.
Arguments mkGrid {P}. Arguments cols {P}. Arguments rows {P}. Arguments center {P}. Arguments cellOf {P}.
Record Search : Type := mkSearch { previous : list Z; queue : list Z; tail : nat }.

Section Grid.
Context {P : Type} (g : Grid P).

Definition inGrid (x y : Z) : bool := (0 <=? x) && (x <? cols g) && (0 <=? y) && (y <? rows g).
Definition cellId (x y : Z) : Z := y * cols g + x.
Definition column (id : Z) : Z := id mod cols g.
Definition row (id : Z) : Z := (id - column id) / cols g.
Definition cells : nat := Z.to_nat (cols g * rows g).

(** The cells around a point that can be reached from it in a straight line. *)
Definition attach (clear : P -> P -> bool) (p : P) : list Z :=
  let '(x, y) := cellOf g p in
  concat (map (fun dy => omap (fun dx =>
    if negb (inGrid (x + dx) (y + dy)) then None
    else let id := cellId (x + dx) (y + dy) in if clear p (center g id) then Some id else None) [-1; 0; 1]) [-1; 0; 1]).

(** Left, right, up, down. *)
Definition around (id : Z) : list (Z * Z) :=
  let x := column id in let y := row id in [(x - 1, y); (x + 1, y); (x, y - 1); (x, y + 1)].

Definition slotOf (a : list Z) (i : Z) : option Z := if i <? 0 then None else a !! Z.to_nat i.
Definition write (a : list Z) (i v : Z) : list Z := if i <? 0 then a else <[Z.to_nat i := v]> a.
Definition push (st : Search) (id parent : Z) : Search :=
  mkSearch (write (previous st) id parent) (<[tail st := id]> (queue st)) (S (tail st)).
Definition emptySearch : Search := mkSearch (replicate cells UNSEEN) (replicate cells 0) 0.
Definition startSearch (starts : list Z) : Search := fold_left (fun st id => push st id NO_PARENT) starts emptySearch.

Section Loop.
Context {S : Type} (edge : Z -> Z -> P -> P -> S -> bool * S) (ends : list Z).

Definition visit (id : Z) (acc : Search * S) (n : Z * Z) : Search * S :=
  let '(st, s) := acc in
  let '(nx, ny) := n in
  if negb (inGrid nx ny) then (st, s)
  else
    let next := cellId nx ny in
    if negb (bool_decide (slotOf (previous st) next = Some UNSEEN)) then (st, s)
    else let '(ok, s) := edge id next (center g id) (center g next) s in (if ok then push st next id else st, s).

(** The cells from [cursor] back to the start. *)
Fixpoint trace (fuel : nat) (prev : list Z) (cursor : Z) : list Z :=
  match fuel with
  | O => []
  | Datatypes.S fuel =>
      if cursor =? NO_PARENT then [] else cursor :: match slotOf prev cursor with Some c => trace fuel prev c | None => [] end
  end.

(** [None] when the queue is empty; otherwise the cells from the one found back to the start. *)
Fixpoint run (fuel : nat) (head : nat) (st : Search) (s : S) : option (list Z) * S :=
  match fuel with
  | O => (None, s)
  | Datatypes.S fuel =>
      if (head <? tail st)%nat then
        let id := nullish (queue st !! head) 0 in
        if bool_decide (id ∈ ends) then (Some (trace (Datatypes.S cells) (previous st) id), s)
        else let '(st, s) := fold_left (visit id) (around id) (st, s) in run fuel (Datatypes.S head) st s
      else (None, s)
  end.
End Loop.

Definition searchPath {S} (probe : Probe P S) (start end_ : P) (s : S) : option (list P) * S :=
  if pr_blocked probe start || pr_blocked probe end_ then (None, s)
  else if pr_clear probe start end_ then (Some [start; end_], s)
  else
    let '(found, s) := run (pr_edge probe) (attach (pr_clear probe) end_) (Datatypes.S cells) 0 (startSearch (attach (pr_clear probe) start)) s in
    ((fun l => reverse (end_ :: map (center g) l ++ [start])) <$> found, s).
End Grid.

(** ** Cells and their neighbours *)

Section Cells.
Context {P : Type} (g : Grid P).

Definition validCell (v : Z) : Prop := exists x y, inGrid g x y = true /\ v = cellId g x y.
Definition neighbours (id : Z) : list Z :=
  omap (fun n => if inGrid g n.1 n.2 then Some (cellId g n.1 n.2) else None) (around g id).

Lemma inGrid_spec x y : inGrid g x y = true <-> 0 <= x < cols g /\ 0 <= y < rows g.
Proof. unfold inGrid. lia. Qed.

Lemma cellId_range x y : inGrid g x y = true -> 0 <= cellId g x y < cols g * rows g.
Proof. rewrite inGrid_spec. unfold cellId. nia. Qed.

Lemma validCell_lt v : validCell v -> 0 <= v /\ (Z.to_nat v < cells g)%nat.
Proof. intros (x & y & Hin & ->). apply cellId_range in Hin. unfold cells. lia. Qed.

Lemma cellId_column x y : inGrid g x y = true -> column g (cellId g x y) = x.
Proof.
  rewrite inGrid_spec. intros H. unfold column, cellId.
  rewrite Z.add_comm, Z_mod_plus_full. apply Z.mod_small. lia.
Qed.

Lemma cellId_row x y : inGrid g x y = true -> row g (cellId g x y) = y.
Proof.
  intros H. unfold row. rewrite (cellId_column _ _ H). apply inGrid_spec in H. unfold cellId.
  replace (y * cols g + x - x) with (y * cols g) by lia. apply Z.div_mul. lia.
Qed.

Lemma cellId_inj x y x' y' :
  inGrid g x y = true -> inGrid g x' y' = true -> cellId g x y = cellId g x' y' -> x = x' /\ y = y'.
Proof.
  intros H H' E. split.
  - pose proof (cellId_column _ _ H) as Hc. rewrite E, (cellId_column _ _ H') in Hc. done.
  - pose proof (cellId_row _ _ H) as Hc. rewrite E, (cellId_row _ _ H') in Hc. done.
Qed.

Lemma neighbours_valid id v : v ∈ neighbours id -> validCell v.
Proof.
  unfold neighbours. rewrite list_elem_of_omap. intros ([x y] & _ & H). cbn in H.
  case_match; simplify_eq. by exists x, y.
Qed.

(** A list of distinct cells is no longer than the arrays. *)
Lemma distinct_cells_bound l : NoDup l -> Forall validCell l -> (length l <= cells g)%nat.
Proof.
  intros Hnd Hv. rewrite <- (length_map Z.to_nat l), <- (length_seq (cells g) 0).
  apply submseteq_length, NoDup_submseteq.
  - apply (NoDup_fmap_2_strong Z.to_nat); [|done]. intros a b Ha Hb E. rewrite Forall_forall in Hv.
    apply Hv, validCell_lt in Ha. apply Hv, validCell_lt in Hb. lia.
  - intros n (v & -> & Hin)%list_elem_of_fmap. apply elem_of_seq.
    rewrite Forall_forall in Hv. apply Hv, validCell_lt in Hin. lia.
Qed.

Lemma concat_map_omap {A B C} (f : A -> B -> option C) (l : list A) (k : list B) :
  concat (map (fun a => omap (f a) k) l) = omap (fun ab => f ab.1 ab.2) (concat (map (fun a => map (pair a) k) l)).
Proof.
  induction l as [|a l IH]; cbn; [done|]. rewrite omap_app, IH. f_equal.
  clear IH. induction k as [|b k IHk]; cbn; [done|]. destruct (f a b); cbn; by rewrite IHk.
Qed.

Lemma omap_NoDup {A B} (f : A -> option B) (l : list A) :
  (forall a a' b, f a = Some b -> f a' = Some b -> a = a') -> NoDup l -> NoDup (omap f l).
Proof.
  intros Hinj. induction 1 as [|a l Hn Hnd IH]; cbn; [constructor|].
  destruct (f a) as [b|] eqn:E; [|done]. constructor; [|done].
  rewrite list_elem_of_omap. intros (a' & Hin & E'). by rewrite (Hinj _ _ _ E E') in Hn.
Qed.

Definition offsets : list (Z * Z) := concat (map (fun dy => map (pair dy) [-1; 0; 1]) [-1; 0; 1]).

Lemma attach_omap clear p :
  attach g clear p = omap (fun d => let x := (cellOf g p).1 + d.2 in let y := (cellOf g p).2 + d.1 in
    if negb (inGrid g x y) then None
    else if clear p (center g (cellId g x y)) then Some (cellId g x y) else None) offsets.
Proof.
  unfold attach. destruct (cellOf g p) as [x y]. cbn [fst snd].
  exact (concat_map_omap (fun dy dx => if negb (inGrid g (x + dx) (y + dy)) then None
    else if clear p (center g (cellId g (x + dx) (y + dy))) then Some (cellId g (x + dx) (y + dy)) else None) _ _).
Qed.

Lemma attach_spec clear p v :
  v ∈ attach g clear p <->
    clear p (center g v) = true /\
    exists x y, v = cellId g x y /\ inGrid g x y = true /\
                -1 <= x - (cellOf g p).1 <= 1 /\ -1 <= y - (cellOf g p).2 <= 1.
Proof.
  rewrite attach_omap, list_elem_of_omap. split.
  - intros ([dy dx] & Hin & H). cbn in H. case_match; [done|]. case_match; simplify_eq. boolify. split; [done|].
    eexists _, _. split; [done|]. split; [done|].
    unfold offsets in Hin. cbn in Hin. rewrite !elem_of_cons in Hin. destruct Hin as [|Hin]; simplify_eq; [lia|].
    repeat (destruct Hin as [|Hin]; simplify_eq; [lia|]). by apply elem_of_nil in Hin.
  - intros (Hc & x & y & -> & Hin & Hx & Hy). exists (y - (cellOf g p).2, x - (cellOf g p).1). split.
    + assert (Hd : forall d, -1 <= d <= 1 -> d = -1 \/ d = 0 \/ d = 1) by lia.
      destruct (Hd _ Hx) as [-> | [-> | ->]], (Hd _ Hy) as [-> | [-> | ->]]; unfold offsets; cbn; set_solver.
    + cbn. replace ((cellOf g p).1 + (x - (cellOf g p).1)) with x by lia.
      replace ((cellOf g p).2 + (y - (cellOf g p).2)) with y by lia. by rewrite Hin, Hc.
Qed.

Lemma attach_valid clear p : Forall validCell (attach g clear p).
Proof.
  apply Forall_forall. intros v. rewrite attach_spec. intros (_ & x & y & -> & H & _). by exists x, y.
Qed.

Lemma attach_NoDup clear p : NoDup (attach g clear p).
Proof.
  rewrite attach_omap. apply omap_NoDup.
  - intros [dy dx] [dy' dx'] b. cbn. repeat case_match; intros; simplify_eq.
    boolify. match goal with H : cellId _ _ _ = _ |- _ => apply cellId_inj in H end; [|done..].
    f_equal; lia.
  - apply (bool_decide_unpack _). by vm_compute.
Qed.
End Cells.

(** ** The search with a test of edges that has no state

    [expand] is the body of the outer loop.  [Found] describes the search when [head] cells have
    been taken from the queue: [q] is the used part of the queue and [lev] the number of edges
    from the start to a cell. *)

Section BreadthFirst.
Context {P : Type} (g : Grid P) (E : Z -> Z -> bool) (starts ends : list Z).

Definition discover (id : Z) (st : Search) (next : Z) : Search :=
  if bool_decide (slotOf (previous st) next = Some UNSEEN) && E id next then push st next id else st.
Definition expand (id : Z) (st : Search) : Search := fold_left (discover id) (neighbours g id) st.
Definition edgeTo (u v : Z) : Prop := v ∈ neighbours g u /\ E u v = true.

(** The routes, from the last cell back to the first. *)
Inductive route : list Z -> Prop :=
| route_start s : s ∈ starts -> route [s]
| route_step u v l : route (u :: l) -> edgeTo u v -> route (v :: u :: l).

(** [v], the cell at place [i], is a start or has its parent at an earlier place below [h]. *)
Definition parented (h : nat) (q : list Z) (lev : Z -> nat) (prev : list Z) (i : nat) (v : Z) : Prop :=
  (slotOf prev v = Some NO_PARENT /\ v ∈ starts /\ lev v = 0%nat) \/
  (exists j u, q !! j = Some u /\ (j < i)%nat /\ (j < h)%nat /\ slotOf prev v = Some u /\ edgeTo u v /\ lev v = S (lev u)).

Record Queued (h top : nat) (st : Search) (q : list Z) (lev : Z -> nat) : Prop := {
  qd_previous : length (previous st) = cells g;
  qd_queue : length (queue st) = cells g;
  qd_take : take (tail st) (queue st) = q;
  qd_tail : length q = tail st;
  qd_distinct : NoDup q;
  qd_valid : Forall (validCell g) q;
  qd_seen : forall v, validCell g v -> (slotOf (previous st) v = Some UNSEEN <-> v ∉ q);
  qd_parents : forall i v, q !! i = Some v -> parented h q lev (previous st) i v;
  qd_sorted : forall i j u v, q !! i = Some u -> q !! j = Some v -> (i <= j)%nat -> (lev u <= lev v)%nat;
  qd_top : forall v, v ∈ q -> (lev v <= top)%nat;
}.

Record Found (h : nat) (st : Search) (q : list Z) (lev : Z -> nat) : Prop := {
  fd_queued : exists top, Queued h top st q lev /\ (forall u, q !! h = Some u -> (top <= S (lev u))%nat);
  fd_head : (h <= tail st)%nat;
  fd_starts : forall s, s ∈ starts -> s ∈ q /\ lev s = 0%nat;
  fd_closed : forall i u v, (i < h)%nat -> q !! i = Some u -> edgeTo u v -> v ∈ q /\ (lev v <= S (lev u))%nat;
  fd_passed : forall i u, (i < h)%nat -> q !! i = Some u -> u ∉ ends;
}.

Lemma slotOf_write a i v j : 0 <= i -> (Z.to_nat i < length a)%nat -> 0 <= j ->
  slotOf (write a i v) j = if decide (i = j) then Some v else slotOf a j.
Proof.
  intros Hi Hl Hj. unfold slotOf, write. repeat (case_match; try lia); subst.
  - by apply list_lookup_insert_eq.
  - apply list_lookup_insert_ne. lia.
Qed.

Lemma write_length a i v : length (write a i v) = length a.
Proof. unfold write. case_match; [done|]. apply length_insert. Qed.

(** Taking a cell not yet in the queue: there is room, and the parents stay. *)
Lemma push_room h top st q lev v : Queued h top st q lev -> validCell g v -> v ∉ q -> (tail st < cells g)%nat.
Proof.
  intros I Hv Hn. rewrite <- (qd_tail _ _ _ _ _ I).
  apply (distinct_cells_bound g (v :: q)); constructor; try done; apply I.
Qed.

Definition levelled (lev : Z -> nat) (v : Z) (n : nat) : Z -> nat := fun w => if decide (w = v) then n else lev w.

Lemma levelled_old lev v n w (q : list Z) : v ∉ q -> w ∈ q -> levelled lev v n w = lev w.
Proof. intros Hn Hw. unfold levelled. case_decide; [by subst|done]. Qed.

Lemma levelled_new lev v n : levelled lev v n v = n.
Proof. unfold levelled. by case_decide. Qed.

Lemma push_seen h top st q lev v p : Queued h top st q lev -> validCell g v -> v ∉ q -> p <> UNSEEN ->
  forall w, validCell g w -> (slotOf (previous (push st v p)) w = Some UNSEEN <-> w ∉ q ++ [v]).
Proof.
  intros I Hv Hn Hp w Hw. pose proof (validCell_lt g _ Hv) as [? ?]. pose proof (validCell_lt g _ Hw) as [? ?].
  cbn. rewrite slotOf_write by (rewrite ?(qd_previous _ _ _ _ _ I); done).
  rewrite elem_of_app, list_elem_of_singleton. case_decide; subst.
  - split; [naive_solver|]. intros []. by right.
  - rewrite (qd_seen _ _ _ _ _ I) by done. naive_solver.
Qed.

Lemma parented_push h h' q lev prev i u v p n :
  (h <= h')%nat -> 0 <= v -> (Z.to_nat v < length prev)%nat -> v ∉ q -> u ∈ q -> 0 <= u ->
  parented h q lev prev i u -> parented h' (q ++ [v]) (levelled lev v n) (write prev v p) i u.
Proof.
  intros Hh Hv Hl Hn Hu Hu0 Hp. unfold parented. assert (u <> v) by (intros ->; done).
  rewrite slotOf_write by done. rewrite decide_False by done. rewrite (levelled_old _ _ _ _ _ Hn Hu).
  destruct Hp as [Hp|(j & w & Hj & ? & ? & ? & ? & ?)]; [by left|right].
  exists j, w. rewrite lookup_app_l by (by eapply lookup_lt_Some).
  rewrite (levelled_old _ _ _ w _ Hn) by (by eapply list_elem_of_lookup_2). split_and!; try done; [lia..].
Qed.

Lemma push_queued h h' top n st q lev v p :
  Queued h top st q lev -> validCell g v -> v ∉ q -> (h <= h')%nat -> p <> UNSEEN -> (top <= n)%nat ->
  parented h' (q ++ [v]) (levelled lev v n) (write (previous st) v p) (length q) v ->
  Queued h' n (push st v p) (q ++ [v]) (levelled lev v n).
Proof.
  intros I Hv Hn Hh Hp Ht Hpar. pose proof (push_room _ _ _ _ _ _ I Hv Hn) as Hroom.
  pose proof (validCell_lt g _ Hv) as [Hv0 Hv1].
  assert (Hlow : forall w, w ∈ q -> (levelled lev v n w <= n)%nat).
  { intros w Hw. rewrite (levelled_old _ _ _ _ _ Hn Hw). pose proof (qd_top _ _ _ _ _ I _ Hw). lia. }
  split.
  - cbn. rewrite write_length. apply I.
  - cbn. rewrite length_insert. apply I.
  - cbn. rewrite (take_S_r _ _ v) by (apply list_lookup_insert_eq; by rewrite (qd_queue _ _ _ _ _ I)).
    rewrite take_insert_ge by lia. by rewrite (qd_take _ _ _ _ _ I).
  - cbn. rewrite length_app, (qd_tail _ _ _ _ _ I). cbn. lia.
  - apply NoDup_app. split; [apply I|]. split; [set_solver|apply NoDup_singleton].
  - apply Forall_app. split; [apply I|]. by constructor.
  - by eapply push_seen.
  - intros i u [Hi|[Hge Hi]]%lookup_app_Some.
    + pose proof (list_elem_of_lookup_2 _ _ _ Hi) as Hu. pose proof (qd_valid _ _ _ _ _ I) as HV.
      rewrite Forall_forall in HV. pose proof (validCell_lt g _ (HV _ Hu)) as [? ?].
      eapply parented_push; try done; [by rewrite (qd_previous _ _ _ _ _ I)|by apply I].
    + apply list_lookup_singleton_Some in Hi as [Hi <-]. by replace i with (length q) by lia.
  - intros i j u w [Hi|[Hgi Hi]]%lookup_app_Some [Hj|[Hgj Hj]]%lookup_app_Some Hij.
    + rewrite !(levelled_old _ _ _ _ _ Hn) by (by eapply list_elem_of_lookup_2). by eapply (qd_sorted _ _ _ _ _ I).
    + apply list_lookup_singleton_Some in Hj as [_ <-]. rewrite levelled_new.
      by eapply Hlow, list_elem_of_lookup_2.
    + apply lookup_lt_Some in Hj. lia.
    + apply list_lookup_singleton_Some in Hi as [_ <-]. by apply list_lookup_singleton_Some in Hj as [_ <-].
  - intros w [Hw|Hw]%elem_of_app; [by apply Hlow|]. apply list_elem_of_singleton in Hw as ->. by rewrite levelled_new.
Qed.

(** The starts. *)
Lemma starts_queued (l : list Z) st q lev :
  (forall v, v ∈ l -> v ∈ starts) -> NoDup l -> Forall (validCell g) l -> (forall v, v ∈ l -> v ∉ q) ->
  Queued 0 0 st q lev ->
  exists lev', Queued 0 0 (fold_left (fun st id => push st id NO_PARENT) l st) (q ++ l) lev'.
Proof.
  revert st q lev. induction l as [|v l IH]; intros st q lev Hs Hnd Hv Hfresh I; cbn.
  { rewrite app_nil_r. by exists lev. }
  apply NoDup_cons in Hnd as [Hnl Hnd]. apply Forall_cons in Hv as [Hv Hvl].
  pose proof (validCell_lt g _ Hv) as [? ?].
  replace (q ++ v :: l) with ((q ++ [v]) ++ l) by (by rewrite <- app_assoc).
  eapply (IH _ _ (levelled lev v 0)); try done.
  - intros w Hw. apply Hs. by right.
  - intros w Hw. rewrite not_elem_of_app, list_elem_of_singleton. split; [apply Hfresh; by right|by intros ->].
  - eapply push_queued; try done; [apply Hfresh; by left|].
    left. rewrite slotOf_write by (rewrite ?(qd_previous _ _ _ _ _ I); done).
    rewrite decide_True by done. split_and!; [done|apply Hs; by left|apply levelled_new].
Qed.

Lemma empty_queued : Queued 0 0 (emptySearch g) [] (fun _ => 0%nat).
Proof.
  split; cbn; rewrite ?length_replicate; try done; try apply NoDup_nil_2; try apply Forall_nil_2; try set_solver.
  intros v H. pose proof (validCell_lt g _ H) as [? ?]. split; [set_solver|]. intros _. unfold slotOf. case_match; [lia|]. by apply lookup_replicate_2.
Qed.

Lemma start_found : NoDup starts -> Forall (validCell g) starts ->
  exists lev, Found 0 (startSearch g starts) starts lev.
Proof.
  intros Hnd Hv.
  destruct (starts_queued starts _ _ _ (fun _ H => H) Hnd Hv (fun v _ => not_elem_of_nil v) empty_queued) as [lev I].
  exists lev. split.
  - exists 0%nat. split; [exact I|]. lia.
  - lia.
  - intros s Hs. split; [done|]. pose proof (qd_top _ _ _ _ _ I s Hs). lia.
  - lia.
  - lia.
Qed.

(** One neighbour of the cell at the head. *)
Lemma discover_queued h id st q lev v :
  Queued (S h) (S (lev id)) st q lev -> q !! h = Some id -> v ∈ neighbours g id ->
  exists q' lev', Queued (S h) (S (lev' id)) (discover id st v) q' lev' /\ q `prefix_of` q' /\
    (forall u, u ∈ q -> lev' u = lev u) /\ (E id v = true -> v ∈ q').
Proof.
  intros I Hid Hv. pose proof (neighbours_valid g _ _ Hv) as Hvv. pose proof (validCell_lt g _ Hvv) as [? ?].
  pose proof (list_elem_of_lookup_2 _ _ _ Hid) as Hidq. unfold discover.
  destruct (decide (v ∈ q)) as [Hin|Hn].
  { rewrite bool_decide_false by (rewrite (qd_seen _ _ _ _ _ I) by done; naive_solver).
    exists q, lev. by split_and!. }
  rewrite bool_decide_true by (by apply (qd_seen _ _ _ _ _ I)). cbn.
  destruct (E id v) eqn:HE; [|by exists q, lev; split_and!].
  assert (Hold : forall u, u ∈ q -> levelled lev v (S (lev id)) u = lev u) by (intros; by eapply levelled_old).
  exists (q ++ [v]), (levelled lev v (S (lev id))). split_and!; [|by apply prefix_app_r|done|set_solver].
  rewrite (Hold id Hidq). eapply push_queued; try done.
  - pose proof (qd_valid _ _ _ _ _ I) as HV. rewrite Forall_forall in HV. apply HV, validCell_lt in Hidq.
    unfold UNSEEN. lia.
  - right. exists h, id. rewrite slotOf_write by (rewrite ?(qd_previous _ _ _ _ _ I); done).
    rewrite decide_True by done. rewrite levelled_new, (Hold id Hidq).
    rewrite lookup_app_l by (by eapply lookup_lt_Some).
    split_and!; try done; [by eapply lookup_lt_Some|lia].
Qed.

Lemma expand_queued l h id st q lev :
  Queued (S h) (S (lev id)) st q lev -> q !! h = Some id -> (forall v, v ∈ l -> v ∈ neighbours g id) ->
  exists q' lev', Queued (S h) (S (lev' id)) (fold_left (discover id) l st) q' lev' /\ q `prefix_of` q' /\
    (forall u, u ∈ q -> lev' u = lev u) /\ (forall v, v ∈ l -> E id v = true -> v ∈ q').
Proof.
  revert st q lev. induction l as [|v l IH]; intros st q lev I Hid Hl; cbn.
  { exists q, lev. split_and!; try done. intros v Hv. by apply elem_of_nil in Hv. }
  destruct (discover_queued _ _ _ _ _ v I Hid) as (q1 & lev1 & I1 & Hp1 & Ho1 & He1); [apply Hl; by left|].
  destruct (IH _ _ _ I1) as (q2 & lev2 & I2 & Hp2 & Ho2 & He2).
  - by eapply prefix_lookup_Some.
  - intros w Hw. apply Hl. by right.
  - assert (Hsub : forall a b : list Z, a `prefix_of` b -> forall u, u ∈ a -> u ∈ b)
      by (intros a b [k ->]; set_solver).
    exists q2, lev2. split_and!; [done|by trans q1| |].
    + intros u Hu. rewrite Ho2 by (by eapply Hsub). by apply Ho1.
    + intros w [->|Hw]%elem_of_cons HE; [|by apply He2]. eapply Hsub; [done|]. by apply He1.
Qed.

Lemma queued_later h top st q lev id : Queued h top st q lev -> (top <= S (lev id))%nat ->
  Queued (S h) (S (lev id)) st q lev.
Proof.
  intros I Ht. split; try apply I.
  - intros i v Hi. destruct (qd_parents _ _ _ _ _ I _ _ Hi) as [?|(j & u & ? & ? & ? & ? & ? & ?)]; [by left|].
    right. exists j, u. split_and!; try done; lia.
  - intros v Hv. pose proof (qd_top _ _ _ _ _ I _ Hv). lia.
Qed.

(** The body of the outer loop keeps [Found]. *)
Lemma expand_found h id st q lev :
  Found h st q lev -> q !! h = Some id -> id ∉ ends ->
  exists q' lev', Found (S h) (expand id st) q' lev'.
Proof.
  intros F Hid Hne. destruct (fd_queued _ _ _ _ F) as (top & I & Ht).
  destruct (expand_queued (neighbours g id) h id st q lev) as (q' & lev' & I' & Hp & Ho & He); try done.
  { eapply queued_later; [done|]. by apply Ht. }
  assert (Hsub : forall u, u ∈ q -> u ∈ q') by (destruct Hp as [k ->]; set_solver).
  assert (Hback : forall i u, (i < S h)%nat -> q' !! i = Some u -> q !! i = Some u).
  { intros i u Hi Hu. apply lookup_lt_Some in Hid. destruct Hp as [k ->]. by rewrite lookup_app_l in Hu by lia. }
  exists q', lev'. split.
  - exists (S (lev' id)). split; [exact I'|]. intros u Hu. apply le_n_S.
    eapply (qd_sorted _ _ _ _ _ I' h (S h)); [by eapply prefix_lookup_Some|done|lia].
  - unfold expand. rewrite <- (qd_tail _ _ _ _ _ I'). apply prefix_length in Hp. apply lookup_lt_Some in Hid. lia.
  - intros s Hs. destruct (fd_starts _ _ _ _ F _ Hs) as [Hq <-]. split; [by apply Hsub|by apply Ho].
  - intros i u v Hi Hu Huv. apply Hback in Hu; [|done].
    rewrite (Ho u) by (by eapply list_elem_of_lookup_2).
    destruct (decide (i = h)) as [->|].
    + simplify_eq. assert (v ∈ q') by (by apply He; apply Huv). split; [done|].
      rewrite <- (Ho id) by (by eapply list_elem_of_lookup_2). by apply (qd_top _ _ _ _ _ I').
    + destruct (fd_closed _ _ _ _ F i u v) as [Hv Hl]; [lia|done..|]. split; [by apply Hsub|]. by rewrite Ho.
  - intros i u Hi Hu. apply Hback in Hu; [|done]. destruct (decide (i = h)) as [->|]; [by simplify_eq|].
    eapply (fd_passed _ _ _ _ F i); [lia|done].
Qed.

(** ** What the search finds *)

Fixpoint search (fuel head : nat) (st : Search) : option (list Z) :=
  match fuel with
  | O => None
  | S fuel =>
      if (head <? tail st)%nat then
        let id := nullish (queue st !! head) 0 in
        if bool_decide (id ∈ ends) then Some (trace (S (cells g)) (previous st) id)
        else search fuel (S head) (expand id st)
      else None
  end.

(** A route to an end, none of which has fewer cells. *)
Definition shortest (l : list Z) : Prop :=
  exists v t, l = v :: t /\ route l /\ v ∈ ends /\
    forall w t', route (w :: t') -> w ∈ ends -> (length t <= length t')%nat.

Lemma trace_route h top st q lev fuel i v :
  Queued h top st q lev -> q !! i = Some v -> (S i < fuel)%nat ->
  exists l, trace fuel (previous st) v = v :: l /\ route (v :: l) /\ length l = lev v.
Proof.
  intros I. pose proof (qd_valid _ _ _ _ _ I) as HV. rewrite Forall_forall in HV.
  revert i v. induction fuel as [|fuel IH]; intros i v Hi Hf; [lia|].
  pose proof (validCell_lt g _ (HV _ (list_elem_of_lookup_2 _ _ _ Hi))) as [? _].
  cbn. rewrite (proj2 (Z.eqb_neq v NO_PARENT)) by (unfold NO_PARENT; lia).
  destruct (qd_parents _ _ _ _ _ I _ _ Hi) as [(-> & Hs & ->)|(j & u & Hj & ? & ? & -> & He & ->)].
  - exists []. split_and!; [|by constructor|done]. destruct fuel; [lia|]. done.
  - destruct (IH _ _ Hj) as (l & -> & Hr & <-); [lia|]. exists (u :: l). split_and!; [done| |done]. by constructor.
Qed.

(** Every route has reached a cell already taken, or is as long as the level at the head. *)
Lemma route_level h st q lev w l :
  Found h st q lev -> route (w :: l) ->
  (exists i, (i < h)%nat /\ q !! i = Some w /\ (lev w <= length l)%nat) \/
  (forall u, q !! h = Some u -> (lev u <= length l)%nat) /\ (h < length q)%nat.
Proof.
  intros F. destruct (fd_queued _ _ _ _ F) as (top & I & _).
  assert (Hq : forall v n, v ∈ q -> (lev v <= n)%nat ->
    (exists i, (i < h)%nat /\ q !! i = Some v /\ (lev v <= n)%nat) \/
    (forall u, q !! h = Some u -> (lev u <= n)%nat) /\ (h < length q)%nat).
  { intros v n [i Hi]%list_elem_of_lookup_1 Hn. destruct (decide (i < h)%nat); [left; by exists i|].
    right. split; [|apply lookup_lt_Some in Hi; lia]. intros u Hu.
    pose proof (qd_sorted _ _ _ _ _ I h i u v Hu Hi). lia. }
  revert w l. enough (forall k, route k -> forall w l, k = w :: l ->
    (exists i, (i < h)%nat /\ q !! i = Some w /\ (lev w <= length l)%nat) \/
    (forall u, q !! h = Some u -> (lev u <= length l)%nat) /\ (h < length q)%nat) by eauto.
  induction 1 as [s Hs|u v k Hr IH He]; intros w l [= <- <-].
  - destruct (fd_starts _ _ _ _ F _ Hs) as [Hsq Hl]. apply Hq; [done|]. by rewrite Hl.
  - destruct (IH u k eq_refl) as [(i & Hi & Hu & Hl)|[Hl ?]].
    + destruct (fd_closed _ _ _ _ F i u v Hi Hu He) as [Hv Hlv]. apply Hq; [done|]. cbn. lia.
    + right. split; [|done]. intros w Hw. specialize (Hl w Hw). cbn. lia.
Qed.

Lemma search_finds fuel h st q lev :
  Found h st q lev -> (cells g < fuel + h)%nat ->
  match search fuel h st with
  | Some l => shortest l
  | None => forall v l, route (v :: l) -> v ∉ ends
  end.
Proof.
  revert h st q lev. induction fuel as [|fuel IH]; intros h st q lev F Hf.
  - destruct (fd_queued _ _ _ _ F) as (top & I & _). pose proof (fd_head _ _ _ _ F).
    pose proof (distinct_cells_bound g q (qd_distinct _ _ _ _ _ I) (qd_valid _ _ _ _ _ I)).
    rewrite (qd_tail _ _ _ _ _ I) in *. lia.
  - destruct (fd_queued _ _ _ _ F) as (top & I & _). cbn [search].
    pose proof (distinct_cells_bound g q (qd_distinct _ _ _ _ _ I) (qd_valid _ _ _ _ _ I)) as Hb.
    destruct (Nat.ltb_spec h (tail st)) as [Hlt|Hge].
    + rewrite <- (qd_tail _ _ _ _ _ I) in Hlt. destruct (lookup_lt_is_Some_2 q h Hlt) as [id Hid].
      assert (Hqu : queue st !! h = Some id).
      { rewrite <- (qd_take _ _ _ _ _ I) in Hid. by apply lookup_take_Some in Hid as [? _]. }
      rewrite Hqu. change (nullish (Some id) 0) with id. cbv zeta. case_bool_decide as Hend.
      * destruct (trace_route _ _ _ _ _ (S (cells g)) h id I Hid) as (l & -> & Hr & Hl); [lia|].
        exists id, l. split_and!; try done. intros w t' Hr' Hw.
        destruct (route_level _ _ _ _ _ _ F Hr') as [(i & Hi & Hq & _)|[Hle _]].
        -- by destruct (fd_passed _ _ _ _ F i w Hi Hq).
        -- specialize (Hle id Hid). lia.
      * destruct (expand_found _ _ _ _ _ F Hid Hend) as (q' & lev' & F'). eapply IH; [done|lia].
    + intros v l Hr. destruct (route_level _ _ _ _ _ _ F Hr) as [(i & Hi & Hq & _)|[_ ?]].
      * by eapply (fd_passed _ _ _ _ F).
      * rewrite (qd_tail _ _ _ _ _ I) in *. lia.
Qed.

(** ** The same with a test that keeps a state

    As long as the answers agree with [E] under an invariant of the state, the search is that of
    [E] and the invariant is kept. *)

Section Stateful.
Context {S : Type} (edge : Z -> Z -> P -> P -> S -> bool * S) (I : S -> Prop).
Definition agrees : Prop := forall id next s, validCell g id -> next ∈ neighbours g id -> I s ->
  (edge id next (center g id) (center g next) s).1 = E id next /\ I (edge id next (center g id) (center g next) s).2.
Hypothesis Hedge : agrees.

Lemma visit_discover id l st s : validCell g id -> I s -> (forall n, n ∈ l -> n ∈ around g id) ->
  exists s', fold_left (visit g edge id) l (st, s) =
    (fold_left (discover id) (omap (fun n => if inGrid g n.1 n.2 then Some (cellId g n.1 n.2) else None) l) st, s') /\ I s'.
Proof.
  intros Hid. revert st s. induction l as [|[nx ny] l IH]; intros st s Hs Hl; cbn; [by exists s|].
  assert (Hl' : forall n, n ∈ l -> n ∈ around g id) by (intros n Hn; apply Hl; by right).
  destruct (inGrid g nx ny) eqn:Hin; cbn; [|by apply IH].
  unfold discover at 2. case_bool_decide as Hun; cbn; [|by apply IH].
  destruct (Hedge id (cellId g nx ny) s) as [He Hs']; [done| |done|].
  { unfold neighbours. apply list_elem_of_omap. exists (nx, ny). split; [apply Hl; by left|]. cbn. by rewrite Hin. }
  destruct (edge id (cellId g nx ny) _ _ s) as [ok s']. cbn in *. subst ok.
  destruct (E id (cellId g nx ny)); by apply IH.
Qed.

Lemma run_search fuel h st s q lev : Found h st q lev -> I s ->
  exists s', run g edge ends fuel h st s = (search fuel h st, s') /\ I s'.
Proof.
  revert h st s q lev. induction fuel as [|fuel IH]; intros h st s q lev F Hs; cbn [run search]; [by exists s|].
  destruct (fd_queued _ _ _ _ F) as (top & Q & _).
  destruct (Nat.ltb_spec h (tail st)) as [Hlt|Hge]; [|by exists s].
  rewrite <- (qd_tail _ _ _ _ _ Q) in Hlt. destruct (lookup_lt_is_Some_2 q h Hlt) as [id Hid].
  assert (Hqu : queue st !! h = Some id).
  { rewrite <- (qd_take _ _ _ _ _ Q) in Hid. by apply lookup_take_Some in Hid as [? _]. }
  rewrite Hqu. change (nullish (Some id) 0) with id. cbv zeta. case_bool_decide as Hend; [by exists s|].
  destruct (visit_discover id (around g id) st s) as (s' & -> & Hs'); [|done..|].
  { pose proof (qd_valid _ _ _ _ _ Q) as HV. rewrite Forall_forall in HV. by eapply HV, list_elem_of_lookup_2. }
  destruct (expand_found _ _ _ _ _ F Hid Hend) as (q' & lev' & F'). by eapply IH.
Qed.
End Stateful.
End BreadthFirst.

(** ** The whole search *)

Section Whole.
Context {P : Type} (g : Grid P).

(** What [searchPath] returns, by the tests alone. *)
Definition answers (blocked : P -> bool) (clear : P -> P -> bool) (E : Z -> Z -> bool) (start end_ : P)
    (answer : option (list P)) : Prop :=
  let starts := attach g clear start in
  let ends := attach g clear end_ in
  match answer with
  | None => blocked start = true \/ blocked end_ = true \/
            (clear start end_ = false /\ forall v l, route g E starts (v :: l) -> v ∉ ends)
  | Some path =>
      blocked start = false /\ blocked end_ = false /\
      ((clear start end_ = true /\ path = [start; end_]) \/
       (clear start end_ = false /\
        exists l, shortest g E starts ends l /\ path = start :: map (center g) (reverse l) ++ [end_]))
  end.

Context {S : Type} (probe : Probe P S) (E : Z -> Z -> bool) (I : S -> Prop).
Hypothesis Hagrees : agrees g E (pr_edge probe) I.

Lemma searchPath_run start end_ s : I s ->
  exists s' found, I s' /\ searchPath g probe start end_ s = (found, s') /\
    found = (if pr_blocked probe start || pr_blocked probe end_ then None
             else if pr_clear probe start end_ then Some [start; end_]
             else (fun l => start :: map (center g) (reverse l) ++ [end_]) <$>
                    search g E (attach g (pr_clear probe) end_) (Datatypes.S (cells g)) 0
                      (startSearch g (attach g (pr_clear probe) start))).
Proof.
  intros Hs. unfold searchPath. destruct (_ || _); [by eexists _, _|]. destruct (pr_clear _ _ _); [by eexists _, _|].
  destruct (start_found g E (attach g (pr_clear probe) start) (attach g (pr_clear probe) end_)
              (attach_NoDup _ _ _) (attach_valid _ _ _)) as [lev F].
  destruct (run_search g E _ _ _ I Hagrees (Datatypes.S (cells g)) 0 _ s _ _ F Hs) as (s' & -> & Hs').
  eexists s', _. split_and!; [done..|]. destruct (search _ _ _ _ _ _) as [l|]; cbn [fmap option_fmap option_map]; [|done].
  f_equal. by rewrite reverse_cons, reverse_app, reverse_singleton, <- fmap_reverse.
Qed.

Lemma searchPath_answers start end_ s : I s ->
  answers (pr_blocked probe) (pr_clear probe) E start end_ (searchPath g probe start end_ s).1.
Proof.
  intros Hs. destruct (searchPath_run start end_ s Hs) as (s' & found & _ & -> & ->). cbn [fst].
  destruct (pr_blocked probe start) eqn:?; [by left|]. destruct (pr_blocked probe end_) eqn:?; [by right; left|].
  cbn [orb]. destruct (pr_clear probe start end_) eqn:?; [by split_and!; [| |left]|].
  destruct (start_found g E (attach g (pr_clear probe) start) (attach g (pr_clear probe) end_)
              (attach_NoDup _ _ _) (attach_valid _ _ _)) as [lev F].
  pose proof (search_finds g E _ _ (Datatypes.S (cells g)) 0 _ _ _ F) as Hfound.
  destruct (search _ _ _ _ _ _) as [l|]; cbn.
  - split_and!; [done..|]. right. split; [done|]. exists l. split; [apply Hfound; lia|done].
  - right; right. split; [done|]. apply Hfound. lia.
Qed.

End Whole.

Lemma attach_ext {P} (g : Grid P) c c' p : (forall a b, c a b = c' a b) -> attach g c p = attach g c' p.
Proof.
  intros H. rewrite !attach_omap. generalize offsets. intros l. induction l as [|d l IH]; [done|].
  cbn [omap list_omap]. cbv zeta in *. by rewrite IH, H.
Qed.

(** Two probes with the same tests, whatever the states behind their edges, find the same path. *)
Lemma searchPath_same {P S S'} (g : Grid P) (probe : Probe P S) (probe' : Probe P S') E I I' start end_ s s' :
  agrees g E (pr_edge probe) I -> agrees g E (pr_edge probe') I' ->
  (forall p, pr_blocked probe p = pr_blocked probe' p) -> (forall a b, pr_clear probe a b = pr_clear probe' a b) ->
  I s -> I' s' ->
  (searchPath g probe start end_ s).1 = (searchPath g probe' start end_ s').1 /\ I (searchPath g probe start end_ s).2.
Proof.
  intros Ha Ha' Hb Hc Hs Hs'.
  destruct (searchPath_run g probe E I Ha start end_ s Hs) as (t & found & Ht & -> & ->).
  destruct (searchPath_run g probe' E I' Ha' start end_ s' Hs') as (t' & found' & _ & -> & ->).
  cbn. by rewrite !Hb, !Hc, !(attach_ext g _ _ _ Hc).
Qed.

(** ** Walks over the grid

    What a route has to be, said of cells by their columns and rows and of the three tests the
    search asks for, which are any functions: nothing is assumed of [clear], not even that it
    gives one answer in both directions. *)

Section Walks.
Context {P : Type} (g : Grid P) (blocked : P -> bool) (clear : P -> P -> bool) (start end_ : P).
Local Notation E := (fun u v => clear (center g u) (center g v)).

(** [v] is a cell around [p] that is seen from [p]. *)
Definition seenFrom (p : P) (v : Z) : Prop :=
  exists x y, v = cellId g x y /\ (0 <= x < cols g) /\ (0 <= y < rows g) /\
    Z.abs (x - (cellOf g p).1) <= 1 /\ Z.abs (y - (cellOf g p).2) <= 1 /\ clear p (center g v) = true.

(** [u] and [v] share a side and the way from [u] to [v] is clear. *)
Definition stepTo (u v : Z) : Prop :=
  exists x y x' y', u = cellId g x y /\ v = cellId g x' y' /\ (0 <= x < cols g) /\ (0 <= y < rows g) /\
    (0 <= x' < cols g) /\ (0 <= y' < rows g) /\ Z.abs (x - x') + Z.abs (y - y') = 1 /\
    clear (center g u) (center g v) = true.

(** The walks a route may follow: from a cell seen from [start], over clear steps, to a cell seen
    from [end_]. *)
Definition connects (l : list Z) : Prop :=
  (exists s, head l = Some s /\ seenFrom start s) /\ (exists e, last l = Some e /\ seenFrom end_ e) /\
  forall i u v, l !! i = Some u -> l !! S i = Some v -> stepTo u v.

Lemma attach_seen p v : v ∈ attach g clear p <-> seenFrom p v.
Proof.
  rewrite attach_spec. split.
  - intros (Hc & x & y & -> & Hin & ? & ?). apply inGrid_spec in Hin. exists x, y. split_and!; [done|lia..|done].
  - intros (x & y & -> & ? & ? & ? & ? & Hc). split; [done|]. exists x, y. rewrite inGrid_spec. split_and!; [done|lia..].
Qed.

Lemma edge_step u v : validCell g u -> edgeTo g E u v <-> stepTo u v.
Proof.
  intros (x & y & Hin & ->). unfold edgeTo, neighbours, around.
  rewrite (cellId_column _ _ _ Hin), (cellId_row _ _ _ Hin), list_elem_of_omap. split.
  - intros [([x' y'] & Hn & Hv) Hc]. cbn [fst snd] in Hv. destruct (inGrid g x' y') eqn:Hin'; simplify_eq.
    apply inGrid_spec in Hin, Hin'. exists x, y, x', y'.
    assert (Z.abs (x - x') + Z.abs (y - y') = 1).
    { rewrite !elem_of_cons in Hn. destruct Hn as [[= -> ->]|[[= -> ->]|[[= -> ->]|[[= -> ->]|[]%elem_of_nil]]]]; lia. }
    split_and!; try done; lia.
  - intros (x0 & y0 & x' & y' & Hu & -> & ? & ? & ? & ? & Hd & Hc).
    assert (Hin' : inGrid g x' y' = true) by (apply inGrid_spec; lia).
    apply cellId_inj in Hu as [<- <-]; [|done|apply inGrid_spec; lia]. split; [|done].
    exists (x', y'). cbn [fst snd]. rewrite Hin'. split; [|done].
    assert (Hcase : (x' = x - 1 /\ y' = y) \/ (x' = x + 1 /\ y' = y) \/ (x' = x /\ y' = y - 1) \/ (x' = x /\ y' = y + 1)) by lia.
    destruct Hcase as [[-> ->]|[[-> ->]|[[-> ->]|[-> ->]]]]; set_solver.
Qed.

Definition stepwise (l : list Z) : Prop := forall i u v, l !! i = Some u -> l !! S i = Some v -> stepTo u v.

Lemma stepwise_snoc l u v : stepwise ((l ++ [u]) ++ [v]) <-> stepwise (l ++ [u]) /\ stepTo u v.
Proof.
  split.
  - intros H. split.
    + intros i a b Ha Hb. apply (H i); by apply lookup_app_l_Some.
    + apply (H (length l)); [apply lookup_app_l_Some|rewrite lookup_app_r by (rewrite length_app; cbn; lia)].
      * by rewrite list_lookup_middle.
      * rewrite length_app. cbn. by replace (S (length l) - (length l + 1))%nat with 0%nat by lia.
  - intros [H Hs] i a b Ha Hb.
    apply lookup_lt_Some in Hb as Hlt. rewrite !length_app in Hlt. cbn in Hlt.
    rewrite lookup_app_l in Ha by (rewrite length_app; cbn; lia).
    destruct (decide (i = length l)) as [->|].
    + rewrite lookup_app_r in Hb by (rewrite length_app; cbn; lia). rewrite length_app in Hb. cbn in Hb.
      replace (S (length l) - (length l + 1))%nat with 0%nat in Hb by lia.
      rewrite list_lookup_middle in Ha by done. cbn in Hb. by simplify_eq.
    + rewrite lookup_app_l in Hb by (rewrite length_app; cbn; lia). by eapply H.
Qed.

Local Notation starts := (attach g clear start).
Local Notation ends := (attach g clear end_).

Lemma route_valid l : route g E starts l -> exists v t, l = v :: t /\ validCell g v.
Proof.
  destruct 1 as [s Hs|u v l Hr [Hn _]]; eexists _, _; (split; [done|]).
  - pose proof (attach_valid g clear start) as HV. rewrite Forall_forall in HV. by apply HV.
  - by eapply neighbours_valid.
Qed.

Lemma route_walk l : route g E starts l <->
  stepwise (reverse l) /\ exists s, last l = Some s /\ seenFrom start s.
Proof.
  split.
  - induction 1 as [s Hs|u v l Hr [Hw (s & Hl & Hs)] He].
    + split; [intros [|i] a b; cbn; done|]. exists s. split; [done|by apply attach_seen].
    + split; [|exists s; by rewrite last_cons_cons].
      destruct (route_valid _ Hr) as (u' & t & [= <- <-] & Hu). rewrite !reverse_cons in *. apply stepwise_snoc.
      split; [done|]. by apply edge_step.
  - induction l as [|v l IH]; intros [Hw (s & Hl & Hs)]; [done|]. destruct l as [|u l].
    + cbn in Hl. simplify_eq. constructor. by apply attach_seen.
    + rewrite !reverse_cons in Hw. apply stepwise_snoc in Hw as [Hw He]. rewrite last_cons_cons in Hl.
      assert (Hr : route g E starts (u :: l)) by (apply IH; rewrite reverse_cons; eauto).
      constructor; [done|]. destruct (route_valid _ Hr) as (u' & t & [= <- <-] & Hu). by apply edge_step.
Qed.

Lemma connects_route v t : connects (reverse (v :: t)) <-> route g E starts (v :: t) /\ v ∈ ends.
Proof.
  unfold connects. rewrite route_walk, attach_seen, head_reverse, last_reverse. cbn [head]. unfold stepwise. naive_solver.
Qed.

(** C30. The route search is sound, complete and shortest, for any grid and any tests of points
    and lines: a route starts and ends where asked; it is the straight line when that is clear,
    and otherwise it goes over the centres of cells, from a cell around the start that is seen
    from it, through cells that share a side with a clear way between them, to a cell around the
    end that is seen from the end, and no such walk has fewer cells.  Each line is clear in the
    direction the search asks about, so the last one from the end.  Nothing is found only when an end is
    blocked, or when the straight line is not clear and there is no such walk at all. *)
Theorem search_is_sound_and_shortest :
  match (searchPath g (mkProbe blocked clear (fun _ _ a b (s : unit) => (clear a b, s))) start end_ tt).1 with
  | Some path =>
      blocked start = false /\ blocked end_ = false /\
      if clear start end_ then path = [start; end_]
      else exists l, connects l /\ path = start :: map (center g) l ++ [end_] /\
                     forall l', connects l' -> (length l <= length l')%nat
  | None => blocked start = true \/ blocked end_ = true \/ (clear start end_ = false /\ forall l, ~ connects l)
  end.
Proof.
  pose proof (searchPath_answers g (mkProbe blocked clear (fun _ _ a b (s : unit) => (clear a b, s))) E (fun _ => True)
    ltac:(intros id next s _ _ _; by split) start end_ tt I) as Ha.
  unfold answers in Ha. cbn [pr_blocked pr_clear] in Ha.
  assert (Hrev : forall l, connects l -> exists v t, reverse (v :: t) = l /\ connects (reverse (v :: t))).
  { intros l Hl. destruct (reverse l) as [|v t] eqn:Er.
    - apply (f_equal reverse) in Er. rewrite reverse_involutive in Er. subst. destruct Hl as [(s & [=] & _) _].
    - exists v, t. by rewrite <- Er, reverse_involutive. }
  destruct (searchPath g _ start end_ tt).1 as [path|].
  - destruct Ha as (Hs & He & [[-> ->]|[-> (l & (v & t & -> & Hr & Hend & Hbest) & ->)]]); [done|].
    split_and!; [done..|]. exists (reverse (v :: t)). split_and!; [by apply connects_route|done|].
    intros l' (v' & t' & <- & Hl')%Hrev. apply connects_route in Hl' as [Hr' He'].
    rewrite !length_reverse. cbn. apply le_n_S. by eapply Hbest.
  - destruct Ha as [?|[?|[Hc Hn]]]; [by left|by right; left|]. right; right. split; [done|].
    intros l (v & t & <- & [Hr He]%connects_route)%Hrev. by eapply Hn.
Qed.
End Walks.
