(* ===== verification/Geometry.v ===== *)
(** The geometry of the office map (clients/desktop/src/scene/office/officeMap/geometry.ts):
    footprints and blockers, the tests [isBlocked] and [clearSegment], and the same tests with
    bounding boxes that Navigator uses.

    A coordinate is a rational: the double of the source without its rounding.  A distance is
    compared through its square, so that [Math.hypot] needs no root: [d <= r] is
    [0 <= r] and [d * d <= r * r].  The cosine and sine of an element's rotation are the
    parameter [turn].  The file shows that, so computed, distances are those of the segment, that
    they do not depend on the order of its ends, and that leaving out obstacles by their boxes
    changes no answer.  In doubles the two ends can differ by a rounding that decides a comparison
    with the radius, so these facts do not carry over to the scene as they stand. *)

From S2P Require Import Prelude.
From Stdlib Require Import QArith Qround Lqa Btauto.
Local Open Scope Q_scope.

Record MapPoint : Type := mkPoint { px : Q; py : Q }.
Record MapRect : Type := mkRect { rx : Q; ry : Q; rwidth : Q; rheight : Q }.
Record Size : Type := mkSize { swidth : Q; sheight : Q }.
Record MapGeometry : Type := mkGeometry { g_size : Size; g_footprints : option (list MapRect) }.
Record MapElement : Type := mkElement {
  e_at : MapPoint; e_size : Size; e_rotation : Q; e_blocksMovement : bool; e_geometry : option MapGeometry }.
Inductive ZoneType : Type := walk_blocked | employee_no_entry | spawn.
Record MapPolygon : Type := mkZone { z_type : ZoneType; z_points : list MapPoint; z_enabled : bool }.
Record OfficeMap : Type := mkMap {
  m_width : Q; m_height : Q; m_gridSize : Q; m_elements : list MapElement; m_zones : list MapPolygon }.
Inductive WalkMode : Type := employee | any.

#[export] Instance ZoneType_eq_dec : EqDecision ZoneType.
Proof. solve_decision. Defined.
#[export] Instance WalkMode_eq_dec : EqDecision WalkMode.
Proof. solve_decision. Defined.

Definition ltb (a b : Q) : bool := negb (Qle_bool b a).
Definition leb (a b : Q) : bool := Qle_bool a b.
Definition minQ (a b : Q) : Q := if leb a b then a else b.
Definition maxQ (a b : Q) : Q := if leb a b then b else a.

(** ** Elements *)

Section Elements.
(** Cosine and sine of [rotation * PI / 180]. *)
Context (turn : Q -> Q * Q).

Definition elementPolygon (e : MapElement) : list MapPoint :=
  let '(c, s) := turn (e_rotation e) in
  let w := swidth (e_size e) / 2 in let h := sheight (e_size e) / 2 in
  map (fun q => let '(x, y) := q in mkPoint (px (e_at e) + x * c - y * s) (py (e_at e) + x * s + y * c))
      [(- w, - h); (w, - h); (w, h); (- w, h)].

Definition localSize (e : MapElement) : Size := match e_geometry e with Some g => g_size g | None => e_size e end.

Definition elementPoint (e : MapElement) (p : MapPoint) (size : Size) : MapPoint :=
  let x := px p / swidth size * swidth (e_size e) - swidth (e_size e) / 2 in
  let y := py p / sheight size * sheight (e_size e) - sheight (e_size e) / 2 in
  let '(c, s) := turn (e_rotation e) in
  mkPoint (px (e_at e) + x * c - y * s) (py (e_at e) + x * s + y * c).

Definition localRectPoints (e : MapElement) (r : MapRect) (size : Size) : list MapPoint :=
  map (fun p => elementPoint e p size)
      [mkPoint (rx r) (ry r); mkPoint (rx r + rwidth r) (ry r);
       mkPoint (rx r + rwidth r) (ry r + rheight r); mkPoint (rx r) (ry r + rheight r)].

Definition elementFootprints (e : MapElement) : list (list MapPoint) :=
  match e_geometry e with
  | Some (mkGeometry _ (Some rects)) => map (fun r => localRectPoints e r (localSize e)) rects
  | _ => [elementPolygon e]
  end.

Definition zoneBlocks (mode : WalkMode) (z : MapPolygon) : bool :=
  z_enabled z && (bool_decide (z_type z = walk_blocked) || bool_decide (mode = employee) && bool_decide (z_type z = employee_no_entry)).

Definition blockers (m : OfficeMap) (mode : WalkMode) : list (list MapPoint) :=
  concat (map elementFootprints (filter (fun e => e_blocksMovement e = true) (m_elements m))) ++
  map z_points (filter (fun z => zoneBlocks mode z = true) (m_zones m)).
End Elements.

(** ** Distances and polygons *)

Definition sq (a : Q) : Q := a * a.
Definition EDGE : Q := 1 # 10000000.

(** The square of [segmentDistance]. *)
Definition segmentDistance (p a b : MapPoint) : Q :=
  let dx := px b - px a in
  let dy := py b - py a in
  let len := dx * dx + dy * dy in
  let t := maxQ 0 (minQ 1 (((px p - px a) * dx + (py p - py a) * dy) / (if Qeq_bool len 0 then 1 else len))) in
  sq (px p - px a - t * dx) + sq (py p - py a - t * dy).

(** [d < r] and [d <= r] for a distance [d] given by its square. *)
Definition nearer (d2 r : Q) : bool := ltb 0 r && ltb d2 (sq r).
Definition within (d2 r : Q) : bool := leb 0 r && leb d2 (sq r).

(** The straight edge from [a] to [b] is crossed to the right of [p]. *)
Definition crosses (p a b : MapPoint) : bool :=
  negb (Bool.eqb (ltb (py p) (py a)) (ltb (py p) (py b))) &&
  ltb (px p) ((px b - px a) * (py p - py a) / (py b - py a) + px a).

(** The loop of [pointInPolygon], where [b] is the vertex before. *)
Fixpoint insideFrom (p b : MapPoint) (points : list MapPoint) (inside : bool) : bool :=
  match points with
  | [] => inside
  | a :: rest =>
      if nearer (segmentDistance p a b) EDGE then true
      else insideFrom p a rest (if crosses p a b then negb inside else inside)
  end.
Definition pointInPolygon (p : MapPoint) (points : list MapPoint) : bool :=
  match last points with Some b => insideFrom p b points false | None => false end.

Definition cross (a b c : MapPoint) : Q := (px b - px a) * (py c - py a) - (py b - py a) * (px c - px a).

Definition segmentsIntersect (a b c d : MapPoint) : bool :=
  (ltb (cross a b c * cross a b d) 0 && ltb (cross c d a * cross c d b) 0) ||
  (nearer (segmentDistance a c d) EDGE || nearer (segmentDistance b c d) EDGE ||
   nearer (segmentDistance c a b) EDGE || nearer (segmentDistance d a b) EDGE).

(** [poly.some((a, i) => f(a, poly[(i + 1) % poly.length]))] *)
Fixpoint someEdgeFrom (f : MapPoint -> MapPoint -> bool) (first : MapPoint) (points : list MapPoint) : bool :=
  match points with
  | [] => false
  | [a] => f a first
  | a :: ((b :: _) as rest) => f a b || someEdgeFrom f first rest
  end.
Definition someEdge (f : MapPoint -> MapPoint -> bool) (poly : list MapPoint) : bool :=
  match poly with [] => false | a :: _ => someEdgeFrom f a poly end.

Definition touchesPoint (radius : Q) (p : MapPoint) (poly : list MapPoint) : bool :=
  pointInPolygon p poly || someEdge (fun a b => within (segmentDistance p a b) radius) poly.

Definition touchesSegment (radius : Q) (a b : MapPoint) (poly : list MapPoint) : bool :=
  someEdge (fun c d =>
    segmentsIntersect a b c d ||
    within (minQ (minQ (segmentDistance a c d) (segmentDistance b c d)) (minQ (segmentDistance c a b) (segmentDistance d a b))) radius) poly.

Definition inBounds (m : OfficeMap) (p : MapPoint) (radius : Q) : bool :=
  negb (ltb (px p) radius || ltb (py p) radius || ltb (m_width m - radius) (px p) || ltb (m_height m - radius) (py p)).

(** ** The plain tests *)

Definition isBlocked (m : OfficeMap) (p : MapPoint) (radius : Q) (polygons : list (list MapPoint)) : bool :=
  if ltb (px p) radius || ltb (py p) radius || ltb (m_width m - radius) (px p) || ltb (m_height m - radius) (py p) then true
  else existsb (touchesPoint radius p) polygons.

Definition clearSegment (m : OfficeMap) (a b : MapPoint) (radius : Q) (polygons : list (list MapPoint)) : bool :=
  if isBlocked m a radius polygons || isBlocked m b radius polygons then false
  else negb (existsb (touchesSegment radius a b) polygons).

(** [step], [cols] and [rows] *)
Definition gridLayout (m : OfficeMap) : Q * Z * Z :=
  let step := maxQ (m_gridSize m) (inject_Z (Qceiling (maxQ (m_width m) (m_height m) / 160))) in
  (step, Qceiling (m_width m / step), Qceiling (m_height m / step)).

(** ** The tests with bounding boxes *)

Definition BOX_EPSILON : Q := 1 # 1000000.
Record Box : Type := mkBox { minX : Q; minY : Q; maxX : Q; maxY : Q }.

(** [None] is the box of no point, from [Infinity] to [-Infinity]. *)
Definition widen (box : option Box) (p : MapPoint) : option Box :=
  Some (match box with
        | None => mkBox (px p) (py p) (px p) (py p)
        | Some k => mkBox (minQ (minX k) (px p)) (minQ (minY k) (py p)) (maxQ (maxX k) (px p)) (maxQ (maxY k) (py p))
        end).
Definition boxOf (poly : list MapPoint) : option Box := fold_left widen poly None.
Definition ObstacleSet : Type := list (list MapPoint * option Box).
Definition obstacleSet (polygons : list (list MapPoint)) : ObstacleSet := map (fun poly => (poly, boxOf poly)) polygons.

Definition outsideBox (pad : Q) (p : MapPoint) (box : option Box) : bool :=
  match box with
  | None => true
  | Some k => ltb (px p) (minX k - pad) || ltb (maxX k + pad) (px p) || ltb (py p) (minY k - pad) || ltb (maxY k + pad) (py p)
  end.

Definition pointBlockedBy (set : ObstacleSet) (p : MapPoint) (radius : Q) : bool :=
  existsb (fun '(poly, box) => if outsideBox (radius + BOX_EPSILON) p box then false else touchesPoint radius p poly) set.

Definition apartBox (pad : Q) (a b : MapPoint) (box : option Box) : bool :=
  match box with
  | None => true
  | Some k =>
      ltb (maxX k) (minQ (px a) (px b) - pad) || ltb (maxQ (px a) (px b) + pad) (minX k) ||
      ltb (maxY k) (minQ (py a) (py b) - pad) || ltb (maxQ (py a) (py b) + pad) (minY k)
  end.

Definition segmentBlockedBy (set : ObstacleSet) (a b : MapPoint) (radius : Q) : bool :=
  existsb (fun '(poly, box) => if apartBox (radius + BOX_EPSILON) a b box then false else touchesSegment radius a b poly) set.

(** ** Comparisons *)

Lemma ltb_true a b : ltb a b = true <-> a < b.
Proof. unfold ltb. rewrite negb_true_iff, <- not_true_iff_false, Qle_bool_iff. split; [apply Qnot_le_lt|apply Qlt_not_le]. Qed.
Lemma ltb_false a b : ltb a b = false <-> b <= a.
Proof. unfold ltb. by rewrite negb_false_iff, Qle_bool_iff. Qed.
Lemma leb_true a b : leb a b = true <-> a <= b.
Proof. apply Qle_bool_iff. Qed.
Lemma leb_false a b : leb a b = false <-> b < a.
Proof. unfold leb. rewrite <- not_true_iff_false, Qle_bool_iff. split; [apply Qnot_le_lt|apply Qlt_not_le]. Qed.

(** Turns comparisons of rationals into inequalities. *)
Ltac qbool :=
  repeat match goal with
  | H : ltb _ _ = true |- _ => apply ltb_true in H
  | H : ltb _ _ = false |- _ => apply ltb_false in H
  | H : leb _ _ = true |- _ => apply leb_true in H
  | H : leb _ _ = false |- _ => apply leb_false in H
  | H : _ && _ = true |- _ => apply andb_true_iff in H as [? ?]
  | H : _ || _ = false |- _ => apply orb_false_iff in H as [? ?]
  end.

Lemma minQ_le a b : minQ a b <= a /\ minQ a b <= b.
Proof. unfold minQ. destruct (leb a b) eqn:?; qbool; lra. Qed.
Lemma maxQ_ge a b : a <= maxQ a b /\ b <= maxQ a b.
Proof. unfold maxQ. destruct (leb a b) eqn:?; qbool; lra. Qed.
Lemma minQ_glb c a b : c <= minQ a b <-> c <= a /\ c <= b.
Proof. unfold minQ. destruct (leb a b) eqn:?; qbool; lra. Qed.
Lemma maxQ_lub c a b : maxQ a b <= c <-> a <= c /\ b <= c.
Proof. unfold maxQ. destruct (leb a b) eqn:?; qbool; lra. Qed.

Lemma sq_nonneg a : 0 <= sq a.
Proof. unfold sq. nra. Qed.

Lemma sq_le_abs a r : 0 <= r -> sq a <= sq r -> a <= r /\ - r <= a.
Proof. unfold sq. intros. split; nra. Qed.

(** ** Distances to a segment *)

(** The square of the distance to the point [a + t * (b - a)]. *)
Definition along (p a b : MapPoint) (t : Q) : Q :=
  sq (px p - px a - t * (px b - px a)) + sq (py p - py a - t * (py b - py a)).

Lemma clamp_range t : 0 <= maxQ 0 (minQ 1 t) <= 1.
Proof. split; [apply maxQ_ge|]. apply maxQ_lub. split; [lra|]. apply minQ_le. Qed.

Lemma segmentDistance_attained p a b : exists t, 0 <= t <= 1 /\ segmentDistance p a b = along p a b t.
Proof. eexists. split; [apply clamp_range|]. reflexivity. Qed.

Lemma quadratic_clamp L k t : 0 < L -> 0 <= t <= 1 ->
  let t0 := maxQ 0 (minQ 1 (k / L)) in L * t0 * t0 - 2 * k * t0 <= L * t * t - 2 * k * t.
Proof.
  intros HL Ht. cbv zeta. set (u := k / L). assert (Hk : k == L * u) by (unfold u; field; lra).
  set (t0 := maxQ 0 (minQ 1 u)).
  assert (H : 0 <= L * (t * t - 2 * u * t - (t0 * t0 - 2 * u * t0))).
  { apply Qmult_le_0_compat; [lra|]. unfold t0, maxQ, minQ.
    destruct (leb 1 u) eqn:H1; [destruct (leb 0 1) eqn:H0|destruct (leb 0 u) eqn:H0]; qbool; try lra.
    - setoid_replace (t * t - 2 * u * t - (1 * 1 - 2 * u * 1)) with ((1 - t) * (2 * u - t - 1)) using relation Qeq by ring.
      apply Qmult_le_0_compat; lra.
    - setoid_replace (t * t - 2 * u * t - (u * u - 2 * u * u)) with (sq (t - u)) using relation Qeq by (unfold sq; ring). apply sq_nonneg.
    - setoid_replace (t * t - 2 * u * t - (0 * 0 - 2 * u * 0)) with (t * (t - 2 * u)) using relation Qeq by ring.
      apply Qmult_le_0_compat; lra. }
  setoid_rewrite Hk. lra.
Qed.

Lemma segmentDistance_least p a b t : 0 <= t <= 1 -> segmentDistance p a b <= along p a b t.
Proof.
  intros Ht. unfold segmentDistance, along. cbv zeta.
  set (dx := px b - px a). set (dy := py b - py a). set (vx := px p - px a). set (vy := py p - py a).
  destruct (Qeq_bool (dx * dx + dy * dy) 0) eqn:HL.
  - apply Qeq_bool_iff in HL. assert (dx == 0) by nra. assert (dy == 0) by nra.
    set (u := maxQ _ _). unfold sq. setoid_replace dx with 0 using relation Qeq by done. setoid_replace dy with 0 using relation Qeq by done. nra.
  - apply Qeq_bool_neq in HL. assert (0 < dx * dx + dy * dy) by nra.
    pose proof (quadratic_clamp (dx * dx + dy * dy) (vx * dx + vy * dy) t ltac:(done) Ht) as Hq.
    cbv zeta in Hq. set (u := maxQ _ _) in *. unfold sq. nra.
Qed.

Lemma along_flip p a b t : along p a b t == along p b a (1 - t).
Proof. unfold along, sq. ring. Qed.

Lemma segmentDistance_sym p a b : segmentDistance p a b == segmentDistance p b a.
Proof.
  apply Qle_antisym.
  - destruct (segmentDistance_attained p b a) as (t & Ht & ->). rewrite along_flip. apply segmentDistance_least. lra.
  - destruct (segmentDistance_attained p a b) as (t & Ht & ->). rewrite along_flip. apply segmentDistance_least. lra.
Qed.

(** ** Boxes *)

Definition inBox (k : Box) (p : MapPoint) : Prop := minX k <= px p <= maxX k /\ minY k <= py p <= maxY k.

Lemma widen_all poly k : exists k', fold_left widen poly (Some k) = Some k' /\
  (forall p, inBox k p -> inBox k' p) /\ (forall p, p ∈ poly -> inBox k' p).
Proof.
  revert k. induction poly as [|a poly IH]; intros k; cbn -[widen].
  { exists k. split_and!; [done..|]. intros p Hp. by apply elem_of_nil in Hp. }
  set (k1 := mkBox (minQ (minX k) (px a)) (minQ (minY k) (py a)) (maxQ (maxX k) (px a)) (maxQ (maxY k) (py a))).
  destruct (IH k1) as (k' & E & Hk & Hl). exists k'.
  pose proof (minQ_le (minX k) (px a)). pose proof (minQ_le (minY k) (py a)).
  pose proof (maxQ_ge (maxX k) (px a)). pose proof (maxQ_ge (maxY k) (py a)).
  split_and!; [exact E|..].
  - intros p [? ?]. apply Hk. split; cbn; lra.
  - intros p [->|Hp]%elem_of_cons; [|by apply Hl]. apply Hk. split; cbn; lra.
Qed.

Lemma boxOf_spec poly : match boxOf poly with Some k => forall p, p ∈ poly -> inBox k p | None => poly = [] end.
Proof.
  destruct poly as [|a poly]; [done|].
  change (boxOf (a :: poly)) with (fold_left widen poly (Some (mkBox (px a) (py a) (px a) (py a)))).
  destruct (widen_all poly (mkBox (px a) (py a) (px a) (py a))) as (k & -> & Hk & Hl).
  intros p [->|Hp]%elem_of_cons; [|by apply Hl]. apply Hk. split; cbn; lra.
Qed.

Lemma between_low lo a b t : 0 <= t <= 1 -> lo <= a -> lo <= b -> lo <= a + t * (b - a).
Proof. intros. nra. Qed.
Lemma between_high hi a b t : 0 <= t <= 1 -> a <= hi -> b <= hi -> a + t * (b - a) <= hi.
Proof. intros. nra. Qed.

Lemma sq_gt pad x : 0 <= pad -> x < - pad \/ pad < x -> sq pad < sq x.
Proof. unfold sq. intros ? [?|?]; nra. Qed.

(** A gap of [pad] on one axis keeps two points further apart than [pad]. *)
Lemma gap_far pad dx dy : 0 <= pad ->
  dx < - pad \/ pad < dx \/ dy < - pad \/ pad < dy -> sq pad < sq dx + sq dy.
Proof.
  intros Hp H. pose proof (sq_nonneg dx). pose proof (sq_nonneg dy).
  assert (sq pad < sq dx \/ sq pad < sq dy) as [?|?]; [|lra..].
  destruct H as [?|[?|[?|?]]]; [left|left|right|right]; apply sq_gt; tauto.
Qed.

(** The place at [t] between two points of a box is in it. *)
Lemma inBox_between k a b t : inBox k a -> inBox k b -> 0 <= t <= 1 ->
  inBox k (mkPoint (px a + t * (px b - px a)) (py a + t * (py b - py a))).
Proof.
  intros [[? ?] [? ?]] [[? ?] [? ?]] ?. split; cbn; split; (apply between_low || apply between_high); lra.
Qed.

Lemma outside_far pad p k a b : 0 <= pad -> outsideBox pad p (Some k) = true -> inBox k a -> inBox k b ->
  sq pad < segmentDistance p a b.
Proof.
  intros Hpad Hout Ha Hb. destruct (segmentDistance_attained p a b) as (t & Ht & ->).
  destruct (inBox_between k a b t Ha Hb Ht) as [Hx Hy]. cbn in *. unfold along. apply gap_far; [done|].
  rewrite !orb_true_iff, !ltb_true in Hout. destruct Hout as [[[?|?]|?]|?]; lra.
Qed.

(** Two segments whose boxes are apart. *)
Lemma apart_far pad a b k c d : 0 <= pad -> apartBox pad a b (Some k) = true -> inBox k c -> inBox k d ->
  sq pad < segmentDistance a c d /\ sq pad < segmentDistance b c d /\
  sq pad < segmentDistance c a b /\ sq pad < segmentDistance d a b.
Proof.
  intros Hpad Hout Hc Hd. set (ab := mkBox (minQ (px a) (px b)) (minQ (py a) (py b)) (maxQ (px a) (px b)) (maxQ (py a) (py b))).
  pose proof (minQ_le (px a) (px b)). pose proof (minQ_le (py a) (py b)).
  pose proof (maxQ_ge (px a) (px b)). pose proof (maxQ_ge (py a) (py b)).
  assert (Ha : inBox ab a) by (split; cbn; lra). assert (Hb : inBox ab b) by (split; cbn; lra).
  assert (Hfrom : forall p, inBox ab p -> outsideBox pad p (Some k) = true).
  { intros p [? ?]. cbn in *. rewrite !orb_true_iff, !ltb_true in *. destruct Hout as [[[?|?]|?]|?]; lra. }
  assert (Hto : forall p, inBox k p -> outsideBox pad p (Some ab) = true).
  { intros p [? ?]. cbn in *. rewrite !orb_true_iff, !ltb_true in *. destruct Hout as [[[?|?]|?]|?]; lra. }
  split_and!; eapply outside_far; eauto.
Qed.

Lemma far_not_nearer d pad r : 0 <= r <= pad -> sq pad < d -> nearer d r = false.
Proof.
  intros Hr Hd. unfold nearer. apply andb_false_iff. right. apply ltb_false.
  unfold sq in *. nra.
Qed.

Lemma far_not_within d pad r : 0 <= r <= pad -> sq pad < d -> within d r = false.
Proof.
  intros Hr Hd. unfold within. apply andb_false_iff. right. apply leb_false. unfold sq in *. nra.
Qed.

Lemma minQ_gt c a b : c < a -> c < b -> c < minQ a b.
Proof. unfold minQ. by destruct (leb a b). Qed.

(** ** Crossings *)

(** Where a straddled edge meets the height of [p]. *)
Lemma crossing_between p a b k : inBox k a -> inBox k b -> ltb (py p) (py a) <> ltb (py p) (py b) ->
  minX k <= (px b - px a) * (py p - py a) / (py b - py a) + px a <= maxX k.
Proof.
  intros [[? ?] _] [[? ?] _] Hne.
  assert (exists t, 0 <= t <= 1 /\ (px b - px a) * (py p - py a) / (py b - py a) + px a == px a + t * (px b - px a))
    as (t & Ht & ->).
  { exists ((py p - py a) / (py b - py a)).
    destruct (ltb (py p) (py a)) eqn:Ha, (ltb (py p) (py b)) eqn:Hb; qbool; try done.
    - split; [|field; lra]. split.
      + setoid_replace ((py p - py a) / (py b - py a)) with ((py a - py p) / (py a - py b)) using relation Qeq by (field; lra).
        apply Qle_shift_div_l; lra.
      + setoid_replace ((py p - py a) / (py b - py a)) with ((py a - py p) / (py a - py b)) using relation Qeq by (field; lra).
        apply Qle_shift_div_r; lra.
    - split; [|field; lra]. split; [apply Qle_shift_div_l|apply Qle_shift_div_r]; lra. }
  split; [apply between_low|apply between_high]; lra.
Qed.

(** A crossing count that only depends on which side the vertices are telescopes around the polygon. *)
Lemma insideFrom_parity p (above : MapPoint -> bool) b points inside :
  (forall a a', a ∈ b :: points -> a' ∈ b :: points ->
     nearer (segmentDistance p a a') EDGE = false /\ crosses p a a' = xorb (above a) (above a')) ->
  insideFrom p b points inside = xorb inside (xorb (above b) (above (nullish (last points) b))).
Proof.
  revert b inside. induction points as [|a points IH]; intros b inside H.
  { cbn. by rewrite xorb_nilpotent, xorb_false_r. }
  destruct (H a b) as [Hn Hc]; [by right; left|by left|].
  cbn [insideFrom]. rewrite Hn, Hc, IH by (intros; apply H; by right).
  replace (nullish (last (a :: points)) b) with (nullish (last points) a).
  - by destruct (above a), (above b), inside, (above _).
  - destruct points as [|c points]; [done|]. cbn [last]. destruct (last (c :: points)) eqn:E; [done|].
    by apply last_None in E.
Qed.

Lemma pointInPolygon_outside pad p k poly : EDGE <= pad -> (forall a, a ∈ poly -> inBox k a) ->
  outsideBox pad p (Some k) = true -> pointInPolygon p poly = false.
Proof.
  intros Hpad Hin Hout. assert (HE : 0 < EDGE) by reflexivity.
  assert (Hnear : forall a b, a ∈ poly -> b ∈ poly -> nearer (segmentDistance p a b) EDGE = false).
  { intros a b Ha Hb. apply (far_not_nearer _ pad); [lra|]. apply (outside_far pad p k); auto. lra. }
  unfold pointInPolygon. destruct (last poly) as [b|] eqn:Hl; [|done].
  assert (Hb : b ∈ poly) by (apply last_Some in Hl as [l ->]; set_solver).
  set (above := fun a => if ltb (px p) (minX k - pad) then ltb (py p) (py a) else false).
  rewrite (insideFrom_parity p above); [rewrite Hl; cbn; by rewrite xorb_nilpotent|].
  intros a a' Ha Ha'. assert (a ∈ poly /\ a' ∈ poly) as [Ha1 Ha2] by set_solver.
  split; [by apply Hnear|]. unfold crosses, above.
  pose proof (crossing_between p a a' k (Hin _ Ha1) (Hin _ Ha2)) as Hc.
  destruct (Hin _ Ha1) as [Hax Hay]. destruct (Hin _ Ha2) as [Hbx Hby]. cbn in Hout.
  set (x := _ / _ + _) in *. destruct (ltb (px p) (minX k - pad)) eqn:Hleft.
  - qbool. destruct (ltb (py p) (py a)) eqn:H1, (ltb (py p) (py a')) eqn:H2; cbn; try done;
      apply ltb_true; destruct Hc as [? ?]; try done; lra.
  - rewrite !orb_true_iff, !ltb_true in Hout. qbool.
    destruct (ltb (py p) (py a)) eqn:H1, (ltb (py p) (py a')) eqn:H2; cbn; try done;
      (destruct Hc as [? ?]; [done|]); qbool; apply ltb_false; destruct Hout as [[[?|?]|?]|?]; lra.
Qed.

(** Segments that cross share a point. *)
Lemma crossing_shared a b c d : cross a b c * cross a b d < 0 -> cross c d a * cross c d b < 0 ->
  exists s t, 0 <= s <= 1 /\ 0 <= t <= 1 /\
    px a + s * (px b - px a) == px c + t * (px d - px c) /\ py a + s * (py b - py a) == py c + t * (py d - py c).
Proof.
  intros H1 H2.
  set (D := cross a b d - cross a b c). assert (HD : D == cross c d a - cross c d b) by (unfold D, cross; ring).
  assert (Hx : px a * D + cross c d a * (px b - px a) == px c * D - cross a b c * (px d - px c)) by (unfold D, cross; ring).
  assert (Hy : py a * D + cross c d a * (py b - py a) == py c * D - cross a b c * (py d - py c)) by (unfold D, cross; ring).
  set (v0 := cross a b c) in *. set (v1 := cross a b d) in *. set (v2 := cross c d a) in *. set (v3 := cross c d b) in *.
  assert (HD0 : D == v1 - v0) by reflexivity. clearbody D.
  assert (HDn : ~ D == 0) by (intros E; nra).
  exists (v2 / D), (- v0 / D).
  assert (Hs : 0 <= v2 / D <= 1 /\ 0 <= - v0 / D <= 1).
  { destruct (Qlt_le_dec D 0) as [Hneg|Hpos].
    - setoid_replace (v2 / D) with ((- v2) / (- D)) using relation Qeq by (field; lra).
      setoid_replace (- v0 / D) with (v0 / (- D)) using relation Qeq by (field; lra).
      assert (v2 < 0) by nra. assert (0 < v3) by nra. assert (v1 < 0) by nra. assert (0 < v0) by nra.
      split; (split; [apply Qle_shift_div_l|apply Qle_shift_div_r]); lra.
    - assert (0 < v2) by nra. assert (v3 < 0) by nra. assert (0 < v1) by nra. assert (v0 < 0) by nra.
      split; (split; [apply Qle_shift_div_l|apply Qle_shift_div_r]); lra. }
  split_and!; try apply Hs.
  - apply (Qmult_inj_r _ _ D HDn). transitivity (px a * D + v2 * (px b - px a)); [field; done|]. rewrite Hx. field; done.
  - apply (Qmult_inj_r _ _ D HDn). transitivity (py a * D + v2 * (py b - py a)); [field; done|]. rewrite Hy. field; done.
Qed.

(** ** Leaving out by boxes changes nothing *)

Lemma someEdgeFrom_none f first points : (forall a b, a ∈ first :: points -> b ∈ first :: points -> f a b = false) ->
  someEdgeFrom f first points = false.
Proof.
  induction points as [|a [|b rest] IH]; intros H; [done|by apply H; set_solver|].
  change (f a b || someEdgeFrom f first (b :: rest) = false). rewrite H by set_solver. apply IH. set_solver.
Qed.

Lemma someEdge_none f poly : (forall a b, a ∈ poly -> b ∈ poly -> f a b = false) -> someEdge f poly = false.
Proof. intros H. destruct poly as [|a poly]; [done|]. apply someEdgeFrom_none. set_solver. Qed.

Lemma someEdgeFrom_ext f f' first points : (forall a b, f a b = f' a b) -> someEdgeFrom f first points = someEdgeFrom f' first points.
Proof.
  intros H. induction points as [|a [|b rest] IH]; [done|apply H|].
  change (f a b || someEdgeFrom f first (b :: rest) = f' a b || someEdgeFrom f' first (b :: rest)). by rewrite H, IH.
Qed.

Lemma someEdge_ext f f' poly : (forall a b, f a b = f' a b) -> someEdge f poly = someEdge f' poly.
Proof. intros H. destruct poly as [|a poly]; [done|]. by apply someEdgeFrom_ext. Qed.

Lemma touchesPoint_outside radius p poly : 0 <= radius ->
  outsideBox (radius + BOX_EPSILON) p (boxOf poly) = true -> touchesPoint radius p poly = false.
Proof.
  intros Hr Hout. pose proof (boxOf_spec poly) as Hbox. destruct (boxOf poly) as [k|]; [|by subst].
  assert (EDGE <= BOX_EPSILON /\ 0 < EDGE) by done.
  unfold touchesPoint. rewrite (pointInPolygon_outside (radius + BOX_EPSILON) p k poly ltac:(lra) Hbox Hout). cbn [orb].
  apply someEdge_none. intros a b Ha Hb. apply (far_not_within _ (radius + BOX_EPSILON)); [lra|].
  apply (outside_far _ p k); auto. lra.
Qed.

Lemma touchesSegment_apart radius a b poly : 0 <= radius ->
  apartBox (radius + BOX_EPSILON) a b (boxOf poly) = true -> touchesSegment radius a b poly = false.
Proof.
  intros Hr Hout. pose proof (boxOf_spec poly) as Hbox. destruct (boxOf poly) as [k|]; [|by subst].
  assert (EDGE <= BOX_EPSILON /\ 0 < EDGE) by done. set (pad := radius + BOX_EPSILON) in *.
  assert (Hp : 0 <= EDGE <= pad /\ 0 <= radius <= pad) by (unfold pad; lra).
  apply someEdge_none. intros c d Hc Hd.
  destruct (apart_far pad a b k c d ltac:(lra) Hout (Hbox _ Hc) (Hbox _ Hd)) as (H1 & H2 & H3 & H4).
  unfold segmentsIntersect. rewrite !(far_not_nearer _ pad) by (done || lra). cbn [orb]. rewrite orb_false_r.
  rewrite (far_not_within _ pad radius); [|lra|by apply minQ_gt; apply minQ_gt]. rewrite orb_false_r.
  apply not_true_iff_false. intros [Hc1 Hc2]%andb_true_iff. apply ltb_true in Hc1, Hc2.
  destruct (crossing_shared a b c d Hc1 Hc2) as (s & t & Hs & Ht & Ex & Ey).
  destruct (inBox_between k c d t (Hbox _ Hc) (Hbox _ Hd) Ht) as [Hx Hy]. cbn in Hx, Hy, Hout.
  pose proof (minQ_le (px a) (px b)). pose proof (minQ_le (py a) (py b)).
  pose proof (maxQ_ge (px a) (px b)). pose proof (maxQ_ge (py a) (py b)).
  pose proof (between_low (minQ (px a) (px b)) (px a) (px b) s Hs). pose proof (between_high (maxQ (px a) (px b)) (px a) (px b) s Hs).
  pose proof (between_low (minQ (py a) (py b)) (py a) (py b) s Hs). pose proof (between_high (maxQ (py a) (py b)) (py a) (py b) s Hs).
  rewrite !orb_true_iff, !ltb_true in Hout. destruct Hout as [[[?|?]|?]|?]; lra.
Qed.

Lemma pointBlockedBy_plain polygons p radius : 0 <= radius ->
  pointBlockedBy (obstacleSet polygons) p radius = existsb (touchesPoint radius p) polygons.
Proof.
  intros Hr. unfold pointBlockedBy, obstacleSet. induction polygons as [|poly polygons IH]; [done|].
  cbn [map existsb]. rewrite IH. f_equal. destruct (outsideBox _ p (boxOf poly)) eqn:H; [|done].
  by rewrite touchesPoint_outside.
Qed.

Lemma segmentBlockedBy_plain polygons a b radius : 0 <= radius ->
  segmentBlockedBy (obstacleSet polygons) a b radius = existsb (touchesSegment radius a b) polygons.
Proof.
  intros Hr. unfold segmentBlockedBy, obstacleSet. induction polygons as [|poly polygons IH]; [done|].
  cbn [map existsb]. rewrite IH. f_equal. destruct (apartBox _ a b (boxOf poly)) eqn:H; [|done].
  by rewrite touchesSegment_apart.
Qed.

(** ** Tests do not depend on the order of a segment's ends or on how a number is written *)

#[export] Instance ltb_proper : Proper (Qeq ==> Qeq ==> eq) ltb.
Proof. intros a a' Ha b b' Hb. unfold ltb. by rewrite Ha, Hb. Qed.
#[export] Instance leb_proper : Proper (Qeq ==> Qeq ==> eq) leb.
Proof. intros a a' Ha b b' Hb. unfold leb. by rewrite Ha, Hb. Qed.
#[export] Instance sq_proper : Proper (Qeq ==> Qeq) sq.
Proof. intros a a' Ha. unfold sq. by rewrite Ha. Qed.
#[export] Instance nearer_proper : Proper (Qeq ==> Qeq ==> eq) nearer.
Proof. intros a a' Ha b b' Hb. unfold nearer. by rewrite Ha, Hb. Qed.
#[export] Instance within_proper : Proper (Qeq ==> Qeq ==> eq) within.
Proof. intros a a' Ha b b' Hb. unfold within. by rewrite Ha, Hb. Qed.

Lemma within_min a b r : within (minQ a b) r = within a r || within b r.
Proof.
  unfold within, minQ. destruct (leb 0 r); cbn; [|done]. destruct (leb a b) eqn:H, (leb a (sq r)) eqn:?, (leb b (sq r)) eqn:?;
    qbool; cbn; rewrite ?leb_true, ?leb_false; lra || done.
Qed.

Lemma touchesSegment_sym radius a b poly : touchesSegment radius a b poly = touchesSegment radius b a poly.
Proof.
  apply someEdge_ext. intros c d. unfold segmentsIntersect. rewrite !within_min.
  rewrite (segmentDistance_sym c b a), (segmentDistance_sym d b a).
  assert (E1 : cross b a c * cross b a d == cross a b c * cross a b d) by (unfold cross; ring). rewrite E1.
  rewrite (Qmult_comm (cross c d b)). btauto.
Qed.

Lemma existsb_ext {A} (f f' : A -> bool) l : (forall a, f a = f' a) -> existsb f l = existsb f' l.
Proof. intros H. induction l as [|a l IH]; [done|]. cbn. by rewrite H, IH. Qed.

Lemma clearSegment_sym m a b radius polygons : clearSegment m a b radius polygons = clearSegment m b a radius polygons.
Proof.
  unfold clearSegment. rewrite orb_comm.
  by rewrite (existsb_ext (touchesSegment radius a b) (touchesSegment radius b a)) by (intros; apply touchesSegment_sym).
Qed.

Lemma clearSegment_radius m a b r r' polygons : r == r' -> clearSegment m a b r polygons = clearSegment m a b r' polygons.
Proof.
  intros Hr.
  assert (Hb : forall p, isBlocked m p r polygons = isBlocked m p r' polygons).
  { intros p. unfold isBlocked. rewrite !Hr. rewrite (existsb_ext (touchesPoint r p) (touchesPoint r' p)); [done|].
    intros poly. unfold touchesPoint. f_equal. apply someEdge_ext. intros. by rewrite Hr. }
  unfold clearSegment. rewrite !Hb.
  rewrite (existsb_ext (touchesSegment r a b) (touchesSegment r' a b)); [done|].
  intros poly. apply someEdge_ext. intros. by rewrite Hr.
Qed.
