(* ===== verification/Navigator.v ===== *)
(** Routes on the office map: [findPath] and the class Navigator of
    clients/desktop/src/scene/office/officeMap/geometry.ts, and [simplifyPath] of locomotion.ts.

    [findPath] is the search of PathSearch with the tests of Geometry.  Navigator answers the
    same questions with bounding boxes and, per radius, an array that remembers for every edge of
    the grid whether it is clear (0 not known, 1 clear, 2 not).  An array is shared with the map
    of arrays, so a search that fills it changes the Navigator: [nav_findPath] returns both.  The
    facts of this file are about exact coordinates (see Geometry): there Navigator and [findPath]
    agree whatever was asked before, a route is clear along its whole length in either direction,
    and straightening keeps it clear.  They need [clearSegment] to be symmetric, which it is not
    after rounding: with an element of 32 by 30 at (1, 24) turned by -90 and the radius 8, the line
    from (24, 40) to (40, 40) is clear and the line back is not, and a warmed Navigator can find
    another route than [findPath].  What holds of the search whatever the arithmetic is in
    PathSearch ([search_is_sound_and_shortest]) and EditorPath ([editor_agrees]). *)

From S2P Require Import Prelude PathSearch Geometry.
From Stdlib Require Import QArith Qround Lqa Btauto.
Local Open Scope Z_scope.

Section Routes.
Context (turn : Q -> Q * Q).

Definition mapGrid (m : OfficeMap) : Grid MapPoint :=
  let '(step, cols, rows) := gridLayout m in
  mkGrid cols rows
    (fun id => mkPoint ((inject_Z (id mod cols) + (1 # 2)) * step)%Q ((inject_Z (id / cols) + (1 # 2)) * step)%Q)
    (fun p => (Qfloor (px p / step), Qfloor (py p / step))).

Definition findPath (m : OfficeMap) (start end_ : MapPoint) (radius : Q) (mode : WalkMode) (extra : list (list MapPoint))
    : option (list MapPoint) :=
  let polygons := blockers turn m mode ++ extra in
  let clear := fun a b => clearSegment m a b radius polygons in
  (searchPath (mapGrid m)
     (mkProbe (fun p => isBlocked m p radius polygons) clear (fun _ _ a b s => (clear a b, s))) start end_ tt).1.

(** ** Navigator *)

Record Navigator : Type := mkNavigator {
  nav_map : OfficeMap; nav_mode : WalkMode; nav_statics : ObstacleSet; nav_edgeCaches : list (Q * list Z) }.

Definition newNavigator (m : OfficeMap) (mode : WalkMode) : Navigator :=
  mkNavigator m mode (obstacleSet (blockers turn m mode)) [].

Definition extraBlocks (extra : option ObstacleSet) (f : ObstacleSet -> bool) : bool :=
  match extra with Some set => f set | None => false end.

Definition nav_isBlocked (nav : Navigator) (p : MapPoint) (radius : Q) (extra : option ObstacleSet) : bool :=
  negb (inBounds (nav_map nav) p radius) || pointBlockedBy (nav_statics nav) p radius ||
  extraBlocks extra (fun set => pointBlockedBy set p radius).

Definition staticClear (nav : Navigator) (a b : MapPoint) (radius : Q) : bool :=
  if negb (inBounds (nav_map nav) a radius) || negb (inBounds (nav_map nav) b radius) then false
  else negb (pointBlockedBy (nav_statics nav) a radius) && negb (pointBlockedBy (nav_statics nav) b radius) &&
       negb (segmentBlockedBy (nav_statics nav) a b radius).

Definition extraClear (a b : MapPoint) (radius : Q) (extra : ObstacleSet) : bool :=
  negb (pointBlockedBy extra a radius) && negb (pointBlockedBy extra b radius) && negb (segmentBlockedBy extra a b radius).

Definition extraAllows (a b : MapPoint) (radius : Q) (extra : option ObstacleSet) : bool :=
  match extra with Some set => extraClear a b radius set | None => true end.

Definition nav_clearSegment (nav : Navigator) (a b : MapPoint) (radius : Q) (extra : option ObstacleSet) : bool :=
  staticClear nav a b radius && extraAllows a b radius extra.

(** The array of a radius, made when there is none, and the map of arrays with it. *)
Fixpoint cacheOf (caches : list (Q * list Z)) (radius : Q) : option (list Z) :=
  match caches with
  | [] => None
  | (r, cache) :: rest => if Qeq_bool r radius then Some cache else cacheOf rest radius
  end.
Fixpoint storeCache (caches : list (Q * list Z)) (radius : Q) (cache : list Z) : list (Q * list Z) :=
  match caches with
  | [] => [(radius, cache)]
  | (r, old) :: rest => if Qeq_bool r radius then (r, cache) :: rest else (r, old) :: storeCache rest radius cache
  end.
Definition edgeCache (nav : Navigator) (radius : Q) : list Z :=
  nullish (cacheOf (nav_edgeCaches nav) radius) (replicate (2 * cells (mapGrid (nav_map nav))) 0).
Definition withCache (nav : Navigator) (radius : Q) (cache : list Z) : Navigator :=
  mkNavigator (nav_map nav) (nav_mode nav) (nav_statics nav) (storeCache (nav_edgeCaches nav) radius cache).

Definition slot (id next : Z) : Z := Z.min id next * 2 + (if Z.abs (id - next) =? 1 then 0 else 1).
Definition verdict (clear : bool) : Z := if clear then 1 else 2.

(** The slot is filled when it holds 0. *)
Definition fillSlot (cache : list Z) (k : Z) (clear : bool) : list Z :=
  if bool_decide (slotOf cache k = Some 0) then write cache k (verdict clear) else cache.

Definition cachedEdge (nav : Navigator) (radius : Q) (extra : option ObstacleSet) (id next : Z) (a b : MapPoint) (cache : list Z)
    : bool * list Z :=
  let cache := fillSlot cache (slot id next) (staticClear nav a b radius) in
  (bool_decide (slotOf cache (slot id next) = Some 1) && extraAllows a b radius extra, cache).

Definition nav_findPath (nav : Navigator) (start end_ : MapPoint) (radius : Q) (extra : option ObstacleSet)
    : option (list MapPoint) * Navigator :=
  let '(path, cache) :=
    searchPath (mapGrid (nav_map nav))
      (mkProbe (fun p => nav_isBlocked nav p radius extra) (fun a b => nav_clearSegment nav a b radius extra)
               (cachedEdge nav radius extra)) start end_ (edgeCache nav radius) in
  (path, withCache nav radius cache).

(** The centre of the cell in column [x] and row [y], as [warm] computes it. *)
Definition cellCenter (m : OfficeMap) (x y : Z) : MapPoint :=
  let '(step, _, _) := gridLayout m in mkPoint ((inject_Z x + (1 # 2)) * step)%Q ((inject_Z y + (1 # 2)) * step)%Q.

Definition warmCell (nav : Navigator) (radius : Q) (y : Z) (cache : list Z) (x : Z) : list Z :=
  let '(_, cols, rows) := gridLayout (nav_map nav) in
  let id := y * cols + x in
  let here := cellCenter (nav_map nav) x y in
  let cache := if x + 1 <? cols then fillSlot cache (id * 2) (staticClear nav here (cellCenter (nav_map nav) (x + 1) y) radius) else cache in
  if y + 1 <? rows then fillSlot cache (id * 2 + 1) (staticClear nav here (cellCenter (nav_map nav) x (y + 1)) radius) else cache.

Definition upTo (n : Z) : list Z := map Z.of_nat (seq 0 (Z.to_nat n)).

Definition warmRadius (nav : Navigator) (radius : Q) : Navigator :=
  let '(_, cols, rows) := gridLayout (nav_map nav) in
  withCache nav radius
    (fold_left (fun cache y => fold_left (warmCell nav radius y) (upTo cols) cache) (upTo rows) (edgeCache nav radius)).

Definition warm (nav : Navigator) (radii : list Q) : Navigator := fold_left warmRadius radii nav.
End Routes.

(** ** Straightening a route *)

(** The furthest point seen from [a] without a gap, and the points after it. *)
Fixpoint furthest {P} (isClear : P -> P -> bool) (a next : P) (rest : list P) : P * list P :=
  match rest with
  | c :: rest' => if isClear a c then furthest isClear a c rest' else (next, rest)
  | [] => (next, [])
  end.

(** The outer loop from the anchor [a]; [fuel] bounds its rounds by the points left. *)
Fixpoint straighten {P} (isClear : P -> P -> bool) (fuel : nat) (a : P) (rest : list P) : list P :=
  match fuel, rest with
  | S fuel, next :: rest =>
      let '(n, rest) := furthest isClear a next rest in n :: straighten isClear fuel n rest
  | _, _ => []
  end.

Definition simplifyPath {P} (points : list P) (isClear : P -> P -> bool) : list P :=
  match points with
  | a :: rest => if (length points <=? 2)%nat then points else a :: straighten isClear (length rest) a rest
  | [] => []
  end.

(** ** Tests with boxes are the plain tests *)

Definition setOf (extra : option (list (list MapPoint))) : option ObstacleSet := obstacleSet <$> extra.
Definition listOf (extra : option (list (list MapPoint))) : list (list MapPoint) := nullish extra [].

Section Agreement.
Context (nav : Navigator) (polygons : list (list MapPoint)) (Hstat : nav_statics nav = obstacleSet polygons).
Context (radius : Q) (Hradius : (0 <= radius)%Q).
Local Notation m := (nav_map nav).

Lemma isBlocked_bounds p l : isBlocked m p radius l = negb (inBounds m p radius) || existsb (touchesPoint radius p) l.
Proof. unfold isBlocked, inBounds. rewrite negb_involutive. by destruct (_ || _ || _ || _). Qed.

Lemma nav_isBlocked_plain p extra :
  nav_isBlocked nav p radius (setOf extra) = isBlocked m p radius (polygons ++ listOf extra).
Proof.
  unfold nav_isBlocked. rewrite isBlocked_bounds, existsb_app, Hstat, pointBlockedBy_plain, orb_assoc by done. f_equal.
  destruct extra as [l|]; [|done]. by apply pointBlockedBy_plain.
Qed.

Lemma staticClear_plain a b : staticClear nav a b radius = clearSegment m a b radius polygons.
Proof.
  unfold staticClear, clearSegment. rewrite Hstat, !isBlocked_bounds, !pointBlockedBy_plain, segmentBlockedBy_plain by done.
  by destruct (inBounds _ a _), (inBounds _ b _), (existsb (touchesPoint _ a) _), (existsb (touchesPoint _ b) _).
Qed.

Lemma nav_clearSegment_plain a b extra :
  nav_clearSegment nav a b radius (setOf extra) = clearSegment m a b radius (polygons ++ listOf extra).
Proof.
  unfold nav_clearSegment. rewrite staticClear_plain. unfold clearSegment. rewrite !isBlocked_bounds, !existsb_app.
  destruct extra as [l|]; cbn [setOf listOf fmap option_fmap option_map extraAllows nullish].
  - unfold extraClear. rewrite !pointBlockedBy_plain, segmentBlockedBy_plain by done.
    destruct (inBounds _ a _), (inBounds _ b _); cbn; [|by rewrite ?orb_true_r..].
    by destruct (existsb (touchesPoint _ a) polygons), (existsb (touchesPoint _ b) polygons),
      (existsb (touchesPoint _ a) l), (existsb (touchesPoint _ b) l), (existsb (touchesSegment _ a b) polygons),
      (existsb (touchesSegment _ a b) l).
  - cbn. rewrite !orb_false_r, andb_true_r. done.
Qed.

Lemma staticClear_sym a b : staticClear nav a b radius = staticClear nav b a radius.
Proof. rewrite !staticClear_plain. apply clearSegment_sym. Qed.

(** ** The arrays of edges *)

Local Notation g := (mapGrid m).

(** Slot [2 * id] is about the edge to [id + 1], slot [2 * id + 1] about the edge to the next row. *)
Definition target (k : Z) : Z := if k mod 2 =? 0 then k / 2 + 1 else k / 2 + cols g.
Definition coherent (cache : list Z) : Prop :=
  length cache = (2 * cells g)%nat /\
  forall k v, slotOf cache k = Some v -> v = 0 \/ v = verdict (staticClear nav (center g (k / 2)) (center g (target k)) radius).

Lemma coherent_fresh : coherent (replicate (2 * cells g) 0).
Proof.
  split; [apply length_replicate|]. intros k v. unfold slotOf. case_match; [done|].
  intros [-> _]%lookup_replicate. by left.
Qed.

Lemma coherent_fill cache k c : coherent cache ->
  c = staticClear nav (center g (k / 2)) (center g (target k)) radius -> coherent (fillSlot cache k c).
Proof.
  intros [Hl Hc] ->. unfold fillSlot. case_bool_decide as H0; [|done].
  split; [by rewrite write_length|]. intros j v Hj.
  assert (Hk : 0 <= k /\ (Z.to_nat k < length cache)%nat).
  { unfold slotOf in H0. case_match; [done|]. apply lookup_lt_Some in H0. boolify. lia. }
  assert (0 <= j) by (unfold slotOf in Hj; case_match; [done|boolify; lia]).
  rewrite slotOf_write in Hj by lia. case_decide as Hjk; [|by apply Hc]. simplify_eq. by right.
Qed.

(** The slot of an edge is read as the verdict about it. *)
Lemma fillSlot_verdict cache k c : coherent cache -> 0 <= k -> (Z.to_nat k < 2 * cells g)%nat ->
  c = staticClear nav (center g (k / 2)) (center g (target k)) radius -> slotOf (fillSlot cache k c) k = Some (verdict c).
Proof.
  intros [Hl Hc] Hk Hlt ->. unfold fillSlot. case_bool_decide as H0.
  - rewrite slotOf_write by lia. by rewrite decide_True.
  - destruct (slotOf cache k) as [v|] eqn:E.
    + destruct (Hc _ _ E) as [-> | ->]; done.
    + exfalso. unfold slotOf in E. case_match; [boolify; lia|]. apply lookup_ge_None in E. lia.
Qed.

Lemma neighbour_shape id next : validCell g id -> next ∈ neighbours g id ->
  exists lo hi, validCell g lo /\ validCell g hi /\ ((id = lo /\ next = hi) \/ (id = hi /\ next = lo)) /\
    (hi = lo + 1 \/ hi = lo + cols g).
Proof.
  intros Hid Hn. pose proof (neighbours_valid _ _ _ Hn) as Hnext.
  destruct Hid as (x & y & Hin & ->). unfold neighbours in Hn. apply list_elem_of_omap in Hn as ([nx ny] & Hin2 & Hsome).
  cbn [fst snd] in Hsome. case_match eqn:Hg; simplify_eq.
  assert (V : validCell g (cellId g x y)) by (by exists x, y).
  unfold around in Hin2. rewrite (cellId_column _ _ _ Hin), (cellId_row _ _ _ Hin) in Hin2. unfold cellId in *.
  rewrite !elem_of_cons in Hin2. destruct Hin2 as [[= -> ->]|[[= -> ->]|[[= -> ->]|[[= -> ->]|[]%elem_of_nil]]]].
  - eexists _, _. split; [exact Hnext|]. split; [exact V|]. split; [by right|]. left. lia.
  - eexists _, _. split; [exact V|]. split; [exact Hnext|]. split; [by left|]. left. lia.
  - eexists _, _. split; [exact Hnext|]. split; [exact V|]. split; [by right|]. right. lia.
  - eexists _, _. split; [exact V|]. split; [exact Hnext|]. split; [by left|]. right. lia.
Qed.

Lemma slot_spec id next : validCell g id -> next ∈ neighbours g id ->
  let k := slot id next in
  0 <= k /\ (Z.to_nat k < 2 * cells g)%nat /\
  staticClear nav (center g id) (center g next) radius = staticClear nav (center g (k / 2)) (center g (target k)) radius.
Proof.
  intros Hid Hn. destruct (neighbour_shape _ _ Hid Hn) as (lo & hi & Hlo & Hhi & Hends & Hstep).
  pose proof (validCell_lt _ _ Hlo) as [? ?]. pose proof (validCell_lt _ _ Hhi) as [? ?].
  assert (Hcols : 0 < cols g).
  { destruct Hlo as (x & y & Hin & _). apply inGrid_spec in Hin. lia. }
  assert (Hk : slot id next = lo * 2 + (if hi - lo =? 1 then 0 else 1)).
  { unfold slot. destruct Hends as [[-> ->]|[-> ->]]; [rewrite Z.min_l by lia|rewrite Z.min_r by lia];
      f_equal; destruct (hi - lo =? 1) eqn:?; boolify; case_match; boolify; lia. }
  assert (Hd : slot id next / 2 = lo /\ target (slot id next) = hi).
  { unfold target. rewrite Hk. case_match; boolify.
    - rewrite Z.add_0_r, Z.div_mul, Z.mod_mul by lia. cbn. lia.
    - rewrite Z.add_comm, Z_div_plus_full, Z_mod_plus_full by lia. change (1 / 2) with 0. change (1 mod 2 =? 0) with false. cbv iota. lia. }
  cbv zeta. destruct Hd as [-> ->]. split_and!; [rewrite Hk; case_match; lia|rewrite Hk; case_match; lia|].
  destruct Hends as [[-> ->]|[-> ->]]; [done|apply staticClear_sym].
Qed.

Lemma cachedEdge_agrees extra :
  agrees g (fun id next => clearSegment m (center g id) (center g next) radius (polygons ++ listOf extra))
    (cachedEdge nav radius (setOf extra)) coherent.
Proof.
  intros id next cache Hid Hn Hc. destruct (slot_spec id next Hid Hn) as (Hk & Hlt & Heq).
  unfold cachedEdge. cbn [fst snd]. split; [|by apply coherent_fill].
  rewrite (fillSlot_verdict _ _ _ Hc Hk Hlt Heq), <- nav_clearSegment_plain. unfold nav_clearSegment, verdict.
  by destruct (staticClear _ _ _ _).
Qed.
End Agreement.

(** ** Reachable navigators *)

Lemma Qeq_bool_trans_r r r' q : Qeq_bool r r' = true -> Qeq_bool r q = Qeq_bool r' q.
Proof. intros H%Qeq_bool_iff. by rewrite H. Qed.

Lemma cacheOf_store caches r c q : cacheOf (storeCache caches r c) q = if Qeq_bool r q then Some c else cacheOf caches q.
Proof.
  induction caches as [|[r0 old] caches IH]; cbn; [done|].
  destruct (Qeq_bool r0 r) eqn:E; cbn; [rewrite (Qeq_bool_trans_r _ _ q E); by destruct (Qeq_bool r q)|].
  rewrite IH. destruct (Qeq_bool r0 q) eqn:E0, (Qeq_bool r q) eqn:E1; try done.
  apply Qeq_bool_iff in E0, E1. apply Qeq_bool_neq in E. destruct E. by rewrite E0, E1.
Qed.

Lemma storeCache_same caches r c : cacheOf caches r = Some c -> storeCache caches r c = caches.
Proof.
  induction caches as [|[r0 old] caches IH]; cbn; [done|]. case_match; intros; simplify_eq; [done|]. by rewrite IH.
Qed.

Section Reachable.
Context (turn : Q -> Q * Q) (m : OfficeMap) (mode : WalkMode).
Local Notation g := (mapGrid m).

Record NavOk (nav : Navigator) : Prop := {
  ok_map : nav_map nav = m;
  ok_statics : nav_statics nav = obstacleSet (blockers turn m mode);
  ok_caches : forall r cache, cacheOf (nav_edgeCaches nav) r = Some cache -> (0 <= r)%Q -> coherent nav r cache;
}.

Inductive navStep (nav : Navigator) : Navigator -> Prop :=
| step_findPath start end_ radius extra : (0 <= radius)%Q ->
    navStep nav (nav_findPath nav start end_ radius (setOf extra)).2
| step_warm radii : Forall (Qle 0) radii -> navStep nav (warm nav radii).

Definition reachable (nav : Navigator) : Prop := rtc navStep (newNavigator turn m mode) nav.

Lemma coherent_radius nav r r' cache : NavOk nav -> (0 <= r)%Q -> (r == r')%Q -> coherent nav r cache -> coherent nav r' cache.
Proof.
  intros Hok Hr E [Hl Hc]. split; [done|]. intros k v Hk. destruct (Hc k v Hk) as [?|Hv]; [by left|right].
  rewrite Hv, !(staticClear_plain nav _ (ok_statics _ Hok)) by lra. f_equal. by apply clearSegment_radius.
Qed.

Lemma edgeCache_coherent nav r : NavOk nav -> (0 <= r)%Q -> coherent nav r (edgeCache nav r).
Proof.
  intros Hok Hr. unfold edgeCache. destruct (cacheOf _ r) as [c|] eqn:E; [by eapply ok_caches|].
  apply coherent_fresh.
Qed.

Lemma withCache_ok nav r cache : NavOk nav -> (0 <= r)%Q -> coherent nav r cache -> NavOk (withCache nav r cache).
Proof.
  intros Hok Hr Hc. split; [apply Hok|apply Hok|]. cbn. intros q c. rewrite cacheOf_store. case_match eqn:E.
  - intros [= <-] Hq. apply Qeq_bool_iff in E. by apply (coherent_radius nav r).
  - apply (ok_caches _ Hok).
Qed.

Lemma nav_findPath_spec nav start end_ r extra : NavOk nav -> (0 <= r)%Q ->
  (nav_findPath nav start end_ r (setOf extra)).1 = findPath turn m start end_ r mode (listOf extra) /\
  NavOk (nav_findPath nav start end_ r (setOf extra)).2.
Proof.
  intros Hok Hr. pose proof (ok_map _ Hok) as Hm. unfold nav_findPath, findPath.
  pose proof (cachedEdge_agrees nav _ (ok_statics _ Hok) r Hr extra) as Hag. rewrite Hm in *.
  set (polygons := blockers turn m mode ++ listOf extra) in *.
  destruct (searchPath_same g
    (mkProbe (fun p => nav_isBlocked nav p r (setOf extra)) (fun a b => nav_clearSegment nav a b r (setOf extra)) (cachedEdge nav r (setOf extra)))
    (mkProbe (fun p => isBlocked m p r polygons) (fun a b => clearSegment m a b r polygons)
             (fun _ _ a b s => (clearSegment m a b r polygons, s)))
    _ (coherent nav r) (fun _ => True) start end_ (edgeCache nav r) tt Hag) as [He Hc].
  - intros id next s _ _ _. by split.
  - intros p. cbn. rewrite (nav_isBlocked_plain nav _ (ok_statics _ Hok) r Hr). by rewrite Hm.
  - intros a b. cbn. rewrite (nav_clearSegment_plain nav _ (ok_statics _ Hok) r Hr). by rewrite Hm.
  - by apply edgeCache_coherent.
  - done.
  - destruct (searchPath _ _ _ _ (edgeCache nav r)) as [path cache]. cbn in *. split; [done|]. by apply withCache_ok.
Qed.

(** ** Warming up *)

Lemma mapGrid_layout step c r : gridLayout m = (step, c, r) -> cols g = c /\ rows g = r.
Proof. unfold mapGrid. by intros ->. Qed.

Lemma upTo_spec n x : x ∈ upTo n <-> 0 <= x < n.
Proof.
  unfold upTo. rewrite list_elem_of_fmap. split.
  - intros (k & -> & Hk). apply elem_of_seq in Hk. lia.
  - intros Hx. exists (Z.to_nat x). rewrite elem_of_seq. lia.
Qed.

Lemma cellCenter_center x y : inGrid g x y = true -> cellCenter m x y = center g (cellId g x y).
Proof.
  intros Hin. pose proof (cellId_column _ _ _ Hin) as Hc. pose proof (cellId_row _ _ _ Hin) as Hr.
  unfold row in Hr. rewrite Hc in Hr. unfold column in Hc. apply inGrid_spec in Hin.
  unfold cellCenter, mapGrid in *. destruct (gridLayout m) as [[step c] r] eqn:E. cbn [cols rows center cellId] in *.
  unfold cellId in *. cbn [cols] in *.
  replace ((y * c + x) / c) with y; [by rewrite Hc|].
  rewrite Z.add_comm, Z.div_add by lia. rewrite Z.div_small by lia. lia.
Qed.

Lemma warmCell_coherent nav r y x cache : NavOk nav -> inGrid g x y = true -> coherent nav r cache ->
  coherent nav r (warmCell nav r y cache x).
Proof.
  intros Hok Hin Hc. pose proof (ok_map _ Hok) as Hm. unfold warmCell. rewrite Hm.
  destruct (gridLayout m) as [[step c] rr] eqn:E. destruct (mapGrid_layout _ _ _ E) as [Hcols Hrows].
  pose proof (proj1 (inGrid_spec _ _ _) Hin) as Hb.
  rewrite (cellCenter_center x y Hin).
  assert (H1 : coherent nav r (if x + 1 <? c then fillSlot cache ((y * c + x) * 2)
     (staticClear nav (center g (cellId g x y)) (cellCenter m (x + 1) y) r) else cache)).
  { case_match eqn:Hx; [|done]. apply coherent_fill; [done|]. unfold target. rewrite Hm.
    rewrite Z.mod_mul, Z.div_mul by lia. cbn [Z.eqb].
    rewrite cellCenter_center by (apply inGrid_spec; lia). unfold cellId. rewrite Hcols.
    rewrite Z.add_assoc. reflexivity. }
  destruct (y + 1 <? rr) eqn:Hy; [|exact H1]. apply coherent_fill; [exact H1|]. unfold target. rewrite Hm.
  replace ((y * c + x) * 2 + 1) with (1 + (y * c + x) * 2) by lia.
  rewrite Z_mod_plus_full, Z_div_plus_full by lia. change (1 / 2) with 0. change (1 mod 2 =? 0) with false. cbv iota.
  rewrite cellCenter_center by (apply inGrid_spec; lia). unfold cellId. rewrite Hcols, Z.add_0_l.
  replace ((y + 1) * c + x) with (y * c + x + c) by lia. reflexivity.
Qed.

Lemma fold_left_keeps {A B} (f : A -> B -> A) (Inv : A -> Prop) l a :
  (forall a b, b ∈ l -> Inv a -> Inv (f a b)) -> Inv a -> Inv (fold_left f l a).
Proof.
  revert a. induction l as [|b l IH]; intros a H Ha; cbn; [done|].
  apply IH; [intros; apply H; [by right|done]|]. apply H; [by left|done].
Qed.

Lemma fold_left_reaches {A B} (f : A -> B -> A) (Inv Done : A -> Prop) l b a :
  b ∈ l -> (forall a b, b ∈ l -> Inv a -> Inv (f a b)) -> (forall a b, b ∈ l -> Inv a -> Done a -> Done (f a b)) ->
  (forall a, Inv a -> Done (f a b)) -> Inv a -> Done (fold_left f l a).
Proof.
  intros Hb HI HD Hr. revert a HI HD. induction l as [|c l IH]; intros a HI HD Ha; [by apply elem_of_nil in Hb|]. cbn.
  apply elem_of_cons in Hb as [<-|Hb].
  - apply (fold_left_keeps f (fun a => Inv a /\ Done a)); [|by split; [apply HI; [left|]|apply Hr]].
    intros a' b' Hb' [? ?]. split; [apply HI|apply HD]; done || by right.
  - apply IH; [done|intros; apply HI; [by right|done]|intros; apply HD; [by right|done..]|apply HI; [by left|done]].
Qed.

Lemma warmRow_coherent nav r y cache : NavOk nav -> 0 <= y < rows g -> coherent nav r cache ->
  coherent nav r (fold_left (warmCell nav r y) (upTo (cols g)) cache).
Proof.
  intros Hok Hy. apply fold_left_keeps. intros c x Hx%upTo_spec Hc. apply warmCell_coherent; [done|by apply inGrid_spec|done].
Qed.

Lemma warmRadius_unfold nav r : NavOk nav ->
  warmRadius nav r = withCache nav r
    (fold_left (fun cache y => fold_left (warmCell nav r y) (upTo (cols g)) cache) (upTo (rows g)) (edgeCache nav r)).
Proof.
  intros Hok. unfold warmRadius. rewrite (ok_map _ Hok). destruct (gridLayout m) as [[step c] rr] eqn:E.
  by destruct (mapGrid_layout _ _ _ E) as [-> ->].
Qed.

Lemma warmed_coherent nav r : NavOk nav -> (0 <= r)%Q ->
  coherent nav r (fold_left (fun cache y => fold_left (warmCell nav r y) (upTo (cols g)) cache) (upTo (rows g)) (edgeCache nav r)).
Proof.
  intros Hok Hr. apply fold_left_keeps; [|by apply edgeCache_coherent].
  intros c y Hy%upTo_spec Hc. by apply warmRow_coherent.
Qed.

Lemma warmRadius_ok nav r : NavOk nav -> (0 <= r)%Q -> NavOk (warmRadius nav r).
Proof. intros Hok Hr. rewrite (warmRadius_unfold _ _ Hok). apply withCache_ok; [done..|]. by apply warmed_coherent. Qed.

Lemma warm_ok nav radii : NavOk nav -> Forall (Qle 0) radii -> NavOk (warm nav radii).
Proof.
  intros Hok Hr. rewrite Forall_forall in Hr. unfold warm. apply (fold_left_keeps _ NavOk); [|done].
  intros n r Hin Hn. apply warmRadius_ok; [done|by apply Hr].
Qed.

Lemma nav_reachable_ok nav : reachable nav -> NavOk nav.
Proof.
  unfold reachable. revert nav. apply rtc_ind_r.
  - split; done.
  - intros n n' _ Hs Hok. destruct Hs; [by apply nav_findPath_spec|by apply warm_ok].
Qed.

(** A slot that is known. *)
Definition known (k : Z) (cache : list Z) : Prop := slotOf cache k <> Some 0.

Lemma fillSlot_known j k c cache : known j cache -> known j (fillSlot cache k c).
Proof.
  unfold known, fillSlot. intros Hj. case_bool_decide as H0; [|done]. intros E. apply Hj.
  unfold slotOf, write in *. case_match; [done|]. destruct (k <? 0) eqn:?; [done|].
  destruct (decide (Z.to_nat k = Z.to_nat j)) as [Heq|]; [rewrite Heq in E|by rewrite list_lookup_insert_ne in E].
  apply list_lookup_insert_Some in E as [(_ & E & _)|[]]; [|done]. by destruct c.
Qed.

Lemma fillSlot_knows k c cache : known k (fillSlot cache k c).
Proof.
  unfold fillSlot. case_bool_decide as H0; [|done]. unfold known, slotOf, write in *. destruct (k <? 0) eqn:?; [done|].
  rewrite list_lookup_insert_eq by (by eapply lookup_lt_Some). by destruct c.
Qed.

Lemma warmCell_known nav r y x k cache : known k cache -> known k (warmCell nav r y cache x).
Proof.
  intros Hk. unfold warmCell. destruct (gridLayout _) as [[step c] rr].
  destruct (x + 1 <? c), (y + 1 <? rr); auto using fillSlot_known.
Qed.

Lemma warmCell_knows nav r y x cache : NavOk nav ->
  (x + 1 < cols g -> known (cellId g x y * 2) (warmCell nav r y cache x)) /\
  (y + 1 < rows g -> known (cellId g x y * 2 + 1) (warmCell nav r y cache x)).
Proof.
  intros Hok. unfold warmCell. rewrite (ok_map _ Hok). destruct (gridLayout m) as [[step c] rr] eqn:E.
  destruct (mapGrid_layout _ _ _ E) as [Hc Hr]. unfold cellId. rewrite Hc, Hr. split; intros Hlt.
  - rewrite (proj2 (Z.ltb_lt _ _) Hlt). destruct (y + 1 <? rr); auto using fillSlot_known, fillSlot_knows.
  - rewrite (proj2 (Z.ltb_lt _ _) Hlt). apply fillSlot_knows.
Qed.

Lemma warmed_known nav r x y k cache : NavOk nav -> inGrid g x y = true ->
  (k = cellId g x y * 2 /\ x + 1 < cols g) \/ (k = cellId g x y * 2 + 1 /\ y + 1 < rows g) ->
  known k (fold_left (fun cache y => fold_left (warmCell nav r y) (upTo (cols g)) cache) (upTo (rows g)) cache).
Proof.
  intros Hok Hin Hk. apply inGrid_spec in Hin as [Hx Hy].
  apply (fold_left_reaches _ (fun _ => True) (known k) _ y); [by apply upTo_spec|done| | |done].
  - intros c b _ _ Hc. apply fold_left_keeps; [|done]. intros. by apply warmCell_known.
  - intros c _. apply (fold_left_reaches _ (fun _ => True) (known k) _ x); [by apply upTo_spec|done| | |done].
    + intros. by apply warmCell_known.
    + intros c' _. destruct (warmCell_knows nav r y x c' Hok) as [H1 H2].
      destruct Hk as [[-> ?]|[-> ?]]; auto.
Qed.

(** On more than one column the slot of an edge is one that [warm] fills. *)
Lemma slot_cell id next : cols g <> 1 -> validCell g id -> next ∈ neighbours g id ->
  exists x y, inGrid g x y = true /\
    ((slot id next = cellId g x y * 2 /\ x + 1 < cols g) \/ (slot id next = cellId g x y * 2 + 1 /\ y + 1 < rows g)).
Proof.
  intros Hne (x & y & Hin & ->) Hn. unfold neighbours in Hn. apply list_elem_of_omap in Hn as ([nx ny] & Hin2 & Hsome).
  cbn [fst snd] in Hsome. case_match eqn:Hg; simplify_eq.
  unfold around in Hin2. rewrite (cellId_column _ _ _ Hin), (cellId_row _ _ _ Hin) in Hin2.
  rewrite inGrid_spec in Hin, Hg. unfold slot, cellId in *. set (c := cols g) in *.
  rewrite !elem_of_cons in Hin2. destruct Hin2 as [[= -> ->]|[[= -> ->]|[[= -> ->]|[[= -> ->]|[]%elem_of_nil]]]].
  - exists (x - 1), y. rewrite inGrid_spec. split; [fold c; lia|]. left. rewrite Z.min_r by lia. case_match; boolify; lia.
  - exists x, y. rewrite inGrid_spec. split; [fold c; lia|]. left. rewrite Z.min_l by lia. case_match; boolify; lia.
  - exists x, (y - 1). rewrite inGrid_spec. split; [fold c; lia|]. right. rewrite Z.min_r by lia. case_match; boolify; lia.
  - exists x, y. rewrite inGrid_spec. split; [fold c; lia|]. right. rewrite Z.min_l by lia. case_match; boolify; lia.
Qed.

Definition Warm (r : Q) (nav : Navigator) : Prop :=
  exists cache, cacheOf (nav_edgeCaches nav) r = Some cache /\
    forall id next, validCell g id -> next ∈ neighbours g id -> known (slot id next) cache.

Lemma warm_warms nav radii r : NavOk nav -> cols g <> 1 -> Forall (Qle 0) radii -> r ∈ radii -> Warm r (warm nav radii).
Proof.
  intros Hok Hne Hpos Hr. rewrite Forall_forall in Hpos. unfold warm.
  apply (fold_left_reaches _ NavOk (Warm r) _ r); [done|..|done].
  - intros. apply warmRadius_ok; auto.
  - intros n q Hq Hn (cache & Hc & Hk). rewrite (warmRadius_unfold _ _ Hn). unfold Warm. cbn. rewrite cacheOf_store.
    destruct (Qeq_bool q r) eqn:E; [|by exists cache]. eexists. split; [done|]. intros id next Hid Hnext.
    destruct (slot_cell id next Hne Hid Hnext) as (x & y & Hin & Hs). by eapply warmed_known.
  - intros n Hn. rewrite (warmRadius_unfold _ _ Hn). unfold Warm. cbn. rewrite cacheOf_store.
    rewrite (proj2 (Qeq_bool_iff r r)) by reflexivity. eexists. split; [done|]. intros id next Hid Hnext.
    destruct (slot_cell id next Hne Hid Hnext) as (x & y & Hin & Hs). by eapply warmed_known.
Qed.

Lemma warm_search nav r start end_ extra : NavOk nav -> (0 <= r)%Q -> Warm r nav ->
  (nav_findPath nav start end_ r (setOf extra)).2 = nav.
Proof.
  intros Hok Hr (cache & Hc & Hk). pose proof (ok_map _ Hok) as Hm.
  assert (Hcoh : coherent nav r cache) by (by apply (ok_caches _ Hok)).
  set (E := fun id next => clearSegment (nav_map nav) (center (mapGrid (nav_map nav)) id) (center (mapGrid (nav_map nav)) next) r
                             (blockers turn m mode ++ listOf extra)).
  set (probe := mkProbe (fun p => nav_isBlocked nav p r (setOf extra)) (fun a b => nav_clearSegment nav a b r (setOf extra))
                        (cachedEdge nav r (setOf extra))).
  assert (Hag : agrees (mapGrid (nav_map nav)) E (pr_edge probe) (fun c => c = cache)).
  { intros id next c Hid Hn ->. split.
    - by apply (cachedEdge_agrees nav _ (ok_statics _ Hok) r Hr extra).
    - cbn. unfold fillSlot. rewrite bool_decide_false; [done|]. rewrite Hm in Hid, Hn. by apply Hk. }
  destruct (searchPath_run _ probe E _ Hag start end_ cache eq_refl) as (s' & found & -> & Hrun & _).
  unfold nav_findPath. fold probe. unfold edgeCache. rewrite Hc. cbn [nullish]. change (nullish (Some cache) _) with cache.
  rewrite Hrun. cbn. unfold withCache. rewrite (storeCache_same _ _ _ Hc). by destruct nav.
Qed.

(** ** Routes are clear *)

(** Every leg of a path. *)
Fixpoint legs {P} (clear : P -> P -> bool) (path : list P) : bool :=
  match path with
  | a :: ((b :: _) as rest) => clear a b && legs clear rest
  | _ => true
  end.

Lemma legs_app {P} (clear : P -> P -> bool) l a b l' : legs clear ((l ++ [a]) ++ b :: l') = legs clear (l ++ [a]) && clear a b && legs clear (b :: l').
Proof.
  induction l as [|c [|d l] IH]; [done|..].
  - change (clear c a && (clear a b && legs clear (b :: l')) = (clear c a && true) && clear a b && legs clear (b :: l')).
    by rewrite andb_true_r, andb_assoc.
  - change (clear c d && legs clear (((d :: l) ++ [a]) ++ b :: l') =
            (clear c d && legs clear ((d :: l) ++ [a])) && clear a b && legs clear (b :: l')).
    by rewrite IH, !andb_assoc.
Qed.

Lemma route_legs (clear : MapPoint -> MapPoint -> bool) (E : Z -> Z -> bool) (starts : list Z) l :
  (forall u v, E u v = true -> clear (center g u) (center g v) = true) -> route g E starts l ->
  legs clear (map (center g) (reverse l)) = true /\ exists s, s ∈ starts /\ last l = Some s.
Proof.
  intros HE. induction 1 as [s Hs|u v l Hr [IH (s & Hs & Hl)] [_ He]].
  - split; [done|]. by exists s.
  - split; [|by exists s]. rewrite reverse_cons, map_app. rewrite reverse_cons, map_app in *. cbn [map] in *.
    rewrite legs_app, IH, HE by done. done.
Qed.

Lemma furthest_spec {P} (isClear : P -> P -> bool) a next rest n rest' :
  isClear a next = true -> furthest isClear a next rest = (n, rest') ->
  isClear a n = true /\ (exists skipped, next :: rest = skipped ++ n :: rest') /\
  (legs isClear (next :: rest) = true -> legs isClear (n :: rest') = true).
Proof.
  revert next. induction rest as [|c rest IH]; intros next Hn; cbn -[legs].
  - intros [= <- <-]. split_and!; [done|by exists []|done].
  - destruct (isClear a c) eqn:Hc.
    + intros H. destruct (IH c Hc H) as (H1 & (sk & Hs) & H3). split_and!; [done|by exists (next :: sk); rewrite Hs|].
      intros Hl. apply H3. cbn in Hl. by apply andb_true_iff in Hl as [_ ?].
    + intros [= <- <-]. split_and!; [done|by exists []|done].
Qed.

(** From any anchor: the legs stay clear, the last point stays last and no point is new. *)
Lemma straighten_spec {P} (isClear : P -> P -> bool) fuel a rest :
  (length rest <= fuel)%nat -> legs isClear (a :: rest) = true ->
  let out := straighten isClear fuel a rest in
  legs isClear (a :: out) = true /\ last (a :: out) = last (a :: rest) /\ out `sublist_of` rest.
Proof.
  revert a rest. induction fuel as [|fuel IH]; intros a [|next rest] Hf Hl; cbn in Hf; [|lia| |].
  1,2: split_and!; [done|done|constructor].
  cbn [straighten]. cbn in Hl. apply andb_true_iff in Hl as [Hn Hl].
  destruct (furthest isClear a next rest) as [n rest'] eqn:E.
  destruct (furthest_spec _ _ _ _ _ _ Hn E) as (H1 & (sk & Hs) & H3).
  assert (Hlen : (length rest' <= length rest)%nat).
  { apply (f_equal length) in Hs. rewrite length_app in Hs. cbn in Hs. lia. }
  destruct (IH n rest') as (IH1 & IH2 & IH3); [lia|by apply H3|]. cbv zeta.
  set (out := straighten isClear fuel n rest') in *. split_and!.
  - change (isClear a n && legs isClear (n :: out) = true). by rewrite H1, IH1.
  - change (last (a :: n :: out)) with (last (n :: out)). rewrite IH2. change (last (a :: next :: rest)) with (last (next :: rest)).
    by rewrite Hs, last_app_cons.
  - rewrite Hs. apply sublist_inserts_l. by constructor.
Qed.

Lemma simplifyPath_spec {P} (points : list P) isClear : legs isClear points = true ->
  let out := simplifyPath points isClear in
  legs isClear out = true /\ head out = head points /\ last out = last points /\ out `sublist_of` points.
Proof.
  intros Hl. destruct points as [|a rest]; [split_and!; (done || constructor)|]. unfold simplifyPath.
  destruct (length (a :: rest) <=? 2)%nat; [by split_and!|]. cbv zeta.
  destruct (straighten_spec isClear (length rest) a rest) as (H1 & H2 & H3); [done..|].
  split_and!; [done..|]. by constructor.
Qed.

Lemma findPath_clear start end_ radius extra :
  let polygons := blockers turn m mode ++ extra in
  let clear := fun a b => clearSegment m a b radius polygons in
  let E := fun u v => clear (center g u) (center g v) in
  match findPath turn m start end_ radius mode extra with
  | Some path =>
      legs clear path = true /\ (exists mid, path = start :: mid ++ [end_]) /\
      forall v l, route g E (attach g clear start) (v :: l) -> v ∈ attach g clear end_ ->
        (length path <= length l + 3)%nat
  | None =>
      isBlocked m start radius polygons = true \/ isBlocked m end_ radius polygons = true \/
      (clear start end_ = false /\ forall v l, route g E (attach g clear start) (v :: l) -> v ∉ attach g clear end_)
  end.
Proof.
  intros polygons clear E.
  pose proof (searchPath_answers g
    (mkProbe (fun p => isBlocked m p radius polygons) clear (fun _ _ a b (s : unit) => (clear a b, s))) E (fun _ => True)
    ltac:(intros id next s _ _ _; by split) start end_ tt I) as Ha.
  unfold answers in Ha. cbn [pr_blocked pr_clear] in Ha. unfold findPath. fold polygons clear.
  destruct (searchPath g _ start end_ tt).1 as [path|]; [|exact Ha].
  destruct Ha as (_ & _ & [[Hc ->]|[_ (l & (v & t & -> & Hr & Hend & Hbest) & ->)]]).
  { split_and!; [cbn; by rewrite Hc|by exists []|]. intros. cbn. lia. }
  destruct (route_legs clear E (attach g clear start) (v :: t) ltac:(done) Hr) as [Hlegs (s & Hs & Hlast)].
  apply last_Some in Hlast as [l' El]. split_and!.
  - apply attach_spec in Hs as [Hs _]. apply attach_spec in Hend as [He _].
    assert (He' : clear (center g v) end_ = true) by (unfold clear; rewrite clearSegment_sym; exact He).
    assert (Hfirst : exists k, map (center g) (reverse (v :: t)) = center g s :: k).
    { rewrite El, reverse_app. by eexists. }
    destruct Hfirst as [k Hk]. rewrite reverse_cons, map_app in *.
    set (init := map (center g) (reverse t)) in *. cbn [map] in *.
    change (legs clear (((start :: init) ++ [center g v]) ++ [end_]) = true). rewrite legs_app, He'.
    change ((start :: init) ++ [center g v]) with (start :: init ++ [center g v]). rewrite Hk in *.
    change (clear start (center g s) && legs clear (center g s :: k) && true && true = true). by rewrite Hs, Hlegs.
  - by eexists.
  - intros w k Hw Hwe. specialize (Hbest w k Hw Hwe). cbn [length]. rewrite length_app, length_map, length_reverse. cbn. lia.
Qed.

(** In exact arithmetic Navigator answers as [findPath]: whatever searches and warm-ups it has been
    through, with whatever temporary obstacles and radii, its next search returns the same path
    (or none), although it skips obstacles by their boxes and trusts its arrays of edges.  One slot
    stands for both directions of an edge, so this needs [clearSegment] to be symmetric, which
    doubles do not give. *)
Theorem navigator_agrees nav start end_ radius extra : reachable nav -> (0 <= radius)%Q ->
  (nav_findPath nav start end_ radius (setOf extra)).1 = findPath turn m start end_ radius mode (listOf extra).
Proof. intros Hn Hr. by apply nav_findPath_spec; [apply nav_reachable_ok|]. Qed.

(** In exact arithmetic warming up is enough: on a map of more than one column, a search with a warmed radius
    finds every edge it asks about in its array and leaves the Navigator as it was. *)
Theorem warm_enough nav radii radius start end_ extra :
  reachable nav -> cols g <> 1 -> Forall (Qle 0) radii -> radius ∈ radii ->
  (nav_findPath (warm nav radii) start end_ radius (setOf extra)).2 = warm nav radii.
Proof.
  intros Hn Hc Hr Hin. apply nav_reachable_ok in Hn. apply warm_search.
  - by apply warm_ok.
  - rewrite Forall_forall in Hr. by apply Hr.
  - by apply warm_warms.
Qed.

(** In exact arithmetic the straightened route of a walk keeps the ends of the path found, uses only its points
    in their order, and every leg of it is clear. *)
Theorem straightened_route_clear start end_ radius extra path :
  findPath turn m start end_ radius mode extra = Some path ->
  let clear := fun a b => clearSegment m a b radius (blockers turn m mode ++ extra) in
  let out := simplifyPath path clear in
  legs clear out = true /\ head out = Some start /\ last out = Some end_ /\ out `sublist_of` path.
Proof.
  intros Hp clear out. pose proof (findPath_clear start end_ radius extra) as Hc. rewrite Hp in Hc.
  destruct Hc as (Hl & (mid & ->) & _). destruct (simplifyPath_spec _ _ Hl) as (H1 & H2 & H3 & H4).
  split_and!; [exact H1|exact H2|etrans; [exact H3|]; by rewrite app_comm_cons, last_snoc|exact H4].
Qed.
End Reachable.

(** A square room of four by four cells with a wall in it. *)
Definition exampleMap : OfficeMap :=
  mkMap 64 64 16 []
    [mkZone walk_blocked [mkPoint 30 0; mkPoint 34 0; mkPoint 34 40; mkPoint 30 40] true].
Definition flat (rotation : Q) : Q * Q := (1, 0)%Q.
Definition exampleNav : Navigator := newNavigator flat exampleMap employee.
Definition westDoor : MapPoint := mkPoint 8 8.
Definition eastDoor : MapPoint := mkPoint 56 8.
Definition visitor : list MapPoint := [mkPoint 28 56; mkPoint 36 56; mkPoint 36 64; mkPoint 28 64].

(** Around the wall: down, across and up again; closed by a visitor who stands in the gap. *)
Example example_route :
  length <$> findPath flat exampleMap westDoor eastDoor 4 employee [] = Some 8%nat /\
  findPath flat exampleMap westDoor eastDoor 4 employee [visitor] = None.
Proof. split; vm_compute; reflexivity. Qed.

Definition usedNav : Navigator := (nav_findPath exampleNav westDoor eastDoor 4 (setOf (Some [visitor]))).2.

Lemma usedNav_reachable : reachable flat exampleMap employee usedNav.
Proof. apply rtc_once, step_findPath. by vm_compute. Qed.

Lemma navigator_agrees_witness :
  (nav_findPath usedNav westDoor eastDoor 4 (setOf None)).1 = findPath flat exampleMap westDoor eastDoor 4 employee [].
Proof. apply (navigator_agrees flat exampleMap employee usedNav westDoor eastDoor 4 None usedNav_reachable). by vm_compute. Defined.

Lemma warm_enough_witness :
  (nav_findPath (warm usedNav [4; 8]%Q) westDoor eastDoor 8 (setOf None)).2 = warm usedNav [4; 8]%Q.
Proof.
  apply (warm_enough flat exampleMap employee usedNav [4; 8]%Q 8 westDoor eastDoor None usedNav_reachable).
  - by vm_compute.
  - repeat constructor; by vm_compute.
  - by right; left.
Defined.

Definition examplePath : list MapPoint := nullish (findPath flat exampleMap westDoor eastDoor 4 employee []) [].

Lemma straightened_route_clear_witness :
  let clear := fun a b => clearSegment exampleMap a b 4 (blockers flat exampleMap employee ++ []) in
  legs clear (simplifyPath examplePath clear) = true /\ length (simplifyPath examplePath clear) = 4%nat.
Proof.
  split.
  - apply (straightened_route_clear flat exampleMap employee westDoor eastDoor 4 [] examplePath). vm_compute. reflexivity.
  - vm_compute. reflexivity.
Defined.
