(* ===== verification/EditorPath.v ===== *)
(** The office map editor (clients/office-map-edit-tool/src/model.js): its own [findPath], with a
    growing queue and a Map of parents instead of typed arrays, and the undo history.

    The editor and the desktop scene must agree on every route, as the comment at the top of
    officeMap/geometry.ts demands; the file proves that they do.  The tests of points and segments
    are the same text in both and are those of Geometry. *)

From S2P Require Import Prelude PathSearch Geometry Navigator.
Local Open Scope Z_scope.

(** ** The editor's search *)

Section Editor.
Context {P : Type} (g : Grid P) (clear : P -> P -> bool).

Record EditorSearch : Type := mkEditor { e_queue : list Z; e_previous : gmap Z (option Z) }.

Definition editorVisit (id : Z) (st : EditorSearch) (n : Z * Z) : EditorSearch :=
  let '(nx, ny) := n in
  if negb (inGrid g nx ny) then st
  else
    let next := cellId g nx ny in
    if bool_decide (is_Some (e_previous st !! next)) || negb (clear (center g id) (center g next)) then st
    else mkEditor (e_queue st ++ [next]) (<[next := Some id]> (e_previous st)).

(** Left, right, up, down of the cell, with [Math.floor(id / cols)] for the row. *)
Definition editorAround (id : Z) : list (Z * Z) :=
  let x := id mod cols g in let y := id / cols g in [(x - 1, y); (x + 1, y); (x, y - 1); (x, y + 1)].

(** A cell without an entry does not occur; the walk back would end there. *)
Fixpoint editorTrace (fuel : nat) (previous : gmap Z (option Z)) (cursor : Z) : list Z :=
  match fuel with
  | O => []
  | S fuel => cursor :: match previous !! cursor with Some (Some c) => editorTrace fuel previous c | _ => [] end
  end.

Fixpoint editorRun (ends : list Z) (fuel head : nat) (st : EditorSearch) : option (list Z) :=
  match fuel with
  | O => None
  | S fuel =>
      match e_queue st !! head with
      | None => None
      | Some id =>
          if bool_decide (id ∈ ends) then Some (editorTrace (S (cells g)) (e_previous st) id)
          else editorRun ends fuel (S head) (fold_left (editorVisit id) (editorAround id) st)
      end
  end.

Definition editorStart (starts : list Z) : EditorSearch :=
  mkEditor starts (list_to_map (map (fun id => (id, None)) starts)).

Definition editorSearch (blocked : P -> bool) (start end_ : P) : option (list P) :=
  if blocked start || blocked end_ then None
  else if clear start end_ then Some [start; end_]
  else (fun l => reverse (end_ :: map (center g) l ++ [start])) <$>
         editorRun (attach g clear end_) (S (cells g)) 0 (editorStart (attach g clear start)).
End Editor.

Definition editorFindPath (turn : QArith_base.Q -> QArith_base.Q * QArith_base.Q) (m : OfficeMap) (start end_ : MapPoint)
    (radius : QArith_base.Q) (mode : WalkMode) : option (list MapPoint) :=
  let polygons := blockers turn m mode in
  editorSearch (mapGrid m) (fun a b => clearSegment m a b radius polygons) (fun p => isBlocked m p radius polygons) start end_.

(** ** Undo *)

Section History.
(** [stringify] is [JSON.stringify], by which [push] sees whether anything changed. *)
Context {M : Type} (stringify : M -> list Z).
Record History : Type := mkHistory { items : list M; index : nat }.

Definition newHistory (map : M) : History := mkHistory [map] 0.

Definition dropFirst (l : list M) : list M := if (60 <? length l)%nat then drop 1 l else l.

Definition pushHistory (h : History) (map : M) : History :=
  if bool_decide (stringify <$> items h !! index h = Some (stringify map)) then h
  else
    let l := dropFirst (take (S (index h)) (items h) ++ [map]) in
    mkHistory l (length l - 1).

Definition undo (h : History) : History * option M :=
  let h := if (0 <? index h)%nat then mkHistory (items h) (index h - 1) else h in (h, items h !! index h).
Definition redo (h : History) : History * option M :=
  let h := if (index h <? length (items h) - 1)%nat then mkHistory (items h) (S (index h)) else h in (h, items h !! index h).
End History.
Arguments History : clear implicits.
Arguments mkHistory {M}. Arguments items {M}. Arguments index {M}. Arguments undo {M}. Arguments redo {M}.

(** ** The two searches mirror each other *)

Section Mirror.
Context {P : Type} (g : Grid P) (clear : P -> P -> bool) (starts ends : list Z).
Local Notation E := (fun u v => clear (center g u) (center g v)).

(** The entry of the Map for a slot of the typed array. *)
Definition entry (slot : option Z) : option (option Z) :=
  match slot with
  | Some p => if p =? UNSEEN then None else Some (if p =? NO_PARENT then None else Some p)
  | None => None
  end.

Record Mirror (st : Search) (es : EditorSearch) : Prop := {
  mi_queue : e_queue es = take (tail st) (queue st);
  mi_previous : forall v, validCell g v -> e_previous es !! v = entry (slotOf (previous st) v);
}.

Lemma mirror_push st es h top q lev v p :
  Mirror st es -> Queued g E starts h top st q lev -> validCell g v -> v ∉ q -> p <> UNSEEN ->
  Mirror (push st v p) (mkEditor (e_queue es ++ [v]) (<[v := if p =? NO_PARENT then None else Some p]> (e_previous es))).
Proof.
  intros [Hq Hp] I Hv Hn Hu. pose proof (push_room _ _ _ _ _ _ _ _ _ I Hv Hn) as Hroom.
  pose proof (validCell_lt g _ Hv) as [? ?]. split; cbn.
  - rewrite (take_S_r _ _ v) by (apply list_lookup_insert_eq; by rewrite (qd_queue _ _ _ _ _ _ _ _ I)).
    rewrite take_insert_ge by lia. by rewrite Hq.
  - intros w Hw. pose proof (validCell_lt g _ Hw) as [? ?].
    rewrite slotOf_write by (rewrite ?(qd_previous _ _ _ _ _ _ _ _ I); done).
    destruct (decide (v = w)) as [->|Hne].
    + rewrite lookup_insert_eq. cbn. by rewrite (proj2 (Z.eqb_neq _ _) Hu).
    + rewrite lookup_insert_ne by done. by apply Hp.
Qed.

Lemma mirror_discover st es h q lev id n :
  Mirror st es -> Queued g E starts (S h) (S (lev id)) st q lev -> q !! h = Some id ->
  inGrid g n.1 n.2 = true -> Mirror (discover E id st (cellId g n.1 n.2)) (editorVisit g clear id es n).
Proof.
  intros M I Hid Hin. destruct n as [nx ny]. cbn [fst snd] in *. unfold editorVisit, discover. rewrite Hin. cbn [negb].
  set (v := cellId g nx ny). assert (Hv : validCell g v) by (by exists nx, ny).
  pose proof (mi_previous _ _ M v Hv) as Hp.
  assert (Hid0 : 0 <= id).
  { pose proof (qd_valid _ _ _ _ _ _ _ _ I) as HV. rewrite Forall_forall in HV.
    by apply list_elem_of_lookup_2, HV, validCell_lt in Hid as [? _]. }
  case_bool_decide as Hun.
  - rewrite Hun in Hp. cbn in Hp. rewrite Hp. rewrite bool_decide_false by (by intros [? ?]). cbn [orb].
    destruct (clear _ _); cbn [negb andb]; [|done].
    replace (Some id) with (if id =? NO_PARENT then None else Some id)
      by (rewrite (proj2 (Z.eqb_neq id NO_PARENT)) by (unfold NO_PARENT; lia); done).
    eapply mirror_push; [done..| |unfold UNSEEN; lia]. by apply (qd_seen _ _ _ _ _ _ _ _ I).
  - rewrite bool_decide_true; [done|]. rewrite Hp. unfold entry.
    destruct (slotOf (previous st) v) as [p|] eqn:Es.
    + rewrite (proj2 (Z.eqb_neq p UNSEEN)) by congruence. by eexists.
    + exfalso. pose proof (validCell_lt g _ Hv) as [? Hlt]. unfold slotOf in Es. case_match; [boolify; lia|].
      apply lookup_ge_None in Es. rewrite (qd_previous _ _ _ _ _ _ _ _ I) in Es. lia.
Qed.

Lemma mirror_expand l st es h q lev id :
  Mirror st es -> Queued g E starts (S h) (S (lev id)) st q lev -> q !! h = Some id ->
  (forall n, n ∈ l -> n ∈ around g id) ->
  Mirror (fold_left (discover E id) (omap (fun n => if inGrid g n.1 n.2 then Some (cellId g n.1 n.2) else None) l) st)
         (fold_left (editorVisit g clear id) l es).
Proof.
  revert st es q lev. induction l as [|n l IH]; intros st es q lev M I Hid Hl; [done|].
  assert (Hl' : forall n', n' ∈ l -> n' ∈ around g id) by (intros n' Hn'; apply Hl; by right).
  cbn. destruct (inGrid g n.1 n.2) eqn:Hin.
  - pose proof (mirror_discover _ _ _ _ _ _ n M I Hid Hin) as M'.
    destruct (discover_queued g E starts h id st q lev (cellId g n.1 n.2) I Hid) as (q' & lev' & I' & Hp & _).
    { unfold neighbours. apply list_elem_of_omap. exists n. split; [apply Hl; by left|]. by rewrite Hin. }
    eapply IH; [exact M'|exact I'|by eapply prefix_lookup_Some|done].
  - replace (editorVisit g clear id es n) with es; [by eapply IH|]. destruct n. cbn in *. by rewrite Hin.
Qed.

Lemma mirror_trace st es h top q lev fuel v : Mirror st es -> Queued g E starts h top st q lev -> v ∈ q ->
  trace fuel (previous st) v = editorTrace fuel (e_previous es) v.
Proof.
  intros M I. pose proof (qd_valid _ _ _ _ _ _ _ _ I) as HV. rewrite Forall_forall in HV.
  revert v. induction fuel as [|fuel IH]; intros v Hv; [done|]. cbn.
  pose proof (validCell_lt g _ (HV _ Hv)) as [? _]. rewrite (proj2 (Z.eqb_neq v NO_PARENT)) by (unfold NO_PARENT; lia).
  rewrite (mi_previous _ _ M v (HV _ Hv)). f_equal. apply list_elem_of_lookup_1 in Hv as [i Hi].
  destruct (qd_parents _ _ _ _ _ _ _ _ I _ _ Hi) as [(-> & _)|(j & u & Hj & _ & _ & -> & _)]; cbn.
  - by destruct fuel.
  - pose proof (validCell_lt g _ (HV _ (list_elem_of_lookup_2 _ _ _ Hj))) as [? _].
    rewrite (proj2 (Z.eqb_neq u NO_PARENT)), (proj2 (Z.eqb_neq u UNSEEN)) by (unfold NO_PARENT, UNSEEN; lia).
    by eapply IH, list_elem_of_lookup_2.
Qed.

Lemma editorAround_around id : validCell g id -> editorAround g id = around g id.
Proof.
  intros (x & y & Hin & ->). unfold editorAround, around.
  rewrite (cellId_column _ _ _ Hin), (cellId_row _ _ _ Hin). fold (column g (cellId g x y)). rewrite (cellId_column _ _ _ Hin).
  replace (cellId g x y / cols g) with y; [done|]. apply inGrid_spec in Hin. unfold cellId.
  rewrite Z.add_comm, Z.div_add by lia. rewrite Z.div_small by lia. lia.
Qed.

Lemma mirror_run fuel h st es q lev : Found g E starts ends h st q lev -> Mirror st es ->
  editorRun g clear ends fuel h es = search g E ends fuel h st.
Proof.
  revert h st es q lev. induction fuel as [|fuel IH]; intros h st es q lev F M; [done|]. cbn [editorRun search].
  destruct (fd_queued _ _ _ _ _ _ _ _ F) as (top & I & Ht). rewrite (mi_queue _ _ M), (qd_take _ _ _ _ _ _ _ _ I).
  pose proof (qd_tail _ _ _ _ _ _ _ _ I) as Hlen.
  destruct (q !! h) as [id|] eqn:Hid.
  - pose proof (lookup_lt_Some _ _ _ Hid). rewrite (proj2 (Nat.ltb_lt h (tail st))) by lia.
    assert (Hqu : queue st !! h = Some id).
    { rewrite <- (qd_take _ _ _ _ _ _ _ _ I) in Hid. by apply lookup_take_Some in Hid as [? _]. }
    rewrite Hqu. change (nullish (Some id) 0) with id. cbv zeta. case_bool_decide as Hend.
    + f_equal. symmetry. eapply mirror_trace; [done..|]. by eapply list_elem_of_lookup_2.
    + destruct (expand_found _ _ _ _ _ _ _ _ _ F Hid Hend) as (q' & lev' & F'). eapply IH; [exact F'|].
      rewrite editorAround_around.
      * apply (mirror_expand _ _ _ h q lev); [done| |done|done]. eapply queued_later; [done|]. by apply Ht.
      * pose proof (qd_valid _ _ _ _ _ _ _ _ I) as HV. rewrite Forall_forall in HV. by eapply HV, list_elem_of_lookup_2.
  - apply lookup_ge_None in Hid. by rewrite (proj2 (Nat.ltb_ge h (tail st))) by lia.
Qed.

Lemma mirror_start : NoDup starts -> Forall (validCell g) starts -> Mirror (startSearch g starts) (editorStart starts).
Proof.
  intros Hnd Hv. destruct (start_found g E starts ends Hnd Hv) as [lev F].
  destruct (fd_queued _ _ _ _ _ _ _ _ F) as (top & I & _). split.
  - by rewrite (qd_take _ _ _ _ _ _ _ _ I).
  - intros v Hval. cbn. destruct (decide (v ∈ starts)) as [Hin|Hn].
    + transitivity (Some (@None Z)).
      * apply elem_of_list_to_map_1; [rewrite <- list_fmap_compose; by rewrite list_fmap_id|].
        apply list_elem_of_fmap. by exists v.
      * apply list_elem_of_lookup_1 in Hin as [i Hi].
        destruct (qd_parents _ _ _ _ _ _ _ _ I _ _ Hi) as [(-> & _)|(j & u & _ & _ & Hlt & _)]; [done|lia].
    + rewrite (proj2 (qd_seen _ _ _ _ _ _ _ _ I v Hval) Hn). cbn. apply not_elem_of_list_to_map_1.
      rewrite <- list_fmap_compose. by rewrite list_fmap_id.
Qed.
End Mirror.

(** C31. The editor and the scene find the same route: for every map, pair of points, radius and
    mode, the editor's [findPath] returns exactly what the scene's returns. *)
Theorem editor_agrees turn m start end_ radius mode :
  editorFindPath turn m start end_ radius mode = findPath turn m start end_ radius mode [].
Proof.
  unfold editorFindPath, findPath, editorSearch. rewrite app_nil_r.
  set (polygons := blockers turn m mode). set (clear := fun a b => clearSegment m a b radius polygons). set (g := mapGrid m).
  set (probe := mkProbe _ clear _).
  destruct (searchPath_run g probe (fun u v => clear (center g u) (center g v)) (fun _ => True)
    ltac:(intros id next s _ _ _; by split) start end_ tt I) as (s' & found & _ & -> & ->).
  cbn [fst pr_blocked pr_clear probe].
  change (clearSegment m start end_ radius polygons) with (clear start end_). destruct (_ || _); [done|]. destruct (clear start end_); [done|].
  destruct (start_found g (fun u v => clear (center g u) (center g v)) (attach g clear start) (attach g clear end_)
              (attach_NoDup _ _ _) (attach_valid _ _ _)) as [lev F].
  rewrite (mirror_run g clear _ _ _ _ _ (editorStart (attach g clear start)) _ _ F)
    by (apply (mirror_start g clear _ (attach g clear end_)); [apply attach_NoDup|apply attach_valid]).
  destruct (search _ _ _ _ _ _) as [l|]; [|done]. cbn [fmap option_fmap option_map]. f_equal.
  by rewrite reverse_cons, reverse_app, reverse_singleton, <- fmap_reverse.
Qed.

(** ** The undo history *)

Section HistoryFacts.
Context {M : Type} (stringify : M -> list Z).

Definition HistoryOk (h : History M) : Prop := (index h < length (items h) <= 60)%nat.
Definition current (h : History M) : option M := items h !! index h.

Lemma newHistory_ok m : HistoryOk (newHistory m).
Proof. unfold HistoryOk. cbn. lia. Qed.

Lemma pushHistory_shape h m : HistoryOk h -> stringify <$> current h <> Some (stringify m) ->
  exists l, items (pushHistory stringify h m) = l ++ [m] /\ index (pushHistory stringify h m) = length l /\
    (1 <= length l <= 59)%nat /\ last l = current h.
Proof.
  intros Hok Hne. unfold HistoryOk, current in *. unfold pushHistory. rewrite bool_decide_false by done. cbv zeta.
  destruct (lookup_lt_is_Some_2 (items h) (index h)) as [c Hc]; [lia|].
  assert (Ht : take (S (index h)) (items h) = take (index h) (items h) ++ [c]) by (by apply take_S_r).
  assert (Hlen : length (take (S (index h)) (items h)) = S (index h)) by (rewrite length_take; lia).
  assert (Hlen' : length (take (index h) (items h)) = index h) by (rewrite length_take; lia).
  unfold dropFirst. rewrite length_app, Hlen. cbn [length]. destruct (Nat.ltb_spec 60 (S (index h) + 1)) as [Hbig|Hsmall].
  - exists (drop 1 (take (S (index h)) (items h))). rewrite drop_app_le by (rewrite Hlen; lia). cbn [items index].
    rewrite !length_app, length_drop, Hlen. cbn [length]. split_and!; [done|lia..|].
    rewrite Ht, drop_app_le by (rewrite Hlen'; lia). by rewrite last_snoc, Hc.
  - exists (take (S (index h)) (items h)). cbn [items index]. rewrite length_app, Hlen. cbn [length].
    split_and!; [done|lia..|]. by rewrite Ht, last_snoc, Hc.
Qed.

Lemma pushHistory_ok h m : HistoryOk h -> HistoryOk (pushHistory stringify h m).
Proof.
  intros Hok. destruct (decide (stringify <$> current h = Some (stringify m))) as [He|Hne].
  - unfold pushHistory. unfold current in He. by rewrite bool_decide_true.
  - destruct (pushHistory_shape h m Hok Hne) as (l & Hi & Hx & Hl & _). unfold HistoryOk. rewrite Hi, Hx, length_app. cbn. lia.
Qed.

Lemma undo_ok h : HistoryOk h -> HistoryOk (undo h).1.
Proof. unfold HistoryOk, undo. case_match; cbn; lia. Qed.
Lemma redo_ok h : HistoryOk h -> HistoryOk (redo h).1.
Proof. unfold HistoryOk, redo. case_match eqn:E; cbn; [|lia]. apply Nat.ltb_lt in E. lia. Qed.

Lemma push_undo h m : HistoryOk h -> stringify <$> current h <> Some (stringify m) ->
  (undo (pushHistory stringify h m)).2 = current h /\ current (pushHistory stringify h m) = Some m.
Proof.
  intros Hok Hne. destruct (pushHistory_shape h m Hok Hne) as (l & Hi & Hx & Hl & Hlast).
  unfold undo, current at 2. rewrite Hi, Hx. rewrite (proj2 (Nat.ltb_lt _ _)) by lia. cbn [snd items index]. split.
  - rewrite lookup_app_l by lia. rewrite <- Hlast, last_lookup. f_equal. lia.
  - by rewrite lookup_app_r, Nat.sub_diag by lia.
Qed.

Lemma undo_redo h : HistoryOk h -> (0 < index h)%nat -> (redo (undo h).1).1 = h /\ (redo (undo h).1).2 = current h.
Proof.
  unfold HistoryOk. intros Hok Hi. unfold undo, current. rewrite (proj2 (Nat.ltb_lt _ _) Hi). cbn [fst].
  unfold redo. cbn [items index]. rewrite (proj2 (Nat.ltb_lt _ _)) by lia. cbn [fst snd items index].
  replace (S (index h - 1)) with (index h) by lia. split; [by destruct h|done].
Qed.
End HistoryFacts.
