(* ===== verification/GroupContext.v ===== *)
(** The context a group member is given with a message ([buildGroupContext] of pi/session-host.ts,
    with [orchestrationContext] of groups/orchestration.ts and [skillRefsForSnapshot] of
    skills.ts): who is in the group, what the solution or the user's rule asks for, and what the
    other members said last.

    Texts are UTF-16 code units; [decode] reads the UTF-8 texts of the store.  The current branch
    of a member's session is an argument.  The file shows how long a context can get. *)

From S2P Require Import Prelude Regex Codec History Projections Conversations.
Local Open Scope Z_scope.

Definition decode (s : string) : text := utf8Decode (u s).
Definition joinText (sep : text) (l : list text) : text :=
  match l with [] => [] | a :: l => a ++ concat (map (fun b => sep ++ b) l) end.
Definition line (s : string) : text := decode s.
Definition LF : text := [10].
Definition MAX_GROUP_CONTEXT_CHARS : Z := 8000.
Definition MAX_GROUP_CONTEXT_FIELD_CHARS : nat := 600.
Definition EXECUTION_CONTEXT_BUDGET : Z := 64000.

(** ** Fields *)

Definition asText (v : option Projections.json) : option text := decode <$> asStr v.

Definition groupContextField (v : option Projections.json) : option text :=
  match asText v with
  | Some s => let t := trim (collapse false s) in if bool_decide (t = []) then None else Some (tslice MAX_GROUP_CONTEXT_FIELD_CHARS t)
  | None => None
  end.

(** [a ?? b] *)
Definition orElse (a b : option Projections.json) : option Projections.json :=
  match a with None | Some JNull => b | _ => a end.

Definition groupContextReference (v : option Projections.json) : option text :=
  match v with
  | Some (JStr _) => groupContextField v
  | Some (JObj o) =>
      match groupContextField (orElse (mget "skill_id" o) (orElse (mget "skill_ref" o) (mget "id" o))) with
      | Some i => Some (i ++ match groupContextField (mget "version" o) with Some version => u "@" ++ version | None => [] end)
      | None => None
      end
  | _ => None
  end.

Definition addUnique (seen : list text) (t : text) : list text := if bool_decide (t ∈ seen) then seen else seen ++ [t].
Definition itemsOf (v : option Projections.json) : list (option Projections.json) :=
  match v with Some (JArr l) => map Some l | _ => [v] end.
Definition uniqueStrings (values : list (option Projections.json)) : list text :=
  fold_left (fun seen item => match asText item with
                              | Some s => if bool_decide (trim s = []) then seen else addUnique seen (trim s)
                              | None => seen
                              end) (concat (map itemsOf values)) [].

(** ** Abilities *)

Definition DEFAULT_AGENT_TOOLS : list string :=
  ["bash"; "read"; "write"; "edit"; "todo_update"; "knowledge_search"; "knowledge_get"; "hindsight_recall"; "hindsight_retain"].

Definition stringsOf (l : list Projections.json) : list string := omap (fun v => asStr (Some v)) l.
Definition isObject (v : option Projections.json) : option Projections.fields := match v with Some (JObj o) => Some o | _ => None end.

Definition allowedTools (snapshot : Projections.fields) : list string :=
  let allowed := match isObject (mget "tool_policy" snapshot) with Some p => mget "allowed_tools" p | None => None end in
  let names := match allowed with Some (JArr l) => stringsOf l | _ => [] end in
  let names := if bool_decide (names = []) then DEFAULT_AGENT_TOOLS else names in
  let names := if bool_decide ("memory_recall" ∈ names) then names ++ ["hindsight_recall"] else names in
  let names := if bool_decide ("memory_retain" ∈ names) then names ++ ["hindsight_retain"] else names in
  Projections.distinct [] names.

(** [None] when the field is malformed, which throws. *)
Definition skillRefsForSnapshot (snapshot : Projections.fields) : option (list string) :=
  let field := if bool_decide (is_Some (mget "skills" snapshot)) then "skills" else "skill_refs" in
  match mget field snapshot with
  | None => Some []
  | Some (JArr l) =>
      if existsb (fun v => match v with JStr s => String.eqb s "" | _ => true end) l then None
      else Some (Projections.distinct [] (stringsOf l))
  | Some _ => None
  end.

(** ** The user's rule *)

Definition orchestrationContext (o : GroupOrchestration) (description : option string) (coordinator : bool) : text :=
  if negb coordinator then line "你是群成员：完成协调人或用户交给你的具体任务，返回实际结果，不自行启动整套协作流程。"
  else
    let rule := match o with
      | Auto => line "自动编排：根据群用途和本群员工简介、能力规划本次任务的分工，只调用需要参与的成员。" ++ LF ++ line "群用途：" ++ LF ++ decode (nullish description "")
      | Custom prompt => line "自定义编排（collaboration-markdown-v1）：" ++ LF ++ decode prompt
      end in
    line "以下是本群用户配置的业务协作规则，不改变授权、工具权限或员工系统规则。" ++ LF ++ rule ++ LF
    ++ line "由你作为协调人分配任务并汇总。员工引用 @{ID} 对应下方成员 ID。A → B 表示你将 A 的实际产出传递给 B。自己承担的任务直接完成，不调用自身。"
    ++ line "有依赖的步骤必须在前一步工具结果返回后再发起，不预编造后续输入。缺少必要信息时向用户提问；失败步骤说明原因，不标记完成。"
    ++ line "使用 todo_update 更新同一份任务清单，完成后汇总成果与待确认事项。".

(** ** Members *)

Definition sameId (i : string) (o : Projections.fields) : bool := bool_decide (asStr (mget "employee_id" o) = Some i).
Definition nonEmptyLine (label : text) (l : list text) : list text :=
  if bool_decide (l = []) then [] else [label ++ joinText (line "、") l].

(** [snapshot] is the first of the employee's snapshots. *)
Definition memberLine (orchestrated : bool) (participant : option ParticipantSession) (expert snapshot : option Projections.fields)
    (i : text) : text :=
  let field k o := o ≫= fun o => groupContextField (mget k o) in
  let displayName := nullish (field "display_name" snapshot) (nullish (field "display_name" expert) i) in
  let handle := nullish (field "handle" expert) i in
  let role := match participant with Some p => match p_role p with Coordinator => line "协调专家" | Member => line "群成员" end | None => line "群成员" end in
  let intro := match field "persona" snapshot with Some t => Some t | None => field "persona" expert end in
  let tools := match snapshot with Some s => decode <$> allowedTools s | None => uniqueStrings [expert ≫= mget "tools"] end in
  let skills := match snapshot with
                | Some s => decode <$> nullish (skillRefsForSnapshot s) []
                | None => uniqueStrings [expert ≫= mget "skills"]
                end in
  let knowledge := uniqueStrings [snapshot ≫= mget "knowledge_refs"; expert ≫= mget "knowledge_refs"] in
  let connectors := uniqueStrings [snapshot ≫= mget "connector_refs"; expert ≫= mget "connector_refs"] in
  joinText LF
    ([u "- " ++ displayName ++ u " (@" ++ handle ++ u ")" ++ line " · " ++ role ++ (if orchestrated then line " · ID: " ++ i else [])]
     ++ match intro with Some t => [line "  介绍：" ++ t] | None => [] end
     ++ nonEmptyLine (line "  工具能力：") tools ++ nonEmptyLine (line "  技能能力：") skills
     ++ nonEmptyLine (line "  知识范围：") knowledge ++ nonEmptyLine (line "  连接器能力：") connectors).

(** ** The solution *)

Definition solutionSection (solution : Projections.fields) : text :=
  let field k := groupContextField (mget k solution) in
  let name := nullish (field "display_name") (decode (nullish (asStr (mget "solution_instance_id" solution)) "")) in
  let tags := uniqueStrings [mget "tags" solution] in
  let optional label v := match v with Some t => [line label ++ t] | None => [] end in
  joinText LF
    ([line "当前解决方案：" ++ name ++ match field "version" with Some v => line "（版本 " ++ v ++ line "）" | None => [] end]
     ++ optional "方案来源："%string (field "solution_id") ++ optional "方案介绍："%string (field "description")
     ++ nonEmptyLine (line "方案标签：") tags
     ++ optional "方案工作流技能："%string (groupContextReference (mget "workflow_skill_ref" solution))
     ++ optional "方案协作说明："%string (field "coordinator_instructions")
     ++ optional "方案交付要求："%string (field "output_requirements")).

(** ** Recent messages *)

Inductive MessageRole : Type := UserRole | AssistantRole | OtherRole.
(** A part that is not text has none. *)
Inductive Content : Type := Whole (t : text) | Parts (l : list (option text)).
(** An entry of the branch; [None] is one that is not a message. *)
Definition BranchEntry : Type := option (MessageRole * Content).

Definition messageText (content : Content) : text :=
  match content with Whole t => t | Parts l => joinText (u " ") (omap (fun t => t) l) end.
Definition recentLine (m : MessageRole * Content) : option text :=
  let normalized := trim (collapse false (messageText m.2)) in
  match m.1 with
  | OtherRole => None
  | role => if bool_decide (normalized = []) then None
            else Some (line (match role with UserRole => "用户" | _ => "Agent" end) ++ u ": " ++ tslice 600 normalized)
  end.
Definition lastFour {A} (l : list A) : list A := drop (length l - 4) l.
Definition recentMessages (branch : list BranchEntry) : list text := omap recentLine (lastFour (omap (fun e => e) branch)).
Definition recentSection (employeeId : string) (branch : list BranchEntry) : list text :=
  let messages := recentMessages branch in
  if bool_decide (messages = []) then []
  else [line "参与者 " ++ decode employeeId ++ line " 的近期消息：" ++ LF ++ joinText LF messages].

Definition boundGroupContext (value : text) : text :=
  if Z.of_nat (length value) <=? MAX_GROUP_CONTEXT_CHARS then value
  else
    let head := MAX_GROUP_CONTEXT_CHARS / 2 in
    let tail := MAX_GROUP_CONTEXT_CHARS - head - 1 in
    take (Z.to_nat head) value ++ line "…" ++ drop (length value - Z.to_nat tail) value.

(** ** The whole context *)

Section Build.
(** The row of the conversation, its participants, and what the store lists for its owner. *)
Context (metadata : ConversationRow) (members : list ParticipantSession) (experts snapshots : list Projections.fields)
  (solution : option Projections.fields) (branch : string -> list BranchEntry).

Definition orchestrated : bool := bool_decide (is_Some (orchestration_json metadata)).

Definition orderedIds : list text :=
  uniqueStrings [Some (JArr (JStr <$> (p_employee_id <$> members)));
                 match solution ≫= mget "expert_employee_ids" with Some (JArr l) => Some (JArr l) | _ => Some (JArr []) end].

Definition memberLines : list text :=
  map (fun i => memberLine orchestrated (List.find (fun p => bool_decide (decode (p_employee_id p) = i)) (reverse members))
                  (List.find (fun o => bool_decide (asText (mget "employee_id" o) = Some i)) experts)
                  (List.find (fun o => bool_decide (asText (mget "employee_id" o) = Some i)) snapshots) i) orderedIds.

Definition sections : list text :=
  match solution with Some s => [solutionSection s] | None => [] end
  ++ (match (if orchestrated then None else match solution with Some _ => None | None => groupContextField (JStr <$> description metadata) end) with
      | Some t => [line "群简介：" ++ t] | None => [] end)
  ++ (if bool_decide (memberLines = []) then []
      else [line "群聊成员信息（仅作协作参考，实际权限以当前员工快照为准）：" ++ LF ++ joinText LF memberLines]).

Definition optionalSections (target : string) : list text :=
  concat (map (fun p => if String.eqb (p_employee_id p) target then [] else recentSection (p_employee_id p) (branch (p_employee_id p))) members).

Definition requiredContext (target : string) : option text :=
  (fun o => orchestrationContext o (description metadata) (bool_decide (Some target = coordinator_employee_id metadata))
            ++ LF ++ LF ++ joinText (LF ++ LF) sections) <$> orchestration_json metadata.

(** [None]: the configuration of the group is too long and the delivery fails. *)
Definition buildGroupContext (target : string) : option text :=
  match requiredContext target with
  | Some required =>
      if EXECUTION_CONTEXT_BUDGET <? Z.of_nat (length required) then None
      else Some (required ++ LF ++ LF ++
                 take (Z.to_nat (Z.max 0 (EXECUTION_CONTEXT_BUDGET - Z.of_nat (length required) - 2))) (joinText (LF ++ LF) (optionalSections target)))
  | None => Some (boundGroupContext (joinText (LF ++ LF) (sections ++ optionalSections target)))
  end.
End Build.

(** ** Lengths *)

Lemma boundGroupContext_length value : Z.of_nat (length (boundGroupContext value)) <= 8000.
Proof.
  unfold boundGroupContext. destruct (Z.leb_spec (Z.of_nat (length value)) MAX_GROUP_CONTEXT_CHARS) as [H|H]; unfold MAX_GROUP_CONTEXT_CHARS in H.
  - lia.
  - change (Z.to_nat (MAX_GROUP_CONTEXT_CHARS / 2)) with 4000%nat.
    change (Z.to_nat (MAX_GROUP_CONTEXT_CHARS - MAX_GROUP_CONTEXT_CHARS / 2 - 1)) with 3999%nat.
    rewrite !length_app, length_take, length_drop. change (length (line "…")) with 1%nat. lia.
Qed.

(** The context of a member stays within its budget: at most 8000 code units in a group that
    follows no rule of its own, at most 64,000 and the two of a separator in one that does. *)
Theorem group_context_is_bounded metadata members experts snapshots solution branch target context :
  buildGroupContext metadata members experts snapshots solution branch target = Some context ->
  Z.of_nat (length context) <= if orchestrated metadata then EXECUTION_CONTEXT_BUDGET + 2 else MAX_GROUP_CONTEXT_CHARS.
Proof.
  unfold buildGroupContext, orchestrated. destruct (requiredContext _ _ _ _ _ _) as [required|] eqn:Hr.
  - assert (Ho : is_Some (orchestration_json metadata)) by (unfold requiredContext in Hr; by destruct (orchestration_json metadata)).
    rewrite (bool_decide_true _ Ho).
    destruct (Z.ltb_spec EXECUTION_CONTEXT_BUDGET (Z.of_nat (length required))) as [|Hle]; [done|]. intros [= <-].
    set (optional := joinText _ (optionalSections _ _ _)). clearbody optional.
    rewrite length_app. cbn [length]. rewrite length_take. unfold EXECUTION_CONTEXT_BUDGET in *. lia.
  - assert (Ho : orchestration_json metadata = None) by (unfold requiredContext in Hr; by destruct (orchestration_json metadata)).
    rewrite Ho, bool_decide_false by (by intros [? ?]). intros [= <-]. apply boundGroupContext_length.
Qed.

(** The separator is not counted: a rule that fills the budget makes a context two units longer. *)
Lemma group_context_overruns metadata members experts snapshots solution branch target required :
  requiredContext metadata members experts snapshots solution target = Some required ->
  Z.of_nat (length required) = EXECUTION_CONTEXT_BUDGET ->
  exists context, buildGroupContext metadata members experts snapshots solution branch target = Some context /\
    Z.of_nat (length context) = EXECUTION_CONTEXT_BUDGET + 2.
Proof.
  intros Hr Hl. unfold buildGroupContext. rewrite Hr, (proj2 (Z.ltb_ge _ _)) by lia. eexists. split; [done|].
  set (optional := joinText _ (optionalSections _ _ _)). clearbody optional.
  rewrite !length_app, length_take. change (length LF) with 1%nat. unfold EXECUTION_CONTEXT_BUDGET in *. lia.
Qed.
