(* ===== verification/Delivery.v ===== *)
(** Who runs: how a message finds its employees and what is checked before one of them runs
    ([prompt], [resolveTargetEmployeeIds], [ensureRecord], [resolveAuthorization],
    [deliverToParticipant], [mention] and [resolveEmployeeReference] of pi/session-host.ts, and
    services/group-message-delivery.ts).

    The tables are those of Conversations and Projections, the registry of identities that of
    ExecAuth.  What happens once a run is admitted is SessionRuns.  The session files and fresh
    directories that [ensureRecord] opens ([Files]) and the branch of a session are arguments. *)

From S2P Require Import Prelude Scope Sql Regex Codec ExecAuth Projections Conversations GroupContext.
Local Open Scope Z_scope.

Definition MAX_DELEGATE_CALLS : Z := 4.
Definition MAX_DELEGATE_PROMPT_BUDGET : Z := 32000.

Record SessionRecord : Type := mkSession {
  rc_conversationId : string; rc_employeeId : option string; rc_role : ParticipantRole; rc_workspace : string;
  rc_permissionMode : PermissionMode; rc_aborting : bool; rc_delegateCalls : Z; rc_delegatePromptChars : Z;
}.
Record Host : Type := mkHost {
  h_store : Store; h_projections : ProjectionDb; h_registry : Registry; h_records : list (string * SessionRecord) }.
Definition set_store (s : Store) (w : Host) : Host := mkHost s (h_projections w) (h_registry w) (h_records w).
Definition set_registry (r : Registry) (w : Host) : Host := mkHost (h_store w) (h_projections w) r (h_records w).
Definition set_records (l : list (string * SessionRecord)) (w : Host) : Host := mkHost (h_store w) (h_projections w) (h_registry w) l.

Record GroupMessageSource : Type := mkOrigin { gs_type : SourceType; gs_id : string; gs_displayName : option string }.
Record GroupMessageCommand : Type := mkCommand {
  gc_conversationId : string; gc_source : GroupMessageSource; gc_targets : list string; gc_text : text;
  gc_idempotencyKey : option string; gc_logicalMessageId : string; gc_toolCallId : option string;
  gc_caller : option ExecAuth.AuthenticatedCaller; gc_background : bool;
}.

Inductive host_error : Type :=
| SessionAuthorizationError (message : string)
| PreExecutionAuthorizationError (message : string)
| HostError (message : string).

Definition notAuthorized : host_error := SessionAuthorizationError "Conversation employee is not authorized locally".

Record SessionAuthorization : Type := mkAuthorization {
  au_caller : ExecAuth.AuthenticatedCaller; au_employeeId : string; au_snapshot : Projections.fields;
  au_mentioned : option (list string); au_roster : option (list string); au_peerMentionAllowed : bool;
  au_permissionMode : PermissionMode; au_generation : Z; au_source : option GroupMessageSource; au_background : bool;
  au_groupContext : option text; au_orchestration : option GroupOrchestration;
}.

(** ** Reading the store *)

Definition liftP {A} (r : result projection_error A) : result host_error A :=
  match r with Ok a => Ok a | Err _ => Err (HostError "SyntaxError") end.
(** [Boolean(v)] of a column *)
Definition present (v : option string) : bool := negb (falsy v).
Definition metadataOf (w : Host) (conversationId : string) : option ConversationRow :=
  sql_get (is_row conversationId) (rows (h_store w)).
Definition isGroup (m : ConversationRow) : bool := String.eqb (kind m) "group" || present (coordinator_employee_id m).
Definition participantIds (w : Host) (conversationId : string) : list string :=
  p_employee_id <$> listConversationParticipants (h_store w) conversationId false.

Definition loadedExperts (w : Host) (c : ExecAuth.AuthenticatedCaller) : result host_error (list Projections.fields) :=
  liftP (listLoadedExperts (h_projections w) (ExecAuth.c_tenantId c) (Some (callerMemberId c)) false).
Definition ownSnapshots (w : Host) (c : ExecAuth.AuthenticatedCaller) : result host_error (list Projections.fields) :=
  liftP (listSnapshots (h_projections w) (ExecAuth.c_tenantId c) (Some (callerMemberId c))).
Definition ownSolutions (w : Host) (c : ExecAuth.AuthenticatedCaller) : result host_error (list Projections.fields) :=
  liftP (listSolutions (h_projections w) (ExecAuth.c_tenantId c) (Some (callerMemberId c))).

Definition idOf (o : Projections.fields) : option string := asStr (mget "employee_id" o).
Definition isRevoked (o : Projections.fields) : bool := match mget "revoked" o with Some (JBool b) => b | _ => false end.
Definition unrevoked (experts : list Projections.fields) : list string := omap idOf (List.filter (fun e => negb (isRevoked e)) experts).

Definition solutionOf (w : Host) (c : ExecAuth.AuthenticatedCaller) (m : ConversationRow) : result host_error (option Projections.fields) :=
  if present (solution_ref m) then
    solutions ← ownSolutions w c;
    Ok (List.find (fun o => bool_decide (asStr (mget "solution_instance_id" o) = solution_ref m)) solutions)
  else Ok None.
Definition inactiveSolution (solution : option Projections.fields) : bool :=
  match solution ≫= fun o => asStr (mget "status" o) with Some status => negb (String.eqb status "applied") | None => false end.
Definition solutionExperts (solution : option Projections.fields) : option (list string) :=
  match solution ≫= mget "expert_employee_ids" with Some (JArr l) => Some (stringsOf l) | _ => None end.

(** The employees of a group without an index of its own. *)
Definition impliedRoster (w : Host) (c : ExecAuth.AuthenticatedCaller) (solution : option Projections.fields) : result host_error (list string) :=
  match solutionExperts solution with
  | Some ids => Ok ids
  | None => experts ← loadedExperts w c; Ok (unrevoked experts)
  end.

(** [!v] of a member *)
Definition falsyValue (v : option Projections.json) : bool :=
  match v with
  | None | Some JNull | Some (JBool false) => true
  | Some (JInt z) => z =? 0
  | Some (JStr s) => String.eqb s ""
  | _ => false
  end.

(** ** Whom a message is for *)

Definition targetsOf (experts : list Projections.fields) (mentions : list string) : list (option string) :=
  map (fun handle => List.find (fun e => bool_decide (asStr (mget "handle" e) = Some handle)) experts ≫= idOf) (distinct [] mentions).
Definition inRoster (roster : list string) (t : option string) : bool :=
  match t with Some i => negb (String.eqb i "") && bool_decide (i ∈ roster) | None => false end.

Definition resolveTargetEmployeeIds (w : Host) (m : ConversationRow) (caller : option ExecAuth.AuthenticatedCaller) (mentions : list string)
    : result host_error (list string) :=
  let coordinator := match coordinator_employee_id m with Some c => Some c | None => entry_employee_id m end in
  match caller with
  | None => if present coordinator then
              if negb (isGroup m) && negb (bool_decide (mentions = [])) then Err (SessionAuthorizationError "mentions are only supported for group conversations")
              else Ok (match coordinator with Some c => [c] | None => [] end)
            else Ok ["__conversation__"%string]
  | Some c =>
      if negb (isGroup m) then
        if negb (bool_decide (mentions = [])) then Err (SessionAuthorizationError "mentions are only supported for group conversations")
        else match coordinator with
             | Some i => if String.eqb i "" then Err (SessionAuthorizationError "Conversation requires a locally authorized employee snapshot") else Ok [i]
             | None => Err (SessionAuthorizationError "Conversation requires a locally authorized employee snapshot")
             end
      else
        solution ← solutionOf w c m;
        _ ← require (negb (inactiveSolution solution)) (SessionAuthorizationError "Solution is not active");
        let persisted := participantIds w (id m) in
        _ ← require (negb (bool_decide (is_Some (orchestration_json m)) && bool_decide (persisted = []))) (SessionAuthorizationError "Custom group participant index is missing");
        roster ← (if bool_decide (persisted = []) then impliedRoster w c solution else Ok persisted);
        _ ← require (negb (present (solution_ref m) && bool_decide (solution = None))) (SessionAuthorizationError "Solution is no longer authorized locally");
        if bool_decide (mentions = []) then
          Ok (match coordinator with Some i => if negb (String.eqb i "") && bool_decide (i ∈ roster) then [i] else [] | None => [] end)
        else
          experts ← loadedExperts w c;
          let targets := targetsOf experts mentions in
          _ ← require (forallb (inRoster roster) targets) (SessionAuthorizationError "Mentioned employee is not in the authorized group roster");
          Ok (omap (fun t => t) targets)
  end.

(** ** Session records *)

Definition recordKey (conversationId : string) (employeeId : option string) : string :=
  encodeScope [conversationId; nullish employeeId "__conversation__"%string].

(** What the session manager and the file system give a new record: the session file it opens or
    creates, its identifier, the directory chosen when the tables name none, and whether the paths
    lie in the managed directories. *)
Record Files : Type := mkFiles { fs_sessionFile : string; fs_sessionId : string; fs_newWorkspace : string; fs_managed : bool }.

Section Host.
Context {Obj : Type} (stringify : Obj -> string) (parseObject : string -> option Obj).
Context (files : string -> option string -> Files) (branch : string -> string -> list BranchEntry).

Definition nonEmptyOr (v : option string) (d : string) : string := match v with Some s => if String.eqb s "" then d else s | None => d end.

Definition set_permission (p : PermissionMode) (r : SessionRecord) : SessionRecord :=
  mkSession (rc_conversationId r) (rc_employeeId r) (rc_role r) (rc_workspace r) p (rc_aborting r) (rc_delegateCalls r) (rc_delegatePromptChars r).

(** [{ ...indexed, sessionFile, workspace }] *)
Definition withFiles (c : ConversationRecord (Obj := Obj)) (file workspace : string) : ConversationRecord (Obj := Obj) :=
  mkRecord (c_id c) file workspace (c_title c) (c_description c) (c_orchestration c) (c_kind c) (c_labels c) (c_state c)
    (c_entry c) (c_coordinator c) (c_solution c) (c_tenantId c) (c_memberId c) (c_schedule c) (c_generation c)
    (c_permission c) (c_lastRead c) (c_createdAt c) (c_updatedAt c) (c_retry c).

Definition versionOf (w : Host) (m : ConversationRow) (employeeId : string) : result host_error string :=
  experts ← liftP (listLoadedExperts (h_projections w) (tenant_id m) (member_id m) true);
  Ok (nullish (List.find (sameId employeeId) experts ≫= fun e => asStr (mget "version" e)) ""%string).

Definition ensureRecord (w : Host) (conversationId : string) (employeeId : option string) (now : Z) : Host * result host_error SessionRecord :=
  match metadataOf w conversationId, getConversation parseObject (h_store w) conversationId with
  | Some m, Some indexed =>
      let resolved := match employeeId with Some e => Some e | None => match entry_employee_id m with Some e => Some e | None => coordinator_employee_id m end end in
      let k := recordKey conversationId resolved in
      match mget k (h_records w) with
      | Some existing =>
          let existing := set_permission (permission_mode m) existing in
          (set_records (mset k existing (h_records w)) w, Ok existing)
      | None =>
          let named := match resolved with Some e => if String.eqb e "" then None else Some e | None => None end in
          let participant := named ≫= getConversationParticipant (h_store w) conversationId in
          let f := files conversationId resolved in
          let workspace := nonEmptyOr (p_workspace <$> participant) (nonEmptyOr (Some (Conversations.workspace m)) (fs_newWorkspace f)) in
          let role := match participant with
                      | Some p => p_role p
                      | None => if bool_decide (is_Some named) && bool_decide (coordinator_employee_id m = resolved) then Coordinator else Member
                      end in
          let version := match named with
                         | Some e => match versionOf w m e with Ok v => Ok (nullish (p_employee_version <$> participant) v) | Err x => Err x end
                         | None => Ok ""%string
                         end in
          match (if fs_managed f then version else Err (HostError "Path is outside the managed directory")) with
          | Err e => (w, Err e)
          | Ok version =>
              let store := match named with
                | Some e =>
                    let s := (upsertConversationParticipant (h_store w)
                      (mkPInput conversationId e role (fs_sessionFile f) workspace (Some (fs_sessionId f)) version (p_created_at <$> participant) None) now).1 in
                    if negb (String.eqb (kind m) "group") && negb (present (coordinator_employee_id m))
                    then saveConversation stringify s (withFiles indexed (fs_sessionFile f) workspace) false now else s
                | None => saveConversation stringify (h_store w) (withFiles indexed (fs_sessionFile f) workspace) false now
                end in
              let record := mkSession conversationId named role workspace (permission_mode m) false 0 0 in
              (mkHost store (h_projections w) (h_registry w) (mset k record (h_records w)), Ok record)
          end
      end
  | _, _ => (w, Err (HostError "Conversation does not exist"))
  end.

(** ** Authorisation of a run *)

Definition unavailable (expert : Projections.fields) : option host_error :=
  if falsyValue (mget "availability_reason" expert) && match asStr (mget "status" expert) with Some s => String.eqb s "active" | None => true end
  then None
  else Some (SessionAuthorizationError
    (if bool_decide (asStr (mget "availability_reason" expert) = Some "employee_dependency_unavailable"%string)
     then "Employee model or provider is unavailable" else "Employee is unavailable")).

Definition rosterOf (w : Host) (m : ConversationRow) (employeeId : string) (experts : list Projections.fields) : result host_error (option (list string)) :=
  if isGroup m then
    let persisted := participantIds w (id m) in
    _ ← require (negb (bool_decide (persisted = []) && bool_decide (is_Some (orchestration_json m)))) (SessionAuthorizationError "Custom group participant index is missing");
    let roster := if bool_decide (persisted = []) then unrevoked experts else persisted in
    _ ← require (bool_decide (employeeId ∈ roster)) (SessionAuthorizationError "Employee is not in the authorized group roster");
    Ok (Some roster)
  else Ok None.

(** The generation of the caller's identity, registered when there is none. *)
Definition generationOf (w : Host) (c : ExecAuth.AuthenticatedCaller) (managerNow : Z) : Host * Z :=
  if present (ExecAuth.c_tenantId c) then
    let '(r, identity) := ExecAuth.get (h_registry w) (nullish (ExecAuth.c_tenantId c) ""%string) (callerMemberId c) managerNow in
    match identity with
    | Some i => (set_registry r w, i_generation i)
    | None => let '(r, identity) := register r c managerNow in (set_registry r w, nullish (i_generation <$> identity) 0)
    end
  else (w, 0).

(** Of the conversation's row, [None] when it is gone. *)
Definition authorizationFor (w : Host) (record : SessionRecord) (c : ExecAuth.AuthenticatedCaller)
    : result host_error (option ConversationRow * string * list Projections.fields * option (list string) * Projections.fields) :=
  let metadata := metadataOf w (rc_conversationId record) in
  let tenant := metadata ≫= tenant_id in
  let member := metadata ≫= member_id in
  _ ← require (negb (present tenant && negb (bool_decide (tenant = ExecAuth.c_tenantId c)))) notAuthorized;
  _ ← require (negb (present member && negb (bool_decide (member = Some (callerMemberId c))))) notAuthorized;
  let employee := match rc_employeeId record with
                  | Some e => Some e
                  | None => match metadata ≫= entry_employee_id with Some e => Some e | None => metadata ≫= coordinator_employee_id end
                  end in
  let employeeId := nullish employee ""%string in
  _ ← require (negb (String.eqb employeeId "")) (SessionAuthorizationError "Conversation has no authorized employee");
  experts ← loadedExperts w c;
  match List.find (sameId employeeId) experts with
  | None => Err notAuthorized
  | Some expert =>
      _ ← require (negb (isRevoked expert)) notAuthorized;
      match unavailable expert with
      | Some e => Err e
      | None =>
          roster ← match metadata with Some m => rosterOf w m employeeId experts | None => Ok None end;
          snapshots ← ownSnapshots w c;
          match List.find (fun s => sameId employeeId s && bool_decide (asStr (mget "version" s) = asStr (mget "version" expert))) snapshots with
          | None => Err (SessionAuthorizationError "Conversation employee snapshot is not available locally")
          | Some snapshot => Ok (metadata, employeeId, experts, roster, snapshot)
          end
      end
  end.

Definition mentionedIds (experts : list Projections.fields) (roster : option (list string)) (mentions : list string) : option (list string) :=
  if bool_decide (mentions = []) then None
  else Some (omap idOf (List.filter (fun e =>
         match roster with None => true | Some r => match idOf e with Some i => bool_decide (i ∈ r) | None => false end end
         && match asStr (mget "handle" e) with Some h => bool_decide (h ∈ mentions) | None => false end) experts)).

Definition resolveAuthorization (w : Host) (record : SessionRecord) (c : ExecAuth.AuthenticatedCaller) (mentions : list string) (managerNow : Z)
    : Host * result host_error SessionAuthorization :=
  match authorizationFor w record c with
  | Err e => (w, Err e)
  | Ok (metadata, employeeId, experts, roster, snapshot) =>
      let '(w, generation) := generationOf w c managerNow in
      (w, Ok (mkAuthorization c employeeId snapshot (mentionedIds experts roster mentions) roster
                (bool_decide (rc_role record = Coordinator) && present (metadata ≫= coordinator_employee_id))
                (nullish (permission_mode <$> metadata) ReadOnly) generation None false None None))
  end.

(** ** Delivery to one employee *)

(** Every other member of the group has its record opened for its last messages. *)
Fixpoint ensureOthers (w : Host) (conversationId target : string) (members : list ParticipantSession) (now : Z) : Host * result host_error unit :=
  match members with
  | [] => (w, Ok tt)
  | p :: members =>
      if String.eqb (p_employee_id p) target then ensureOthers w conversationId target members now
      else match ensureRecord w conversationId (Some (p_employee_id p)) now with
           | (w, Err e) => (w, Err e)
           | (w, Ok _) => ensureOthers w conversationId target members now
           end
  end.

Definition groupContextOf (w : Host) (m : ConversationRow) (target : string) (now : Z) : Host * result host_error text :=
  let members := listConversationParticipants (h_store w) (id m) false in
  match (experts ← liftP (listLoadedExperts (h_projections w) (tenant_id m) (member_id m) true);
         snapshots ← liftP (listSnapshots (h_projections w) (tenant_id m) (member_id m));
         solutions ← (if present (solution_ref m) then liftP (listSolutions (h_projections w) (tenant_id m) (member_id m)) else Ok []);
         let solution := List.find (fun o => bool_decide (asStr (mget "solution_instance_id" o) = solution_ref m)) solutions in
         match buildGroupContext m members experts snapshots solution (branch (id m)) target with
         | Some t => Ok t
         | None => Err (HostError "Group configuration exceeds execution context budget")
         end) with
  | Err e => (w, Err e)
  | Ok t => match ensureOthers w (id m) target members now with (w, Ok _) => (w, Ok t) | (w, Err e) => (w, Err e) end
  end.

Definition ownedBy (m : ConversationRow) (c : ExecAuth.AuthenticatedCaller) : bool :=
  negb ((present (tenant_id m) && negb (bool_decide (tenant_id m = ExecAuth.c_tenantId c)))
        || (present (member_id m) && negb (bool_decide (member_id m = Some (callerMemberId c))))).

(** The employees a group's caller may reach. *)
Definition allowedIds (w : Host) (m : ConversationRow) (c : ExecAuth.AuthenticatedCaller) : result host_error (list string) :=
  let persisted := participantIds w (id m) in
  solution ← solutionOf w c m;
  _ ← require (negb (present (solution_ref m) && bool_decide (solution = None))) (SessionAuthorizationError "Solution is no longer authorized locally");
  _ ← require (negb (inactiveSolution solution)) (SessionAuthorizationError "Solution is not active");
  _ ← require (negb (bool_decide (is_Some (orchestration_json m)) && bool_decide (persisted = []))) (SessionAuthorizationError "Custom group participant index is missing");
  if String.eqb (kind m) "group" && negb (bool_decide (persisted = [])) then Ok persisted else impliedRoster w c solution.

Definition reachable (w : Host) (m : ConversationRow) (c : ExecAuth.AuthenticatedCaller) (employeeId : string) : result host_error unit :=
  if isGroup m then
    ids ← allowedIds w m c;
    require (bool_decide (employeeId ∈ ids)) (SessionAuthorizationError "Employee is not in the authorized local roster or solution roster")
  else require (bool_decide (entry_employee_id m = Some employeeId)) (SessionAuthorizationError "Employee is not the private conversation participant").

(** [PreExecutionAuthorizationError] for a refusal. *)
Definition beforeExecution (e : host_error) : host_error :=
  match e with SessionAuthorizationError message => PreExecutionAuthorizationError message | e => e end.

Definition withSource (a : SessionAuthorization) (cmd : GroupMessageCommand) (context : option text) (o : option GroupOrchestration) : SessionAuthorization :=
  mkAuthorization (au_caller a) (au_employeeId a) (au_snapshot a) (au_mentioned a) (au_roster a) (au_peerMentionAllowed a)
    (au_permissionMode a) (au_generation a) (Some (gc_source cmd)) (gc_background cmd) context o.

Definition mentionsItself (cmd : GroupMessageCommand) (employeeId : string) : bool :=
  match gs_type (gc_source cmd) with Employee => String.eqb (gs_id (gc_source cmd)) employeeId | Human => false end.

(** A run that is admitted: the record it runs on, its command, and what it is authorised for. *)
Record Admission : Type := mkAdmission { ad_record : SessionRecord; ad_command : GroupMessageCommand; ad_authorization : option SessionAuthorization }.

(** The end of [deliverToParticipant], with the context of a group. *)
Definition beginRun (w : Host) (cmd : GroupMessageCommand) (m : ConversationRow) (employeeId : string) (record : SessionRecord)
    (a : SessionAuthorization) (context : result host_error (option text)) : Host * result host_error Admission :=
  match context with
  | Err e => (w, Err e)
  | Ok context =>
      let o := if String.eqb (kind m) "group" then orchestration_json m else None in
      if mentionsItself cmd employeeId then (w, Err (SessionAuthorizationError "An employee cannot mention itself"))
      else (w, Ok (mkAdmission record cmd (Some (withSource a cmd context o))))
  end.

Definition deliverToParticipant (w : Host) (cmd : GroupMessageCommand) (employeeId : string) (now managerNow : Z) : Host * result host_error Admission :=
  match gc_caller cmd with
  | None =>
      match ensureRecord w (gc_conversationId cmd) (Some employeeId) now with
      | (w, Ok record) => (w, Ok (mkAdmission record cmd None))
      | (w, Err e) => (w, Err e)
      end
  | Some c =>
      match metadataOf w (gc_conversationId cmd) with
      | None => (w, Err (SessionAuthorizationError "Conversation does not exist"))
      | Some m =>
          if negb (ownedBy m c) then (w, Err notAuthorized)
          else
            match reachable w m c employeeId with
            | Err e => (w, Err e)
            | Ok _ =>
                match ensureRecord w (gc_conversationId cmd) (Some employeeId) now with
                | (w, Err e) => (w, Err e)
                | (w, Ok record) =>
                    match resolveAuthorization w record c [] managerNow with
                    | (w, Err e) => (w, Err (beforeExecution e))
                    | (w, Ok a) =>
                        if String.eqb (kind m) "group"
                        then let '(w, t) := groupContextOf w m employeeId now in beginRun w cmd m employeeId record a (Some <$> t)
                        else beginRun w cmd m employeeId record a (Ok None)
                    end
                end
            end
      end
  end.

(** ** Delivery to several *)

(** Every target is tried, in order; the delivery succeeds when all do. *)
Fixpoint deliverAll (w : Host) (cmd : GroupMessageCommand) (targets : list string) (now managerNow : Z) : Host * list (result host_error Admission) :=
  match targets with
  | [] => (w, [])
  | t :: targets =>
      let '(w, r) := deliverToParticipant w cmd t now managerNow in
      let '(w, rs) := deliverAll w cmd targets now managerNow in
      (w, r :: rs)
  end.

Definition deliver (w : Host) (cmd : GroupMessageCommand) (now managerNow : Z) : Host * result host_error (list (result host_error Admission)) :=
  let targets := distinct [] (gc_targets cmd) in
  if bool_decide (targets = []) then (w, Err (HostError "At least one group message target is required"))
  else if existsb (mentionsItself cmd) targets then (w, Err (HostError "An employee cannot mention itself"))
  else let '(w, rs) := deliverAll w cmd targets now managerNow in (w, Ok rs).

(** ** A message of the member *)

Definition resetDelegation (conversationId : string) (r : SessionRecord) : SessionRecord :=
  if String.eqb (rc_conversationId r) conversationId
  then mkSession (rc_conversationId r) (rc_employeeId r) (rc_role r) (rc_workspace r) (rc_permissionMode r) (rc_aborting r) 0 0
  else r.
Definition resetAll (conversationId : string) (w : Host) : Host :=
  set_records (map (fun kr => (kr.1, resetDelegation conversationId kr.2)) (h_records w)) w.

Definition prompt (w : Host) (conversationId : string) (t : text) (caller : option ExecAuth.AuthenticatedCaller) (mentions : list string)
    (logicalMessageId : string) (idempotencyKey : option string) (background : bool) (now managerNow : Z)
    : Host * result host_error (list (result host_error Admission)) :=
  match metadataOf w conversationId with
  | None => (w, Err (HostError "Conversation does not exist"))
  | Some m =>
      match resolveTargetEmployeeIds w m caller mentions with
      | Err e => (w, Err e)
      | Ok targets =>
          let source := nullish (callerMemberId <$> caller) "human"%string in
          deliver (resetAll conversationId w)
            (mkCommand conversationId (mkOrigin Human source None) targets t idempotencyKey logicalMessageId None caller background) now managerNow
      end
  end.

(** ** A message of a coordinator *)

Definition matchesReference (reference : string) (e : Projections.fields) : bool :=
  bool_decide (idOf e = Some reference) || bool_decide (asStr (mget "handle" e) = Some reference)
  || bool_decide (asStr (mget "display_name" e) = Some reference).

Definition resolveEmployeeReference (w : Host) (record : SessionRecord) (c : ExecAuth.AuthenticatedCaller) (reference : string) : result host_error string :=
  let metadata := metadataOf w (rc_conversationId record) in
  let persisted := participantIds w (rc_conversationId record) in
  solution ← match metadata with Some m => solutionOf w c m | None => Ok None end;
  roster ← (if bool_decide (kind <$> metadata = Some "group"%string) && negb (bool_decide (persisted = [])) then Ok persisted else impliedRoster w c solution);
  experts ← loadedExperts w c;
  match omap idOf (List.filter (fun e => negb (isRevoked e) && match idOf e with Some i => bool_decide (i ∈ roster) | None => false end && matchesReference reference e) experts) with
  | [i] => Ok i
  | _ => Err (SessionAuthorizationError "Mentioned employee is not in the authorized local roster or solution roster")
  end.

Definition mentionPrompt (task : text) (context : option text) : text :=
  joinText (LF ++ LF) (List.filter (fun t => negb (bool_decide (t = [])))
    [task; match context with Some c => if bool_decide (c = []) then [] else u "Context:" ++ LF ++ c | None => [] end]).

Definition countDelegation (chars : Z) (r : SessionRecord) : SessionRecord :=
  mkSession (rc_conversationId r) (rc_employeeId r) (rc_role r) (rc_workspace r) (rc_permissionMode r) (rc_aborting r)
    (rc_delegateCalls r + 1) (rc_delegatePromptChars r + chars).

(** [k] is the key of the record; [signalled] that the tool call was aborted. *)
Definition mention (w : Host) (k : string) (record : SessionRecord) (a : SessionAuthorization) (toolCallId reference : string)
    (task : text) (context : option text) (signalled : bool) (now managerNow : Z) : Host * result host_error (list (result host_error Admission)) :=
  match rc_role record, rc_employeeId record with
  | Coordinator, Some me =>
      if rc_aborting record || signalled then (w, Err (HostError "Mention aborted"))
      else
        match resolveEmployeeReference w record (au_caller a) reference with
        | Err e => (w, Err e)
        | Ok target =>
            if String.eqb target me then (w, Err (HostError "An employee cannot mention itself"))
            else
              let t := mentionPrompt task context in
              let chars := Z.of_nat (length t) in
              if MAX_DELEGATE_CALLS <=? rc_delegateCalls record then (w, Err (HostError "Mention limit reached"))
              else if MAX_DELEGATE_PROMPT_BUDGET <? rc_delegatePromptChars record + chars then (w, Err (HostError "Mention prompt budget exceeded"))
              else
                let w := set_records (mset k (countDelegation chars record) (h_records w)) w in
                deliver w (mkCommand (rc_conversationId record) (mkOrigin Employee me (asStr (mget "display_name" (au_snapshot a)))) [target] t
                             (Some ("mention:" +:+ rc_conversationId record +:+ ":" +:+ toolCallId +:+ ":" +:+ target)%string)
                             (rc_conversationId record +:+ ":" +:+ toolCallId)%string (Some toolCallId) (Some (au_caller a)) (au_background a)) now managerNow
        end
  | _, _ => (w, Err (HostError "Only a group coordinator can mention another employee"))
  end.

(** * What a delivery leaves as it was *)

(** An employee's identifier, as against the empty one and the name reserved for the conversation itself. *)
Definition realId (e : string) : Prop := e <> ""%string /\ e <> "__conversation__"%string.

(** Records are filed under the conversation and the employee they hold. *)
Definition recordsOk (w : Host) : Prop := forall k r, mget k (h_records w) = Some r ->
  exists x, k = encodeScope [rc_conversationId r; x] /\ (realId x -> rc_employeeId r = Some x).
Definition hostOk (w : Host) : Prop :=
  recordsOk w /\ (forall p, p ∈ participants (h_store w) -> realId (p_employee_id p)).

Lemma elem_of_participantIds w conv e : e ∈ participantIds w conv <->
  exists p, p ∈ participants (h_store w) /\ p_conversation_id p = conv /\ p_employee_id p = e /\ active p = true.
Proof.
  unfold participantIds, listConversationParticipants. rewrite list_elem_of_fmap. split.
  - intros (p & -> & [Hp Hq]%elem_of_order_by%elem_of_sql_select). boolify. naive_solver.
  - intros (p & Hp & Hc & <- & Ha). exists p. split; [done|]. apply elem_of_order_by, elem_of_sql_select.
    by rewrite Hc, String.eqb_refl, Ha.
Qed.

Lemma upsert_participants s i now p : p ∈ participants (upsertConversationParticipant s i now).1 ->
  p ∈ participants s \/ (p_conversation_id p = pi_conversation_id i /\ p_employee_id p = pi_employee_id i
    /\ (active p = true -> (exists q, q ∈ participants s /\ p_conversation_id q = p_conversation_id p /\ p_employee_id q = p_employee_id p /\ active q = true)
        \/ getConversationParticipant s (pi_conversation_id i) (pi_employee_id i) = None)).
Proof.
  unfold upsertConversationParticipant, sql_upsert. cbn. case_match eqn:E.
  - intros (q & Hq & ->)%elem_of_sql_update. destruct (is_participant _ _ q) eqn:Hi; [|by left]. right.
    apply is_participant_iff in Hi as [H1 H2]. cbn. split_and!; [done..|]. intros Ha. left. by exists q.
  - intros [Hp|Hp%list_elem_of_singleton]%elem_of_app; [by left|]. right. subst p. cbn. split_and!; [done..|].
    intros _. right. unfold getConversationParticipant. apply sql_get_None. intros r Hr. apply not_true_iff_false. intros Ht.
    apply not_true_iff_false in E. apply E. apply existsb_exists. exists r. by rewrite <- list_elem_of_In.
Qed.

Lemma upsert_keeps s i now p : p ∈ participants s ->
  exists q, q ∈ participants (upsertConversationParticipant s i now).1 /\ p_conversation_id q = p_conversation_id p
    /\ p_employee_id q = p_employee_id p /\ p_removed_at q = p_removed_at p.
Proof.
  intros Hp. unfold upsertConversationParticipant, sql_upsert. cbn. case_match.
  - exists (if is_participant (pi_conversation_id i) (pi_employee_id i) p then upsert_set i now p else p).
    split; [apply elem_of_sql_update; by exists p|]. by case_match.
  - exists p. split; [|done]. apply elem_of_app. by left.
Qed.

Lemma save_participants s rec b now : participants (saveConversation stringify s rec b now) = participants s.
Proof. reflexivity. Qed.

(** What a step on the conversation [conv] may change: its participants, by those in [added]. *)
Record frame (conv : string) (added : string -> Prop) (w w' : Host) : Prop := mkFrame {
  frame_projections : h_projections w' = h_projections w;
  frame_ok : hostOk w -> hostOk w';
  frame_keeps : forall x, x ∈ participantIds w conv -> x ∈ participantIds w' conv;
  frame_adds : forall x, x ∈ participantIds w' conv -> x ∈ participantIds w conv \/ added x;
}.

Lemma frame_refl conv (added : string -> Prop) w : frame conv added w w.
Proof. constructor; auto. Qed.
Lemma frame_trans conv (added : string -> Prop) w1 w2 w3 : frame conv added w1 w2 -> frame conv added w2 w3 -> frame conv added w1 w3.
Proof. intros [P1 O1 K1 A1] [P2 O2 K2 A2]. constructor; [congruence|naive_solver..]. Qed.
Lemma frame_weaken conv (a b : string -> Prop) w w' : (forall x, a x -> x ∈ participantIds w conv \/ b x) -> frame conv a w w' -> frame conv b w w'.
Proof. intros H [P O K A]. constructor; [done..|]. intros x [?|?%H]%A; auto. Qed.

Lemma recordsOk_mset w k r : recordsOk w ->
  (exists x, k = encodeScope [rc_conversationId r; x] /\ (realId x -> rc_employeeId r = Some x)) ->
  recordsOk (set_records (mset k r (h_records w)) w).
Proof. intros Hok Hr k' r'. cbn. rewrite mget_mset. case_match; boolify; [intros [= <-]; by subst|apply Hok]. Qed.

Lemma recordKey_real conv e : recordKey conv (Some e) = encodeScope [conv; e].
Proof. reflexivity. Qed.

Lemma ensureRecord_frame w conv e now w' r m :
  realId e -> metadataOf w conv = Some m -> ensureRecord w conv (Some e) now = (w', r) ->
  frame conv (eq e) w w' /\ (isGroup m = true -> rows (h_store w') = rows (h_store w)) /\ h_registry w' = h_registry w.
Proof.
  intros [He Hc] Hm. unfold ensureRecord. rewrite Hm. destruct (getConversation _ _ _) as [indexed|] eqn:Hg;
    [|intros [= <- <-]; split; [apply frame_refl|done]].
  rewrite recordKey_real. destruct (mget _ (h_records w)) as [old|] eqn:Hold.
  { intros [= <- <-]. split; [|done]. constructor; cbn; [done| |auto..]. intros [Hr Hp]. split; [|done].
    apply recordsOk_mset; [done|]. destruct (Hr _ _ Hold) as (x & Hk & Hx). exists x. by cbn. }
  apply String.eqb_neq in He. rewrite He. cbn [mbind option_bind].
  match goal with |- (match ?v with _ => _ end = _ -> _) => destruct v as [version|err] end; [|intros [= <- <-]; split; [apply frame_refl|done]].
  intros [<- <-]%pair_equal_spec. cbn [h_store h_registry].
  split; [|split; [|done]]; [|intros Hgm; unfold isGroup in Hgm; destruct (String.eqb (kind m) "group"), (present _); done].
  match goal with |- context [upsertConversationParticipant ?s ?i ?n] =>
    set (input := i); set (s' := (upsertConversationParticipant s i n).1) end.
  assert (forall b, participants (if b : bool then saveConversation stringify s' (withFiles indexed (fs_sessionFile (files conv (Some e)))
     (pi_workspace input)) false now else s') = participants s') as Hs by (by intros []).
  constructor; cbn [h_projections].
  - done.
  - intros [Hr Hp]. split.
    + apply (recordsOk_mset w); [done|]. exists e. by cbn.
    + cbn [h_store]. rewrite Hs. intros p [Hin|(_ & -> & _)]%upsert_participants; [by apply Hp|].
      split; [by apply String.eqb_neq|done].
  - intros x (p & Hp & H1 & H2 & H3)%elem_of_participantIds. apply elem_of_participantIds. cbn [h_store]. rewrite Hs.
    destruct (upsert_keeps (h_store w) input now p Hp) as (q & Hq & Q1 & Q2 & Q3).
    exists q. split; [exact Hq|]. split_and!; [congruence..|]. revert H3. unfold active. by rewrite Q3.
  - intros x (p & Hp & H1 & H2 & H3)%elem_of_participantIds. cbn [h_store] in Hp. rewrite Hs in Hp.
    apply upsert_participants in Hp as [Hp|(_ & E & _)]; [left; apply elem_of_participantIds; by exists p|right].
    by rewrite <- H2, E.
Qed.

Lemma ensureRecord_record w conv e now w' r : recordsOk w -> realId e ->
  ensureRecord w conv (Some e) now = (w', Ok r) -> rc_conversationId r = conv /\ rc_employeeId r = Some e.
Proof.
  intros Hok He. unfold ensureRecord. destruct (metadataOf w conv) as [m|]; [|done]. destruct (getConversation _ _ _); [|done].
  rewrite recordKey_real. destruct (mget _ _) as [old|] eqn:Hold.
  - intros [= <- <-]. cbn. destruct (Hok _ _ Hold) as (x & Hk & Hx).
    apply encodeScope_inj_aux in Hk. injection Hk as -> ->. auto.
  - destruct He as [He%String.eqb_neq _]. rewrite He. cbn [mbind option_bind].
    match goal with |- (match ?v with _ => _ end = _ -> _) => destruct v as [version|err] end; [|done].
    by intros [= <- <-].
Qed.

Lemma metadata_id w conv m : metadataOf w conv = Some m -> id m = conv.
Proof. intros [_ H]%sql_get_Some. by apply String.eqb_eq in H. Qed.
Lemma metadata_rows w w' conv : rows (h_store w') = rows (h_store w) -> metadataOf w' conv = metadataOf w conv.
Proof. unfold metadataOf. by intros ->. Qed.

Lemma ensureOthers_frame members w conv e now w' r m : isGroup m = true -> metadataOf w conv = Some m -> hostOk w ->
  (forall p, p ∈ members -> p_employee_id p ∈ participantIds w conv /\ realId (p_employee_id p)) ->
  ensureOthers w conv e members now = (w', r) ->
  frame conv (fun _ => False) w w' /\ rows (h_store w') = rows (h_store w).
Proof.
  intros Hg. revert w. induction members as [|p members IH]; intros w Hm Hok Hin; cbn; [intros [= <- <-]; split; [apply frame_refl|done]|].
  destruct (Hin p) as [Hp Hreal]; [by left|]. case_match; [apply IH; [done..|]; intros q ?; apply Hin; by right|].
  destruct (ensureRecord _ _ _ _) as [w1 r1] eqn:E1. destruct (ensureRecord_frame _ _ _ _ _ _ _ Hreal Hm E1) as (F1 & R1 & _).
  apply (frame_weaken _ _ (fun _ => False)) in F1; [|intros x <-; by left].
  specialize (R1 Hg). destruct r1; [|intros [= <- <-]; done].
  intros Hw. destruct (IH w1) as [F2 R2]; [by rewrite (metadata_rows w)|by apply (frame_ok _ _ _ _ F1)| |done|].
  - intros q Hq. destruct (Hin q) as [? ?]; [by right|]. split; [by apply (frame_keeps _ _ _ _ F1)|done].
  - split; [by eapply frame_trans|congruence].
Qed.

Lemma listed_participants w conv p : hostOk w -> p ∈ listConversationParticipants (h_store w) conv false ->
  p_employee_id p ∈ participantIds w conv /\ realId (p_employee_id p).
Proof.
  intros [_ Hok] Hp. split; [apply list_elem_of_fmap; eauto|]. apply Hok.
  by apply elem_of_order_by, elem_of_sql_select in Hp as [? _].
Qed.

Lemma groupContextOf_frame w m e now w' r : isGroup m = true -> metadataOf w (id m) = Some m -> hostOk w ->
  groupContextOf w m e now = (w', r) -> frame (id m) (fun _ => False) w w' /\ rows (h_store w') = rows (h_store w).
Proof.
  intros Hg Hm Hok. unfold groupContextOf. case_match; [|intros [= <- <-]; split; [apply frame_refl|done]].
  destruct (ensureOthers _ _ _ _ _) as [w1 r1] eqn:E. intros Hw. assert (w' = w1) as -> by (by destruct r1; injection Hw).
  eapply ensureOthers_frame; [done..| |done]. intros p. by apply listed_participants.
Qed.

Lemma generationOf_frame conv w c t : frame conv (fun _ => False) w (generationOf w c t).1 /\ h_store (generationOf w c t).1 = h_store w.
Proof.
  unfold generationOf. destruct (present _); [|split; [apply frame_refl|done]].
  destruct (ExecAuth.get _ _ _ _) as [r1 o1]. destruct o1; [by split; [constructor; cbn; auto|]|].
  destruct (register _ _ _) as [r2 o2]. by split; [constructor; cbn; auto|].
Qed.

(** * Whom a delivery runs *)

(** The caller's own projections vouch for the employee: it is loaded, not revoked and available,
    and [snapshot] is of its version. *)
Definition vouched (w : Host) (c : ExecAuth.AuthenticatedCaller) (e : string) (snapshot : Projections.fields) : Prop :=
  exists experts expert snapshots,
    loadedExperts w c = Ok experts /\ expert ∈ experts /\ idOf expert = Some e /\ isRevoked expert = false /\ unavailable expert = None
    /\ ownSnapshots w c = Ok snapshots /\ snapshot ∈ snapshots /\ idOf snapshot = Some e
    /\ asStr (mget "version" snapshot) = asStr (mget "version" expert).

(** [e] is whom the conversation of [m] is with: the entry employee of a private one, one of the
    group's own or implied members otherwise. *)
Definition belongs (w : Host) (m : ConversationRow) (c : ExecAuth.AuthenticatedCaller) (e : string) : Prop :=
  if isGroup m then exists ids, allowedIds w m c = Ok ids /\ e ∈ ids else entry_employee_id m = Some e.

Lemma find_in {A} (f : A -> bool) l x : List.find f l = Some x -> x ∈ l /\ f x = true.
Proof. intros H%find_some. by rewrite list_elem_of_In. Qed.

Lemma reachable_belongs w m c e u : reachable w m c e = Ok u -> belongs w m c e.
Proof.
  unfold reachable, belongs. destruct (isGroup m); [rewrite bind_Ok; intros (ids & ? & H%require_Ok)|intros H%require_Ok]; boolify; eauto.
Qed.

Lemma authorizationFor_vouches w r c x e experts roster snapshot : rc_employeeId r = Some e ->
  authorizationFor w r c = Ok (x, e, experts, roster, snapshot) -> vouched w c e snapshot.
Proof.
  intros He. unfold authorizationFor. rewrite He. change (nullish (Some e) ""%string) with e. rewrite !bind_Ok.
  intros (_ & _ & (_ & _ & (_ & _ & (l & Hl & H)%bind_Ok)%bind_Ok)%bind_Ok).
  destruct (List.find (sameId e) l) as [expert|] eqn:Hf; [|done].
  apply bind_Ok in H as (_ & Hr%require_Ok & H). destruct (unavailable expert) eqn:Hu; [done|].
  apply bind_Ok in H as (roster' & _ & (snapshots & Hs & H)%bind_Ok). destruct (List.find _ snapshots) as [s|] eqn:Hfs; [|done].
  injection H as <- <- <- <-. apply find_in in Hf as [? Hid]. apply find_in in Hfs as [? Hv]. unfold sameId in *. boolify.
  exists l, expert, snapshots. by split_and!.
Qed.
Lemma authorizationFor_employee w r c x e e' experts roster snapshot : rc_employeeId r = Some e ->
  authorizationFor w r c = Ok (x, e', experts, roster, snapshot) -> e' = e.
Proof.
  intros He. unfold authorizationFor. rewrite He. change (nullish (Some e) ""%string) with e. rewrite !bind_Ok.
  intros (_ & _ & (_ & _ & (_ & _ & (l & Hl & H)%bind_Ok)%bind_Ok)%bind_Ok).
  repeat (case_match; try done); repeat (apply bind_Ok in H as (? & ? & H); repeat (case_match; try done)); congruence.
Qed.

Lemma vouched_projections w w' c e snapshot : h_projections w' = h_projections w -> vouched w' c e snapshot -> vouched w c e snapshot.
Proof. unfold vouched, loadedExperts, ownSnapshots. by intros ->. Qed.

(** What an admitted run is known to be. *)
Record admitted (w : Host) (m : ConversationRow) (c : ExecAuth.AuthenticatedCaller) (cmd : GroupMessageCommand) (e : string) (ad : Admission) : Prop := mkAdmittedRun {
  adm_command : ad_command ad = cmd;
  adm_conversation : rc_conversationId (ad_record ad) = gc_conversationId cmd;
  adm_employee : rc_employeeId (ad_record ad) = Some e;
  adm_owned : ownedBy m c = true;
  adm_belongs : belongs w m c e;
  adm_other : mentionsItself cmd e = false;
  adm_authorization : exists a, ad_authorization ad = Some a /\ au_caller a = c /\ au_employeeId a = e /\ vouched w c e (au_snapshot a);
}.

Lemma beginRun_spec w w' m c cmd e record a context w3 r :
  rc_conversationId record = gc_conversationId cmd -> rc_employeeId record = Some e -> ownedBy m c = true -> belongs w m c e ->
  (exists snapshot, au_snapshot a = snapshot /\ au_caller a = c /\ au_employeeId a = e /\ vouched w c e snapshot) ->
  beginRun w3 cmd m e record a context = (w', r) -> w' = w3 /\ (forall ad, r = Ok ad -> admitted w m c cmd e ad).
Proof.
  intros H1 H2 H3 H4 (snapshot & H5 & H6 & H7 & H8). unfold beginRun. destruct context as [context|]; [|by intros [= <- <-]].
  destruct (mentionsItself cmd e) eqn:Hself; intros [= <- <-]; [done|]. split; [done|]. intros ad [= <-].
  constructor; cbn; try done. eexists; split_and!; [done..|]. cbn. by rewrite H5.
Qed.

Lemma deliverTo_spec w cmd e now t c m w' r : hostOk w -> realId e -> gc_caller cmd = Some c ->
  metadataOf w (gc_conversationId cmd) = Some m -> deliverToParticipant w cmd e now t = (w', r) ->
  frame (gc_conversationId cmd) (fun x => x = e /\ belongs w m c e) w w' /\ (isGroup m = true -> rows (h_store w') = rows (h_store w))
  /\ (forall ad, r = Ok ad -> admitted w m c cmd e ad).
Proof.
  intros Hok He Hc Hm. unfold deliverToParticipant. rewrite Hc, Hm.
  pose proof (metadata_id _ _ _ Hm) as Hid.
  destruct (ownedBy m c) eqn:Ho; [cbn [negb]|intros [= <- <-]; split; [apply frame_refl|done]].
  destruct (reachable w m c e) as [u|] eqn:Hr; [|intros [= <- <-]; split; [apply frame_refl|done]].
  apply reachable_belongs in Hr. destruct (ensureRecord _ _ _ _) as [w1 r1] eqn:E1.
  destruct (ensureRecord_frame _ _ _ _ _ _ _ He Hm E1) as (F1 & R1 & _).
  apply (frame_weaken _ _ (fun x => x = e /\ belongs w m c e)) in F1; [|intros x <-; by right].
  destruct r1 as [record|]; [|intros [= <- <-]; done].
  destruct (ensureRecord_record _ _ _ _ _ _ (proj1 Hok) He E1) as [Hconv Hemp].
  unfold resolveAuthorization.
  destruct (authorizationFor w1 record c) as [[[[[x e'] experts] roster] snapshot]|] eqn:Ha; [|intros [= <- <-]; done].
  pose proof (authorizationFor_employee _ _ _ _ _ _ _ _ _ Hemp Ha) as ->.
  pose proof (vouched_projections w w1 c e snapshot (frame_projections _ _ _ _ F1) (authorizationFor_vouches _ _ _ _ _ _ _ _ Hemp Ha)) as Hv.
  destruct (generationOf_frame (gc_conversationId cmd) w1 c t) as [F2 R2].
  destruct (generationOf w1 c t) as [w2 generation]. cbn [fst] in F2, R2.
  assert (frame (gc_conversationId cmd) (fun x => x = e /\ belongs w m c e) w w2) as F by (eapply frame_trans; [exact F1|by eapply frame_weaken; [|exact F2]]).
  assert (isGroup m = true -> rows (h_store w2) = rows (h_store w)) as R by (rewrite R2; done).
  set (a := mkAuthorization _ _ _ _ _ _ _ _ _ _ _ _).
  assert (forall w3 context, beginRun w3 cmd m e record a context = (w', r) -> w' = w3 /\ (forall ad, r = Ok ad -> admitted w m c cmd e ad)) as Hfin.
  { intros w3 context. apply beginRun_spec; try done. by exists snapshot. }
  destruct (String.eqb (kind m) "group") eqn:Hk; [|by intros [-> ?]%Hfin].
  assert (isGroup m = true) as Hg by (unfold isGroup; by rewrite Hk).
  destruct (groupContextOf w2 m e now) as [w3 r3] eqn:E3.
  destruct (groupContextOf_frame w2 m e now w3 r3 Hg) as [F3 R3]; [|by apply (frame_ok _ _ _ _ F)|done|].
  { rewrite Hid, (metadata_rows w); auto. }
  rewrite Hid in F3. intros [-> Had]%Hfin. split_and!; [|intros; rewrite R3; auto|done].
  eapply frame_trans; [exact F|by eapply frame_weaken; [|exact F3]].
Qed.

Lemma allowedIds_Ok w m c ids : allowedIds w m c = Ok ids <-> exists s, solutionOf w c m = Ok s
  /\ negb (present (solution_ref m) && bool_decide (s = None)) = true /\ inactiveSolution s = false
  /\ (is_Some (orchestration_json m) -> participantIds w (id m) <> [])
  /\ ((kind m = "group"%string /\ participantIds w (id m) <> [] /\ ids = participantIds w (id m))
      \/ (~ (kind m = "group"%string /\ participantIds w (id m) <> []) /\ impliedRoster w c s = Ok ids)).
Proof.
  assert (String.eqb (kind m) "group" = true <-> kind m = "group"%string) as Hk by apply String.eqb_eq.
  unfold allowedIds. split.
  - intros (s & -> & (u1 & H1%require_Ok & (u2 & H2%require_Ok & (u3 & H3%require_Ok & H4)%bind_Ok)%bind_Ok)%bind_Ok)%bind_Ok.
    exists s. split_and!; [reflexivity|exact H1|apply negb_true_iff; exact H2| |].
    + intros Ho E. rewrite (bool_decide_true _ Ho), (bool_decide_true _ E) in H3. discriminate.
    + destruct (String.eqb _ _); cbn in H4; [|right; split; [|exact H4]; intros [Ek%Hk _]; discriminate].
      case_bool_decide as E; cbn in H4; [right; split; [intros [_ ?]; contradiction|exact H4]|left].
      injection H4 as <-. split_and!; [by apply Hk|exact E|reflexivity].
  - intros (s & -> & H1 & H2 & H3 & H4).
    assert (negb (bool_decide (is_Some (orchestration_json m)) && bool_decide (participantIds w (id m) = [])) = true) as H5.
    { destruct (decide (is_Some (orchestration_json m))) as [Ho|Ho]; [|by rewrite (bool_decide_false _ Ho)].
      by rewrite (bool_decide_false _ (H3 Ho)), andb_false_r. }
    cbn [mbind result_bind]. rewrite H1, H2, H5. cbn [require negb].
    destruct H4 as [(Ek & En & ->)|[En Hi]].
    + rewrite (proj2 Hk Ek), (bool_decide_false _ En). reflexivity.
    + destruct (String.eqb _ _); [|exact Hi]. destruct (decide (participantIds w (id m) = [])) as [E|E]; [by rewrite (bool_decide_true _ E)|].
      destruct En. split; [by apply Hk|done].
Qed.

(** A group's members are never widened by a delivery. *)
Lemma belongs_frame w w' m c : isGroup m = true ->
  frame (id m) (fun x => belongs w m c x) w w' -> forall x, belongs w' m c x -> belongs w m c x.
Proof.
  intros Hg [Hp _ Hkeep Hadd] x. unfold belongs in *. rewrite Hg in *. intros (ids & Ha & Hx).
  apply allowedIds_Ok in Ha as (s & Hs & H1 & H2 & H3 & H4).
  assert (solutionOf w c m = Ok s) as Hs' by (revert Hs; unfold solutionOf, ownSolutions; by rewrite Hp).
  destruct H4 as [(Hk & Hne & ->)|[Hn Hi]].
  - apply Hadd in Hx as [Hx|?]; [|done]. exists (participantIds w (id m)). split; [|done].
    assert (participantIds w (id m) <> []) by (intros E; rewrite E in Hx; by apply not_elem_of_nil in Hx).
    apply allowedIds_Ok. exists s. split_and!; auto.
  - exists ids. split; [|done]. apply allowedIds_Ok. exists s. split_and!; [done..| |right; split].
    + intros Ho E. specialize (H3 Ho). destruct (participantIds w' (id m)) as [|y l]; [done|].
      destruct (Hadd y) as [Hy|(ids' & Ha & _)]; [by left| |].
      * rewrite E in Hy. by apply not_elem_of_nil in Hy.
      * apply allowedIds_Ok in Ha as (? & _ & _ & _ & H & _). by apply H.
    + intros [Hk Hne]. apply Hn. split; [done|]. destruct (participantIds w (id m)) as [|y l]; [done|].
      intros E. specialize (Hkeep y). rewrite E in Hkeep. apply (not_elem_of_nil y), Hkeep. by left.
    + revert Hi. unfold impliedRoster, loadedExperts. by rewrite Hp.
Qed.

Lemma admitted_widened w w' m c cmd e ad : isGroup m = true -> frame (id m) (fun x => belongs w m c x) w w' ->
  admitted w' m c cmd e ad -> admitted w m c cmd e ad.
Proof.
  intros Hg F [H1 H2 H3 H4 H5 H6 (a & H7 & H8 & H9 & H10)]. constructor; try done; [by eapply belongs_frame|].
  exists a. split_and!; try done. eapply vouched_projections; [|done]. apply (frame_projections _ _ _ _ F).
Qed.

Lemma deliverAll_spec targets w cmd now t c m w' rs : isGroup m = true -> hostOk w -> gc_caller cmd = Some c ->
  metadataOf w (gc_conversationId cmd) = Some m -> Forall realId targets -> deliverAll w cmd targets now t = (w', rs) ->
  frame (gc_conversationId cmd) (fun x => belongs w m c x) w w' /\ (forall ad, Ok ad ∈ rs -> exists e, e ∈ targets /\ admitted w m c cmd e ad).
Proof.
  intros Hg Hok Hc Hm Hall. revert w w' rs Hok Hm. induction Hall as [|e targets He Hall IH]; intros w w' rs Hok Hm; cbn.
  { intros [= <- <-]. split; [apply frame_refl|]. by intros ad ?%not_elem_of_nil. }
  destruct (deliverToParticipant _ _ _ _ _) as [w1 r1] eqn:E1. destruct (deliverAll w1 _ _ _ _) as [w2 rs2] eqn:E2. intros [= <- <-].
  destruct (deliverTo_spec _ _ _ _ _ _ _ _ _ Hok He Hc Hm E1) as (F1 & R1 & A1).
  apply (frame_weaken _ _ (fun x => belongs w m c x)) in F1; [|intros x [-> ?]; by right].
  destruct (IH w1 w2 rs2) as [F2 A2]; [by apply (frame_ok _ _ _ _ F1)|rewrite (metadata_rows w); auto|done|].
  pose proof (metadata_id _ _ _ Hm) as Hid.
  assert (forall x, belongs w1 m c x -> belongs w m c x) as Hb by (apply belongs_frame; [done|by rewrite Hid]).
  split; [eapply frame_trans; [exact F1|]; eapply frame_weaken; [|exact F2]; intros x ?; right; auto|].
  intros ad [Had|Had]%elem_of_cons; [exists e; split; [by left|by apply A1]|].
  destruct (A2 ad Had) as (e' & He' & H). exists e'. split; [by right|]. eapply admitted_widened; [done| |done]. by rewrite Hid.
Qed.

Lemma distinct_sub seen l x : x ∈ distinct seen l -> x ∈ l.
Proof.
  revert seen. induction l as [|y l IH]; intros seen; cbn; [done|]. case_bool_decide; [intros ?%IH; by right|].
  intros [->|?%IH]%elem_of_cons; [by left|by right].
Qed.

Lemma delivery_spec w cmd now t c m w' rs : isGroup m = true \/ (exists e, gc_targets cmd = [e]) -> hostOk w -> gc_caller cmd = Some c ->
  metadataOf w (gc_conversationId cmd) = Some m -> Forall realId (gc_targets cmd) -> deliver w cmd now t = (w', Ok rs) ->
  frame (gc_conversationId cmd) (fun x => belongs w m c x) w w' /\ (forall ad, Ok ad ∈ rs -> exists e, e ∈ gc_targets cmd /\ admitted w m c cmd e ad).
Proof.
  intros Hor Hok Hc Hm Hall. unfold deliver. case_match; [done|]. case_match; [done|].
  destruct (deliverAll _ _ _ _ _) as [w1 rs1] eqn:E. intros [= <- <-]. destruct (isGroup m) eqn:Hg.
  - assert (Forall realId (distinct [] (gc_targets cmd))) as Hd by (rewrite Forall_forall in *; intros x ?%distinct_sub; auto).
    destruct (deliverAll_spec _ _ _ _ _ _ _ _ _ Hg Hok Hc Hm Hd E) as [F A].
    split; [done|]. intros ad Had. destruct (A ad Had) as (e & ?%distinct_sub & ?). eauto.
  - destruct Hor as [?|[e Ht]]; [done|]. rewrite Ht in *. change (distinct [] [e]) with [e] in E. cbn in E.
    apply Forall_cons in Hall as [Hall _].
    destruct (deliverToParticipant _ _ _ _ _) as [w2 r2] eqn:E2. injection E as <- <-.
    destruct (deliverTo_spec _ _ _ _ _ _ _ _ _ Hok Hall Hc Hm E2) as (F & _ & A).
    split; [eapply frame_weaken; [|exact F]; intros x [-> ?]; by right|].
    intros ad Had. apply list_elem_of_singleton in Had. exists e. split; [by left|]. by apply A.
Qed.

Lemma resetAll_ok conv w : hostOk w -> hostOk (resetAll conv w).
Proof.
  intros [Hr Hp]. split; [|done]. intros k r Hk.
  assert (exists r0, mget k (h_records w) = Some r0 /\ r = resetDelegation conv r0) as (r0 & H0 & ->).
  { revert Hk. unfold resetAll. cbn. induction (h_records w) as [|[k0 r0] l IH]; cbn; [done|]. case_match; [intros [= <-]; eauto|exact IH]. }
  destruct (Hr _ _ H0) as (x & H1 & H2). exists x. unfold resetDelegation. by case_match.
Qed.

(** A message of the member, or of a coordinator whose run is the record [record]. *)
Inductive message (w : Host) (c : ExecAuth.AuthenticatedCaller) (conv : string) : Host -> list (result host_error Admission) -> Prop :=
| of_member t mentions logicalId key background now mt w' rs :
    prompt w conv t (Some c) mentions logicalId key background now mt = (w', Ok rs) -> message w c conv w' rs
| of_coordinator k record a toolCallId reference task context signalled now mt w' rs :
    mget k (h_records w) = Some record -> rc_conversationId record = conv -> au_caller a = c ->
    mention w k record a toolCallId reference task context signalled now mt = (w', Ok rs) -> message w c conv w' rs.

(** The names of the experts, and of the conversation's own employees, are those of employees. *)
Definition namesReal (w : Host) (c : ExecAuth.AuthenticatedCaller) (m : ConversationRow) : Prop :=
  (forall experts e, loadedExperts w c = Ok experts -> e ∈ omap idOf experts -> realId e)
  /\ (forall e, coordinator_employee_id m = Some e \/ entry_employee_id m = Some e -> realId e).

Lemma targetsOf_experts experts mentions e : e ∈ omap (fun t => t) (targetsOf experts mentions) -> e ∈ omap idOf experts.
Proof.
  intros (o & Ho & ->)%list_elem_of_omap. apply list_elem_of_In, in_map_iff in Ho as (h & E & _).
  apply bind_Some in E as (x & [Hin _]%find_in & E). apply list_elem_of_omap. eauto.
Qed.

Lemma targets_real w m c mentions targets : namesReal w c m -> resolveTargetEmployeeIds w m (Some c) mentions = Ok targets ->
  Forall realId targets /\ (isGroup m = true \/ exists e, targets = [e]).
Proof.
  intros [Hx Hm] Hr. unfold resolveTargetEmployeeIds in Hr.
  assert (forall e, match coordinator_employee_id m with Some c => Some c | None => entry_employee_id m end = Some e -> realId e) as Hc.
  { intros e He. apply Hm. destruct (coordinator_employee_id m); [left; exact He|right; exact He]. }
  set (coordinator := match coordinator_employee_id m with Some c => Some c | None => entry_employee_id m end) in *.
  destruct (isGroup m); cbn [negb] in Hr; [split; [|by left]|].
  - do 5 (apply bind_Ok in Hr as (? & ? & Hr)). case_bool_decide.
    + injection Hr as <-. destruct coordinator as [i|]; [|constructor]. destruct (negb _ && bool_decide (i ∈ _)); [|constructor]. apply Forall_cons. split; [by apply Hc|constructor].
    + apply bind_Ok in Hr as (experts & Hl & (u & _ & [= <-])%bind_Ok). apply Forall_forall. intros e ?%targetsOf_experts. eauto.
  - case_bool_decide; cbn [negb] in Hr; [|done]. destruct coordinator as [i|]; [|done]. destruct (String.eqb i _); [done|]. injection Hr as <-.
    split; [constructor; auto|eauto].
Qed.

Lemma reference_real w record c reference m e : namesReal w c m -> resolveEmployeeReference w record c reference = Ok e -> realId e.
Proof.
  intros [Hx _] (s & _ & (roster & _ & (experts & Hl & H)%bind_Ok)%bind_Ok)%bind_Ok. apply (Hx _ _ Hl).
  destruct (omap idOf _) as [|i [|]] eqn:E; try done. injection H as <-.
  assert (i ∈ omap idOf (List.filter (fun e => negb (isRevoked e) && match idOf e with Some i => bool_decide (i ∈ roster) | None => false end
    && matchesReference reference e) experts)) as (x & Hx' & Hi)%list_elem_of_omap by (rewrite E; by left).
  apply list_elem_of_omap. exists x. split; [|done]. apply list_elem_of_In in Hx'. apply filter_In in Hx' as [? _]. by apply list_elem_of_In.
Qed.

Lemma message_delivers w c conv w' rs m : hostOk w -> namesReal w c m -> metadataOf w conv = Some m -> message w c conv w' rs ->
  exists w0 cmd now t, deliver w0 cmd now t = (w', Ok rs) /\ gc_caller cmd = Some c /\ gc_conversationId cmd = conv
    /\ (isGroup m = true \/ exists e, gc_targets cmd = [e]) /\ Forall realId (gc_targets cmd)
    /\ hostOk w0 /\ h_store w0 = h_store w /\ h_projections w0 = h_projections w.
Proof.
  intros Hok Hn Hm [t mentions l key b now mt w1 rs1 Hp|k record a tc reference task context sig now mt w1 rs1 Hk Hc Ha Hp].
  - unfold prompt in Hp. rewrite Hm in Hp. destruct (resolveTargetEmployeeIds w m (Some c) mentions) as [targets|] eqn:Hr; [|done].
    destruct (targets_real _ _ _ _ _ Hn Hr) as [Hreal Hor].
    do 4 eexists. split; [exact Hp|]. cbn. split_and!; [done..|by apply resetAll_ok|done|done].
  - unfold mention in Hp. destruct (rc_role record) eqn:Hrole, (rc_employeeId record) as [me|] eqn:Hme; try done.
    case_match; [done|]. destruct (resolveEmployeeReference _ _ _ _) as [target|] eqn:Hr; [|done].
    case_match; [done|]. case_match; [done|]. case_match; [done|].
    rewrite Ha in Hr. pose proof (reference_real _ _ _ _ _ _ Hn Hr) as Hreal.
    do 4 eexists. split; [exact Hp|]. cbn. split_and!; [by rewrite Ha|done|right; eauto|by constructor| |done..].
    destruct Hok as [Hro Hpt]. split; [|done]. apply recordsOk_mset; [done|]. destruct (Hro _ _ Hk) as (x & Hx). by exists x.
Qed.

Lemma admitted_store w w0 m c cmd e ad : h_store w0 = h_store w -> h_projections w0 = h_projections w -> admitted w0 m c cmd e ad -> admitted w m c cmd e ad.
Proof.
  intros Hs Hp [H1 H2 H3 H4 H5 H6 (a & H7 & H8 & H9 & H10)]. constructor; try done.
  - revert H5. unfold belongs, allowedIds, solutionOf, ownSolutions, impliedRoster, loadedExperts, participantIds. by rewrite Hs, Hp.
  - exists a. split_and!; try done. by eapply vouched_projections.
Qed.

Lemma message_admitted (w w' : Host) (c : ExecAuth.AuthenticatedCaller) (conv : string) (m : ConversationRow) rs ad :
  hostOk w -> namesReal w c m -> metadataOf w conv = Some m -> message w c conv w' rs -> Ok ad ∈ rs ->
  exists e, e ∈ gc_targets (ad_command ad) /\ gc_conversationId (ad_command ad) = conv /\ admitted w m c (ad_command ad) e ad.
Proof.
  intros Hok Hn Hm Hmsg Had. destruct (message_delivers _ _ _ _ _ _ Hok Hn Hm Hmsg) as (w0 & cmd & now & t & Hd & Hc & Hconv & Hor & Hreal & Hok0 & Hs & Hp).
  assert (metadataOf w0 (gc_conversationId cmd) = Some m) as Hm0 by (unfold metadataOf; by rewrite Hs, Hconv).
  destruct (delivery_spec _ _ _ _ _ _ _ _ Hor Hok0 Hc Hm0 Hreal Hd) as [_ A].
  destruct (A ad Had) as (e & He & Hadm). rewrite (adm_command _ _ _ _ _ _ Hadm). exists e. split_and!; [done..|]. by eapply admitted_store.
Qed.

(** C5. A message never runs anyone it must not.  Whether a member sends it or a coordinator passes
    it on, every run it starts is on that conversation, which the caller owns, for an employee it
    was addressed to other than its sender, who is the private conversation's own employee or a
    member of the group, whose expert is loaded for the caller, not revoked and available, with a
    snapshot of exactly that version.  Nobody else joins the group: one with an index of members
    keeps it as it is. *)
Theorem messages_run_only_members (w w' : Host) (c : ExecAuth.AuthenticatedCaller) (conv : string) (m : ConversationRow) rs :
  hostOk w -> namesReal w c m -> metadataOf w conv = Some m -> message w c conv w' rs ->
  hostOk w' /\ h_projections w' = h_projections w
  /\ (forall ad, Ok ad ∈ rs -> exists e, e ∈ gc_targets (ad_command ad) /\ gc_conversationId (ad_command ad) = conv /\ admitted w m c (ad_command ad) e ad)
  /\ (kind m = "group"%string -> participantIds w conv <> [] -> forall x, x ∈ participantIds w' conv <-> x ∈ participantIds w conv).
Proof.
  intros Hok Hn Hm Hmsg. destruct (message_delivers _ _ _ _ _ _ Hok Hn Hm Hmsg) as (w0 & cmd & now & t & Hd & Hc & Hconv & Hor & Hreal & Hok0 & Hs & Hp).
  assert (metadataOf w0 (gc_conversationId cmd) = Some m) as Hm0 by (unfold metadataOf; by rewrite Hs, Hconv).
  destruct (delivery_spec _ _ _ _ _ _ _ _ Hor Hok0 Hc Hm0 Hreal Hd) as [F _]. rewrite Hconv in F.
  pose proof (metadata_id _ _ _ Hm) as Hid.
  assert (participantIds w0 conv = participantIds w conv) as Hpi by (unfold participantIds; by rewrite Hs).
  split_and!; [by apply (frame_ok _ _ _ _ F)|rewrite (frame_projections _ _ _ _ F); done| |].
  - intros ad. by apply (message_admitted w w' c conv m rs).
  - intros Hk Hne x. rewrite <- Hpi. split; [|apply (frame_keeps _ _ _ _ F)]. intros [?|Hb]%(frame_adds _ _ _ _ F); [done|].
    unfold belongs in Hb. assert (isGroup m = true) as Hg by (unfold isGroup; by rewrite Hk). rewrite Hg in Hb. destruct Hb as (ids & Ha & Hx).
    apply allowedIds_Ok in Ha as (s & _ & _ & _ & _ & [(_ & _ & ->)|[H _]]); [by rewrite Hid in Hx|].
    destruct H. split; [done|]. by rewrite Hid, Hpi.
Qed.


(** * What a coordinator may spend *)

Definition spent (r : SessionRecord) : Z * Z := (rc_delegateCalls r, rc_delegatePromptChars r).

(** Records stay, with what was spent on them; a new one has spent nothing. *)
Definition carries (w w' : Host) : Prop := forall k,
  match mget k (h_records w) with
  | Some r => exists r', mget k (h_records w') = Some r' /\ spent r' = spent r /\ rc_conversationId r' = rc_conversationId r
  | None => forall r', mget k (h_records w') = Some r' -> spent r' = (0, 0)
  end.

Lemma carries_refl w : carries w w.
Proof. intros k. destruct (mget k (h_records w)); naive_solver. Qed.
Lemma carries_trans w1 w2 w3 : carries w1 w2 -> carries w2 w3 -> carries w1 w3.
Proof.
  intros H1 H2 k. specialize (H1 k). specialize (H2 k). destruct (mget k (h_records w1)) as [r|].
  - destruct H1 as (r' & E & S & C). rewrite E in H2. destruct H2 as (r'' & E2 & S2 & C2). exists r''. split_and!; congruence.
  - destruct (mget k (h_records w2)) as [r2|]; [|done]. destruct H2 as (r3 & -> & S3 & _). intros r' [= <-]. rewrite S3. by apply H1.
Qed.
Lemma carries_records w w' : h_records w' = h_records w -> carries w w'.
Proof. intros E k. rewrite E. apply carries_refl. Qed.

Lemma ensureRecord_carries w conv e now : carries w (ensureRecord w conv e now).1.
Proof.
  unfold ensureRecord. destruct (metadataOf w conv); [|apply carries_refl]. destruct (getConversation _ _ _); [|apply carries_refl].
  destruct (mget (recordKey _ _) (h_records w)) as [old|] eqn:Hold.
  - intros k. cbn [fst h_records set_records]. rewrite mget_mset. destruct (String.eqb_spec k (recordKey conv
      match e with Some e => Some e | None => match entry_employee_id c with Some e => Some e | None => coordinator_employee_id c end end)) as [->|];
      [|apply carries_refl]. rewrite Hold. eauto.
  - match goal with |- context [match ?v with Ok _ => _ | Err _ => _ end] => destruct v end; [|apply carries_refl].
    intros k. cbn [fst h_records]. rewrite mget_mset. destruct (String.eqb_spec k (recordKey conv
      match e with Some e => Some e | None => match entry_employee_id c with Some e => Some e | None => coordinator_employee_id c end end)) as [->|];
      [|apply carries_refl]. rewrite Hold. by intros r' [= <-].
Qed.

Lemma ensureOthers_carries members w conv e now : carries w (ensureOthers w conv e members now).1.
Proof.
  revert w. induction members as [|p members IH]; intros w; cbn; [apply carries_refl|]. case_match; [apply IH|].
  pose proof (ensureRecord_carries w conv (Some (p_employee_id p)) now) as H1. destruct (ensureRecord _ _ _ _) as [w1 [r1|]]; [|done].
  eapply carries_trans; [exact H1|apply IH].
Qed.

Lemma generationOf_carries w c t : carries w (generationOf w c t).1.
Proof.
  apply carries_records. unfold generationOf. destruct (present _); [|done]. destruct (ExecAuth.get _ _ _ _) as [r1 [|]]; [done|].
  by destruct (register _ _ _).
Qed.

Lemma deliverTo_carries w cmd e now t : carries w (deliverToParticipant w cmd e now t).1.
Proof.
  unfold deliverToParticipant. pose proof (ensureRecord_carries w (gc_conversationId cmd) (Some e) now) as H1.
  destruct (ensureRecord _ _ _ _) as [w1 r1]. cbn [fst] in H1. destruct (gc_caller cmd) as [c|]; [|by destruct r1].
  destruct (metadataOf w _) as [m|]; [|apply carries_refl]. destruct (negb _); [apply carries_refl|]. destruct (reachable _ _ _ _); [|apply carries_refl].
  destruct r1 as [record|]; [|done]. unfold resolveAuthorization. destruct (authorizationFor _ _ _) as [[[[[x e'] ?] ?] ?]|]; [|done].
  pose proof (generationOf_carries w1 c t) as H2. destruct (generationOf w1 c t) as [w2 g]. cbn [fst] in H2.
  assert (forall w3 auth context, carries w w3 -> carries w (beginRun w3 cmd m e record auth context).1) as Ha.
  { intros w3 auth context H. unfold beginRun. destruct context; [|done]. by destruct (mentionsItself cmd e). }
  destruct (String.eqb _ _); [|apply Ha; by eapply carries_trans].
  assert (carries w2 (groupContextOf w2 m e now).1) as H3.
  { unfold groupContextOf. case_match; [|apply carries_refl].
    pose proof (ensureOthers_carries (listConversationParticipants (h_store w2) (id m) false) w2 (id m) e now) as H4.
    by destruct (ensureOthers _ _ _ _ _) as [w3 [|]]. }
  destruct (groupContextOf _ _ _ _) as [w3 r3]. apply Ha. eapply carries_trans; [exact H1|]. by eapply carries_trans.
Qed.

Lemma deliver_carries w cmd now t : carries w (deliver w cmd now t).1.
Proof.
  assert (forall targets w, carries w (deliverAll w cmd targets now t).1) as Hall.
  { intros targets. induction targets as [|e targets IH]; intros w0; cbn; [apply carries_refl|].
    pose proof (deliverTo_carries w0 cmd e now t) as H1. destruct (deliverToParticipant _ _ _ _ _) as [w1 r1].
    specialize (IH w1). destruct (deliverAll _ _ _ _ _) as [w2 rs]. by eapply carries_trans. }
  unfold deliver. destruct (bool_decide _); [apply carries_refl|]. destruct (existsb _ _); [apply carries_refl|].
  specialize (Hall (distinct [] (gc_targets cmd)) w). by destruct (deliverAll _ _ _ _ _).
Qed.

(** The calls of the mention tool that a coordinator's run makes, one after the other: the prompts that were delivered. *)
Record MentionCall : Type := mkMentionCall {
  mq_authorization : SessionAuthorization; mq_toolCallId : string; mq_reference : string; mq_task : text; mq_context : option text;
  mq_signalled : bool; mq_now : Z; mq_managerNow : Z;
}.
Definition mentionOnce (w : Host) (k : string) (record : SessionRecord) (q : MentionCall) : Host * result host_error (list (result host_error Admission)) :=
  mention w k record (mq_authorization q) (mq_toolCallId q) (mq_reference q) (mq_task q) (mq_context q) (mq_signalled q) (mq_now q) (mq_managerNow q).
Fixpoint mentionAll (w : Host) (k : string) (calls : list MentionCall) : Host * list text :=
  match calls with
  | [] => (w, [])
  | q :: calls =>
      match mget k (h_records w) with
      | None => mentionAll w k calls
      | Some record =>
          let '(w, r) := mentionOnce w k record q in
          let '(w, l) := mentionAll w k calls in
          (w, match r with Ok _ => mentionPrompt (mq_task q) (mq_context q) :: l | Err _ => l end)
      end
  end.

Definition totalLength (l : list text) : Z := Z.of_nat (length (concat l)).

(** One call: what it delivers is paid for, within the limits. *)
Lemma mentionOnce_spends w k record q w' r : mget k (h_records w) = Some record -> mentionOnce w k record q = (w', r) ->
  exists record', mget k (h_records w') = Some record' /\ rc_conversationId record' = rc_conversationId record
    /\ (spent record' = spent record /\ (forall x, r <> Ok x)
        \/ let chars := Z.of_nat (length (mentionPrompt (mq_task q) (mq_context q))) in
           spent record' = (rc_delegateCalls record + 1, rc_delegatePromptChars record + chars)
           /\ rc_delegateCalls record < MAX_DELEGATE_CALLS /\ rc_delegatePromptChars record + chars <= MAX_DELEGATE_PROMPT_BUDGET).
Proof.
  intros Hk Hq. unfold mentionOnce, mention in Hq.
  assert (forall e, (w, Err e) = (w', r) -> exists record', mget k (h_records w') = Some record' /\ rc_conversationId record' = rc_conversationId record
    /\ (spent record' = spent record /\ (forall x, r <> Ok x) \/ let chars := Z.of_nat (length (mentionPrompt (mq_task q) (mq_context q))) in
           spent record' = (rc_delegateCalls record + 1, rc_delegatePromptChars record + chars)
           /\ rc_delegateCalls record < MAX_DELEGATE_CALLS /\ rc_delegatePromptChars record + chars <= MAX_DELEGATE_PROMPT_BUDGET)) as Hno.
  { intros e [= <- <-]. exists record. split_and!; [done..|]. by left. }
  destruct (rc_role record); [|by eapply Hno]. destruct (rc_employeeId record); [|by eapply Hno]. destruct (_ || _); [by eapply Hno|].
  destruct (resolveEmployeeReference _ _ _ _); [|by eapply Hno]. destruct (String.eqb _ _); [by eapply Hno|].
  destruct (Z.leb_spec MAX_DELEGATE_CALLS (rc_delegateCalls record)); [by eapply Hno|].
  destruct (Z.ltb_spec MAX_DELEGATE_PROMPT_BUDGET (rc_delegatePromptChars record + Z.of_nat (length (mentionPrompt (mq_task q) (mq_context q))))); [by eapply Hno|].
  match type of Hq with deliver ?w1 ?cmd ?n ?t = _ => pose proof (deliver_carries w1 cmd n t k) as Hc end. rewrite Hq in Hc.
  cbn [fst h_records set_records] in Hc. rewrite mget_mset_eq in Hc. destruct Hc as (record' & E & S & C). exists record'. split_and!; [done..|].
  right. cbn. split; [exact S|]. split; assumption.
Qed.

Lemma mentionAll_bounded calls w k record w' l : mget k (h_records w) = Some record ->
  rc_delegateCalls record <= MAX_DELEGATE_CALLS -> rc_delegatePromptChars record <= MAX_DELEGATE_PROMPT_BUDGET ->
  mentionAll w k calls = (w', l) ->
  rc_delegateCalls record + Z.of_nat (length l) <= MAX_DELEGATE_CALLS /\ rc_delegatePromptChars record + totalLength l <= MAX_DELEGATE_PROMPT_BUDGET.
Proof.
  revert w record w' l. induction calls as [|q calls IH]; intros w record w' l Hk Hn Hs; cbn; [intros [= <- <-]; unfold totalLength; cbn; lia|].
  rewrite Hk. destruct (mentionOnce w k record q) as [w1 r1] eqn:E1. destruct (mentionAll w1 k calls) as [w2 l2] eqn:E2.
  destruct (mentionOnce_spends _ _ _ _ _ _ Hk E1) as (r' & Hk' & _ & [(S & Hr)|(S & H1 & H2)]); unfold spent in S; injection S as S1 S2.
  - destruct (IH w1 r' w2 l2) as [B1 B2]; [done|lia|lia|done|]. destruct r1 as [x|]; [by destruct (Hr x)|]. intros [= <- <-]. lia.
  - destruct (IH w1 r' w2 l2) as [B1 B2]; [done|lia|lia|done|]. destruct r1; intros [= <- <-].
    + unfold totalLength in *. cbn [length concat]. rewrite length_app. unfold text in *. lia.
    + lia.
Qed.

Lemma prompt_resets w conv t caller mentions l key b now mt w' rs k r :
  prompt w conv t caller mentions l key b now mt = (w', Ok rs) -> mget k (h_records w') = Some r -> rc_conversationId r = conv -> spent r = (0, 0).
Proof.
  unfold prompt. destruct (metadataOf w conv); [|done]. destruct (resolveTargetEmployeeIds _ _ _ _); [|done]. intros Hd Hk Hconv.
  match type of Hd with deliver ?w1 ?cmd ?n ?t = _ => pose proof (deliver_carries w1 cmd n t k) as Hc end. rewrite Hd in Hc. cbn [fst] in Hc.
  destruct (mget k (h_records (resetAll conv w))) as [r0|] eqn:H0; [|by apply Hc]. destruct Hc as (r' & E & S & C). rewrite Hk in E. injection E as <-. rewrite S.
  assert (exists r1, r0 = resetDelegation conv r1) as [r1 ->].
  { revert H0. unfold resetAll. cbn. induction (h_records w) as [|[k1 r1] recs IH]; cbn; [done|]. case_match; [intros [= <-]; eauto|exact IH]. }
  unfold resetDelegation in *. destruct (String.eqb_spec (rc_conversationId r1) conv); [done|]. by rewrite C in Hconv.
Qed.

(** C24. After a message of a member, and until the next one, a coordinator passes on at most 4
    messages, of at most 32,000 characters in all, however many it asks for and whichever of them
    fail. *)
Theorem mentions_are_bounded (w w1 w' : Host) (conv : string) t caller mentions l key b now mt rs k record calls delivered :
  prompt w conv t caller mentions l key b now mt = (w1, Ok rs) ->
  mget k (h_records w1) = Some record -> rc_conversationId record = conv ->
  mentionAll w1 k calls = (w', delivered) ->
  (length delivered <= 4)%nat /\ totalLength delivered <= 32000.
Proof.
  intros Hp Hk Hconv Hm. pose proof (prompt_resets _ _ _ _ _ _ _ _ _ _ _ _ _ _ Hp Hk Hconv) as S. injection S as S1 S2.
  destruct (mentionAll_bounded calls w1 k record w' delivered) as [B1 B2]; unfold MAX_DELEGATE_CALLS, MAX_DELEGATE_PROMPT_BUDGET in *; lia || auto; lia.
Qed.

(** * Refusals *)

Lemma stranger_refused w cmd c m now t targets : gc_caller cmd = Some c -> metadataOf w (gc_conversationId cmd) = Some m -> ownedBy m c = false ->
  deliverAll w cmd targets now t = (w, (fun _ => Err notAuthorized) <$> targets).
Proof.
  intros Hc Hm Ho. induction targets as [|e targets IH]; cbn [deliverAll fmap list_fmap]; [done|].
  unfold deliverToParticipant. rewrite Hc, Hm, Ho. cbn [negb]. rewrite IH. reflexivity.
Qed.

(** The record is as it was, but for the counters of the coordinator's messages, which are at zero
    again if it is of the conversation. *)
Definition onlyCounters (conv : string) (kr kr' : string * SessionRecord) : Prop :=
  kr' = kr \/ rc_conversationId kr.2 = conv
    /\ kr' = (kr.1, mkSession conv (rc_employeeId kr.2) (rc_role kr.2) (rc_workspace kr.2) (rc_permissionMode kr.2) (rc_aborting kr.2) 0 0).

Lemma resetAll_counters conv w : let w' := resetAll conv w in
  h_store w' = h_store w /\ h_projections w' = h_projections w /\ h_registry w' = h_registry w /\ Forall2 (onlyCounters conv) (h_records w) (h_records w').
Proof.
  split_and!; try done. unfold resetAll. cbn. induction (h_records w) as [|[k x] l IH]; constructor; [|done].
  unfold resetDelegation, onlyCounters. cbn. destruct (String.eqb_spec (rc_conversationId x) conv) as [<-|]; [by right|by left].
Qed.

(** C25. A message to a conversation of someone else runs nothing.  Its addressees are looked up
    before the owner is compared, with the caller's own employees: when that fails, the answer is
    that failure and nothing has changed.  Otherwise every addressee is refused with the same
    answer, whoever it is (and a message without one is refused as such); of the store, the grants
    and the identities nothing is written and no record is opened, and all that changes is that
    the counters of the conversation's coordinator are at zero again. *)
Theorem strangers_run_nothing (w w' : Host) (conv : string) t c mentions l key b now mt m r :
  metadataOf w conv = Some m -> ownedBy m c = false ->
  prompt w conv t (Some c) mentions l key b now mt = (w', r) ->
  match resolveTargetEmployeeIds w m (Some c) mentions with
  | Err e => w' = w /\ r = Err e
  | Ok targets =>
      h_store w' = h_store w /\ h_projections w' = h_projections w /\ h_registry w' = h_registry w /\ Forall2 (onlyCounters conv) (h_records w) (h_records w')
      /\ r = if bool_decide (targets = []) then Err (HostError "At least one group message target is required")
             else Ok ((fun _ => Err (SessionAuthorizationError "Conversation employee is not authorized locally")) <$> distinct [] targets)
  end.
Proof.
  intros Hm Ho. unfold prompt. rewrite Hm. destruct (resolveTargetEmployeeIds _ _ _ _) as [targets|e]; [|by intros [= <- <-]].
  intros Hd. assert (distinct [] targets = [] <-> targets = []) as Hnil by (destruct targets; cbn; [done|]; by rewrite bool_decide_false by apply not_elem_of_nil).
  assert (w' = resetAll conv w /\ r = if bool_decide (targets = []) then Err (HostError "At least one group message target is required")
             else Ok ((fun _ => Err (SessionAuthorizationError "Conversation employee is not authorized locally")) <$> distinct [] targets)) as [-> ->];
    [|pose proof (resetAll_counters conv w) as (? & ? & ? & ?); by split_and!].
  unfold deliver in Hd. cbn [gc_targets] in Hd. rewrite (bool_decide_ext _ _ Hnil) in Hd. case_bool_decide as Hd'; [by injection Hd as <- <-|].
  rewrite (stranger_refused _ _ c m) in Hd; [|done..]. destruct (existsb _ _) eqn:E; [|by injection Hd as <- <-].
  apply existsb_exists in E as (x & _ & E). done.
Qed.

End Host.

(** * Witnesses *)

Definition demoExpertRow (e handle : string) : ExpertRow :=
  mkExpertRow e "t" "m" "v1" (Some (JObj [("employee_id", JStr e); ("handle", JStr handle); ("display_name", JStr handle); ("version", JStr "v1")]%string)) false "now".
Definition demoSnapshotRow (e : string) : SnapshotRow :=
  mkSnapshotRow e "t" "m" "s1" "v1" (Some (JObj [("employee_id", JStr e); ("display_name", JStr e); ("version", JStr "v1")]%string)) "now".
Definition demoGroup : ConversationRow :=
  mkRow "g" "" "/w" None None None "group" [] Active (Some "e1"%string) (Some "e1"%string) None (Some "t"%string) (Some "m"%string) None 0 ReadOnly None 1 1.
Definition demoPart (e : string) (role : ParticipantRole) : ParticipantSession := mkParticipant "g" e role "/s" "/w" None "v1" 1 1 None.
Definition demoHost : Host :=
  mkHost (set_participants [demoPart "e1" Coordinator; demoPart "e2" Member] (set_rows [demoGroup] demoStore))
    (mkProjections [demoExpertRow "e1" "ada"; demoExpertRow "e2" "bob"; demoExpertRow "e3" "eve"] [] [demoSnapshotRow "e1"; demoSnapshotRow "e2"; demoSnapshotRow "e3"])
    emptyRegistry [].
Definition demoMember (tenant : string) : ExecAuth.AuthenticatedCaller := mkCaller (Some tenant) (Some "m"%string) "m" None None.
Definition demoFiles (conv : string) (e : option string) : Files := mkFiles "/s" "sid" "/w" true.
Definition demoPrompt (w : Host) (tenant : string) (mentions : list string) :=
  prompt (fun x : string => x) (fun x => Some x) demoFiles (fun _ _ => []) w "g" (u "hello") (Some (demoMember tenant)) mentions "l" None false 5 5.
(** What a run is, for display. *)
Definition runsOf (rs : list (result host_error Admission)) : list (option string) :=
  map (fun r => match r with Ok ad => rc_employeeId (ad_record ad) | Err _ => None end) rs.
Definition promptRuns (r : Host * result host_error (list (result host_error Admission))) : list (option string) :=
  match r.2 with Ok rs => runsOf rs | Err _ => [] end.

Example bob_runs : promptRuns (demoPrompt demoHost "t" ["bob"%string]) = [Some "e2"%string].
Proof. vm_compute. reflexivity. Qed.
Example eve_is_refused : promptRuns (demoPrompt demoHost "t" ["eve"%string]) = [].
Proof. vm_compute. reflexivity. Qed.
Example coordinator_runs : promptRuns (demoPrompt demoHost "t" []) = [Some "e1"%string].
Proof. vm_compute. reflexivity. Qed.

Lemma demo_ok : hostOk demoHost.
Proof.
  split; [by intros k r|]. intros p Hp. cbn in Hp. repeat (apply elem_of_cons in Hp as [->|Hp]; [done|]). by apply not_elem_of_nil in Hp.
Qed.
Lemma demo_names t : t = "t"%string -> namesReal demoHost (demoMember t) demoGroup.
Proof.
  intros ->. split; [|intros e [[= <-]|[= <-]]; done]. intros experts e He.
  vm_compute in He. injection He as <-. intros (x & Hx & Hid)%list_elem_of_omap.
  repeat (apply elem_of_cons in Hx as [->|Hx]; [vm_compute in Hid; injection Hid as <-; done|]). by apply not_elem_of_nil in Hx.
Qed.

Lemma messages_run_only_members_witness :
  exists w' rs ad e, demoPrompt demoHost "t" ["bob"%string] = (w', Ok rs) /\ Ok ad ∈ rs /\ rc_employeeId (ad_record ad) = Some e
    /\ belongs demoHost demoGroup (demoMember "t") e /\ mentionsItself (ad_command ad) e = false.
Proof.
  destruct (demoPrompt demoHost "t" ["bob"%string]) as [w' [rs|]] eqn:E; [|vm_compute in E; discriminate].
  destruct (messages_run_only_members (fun x : string => x) (fun x => Some x) demoFiles (fun _ _ => []) demoHost w' (demoMember "t") "g" demoGroup rs
    demo_ok (demo_names _ eq_refl) eq_refl (of_member _ _ _ _ _ _ _ _ _ _ _ _ _ _ _ _ E)) as (_ & _ & H & _).
  pose proof bob_runs as R. rewrite E in R. unfold promptRuns, runsOf in R. cbn [snd] in R.
  destruct rs as [|[ad|] rs]; cbn in R; try discriminate. destruct (H ad ltac:(by left)) as (e & _ & _ & Hadm).
  exists w', (Ok ad :: rs), ad, e. split_and!; [reflexivity|by left|apply Hadm|apply Hadm|apply Hadm].
Defined.

Definition demoCalls (w : Host) : list MentionCall :=
  match demoPrompt w "t" [] with
  | (_, Ok [Ok ad]) =>
      match ad_authorization ad with
      | Some a => repeat (mkMentionCall a "tool" "bob" (u "please look") None false 6 6) 6
      | None => []
      end
  | _ => []
  end.
Definition demoKey : string := recordKey "g" (Some "e1"%string).

Lemma mentions_are_bounded_witness :
  exists w1 w' delivered, mentionAll (fun x : string => x) (fun x => Some x) demoFiles (fun _ _ => []) w1 demoKey (demoCalls demoHost) = (w', delivered)
    /\ length (demoCalls demoHost) = 6%nat /\ length delivered = 4%nat /\ totalLength delivered <= 32000.
Proof.
  destruct (demoPrompt demoHost "t" []) as [w1 [rs|]] eqn:E; [|vm_compute in E; discriminate].
  destruct (mentionAll (fun x : string => x) (fun x => Some x) demoFiles (fun _ _ => []) w1 demoKey (demoCalls demoHost)) as [w' delivered] eqn:Em.
  assert ((demoPrompt demoHost "t" []).1 = w1) as Ew by (by rewrite E).
  assert (length (demoCalls demoHost) = 6%nat) as H6 by (vm_compute; reflexivity).
  assert (length delivered = 4%nat) as H4.
  { replace delivered with (mentionAll (fun x : string => x) (fun x => Some x) demoFiles (fun _ _ => []) w1 demoKey (demoCalls demoHost)).2 by (by rewrite Em).
    rewrite <- Ew. vm_compute. reflexivity. }
  destruct (mget demoKey (h_records w1)) as [record|] eqn:Hr; [|rewrite <- Ew in Hr; vm_compute in Hr; discriminate].
  assert (rc_conversationId record = "g"%string) as Hc.
  { assert (rc_conversationId <$> mget demoKey (h_records w1) = Some "g"%string) as H by (rewrite <- Ew; vm_compute; reflexivity).
    rewrite Hr in H. by injection H. }
  pose proof (mentions_are_bounded _ _ _ _ _ _ _ _ _ _ _ _ _ _ _ _ _ _ _ _ _ E Hr Hc Em) as [_ B].
  exists w1, w', delivered. split_and!; [exact Em|exact H6|exact H4|exact B].
Defined.

Lemma strangers_run_nothing_witness :
  exists w' rs, demoPrompt demoHost "other" [] = (w', Ok rs) /\ rs = [Err (SessionAuthorizationError "Conversation employee is not authorized locally")]
    /\ h_store w' = h_store demoHost.
Proof.
  destruct (demoPrompt demoHost "other" []) as [w' [rs|]] eqn:E; [|vm_compute in E; discriminate].
  pose proof (strangers_run_nothing (fun x : string => x) (fun x => Some x) demoFiles (fun _ _ => []) demoHost w' "g" (u "hello") (demoMember "other") [] "l" None false 5 5 demoGroup (Ok rs) eq_refl eq_refl E) as H.
  assert (resolveTargetEmployeeIds demoHost demoGroup (Some (demoMember "other")) [] = Ok ["e1"%string]) as R by (vm_compute; reflexivity).
  rewrite R in H. destruct H as (Hs & _ & _ & _ & Hr). exists w', rs. split; [reflexivity|]. split; [|exact Hs]. vm_compute in Hr. injection Hr as ->. reflexivity.
Defined.
