(* ===== verification/SessionRuns.v ===== *)
(** The runs of one session record ([promptParticipant], [ensureSession], [disposeSession] and
    [abort] of pi/session-host.ts), cut where they await.

    A record belongs to a conversation and an employee; its runs share the record's flags and its
    model session.  An event is the end of one await of one run, together with the code up to that
    run's next await, or an abort: [step] is the whole of that code for the fields of the record.
    What a run does outside the record (the work record, the entries, the artifacts it keeps) is
    modelled with those components.  No context operation is pending. *)

From S2P Require Import Prelude.
From stdpp Require Import gmap.

(** Where a run is. *)
Inductive Phase : Type :=
| Refused                             (* [ConversationBusyError] *)
| Preparing                           (* [ensureSession], up to the session it may reuse *)
| Creating (signature : string)       (* [ensureSession], building a session *)
| Running (session : nat)             (* [session.prompt] *)
| Recording                           (* the [finally]: the usage of the run *)
| Scanning                            (* the run is over; its files are looked for *)
| Disposing                           (* [await this.disposeSession(record)] *)
| Finished.

Inductive DisposePhase : Type := Flushing | Removing.

Record RecordState : Type := mkRecordState {
  prompting : bool;
  aborting : bool;
  active : option nat;                (* the run that the [active*] fields describe *)
  promptPromise : option nat;         (* the run of this promise *)
  sessionReady : option nat;          (* the run of this promise *)
  session : option nat;
  capabilitySignature : option string;
  subscription : option nat;          (* the session [unsubscribe] was got from *)
  disposing : option DisposePhase;
  created : nat;                      (* sessions created so far; they are numbered *)
  disposed : list nat;                (* sessions that were disposed *)
  runs : gmap nat Phase;
}.

Definition initial : RecordState := mkRecordState false false None None None None None None None 0 [] ∅.

Definition set_phase (r : nat) (p : Phase) (st : RecordState) : RecordState :=
  mkRecordState (prompting st) (aborting st) (active st) (promptPromise st) (sessionReady st) (session st) (capabilitySignature st)
    (subscription st) (disposing st) (created st) (disposed st) (<[r := p]> (runs st)).

(** The start of [promptParticipant], up to the first await of [ensureSession]. *)
Definition begin (r : nat) (st : RecordState) : RecordState :=
  if prompting st then set_phase r Refused st
  else mkRecordState true false (Some r) (promptPromise st) (Some r) (session st) (capabilitySignature st) (subscription st) (disposing st)
         (created st) (disposed st) (<[r := Preparing]> (runs st)).

(** Starting the model on the session [ensureSession] returned. *)
Definition promptOn (r s : nat) (st : RecordState) : RecordState :=
  if aborting st then set_phase r Recording st
  else mkRecordState (prompting st) (aborting st) (active st) (Some r) (sessionReady st) (session st) (capabilitySignature st)
         (subscription st) (disposing st) (created st) (disposed st) (<[r := Running s]> (runs st)).

(** [disposeSession]: one at a time; the session is disposed only after its resources are flushed. *)
Definition disposeSession (st : RecordState) : RecordState :=
  match disposing st with
  | Some _ => st
  | None => mkRecordState (prompting st) (aborting st) (active st) (promptPromise st) (sessionReady st) (session st) (capabilitySignature st)
              None (Some Flushing) (created st) (disposed st) (runs st)
  end.

(** The capabilities are known and the sandbox was found: a session that is there is returned, even
    of another signature, since a session is only renewed here while nothing is prompting, and this
    run is ([prompting_is_the_run]). *)
Definition prepared (r : nat) (signature : string) (st : RecordState) : RecordState :=
  match session st with Some s => promptOn r s st | None => set_phase r (Creating signature) st end.

Definition createSession (r : nat) (signature : string) (st : RecordState) : RecordState :=
  let s := created st in
  promptOn r s (mkRecordState (prompting st) (aborting st) (active st) (promptPromise st) (sessionReady st) (Some s) (Some signature)
    (Some s) (disposing st) (S s) (disposed st) (runs st)).

(** The inner [finally]: the record is free for the next run. *)
Definition release (r : nat) (st : RecordState) : RecordState :=
  mkRecordState false false None None None (session st) (capabilitySignature st) (subscription st) (disposing st) (created st) (disposed st)
    (<[r := Scanning]> (runs st)).

Definition flushed (st : RecordState) : RecordState :=
  mkRecordState (prompting st) (aborting st) (active st) (promptPromise st) (sessionReady st) None None (subscription st) (Some Removing) (created st)
    (match session st with Some s => s :: disposed st | None => disposed st end) (runs st).

Definition afterDispose (p : Phase) : Phase := match p with Disposing => Finished | p => p end.
Definition removed (st : RecordState) : RecordState :=
  mkRecordState (prompting st) (aborting st) (active st) (promptPromise st) (sessionReady st) (session st) (capabilitySignature st) (subscription st)
    None (created st) (disposed st) (afterDispose <$> runs st).

Definition abort (st : RecordState) : RecordState :=
  mkRecordState (prompting st) true (active st) (promptPromise st) (sessionReady st) (session st) (capabilitySignature st)
    (subscription st) (disposing st) (created st) (disposed st) (runs st).

(** [ok] tells whether what was awaited succeeded. *)
Inductive Event : Type :=
| Begin (r : nat)
| Prepared (r : nat) (signature : string) (ok : bool)
| Created (r : nat) (ok : bool)
| Answered (r : nat)
| Recorded (r : nat)
| Scanned (r : nat) (ok : bool)
| Flushed
| Removed
| Abort.

(** [None]: nothing of the kind is awaited. *)
Definition step (st : RecordState) (e : Event) : option RecordState :=
  match e with
  | Begin r => match runs st !! r with None => Some (begin r st) | Some _ => None end
  | Prepared r signature ok =>
      match runs st !! r with Some Preparing => Some (if ok then prepared r signature st else set_phase r Recording st) | _ => None end
  | Created r ok =>
      match runs st !! r with Some (Creating signature) => Some (if ok then createSession r signature st else set_phase r Recording st) | _ => None end
  | Answered r => match runs st !! r with Some (Running _) => Some (set_phase r Recording st) | _ => None end
  | Recorded r => match runs st !! r with Some Recording => Some (release r st) | _ => None end
  | Scanned r ok =>
      match runs st !! r with
      | Some Scanning => Some (if ok then disposeSession (set_phase r Disposing st) else set_phase r Finished st)
      | _ => None
      end
  | Flushed => match disposing st with Some Flushing => Some (flushed st) | _ => None end
  | Removed => match disposing st with Some Removing => Some (removed st) | _ => None end
  | Abort => Some (abort st)
  end.

Fixpoint steps (st : RecordState) (l : list Event) : option RecordState :=
  match l with [] => Some st | e :: l => st' ← step st e; steps st' l end.

Inductive reachable : RecordState -> Prop :=
| reach_initial : reachable initial
| reach_step st e st' : reachable st -> step st e = Some st' -> reachable st'.

Lemma steps_reachable st l st' : reachable st -> steps st l = Some st' -> reachable st'.
Proof.
  revert st. induction l as [|e l IH]; intros st Hr; cbn; [by intros [= <-]|]. intros (st1 & H1 & H2)%bind_Some.
  eapply IH; [|done]. by eapply reach_step.
Qed.

(** * One run at a time *)

(** Between the start of [promptParticipant] and the release of the record. *)
Definition executing (p : Phase) : bool :=
  match p with Preparing | Creating _ | Running _ | Recording => true | Refused | Scanning | Disposing | Finished => false end.

Definition onlyActive (st : RecordState) : Prop :=
  (forall r p, runs st !! r = Some p -> executing p = true -> active st = Some r)
  /\ (forall r, active st = Some r -> exists p, runs st !! r = Some p /\ executing p = true)
  /\ (prompting st = true <-> is_Some (active st))
  /\ (forall r, promptPromise st = Some r -> active st = Some r)
  /\ (forall r, sessionReady st = Some r -> active st = Some r).

(** A run that keeps executing, or stops without being the active one. *)
Lemma onlyActive_keep st r p p' : onlyActive st -> runs st !! r = Some p -> executing p = executing p' ->
  forall r0 p0, <[r := p']> (runs st) !! r0 = Some p0 -> executing p0 = true -> active st = Some r0.
Proof.
  intros (H1 & _) Hr Hp r0 p0 [[<- <-]|[? Hl]]%lookup_insert_Some He; [eapply H1; [done|congruence]|eauto].
Qed.
Lemma onlyActive_exists st r p p' : onlyActive st -> runs st !! r = Some p -> executing p = executing p' ->
  forall r0, active st = Some r0 -> exists p0, <[r := p']> (runs st) !! r0 = Some p0 /\ executing p0 = true.
Proof.
  intros (_ & H2 & _) Hr Hp r0 Ha. destruct (H2 r0 Ha) as (p0 & Hl & He). destruct (decide (r0 = r)) as [->|].
  - exists p'. rewrite lookup_insert_eq. split; [done|congruence].
  - exists p0. by rewrite lookup_insert_ne.
Qed.
Lemma onlyActive_phase st r p p' : onlyActive st -> runs st !! r = Some p -> executing p = executing p' -> onlyActive (set_phase r p' st).
Proof.
  intros H Hr Hp. pose proof H as (_ & _ & H3 & H4 & H5). split_and!; cbn; [by apply (onlyActive_keep st r p p')|by apply (onlyActive_exists st r p p')|done..].
Qed.

Lemma onlyActive_promptOn st r p s : onlyActive st -> runs st !! r = Some p -> executing p = true -> onlyActive (promptOn r s st).
Proof.
  intros H Hr Hp. unfold promptOn. destruct (aborting st); [by apply (onlyActive_phase st r p)|]. pose proof H as (H1 & _ & H3 & H4 & H5).
  split_and!; cbn; [by apply (onlyActive_keep st r p)|by apply (onlyActive_exists st r p)|done| |done]. intros r0 [= <-]. by eapply H1.
Qed.

Lemma onlyActive_dispose st : onlyActive st -> onlyActive (disposeSession st).
Proof. intros H. unfold disposeSession. by destruct (disposing st). Qed.

Lemma onlyActive_begin st r : onlyActive st -> runs st !! r = None -> onlyActive (begin r st).
Proof.
  intros (H1 & H2 & H3 & H4 & H5) Hr. unfold begin. destruct (prompting st) eqn:Hp.
  - split_and!; cbn; [| |by rewrite Hp|done..].
    + intros r0 p0 [[<- <-]|[? Hl]]%lookup_insert_Some He; [done|eauto].
    + intros r0 (p0 & Hl & He)%H2. exists p0. rewrite lookup_insert_ne; [done|]. congruence.
  - assert (active st = None) as Ha by (destruct (active st) as [a|]; [|done]; assert (false = true) by (apply H3; by exists a); done).
    split_and!; cbn.
    + intros r0 p0 [[<- <-]|[? Hl]]%lookup_insert_Some He; [done|]. apply H1 in Hl; [congruence|done].
    + intros r0 [= <-]. exists Preparing. by rewrite lookup_insert_eq.
    + split; [by eexists|done].
    + intros r0 H. apply H4 in H. congruence.
    + done.
Qed.

Lemma onlyActive_release st r : onlyActive st -> runs st !! r = Some Recording -> onlyActive (release r st).
Proof.
  intros (H1 & _) Hr. assert (active st = Some r) as Ha by (by eapply H1). split_and!; cbn; [|done|split; [done|by intros [? ?]]|done|done].
  intros r0 p0 [[<- <-]|[? Hl]]%lookup_insert_Some He; [done|]. apply H1 in Hl; [congruence|done].
Qed.

Lemma onlyActive_removed st : onlyActive st -> onlyActive (removed st).
Proof.
  intros (H1 & H2 & H3 & H4 & H5). split_and!; cbn; [| |done..].
  - intros r p (p0 & Hp & Hl)%lookup_fmap_Some He. eapply H1; [done|]. by destruct p0; subst.
  - intros r (p & Hl & He)%H2. exists (afterDispose p). rewrite lookup_fmap, Hl. split; [done|]. by destruct p.
Qed.

Lemma onlyActive_step st e st' : onlyActive st -> step st e = Some st' -> onlyActive st'.
Proof.
  intros H. destruct e as [r|r sig ok|r ok|r|r|r ok| | |]; cbn; try (destruct (runs st !! r) as [[]|] eqn:E; try done).
  - intros [= <-]. by apply onlyActive_begin.
  - destruct ok; intros [= <-]; [|by eapply onlyActive_phase].
    unfold prepared. destruct (session st); [by eapply onlyActive_promptOn|by eapply onlyActive_phase].
  - destruct ok; intros [= <-]; [|by eapply onlyActive_phase]. unfold createSession. by eapply onlyActive_promptOn.
  - intros [= <-]. by eapply onlyActive_phase.
  - intros [= <-]. by apply onlyActive_release.
  - destruct ok; intros [= <-]; [apply onlyActive_dispose|]; by eapply onlyActive_phase.
  - destruct (disposing st) as [[]|]; try done. by intros [= <-].
  - destruct (disposing st) as [[]|]; try done. intros [= <-]. by apply onlyActive_removed.
  - by intros [= <-].
Qed.

Lemma onlyActive_reachable st : reachable st -> onlyActive st.
Proof.
  induction 1 as [|st e st' _ IH Hs]; [|by eapply onlyActive_step].
  split_and!; cbn; done.
Qed.

(** C21. Whatever the order in which the awaits of a record's runs end, and however many messages
    arrive, one run at most is executing; the record says that it is prompting exactly then, and
    its active fields, its prompt and the session it waits for are that run's own.  A run that
    arrives meanwhile is refused and changes nothing else. *)
Theorem one_run_at_a_time (st : RecordState) : reachable st ->
  (forall r1 r2 p1 p2, runs st !! r1 = Some p1 -> runs st !! r2 = Some p2 -> executing p1 = true -> executing p2 = true -> r1 = r2)
  /\ (prompting st = true <-> exists r p, runs st !! r = Some p /\ executing p = true)
  /\ (forall r, active st = Some r \/ promptPromise st = Some r \/ sessionReady st = Some r -> exists p, runs st !! r = Some p /\ executing p = true)
  /\ (forall r, prompting st = true -> runs st !! r = None -> step st (Begin r) = Some (set_phase r Refused st)).
Proof.
  intros (H1 & H2 & H3 & H4 & H5)%onlyActive_reachable. split_and!.
  - intros r1 r2 p1 p2 A B C D. pose proof (H1 _ _ A C). pose proof (H1 _ _ B D). congruence.
  - rewrite H3. split; [intros [r Hr]; exists r; by apply H2|]. intros (r & p & Hl & He). exists r. by eapply H1.
  - intros r [H|[H%H4|H%H5]]; by apply H2.
  - intros r Hp Hr. cbn. rewrite Hr. unfold begin. by rewrite Hp.
Qed.

(** * The session of a run *)

(** The runs that still have to put the session away. *)
Definition finalising (p : Phase) : bool := match p with Scanning | Disposing => true | _ => false end.
Definition quiet (st : RecordState) (e : Event) : Prop :=
  match e with Begin _ => disposing st = None /\ forall r p, runs st !! r = Some p -> finalising p = false | _ => True end.

(** Reached by events of which none starts a run while an earlier one is finalising. *)
Inductive calm : RecordState -> Prop :=
| calm_initial : calm initial
| calm_step st e st' : calm st -> quiet st e -> step st e = Some st' -> calm st'.

Lemma calm_reachable st : calm st -> reachable st.
Proof. induction 1; [constructor|by eapply reach_step]. Qed.

Definition sessionSafe (st : RecordState) : Prop :=
  (forall r p, runs st !! r = Some p -> executing p = true -> disposing st = None /\ forall r' p', runs st !! r' = Some p' -> finalising p' = false)
  /\ (forall r s, runs st !! r = Some (Running s) -> session st = Some s)
  /\ (forall s, session st = Some s -> s < created st /\ s ∉ disposed st /\ (disposing st = None -> subscription st = Some s))
  /\ (forall s, s ∈ disposed st -> s < created st)
  /\ (disposing st = Some Removing -> session st = None).

Lemma sessionSafe_phase st r p p' : onlyActive st -> sessionSafe st -> runs st !! r = Some p -> executing p = true ->
  executing p' = true -> (forall s, p' = Running s -> session st = Some s) -> sessionSafe (set_phase r p' st).
Proof.
  intros Ho (S1 & S2 & S3 & S4 & S5) Hr Hp Hp' Hrun. destruct (S1 _ _ Hr Hp) as [Hd Hf]. split_and!; cbn; [| |done..].
  - intros _ _ _ _. split; [done|]. intros r' q [[<- <-]|[? Hl]]%lookup_insert_Some; [by destruct p'|eauto].
  - intros r' s [[<- ->]|[? Hl]]%lookup_insert_Some; eauto.
Qed.

Lemma sessionSafe_promptOn st r p s : onlyActive st -> sessionSafe st -> runs st !! r = Some p -> executing p = true -> session st = Some s ->
  sessionSafe (promptOn r s st).
Proof.
  intros Ho Hs Hr Hp Hsess. unfold promptOn. destruct (aborting st); [by eapply sessionSafe_phase|].
  apply (sessionSafe_phase st r p (Running s)); try done. by intros s' [= <-].
Qed.

Lemma sessionSafe_idle st r p p' : sessionSafe st -> runs st !! r = Some p -> finalising p = true -> executing p' = false ->
  sessionSafe (set_phase r p' st) /\ forall r' q, runs st !! r' = Some q -> executing q = false.
Proof.
  intros (S1 & S2 & S3 & S4 & S5) Hr Hp Hp'.
  assert (forall r' q, runs st !! r' = Some q -> executing q = false) as Hno.
  { intros r' q Hq. destruct (executing q) eqn:Hx; [|done]. destruct (S1 _ _ Hq Hx) as [_ Hf]. rewrite (Hf _ _ Hr) in Hp. done. }
  split; [|done]. split_and!; cbn; [| |done..].
  - intros r' q [[<- <-]|[? Hl]]%lookup_insert_Some Hx; [congruence|]. rewrite (Hno _ _ Hl) in Hx. done.
  - intros r' s [[<- ->]|[? Hl]]%lookup_insert_Some; [done|eauto].
Qed.

Lemma sessionSafe_begin st r : sessionSafe st -> quiet st (Begin r) -> runs st !! r = None -> sessionSafe (begin r st).
Proof.
  intros (S1 & S2 & S3 & S4 & S5) [Q1 Q2] Hr. unfold begin. destruct (prompting st); split_and!; cbn; try done.
  1,3: intros _ _ _ _; split; [done|]; intros r' q [[<- <-]|[? Hl]]%lookup_insert_Some; [done|eauto].
  all: intros r' s [[<- ?]|[? Hl]]%lookup_insert_Some; [done|eauto].
Qed.

Lemma sessionSafe_step st e st' : onlyActive st -> sessionSafe st -> quiet st e -> step st e = Some st' -> sessionSafe st'.
Proof.
  intros Ho Hs Hq. pose proof Hs as (S1 & S2 & S3 & S4 & S5).
  destruct e as [r|r sig ok|r ok|r|r|r ok| | |]; cbn [step]; try (destruct (runs st !! r) as [[]|] eqn:E; try done).
  - intros [= <-]. by apply sessionSafe_begin.
  - destruct ok; intros [= <-]; [|by eapply sessionSafe_phase]. unfold prepared. destruct (session st) as [s|] eqn:Hss.
    + by apply (sessionSafe_promptOn st r Preparing).
    + by apply (sessionSafe_phase st r Preparing).
  - destruct ok; intros [= <-]; [|by eapply sessionSafe_phase]. destruct (S1 _ _ E eq_refl) as [Hd Hf]. unfold createSession.
    eapply sessionSafe_promptOn; [done| |done|done|done]. split_and!; cbn; [done| | | |by rewrite Hd].
    + intros r' s Hl. destruct Ho as (H1 & _). assert (r' = r) as -> by (pose proof (H1 _ _ Hl eq_refl); pose proof (H1 _ _ E eq_refl); congruence). congruence.
    + intros s [= <-]. split_and!; [lia| |done]. intros Hin%S4. lia.
    + intros s Hin%S4. lia.
  - intros [= <-]. by eapply sessionSafe_phase.
  - intros [= <-]. destruct Ho as (H1 & _). destruct (S1 _ _ E eq_refl) as [Hd _]. split_and!; cbn; [| |done..].
    + intros r' q [[<- <-]|[? Hl]]%lookup_insert_Some Hx; [done|]. pose proof (H1 _ _ Hl Hx). pose proof (H1 _ _ E eq_refl). congruence.
    + intros r' s [[<- ?]|[? Hl]]%lookup_insert_Some; [done|eauto].
  - destruct ok; intros [= <-]; [|by eapply sessionSafe_idle].
    destruct (sessionSafe_idle st r Scanning Disposing) as [HT Hno]; try done. pose proof HT as (T1 & T2 & T3 & T4 & T5).
    unfold disposeSession. destruct (disposing _); [exact HT|].
    split_and!; cbn; [|done| |done|done].
    + intros r' q [[<- <-]|[? Hl]]%lookup_insert_Some Hx; [done|]. rewrite (Hno _ _ Hl) in Hx. done.
    + intros s H. by destruct (T3 s H) as (? & ? & _).
  - destruct (disposing st) as [[]|] eqn:Hd; try done. intros [= <-]. split_and!; cbn; [| |done| |done].
    + intros r p Hl Hx. destruct (S1 _ _ Hl Hx). congruence.
    + intros r s Hl. destruct (S1 _ _ Hl eq_refl). congruence.
    + destruct (session st) as [s0|] eqn:Hss; [|done]. intros s [->|Hin]%elem_of_cons; [by apply S3|auto].
  - destruct (disposing st) as [[]|] eqn:Hd; try done. intros [= <-]. split_and!; cbn; [| | |done|done].
    + intros r p (p0 & <- & Hl)%lookup_fmap_Some Hx. destruct (S1 r p0 Hl); [by destruct p0|]. congruence.
    + intros r s (p0 & Hp0 & Hl)%lookup_fmap_Some. destruct p0; try done. injection Hp0 as <-. eauto.
    + intros s Hss. rewrite S5 in Hss by done. done.
  - by intros [= <-].
Qed.

(** A run never loses its session, as long as no run starts while an earlier one is still
    looking for files or putting its session away: the session the model runs on is the record's
    own, was never disposed and is listened to.  A session is disposed at most after all runs
    that used it. *)
Theorem session_kept_while_running (st : RecordState) (r s : nat) : calm st -> runs st !! r = Some (Running s) ->
  session st = Some s /\ s ∉ disposed st /\ subscription st = Some s /\ disposing st = None.
Proof.
  intros Hc Hr. assert (sessionSafe st) as (S1 & S2 & S3 & S4 & S5).
  { clear Hr. induction Hc as [|st e st' Hc IH Hq Hs]; [split_and!; cbn; try done; by intros s' ?%not_elem_of_nil|].
    eapply sessionSafe_step; [by apply onlyActive_reachable, calm_reachable|done..]. }
  destruct (S1 _ _ Hr eq_refl) as [Hd _]. pose proof (S2 _ _ Hr) as Hs. destruct (S3 _ Hs) as (_ & ? & Hsub). auto.
Qed.

(** The state after a list of events that can happen. *)
Definition after (l : list Event) : RecordState := default initial (steps initial l).
Definition overlapping : list Event :=
  [Begin 1; Prepared 1 "v1:read-only:none" true; Created 1 true; Answered 1; Recorded 1;
   Begin 2; Prepared 2 "v2:read-only:none" true; Scanned 1 true; Flushed].
Definition twoMore : list Event := [Begin 1; Prepared 1 "s" true; Begin 2; Created 1 true; Answered 1; Recorded 1; Begin 3].

(** The condition of [session_kept_while_running] is needed, and nothing in the code
    guarantees it: the record is released before the files of a run are looked for, so that the
    next run may start, but the session is put away afterwards, whoever uses it then.  The second
    of two runs can be in the middle of its model call on a session that has been disposed, with
    none left on the record and nobody listening to it. *)
Theorem next_run_can_lose_its_session : exists l st s,
  steps initial l = Some st /\ prompting st = true /\ runs st !! 2 = Some (Running s) /\ s ∈ disposed st
  /\ session st = None /\ subscription st = None.
Proof.
  exists overlapping, (after overlapping), 0. split_and!; try (vm_compute; reflexivity).
  assert (disposed (after overlapping) = [0]) as -> by (vm_compute; reflexivity). by left.
Qed.

Lemma one_run_at_a_time_witness :
  exists st, steps initial twoMore = Some st
    /\ prompting st = true /\ runs st !! 2 = Some Refused /\ runs st !! 3 = Some Preparing /\ active st = Some 3
    /\ (forall r1 r2 p1 p2, runs st !! r1 = Some p1 -> runs st !! r2 = Some p2 -> executing p1 = true -> executing p2 = true -> r1 = r2).
Proof.
  assert (steps initial twoMore = Some (after twoMore)) as E by (vm_compute; reflexivity).
  exists (after twoMore). split; [exact E|]. split_and!; try (vm_compute; reflexivity).
  exact (proj1 (one_run_at_a_time _ (steps_reachable initial twoMore _ reach_initial E))).
Defined.

Lemma session_kept_while_running_witness :
  runs (createSession 1 "s" (prepared 1 "s" (begin 1 initial))) !! 1 = Some (Running 0)
  /\ session (createSession 1 "s" (prepared 1 "s" (begin 1 initial))) = Some 0.
Proof.
  assert (runs (createSession 1 "s" (prepared 1 "s" (begin 1 initial))) !! 1 = Some (Running 0)) as Hr by (vm_compute; reflexivity).
  split; [exact Hr|]. refine (proj1 (session_kept_while_running _ 1 0 _ Hr)).
  refine (calm_step _ (Created 1 true) _ (calm_step _ (Prepared 1 "s" true) _ (calm_step _ (Begin 1) _ calm_initial _ _) I _) I _); [|vm_compute; reflexivity..].
  split; [reflexivity|]. intros r p Hp. cbn in Hp. by rewrite lookup_empty in Hp.
Defined.
