(* ===== verification/ContextReset.v ===== *)
(** A fresh context for a conversation ([resetContext], [resetRecordContext],
    [retainResetTranscript] and [resetTranscript] of pi/session-host.ts, with the memory policy of
    pi/resources.ts): the old branch is offered to the Manager's memory, and the session goes on
    from a marker.

    The session file is an interface ([SessionManager]) whose laws are those the code relies on:
    what [getBranch] answers after [resetLeaf] and after an append.  The Manager's answer to a
    retain is an argument. *)

From S2P Require Import Prelude Regex Codec Segments Projections Conversations GroupContext.
From S2P Require Redaction EventSafety.
Local Open Scope Z_scope.

(** ** Why memory was or was not saved *)

Inductive MemoryReason : Type :=
| Saved | Empty | Skipped | RetainDisabled | PolicyDenial | Unauthorized | TooLarge | ManagerUnavailable | RetentionUnverified | TimedOut.
#[export] Instance MemoryReason_eq_dec : EqDecision MemoryReason.
Proof. solve_decision. Defined.

Definition isContextResetMemoryFailure (reason : MemoryReason) : bool :=
  match reason with Unauthorized | TooLarge | ManagerUnavailable | RetentionUnverified | TimedOut => true | _ => false end.

Definition reasonText (reason : MemoryReason) : string :=
  match reason with
  | Saved => "saved" | Empty => "empty" | Skipped => "skipped" | RetainDisabled => "retain_disabled" | PolicyDenial => "policy"
  | Unauthorized => "unauthorized" | TooLarge => "too_large" | ManagerUnavailable => "manager_unavailable"
  | RetentionUnverified => "retention_unverified" | TimedOut => "timeout"
  end.
Definition CONTEXT_RESET_MEMORY_REASONS : list MemoryReason :=
  [Saved; Empty; Skipped; RetainDisabled; PolicyDenial; Unauthorized; TooLarge; ManagerUnavailable; RetentionUnverified; TimedOut].
Definition readReason (s : option string) : MemoryReason :=
  match s with
  | Some s => nullish (List.find (fun r => String.eqb (reasonText r) s) CONTEXT_RESET_MEMORY_REASONS) ManagerUnavailable
  | None => ManagerUnavailable
  end.

(** What a retain of the Manager client throws; [denial] is [isManagerAccessDenial] of another error. *)
Inductive RetainError : Type :=
| ManagerAuthorizationError (status : Z)
| ManagerPolicyDeniedError
| MemoryRetainUnverifiedError
| ManagerTimeoutError
| ManagerValidationError
| ManagerUnavailableError (httpStatus : option Z) (problemCode : option string)
| OtherError (denial : bool).

Definition retainFailureReason (e : RetainError) : MemoryReason :=
  match e with
  | ManagerAuthorizationError status => if status =? 401 then Unauthorized else PolicyDenial
  | ManagerPolicyDeniedError => PolicyDenial
  | MemoryRetainUnverifiedError => RetentionUnverified
  | ManagerTimeoutError => TimedOut
  | ManagerValidationError => TooLarge
  | ManagerUnavailableError httpStatus problemCode =>
      if bool_decide (problemCode = Some "memory_retention_unverified"%string) then RetentionUnverified
      else if bool_decide (httpStatus = Some 413) then TooLarge else ManagerUnavailable
  | OtherError denial => if denial then PolicyDenial else ManagerUnavailable
  end.

(** ** The memory policy of a snapshot, without a lease *)

Record MemoryPolicy : Type := mkPolicy { mp_enabled : bool; mp_recall : bool; mp_retain : bool; mp_factOnly : bool }.
Definition isFalse (v : option Projections.json) : bool := match v with Some (JBool false) => true | _ => false end.
Definition isTrue (v : option Projections.json) : bool := match v with Some (JBool true) => true | _ => false end.

Definition getMemoryPolicy (snapshot : Projections.fields) : option MemoryPolicy :=
  match mget "memory_policy" snapshot with
  | None | Some JNull => Some (mkPolicy true true false false)
  | Some (JObj value) =>
      if negb (isTrue (mget "enabled" value)) then Some (mkPolicy false false false false)
      else
        let operations := orElse (mget "allowed_operations" value) (orElse (mget "operations" value) (Some (JArr [JStr "recall"]))) in
        let allows (operation : string) := match operations with Some (JArr l) => bool_decide (operation ∈ stringsOf l) | _ => false end in
        let recall := allows "recall"%string && negb (isFalse (mget "recall" value)) && negb (isFalse (mget "allow_recall" value)) && negb (isFalse (mget "recall_enabled" value)) in
        let retain := allows "retain"%string && negb (isFalse (mget "retain" value)) && negb (isFalse (mget "allow_retain" value)) && negb (isFalse (mget "retain_enabled" value)) in
        Some (mkPolicy (recall || retain) recall retain
                (isTrue (mget "retention_guarded" value) || match mget "retention_days" value with Some (JInt _) | Some (JFrac _) => true | _ => false end))
  | Some _ => None
  end.
Definition isMemoryRetainAllowed (snapshot : Projections.fields) : bool :=
  match getMemoryPolicy snapshot with Some p => mp_retain p | None => false end.

(** ** What is offered to the memory *)

Definition MAX_CONTEXT_RESET_TRANSCRIPT_CHARS : Z := 100000.
Definition MAX_CONTEXT_RESET_TRANSCRIPT_BYTES : Z := 200 * 1024.
Definition CONTEXT_RESET_TRANSCRIPT_HEADER : text := line "以下是用户主动开启新上下文前的对话记录，请提取值得长期记住的事实、偏好和决定。".

Definition jsonUtf8Bytes (value : text) : Z := byteLength (Redaction.quote value).

Definition transcriptText (content : Content) : text :=
  match content with Whole t => t | Parts l => joinText LF (omap (fun t => t) l) end.
Definition transcriptLine (m : MessageRole * Content) : option text :=
  let trimmed := trim (match m.1 with OtherRole => [] | _ => transcriptText m.2 end) in
  if bool_decide (trimmed = []) then None
  else Some (line (match m.1 with UserRole => "用户" | _ => "Agent" end) ++ u ": " ++ trimmed).
Definition prefix : text := CONTEXT_RESET_TRANSCRIPT_HEADER ++ LF ++ LF.
Definition within (content : text) : bool :=
  (tlen content <=? MAX_CONTEXT_RESET_TRANSCRIPT_CHARS) && (jsonUtf8Bytes content <=? MAX_CONTEXT_RESET_TRANSCRIPT_BYTES).
Definition fits (body : text) (start : nat) : bool := within (prefix ++ drop start body).

(** The loop [while (low < high)]; a round at least halves the gap, so [high - low] rounds are enough. *)
Fixpoint search (body : text) (fuel low high : nat) : nat :=
  match fuel with
  | O => low
  | S fuel =>
      if (low <? high)%nat then
        let middle := ((low + high) / 2)%nat in
        if fits body middle then search body fuel low middle else search body fuel (S middle) high
      else low
  end.

(** [body.charCodeAt(start)] is the second half of a pair; past the end it is [NaN]. *)
Definition afterPair (body : text) (start : nat) : nat :=
  match body !! start with Some code => if isLow code then S start else start | None => start end.

Definition bodyOf (messages : list (MessageRole * Content)) : text := joinText (LF ++ LF) (omap transcriptLine messages).

Definition resetTranscript (messages : list (MessageRole * Content)) : text * bool :=
  let body := bodyOf messages in
  if bool_decide (body = []) then ([], false)
  else if fits body 0 then (prefix ++ body, false)
  else
    let start := afterPair body (search body (length body) 1 (length body)) in
    (prefix ++ drop start body, true).

(** ** The session file *)

(** The members of a marker's data that are of their types. *)
Record MarkerData : Type := mkMarker {
  md_reset_id : option string; md_timestamp : option string; md_message_count : option Z; md_memory_saved : bool;
  md_memory_reason : option string; md_operation_id : option string;
}.
Inductive SessionEntry : Type :=
| MessageEntry (role : MessageRole) (content : Content)
| ThinkingLevelChange (level : string)
| Bookkeeping                                   (* [model_change], [label], [session_info] *)
| ResetMarker (entryId : string) (data : MarkerData)  (* [custom], of type [aiteam_context_reset] *)
| OtherEntry.

Class SessionManager (S : Type) : Type := {
  getBranch : S -> list SessionEntry;
  resetLeaf : S -> S;
  appendMarker : S -> MarkerData -> S;
  appendThinkingLevelChange : S -> string -> S;
}.
Class SessionManagerLaws (S : Type) `{SessionManager S} : Prop := {
  branch_resetLeaf s : getBranch (resetLeaf s) = [];
  branch_appendMarker s d : exists entryId, getBranch (appendMarker s d) = getBranch s ++ [ResetMarker entryId d];
  branch_appendThinking s level : getBranch (appendThinkingLevelChange s level) = getBranch s ++ [ThinkingLevelChange level];
}.

Record ContextResetParticipant : Type := mkParticipantReset {
  cp_reset : bool; cp_already_reset : bool; cp_reset_id : option string; cp_message_count : Z; cp_memory_saved : bool;
  cp_memory_reason : MemoryReason; cp_operation_id : option string;
}.

Fixpoint lastMarkerOf (reversed : list SessionEntry) : option ContextResetParticipant :=
  match reversed with
  | [] => None
  | (ThinkingLevelChange _ | Bookkeeping) :: l => lastMarkerOf l
  | ResetMarker entryId d :: _ =>
      Some (mkParticipantReset true true (Some (nullish (md_reset_id d) entryId)) (nullish (md_message_count d) 0) (md_memory_saved d)
              (readReason (md_memory_reason d)) (md_operation_id d))
  | _ :: _ => None
  end.
Definition lastResetMarker (branch : list SessionEntry) : option ContextResetParticipant := lastMarkerOf (reverse branch).

Definition conversationMessages (branch : list SessionEntry) : list (MessageRole * Content) :=
  omap (fun e => match e with MessageEntry UserRole c => Some (UserRole, c) | MessageEntry AssistantRole c => Some (AssistantRole, c) | _ => None end) branch.
Definition lastThinking (branch : list SessionEntry) : option string :=
  head (omap (fun e => match e with ThinkingLevelChange l => Some l | _ => None end) (reverse branch)).

(** ** One participant *)

(** [authorization] is the snapshot the caller was authorised with, [None] when that threw;
    [hasClient] that the Manager client can retain; [retain] what it answers to a transcript. *)
Section Reset.
Context {S : Type} `{SessionManager S}.
Context (hasClient : bool) (retain : text * bool -> result RetainError string).

Definition retainResetTranscript (authorization : option Projections.fields) (messages : list (MessageRole * Content)) : MemoryReason * option string :=
  match authorization with
  | None => (Unauthorized, None)
  | Some snapshot =>
      if negb hasClient || negb (isMemoryRetainAllowed snapshot) then (RetainDisabled, None)
      else
        let transcript := resetTranscript messages in
        if bool_decide (transcript.1 = []) then (Empty, None)
        else match retain transcript with Ok operationId => (Saved, Some operationId) | Err e => (retainFailureReason e, None) end
  end.

Inductive reset_error : Type := ConversationBusyError.

(** [busy] and [busyAfter]: a run is under way at the start, or once the transcript was kept. *)
Definition resetRecordContext (authorization : option Projections.fields) (s : S) (resetId timestamp : string) (saveMemory proceed busy busyAfter : bool) : S * result reset_error ContextResetParticipant :=
  if busy then (s, Err ConversationBusyError)
  else
    let branch := getBranch s in
    match lastResetMarker branch with
    | Some previous => (s, Ok previous)
    | None =>
        let messages := conversationMessages branch in
        let count := Z.of_nat (length messages) in
        if negb (existsb (fun m => match m.1 with AssistantRole => true | _ => false end) messages)
        then (s, Ok (mkParticipantReset false false None count false Empty None))
        else
          let '(reason, operationId) := if saveMemory then retainResetTranscript authorization messages else (Skipped, None) in
          if isContextResetMemoryFailure reason && negb proceed
          then (s, Ok (mkParticipantReset false false None count false reason None))
          else if busyAfter then (s, Err ConversationBusyError)
          else
            let saved := bool_decide (reason = Saved) in
            let s := appendMarker (resetLeaf s) (mkMarker (Some resetId) (Some timestamp) (Some count) saved (Some (reasonText reason)) operationId) in
            let s := match lastThinking branch with Some level => appendThinkingLevelChange s level | None => s end in
            (s, Ok (mkParticipantReset true false (Some resetId) count saved reason operationId))
    end.

(** ** The whole conversation *)

(** A record that is reset: its employee, its session file, the caller's snapshot of the employee,
    what the Manager's memory answers for it, and whether a run is under way when its lock is held
    and once the transcript was kept. *)
End Reset.

Section Conversation.
Context {S : Type} `{SessionManager S}.

Record Target : Type := mkTarget {
  tg_employee : string; tg_session : S; tg_snapshot : option Projections.fields; tg_hasClient : bool; tg_retain : text * bool -> result RetainError string;
  tg_busy : bool; tg_busyAfter : bool;
}.
Definition set_session (s : S) (t : Target) : Target :=
  mkTarget (tg_employee t) s (tg_snapshot t) (tg_hasClient t) (tg_retain t) (tg_busy t) (tg_busyAfter t).

(** [Promise.all] of the participants: each goes on to its end, whatever becomes of the others. *)
Fixpoint resetEach (targets : list Target) (resetId timestamp : string) (saveMemory proceed : bool)
    : list Target * result reset_error (list (string * ContextResetParticipant)) :=
  match targets with
  | [] => ([], Ok [])
  | t :: targets =>
      let '(s, r) := resetRecordContext (tg_hasClient t) (tg_retain t) (tg_snapshot t) (tg_session t) resetId timestamp saveMemory proceed (tg_busy t) (tg_busyAfter t) in
      let '(targets, rs) := resetEach targets resetId timestamp saveMemory proceed in
      (set_session s t :: targets, p ← r; ps ← rs; Ok ((tg_employee t, p) :: ps))
  end.

Record ContextResetResult : Type := mkResetResult {
  cr_reset_id : string; cr_reset : bool; cr_already_reset : bool; cr_memory_saved : bool; cr_confirmation_required : bool;
  cr_participants : list (string * ContextResetParticipant); cr_segment : option ContextSegment;
}.

(** [busy]: [assertConversationIdle] throws; [sha256] names the published counts. *)
Definition resetContext (sha256 : string -> string) (db : SegDb) (owner : SegmentOwner) (conversationId : string) (targets : list Target) (resetId timestamp : string)
    (saveMemory proceed busy : bool) (evaluation : option SegmentEvaluation) (endedAt now : Z)
    : SegDb * list Target * result reset_error ContextResetResult :=
  if busy then (db, targets, Err ConversationBusyError)
  else
    let '(targets, participants) := resetEach targets resetId timestamp saveMemory proceed in
    match participants with
    | Err e => (db, targets, Err e)
    | Ok participants =>
        let done := List.filter (fun p => cp_reset p.2) participants in
        let fresh := existsb (fun p => negb (cp_already_reset p.2)) done in
        let resultId := if fresh then resetId else nullish (head done ≫= fun p => cp_reset_id p.2) resetId in
        let '(db, segment) :=
          match done with
          | [] => (db, None)
          | first :: rest =>
              if fresh then
                let count := fold_left Z.max (map (fun p => cp_message_count p.2) rest) (cp_message_count first.2) in
                let '(db, segment, _) := Segments.record sha256 owner
                  (Segments.mkRecord conversationId resetId (map fst (List.filter (fun p => negb (cp_already_reset p.2)) done)) count endedAt evaluation) now db in
                (db, segment)
              else (db, Segments.get db owner conversationId resultId)
          end in
        (db, targets, Ok (mkResetResult resultId (negb (bool_decide (done = []))) (negb (bool_decide (done = [])) && negb fresh)
                            (existsb (fun p => cp_memory_saved p.2) participants)
                            (existsb (fun p => negb (cp_reset p.2) && isContextResetMemoryFailure (cp_memory_reason p.2)) participants)
                            participants segment))
    end.
End Conversation.

(** * The transcript *)

(** ** Sizes add up where no pair is cut *)

Definition endsPlain (a : text) : Prop := match last a with Some c => isHigh c = false | None => True end.

Lemma endsPlain_cons c d a : endsPlain (c :: d :: a) <-> endsPlain (d :: a).
Proof. unfold endsPlain. by rewrite last_cons_cons. Qed.

Lemma codePoints_app a b : endsPlain a -> codePoints (a ++ b) = codePoints a ++ codePoints b.
Proof.
  remember (length a) as n eqn:Hn. assert (length a <= n)%nat as Hle by lia. clear Hn. revert a Hle.
  induction n as [|n IH]; intros [|c [|d a]] Hle Hp; cbn in Hle; try done; try lia.
  - unfold endsPlain in Hp. cbn in Hp. destruct b as [|d b]; [done|]. cbn. by rewrite Hp.
  - apply endsPlain_cons in Hp. cbn [app codePoints]. destruct (isHigh c && isLow d) eqn:E.
    + cbn [app]. f_equal. destruct a as [|e a]; [done|]. apply IH; [cbn in *; lia|]. by apply endsPlain_cons in Hp.
    + cbn [app]. f_equal. apply (IH (d :: a)); [cbn in *; lia|done].
Qed.

Lemma byteLength_app a b : endsPlain a -> byteLength (a ++ b) = byteLength a + byteLength b.
Proof.
  intros Ha. unfold byteLength. rewrite codePoints_app by done.
  induction (codePoints a) as [|p l IH]; cbn; [done|]. rewrite IH. lia.
Qed.

Lemma quoteBody_app f a b : a <> [] -> endsPlain a -> Redaction.quoteBody f (a ++ b) = Redaction.quoteBody f a ++ Redaction.quoteBody false b.
Proof.
  revert f. induction a as [|c [|d a] IH]; intros f Hne Hp; [done| |].
  - unfold endsPlain in Hp. cbn in Hp. cbn [app Redaction.quoteBody]. rewrite Hp. cbn [andb]. by rewrite app_nil_r.
  - apply endsPlain_cons in Hp. change ((c :: d :: a) ++ b) with (c :: (d :: a) ++ b).
    cbn [Redaction.quoteBody]. cbn [app] in *. rewrite <- app_assoc. f_equal. by apply IH.
Qed.

(** ** Dropping half a pair *)

Lemma hexDigit_plain n : 0 <= n < 16 -> isHigh (Redaction.hexDigit n) = false /\ Redaction.hexDigit n < 128.
Proof. intros Hn. unfold Redaction.hexDigit, isHigh. destruct (Z.ltb_spec n 10); split; try lia; apply andb_false_iff; left; apply Z.leb_gt; lia. Qed.

Lemma escape_low c : isLow c = true -> endsPlain (Redaction.escape false c).
Proof.
  intros Hc. unfold isLow in Hc. apply andb_true_iff in Hc as [H1%Z.leb_le H2%Z.leb_le]. unfold Redaction.escape.
  rewrite !(proj2 (Z.eqb_neq c _)) by lia. replace (isHigh c || isLow c) with true.
  - rewrite andb_true_r, orb_true_r. unfold endsPlain. cbn. apply hexDigit_plain. apply Z.mod_pos_bound. lia.
  - symmetry. apply orb_true_iff. right. unfold isLow. apply andb_true_iff. split; apply Z.leb_le; lia.
Qed.

Lemma prefix_plain : prefix <> [] /\ endsPlain prefix /\ endsPlain ([34] ++ Redaction.quoteBody false prefix).
Proof. vm_compute. done. Qed.

Lemma jsonUtf8Bytes_prefix x : jsonUtf8Bytes (prefix ++ x) = byteLength ([34] ++ Redaction.quoteBody false prefix) + byteLength (Redaction.quoteBody false x ++ [34]).
Proof.
  destruct prefix_plain as (H1 & H2 & H3). unfold jsonUtf8Bytes, Redaction.quote. rewrite (quoteBody_app _ _ _ H1 H2).
  rewrite <- (app_assoc (Redaction.quoteBody false prefix)), (app_assoc [34]). apply byteLength_app, H3.
Qed.

Lemma drop_half c x : isLow c = true -> jsonUtf8Bytes (prefix ++ x) <= jsonUtf8Bytes (prefix ++ c :: x).
Proof.
  intros Hc. rewrite !jsonUtf8Bytes_prefix. cbn [Redaction.quoteBody].
  assert (isHigh c = false) as Hh.
  { unfold isLow, isHigh in *. apply andb_true_iff in Hc as [H1%Z.leb_le _]. apply andb_false_iff. right. apply Z.leb_gt. lia. }
  rewrite Hh. cbn [andb]. rewrite <- app_assoc, (byteLength_app (Redaction.escape false c)) by (by apply escape_low).
  pose proof (EventSafety.byteLength_nonneg (Redaction.escape false c)). lia.
Qed.

(** The size does not shrink with every unit that is dropped: half a pair takes more than the pair. *)
Lemma size_can_grow : jsonUtf8Bytes [55357; 56832; 33] = 7 /\ jsonUtf8Bytes [56832; 33] = 9.
Proof. split; vm_compute; reflexivity. Qed.

(** ** The search *)

Lemma search_spec body fuel low high : fits body high = true -> fits body (pred low) = false -> (1 <= low <= high)%nat -> (high - low <= fuel)%nat ->
  fits body (search body fuel low high) = true /\ fits body (pred (search body fuel low high)) = false /\ (1 <= search body fuel low high <= high)%nat.
Proof.
  revert low high. induction fuel as [|fuel IH]; intros low high Hh Hl Hle Hf; cbn [search].
  - assert (high = low) as -> by lia. done.
  - destruct (Nat.ltb_spec low high) as [Hlt|Hge]; [|assert (high = low) as -> by lia; done].
    pose proof (Nat.div_mod (low + high) 2 ltac:(lia)) as Hm. pose proof (Nat.mod_upper_bound (low + high) 2 ltac:(lia)) as Hb.
    set (middle := ((low + high) / 2)%nat) in *. assert (low <= middle < high)%nat as Hmid by lia.
    destruct (fits body middle) eqn:E.
    + destruct (IH low middle) as (A & B & C); [done|done|lia|lia|]. split_and!; [done|done|lia|lia].
    + destruct (IH (S middle) high) as (A & B & C); [done|done|lia|lia|]. split_and!; [done|done|lia|lia].
Qed.

Lemma fits_end body : fits body (length body) = true.
Proof. unfold fits. rewrite drop_all, app_nil_r. vm_compute. reflexivity. Qed.
#[local] Opaque prefix.

Lemma fits_afterPair body start : fits body start = true -> fits body (afterPair body start) = true.
Proof.
  unfold afterPair. destruct (body !! start) as [c|] eqn:Hc; [|done]. destruct (isLow c) eqn:Hlow; [|done].
  unfold fits, within. rewrite (drop_S _ _ _ Hc). intros [H1%Z.leb_le H2%Z.leb_le]%andb_true_iff. apply andb_true_iff. split; apply Z.leb_le.
  - unfold tlen in *. rewrite !length_app in *. cbn [length] in H1. unfold text in *. lia.
  - etrans; [by apply drop_half|done].
Qed.

(** C23. The transcript offered to the memory always respects both limits of the Manager's request,
    100,000 characters and 204,800 bytes of encoded JSON, and the search for where it starts ends.
    It is the whole conversation when that fits; otherwise it keeps the newest part, starting at
    the first position at or after one before which nothing would have fitted, and never in the
    middle of a surrogate pair. *)
Theorem transcript_fits (messages : list (MessageRole * Content)) : bodyOf messages <> [] ->
  within (resetTranscript messages).1 = true
  /\ exists start, (resetTranscript messages).1 = prefix ++ drop start (bodyOf messages)
    /\ (resetTranscript messages).2 = negb (start =? 0)%nat
    /\ (start <> 0%nat -> fits (bodyOf messages) 0 = false
         /\ (exists cut, (1 <= cut)%nat /\ (start = cut \/ start = S cut) /\ fits (bodyOf messages) cut = true /\ fits (bodyOf messages) (pred cut) = false)
         /\ ~ (exists h l, bodyOf messages !! pred start = Some h /\ isHigh h = true /\ bodyOf messages !! start = Some l /\ isLow l = true)).
Proof.
  intros Hne. set (body := bodyOf messages) in *. unfold resetTranscript. fold body. rewrite bool_decide_false by done.
  destruct (fits body 0) eqn:E; cbn [fst snd].
  { split; [by unfold fits in E; rewrite drop_0 in E|]. exists 0%nat. by rewrite drop_0. }
  assert (1 <= length body)%nat as Hlen by (destruct body; [done|cbn; lia]).
  destruct (search_spec body (length body) 1 (length body)) as (A & B & C); [apply fits_end|done|lia|lia|].
  set (cut := search body (length body) 1 (length body)) in *. split; [apply (fits_afterPair body cut A)|].
  exists (afterPair body cut). split; [done|].
  assert (afterPair body cut = cut \/ afterPair body cut = S cut) as Hor by (unfold afterPair; repeat case_match; auto).
  split; [destruct (Nat.eqb_spec (afterPair body cut) 0); [lia|done]|]. intros _. split; [done|]. split; [exists cut; split_and!; [lia|done..]|].
  intros (h & l & Hh & Hhigh & Hl & Hlow). unfold afterPair in Hh, Hl. destruct (body !! cut) as [c|] eqn:Hc; [|congruence].
  destruct (isLow c) eqn:Hlc; [|congruence]. cbn [pred] in Hh. assert (h = c) as -> by congruence.
  unfold isHigh, isLow in *. apply andb_true_iff in Hhigh as [_ H1%Z.leb_le]. apply andb_true_iff in Hlc as [H2%Z.leb_le _]. lia.
Qed.

(** * The reset *)

Lemma readReason_text r : readReason (Some (reasonText r)) = r.
Proof. by destruct r. Qed.

Section ResetOnce.
Context {S : Type} `{SessionManagerLaws S} (hasClient : bool) (retain : text * bool -> result RetainError string).

(** The branch after a reset. *)
Lemma branch_after (s : S) d level : exists entryId,
  getBranch (match level with Some l => appendThinkingLevelChange (appendMarker (resetLeaf s) d) l | None => appendMarker (resetLeaf s) d end)
  = ResetMarker entryId d :: match level with Some l => [ThinkingLevelChange l] | None => [] end.
Proof.
  destruct (branch_appendMarker (resetLeaf s) d) as [i Hi]. rewrite branch_resetLeaf in Hi. cbn in Hi. exists i.
  destruct level; [|done]. by rewrite branch_appendThinking, Hi.
Qed.

(** What a call of [resetRecordContext] did: nothing, with what was there before; or a new branch. *)
Lemma reset_cases snapshot (s s' : S) resetId ts saveMemory proceed busy busyAfter r :
  resetRecordContext hasClient retain snapshot s resetId ts saveMemory proceed busy busyAfter = (s', r) ->
  (s' = s /\ (forall p, r = Ok p -> cp_reset p = true -> lastResetMarker (getBranch s) = Some p))
  \/ exists reason operationId, let messages := conversationMessages (getBranch s) in let count := Z.of_nat (length messages) in
      (reason, operationId) = (if saveMemory then retainResetTranscript hasClient retain snapshot messages else (Skipped, None))
      /\ lastResetMarker (getBranch s) = None
      /\ (isContextResetMemoryFailure reason = true -> proceed = true) /\ busy = false /\ busyAfter = false
      /\ r = Ok (mkParticipantReset true false (Some resetId) count (bool_decide (reason = Saved)) reason operationId)
      /\ exists entryId, getBranch s' = ResetMarker entryId (mkMarker (Some resetId) (Some ts) (Some count) (bool_decide (reason = Saved)) (Some (reasonText reason)) operationId)
           :: match lastThinking (getBranch s) with Some l => [ThinkingLevelChange l] | None => [] end.
Proof.
  unfold resetRecordContext. destruct busy; [intros [= <- <-]; by left|]. destruct (lastResetMarker (getBranch s)) as [previous|] eqn:Hm.
  { intros [= <- <-]. left. split; [done|]. by intros p [= <-]. }
  destruct (negb (existsb _ _)); [intros [= <- <-]; left; split; [done|]; by intros p [= <-]|].
  destruct (if saveMemory then _ else _) as [reason operationId] eqn:Hr.
  destruct (isContextResetMemoryFailure reason && negb proceed) eqn:Hf; [intros [= <- <-]; left; split; [done|]; by intros p [= <-]|].
  destruct busyAfter; [intros [= <- <-]; by left|]. intros [= <- <-]. right. exists reason, operationId. cbn zeta. split_and!; try done.
  - intros E. rewrite E in Hf. by destruct proceed.
  - apply branch_after.
Qed.

Lemma marker_read entryId resetId ts count saved reason op level :
  lastResetMarker (ResetMarker entryId (mkMarker (Some resetId) (Some ts) (Some count) saved (Some (reasonText reason)) op)
    :: match level with Some l => [ThinkingLevelChange l] | None => [] end) = Some (mkParticipantReset true true (Some resetId) count saved reason op).
Proof. unfold lastResetMarker. destruct level; cbn [reverse rev_append lastMarkerOf]; unfold reverse; cbn; by rewrite ?readReason_text; destruct reason. Qed.

(** A context is reset once.  A reset that opened a new branch leaves no message of the
    conversation on it; and asking again before anything was said gives, whatever the request
    says and whatever the Manager would answer, the same identifier, count and outcome as the
    first time, marked as a repetition, without touching the session file. *)
Theorem reset_happens_once snapshot (s s' : S) resetId ts saveMemory proceed busy busyAfter p :
  resetRecordContext hasClient retain snapshot s resetId ts saveMemory proceed busy busyAfter = (s', Ok p) ->
  cp_reset p = true -> cp_already_reset p = false ->
  conversationMessages (getBranch s') = []
  /\ lastThinking (getBranch s') = lastThinking (getBranch s)
  /\ forall hasClient' retain' snapshot' resetId' ts' saveMemory' proceed' busyAfter',
       resetRecordContext hasClient' retain' snapshot' s' resetId' ts' saveMemory' proceed' false busyAfter'
       = (s', Ok (mkParticipantReset true true (cp_reset_id p) (cp_message_count p) (cp_memory_saved p) (cp_memory_reason p) (cp_operation_id p))).
Proof.
  intros Hr Hp Ha. destruct (reset_cases _ _ _ _ _ _ _ _ _ _ Hr) as [[_ Hm]|(reason & op & _ & _ & _ & _ & _ & [= ->] & entryId & Hb)].
  { specialize (Hm p eq_refl Hp). exfalso. revert Hm. unfold lastResetMarker. generalize (reverse (getBranch s)). intros l.
    induction l as [|[] l IH]; cbn; try done; intros [= <-]. done. }
  rewrite Hb. split_and!; [by destruct (lastThinking _)|unfold lastThinking at 1; by destruct (lastThinking (getBranch s))|].
  intros. unfold resetRecordContext. rewrite Hb, marker_read. reflexivity.
Qed.

(** What the outcome of a participant says is what happened: its context is gone, under this
    reset's identifier; a failure to save is accepted by the request; and memory is reported as
    saved exactly when a snapshot that allows it was there and the Manager accepted the
    transcript, with the operation it answered. *)
Definition tells (snapshot : option Projections.fields) (s : S) (resetId : string) (saveMemory proceed : bool) (p : ContextResetParticipant) : Prop :=
  cp_reset p = true /\ cp_already_reset p = false /\ cp_reset_id p = Some resetId /\ cp_message_count p = Z.of_nat (length (conversationMessages (getBranch s)))
  /\ (isContextResetMemoryFailure (cp_memory_reason p) = true -> proceed = true)
  /\ (cp_memory_saved p = true <-> saveMemory = true /\ hasClient = true
        /\ exists sn op, snapshot = Some sn /\ isMemoryRetainAllowed sn = true /\ (resetTranscript (conversationMessages (getBranch s))).1 <> []
             /\ retain (resetTranscript (conversationMessages (getBranch s))) = Ok op /\ cp_operation_id p = Some op).

(** The same outcome, read from the marker by a request that comes later. *)
Definition again (p : ContextResetParticipant) : ContextResetParticipant :=
  mkParticipantReset true true (cp_reset_id p) (cp_message_count p) (cp_memory_saved p) (cp_memory_reason p) (cp_operation_id p).

Lemma dropped_and_told snapshot (s s' : S) resetId ts saveMemory proceed busy busyAfter r :
  resetRecordContext hasClient retain snapshot s resetId ts saveMemory proceed busy busyAfter = (s', r) -> s' <> s ->
  exists p, r = Ok p /\ tells snapshot s resetId saveMemory proceed p /\ lastResetMarker (getBranch s') = Some (again p).
Proof.
  intros Hr Hne. destruct (reset_cases _ _ _ _ _ _ _ _ _ _ Hr) as [[? _]|(reason & op & Ho & _ & Hf & _ & _ & -> & entryId & Hb)]; [done|].
  eexists. split; [reflexivity|]. rewrite Hb, marker_read. split; [|done]. clear Hb Hr. unfold tells. cbn. split_and!; [done..|]. rewrite bool_decide_eq_true.
  destruct saveMemory; cbn in Ho; [|injection Ho as -> ->; naive_solver].
  unfold retainResetTranscript in Ho. destruct snapshot as [sn|]; [|injection Ho as -> ->; naive_solver].
  destruct hasClient; cbn in Ho; [|injection Ho as -> ->; naive_solver].
  destruct (isMemoryRetainAllowed sn) eqn:Hallow; cbn in Ho; [|injection Ho as -> ->; naive_solver].
  case_bool_decide as Ht; [injection Ho as -> ->; naive_solver|].
  destruct (retain _) as [op'|e] eqn:Hret; injection Ho as -> ->.
  - split; [|done]. intros _. split_and!; [done..|]. exists sn, op'. by split_and!.
  - split; [|naive_solver]. destruct e; cbn; repeat case_match; done.
Qed.

Lemma reset_Err snapshot (s s' : S) resetId ts saveMemory proceed busy busyAfter e :
  resetRecordContext hasClient retain snapshot s resetId ts saveMemory proceed busy busyAfter = (s', Err e) -> busy = true \/ busyAfter = true.
Proof.
  unfold resetRecordContext. destruct busy; [by left|]. destruct (lastResetMarker _); [done|]. destruct (negb _); [done|].
  destruct (if saveMemory then _ else _). destruct (_ && _); [done|]. destruct busyAfter; [by right|done].
Qed.
End ResetOnce.

(** ** The whole conversation *)

Section ResetAll.
Context {S : Type} `{SessionManagerLaws S}.

Lemma resetEach_each (targets targets' : list Target) resetId ts saveMemory proceed rs : resetEach targets resetId ts saveMemory proceed = (targets', rs) ->
  (forall e, rs = Err e -> exists t, t ∈ targets /\ (tg_busy t = true \/ tg_busyAfter t = true))
  /\ forall i t t', targets !! i = Some t -> targets' !! i = Some t' -> exists r,
       resetRecordContext (tg_hasClient t) (tg_retain t) (tg_snapshot t) (tg_session t) resetId ts saveMemory proceed (tg_busy t) (tg_busyAfter t) = (tg_session t', r)
       /\ forall ps, rs = Ok ps -> exists p, r = Ok p /\ ps !! i = Some (tg_employee t, p).
Proof.
  revert targets' rs. induction targets as [|t targets IH]; intros targets' rs; cbn [resetEach]; [by intros [= <- <-]|].
  destruct (resetRecordContext _ _ _ _ _ _ _ _ _ _) as [s r] eqn:Hr. destruct (resetEach targets _ _ _ _) as [ts' rs'] eqn:Hrs. intros [= <- <-].
  destruct (IH _ _ eq_refl) as [He Hi]. split.
  - intros e. destruct r as [p|e']; cbn.
    + destruct rs' as [ps|e']; cbn; [done|]. intros _. destruct (He e' eq_refl) as (t' & ? & ?). exists t'. split; [by right|done].
    + intros _. exists t. split; [by left|]. by eapply reset_Err.
  - intros [|i] t0 t'; cbn.
    + intros [= <-] [= <-]. exists r. split; [exact Hr|]. intros ps. destruct r as [p|]; [|done]. destruct rs' as [ps'|]; [|done]. intros [= <-]. by exists p.
    + intros H1 H2. destruct (Hi i t0 t' H1 H2) as (r0 & Hr0 & Hps). exists r0. split; [done|]. intros ps. destruct r as [p|]; [|done]. destruct rs' as [ps'|]; [|done].
      intros [= <-]. by apply Hps.
Qed.

Lemma fresh_answer (ps : list (string * ContextResetParticipant)) i e p : ps !! i = Some (e, p) -> cp_reset p = true -> cp_already_reset p = false ->
  let done := List.filter (fun p => cp_reset p.2) ps in
  existsb (fun p => negb (cp_already_reset p.2)) done = true /\ done <> [].
Proof.
  intros Hp Hr Ha done. assert (In (e, p) done) as Hin. { apply filter_In. split; [|done]. apply list_elem_of_In. by eapply list_elem_of_lookup_2. }
  split; [|by intros E; rewrite E in Hin]. apply existsb_exists. exists (e, p). split; [done|]. cbn. by rewrite Ha.
Qed.

(** C22. A context is dropped only on record.  Whenever a reset of a conversation changed the
    session file of a participant, its outcome tells what happened ([tells]): the context is gone
    under this reset's identifier, with the number of its messages; a save that failed (the
    Manager was unreachable, slow or unsure, the caller not authorised, the text too large) was
    accepted by the request; and memory is said to be saved exactly when the Manager accepted it.
    A save that the policy refused does not keep the context; the outcome says so.  The outcome is
    in the session file, where every later request reads it, and if this request is answered, it
    is in the answer, which names the reset.  The request fails only if a participant was busy:
    contexts of others may then be gone without an answer ([error_after_drop]). *)
Theorem dropped_contexts_are_on_record sha256 db owner conversationId (targets targets' : list Target) resetId ts saveMemory proceed busy evaluation endedAt now db' answer i t t' :
  resetContext sha256 db owner conversationId targets resetId ts saveMemory proceed busy evaluation endedAt now = (db', targets', answer) ->
  targets !! i = Some t -> targets' !! i = Some t' -> tg_session t' <> tg_session t ->
  exists p, tells (tg_hasClient t) (tg_retain t) (tg_snapshot t) (tg_session t) resetId saveMemory proceed p
    /\ lastResetMarker (getBranch (tg_session t')) = Some (again p)
    /\ match answer with
       | Ok a => cr_participants a !! i = Some (tg_employee t, p) /\ cr_reset a = true /\ cr_already_reset a = false /\ cr_reset_id a = resetId
       | Err _ => exists other, other ∈ targets /\ (tg_busy other = true \/ tg_busyAfter other = true)
       end.
Proof.
  unfold resetContext. destruct busy; [intros [= _ <- _]; congruence|]. destruct (resetEach _ _ _ _ _) as [ts' rs] eqn:He. destruct (resetEach_each _ _ _ _ _ _ _ He) as [Herr Hi].
  intros Hres Ht Ht' Hne. assert (ts' = targets') as ->.
  { destruct rs as [ps|]; [|by injection Hres]. destruct (match List.filter _ _ with [] => _ | _ => _ end) as [? ?]. by injection Hres. }
  destruct (Hi i t t' Ht Ht') as (r & Hr & Hps). destruct (dropped_and_told _ _ _ _ _ _ _ _ _ _ _ _ Hr Hne) as (p & -> & Htell & Hm).
  exists p. split; [done|]. split; [done|]. destruct rs as [ps|e]; [|injection Hres as _ <-; by apply (Herr e)].
  destruct (Hps ps eq_refl) as (p' & [= <-] & Hin). destruct Htell as (Hreset & Hal & _).
  destruct (fresh_answer ps i _ p Hin Hreset Hal) as [Hf Hd]. rewrite Hf in Hres.
  destruct (match List.filter _ _ with [] => _ | _ => _ end) as [db1 segment]. injection Hres as _ <-. cbn. rewrite bool_decide_eq_false_2 by done. done.
Qed.
End ResetAll.

(** * Witnesses *)

(** A session file as its current branch; entries are numbered from their position. *)
#[local] Instance demoManager : SessionManager (list SessionEntry) := {
  getBranch s := s; resetLeaf _ := []; appendMarker s d := s ++ [ResetMarker "m" d]; appendThinkingLevelChange s level := s ++ [ThinkingLevelChange level] }.
#[local] Instance demoManager_laws : SessionManagerLaws (list SessionEntry).
Proof. by split; [|intros s d; exists "m"%string|]. Qed.

Definition demoBranch : list SessionEntry :=
  [ThinkingLevelChange "high"; MessageEntry UserRole (Whole (u "hi")); MessageEntry AssistantRole (Parts [Some (u "hello"); None])]%string.
Definition demoPolicy : Projections.fields :=
  [("memory_policy", JObj [("enabled", JBool true); ("operations", JArr [JStr "recall"; JStr "retain"])])]%string.
Definition demoRetain (t : text * bool) : result RetainError string := Ok "op"%string.
Definition demoReset (s : list SessionEntry) (resetId : string) := resetRecordContext true demoRetain (Some demoPolicy) s resetId "now" true false false false.

Lemma transcript_fits_witness :
  bodyOf (conversationMessages demoBranch) <> [] /\ within (resetTranscript (conversationMessages demoBranch)).1 = true.
Proof.
  assert (bodyOf (conversationMessages demoBranch) <> []) as Hb by (vm_compute; discriminate).
  split; [exact Hb|]. exact (proj1 (transcript_fits _ Hb)).
Defined.

Lemma reset_happens_once_witness :
  exists s' p, demoReset demoBranch "r1" = (s', Ok p) /\ cp_memory_saved p = true
    /\ demoReset s' "r2" = (s', Ok (mkParticipantReset true true (Some "r1"%string) 2 true Saved (Some "op"%string))).
Proof.
  destruct (demoReset demoBranch "r1") as [s' [p|]] eqn:E; [|vm_compute in E; discriminate].
  pose proof E as E'. vm_compute in E'. injection E' as _ <-. exists s'. eexists. split; [reflexivity|]. split; [reflexivity|].
  exact (proj2 (proj2 (reset_happens_once true demoRetain _ _ _ _ _ _ _ _ _ _ E eq_refl eq_refl)) _ _ _ _ _ _ _ _).
Defined.

(** ** A group whose members were reset at different times *)

Definition demoTarget (e : string) (s : list SessionEntry) : Target := mkTarget e s (Some demoPolicy) true demoRetain false false.
Definition demoContext (db : SegDb) (targets : list Target) (resetId : string) :=
  resetContext (fun x => x) db (mkSegOwner "t" "m") "g" targets resetId "now" true false false None 5 5.
Definition demoEarlier : list SessionEntry := (demoReset demoBranch "r0").1.

(** A reset of a group in which only the second member spoke since the last one answers with its
    own identifier; repeated, it answers with the identifier of that last one, which the first
    member still has: not with the answer that was lost. *)
Lemma repeated_reset_names_an_older_one :
  exists db targets r r', demoContext (mkSegDb [] []) [demoTarget "e1" demoEarlier; demoTarget "e2" demoBranch] "r1" = (db, targets, Ok r)
    /\ cr_reset_id r = "r1"%string /\ cr_already_reset r = false
    /\ (demoContext db targets "r2").2 = Ok r' /\ cr_already_reset r' = true /\ cr_reset_id r' = "r0"%string.
Proof. do 4 eexists. split; [vm_compute; reflexivity|]. split_and!; vm_compute; reflexivity. Qed.

(** One member is busy once the transcripts were kept: the request fails, and the context of the
    other is gone all the same. *)
Definition busyTarget (e : string) (s : list SessionEntry) : Target := mkTarget e s (Some demoPolicy) true demoRetain false true.
Example error_after_drop : exists db targets, demoContext (mkSegDb [] []) [demoTarget "e1" demoBranch; busyTarget "e2" demoBranch] "r1" = (db, targets, Err ConversationBusyError)
  /\ (fun t => length (conversationMessages (getBranch (tg_session t)))) <$> targets = [0; 2]%nat.
Proof. do 2 eexists. split; vm_compute; reflexivity. Qed.

(** A save refused by policy drops the context, and the answer says that nothing was saved. *)
Definition refusedTarget : Target := mkTarget "e1" demoBranch (Some demoPolicy) true (fun _ => Err ManagerPolicyDeniedError) false false.
Example policy_refusal_drops : exists db targets a, demoContext (mkSegDb [] []) [refusedTarget] "r1" = (db, targets, Ok a)
  /\ (fun t => length (conversationMessages (getBranch (tg_session t)))) <$> targets = [0]%nat
  /\ cr_memory_saved a = false /\ cr_confirmation_required a = false /\ (fun p => cp_memory_reason p.2) <$> cr_participants a = [PolicyDenial].
Proof. do 3 eexists. split; [vm_compute; reflexivity|]. split_and!; vm_compute; reflexivity. Qed.

Lemma demo_context_targets : exists db targets a, demoContext (mkSegDb [] []) [demoTarget "e1" demoEarlier; demoTarget "e2" demoBranch] "r1" = (db, targets, Ok a)
  /\ exists t', targets !! 1%nat = Some t' /\ tg_session t' <> demoBranch.
Proof. do 3 eexists. split; [vm_compute; reflexivity|]. eexists. split; [reflexivity|]. vm_compute. discriminate. Qed.

Lemma dropped_contexts_are_on_record_witness :
  exists db targets a p, demoContext (mkSegDb [] []) [demoTarget "e1" demoEarlier; demoTarget "e2" demoBranch] "r1" = (db, targets, Ok a)
    /\ cr_participants a !! 1%nat = Some ("e2"%string, p) /\ cp_reset_id p = Some "r1"%string /\ cp_message_count p = 2.
Proof.
  destruct demo_context_targets as (db & targets & a & E & t' & Ht' & Hne).
  destruct (dropped_contexts_are_on_record (fun x => x) (mkSegDb [] []) (mkSegOwner "t" "m") "g" [demoTarget "e1" demoEarlier; demoTarget "e2" demoBranch] targets
    "r1" "now" true false false None 5 5 db (Ok a) 1 (demoTarget "e2" demoBranch) t' E eq_refl Ht' Hne) as (p & Htell & _ & Hin & _).
  exists db, targets, a, p. destruct Htell as (_ & _ & Hid & Hc & _). split; [exact E|]. split; [exact Hin|]. split; [exact Hid|exact Hc].
Defined.
