(* ===== verification/ManagerConfig.v ===== *)
(** What the Agent accepts of the Manager's authorised configuration ([normalizeAuthorizedConfig]
    and the functions it calls in manager-client.ts, with services/employee-display.ts).

    Values are parsed JSON; an object is the list of its members, and a member that becomes
    [undefined] is dropped, as the store does when it writes JSON.  Reading a signing key, which
    needs the Ed25519 library, is the parameter [parseKey].  The file shows what every accepted
    employee, solution and snapshot is known to be. *)

From Stdlib Require Import Ascii.
From stdpp Require Import pretty.
From S2P Require Import Prelude Regex Redact Codec Sql Projections GroupContext.
Local Open Scope Z_scope.

(** ** Values *)

(** [String(v)]. *)
Fixpoint jsString (v : json) : string :=
  match v with
  | JNull => "null"
  | JBool b => if b then "true" else "false"
  | JInt z => pretty z
  | JFrac p => p
  | JStr s => s
  | JArr l => String.concat "," (map (fun x => match x with JNull => ""%string | x => jsString x end) l)
  | JObj _ => "[object Object]"
  end.

(** The text of a string, and a text as it is stored. *)
Definition byteAscii (b : Z) : ascii := ascii_of_N (Z.to_N b).
Definition encode (t : text) : string := String.string_of_list_ascii (map byteAscii (utf8 t)).
(** [s.length] *)
Definition units (s : string) : Z := tlen (decode s).

Inductive manager_error : Type := ManagerUnavailableError (message : string).

Definition orNullish (a b : option json) : option json := match a with None | Some JNull => b | _ => a end.

Definition stringValue (v : option json) (name : string) : result manager_error string :=
  match v with
  | Some (JStr s) => if String.eqb s "" || (256 <? units s) then Err (ManagerUnavailableError ("Manager projection is missing " +:+ name)) else Ok s
  | _ => Err (ManagerUnavailableError ("Manager projection is missing " +:+ name))
  end.
Definition stringArray (v : option json) : json := match v with Some (JArr l) => JArr (JStr <$> stringsOf l) | _ => JArr [] end.
Definition objectValue (v : option json) : option fields := match v with Some (JObj o) => Some o | _ => None end.

(** [raw.k !== undefined && raw.k !== id] *)
Definition differs (v : option json) (id : string) : bool := match v with None => false | Some v => negb (match v with JStr s => String.eqb s id | _ => false end) end.

Definition assertOwnership (raw : fields) (tenantId memberId : option string) : result manager_error unit :=
  _ ← require (negb match nonEmpty tenantId with Some t => differs (mget "tenant_id" raw) t | None => false end)
        (ManagerUnavailableError "Manager returned a projection for a different tenant");
  require (negb match nonEmpty memberId with Some m => differs (mget "member_id" raw) m | None => false end)
        (ManagerUnavailableError "Manager returned a projection for a different member").

(** ** Policies *)

Definition withoutVersions (policy : fields) : fields := mdelete "model_version" (mdelete "provider_version" policy).
Definition normalizeModelPolicy (v : option json) : json := JObj (withoutVersions (nullish (objectValue v) [])).

Definition KNOWLEDGE_STATES : list string := ["inherit"; "allow"; "deny"]%string.
Definition KNOWLEDGE_OPERATIONS : list string := ["knowledge_search"; "knowledge_get"]%string.
Definition isOperation (v : json) : bool := match v with JStr s => bool_decide (s ∈ KNOWLEDGE_OPERATIONS) | _ => false end.

Definition normalizeKnowledgePolicy (v : option json) : result manager_error (option json) :=
  let invalid := Err (ManagerUnavailableError "Manager returned an invalid knowledge policy") in
  match v with
  | None | Some JNull => Ok None
  | _ =>
      match objectValue v with
      | None => invalid
      | Some policy =>
          match mget "state" policy, mget "allowed_operations" policy with
          | Some state, Some (JArr operations) =>
              if negb (bool_decide (jsString state ∈ KNOWLEDGE_STATES)) || (2 <? length operations)%nat
                 || negb (forallb isOperation operations)
                 || negb (length (Projections.distinct [] (stringsOf operations)) =? length operations)%nat
                 || (match state with JStr s => String.eqb s "deny" | _ => false end && negb (bool_decide (stringsOf operations = [])))
              then invalid
              else revision ← stringValue (mget "revision" policy) "knowledge policy revision";
                   Ok (Some (JObj [("state", state); ("allowed_operations", JArr operations); ("revision", JStr revision)]%string))
          | _, _ => invalid
          end
      end
  end.

(** ** Display *)

Definition roleTitle (v : option json) : json :=
  match v with Some (JStr s) => if String.eqb s "" then JNull else JStr (encode (safeText (decode s) 100)) | _ => JNull end.
Definition departmentIds (v : option json) : json :=
  match v with
  | Some (JArr l) => JArr (map (fun s => JStr (encode (safeText (decode s) 256))) (List.filter (fun s => negb (String.eqb s "")) (stringsOf l)))
  | _ => JArr []
  end.

(** ** Projections *)

Definition strOr (v : option json) (d : string) : string := nullish (asStr v) d.
(** [...(tenantId ? { k: tenantId } : typeof raw.k === "string" ? { k: raw.k } : {})] *)
Definition ownerMember (k : string) (id : option string) (raw o : fields) : fields :=
  match nonEmpty id with Some i => mset k (JStr i) o | None => match asStr (mget k raw) with Some s => mset k (JStr s) o | None => o end end.

(** [...(v === undefined ? {} : { k: v })] *)
Definition putSome (k : string) (v : option json) (o : fields) : fields := match v with Some v => mset k v o | None => o end.

Definition modelPolicyOf (raw : fields) : json :=
  match objectValue (mget "model_policy" raw) with
  | Some policy => JObj policy
  | None =>
      let pick k (o : fields) := match asStr (mget k raw) with Some s => o ++ [(k, JStr s)] | None => o end in
      JObj (pick "thinking_level"%string (pick "provider_ref"%string (pick "model"%string [])))
  end.

Definition invalidSkills {A} : result manager_error A := Err (ManagerUnavailableError "Manager returned invalid employee skills").

Definition normalizeExpert (now : string) (tenantId memberId : option string) (v : json) : result manager_error fields :=
  match v with
  | JObj raw =>
      employeeId ← stringValue (mget "employee_id" raw) "employee_id";
      let version := nullish (jsString <$> orNullish (mget "version" raw) None) ""%string in
      _ ← require (negb (String.eqb version "")) (ManagerUnavailableError "Manager employee projection is missing version");
      _ ← assertOwnership raw tenantId memberId;
      skills ← match skillRefsForSnapshot raw with Some l => Ok l | None => invalidSkills end;
      knowledge ← normalizeKnowledgePolicy (mget "knowledge_policy" raw);
      let o := mset "employee_id" (JStr employeeId) raw in
      let o := mset "tenant_id" (JStr (nullish tenantId (strOr (mget "tenant_id" raw) ""))) o in
      let o := ownerMember "member_id" memberId raw o in
      let o := mset "version" (JStr version) o in
      let o := mset "handle" (JStr (nullish (asStr (mget "employee_slug" raw)) (strOr (mget "handle" raw) employeeId))) o in
      let o := mset "display_name" (JStr (strOr (mget "display_name" raw) employeeId)) o in
      let o := mset "revoked" (JBool (match mget "revoked" raw with Some (JBool true) => true | _ => false end)) o in
      let o := mset "synced_at" (JStr (strOr (mget "synced_at" raw) now)) o in
      let o := mset "model_policy" (normalizeModelPolicy (Some (modelPolicyOf raw))) o in
      let o := mset "department_ids" (departmentIds (mget "department_ids" raw)) (mset "role_title" (roleTitle (mget "role_title" raw)) o) in
      let o := mset "tools" (stringArray (mget "tools" raw)) o in
      let o := mset "skill_refs" (JArr (JStr <$> skills)) (mset "skills" (JArr (JStr <$> skills)) o) in
      Ok (assign "knowledge_policy" knowledge o)
  | JArr _ => Err (ManagerUnavailableError "Manager projection is missing employee_id")
  | _ => Err (ManagerUnavailableError "Manager returned an invalid employee projection")
  end.

Definition normalizeSolution (tenantId memberId : option string) (v : json) : result manager_error fields :=
  match v with
  | JObj raw =>
      id ← stringValue (orNullish (mget "solution_instance_id" raw) (orNullish (mget "id" raw) (mget "solution_id" raw))) "solution_instance_id";
      let version := match orNullish (mget "version" raw) None with
        | Some v => jsString v
        | None => match mget "solution_version" raw, mget "config_version" raw with
                  | Some a, Some b => (jsString a +:+ ":" +:+ jsString b)%string
                  | a, b => nullish (jsString <$> orNullish a (orNullish b None)) ""%string
                  end
        end in
      _ ← assertOwnership raw tenantId memberId;
      let o := mset "solution_instance_id" (JStr id) raw in
      let o := mset "display_name" (JStr (strOr (mget "display_name" raw) id)) o in
      let o := mset "version" (JStr version) o in
      let o := putSome "tenant_id" (JStr <$> nonEmpty tenantId) o in
      Ok (ownerMember "member_id" memberId raw o)
  | JArr _ => Err (ManagerUnavailableError "Manager projection is missing solution_instance_id")
  | _ => Err (ManagerUnavailableError "Manager returned an invalid solution projection")
  end.

Section Config.
Context (parseKey : json -> option fields).

Definition normalizeSkillSigningKey (v : json) : result manager_error json :=
  match parseKey v with Some o => Ok (JObj o) | None => Err (ManagerUnavailableError "Manager returned invalid skill signing key metadata") end.

Definition normalizeSnapshot (tenantId memberId : option string) (v : json) : result manager_error fields :=
  match v with
  | JObj raw =>
      employeeId ← stringValue (mget "employee_id" raw) "employee_id";
      let version := nullish (jsString <$> orNullish (mget "version" raw) None) ""%string in
      snapshotVersion ← stringValue (mget "snapshot_version" raw) "snapshot_version";
      _ ← require (negb (String.eqb version "")) (ManagerUnavailableError "Manager snapshot is missing version");
      _ ← assertOwnership raw tenantId memberId;
      keys ← match mget "skill_signing_keys" raw with
             | None => Ok None
             | Some (JArr l) => ks ← mapM_result normalizeSkillSigningKey l; Ok (Some (JArr ks))
             | Some _ => Err (ManagerUnavailableError "Manager returned invalid snapshot skill signing key metadata")
             end;
      skills ← match skillRefsForSnapshot raw with Some l => Ok l | None => Err (ManagerUnavailableError "Manager returned invalid snapshot skills") end;
      knowledge ← normalizeKnowledgePolicy (mget "knowledge_policy" raw);
      let o := mset "employee_id" (JStr employeeId) raw in
      let o := mset "version" (JStr version) o in
      let o := mset "snapshot_version" (JStr snapshotVersion) o in
      let o := mset "display_name" (JStr (strOr (mget "display_name" raw) employeeId)) o in
      let o := mset "model_policy" (normalizeModelPolicy (mget "model_policy" raw)) o in
      let o := mset "tools" (stringArray (mget "tools" raw)) o in
      let o := mset "skill_refs" (JArr (JStr <$> skills)) (mset "skills" (JArr (JStr <$> skills)) o) in
      let o := putSome "skill_signing_keys" keys o in
      let o := mset "tool_policy" (nullish (JObj <$> objectValue (mget "tool_policy" raw)) (JObj [("allowed_tools"%string, stringArray (mget "tools" raw))])) o in
      let o := assign "knowledge_policy" knowledge o in
      Ok (ownerMember "member_id" memberId raw (ownerMember "tenant_id" tenantId raw o))
  | JArr _ => Err (ManagerUnavailableError "Manager projection is missing employee_id")
  | _ => Err (ManagerUnavailableError "Manager returned an invalid employee snapshot")
  end.

Record SignedSkillPackage : Type := mkPackage { sp_package : json; sp_tenant_id : string; sp_member_id : string; sp_key_id : string; sp_signature : string }.
Definition normalizeSignedSkillPackage (v : json) : result manager_error SignedSkillPackage :=
  match v with
  | JObj raw =>
      match mget "algorithm" raw, asStr (mget "key_id" raw), asStr (mget "signature" raw), asStr (mget "tenant_id" raw), asStr (mget "member_id" raw), mget "package" raw with
      | Some (JStr "Ed25519"), Some key, Some signature, Some t, Some m, Some ((JObj _ | JArr _) as package) =>
          if String.eqb t "" || String.eqb m "" then Err (ManagerUnavailableError "Manager returned an unscoped skill package")
          else Ok (mkPackage package t m key signature)
      | _, _, _, _, _, _ => Err (ManagerUnavailableError "Manager returned an unsigned or invalid skill package")
      end
  | JArr _ => Err (ManagerUnavailableError "Manager returned an unsigned or invalid skill package")
  | _ => Err (ManagerUnavailableError "Manager returned an invalid signed skill package")
  end.

Record AuthorizedConfig : Type := mkConfig {
  cf_experts : list fields; cf_solutions : list fields; cf_snapshots : option (list fields); cf_revoked_ids : list string;
  cf_skill_packages : option (list SignedSkillPackage); cf_skill_signing_keys : option (list json);
}.

Definition arrayOf (v : option json) : option (list json) := match v with Some (JArr l) => Some l | _ => None end.

Definition normalizeAuthorizedConfig (now : string) (tenantId memberId : option string) (v : json) : result manager_error AuthorizedConfig :=
  match (match v with JObj body => Some body | JArr _ => Some [] | _ => None end) with
  | None => Err (ManagerUnavailableError "Manager returned an invalid authorized config")
  | Some body =>
      experts ← mapM_result (normalizeExpert now tenantId memberId) (nullish (arrayOf (mget "experts" body)) []);
      solutions ← mapM_result (normalizeSolution tenantId memberId) (nullish (arrayOf (mget "solutions" body)) []);
      snapshots ← match arrayOf (mget "snapshots" body) with Some l => s ← mapM_result (normalizeSnapshot tenantId memberId) l; Ok (Some s) | None => Ok None end;
      let revoked := match arrayOf (mget "revoked_ids" body) with Some l => stringsOf l | None => [] end in
      let authoritative := negb match mget "skill_packages_authoritative" body with Some (JBool false) => true | _ => false end in
      packages ← match arrayOf (mget "skill_packages" body) with
                 | Some l => if authoritative then ps ← mapM_result normalizeSignedSkillPackage l; Ok (Some ps) else Ok None
                 | None => Ok None
                 end;
      keys ← match mget "skill_signing_keys" body with
             | None => Ok None
             | Some (JArr l) => ks ← mapM_result normalizeSkillSigningKey l; Ok (Some ks)
             | Some _ => Err (ManagerUnavailableError "Manager returned invalid skill signing key metadata")
             end;
      Ok (mkConfig experts solutions snapshots revoked packages keys)
  end.
End Config.

(** * What is accepted *)

Definition ownedBy (t m : string) (o : fields) : Prop := mget "tenant_id" o = Some (JStr t) /\ mget "member_id" o = Some (JStr m).
(** The Manager did not mark it as of another tenant or member. *)
Definition notForeign (t m : string) (raw : fields) : Prop :=
  (forall v, mget "tenant_id" raw = Some v -> v = JStr t) /\ (forall v, mget "member_id" raw = Some v -> v = JStr m).
Definition identifier (s : string) : Prop := s <> ""%string /\ units s <= 256.
Definition named (k : string) (o : fields) : Prop := exists s, mget k o = Some (JStr s) /\ identifier s.
Definition versioned (o : fields) : Prop := exists s, mget "version" o = Some (JStr s) /\ s <> ""%string.
(** The skills the Manager gave, distinct, under both names. *)
Definition skillsAgree (raw o : fields) : Prop := exists l, skillRefsForSnapshot raw = Some l /\ mget "skills" o = Some (JArr (JStr <$> l))
  /\ mget "skill_refs" o = mget "skills" o /\ NoDup l /\ Forall (fun s => s <> ""%string) l.
(** The policy the Manager gave, without its two release pins. *)
Definition modelPolicyClean (raw o : fields) : Prop := exists p, mget "model_policy" o = Some (JObj p)
  /\ mget "provider_version" p = None /\ mget "model_version" p = None
  /\ (forall given k, mget "model_policy" raw = Some (JObj given) -> k <> "provider_version"%string -> k <> "model_version"%string -> mget k p = mget k given).
(** The identifier and version of the answer itself. *)
Definition sameEmployee (raw o : fields) : Prop := mget "employee_id" o = mget "employee_id" raw
  /\ exists v, mget "version" raw = Some v /\ v <> JNull /\ mget "version" o = Some (JStr (jsString v)).
Definition knowledgeLimited (o : fields) : Prop :=
  match mget "knowledge_policy" o with
  | None => True
  | Some k => exists state operations revision, k = JObj [("state", state); ("allowed_operations", JArr (JStr <$> operations)); ("revision", JStr revision)]%string
      /\ jsString state ∈ KNOWLEDGE_STATES /\ NoDup operations /\ operations ⊆ KNOWLEDGE_OPERATIONS /\ (state = JStr "deny" -> operations = []) /\ identifier revision
  end.

Lemma assertOwnership_Ok raw t m u : t <> ""%string -> m <> ""%string -> assertOwnership raw (Some t) (Some m) = Ok u -> notForeign t m raw.
Proof.
  intros Ht%String.eqb_neq Hm%String.eqb_neq. unfold assertOwnership, nonEmpty. cbn [mbind option_bind]. rewrite Ht, Hm.
  intros (u1 & H1%require_Ok%negb_true_iff & H2%require_Ok%negb_true_iff)%bind_Ok.
  assert (forall v i, differs v i = false -> forall x, v = Some x -> x = JStr i) as H.
  { intros v i Hd x ->. cbn in Hd. apply negb_false_iff in Hd. destruct x; try done. by apply String.eqb_eq in Hd as ->. }
  split; by apply H.
Qed.
Lemma stringValue_Ok v name s : stringValue v name = Ok s -> v = Some (JStr s) /\ identifier s.
Proof.
  unfold stringValue. destruct v as [[]|]; try done. destruct (_ || _) eqn:E; [done|]. intros [= <-]. boolify. by split.
Qed.

Lemma distinct_spec seen l : NoDup (distinct seen l) /\ (forall x, x ∈ distinct seen l <-> x ∈ l /\ x ∉ seen).
Proof.
  revert seen. induction l as [|y l IH]; intros seen; cbn; [split; [constructor|set_solver]|].
  destruct (IH seen) as [N1 E1], (IH (y :: seen)) as [N2 E2]. case_bool_decide as Hy; [split; [done|set_solver]|].
  split; [constructor; [set_solver|done]|]. intros x. rewrite elem_of_cons, E2, elem_of_cons. destruct (decide (x = y)); set_solver.
Qed.

Lemma distinct_length seen l : (length (distinct seen l) <= length l)%nat.
Proof. revert seen. induction l as [|y l IH]; intros seen; cbn; [lia|]. case_bool_decide; cbn; [etrans; [apply IH|lia]|]. pose proof (IH (y :: seen)). lia. Qed.
Lemma distinct_full seen l : length (distinct seen l) = length l -> distinct seen l = l.
Proof.
  revert seen. induction l as [|y l IH]; intros seen; cbn; [done|]. case_bool_decide; cbn.
  - intros E. pose proof (distinct_length seen l). lia.
  - intros [= E]. f_equal. by apply IH.
Qed.

Lemma stringsOf_strings l : stringsOf (JStr <$> l) = l.
Proof. unfold stringsOf. induction l as [|s l IH]; cbn; [done|]. by f_equal. Qed.
Lemma strings_of f l : forallb f l = true -> (forall v, f v = true -> exists s, v = JStr s) -> l = JStr <$> stringsOf l.
Proof.
  intros H Hf. induction l as [|v l IH]; [done|]. cbn in H. apply andb_true_iff in H as [Hv Hl]. destruct (Hf v Hv) as [s ->].
  change (stringsOf (JStr s :: l)) with (s :: stringsOf l). rewrite fmap_cons. f_equal. by apply IH.
Qed.

Lemma knowledge_Ok v k : normalizeKnowledgePolicy v = Ok k -> forall o, knowledgeLimited (assign "knowledge_policy" k o).
Proof.
  intros H o. unfold knowledgeLimited. rewrite mget_assign, String.eqb_refl. destruct k as [k|]; [|done].
  unfold normalizeKnowledgePolicy in H. destruct v as [v|]; [|done].
  destruct v; try done. cbn [objectValue] in H. destruct (mget "state" l) as [state|]; [|done]. destruct (mget "allowed_operations" l) as [[]|]; try done.
  rename l0 into operations. destruct (_ || _) eqn:E; [done|]. apply bind_Ok in H as (revision & Hr & [= <-]). apply stringValue_Ok in Hr as [_ Hr].
  boolify. assert (operations = JStr <$> stringsOf operations) as Eo by (eapply strings_of; [eassumption|]; intros []; cbn; try done; eauto).
  set (ops := stringsOf operations) in *. exists state, ops, revision. split_and!; [by rewrite Eo| | | | |exact Hr].
  - exact H.
  - apply Nat.eqb_eq in H1. rewrite <- (distinct_full [] ops); [apply distinct_spec|]. rewrite H1, Eo. by rewrite length_fmap.
  - intros x Hx. assert (JStr x ∈ operations) as Hin by (rewrite Eo; by apply list_elem_of_fmap_2).
    rewrite forallb_forall in H2. specialize (H2 (JStr x)). cbn in H2. apply list_elem_of_In in Hin. by apply H2, bool_decide_eq_true in Hin.
  - intros ->. cbn in H0. apply negb_false_iff, bool_decide_eq_true in H0. done.
Qed.

Lemma skillRefs_Ok raw l : skillRefsForSnapshot raw = Some l -> NoDup l /\ Forall (fun s => s <> ""%string) l.
Proof.
  unfold skillRefsForSnapshot. destruct (mget _ raw) as [v|]; [|intros [= <-]; split; constructor].
  destruct v as [| | | | |vs|]; try done. destruct (existsb _ vs) eqn:E; [done|]. intros [= <-]. split; [apply distinct_spec|].
  apply Forall_forall. intros s [Hs _]%distinct_spec. unfold stringsOf in Hs. apply list_elem_of_omap in Hs as (v & Hv & Hs).
  destruct v as [| | | |s'| |]; try done. cbn in Hs. injection Hs as ->. intros ->. apply not_true_iff_false in E. apply E, existsb_exists.
  exists (JStr ""). by rewrite <- list_elem_of_In.
Qed.

Lemma modelPolicy_Ok v : exists p, normalizeModelPolicy v = JObj p /\ mget "provider_version" p = None /\ mget "model_version" p = None
  /\ (forall given k, v = Some (JObj given) -> k <> "provider_version"%string -> k <> "model_version"%string -> mget k p = mget k given).
Proof.
  eexists. split; [reflexivity|]. unfold withoutVersions. rewrite !mget_mdelete. split_and!; [done..|].
  intros given k -> H1%String.eqb_neq H2%String.eqb_neq. cbn [objectValue nullish default Datatypes.id]. rewrite !mget_mdelete. by rewrite H1, H2.
Qed.

Lemma mget_ownerMember k k' m raw o : m <> ""%string -> mget k (ownerMember k' (Some m) raw o) = if String.eqb k k' then Some (JStr m) else mget k o.
Proof. intros Hm%String.eqb_neq. unfold ownerMember. cbn. rewrite Hm. apply mget_mset. Qed.

Lemma mget_putSome k k' v o : mget k (putSome k' v o) = if String.eqb k k' then match v with Some v => Some v | None => mget k o end else mget k o.
Proof. destruct v; cbn; [apply mget_mset|by case_match]. Qed.

(** The members of a normalised object, one by one. *)
Ltac readMembers := repeat (first [rewrite mget_assign | rewrite mget_mset | rewrite mget_putSome | rewrite mget_ownerMember by done]; cbn [String.eqb Ascii.eqb Bool.eqb]).

Lemma version_given raw v : v = nullish (jsString <$> orNullish (mget "version" raw) None) ""%string -> v <> ""%string ->
  exists x, mget "version" raw = Some x /\ x <> JNull /\ v = jsString x.
Proof. intros ->. destruct (mget "version" raw) as [[]|]; try done; intros _; eexists; done. Qed.

Definition expertTyped (t m : string) (raw o : fields) : Prop :=
  notForeign t m raw /\ ownedBy t m o /\ sameEmployee raw o /\ named "employee_id" o /\ versioned o /\ skillsAgree raw o /\ modelPolicyClean raw o /\ knowledgeLimited o.
Definition solutionTyped (t m : string) (raw o : fields) : Prop :=
  notForeign t m raw /\ ownedBy t m o /\ named "solution_instance_id" o /\ exists s, mget "version" o = Some (JStr s).
Definition snapshotTyped (t m : string) (raw o : fields) : Prop := expertTyped t m raw o /\ named "snapshot_version" o /\ mget "snapshot_version" o = mget "snapshot_version" raw.

Lemma expert_Ok now t m v o : t <> ""%string -> m <> ""%string -> normalizeExpert now (Some t) (Some m) v = Ok o -> exists raw, v = JObj raw /\ expertTyped t m raw o.
Proof.
  intros Ht Hm. destruct v as [| | | | | |raw]; try done. cbn [normalizeExpert].
  intros (e & [Ee He]%stringValue_Ok & (u1 & Hv%require_Ok & (u2 & Ho%assertOwnership_Ok & (skills & Hsk & (k & Hk & [= <-])%bind_Ok)%bind_Ok)%bind_Ok)%bind_Ok)%bind_Ok; [|done..].
  destruct (skillRefsForSnapshot raw) as [l|] eqn:Hs; [|done]. injection Hsk as <-. destruct (skillRefs_Ok _ _ Hs) as [Hn Hf].
  destruct (modelPolicy_Ok (Some (modelPolicyOf raw))) as (p & Hp & Hp1 & Hp2 & Hp3). apply negb_true_iff, String.eqb_neq in Hv.
  destruct (version_given raw _ eq_refl Hv) as (x & Hx1 & Hx2 & Hx3).
  exists raw. split; [done|]. split; [done|]. split; [split; readMembers; reflexivity|]. split; [split; readMembers; [by rewrite Ee|exists x; rewrite Hx3 in *; by split_and!]|].
  split_and!; [eexists; readMembers; by split|eexists; readMembers; by split| | |by apply (knowledge_Ok _ _ Hk)].
  - exists l. readMembers. by split_and!.
  - exists p. readMembers. rewrite Hp. split_and!; [done..|]. intros given k' Hg. apply Hp3. unfold modelPolicyOf. by rewrite Hg.
Qed.

Lemma solution_Ok t m v o : t <> ""%string -> m <> ""%string -> normalizeSolution (Some t) (Some m) v = Ok o -> exists raw, v = JObj raw /\ solutionTyped t m raw o.
Proof.
  intros Ht Hm. destruct v as [| | | | | |raw]; try done. cbn [normalizeSolution].
  intros (i & [_ Hi]%stringValue_Ok & (u1 & Ho%assertOwnership_Ok & [= <-])%bind_Ok)%bind_Ok; [|done..].
  exists raw. split; [done|]. split; [done|]. split_and!; [split; readMembers; rewrite ?(proj2 (String.eqb_neq t "") Ht); reflexivity|eexists; readMembers; by split|].
  eexists. readMembers. reflexivity.
Qed.

Lemma snapshot_Ok parseKey t m v o : t <> ""%string -> m <> ""%string -> normalizeSnapshot parseKey (Some t) (Some m) v = Ok o -> exists raw, v = JObj raw /\ snapshotTyped t m raw o.
Proof.
  intros Ht Hm. destruct v as [| | | | | |raw]; try done. cbn [normalizeSnapshot].
  intros (e & [Ee He]%stringValue_Ok & (sv & [Esv Hsv]%stringValue_Ok & (u1 & Hv%require_Ok & (u2 & Ho%assertOwnership_Ok & (keys & _ & (skills & Hsk & (k & Hk & [= <-])%bind_Ok)%bind_Ok)%bind_Ok)%bind_Ok)%bind_Ok)%bind_Ok)%bind_Ok; [|done..].
  destruct (skillRefsForSnapshot raw) as [l|] eqn:Hs; [|done]. injection Hsk as <-. destruct (skillRefs_Ok _ _ Hs) as [Hn Hf].
  destruct (modelPolicy_Ok (mget "model_policy" raw)) as (p & Hp & Hp1 & Hp2 & Hp3). apply negb_true_iff, String.eqb_neq in Hv.
  destruct (version_given raw _ eq_refl Hv) as (x & Hx1 & Hx2 & Hx3).
  exists raw. split; [done|]. split; [split; [done|]|split; [eexists; readMembers; by split|readMembers; by rewrite Esv]].
  split; [split; readMembers; reflexivity|]. split; [split; readMembers; [by rewrite Ee|exists x; rewrite Hx3 in *; by split_and!]|].
  split_and!; [eexists; readMembers; by split|eexists; readMembers; by split| | |].
  - exists l. readMembers. by split_and!.
  - exists p. readMembers. rewrite Hp. split_and!; [done..|]. intros given k' Hg. by apply Hp3.
  - pose proof (knowledge_Ok _ _ Hk []) as Hkn. unfold knowledgeLimited in *. readMembers. rewrite mget_assign in Hkn. exact Hkn.
Qed.

Lemma mapM_each {E A B} (f : A -> result E B) (P : A -> B -> Prop) l l' : (forall a b, f a = Ok b -> P a b) -> mapM_result f l = Ok l' -> Forall2 P l l'.
Proof. intros H Hl. apply mapM_result_Ok in Hl. induction Hl; constructor; eauto. Qed.

Lemma package_Ok v q : normalizeSignedSkillPackage v = Ok q -> sp_tenant_id q <> ""%string /\ sp_member_id q <> ""%string.
Proof.
  destruct v as [| | | | | |raw]; try done. cbn [normalizeSignedSkillPackage]. repeat (case_match; try done); intros [= <-]; cbn; by boolify.
Qed.

(** The array of the answer under a name, if there is one. *)
Definition itemsOf (answer : json) (k : string) : option (list json) := match answer with JObj body => arrayOf (mget k body) | _ => None end.

(** C40. What the Agent accepts of the Manager's answer is exactly the answer's employees, solutions
    and snapshots, one for one: an answer that marks any of them as of another tenant or member is
    refused, and each is marked as the member's own.  Employees and snapshots keep their
    identifier and version, neither empty, their skills without repetition under both names,
    their model policy without the two release pins, and have a knowledge policy that, if there
    is one, allows at most searching and reading, and nothing under a denial.  A solution's
    version is a text, possibly empty.  Skill packages are signed and name some tenant and
    member; whose they are is checked later, with the signature. *)
Theorem accepted_config_is_typed parseKey now (t m : string) (answer : json) (config : AuthorizedConfig) :
  t <> ""%string -> m <> ""%string -> normalizeAuthorizedConfig parseKey now (Some t) (Some m) answer = Ok config ->
  Forall2 (fun v o => exists raw, v = JObj raw /\ expertTyped t m raw o) (nullish (itemsOf answer "experts") []) (cf_experts config)
  /\ Forall2 (fun v o => exists raw, v = JObj raw /\ solutionTyped t m raw o) (nullish (itemsOf answer "solutions") []) (cf_solutions config)
  /\ match itemsOf answer "snapshots", cf_snapshots config with
     | Some l, Some l' => Forall2 (fun v o => exists raw, v = JObj raw /\ snapshotTyped t m raw o) l l'
     | None, None => True
     | _, _ => False
     end
  /\ (forall l, cf_skill_packages config = Some l -> Forall (fun p => sp_tenant_id p <> ""%string /\ sp_member_id p <> ""%string) l).
Proof.
  intros Ht Hm. unfold normalizeAuthorizedConfig.
  assert (forall body k, match answer with JObj body => Some body | JArr _ => Some [] | _ => None end = Some body -> arrayOf (mget k body) = itemsOf answer k) as Hb.
  { intros body k. destruct answer; try done; by intros [= <-]. }
  destruct (match answer with JObj body => Some body | JArr _ => Some [] | _ => None end) as [body|]; [|done]. rewrite !(Hb body _ eq_refl).
  intros (es & Hes & (ss & Hss & (ps & Hps & (pk & Hpk & (ks & _ & [= <-])%bind_Ok)%bind_Ok)%bind_Ok)%bind_Ok)%bind_Ok. cbn [cf_experts cf_solutions cf_snapshots cf_skill_packages]. split_and!.
  - eapply mapM_each; [|exact Hes]. intros a b. by apply expert_Ok.
  - eapply mapM_each; [|exact Hss]. intros a b. by apply solution_Ok.
  - destruct (itemsOf answer "snapshots") as [vs|]; [|injection Hps as <-; done]. apply bind_Ok in Hps as (s & Hs & [= <-]). eapply mapM_each; [|exact Hs].
    intros a b. by apply snapshot_Ok.
  - intros l ->. destruct (itemsOf answer "skill_packages") as [vs|]; [|done]. destruct (negb _); [|done]. apply bind_Ok in Hpk as (s & Hs & [= <-]).
    apply mapM_result_Ok in Hs. induction Hs as [|v q ? ? Hq _ IH]; constructor; [|done]. by apply package_Ok in Hq.
Qed.

(** A denial written as an array of one word passes the check of its state, and may list operations. *)
Example denial_with_operations : exists k, (normalizeKnowledgePolicy (Some (JObj [("state", JArr [JStr "deny"]); ("allowed_operations", JArr [JStr "knowledge_get"]); ("revision", JStr "1")]%string))) = Ok (Some k).
Proof. eexists. vm_compute. reflexivity. Qed.

(** * On a concrete input *)

Definition demoAuthorized : json := JObj
  [("experts", JArr [JObj [("employee_id", JStr "e1"); ("version", JInt 7); ("skills", JArr [JStr "a"; JStr "b"; JStr "a"]);
      ("model_policy", JObj [("model", JStr "x"); ("model_version", JStr "3")]);
      ("knowledge_policy", JObj [("state", JStr "allow"); ("allowed_operations", JArr [JStr "knowledge_get"]); ("revision", JStr "1")])]]);
   ("solutions", JArr [JObj [("id", JStr "s1"); ("solution_version", JInt 1); ("config_version", JInt 2)]])]%string.
Definition acceptedVersions (r : result manager_error AuthorizedConfig) : list (option json) :=
  match r with Ok c => mget "version" <$> cf_experts c ++ cf_solutions c | Err _ => [] end.

Example accepted_example : acceptedVersions (normalizeAuthorizedConfig (fun _ => None) "now" (Some "t"%string) (Some "m"%string) demoAuthorized) = [Some (JStr "7"); Some (JStr "1:2")].
Proof. vm_compute. reflexivity. Qed.

(** An employee of another member is not accepted for this one. *)
Example foreign_employee_refused : normalizeAuthorizedConfig (fun _ => None) "now" (Some "t"%string) (Some "m"%string)
  (JObj [("experts", JArr [JObj [("employee_id", JStr "e1"); ("version", JStr "1"); ("member_id", JStr "other")]])]%string)
  = Err (ManagerUnavailableError "Manager returned a projection for a different member").
Proof. vm_compute. reflexivity. Qed.

Lemma accepted_config_is_typed_witness :
  exists config raw expert, normalizeAuthorizedConfig (fun _ => None) "now" (Some "t"%string) (Some "m"%string) demoAuthorized = Ok config
    /\ cf_experts config = [expert] /\ expertTyped "t" "m" raw expert.
Proof.
  pose proof accepted_example as R.
  destruct (normalizeAuthorizedConfig (fun _ => None) "now" (Some "t"%string) (Some "m"%string) demoAuthorized) as [config|] eqn:E; [|discriminate R].
  destruct (accepted_config_is_typed (fun _ => None) "now" "t" "m" demoAuthorized config ltac:(discriminate) ltac:(discriminate) E) as (H & _ & _).
  apply Forall2_cons_inv_l in H as (expert & l & (raw & _ & Hx) & Hl & Hc). apply Forall2_nil_inv_l in Hl as ->.
  exists config, raw, expert. split; [reflexivity|]. split; [exact Hc|exact Hx].
Defined.
