(* ===== verification/GrantSync.v ===== *)
(** Bringing a member's grants up to date ([syncGrants] of http/server.ts with [stringField] and
    [objectField], [knownProjectionVersions] of storage/sqlite.ts), from the Manager's answer of
    ManagerConfig to the tables of Projections, and what that means for the runs of Delivery.

    The Manager is an argument: its answer to the known versions, and its answer for the snapshot
    of each employee.  Other syncs may write while this one waits, so the tables at its start, after
    the configuration has come, and when it writes are three arguments.  Checking the signatures of
    skill packages ([verified] is its outcome) and the skill cache are left out. *)

From stdpp Require Import pretty.
From S2P Require Import Prelude Scope Sql Regex ExecAuth Projections Conversations GroupContext Delivery ManagerConfig.
Local Open Scope Z_scope.

Inductive sync_error : Type :=
| HttpProblem (status : Z) (code : string)
| OtherFailure.

(** What the Manager client throws for a snapshot. *)
Inductive pull_error : Type :=
| ManagerPolicyDenied (code : string)
| ManagerAuthorization (status : Z)
| ManagerUnavailable
| PullFailure.

Definition problemOf (e : pull_error) : sync_error :=
  match e with
  | ManagerAuthorization status => HttpProblem status (if status =? 401 then "unauthenticated" else "forbidden")
  | ManagerPolicyDenied _ | ManagerUnavailable => HttpProblem 503 "manager_unavailable"
  | PullFailure => OtherFailure
  end.

Definition stringField (v : option json) (name : string) (max : Z) : result sync_error string :=
  match asStr v with
  | Some s => if String.eqb s "" || (max <? units s) then Err (HttpProblem 422 ("invalid_" +:+ name)) else Ok s
  | None => Err (HttpProblem 422 ("invalid_" +:+ name))
  end.

(** ** What the Agent has already *)

Definition knownExpert (versions : list (string * string)) (e : fields) : list (string * string) :=
  let syncVersion := nullish (nonEmpty (asStr (mget "avatar_sync_version" e))) (strOr (mget "version" e) "") in
  mset (strOr (mget "employee_id" e) "") (if falsyValue (mget "availability_reason" e) then syncVersion else "unavailable:" +:+ syncVersion)%string versions.
Definition knownProjectionVersions (db : ProjectionDb) (tenantId memberId : string) : result projection_error (list (string * string)) :=
  experts ← listLoadedExperts db (Some tenantId) (Some memberId) false;
  Ok (fold_left (fun v r => mset (so_instance_id r) (so_version r) v)
        (sql_select (fun r => String.eqb (so_tenant_id r) tenantId && (String.eqb (so_member_id r) "" || String.eqb (so_member_id r) memberId)) (solutions db))
        (fold_left knownExpert experts [])).

(** The versions the request gives; members that are not texts are passed on and never read here. *)
Definition suppliedVersions (body : fields) : result sync_error fields :=
  match mget "known_versions" body with
  | None => Ok []
  | Some (JObj l) => Ok l
  | Some _ => Err (HttpProblem 422 "invalid_known_versions")
  end.
(** [{ ...known, ...supplied }] *)
Definition knownVersions (known : list (string * string)) (supplied : fields) : fields :=
  fold_left (fun v kv => mset kv.1 kv.2 v) supplied (map (fun kv => (kv.1, JStr kv.2)) known).

(** ** Snapshots, one employee at a time *)

Definition UNAVAILABLE : list string := ["employee_unavailable"; "employee_dependency_unavailable"]%string.

Record Pulled : Type := mkPulled {
  pu_snapshots : list fields; pu_synced : list fields; pu_unavailable : list fields; pu_skipped : list string; pu_uuids : nat }.

Section Sync.
Context (parseKey : json -> option fields) (uuid : nat -> string).

Definition employeeOf (e : fields) : string := strOr (mget "employee_id" e) "".

(** The copy that blocks the employee: as it was, if it was there, with the reason. *)
Definition blocked (previousExperts : list fields) (expert : fields) (code : string) (n : nat) : fields :=
  let previous := List.find (fun p => bool_decide (asStr (mget "employee_id" p) = Some (employeeOf expert))) previousExperts in
  let revision := if bool_decide ((previous ≫= fun p => asStr (mget "availability_reason" p)) = Some code)
                  then orNullish (previous ≫= mget "availability_revision") (Some (JStr (uuid n))) else Some (JStr (uuid n)) in
  assign "availability_revision" revision (mset "availability_reason" (JStr code) (nullish previous expert)).

Fixpoint pullAll (pullSnapshots : fields -> result pull_error (list fields)) (previousExperts experts : list fields) (acc : Pulled)
    : result pull_error Pulled :=
  match experts with
  | [] => Ok acc
  | expert :: experts =>
      match pullSnapshots expert with
      | Ok l => pullAll pullSnapshots previousExperts experts
                  (mkPulled (pu_snapshots acc ++ l) (pu_synced acc ++ [expert]) (pu_unavailable acc) (pu_skipped acc) (pu_uuids acc))
      | Err (ManagerPolicyDenied code) =>
          let more := if bool_decide (code ∈ UNAVAILABLE) then [blocked previousExperts expert code (pu_uuids acc)] else [] in
          pullAll pullSnapshots previousExperts experts
            (mkPulled (pu_snapshots acc) (pu_synced acc) (pu_unavailable acc ++ more) (pu_skipped acc ++ [employeeOf expert]) (S (pu_uuids acc)))
      | Err e => Err e
      end
  end.

(** [pullSnapshots] of the Manager client: [snapshotOf] is the [snapshot] of its answer. *)
Definition clientSnapshot (tenantId memberId : string) (snapshotOf : fields -> result pull_error json) (expert : fields) : result pull_error (list fields) :=
  match snapshotOf expert with
  | Err e => Err e
  | Ok v => match normalizeSnapshot parseKey (Some tenantId) (Some memberId) v with Ok o => Ok [o] | Err _ => Err ManagerUnavailable end
  end.

(** ** The rows of a sync *)

Definition asExpert (o : fields) : Expert :=
  mkExpert (strOr (mget "employee_id" o) "") (strOr (mget "tenant_id" o) "") (asStr (mget "member_id" o)) (strOr (mget "version" o) "") (asStr (mget "synced_at" o)) o.
Definition asSolution (o : fields) : Solution :=
  mkSolution (strOr (mget "solution_instance_id" o) "") (asStr (mget "tenant_id" o)) (asStr (mget "member_id" o)) (strOr (mget "version" o) "") o.
Definition asSnapshot (o : fields) : Snapshot :=
  mkSnapshot (strOr (mget "employee_id" o) "") (asStr (mget "tenant_id" o)) (asStr (mget "member_id" o)) (strOr (mget "version" o) "")
    (strOr (mget "snapshot_version" o) "") o.
Definition available (expert : fields) : fields := mdelete "availability_revision" (mdelete "availability_reason" expert).

Record SyncResult : Type := mkSyncResult { sr_synced : nat; sr_revoked : nat; sr_partial : bool; sr_skipped : list string }.

(** What a sync has in hand before it writes: [before] are the tables at its start, [during] those
    once the configuration has come. *)
Definition gatherGrants (before during : ProjectionDb) (caller : ExecAuth.AuthenticatedCaller) (body : fields)
    (pullAuthorizedConfig : option (fields -> result pull_error json))
    (pullSnapshots : option (fields -> result pull_error (list fields)))
    (verified : AuthorizedConfig -> result sync_error unit) (now : string) : result sync_error (string * AuthorizedConfig * Pulled) :=
  let memberId := callerMemberId caller in
  pull ← match pullAuthorizedConfig with Some f => Ok f | None => Err (HttpProblem 503 "manager_unavailable") end;
  tenantId ← stringField (mget "tenant_id" body) "tenant_id" 200;
  requested ← stringField (mget "member_id" body) "member_id" 200;
  _ ← require (bool_decide (ExecAuth.c_tenantId caller = Some tenantId) && String.eqb requested memberId) (HttpProblem 403 "forbidden");
  supplied ← suppliedVersions body;
  known ← match knownProjectionVersions before tenantId memberId with Ok v => Ok v | Err _ => Err OtherFailure end;
  answer ← match pull (knownVersions known supplied) with Ok v => Ok v | Err e => Err (problemOf e) end;
  config ← match normalizeAuthorizedConfig parseKey now (Some tenantId) (Some memberId) answer with
           | Ok c => Ok c
           | Err _ => Err (HttpProblem 503 "manager_unavailable")
           end;
  previousExperts ← match listLoadedExperts during (Some tenantId) (Some memberId) false with Ok l => Ok l | Err _ => Err OtherFailure end;
  pulled ← match cf_snapshots config, pullSnapshots with
           | None, Some f => match pullAll f previousExperts (cf_experts config) (mkPulled [] [] [] [] 0) with Ok p => Ok p | Err e => Err (problemOf e) end
           | snapshots, _ => Ok (mkPulled (nullish snapshots []) (cf_experts config) [] [] 0)
           end;
  _ ← verified config;
  Ok (tenantId, config, pulled).

(** [db] are the tables when the sync writes. *)
Definition syncGrants (before during db : ProjectionDb) (caller : ExecAuth.AuthenticatedCaller) (body : fields)
    (pullAuthorizedConfig : option (fields -> result pull_error json))
    (pullSnapshots : option (fields -> result pull_error (list fields)))
    (verified : AuthorizedConfig -> result sync_error unit) (now : string) : ProjectionDb * result sync_error SyncResult :=
  match gatherGrants before during caller body pullAuthorizedConfig pullSnapshots verified now with
  | Err e => (db, Err e)
  | Ok (tenantId, config, pulled) =>
      let '(db, (updated, revoked)) :=
        replaceProjections db (asExpert <$> (available <$> pu_synced pulled) ++ pu_unavailable pulled) (asSolution <$> cf_solutions config)
          (asSnapshot <$> pu_snapshots pulled) (cf_revoked_ids config) (Some (mkOwner tenantId (callerMemberId caller))) now in
      (db, Ok (mkSyncResult updated revoked (negb (bool_decide (pu_skipped pulled = []))) (pu_skipped pulled)))
  end.
End Sync.

(** * What a sync writes *)

Section Proofs.
Context (parseKey : json -> option fields) (uuid : nat -> string).

(** The tables a history of syncs leaves, whoever they were for and however they overlapped. *)
Inductive granted : ProjectionDb -> Prop :=
| granted_none : granted emptyProjections
| granted_sync before during db caller body pull snapshots verified now :
    granted during -> granted db -> granted (syncGrants parseKey uuid before during db caller body pull snapshots verified now).1.

Definition grantedOk (db : ProjectionDb) : Prop := wf_db db /\ Forall (fun r => ex_member_id r <> ""%string) (experts db).

Lemma stringField_Ok v name max s : stringField v name max = Ok s -> v = Some (JStr s) /\ s <> ""%string.
Proof.
  unfold stringField. destruct v as [[]|]; try done. cbn. destruct (_ || _) eqn:E; [done|]. intros [= <-]. boolify. by split.
Qed.

Lemma config_owned now t m v config : t <> ""%string -> m <> ""%string ->
  normalizeAuthorizedConfig parseKey now (Some t) (Some m) v = Ok config ->
  forall o, o ∈ cf_experts config -> ManagerConfig.ownedBy t m o /\ mget "employee_id" o = Some (JStr (employeeOf o)).
Proof.
  intros Ht Hm. unfold normalizeAuthorizedConfig. destruct (match v with JObj body => Some body | _ => _ end) as [body|]; [|done].
  intros (es & Hes & (ss & _ & (ps & _ & (pk & _ & (ks & _ & [= <-])%bind_Ok)%bind_Ok)%bind_Ok)%bind_Ok)%bind_Ok. 
  assert (Forall2 (fun v o => exists raw, v = JObj raw /\ expertTyped t m raw o) (nullish (arrayOf (mget "experts" body)) []) es) as H
    by (eapply mapM_each; [|exact Hes]; intros a b; by apply expert_Ok).
  intros o Ho. cbn [cf_experts] in Ho. apply list_elem_of_lookup in Ho as [i Ho]. destruct (Forall2_lookup_r _ _ _ _ _ H Ho) as (raw & _ & raw' & _ & _ & Hw & _ & (e & He & _) & _).
  split; [done|]. unfold employeeOf, strOr. by rewrite He.
Qed.

(** ** Pulling *)

Lemma pullAll_spec f prev l acc p : pullAll uuid f prev l acc = Ok p ->
  (forall o, o ∈ pu_synced p -> o ∈ pu_synced acc \/ o ∈ l)
  /\ (forall o, o ∈ pu_unavailable p -> o ∈ pu_unavailable acc
        \/ exists expert code n, expert ∈ l /\ code ∈ UNAVAILABLE /\ o = blocked uuid prev expert code n)
  /\ (forall o, o ∈ pu_unavailable acc -> o ∈ pu_unavailable p)
  /\ (forall expert code, expert ∈ l -> f expert = Err (ManagerPolicyDenied code) -> code ∈ UNAVAILABLE ->
        exists n, blocked uuid prev expert code n ∈ pu_unavailable p).
Proof.
  revert acc. induction l as [|x l IH]; intros acc; cbn [pullAll].
  { intros [= <-]. split_and!; auto. by intros ? ? ?%not_elem_of_nil. }
  destruct (f x) as [sn|[code|?| |]] eqn:Hf; try done; intros (H1 & H2 & H3 & H4)%IH; cbn [pu_synced pu_unavailable] in *.
  - split_and!.
    + intros o [[?|Ho]%elem_of_app|?]%H1; [by left| |right; by right]. apply list_elem_of_singleton in Ho as ->. right. by left.
    + intros o [?|(e & c & n & ? & ? & ?)]%H2; [by left|right]. exists e, c, n. split_and!; [by right|done..].
    + done.
    + intros e c [->|He]%elem_of_cons Hc Hu; [congruence|by apply (H4 e c)].
  - split_and!.
    + intros o [?|?]%H1; [by left|right; by right].
    + intros o [[?|Ho]%elem_of_app|(e & c & n & ? & ? & ?)]%H2; [by left|right|right; exists e, c, n; split_and!; [by right|done..]].
      case_bool_decide as Hc; [|by apply not_elem_of_nil in Ho]. apply list_elem_of_singleton in Ho as ->.
      exists x, code, (pu_uuids acc). split_and!; [by left|done..].
    + intros o Ho. apply H3, elem_of_app. by left.
    + intros e c [->|He]%elem_of_cons Hc Hu; [|by apply (H4 e c)]. rewrite Hf in Hc. injection Hc as ->.
      exists (pu_uuids acc). apply H3, elem_of_app. right. rewrite bool_decide_true by done. by left.
Qed.

Lemma mget_available k o : k <> "availability_revision"%string -> k <> "availability_reason"%string -> mget k (available o) = mget k o.
Proof. intros H1%String.eqb_neq H2%String.eqb_neq. unfold available. rewrite !mget_mdelete. by rewrite H1, H2. Qed.

Lemma available_owned t m o : ManagerConfig.ownedBy t m o -> ManagerConfig.ownedBy t m (available o).
Proof. intros [H1 H2]. split; by rewrite mget_available. Qed.

(** A loaded expert is one of the member's own. *)
Lemma view_owned during t m l o : grantedOk during -> listLoadedExperts during (Some t) (Some m) false = Ok l -> o ∈ l -> ManagerConfig.ownedBy t m o.
Proof.
  intros [Hwf Hm] Hl Ho. destruct (listLoadedExperts_total during (Some t) (Some m) false Hwf) as (l' & Hl' & Hspec).
  assert (l' = l) as -> by congruence. apply Hspec in Ho as (r & -> & Hr & _ & Hs).
  destruct Hwf as [Hwf _]. rewrite Forall_forall in Hwf, Hm. specialize (Hwf r Hr). specialize (Hm r Hr).
  destruct (expertView_spec r Hwf) as (_ & _ & Ht & _). unfold in_scope, nullOr in Hs. boolify.
  assert (ex_member_id r = m) as Em by (destruct (String.eqb_spec (ex_member_id r) ""); cbn in *; boolify; done).
  apply String.eqb_neq in Hm as Hm'. split; [congruence|].
  unfold expertView, withNonEmpty, nonEmpty. cbn. rewrite Hm'. cbn. members. congruence.
Qed.

Lemma blocked_spec prev expert code n t m : ManagerConfig.ownedBy t m expert -> (forall o, o ∈ prev -> ManagerConfig.ownedBy t m o) ->
  mget "employee_id" expert = Some (JStr (employeeOf expert)) ->
  let o := blocked uuid prev expert code n in
  ManagerConfig.ownedBy t m o /\ mget "employee_id" o = mget "employee_id" expert /\ mget "availability_reason" o = Some (JStr code).
Proof.
  intros He Hp Hid. cbn zeta. unfold blocked.
  assert (forall base rev, ManagerConfig.ownedBy t m base -> mget "employee_id" base = mget "employee_id" expert ->
    let o := assign "availability_revision" rev (mset "availability_reason" (JStr code) base) in
    ManagerConfig.ownedBy t m o /\ mget "employee_id" o = mget "employee_id" expert /\ mget "availability_reason" o = Some (JStr code)) as H.
  { intros base rev [Ht Hm] Hi. cbn zeta. unfold ManagerConfig.ownedBy. rewrite !mget_assign, !mget_mset. cbn. by split_and!. }
  destruct (List.find _ prev) as [p|] eqn:Hf; cbn [nullish default Datatypes.id]; apply H; [|  |done..].
  - apply find_in in Hf as [? _]. by apply Hp.
  - apply find_in in Hf as [_ Hi]. boolify. rewrite Hid. unfold asStr in Hi. destruct (mget "employee_id" p) as [[]|]; try done. by injection Hi as ->.
Qed.

(** What [gatherGrants] has checked. *)
Lemma gather_Ok before during caller body pull snaps verified now t config p :
  gatherGrants parseKey uuid before during caller body pull snaps verified now = Ok (t, config, p) ->
  let m := callerMemberId caller in
  t <> ""%string /\ m <> ""%string /\ ExecAuth.c_tenantId caller = Some t
  /\ (exists f known answer, pull = Some f /\ f known = Ok answer /\ normalizeAuthorizedConfig parseKey now (Some t) (Some m) answer = Ok config)
  /\ exists prev, listLoadedExperts during (Some t) (Some m) false = Ok prev
     /\ match cf_snapshots config, snaps with
        | None, Some f => pullAll uuid f prev (cf_experts config) (mkPulled [] [] [] [] 0) = Ok p
        | s, _ => p = mkPulled (nullish s []) (cf_experts config) [] [] 0
        end.
Proof.
  intros (f & Hf & (t' & [_ Ht]%stringField_Ok & (m' & [_ Hm]%stringField_Ok & (u1 & Ho%require_Ok & (sup & _ & (known & _ & (answer & Ha & (config' & Hc & (prev & Hp & (p' & Hpu & (u2 & _ & E)%bind_Ok)%bind_Ok)%bind_Ok)%bind_Ok)%bind_Ok)%bind_Ok)%bind_Ok)%bind_Ok)%bind_Ok)%bind_Ok)%bind_Ok.
  injection E as -> -> ->. boolify. subst m'. cbn zeta. split_and!; [done..| |].
  - destruct pull as [f'|]; [|done]. injection Hf as ->. destruct (f (knownVersions known sup)) as [a|] eqn:Hk; [|done]. injection Ha as ->.
    destruct (normalizeAuthorizedConfig _ _ _ _ answer) eqn:Hn; [|done]. injection Hc as ->. by eauto 10.
  - exists prev. destruct (listLoadedExperts _ _ _ _); [|done]. injection Hp as ->. split; [done|].
    destruct (cf_snapshots config), snaps as [g|]; try by injection Hpu. destruct (pullAll _ _ _ _ _); [|done]. by injection Hpu as ->.
Qed.

(** ** The rows *)

Definition blockedRows (e t m : string) (db : ProjectionDb) : Prop := forall r, r ∈ experts db -> is_expert e t m r = true ->
  exists o code, ex_projection r = Some (JObj o) /\ mget "availability_reason" o = Some (JStr code) /\ code <> ""%string.

Lemma upsert_member now db x : (forall m, e_member_id x = Some m -> m <> ""%string) -> is_Some (e_member_id x) ->
  grantedOk db -> grantedOk (upsertExpert now db x).
Proof.
  intros Hx [m Hm] [Hw Hr]. split; [by apply upsertExpert_wf|]. unfold upsertExpert. cbn [experts].
  apply Forall_sql_upsert; [done|by intros|]. cbn. rewrite Hm. by apply Hx.
Qed.

(** What an upsert of the blocked copy stores for its own row, and what any upsert leaves of the others. *)
Lemma upsert_blocks now db o e t m code : ManagerConfig.ownedBy t m o -> mget "employee_id" o = Some (JStr e) ->
  mget "availability_reason" o = Some (JStr code) -> code <> ""%string -> blockedRows e t m (upsertExpert now db (asExpert o)).
Proof.
  intros [Ht Hm] He Ha Hc r Hr Hk.
  assert (exists ex, ex_projection r = Some (JObj (mergeAvatarProjection ex (mset "revoked" (JBool false) (mset "synced_at" (JStr (nullish (e_synced_at (asExpert o)) now))
            (withNonEmpty "member_id" (e_member_id (asExpert o)) (mset "tenant_id" (JStr (e_tenant_id (asExpert o))) (expertFields (asExpert o))))))))) as [ex ->].
  { unfold upsertExpert in Hr. cbn [experts] in Hr. unfold asExpert, strOr in Hr. rewrite Ht, Hm, He in Hr. cbn in Hr.
    unfold sql_upsert in Hr. case_match eqn:Hex.
    - apply elem_of_sql_update in Hr as (r0 & Hr0 & ->). destruct (is_expert e t m r0) eqn:Hi; [|congruence].
      unfold asExpert, strOr. rewrite Ht, Hm, He. eexists. reflexivity.
    - apply elem_of_app in Hr as [Hr|Hr%list_elem_of_singleton].
      + apply not_true_iff_false in Hex. destruct Hex. apply existsb_exists. exists r. by rewrite <- list_elem_of_In.
      + subst r. unfold asExpert, strOr. rewrite Ht, Hm, He. eexists. reflexivity. }
  eexists _, code. split; [reflexivity|]. split; [|done]. rewrite merge_other by not_avatar. unfold expertFields, asExpert. cbn.
  rewrite Hm. cbn. members. by destruct (String.eqb m "").
Qed.

Lemma upsert_keeps_blocked now db x e t m : blockedRows e t m db -> expert_key x <> (e, t, m) -> blockedRows e t m (upsertExpert now db x).
Proof.
  intros H Hx r Hr Hk. unfold upsertExpert in Hr. cbn [experts] in Hr. unfold sql_upsert in Hr. unfold expert_key in Hx.
  assert (forall r0, is_expert (e_employee_id x) (e_tenant_id x) (nullish (e_member_id x) "") r0 = true -> is_expert e t m r0 = true -> False) as Hno.
  { intros r0 H1 H2. unfold is_expert in *. boolify. destruct Hx. congruence. }
  case_match.
  - apply elem_of_sql_update in Hr as (r0 & Hr0 & ->). destruct (is_expert (e_employee_id x) _ _ r0) eqn:Hi; [|by apply H].
    destruct (Hno r0 Hi). exact Hk.
  - apply elem_of_app in Hr as [Hr|Hr%list_elem_of_singleton]; [by apply H|]. subst r. destruct Hx. unfold is_expert in Hk. cbn in Hk. boolify. congruence.
Qed.

Lemma owned_key t m o : ManagerConfig.ownedBy t m o -> expert_key (asExpert o) = (strOr (mget "employee_id" o) "", t, m)%string /\ e_member_id (asExpert o) = Some m.
Proof. intros [Ht Hm]. unfold expert_key, asExpert, strOr. cbn. by rewrite Ht, Hm. Qed.

(** Blocked copies keep what one of them has blocked. *)
Lemma upsertAll_blocked now e t m l db : (forall o, o ∈ l -> ManagerConfig.ownedBy t m o /\ (exists i, mget "employee_id" o = Some (JStr i))
    /\ exists code, mget "availability_reason" o = Some (JStr code) /\ code <> ""%string) ->
  blockedRows e t m db \/ (exists o, o ∈ l /\ mget "employee_id" o = Some (JStr e)) ->
  blockedRows e t m (fold_left (upsertExpert now) (asExpert <$> l) db).
Proof.
  revert db. induction l as [|o l IH]; intros db Hl Hor; cbn [fold_left fmap list_fmap].
  { destruct Hor as [?|(o & Ho & _)]; [done|by apply not_elem_of_nil in Ho]. }
  apply IH; [intros; apply Hl; by right|]. destruct (Hl o ltac:(by left)) as (Hown & [i Hi] & code & Ha & Hc).
  destruct (decide (i = e)) as [->|Hne]; [left; by eapply upsert_blocks|].
  destruct Hor as [Hb|(o' & [->|Ho']%elem_of_cons & He)]; [left|congruence|right; eauto].
  apply upsert_keeps_blocked; [done|]. rewrite (proj1 (owned_key t m o Hown)). unfold strOr. rewrite Hi. cbn. congruence.
Qed.

(** What is written is the member's own, and the blocked copies say why. *)
Lemma gather_written before during caller body pull snaps verified now t config p :
  gatherGrants parseKey uuid before during caller body pull snaps verified now = Ok (t, config, p) -> grantedOk during ->
  let m := callerMemberId caller in
  (forall o, o ∈ available <$> pu_synced p -> ManagerConfig.ownedBy t m o)
  /\ (forall o, o ∈ pu_unavailable p -> ManagerConfig.ownedBy t m o /\ (exists i, mget "employee_id" o = Some (JStr i))
        /\ exists code, mget "availability_reason" o = Some (JStr code) /\ code <> ""%string)
  /\ (forall f expert code, cf_snapshots config = None -> snaps = Some f -> expert ∈ cf_experts config -> f expert = Err (ManagerPolicyDenied code) ->
        code ∈ UNAVAILABLE -> exists o, o ∈ pu_unavailable p /\ mget "employee_id" o = Some (JStr (employeeOf expert))).
Proof.
  intros Hg Hd. destruct (gather_Ok _ _ _ _ _ _ _ _ _ _ _ Hg) as (Ht & Hm & _ & (f & kn & a & _ & _ & Hc) & prev & Hprev & Hp). cbn zeta.
  pose proof (config_owned _ _ _ _ _ Ht Hm Hc) as Ho. pose proof (fun o => view_owned _ _ _ _ o Hd Hprev) as Hv.
  assert (forall e c n, e ∈ cf_experts config -> let o := blocked uuid prev e c n in ManagerConfig.ownedBy t (callerMemberId caller) o
    /\ mget "employee_id" o = Some (JStr (employeeOf e)) /\ mget "availability_reason" o = Some (JStr c)) as Hb.
  { intros e c n [H1 H2]%Ho. destruct (blocked_spec prev e c n t (callerMemberId caller) H1 Hv H2) as (? & ? & ?). cbn zeta. split_and!; congruence. }
  assert ((forall o, o ∈ pu_synced p -> o ∈ cf_experts config)
    /\ (forall o, o ∈ pu_unavailable p -> exists e c n, e ∈ cf_experts config /\ c ∈ UNAVAILABLE /\ o = blocked uuid prev e c n)) as [H1 H2].
  { destruct (cf_snapshots config), snaps as [g|]; try (subst p; split; [done|by intros o ?%not_elem_of_nil]). apply pullAll_spec in Hp as (H1 & H2 & _).
    split; [intros o [?%not_elem_of_nil|?]%H1; done|intros o [?%not_elem_of_nil|?]%H2; done]. }
  split_and!.
  - intros o (x & -> & Hx)%list_elem_of_fmap. apply available_owned, Ho. auto.
  - intros o (e & c & n & He & Hu & ->)%H2. destruct (Hb e c n He) as (? & ? & ?). split_and!; [done|eauto|exists c; split; [done|]].
    intros ->. apply (bool_decide_eq_true_2 _) in Hu. by vm_compute in Hu.
  - intros g e c Hs -> He Hd' Hu. rewrite Hs in Hp. apply pullAll_spec in Hp as (_ & _ & _ & H4).
    destruct (H4 e c He Hd' Hu) as [n Hn]. eexists. split; [exact Hn|]. by apply Hb.
Qed.

Lemma replace_experts db es ss ps revoked o now :
  exists db', experts db' = experts (fold_left (upsertExpert now) es (fold_left (removeLegacy (o_tenantId o)) (superseded o es revoked) db))
    /\ experts (replaceProjections db es ss ps revoked (Some o) now).1 = experts (fold_left (revokeId (Some o) now) revoked db').
Proof.
  unfold replaceProjections, replaceProjectionRows. cbn [fst]. eexists. split; [|reflexivity].
  rewrite (fold_left_frame experts (upsertSnapshot now)) by done. by rewrite (fold_left_frame experts (upsertSolution now)) by done.
Qed.

Lemma revoke_blocked e t m o now i db : blockedRows e t m db -> blockedRows e t m (revokeId o now db i).
Proof.
  intros H r Hr Hk. cbn [revokeId experts] in Hr. apply elem_of_sql_update in Hr as (r0 & Hr0 & ->). destruct (_ && _); [|by apply H].
  by apply (H r0).
Qed.

Lemma upsertAll_member now t m l db : m <> ""%string -> (forall o, o ∈ l -> ManagerConfig.ownedBy t m o) -> grantedOk db ->
  grantedOk (fold_left (upsertExpert now) (asExpert <$> l) db).
Proof.
  intros Hm Hl Hdb. apply fold_left_inv; [|done]. intros db' x (o & -> & Ho)%list_elem_of_fmap Hok.
  destruct (owned_key t m o (Hl o Ho)) as [_ E]. apply upsert_member; [intros m'; rewrite E; by intros [= <-]|by rewrite E|done].
Qed.

Lemma syncGrants_ok before during db caller body pull snaps verified now : grantedOk during -> grantedOk db ->
  grantedOk (syncGrants parseKey uuid before during db caller body pull snaps verified now).1.
Proof.
  intros Hd Hdb. unfold syncGrants. destruct (gatherGrants _ _ _ _ _ _ _ _ _ _) as [[[t config] p]|] eqn:Hg; [|done].
  destruct (replaceProjections _ _ _ _ _ _ _) as [db' [u v]] eqn:E. cbn [fst].
  destruct (gather_written _ _ _ _ _ _ _ _ _ _ _ Hg Hd) as (H1 & H2 & _). destruct (gather_Ok _ _ _ _ _ _ _ _ _ _ _ Hg) as (_ & Hm & _).
  assert (forall o, o ∈ (available <$> pu_synced p) ++ pu_unavailable p -> ManagerConfig.ownedBy t (callerMemberId caller) o) as Hall.
  { intros o [?|?]%elem_of_app; [by apply H1|by apply H2]. }
  split.
  - match type of E with replaceProjections ?d ?es ?ss ?ps ?r ?o ?n = _ => pose proof (sync_wf d (mkSync es ss ps r o n) (proj1 Hdb)) as Hw end.
    unfold sync in Hw. cbn [sy_experts sy_solutions sy_snapshots sy_revoked sy_owner sy_now] in Hw. by rewrite E in Hw.
  - match type of E with replaceProjections ?d ?es ?ss ?ps ?r (Some ?o) ?n = _ => destruct (replace_experts d es ss ps r o n) as (db1 & E1 & E2) end.
    rewrite E in E2. cbn [fst] in E2. rewrite E2.
    apply (fold_left_inv (fun d => Forall (fun r => ex_member_id r <> ""%string) (experts d))).
    { intros d i _ Hr. apply Forall_sql_update; [done|]. by intros. }
    rewrite E1. apply upsertAll_member with t (callerMemberId caller); [done..|].
    apply fold_left_inv; [|done]. intros d i _ [[We Ws] Hr]. split; [split|]; by apply Forall_sql_delete.
Qed.

Lemma granted_ok db : granted db -> grantedOk db.
Proof. induction 1; [split; [split|]; constructor|by apply syncGrants_ok]. Qed.

(** After the sync every row of a refused employee says why. *)
Lemma sync_blocks before during db caller body pull snaps verified now t config p f expert code : grantedOk during ->
  gatherGrants parseKey uuid before during caller body pull snaps verified now = Ok (t, config, p) ->
  cf_snapshots config = None -> snaps = Some f -> expert ∈ cf_experts config -> f expert = Err (ManagerPolicyDenied code) -> code ∈ UNAVAILABLE ->
  blockedRows (employeeOf expert) t (callerMemberId caller) (syncGrants parseKey uuid before during db caller body pull snaps verified now).1.
Proof.
  intros Hd Hg Hs Hf He Hc Hu. unfold syncGrants. rewrite Hg. destruct (replaceProjections _ _ _ _ _ _ _) as [db' [u' v]] eqn:E. cbn [fst].
  destruct (gather_written _ _ _ _ _ _ _ _ _ _ _ Hg Hd) as (_ & H2 & H3).
  match type of E with replaceProjections ?d ?es ?ss ?ps ?r (Some ?o) ?n = _ => destruct (replace_experts d es ss ps r o n) as (db1 & E1 & E2) end.
  rewrite E in E2. cbn [fst] in E2. unfold blockedRows. rewrite E2. fold (blockedRows (employeeOf expert) t (callerMemberId caller)
    (fold_left (revokeId (Some (mkOwner t (callerMemberId caller))) now) (cf_revoked_ids config) db1)).
  apply (fold_left_inv (blockedRows (employeeOf expert) t (callerMemberId caller))); [intros; by apply revoke_blocked|].
  unfold blockedRows. rewrite E1, fmap_app, fold_left_app. apply upsertAll_blocked; [exact H2|]. right. by apply (H3 f expert code).
Qed.

(** One more row keeps them blocked, unless it is the employee's own and says nothing. *)
Lemma upsert_step now db o e t m t' m' : ManagerConfig.ownedBy t' m' o ->
  ((strOr (mget "employee_id" o) "", t', m') = (e, t, m) -> exists code, mget "employee_id" o = Some (JStr e) /\ mget "availability_reason" o = Some (JStr code) /\ code <> ""%string) ->
  blockedRows e t m db -> blockedRows e t m (upsertExpert now db (asExpert o)).
Proof.
  intros Ho Hc Hb. destruct (decide ((strOr (mget "employee_id" o) "", t', m') = (e, t, m))) as [E|E].
  - destruct (Hc E) as (code & H1 & H2 & H3). injection E as E1 -> ->. by eapply upsert_blocks.
  - apply upsert_keeps_blocked; [done|]. by rewrite (proj1 (owned_key t' m' o Ho)).
Qed.

(** The sync writes the employee of the member as available. *)
Definition restores (e t m : string) (caller : ExecAuth.AuthenticatedCaller) (gathered : result sync_error (string * AuthorizedConfig * Pulled)) : Prop :=
  exists config p o, gathered = Ok (t, config, p) /\ callerMemberId caller = m /\ o ∈ pu_synced p /\ employeeOf o = e.

Lemma sync_keeps_blocked e t m before during db caller body pull snaps verified now : grantedOk during ->
  ~ restores e t m caller (gatherGrants parseKey uuid before during caller body pull snaps verified now) ->
  blockedRows e t m db -> blockedRows e t m (syncGrants parseKey uuid before during db caller body pull snaps verified now).1.
Proof.
  intros Hd Hno Hb. unfold syncGrants. destruct (gatherGrants _ _ _ _ _ _ _ _ _ _) as [[[t' config] p]|] eqn:Hg; [|done].
  destruct (replaceProjections _ _ _ _ _ _ _) as [db' [u' v]] eqn:E. cbn [fst].
  destruct (gather_written _ _ _ _ _ _ _ _ _ _ _ Hg Hd) as (H1 & H2 & _).
  match type of E with replaceProjections ?d ?es ?ss ?ps ?r (Some ?o) ?n = _ => destruct (replace_experts d es ss ps r o n) as (db1 & E1 & E2) end.
  rewrite E in E2. cbn [fst] in E2. unfold blockedRows. rewrite E2. fold (blockedRows e t m (fold_left (revokeId (Some (mkOwner t' (callerMemberId caller))) now) (cf_revoked_ids config) db1)).
  apply (fold_left_inv (blockedRows e t m)); [intros; by apply revoke_blocked|].
  unfold blockedRows. rewrite E1. match goal with |- context [fold_left (upsertExpert now) ?l ?d] => fold (blockedRows e t m (fold_left (upsertExpert now) l d)) end.
  apply fold_left_inv.
  - intros d x (o & -> & Ho)%list_elem_of_fmap Hd'. apply elem_of_app in Ho as [Ho|Ho].
    + apply upsert_step with t' (callerMemberId caller); [by apply H1| |done]. intros [= He -> Hm]. destruct Hno.
      apply list_elem_of_fmap in Ho as (o' & -> & Ho'). exists config, p, o'. split_and!; [done..|]. unfold employeeOf. by rewrite mget_available in He.
    + destruct (H2 o Ho) as (Hown & [i Hi] & code & Ha & Hc). apply upsert_step with t' (callerMemberId caller); [done| |done].
      unfold strOr. rewrite Hi. cbn. intros [= <- _ _]. by exists code.
  - apply (fold_left_inv (blockedRows e t m)); [|done]. intros d i _ Hd' r Hr. apply Hd'. cbn [removeLegacy experts] in Hr. by apply elem_of_sql_delete in Hr as [? _].
Qed.

(** The tables since a sync brought the Manager's refusal of employee [e] to the member, as long as
    no sync that writes after it writes the employee as available. *)
Inductive refusedSince (e t m : string) : ProjectionDb -> Prop :=
| refused_now before during db caller body answer config f verified now expert code result :
    granted during -> granted db -> ExecAuth.c_tenantId caller = Some t -> callerMemberId caller = m -> employeeOf expert = e ->
    normalizeAuthorizedConfig parseKey now (Some t) (Some m) answer = Ok config ->
    cf_snapshots config = None -> expert ∈ cf_experts config -> f expert = Err (ManagerPolicyDenied code) -> code ∈ UNAVAILABLE ->
    (syncGrants parseKey uuid before during db caller body (Some (fun _ => Ok answer)) (Some f) verified now).2 = Ok result ->
    refusedSince e t m (syncGrants parseKey uuid before during db caller body (Some (fun _ => Ok answer)) (Some f) verified now).1
| refused_still before during db caller body pull snaps verified now :
    refusedSince e t m db -> granted during ->
    ~ restores e t m caller (gatherGrants parseKey uuid before during caller body pull snaps verified now) ->
    refusedSince e t m (syncGrants parseKey uuid before during db caller body pull snaps verified now).1.

Lemma refused_blocked e t m db : refusedSince e t m db -> grantedOk db /\ blockedRows e t m db.
Proof.
  induction 1 as [before during db caller body answer config f verified now expert code result Hd Hdb Ht Hm He Hn Hs Hin Hf Hu Hr|].
  - split; [apply syncGrants_ok; by apply granted_ok|].
    destruct (gatherGrants parseKey uuid before during caller body (Some (fun _ => Ok answer)) (Some f) verified now) as [[[t' config'] p]|] eqn:Hg;
      [|unfold syncGrants in Hr; by rewrite Hg in Hr].
    destruct (gather_Ok _ _ _ _ _ _ _ _ _ _ _ Hg) as (_ & _ & Ect & (g & kn & answer' & [= <-] & [= <-] & Hn') & _).
    assert (t' = t) as -> by congruence. subst m e. assert (config' = config) as -> by congruence.
    apply (sync_blocks _ _ _ _ _ _ _ _ _ _ _ _ f expert code (granted_ok _ Hd) Hg); done.
  - destruct IHrefusedSince as [H2 H3]. split; [apply syncGrants_ok; [by apply granted_ok|done]|]. apply sync_keeps_blocked; [by apply granted_ok|done..].
Qed.

(** An employee of a blocked row is never vouched for. *)
Lemma blocked_not_vouched w c e t snapshot : grantedOk (h_projections w) -> ExecAuth.c_tenantId c = Some t ->
  blockedRows e t (callerMemberId c) (h_projections w) -> ~ vouched w c e snapshot.
Proof.
  intros [Hwf Hm] Ht Hb (l & o & snaps & Hl & Ho & Hid & _ & Hun & _). unfold loadedExperts in Hl. rewrite Ht in Hl.
  destruct (listLoadedExperts_total (h_projections w) (Some t) (Some (callerMemberId c)) false Hwf) as (l' & Hl' & Hspec).
  rewrite Hl' in Hl. injection Hl as ->. apply Hspec in Ho as (r & -> & Hr & _ & Hs).
  destruct Hwf as [Hwf _]. rewrite Forall_forall in Hwf, Hm. specialize (Hwf r Hr). specialize (Hm r Hr).
  destruct (expertView_spec r Hwf) as (He & _ & _). unfold idOf in Hid. rewrite He in Hid. injection Hid as Hid.
  assert (is_expert e t (callerMemberId c) r = true) as Hk.
  { apply String.eqb_neq in Hm. unfold in_scope, nullOr in Hs. rewrite Hm in Hs. apply andb_true_iff in Hs as [Hs1 Hs2]. cbn in Hs2. unfold is_expert. by rewrite Hid, String.eqb_refl, Hs1, Hs2. }
  destruct (Hb r Hr Hk) as (o & code & Hp & Ha & Hc). unfold unavailable in Hun.
  assert (mget "availability_reason" (expertView r) = Some (JStr code)) as E.
  { unfold expertView, publicAvatarProjection. rewrite Hp. cbn [nullish default Datatypes.id spread].
    unfold withNonEmpty. destruct (nonEmpty _); members; by rewrite bool_decide_false by not_avatar. }
  apply String.eqb_neq in Hc. rewrite E in Hun. cbn [falsyValue] in Hun. by rewrite Hc in Hun.
Qed.

Context {Obj : Type} (stringify : Obj -> string) (parseObject : string -> option Obj).
Context (files : string -> option string -> Files) (branch : string -> string -> list BranchEntry).

(** C6. From the write of a sync that brings the Manager's refusal of an employee (it, or a model or
    provider it depends on, is unavailable), no message of that member runs the employee, whatever
    the member's older copies of it say, whatever the other answers of the same sync are, and
    however syncs overlapped until then; and so it stays through every later write of a sync, the
    member's own and others', until one of them writes the employee for that member as available.
    The writer need not have asked the Manager later: see [late_sync_restores]. *)
Theorem refused_employee_does_not_run (w w' : Host) (e t : string) c conv m rs ad :
  ExecAuth.c_tenantId c = Some t -> refusedSince e t (callerMemberId c) (h_projections w) ->
  hostOk w -> namesReal w c m -> metadataOf w conv = Some m ->
  message stringify parseObject files branch w c conv w' rs -> Ok ad ∈ rs ->
  rc_employeeId (ad_record ad) <> Some e.
Proof.
  intros Ht Href Hok Hnames Hmeta Hmsg Had Hrun. destruct (refused_blocked _ _ _ _ Href) as [Hg Hb].
  destruct (message_admitted stringify parseObject files branch _ _ _ _ _ _ _ Hok Hnames Hmeta Hmsg Had) as (e' & _ & _ & Hadm).
  rewrite (adm_employee _ _ _ _ _ _ Hadm) in Hrun. injection Hrun as ->.
  destruct (adm_authorization _ _ _ _ _ _ Hadm) as (a & _ & _ & _ & Hv). by apply (blocked_not_vouched w c e t (au_snapshot a)).
Qed.
End Proofs.

(** * On a concrete input *)

Definition demoKeys (_ : json) : option fields := None.
Definition demoUuid (n : nat) : string := "r" +:+ pretty n.
Definition demoGrant (e handle : string) : json :=
  JObj [("employee_id", JStr e); ("version", JStr "v1"); ("handle", JStr handle); ("display_name", JStr handle)]%string.
Definition demoAnswer : json := JObj [("experts"%string, JArr [demoGrant "e1" "ada"; demoGrant "e2" "bob"])].
Definition demoBody : fields := [("tenant_id", JStr "t"); ("member_id", JStr "m")]%string.
Definition demoSnapshotFor (o : fields) : result pull_error (list fields) :=
  clientSnapshot demoKeys "t" "m" (fun o => Ok (JObj [("employee_id", JStr (employeeOf o)); ("version", JStr "v1"); ("snapshot_version", JStr "s1")]%string)) o.
(** The second time, bob's provider is gone. *)
Definition demoRefusing (o : fields) : result pull_error (list fields) :=
  if String.eqb (employeeOf o) "e2" then Err (ManagerPolicyDenied "employee_dependency_unavailable") else demoSnapshotFor o.
Definition demoSyncWith (f : fields -> result pull_error (list fields)) (db : ProjectionDb) : ProjectionDb * result sync_error SyncResult :=
  syncGrants demoKeys demoUuid db db db (demoMember "t") demoBody (Some (fun _ => Ok demoAnswer)) (Some f) (fun _ => Ok tt) "now".
Definition demoFirst : ProjectionDb := (demoSyncWith demoSnapshotFor emptyProjections).1.
Definition demoSecond : ProjectionDb := (demoSyncWith demoRefusing demoFirst).1.
Definition demoHostWith (db : ProjectionDb) : Host := mkHost (h_store demoHost) db emptyRegistry [].

Example both_run_before : promptRuns (demoPrompt (demoHostWith demoFirst) "t" ["ada"; "bob"]%string) = [Some "e1"; Some "e2"]%string.
Proof. vm_compute. reflexivity. Qed.
Example only_one_after : promptRuns (prompt (fun x : string => x) (fun x => Some x) demoFiles (fun _ _ => []) (demoHostWith demoSecond) "g" (u "hello") (Some (demoMember "t")) ["ada"; "bob"]%string "l" None false 5 5) = [Some "e1"%string; None].
Proof. vm_compute. reflexivity. Qed.
Example refusal_is_reported : (demoSyncWith demoRefusing demoFirst).2 = Ok (mkSyncResult 3 0 true ["e2"%string]).
Proof. vm_compute. reflexivity. Qed.

Definition demoConfig : result manager_error AuthorizedConfig := normalizeAuthorizedConfig demoKeys "now" (Some "t"%string) (Some "m"%string) demoAnswer.

Lemma demo_config : exists config o, demoConfig = Ok config /\ cf_snapshots config = None /\ o ∈ cf_experts config /\ employeeOf o = "e2"%string.
Proof.
  assert (match demoConfig with Ok c => (cf_snapshots c, employeeOf <$> cf_experts c) | Err _ => (None, []) end = (None, ["e1"; "e2"]%string)) as H by (vm_compute; reflexivity).
  destruct demoConfig as [config|]; [|done]. apply pair_equal_spec in H as [H1 H2].
  assert ("e2"%string ∈ employeeOf <$> cf_experts config) as (o & Ho & Hin)%list_elem_of_fmap by (rewrite H2; right; left).
  exists config, o. by split_and!.
Qed.
Lemma demo_refused : syncGrants demoKeys demoUuid demoFirst demoFirst demoFirst (demoMember "t") demoBody (Some (fun _ => Ok demoAnswer)) (Some demoRefusing) (fun _ => Ok tt) "now"
  = (h_projections (demoHostWith demoSecond), Ok (mkSyncResult 3 0 true ["e2"%string])).
Proof. vm_compute. reflexivity. Qed.
Lemma demo_granted : granted demoKeys demoUuid demoFirst.
Proof. apply granted_sync; apply granted_none. Qed.
Lemma demo_after_ok : hostOk (demoHostWith demoSecond).
Proof.
  split; [by intros k r|]. intros p Hp. cbn in Hp. repeat (apply elem_of_cons in Hp as [->|Hp]; [done|]). by apply not_elem_of_nil in Hp.
Qed.
Lemma demo_after_names : namesReal (demoHostWith demoSecond) (demoMember "t") demoGroup.
Proof.
  split; [|intros e [[= <-]|[= <-]]; done]. intros l e He Hin.
  assert (match loadedExperts (demoHostWith demoSecond) (demoMember "t") with Ok l => omap idOf l | Err _ => [] end = ["e1"; "e2"]%string) as H by (vm_compute; reflexivity).
  rewrite He in H. rewrite H in Hin. clear He H. repeat (apply elem_of_cons in Hin as [->|Hin]; [done|]). by apply not_elem_of_nil in Hin.
Qed.
Lemma demo_prompt : exists w' rs ad, prompt (fun x : string => x) (fun x => Some x) demoFiles (fun _ _ => []) (demoHostWith demoSecond) "g" (u "hello") (Some (demoMember "t")) ["ada"; "bob"]%string "l" None false 5 5
     = (w', Ok rs) /\ Ok ad ∈ rs /\ rc_employeeId (ad_record ad) = Some "e1"%string.
Proof.
  pose proof only_one_after as R. destruct (prompt (fun x : string => x) (fun x => Some x) demoFiles (fun _ _ => []) (demoHostWith demoSecond) "g" (u "hello") (Some (demoMember "t")) ["ada"; "bob"]%string "l" None false 5 5) as [w' [rs|]]; [|discriminate R].
  unfold promptRuns, runsOf in R. cbn [snd] in R. destruct rs as [|[ad|] rs]; [discriminate R| |discriminate R]. injection R as R1 R2.
  exists w', (Ok ad :: rs), ad. split; [reflexivity|]. split; [left|exact R1].
Qed.

(** A sync that asked before the refusal and writes after it makes the employee run again: no sync
    that asked the Manager later has brought it back. *)
Definition demoLate : ProjectionDb :=
  (syncGrants demoKeys demoUuid demoFirst demoFirst demoSecond (demoMember "t") demoBody (Some (fun _ => Ok demoAnswer)) (Some demoSnapshotFor) (fun _ => Ok tt) "now").1.
Example late_sync_restores : promptRuns (demoPrompt (demoHostWith demoLate) "t" ["ada"; "bob"]%string) = [Some "e1"; Some "e2"]%string.
Proof. vm_compute. reflexivity. Qed.

Lemma demo_refused_since : refusedSince demoKeys demoUuid "e2" "t" "m" demoSecond.
Proof.
  destruct demo_config as (config & o & Hc & Hs & Ho & Hi).
  assert (demoRefusing o = Err (ManagerPolicyDenied "employee_dependency_unavailable")) as Hr by (unfold demoRefusing; rewrite Hi; reflexivity).
  apply (refused_now demoKeys demoUuid "e2" "t" "m" demoFirst demoFirst demoFirst (demoMember "t") demoBody demoAnswer config demoRefusing (fun _ => Ok tt) "now" o
    "employee_dependency_unavailable" (mkSyncResult 3 0 true ["e2"%string]) demo_granted demo_granted eq_refl eq_refl Hi Hc Hs Ho Hr ltac:(right; left)).
  by rewrite demo_refused.
Qed.

Lemma refused_employee_does_not_run_witness :
  exists w' rs ad, prompt (fun x : string => x) (fun x => Some x) demoFiles (fun _ _ => []) (demoHostWith demoSecond) "g" (u "hello") (Some (demoMember "t")) ["ada"; "bob"]%string "l" None false 5 5
     = (w', Ok rs) /\ Ok ad ∈ rs
    /\ rc_employeeId (ad_record ad) = Some "e1"%string /\ forall ad, Ok ad ∈ rs -> rc_employeeId (ad_record ad) <> Some "e2"%string.
Proof.
  destruct demo_prompt as (w' & rs & ad & E & Had & R).
  exists w', rs, ad. split; [exact E|]. split; [exact Had|]. split; [exact R|]. intros ad' Had'.
  exact (refused_employee_does_not_run demoKeys demoUuid (fun x : string => x) (fun x => Some x) demoFiles (fun _ _ => []) (demoHostWith demoSecond) w'
      "e2" "t" (demoMember "t") "g" demoGroup rs ad' eq_refl demo_refused_since demo_after_ok demo_after_names eq_refl
      (of_member _ _ _ _ _ _ _ (u "hello") ["ada"; "bob"]%string "l" None false 5 5 w' rs E) Had').
Defined.
