(* ===== verification/RelayAddress.v ===== *)
(** Where a model may be called ([isLocalIpv4], [isLocalRelayHost], [isGlobalRelayAddress],
    [normalizeRuntimePricing], [normalizeRuntimeModelCapabilities], [normalizeRuntimeProviderConfig]
    and [normalizeRuntimeProviderConfigWithDns] of manager-client.ts).

    Addresses are texts, as the code reads them; [isIP] of node:net is modelled with the numbers it
    recognises, and the file shows that an accepted address is outside the special-purpose blocks,
    which are given by number.  The URL parser, the name service, [Date.parse] and [Number] of a
    price are arguments. *)

From S2P Require Import Prelude Regex Codec Redact Projections GroupContext Layout DirectoryService ManagerConfig.
Local Open Scope Z_scope.

(** * Addresses *)

(** ** [isIP] *)

Definition digitsValue (s : text) : Z := fold_left (fun n c => n * 10 + (c - 48)) s 0.
(** A decimal octet without a leading zero. *)
Definition octet (s : text) : option Z :=
  if forallb isDigit s && (1 <=? length s)%nat && (length s <=? 3)%nat && ((length s =? 1)%nat || negb (bool_decide (head s = Some 48))) && (digitsValue s <=? 255)
  then Some (digitsValue s) else None.
Definition ipv4 (s : text) : option (Z * Z * Z * Z) :=
  match splitUnits 46 s with
  | [p; q; r; t] => match octet p, octet q, octet r, octet t with Some a, Some b, Some c, Some d => Some (a, b, c, d) | _, _, _, _ => None end
  | _ => None
  end.

Fixpoint hexDigits (s : text) : option (list Z) :=
  match s with [] => Some [] | c :: s => match hexValue c, hexDigits s with Some v, Some l => Some (v :: l) | _, _ => None end end.
Definition hexNumber (l : list Z) : Z := fold_left (fun n d => n * 16 + d) l 0.
(** A group of one to four hexadecimal digits. *)
Definition hexGroup (s : text) : option Z :=
  match hexDigits s with Some l => if (1 <=? length l)%nat && (length l <=? 4)%nat then Some (hexNumber l) else None | None => None end.

(** The groups of a part of an address; its last one may be an IPv4 address at the end. *)
Fixpoint groups (tail : bool) (parts : list text) : option (list Z) :=
  match parts with
  | [] => None
  | [p] =>
      match hexGroup p with
      | Some v => Some [v]
      | None => if tail then match ipv4 p with Some (a, b, c, d) => Some [a * 256 + b; c * 256 + d] | None => None end else None
      end
  | p :: ps => match hexGroup p, groups tail ps with Some v, Some l => Some (v :: l) | _, _ => None end
  end.
Definition side (tail : bool) (s : text) : option (list Z) := if bool_decide (s = []) then Some [] else groups tail (splitUnits 58 s).
(** What is before and after the first [::]. *)
Fixpoint cutDouble (s : text) : option (text * text) :=
  match s with
  | [] => None
  | c :: s' =>
      if (c =? 58) && bool_decide (head s' = Some 58) then Some ([], tail s')
      else match cutDouble s' with Some (l, r) => Some (c :: l, r) | None => None end
  end.
Definition ipv6Groups (s : text) : option (list Z) :=
  match cutDouble s with
  | None => match groups true (splitUnits 58 s) with Some l => if (length l =? 8)%nat then Some l else None | None => None end
  | Some (l, r) =>
      match side false l, side true r with
      | Some a, Some b => if (length a + length b <=? 7)%nat then Some (a ++ repeat 0 (8 - (length a + length b)) ++ b) else None
      | _, _ => None
      end
  end.
(** An address may be followed by a zone. *)
Fixpoint beforeZone (s : text) : text * option text :=
  match s with
  | [] => ([], None)
  | c :: s => if c =? 37 then ([], Some s) else let '(a, z) := beforeZone s in (c :: a, z)
  end.
Definition isZone (z : text) : bool :=
  (1 <=? length z)%nat && forallb (fun c => (is_word c && negb (c =? 95)) || (c =? 45) || (c =? 46) || (c =? 58)) z.
Definition ipv6 (s : text) : option (list Z) :=
  match beforeZone s with
  | (a, None) => ipv6Groups a
  | (a, Some z) => if isZone z then ipv6Groups a else None
  end.
Definition isIP (s : text) : Z := if bool_decide (is_Some (ipv4 s)) then 4 else if bool_decide (is_Some (ipv6 s)) then 6 else 0.

(** ** The checks *)

(** [Number(s)] of a text of digits; anything else counts as not a number. *)
Definition numberOfDigits (s : text) : option Z := if forallb isDigit s then Some (digitsValue s) else None.
Definition equals (x : option Z) (n : Z) : bool := bool_decide (x = Some n).
Definition within (x : option Z) (a b : Z) : bool := match x with Some v => (a <=? v) && (v <=? b) | None => false end.

Definition isLocalIpv4 (host : text) : bool :=
  let octets := map numberOfDigits (splitUnits 46 host) in
  let first := octets !! 0%nat ≫= (fun x => x) in
  let second := octets !! 1%nat ≫= (fun x => x) in
  equals first 0 || equals first 10 || equals first 127 || (equals first 100 && within second 64 127) || (equals first 169 && equals second 254)
  || (equals first 172 && within second 16 31) || (equals first 192 && (equals second 0 || equals second 168))
  || (equals first 198 && (equals second 18 || equals second 19 || equals second 51)) || (equals first 203 && equals second 0)
  || match first with Some v => 224 <=? v | None => false end.

Definition dropFirst (c : Z) (s : text) : text := match s with x :: s' => if x =? c then s' else s | [] => [] end.
Definition dropLast (c : Z) (s : text) : text := reverse (dropFirst c (reverse s)).
Definition endsWith (suffix s : text) : bool := startsWith (reverse suffix) (reverse s).
Definition lowerUnit (c : Z) : Z := if (65 <=? c) && (c <=? 90) then c + 32 else c.

(** [Number.parseInt(s || "0", 16)]: the hexadecimal digits the text starts with. *)
Fixpoint hexPrefix (s : text) : list Z := match s with c :: s => match hexValue c with Some v => v :: hexPrefix s | None => [] end | [] => [] end.
Definition parseHex (s : text) : option Z := match s with [] => Some 0 | _ => match hexPrefix s with [] => None | l => Some (hexNumber l) end end.

(** The first two parts of an IPv6 address. *)
Definition leading (host : text) : option Z * option Z :=
  match splitUnits 58 host with
  | p :: q :: _ => (parseHex p, parseHex q)
  | p :: _ => (parseHex p, Some 0)
  | [] => (Some 0, Some 0)
  end.
Definition isLocalIpv6 (host : text) : bool :=
  let '(first, second) := leading host in
  equals first 0 || equals first 0x100 || within first 0xfe00 0xfeff || within first 0xfc00 0xfdff || match first with Some v => 0xff00 <=? v | None => false end
  || startsWith (u "2001:db8") host || (equals first 0x2001 && match second with Some v => v <=? 0x20 | None => false end)
  || (equals first 0x64 && equals second 0xff9b) || equals first 0x2002 || equals first 0x3ffe.

Definition LOCAL_SUFFIXES : list text := map u [".localhost"; ".local"; ".localdomain"; ".internal"; ".intranet"]%string.

Definition isLocalRelayHost (hostValue : text) : bool :=
  let host := map lowerUnit (dropLast 46 (dropLast 93 (dropFirst 91 hostValue))) in
  if (negb (bool_decide (host = [])) && negb (bool_decide (46 ∈ host)) && negb (bool_decide (58 ∈ host)))
     || bool_decide (host = u "localhost") || existsb (fun s => endsWith s host) LOCAL_SUFFIXES then true
  else
    let version := isIP host in
    if version =? 4 then isLocalIpv4 host
    else if version =? 6 then
      if bool_decide (host = u "::") || bool_decide (host = u "::1") then true
      else if startsWith (u "::ffff:") host then
        let mapped := drop 7 host in if isIP mapped =? 4 then isLocalIpv4 mapped else true
      else isLocalIpv6 host
    else false.

Definition isGlobalRelayAddress (address : text) : bool :=
  let version := isIP address in
  if version =? 4 then negb (isLocalIpv4 address)
  else if version =? 6 then
    let normalized := map lowerUnit address in
    if isLocalRelayHost normalized then false
    else
      let '(first, second) := leading normalized in
      negb (equals first 0x2001 && match second with Some v => v <=? 0x20 | None => false end) && negb (equals first 0x64 && equals second 0xff9b)
      && negb (equals first 0x2002) && negb (equals first 0x3ffe)
  else false.


(** * Runtime configurations *)

Definition onlyKeys (allowed : list string) (raw : fields) : bool := forallb (fun kv => bool_decide (kv.1 ∈ allowed)) raw.
Definition unavailable (message : string) : manager_error := ManagerUnavailableError message.

(** [new URL(s)], as far as the code reads it. *)
Record Url : Type := mkUrl {
  url_protocol : string; url_username : string; url_password : string; url_search : string; url_hash : string;
  url_pathname : string; url_hostname : text; url_href : string;
}.

Section Runtime.
Context (parseUrl : string -> option Url) (dateParse : string -> option Z) (rateOk : string -> bool) (production : bool) (now : Z).

Definition PRICING_KEYS : list string :=
  ["pricing_version"; "pricing_status"; "billing_mode"; "input_usd_per_million"; "output_usd_per_million"; "cache_read_usd_per_million";
   "cache_write_usd_per_million"; "request_usd"; "currency"; "effective_from"]%string.
Definition RATE_KEYS : list string :=
  ["input_usd_per_million"; "output_usd_per_million"; "cache_read_usd_per_million"; "cache_write_usd_per_million"; "request_usd"]%string.
Definition oneOf (l : list string) (v : option json) : bool := match v with Some (JStr s) => bool_decide (s ∈ l) | _ => false end.
Definition integerFrom (a : Z) (v : option json) : bool := match v with Some (JInt z) => a <=? z | _ => false end.
Definition isDate (v : option json) : bool := match v with Some (JStr s) => bool_decide (is_Some (dateParse s)) | _ => false end.
(** [null], or a text that is not blank and is a finite number from 0; [rateOk] says the latter. *)
Definition isRate (v : option json) : bool :=
  match v with Some JNull => true | Some (JStr s) => negb (bool_decide (trim (decode s) = [])) && rateOk s | _ => false end.

Definition normalizeRuntimePricing (v : option json) : result manager_error fields :=
  match v with
  | Some (JObj raw) =>
      _ ← require (onlyKeys PRICING_KEYS raw) (unavailable "Manager returned invalid runtime pricing");
      _ ← require (integerFrom 1 (mget "pricing_version" raw) && oneOf ["known"; "unknown"]%string (mget "pricing_status" raw)
                   && oneOf ["token"; "request"]%string (mget "billing_mode" raw) && oneOf ["USD"]%string (mget "currency" raw)
                   && isDate (mget "effective_from" raw)) (unavailable "Manager returned incomplete runtime pricing");
      _ ← require (forallb (fun k => isRate (mget k raw)) RATE_KEYS) (unavailable "Manager returned invalid runtime pricing rate");
      Ok raw
  | _ => Err (unavailable "Manager returned invalid runtime pricing")
  end.

Definition CAPABILITY_KEYS : list string := ["context_window"; "max_tokens"; "reasoning"; "input"; "thinking_level_map"]%string.
Definition LEVELS : list string := ["off"; "minimal"; "low"; "medium"; "high"; "xhigh"; "max"]%string.
Definition invalidCapabilities {A} : result manager_error A := Err (unavailable "Manager returned invalid model capabilities").

Definition sizeOf (k : string) (raw : fields) : result manager_error (option json) :=
  match mget k raw with
  | None => Ok None
  | Some (JInt z) => if (1 <=? z) && (z <=? 10000000) then Ok (Some (JInt z)) else invalidCapabilities
  | Some _ => invalidCapabilities
  end.
Definition isLevel (kv : string * json) : bool := bool_decide (kv.1 ∈ LEVELS) && match kv.2 with JNull | JStr _ => true | _ => false end.

Definition normalizeRuntimeModelCapabilities (v : option json) : result manager_error (option fields) :=
  match v with
  | None => Ok None
  | Some (JObj raw) =>
      _ ← (if onlyKeys CAPABILITY_KEYS raw then Ok tt else invalidCapabilities);
      window ← sizeOf "context_window" raw;
      tokens ← sizeOf "max_tokens" raw;
      reasoning ← match mget "reasoning" raw with None => Ok None | Some (JBool b) => Ok (Some (JBool b)) | Some _ => invalidCapabilities end;
      input ← match mget "input" raw with
              | None => Ok None
              | Some (JArr l) => if forallb (fun x => oneOf ["text"; "image"]%string (Some x)) l then Ok (Some (JArr (JStr <$> Projections.distinct [] (stringsOf l)))) else invalidCapabilities
              | Some _ => invalidCapabilities
              end;
      levels ← match mget "thinking_level_map" raw with
               | None => Ok None
               | Some (JObj map) => if forallb isLevel map then Ok (Some (JObj map)) else invalidCapabilities
               | Some _ => invalidCapabilities
               end;
      Ok (Some (putSome "thinking_level_map" levels (putSome "input" input (putSome "reasoning" reasoning (putSome "max_tokens" tokens (putSome "context_window" window []))))))
  | Some _ => invalidCapabilities
  end.

Definition RUNTIME_KEYS : list string :=
  ["base_url"; "api_protocol"; "api_key"; "model"; "provider_ref"; "provider_version"; "model_version"; "pricing"; "version"; "model_capabilities";
   "issued_at"; "expires_at"; "snapshot_version"; "policy_revision"]%string.
Definition nonEmptyString (v : option json) : bool := match v with Some (JStr s) => negb (String.eqb s "") | _ => false end.
(** [s.replace(/\/$/u, "")] *)
Definition withoutSlash (s : string) : text := dropLast 47 (u s).

Definition relayUrlOk (base : string) (url : Url) : bool :=
  bool_decide (url_protocol url ∈ ["http:"; "https:"]%string) && String.eqb (url_username url) "" && String.eqb (url_password url) ""
  && String.eqb (url_search url) "" && String.eqb (url_hash url) "" && negb (existsb is_space (decode base))
  && endsWith (u "/v1") (withoutSlash (url_pathname url))
  && negb (production && (negb (String.eqb (url_protocol url) "https:") || isLocalRelayHost (url_hostname url))).

(** [v === undefined || p] *)
Definition absentOr (p : option json -> bool) (v : option json) : bool := match v with None => true | _ => p v end.
Definition timeOf (v : option json) : option Z := asStr v ≫= dateParse.
(** Of two times that are there: the first is before the second. *)
Definition before (a b : option json) : bool :=
  match a, b with Some _, Some _ => match timeOf a, timeOf b with Some x, Some y => x <? y | _, _ => true end | _, _ => true end.
Definition notExpired (v : option json) : bool := match v with Some _ => match timeOf v with Some t => now <? t | None => true end | None => true end.
Definition isVersionText (v : option json) : bool := match v with Some (JStr s) => negb (String.eqb s "") && (units s <=? 256) | _ => false end.
Definition isRevision (v : option json) : bool := match v with Some (JInt z) => (1 <=? z) && (z <=? MAX_SAFE) | _ => false end.

Definition normalizeRuntimeProviderConfig (v : json) : result manager_error fields :=
  match v with
  | JObj raw =>
      _ ← require (onlyKeys RUNTIME_KEYS raw) (unavailable "Manager returned an invalid runtime provider config");
      _ ← require (forallb (fun k => nonEmptyString (mget k raw)) ["base_url"; "api_key"; "model"; "provider_ref"]%string)
            (unavailable "Manager returned an incomplete runtime provider config");
      let base := strOr (mget "base_url" raw) "" in
      url ← match parseUrl base with
            | Some url => if relayUrlOk base url then Ok url else Err (unavailable "Manager returned an invalid runtime relay URL")
            | None => Err (unavailable "Manager returned an invalid runtime relay URL")
            end;
      _ ← require (oneOf ["openai-completions"; "openai-responses"; "anthropic-messages"]%string (mget "api_protocol" raw))
            (unavailable "Manager returned an invalid runtime provider protocol");
      _ ← require (integerFrom 1 (mget "version" raw)) (unavailable "Manager returned an invalid runtime access version");
      _ ← require (absentOr isDate (mget "issued_at" raw) && absentOr isDate (mget "expires_at" raw) && before (mget "issued_at" raw) (mget "expires_at" raw))
            (unavailable "Manager returned invalid runtime lease expiry");
      _ ← require (notExpired (mget "expires_at" raw)) (unavailable "Manager returned an expired runtime lease");
      _ ← require (absentOr isVersionText (mget "snapshot_version" raw)) (unavailable "Manager returned invalid runtime snapshot version");
      _ ← require (absentOr isRevision (mget "policy_revision" raw)) (unavailable "Manager returned invalid runtime policy revision");
      capabilities ← normalizeRuntimeModelCapabilities (mget "model_capabilities" raw);
      pricing ← normalizeRuntimePricing (mget "pricing" raw);
      let o := withoutVersions raw in
      let o := mset "base_url" (JStr (encode (dropLast 47 (decode (url_href url))))) o in
      let o := mset "pricing" (JObj pricing) o in
      Ok (putSome "model_capabilities" (JObj <$> capabilities) o)
  | _ => Err (unavailable "Manager returned an invalid runtime provider config")
  end.

(** [lookup] gives the addresses of a host, [None] when it fails. *)
Definition normalizeRuntimeProviderConfigWithDns (lookup : text -> option (list text)) (v : json) : result manager_error fields :=
  config ← normalizeRuntimeProviderConfig v;
  if production then
    match parseUrl (strOr (mget "base_url" config) "") ≫= fun url => lookup (url_hostname url) with
    | Some addresses =>
        if negb (bool_decide (addresses = [])) && forallb isGlobalRelayAddress addresses then Ok config
        else Err (unavailable "Manager returned a relay URL with an invalid production destination")
    | None => Err (unavailable "Manager returned a relay URL with an invalid production destination")
    end
  else Ok config.
End Runtime.

(** * Special-purpose blocks, by number *)

Definition v4 (a b c d : Z) : Z := ((a * 256 + b) * 256 + c) * 256 + d.
Definition v6 (l : list Z) : Z := fold_left (fun n g => n * 65536 + g) l 0.
(** [addr] agrees with [base] in the first [len] of [bits] bits. *)
Definition inBlock (bits addr : Z) (block : Z * Z) : bool := Z.shiftr addr (bits - block.2) =? Z.shiftr block.1 (bits - block.2).

(** The IPv4 blocks of the IANA special-purpose registry that are not globally reachable (this
    network, private use, shared, loopback, link local, protocol assignments, documentation,
    benchmarking, reserved), and multicast. *)
Definition SPECIAL4 : list (Z * Z) :=
  [(v4 0 0 0 0, 8); (v4 10 0 0 0, 8); (v4 100 64 0 0, 10); (v4 127 0 0 0, 8); (v4 169 254 0 0, 16); (v4 172 16 0 0, 12);
   (v4 192 0 0 0, 24); (v4 192 0 2 0, 24); (v4 192 168 0 0, 16); (v4 198 18 0 0, 15); (v4 198 51 100 0, 24); (v4 203 0 113 0, 24);
   (v4 224 0 0 0, 4); (v4 240 0 0 0, 4); (v4 255 255 255 255, 32)].
(** Of the IPv6 registry: unspecified and loopback, translation, discard only and dummy, Teredo,
    benchmarking, ORCHID, documentation, 6to4, unique local, link and site local; and multicast. *)
Definition SPECIAL6 : list (Z * Z) :=
  [(v6 [0; 0; 0; 0; 0; 0; 0; 0], 128); (v6 [0; 0; 0; 0; 0; 0; 0; 1], 128); (v6 [0x64; 0xff9b; 0; 0; 0; 0; 0; 0], 96); (v6 [0x64; 0xff9b; 1; 0; 0; 0; 0; 0], 48);
   (v6 [0x100; 0; 0; 0; 0; 0; 0; 0], 64); (v6 [0x100; 0; 0; 1; 0; 0; 0; 0], 64); (v6 [0x2001; 0; 0; 0; 0; 0; 0; 0], 32); (v6 [0x2001; 2; 0; 0; 0; 0; 0; 0], 48);
   (v6 [0x2001; 0x10; 0; 0; 0; 0; 0; 0], 28); (v6 [0x2001; 0xdb8; 0; 0; 0; 0; 0; 0], 32); (v6 [0x2002; 0; 0; 0; 0; 0; 0; 0], 16);
   (v6 [0xfc00; 0; 0; 0; 0; 0; 0; 0], 7); (v6 [0xfe80; 0; 0; 0; 0; 0; 0; 0], 10); (v6 [0xfec0; 0; 0; 0; 0; 0; 0; 0], 10); (v6 [0xff00; 0; 0; 0; 0; 0; 0; 0], 8)].
(** The rest of the registry: protocol assignments, the newer documentation block, and segment
    routing identifiers. *)
Definition PROTOCOL6 : Z * Z := (v6 [0x2001; 0; 0; 0; 0; 0; 0; 0], 23).
Definition DOCUMENTATION6 : Z * Z := (v6 [0x3fff; 0; 0; 0; 0; 0; 0; 0], 20).
Definition ROUTING6 : Z * Z := (v6 [0x5f00; 0; 0; 0; 0; 0; 0; 0], 16).
Definition RESERVED6 : list (Z * Z) := SPECIAL6 ++ [PROTOCOL6; DOCUMENTATION6; ROUTING6].
(** What the code does not know of them: the last two, and the first from 2001:21:: on. *)
Definition overlooked (l : list Z) : bool :=
  inBlock 128 (v6 l) DOCUMENTATION6 || inBlock 128 (v6 l) ROUTING6
  || (inBlock 128 (v6 l) PROTOCOL6 && match l with _ :: second :: _ => 0x20 <? second | _ => false end).
Definition special4 (addr : Z) : bool := existsb (inBlock 32 addr) SPECIAL4.
(** Reserved and not overlooked; an address that stands for an IPv4 one is as special as that. *)
Definition special6 (l : list Z) : bool :=
  (existsb (inBlock 128 (v6 l)) RESERVED6 && negb (overlooked l)) || (bool_decide (take 6 l = [0; 0; 0; 0; 0; 0xffff]) && special4 (v6 (drop 6 l))).

(** An address as it is printed: in lower case, without brackets or zone, without leading zeros
    in its first groups. *)
Definition plainGroup (p : text) : bool := (length p <=? 1)%nat || negb (bool_decide (head p = Some 48)).
Definition printed (s : text) : bool :=
  forallb (fun c => isDigit c || ((97 <=? c) && (c <=? 102)) || (c =? 58) || (c =? 46)) s && negb (bool_decide (last s = Some 46))
  && forallb plainGroup (take 2 (splitUnits 58 s)).

(** ** IPv4 *)

Lemma digitsValue_nonneg s : forallb isDigit s = true -> 0 <= digitsValue s.
Proof.
  intros H. unfold digitsValue. assert (forall n, 0 <= n -> 0 <= fold_left (fun n c => n * 10 + (c - 48)) s n) as G; [|by apply G].
  induction s as [|c s IH]; intros n Hn; cbn; [done|]. cbn in H. apply andb_true_iff in H as [Hc Hs]. apply IH; [done|].
  unfold isDigit in Hc. boolify. lia.
Qed.
Lemma octet_Some s v : octet s = Some v -> numberOfDigits s = Some v /\ 0 <= v <= 255 /\ forallb isDigit s = true /\ s <> [].
Proof.
  unfold octet. destruct (_ && _) eqn:E; [|done]. intros [= <-]. boolify. unfold numberOfDigits. rewrite H.
  pose proof (digitsValue_nonneg s H). split_and!; [done|lia|lia|done|]. by intros ->.
Qed.

Definition local4 (a b : Z) : bool :=
  (a =? 0) || (a =? 10) || (a =? 127) || ((a =? 100) && ((64 <=? b) && (b <=? 127))) || ((a =? 169) && (b =? 254)) || ((a =? 172) && ((16 <=? b) && (b <=? 31)))
  || ((a =? 192) && ((b =? 0) || (b =? 168))) || ((a =? 198) && ((b =? 18) || (b =? 19) || (b =? 51))) || ((a =? 203) && (b =? 0)) || (224 <=? a).

Lemma equals_eqb v n : equals (Some v) n = (v =? n).
Proof. unfold equals. destruct (Z.eqb_spec v n); [by apply bool_decide_true; congruence|]. apply bool_decide_false. congruence. Qed.

Lemma ipv4_Some s a b c d : ipv4 s = Some (a, b, c, d) ->
  isLocalIpv4 s = local4 a b /\ 0 <= a <= 255 /\ 0 <= b <= 255 /\ 0 <= c <= 255 /\ 0 <= d <= 255.
Proof.
  unfold ipv4, isLocalIpv4. destruct (splitUnits 46 s) as [|p [|q [|r [|t [|]]]]]; try done.
  destruct (octet p) as [a'|] eqn:Ea; [|done]. destruct (octet q) as [b'|] eqn:Eb; [|done].
  destruct (octet r) as [c'|] eqn:Ec; [|done]. destruct (octet t) as [d'|] eqn:Ed; [|done]. intros [= -> -> -> ->].
  apply octet_Some in Ea as (Na & ? & _), Eb as (Nb & ? & _), Ec as (_ & ? & _), Ed as (_ & ? & _).
  cbn [map lookup list_lookup mbind option_bind]. rewrite Na, Nb. cbn [mbind option_bind]. rewrite !equals_eqb. split; [reflexivity|]. done.
Qed.

(** What a block says of an address, it says of the first [n] bits. *)
Lemma block_prefix bits n addr base len : 0 <= len <= bits -> 0 <= n <= bits -> inBlock bits addr (base, len) = true ->
  (len <= n -> addr / 2 ^ (bits - n) / 2 ^ (n - len) = base / 2 ^ (bits - n) / 2 ^ (n - len))
  /\ (n <= len -> addr / 2 ^ (bits - n) = base / 2 ^ (bits - n)).
Proof.
  intros Hl Hn. unfold inBlock. cbn [fst snd]. rewrite Z.eqb_eq, !Z.shiftr_div_pow2 by lia. intros E. split; intros H.
  - rewrite !Z.div_div by (try apply Z.pow_nonzero; try apply Z.pow_pos_nonneg; lia). rewrite <- Z.pow_add_r by lia.
    by replace (bits - n + (n - len)) with (bits - len) by lia.
  - replace (bits - n) with ((bits - len) + (len - n)) by lia. rewrite Z.pow_add_r by lia.
    rewrite <- !Z.div_div by (try apply Z.pow_nonzero; try apply Z.pow_pos_nonneg; lia). by rewrite E.
Qed.

Lemma v4_prefix a b c d : 0 <= c <= 255 -> 0 <= d <= 255 -> v4 a b c d / 2 ^ (32 - 16) = a * 256 + b.
Proof. intros. change (2 ^ (32 - 16)) with 65536. unfold v4. symmetry. apply Z.div_unique with (c * 256 + d); lia. Qed.

(** No block of a list holds the address, one block after the other. *)
Ltac evaluate E := match type of E with
  | _ / 2 ^ ?k = ?r => let p := eval vm_compute in (2 ^ k) in let v := eval vm_compute in r in change r with v in E; change (2 ^ k) with p in E
  | _ = ?r => let v := eval vm_compute in r in change r with v in E
  end.
Ltac outside_block bits n Hp := let E := fresh "E" in let E1 := fresh "E" in let E2 := fresh "E" in
  apply not_true_iff_false; intros E; apply (block_prefix bits n) in E; [|lia|lia]; destruct E as [E1 E2];
  rewrite Hp in E1, E2; first [specialize (E1 ltac:(lia)); clear E2; evaluate E1 | specialize (E2 ltac:(lia)); clear E1; evaluate E2].

Lemma not_local4 a b c d : 0 <= a <= 255 -> 0 <= b <= 255 -> 0 <= c <= 255 -> 0 <= d <= 255 -> local4 a b = false -> special4 (v4 a b c d) = false.
Proof.
  intros Ha Hb Hc Hd H. unfold local4 in H. unfold special4, SPECIAL4. cbn [existsb]. pose proof (v4_prefix a b c d Hc Hd) as Hp.
  rewrite !orb_false_iff, !andb_false_iff, !orb_false_iff, !Z.eqb_neq, !Z.leb_gt in H. destruct H as [[[[[[[[[H1 H2] H3] H4] H5] H6] H7] H8] H9] H10].
  repeat (apply orb_false_iff; split); try reflexivity; outside_block 32 16 Hp; clear Hp Hc Hd; rename E0 into E || rename E1 into E;
    match goal with H : _ |- _ => solve [clear - Ha Hb H E; try Z.to_euclidean_division_equations; lia] end.
Qed.

(** ** IPv6 *)

Lemma splitUnits_ne c s : splitUnits c s <> [].
Proof. induction s as [|d s IH]; cbn; [done|]. destruct (splitUnits c s); [done|]. by destruct (d =? c). Qed.
Lemma splitUnits_cons c d s : splitUnits c (d :: s) = if d =? c then [] :: splitUnits c s else match splitUnits c s with x :: l => (d :: x) :: l | [] => [] end.
Proof. cbn. pose proof (splitUnits_ne c s). destruct (splitUnits c s); [done|]. by destruct (d =? c). Qed.
Lemma splitUnits_join c s t : splitUnits c (s ++ c :: t) = splitUnits c s ++ splitUnits c t.
Proof.
  induction s as [|d s IH]; cbn [app].
  - rewrite splitUnits_cons, Z.eqb_refl. done.
  - rewrite !splitUnits_cons, IH. pose proof (splitUnits_ne c s). destruct (d =? c); [done|]. by destruct (splitUnits c s).
Qed.
Lemma splitUnits_parts c s p l : splitUnits c s = p :: l -> match l with [] => s = p | _ => exists t, s = p ++ c :: t /\ splitUnits c t = l end.
Proof.
  revert p l. induction s as [|d s IH]; intros p l; [by intros [= <- <-]|]. rewrite splitUnits_cons. destruct (Z.eqb_spec d c) as [->|].
  - intros [= <- <-]. pose proof (splitUnits_ne c s). destruct (splitUnits c s) eqn:E; [done|]. by exists s.
  - pose proof (splitUnits_ne c s). destruct (splitUnits c s) as [|x l'] eqn:E; [done|]. intros [= <- <-]. specialize (IH x l' eq_refl).
    destruct l' as [|y l']; [by subst|]. destruct IH as (t & -> & Ht). by exists t.
Qed.

Lemma cutDouble_Some s l r : cutDouble s = Some (l, r) -> s = l ++ 58 :: 58 :: r.
Proof.
  revert l. induction s as [|c s IH]; intros l; cbn; [done|]. destruct (_ && _) eqn:E.
  - intros [= <- <-]. boolify. destruct s as [|c2 s]; [done|]. cbn in *. congruence.
  - destruct (cutDouble s) as [[l' r']|]; [|done]. intros [= <- <-]. by rewrite (IH l').
Qed.

Lemma hexDigits_prefix s l : hexDigits s = Some l -> hexPrefix s = l /\ length l = length s.
Proof.
  revert l. induction s as [|c s IH]; intros l; cbn; [by intros [= <-]|]. destruct (hexValue c); [|done]. destruct (hexDigits s) as [l'|]; [|done].
  intros [= <-]. destruct (IH l' eq_refl) as [-> <-]. done.
Qed.
Lemma hexGroup_parse p v : hexGroup p = Some v -> parseHex p = Some v /\ p <> [].
Proof.
  unfold hexGroup, parseHex. destruct (hexDigits p) as [l|] eqn:E; [|done]. destruct (_ && _) eqn:Hl; [|done]. intros [= <-].
  apply hexDigits_prefix in E as [-> E]. boolify. destruct l; [done|]. by destruct p.
Qed.

Lemma groups_cons tail p q ps : groups tail (p :: q :: ps) = match hexGroup p, groups tail (q :: ps) with Some v, Some l => Some (v :: l) | _, _ => None end.
Proof. reflexivity. Qed.
Lemma groups_length tail ps l : groups tail ps = Some l -> (length l <= S (length ps))%nat.
Proof.
  revert l. induction ps as [|p [|q ps] IH]; intros l; [done| |].
  - cbn. destruct (hexGroup p); [by intros [= <-]; cbn; lia|]. destruct tail; [|done]. destruct (ipv4 p) as [[[[? ?] ?] ?]|]; [|done]. intros [= <-]. cbn. lia.
  - rewrite groups_cons. destruct (hexGroup p); [|done]. destruct (groups tail (q :: ps)) as [l'|]; [|done]. intros [= <-].
    specialize (IH l' eq_refl). cbn in *. lia.
Qed.
Lemma groups_false ps l : groups false ps = Some l -> length l = length ps.
Proof.
  revert l. induction ps as [|p [|q ps] IH]; intros l; [done| |].
  - cbn. destruct (hexGroup p); [by intros [= <-]|done].
  - rewrite groups_cons. destruct (hexGroup p); [|done]. destruct (groups false (q :: ps)) as [l'|]; [|done]. intros [= <-].
    specialize (IH l' eq_refl). cbn in *. lia.
Qed.

(** The text of a group: nothing, for zero, or its digits. *)
Definition groupText (p : text) (g : Z) : Prop := (p = [] /\ g = 0) \/ hexGroup p = Some g.

(** The first two parts of an address are its first two groups, the second one at least when the first is not zero. *)
Lemma ipv6_leading s l : ipv6Groups s = Some l -> exists g0 g1 r p q ps, l = g0 :: g1 :: r /\ length r = 6%nat
  /\ splitUnits 58 s = p :: q :: ps /\ groupText p g0 /\ (g0 <> 0 -> groupText q g1).
Proof.
  unfold ipv6Groups. destruct (cutDouble s) as [[a b]|] eqn:Hc.
  - apply cutDouble_Some in Hc as ->. destruct (side false a) as [ga|] eqn:Ea; [|done]. destruct (side true b) as [gb|] eqn:Eb; [|done].
    destruct (Nat.leb_spec (length ga + length gb) 7) as [Hlen|]; [|done]. intros [= <-].
    rewrite splitUnits_join, splitUnits_cons. cbn [Z.eqb Pos.eqb]. unfold side in Ea. case_bool_decide as Ha.
    + injection Ea as <-. subst a. cbn [app splitUnits length] in *.
      destruct (splitUnits 58 b) as [|q0 qs] eqn:Hs; [by destruct (splitUnits_ne 58 b)|].
      destruct (repeat 0 (8 - (0 + length gb)) ++ gb) as [|g0 [|g1 r]] eqn:El;
        [apply (f_equal length) in El; rewrite length_app, repeat_length in El; cbn in El; lia..|].
      assert (g0 = 0 /\ length r = 6%nat) as [-> Hr].
      { split; [|apply (f_equal length) in El; rewrite length_app, repeat_length in El; cbn in El; lia].
        destruct (8 - (0 + length gb))%nat eqn:En; [lia|]. cbn in El. by injection El. }
      exists 0, g1, r, [], [], (q0 :: qs). split_and!; [done..|by left|done].
    + pose proof (groups_false _ _ Ea) as Hl. destruct (splitUnits 58 a) as [|p [|q ps]] eqn:Hs; [done| |].
      * cbn in Ea. destruct (hexGroup p) as [g|] eqn:Hp; [|done]. injection Ea as <-. cbn [length app] in *.
        destruct (8 - (1 + length gb))%nat as [|n] eqn:En; [lia|]. cbn [repeat app].
        exists g, 0, (repeat 0 n ++ gb), p, [], (splitUnits 58 b). split_and!; [done|rewrite length_app, repeat_length; lia|done|by right|intros _; by left].
      * rewrite groups_cons in Ea. destruct (hexGroup p) as [g|] eqn:Hp; [|done].
        destruct (groups false (q :: ps)) as [l'|] eqn:Hq; [|done]. injection Ea as <-.
        assert (exists g1 l2, l' = g1 :: l2 /\ hexGroup q = Some g1) as (g1 & l2 & -> & Hg1).
        { destruct ps as [|q2 ps]; [cbn in Hq|rewrite groups_cons in Hq]; destruct (hexGroup q); try done; [injection Hq as <-; eauto|].
          destruct (groups false (q2 :: ps)); [|done]. injection Hq as <-. eauto. }
        exists g, g1, (l2 ++ repeat 0 (8 - (length (g :: g1 :: l2) + length gb)) ++ gb), p, q, (ps ++ [] :: splitUnits 58 b).
        split_and!; [done|rewrite !length_app, repeat_length; cbn in *; lia|done|by right|intros _; by right].
  - destruct (groups true (splitUnits 58 s)) as [l'|] eqn:Hg; [|done]. destruct (Nat.eqb_spec (length l') 8) as [Hlen|]; [|done]. intros [= <-].
    pose proof (groups_length _ _ _ Hg) as Hl. destruct (splitUnits 58 s) as [|p [|q [|q2 ps]]] eqn:Hs; cbn in Hl; try lia.
    rewrite groups_cons in Hg. destruct (hexGroup p) as [g|] eqn:Hp; [|done]. rewrite groups_cons in Hg. destruct (hexGroup q) as [g1|] eqn:Hq; [|done].
    destruct (groups true (q2 :: ps)) as [l2|]; [|done]. injection Hg as <-. cbn in Hlen.
    exists g, g1, l2, p, q, (q2 :: ps). split_and!; [done|lia|done|by right|intros _; by right].
Qed.

Lemma groupText_parse p g : groupText p g -> parseHex p = Some g.
Proof. intros [[-> ->]|H]; [done|]. by apply hexGroup_parse in H as [? _]. Qed.

(** A printed group has one text. *)
Definition hexChar (d : Z) : Z := if d <? 10 then 48 + d else 87 + d.
Lemma hexValue_char c d : hexValue c = Some d -> (isDigit c || ((97 <=? c) && (c <=? 102)) || (c =? 58) || (c =? 46)) = true -> c = hexChar d /\ 0 <= d < 16.
Proof.
  unfold hexValue, hexChar, isDigit. intros H Hp.
  destruct (Z.leb_spec 48 c), (Z.leb_spec c 57), (Z.leb_spec 97 c), (Z.leb_spec c 102), (Z.leb_spec 65 c), (Z.leb_spec c 70), (Z.eqb_spec c 58), (Z.eqb_spec c 46);
    cbn in *; try discriminate; injection H as <-; try lia; split; try lia; destruct (Z.ltb_spec (c - 48) 10), (Z.ltb_spec (c - 87) 10); lia.
Qed.
Lemma hexDigits_text p l : hexDigits p = Some l -> forallb (fun c => isDigit c || ((97 <=? c) && (c <=? 102)) || (c =? 58) || (c =? 46)) p = true ->
  p = map hexChar l /\ Forall (fun d => 0 <= d < 16) l.
Proof.
  revert l. induction p as [|c p IH]; intros l; cbn [hexDigits forallb]; [intros [= <-]; by split|].
  destruct (hexValue c) as [d|] eqn:Hc; [|done]. destruct (hexDigits p) as [l'|]; [|done]. intros [= <-] [Hp1 Hp2]%andb_true_iff.
  destruct (hexValue_char _ _ Hc Hp1) as [-> ?]. destruct (IH l' eq_refl Hp2) as [-> ?]. split; [done|by constructor].
Qed.
Lemma group_text p g : hexGroup p = Some g -> forallb (fun c => isDigit c || ((97 <=? c) && (c <=? 102)) || (c =? 58) || (c =? 46)) p = true -> plainGroup p = true ->
  (g = 0x2001 -> p = u "2001") /\ (g = 0xdb8 -> p = u "db8") /\ 0 <= g < 65536.
Proof.
  unfold hexGroup. destruct (hexDigits p) as [l|] eqn:E; [|done]. intros Hg Hp Hz. destruct (hexDigits_text _ _ E Hp) as [-> Hl].
  destruct (_ && _) eqn:Hlen; [|done]. injection Hg as <-. apply andb_true_iff in Hlen as [H1%Nat.leb_le H2%Nat.leb_le].
  assert ((length l <= 1)%nat \/ head l <> Some 0) as Hh.
  { unfold plainGroup in Hz. apply orb_true_iff in Hz as [Hz%Nat.leb_le|Hz]; [left; by rewrite length_map in Hz|right]. boolify. destruct l as [|d l]; [done|]. cbn in *.
    intros [= ->]. by apply Hz. }
  assert (forall a b, a = b -> hexChar a = hexChar b) as Hc by congruence.
  destruct l as [|a [|b [|c [|d [|e l]]]]]; cbn in H1, H2; try lia; repeat match goal with H : Forall _ (_ :: _) |- _ => apply Forall_cons in H as [? H] end;
    unfold hexNumber; cbn [fold_left]; cbn in Hh; split_and!; try lia; intros Eg;
    try (assert (a <> 0) by (destruct Hh as [?|Hh]; [lia|congruence])); try lia.
  - assert (a = 13 /\ b = 11 /\ c = 8) as (-> & -> & ->) by lia. reflexivity.
  - assert (a = 2 /\ b = 0 /\ c = 0 /\ d = 1) as (-> & -> & -> & ->) by lia. reflexivity.
Qed.

Lemma printed_parts s p q ps : printed s = true -> splitUnits 58 s = p :: q :: ps ->
  plainGroup p = true /\ plainGroup q = true /\ (exists t, s = p ++ 58 :: q ++ t)
  /\ forallb (fun c => isDigit c || ((97 <=? c) && (c <=? 102)) || (c =? 58) || (c =? 46)) p = true
  /\ forallb (fun c => isDigit c || ((97 <=? c) && (c <=? 102)) || (c =? 58) || (c =? 46)) q = true.
Proof.
  unfold printed. intros H Hs. rewrite Hs in H. apply andb_true_iff in H as [[H1 _]%andb_true_iff H2]. cbn in H2. rewrite !andb_true_iff in H2.
  apply splitUnits_parts in Hs as (t & E & Ht). assert (exists t', t = q ++ t') as [t' ->].
  { apply splitUnits_parts in Ht. destruct ps; [exists []; by rewrite app_nil_r|]. destruct Ht as (t' & -> & _). by eexists. }
  rewrite E, !forallb_app in H1. apply andb_true_iff in H1 as [Hp H1]. cbn [forallb] in H1. apply andb_true_iff in H1 as [_ H1]. rewrite forallb_app in H1.
  apply andb_true_iff in H1 as [Hq _]. split_and!; [tauto|tauto|by exists t'|done|done].
Qed.

Lemma startsWith_app p s : startsWith p (p ++ s) = true.
Proof. induction p as [|c p IH]; cbn; [done|]. by rewrite Z.eqb_refl. Qed.
Lemma startsWith_eq p s : startsWith p s = true -> s = p ++ drop (length p) s.
Proof.
  revert s. induction p as [|c p IH]; intros [|d s]; cbn; try done. intros [->%Z.eqb_eq H]%andb_true_iff. f_equal. by apply IH.
Qed.

(** What the first groups must be for the address to pass, in numbers. *)
Definition local6 (g0 g1 : Z) : bool :=
  (g0 =? 0) || (g0 =? 0x100) || ((0xfe00 <=? g0) && (g0 <=? 0xfeff)) || ((0xfc00 <=? g0) && (g0 <=? 0xfdff)) || (0xff00 <=? g0)
  || ((g0 =? 0x2001) && (g1 =? 0xdb8)) || ((g0 =? 0x2001) && (g1 <=? 0x20)) || ((g0 =? 0x64) && (g1 =? 0xff9b)) || (g0 =? 0x2002) || (g0 =? 0x3ffe).

Lemma local6_spec s g0 g1 r : printed s = true -> ipv6Groups s = Some (g0 :: g1 :: r) -> isLocalIpv6 s = false -> local6 g0 g1 = false /\ 0 <= g0 < 65536.
Proof.
  intros Hpr Hg. destruct (ipv6_leading _ _ Hg) as (? & ? & ? & p & q & ps & [= <- <- <-] & _ & Hs & Hp & Hq).
  destruct (printed_parts _ _ _ _ Hpr Hs) as (P1 & P2 & (t & E) & P3 & P4).
  unfold isLocalIpv6, leading. rewrite Hs, (groupText_parse _ _ Hp), !equals_eqb. unfold within. intros H.
  assert (0 <= g0 < 65536) as Hr0 by (destruct Hp as [[_ ->]|Hp]; [lia|]; by destruct (group_text _ _ Hp P3 P1) as (_ & _ & ?)).
  split; [|done]. destruct (Z.eqb_spec g0 0) as [|Hn]; [done|]. rewrite (groupText_parse _ _ (Hq Hn)), equals_eqb in H.
  unfold local6. destruct (Z.eqb_spec g0 0); [done|]. destruct (startsWith (u "2001:db8") s) eqn:Hd; [by rewrite !orb_true_r in H|].
  replace ((g0 =? 0x2001) && (g1 =? 0xdb8)) with false; [rewrite !orb_false_r in *; exact H|].
  symmetry. apply andb_false_iff. destruct (Z.eqb_spec g0 0x2001) as [E0|]; [right|by left]. apply Z.eqb_neq. intros E1.
  destruct Hp as [[_ Hp]|Hp]; [lia|]. destruct (Hq Hn) as [[_ Hq']|Hq']; [lia|].
  rewrite (proj1 (group_text _ _ Hp P3 P1) E0), (proj1 (proj2 (group_text _ _ Hq' P4 P2)) E1) in E.
  rewrite E in Hd. by change (u "2001" ++ 58 :: u "db8" ++ t) with (u "2001:db8" ++ t) in Hd.
Qed.

(** ** Every group is a number of 16 bits *)

Lemma hexGroup_bound p g : hexGroup p = Some g -> 0 <= g < 65536.
Proof.
  assert (forall s l, hexDigits s = Some l -> Forall (fun d => 0 <= d < 16) l) as Hd.
  { induction s as [|c s IH]; cbn; intros l; [by intros [= <-]|]. destruct (hexValue c) as [v|] eqn:Hc; [|done]. destruct (hexDigits s); [|done].
    intros [= <-]. constructor; [|by apply IH]. unfold hexValue, isDigit in Hc. repeat case_match; try discriminate; boolify; injection Hc as <-; lia. }
  unfold hexGroup. destruct (hexDigits p) as [l|] eqn:E; [|done]. apply Hd in E. destruct (_ && _) eqn:Hl; [|done]. intros [= <-].
  apply andb_true_iff in Hl as [_ H2%Nat.leb_le]. unfold hexNumber.
  destruct l as [|a [|b [|c [|d [|e l]]]]]; cbn in H2; try lia; repeat match goal with H : Forall _ (_ :: _) |- _ => apply Forall_cons in H as [? H] end; cbn; lia.
Qed.
Lemma groups_bound tail ps l : groups tail ps = Some l -> Forall (fun g => 0 <= g < 65536) l.
Proof.
  revert l. induction ps as [|p [|q ps] IH]; intros l; [done| |].
  - cbn. destruct (hexGroup p) as [g|] eqn:E; [intros [= <-]; constructor; [by eapply hexGroup_bound|done]|]. destruct tail; [|done].
    destruct (ipv4 p) as [[[[a b] c] d]|] eqn:E4; [|done]. intros [= <-]. apply ipv4_Some in E4 as (_ & ? & ? & ? & ?). repeat constructor; lia.
  - rewrite groups_cons. destruct (hexGroup p) as [g|] eqn:E; [|done]. destruct (groups tail (q :: ps)) as [l'|]; [|done]. intros [= <-].
    constructor; [by eapply hexGroup_bound|by apply IH].
Qed.
Lemma ipv6_bound s l : ipv6Groups s = Some l -> Forall (fun g => 0 <= g < 65536) l.
Proof.
  unfold ipv6Groups. destruct (cutDouble s) as [[a b]|].
  - assert (forall tail x y, side tail x = Some y -> Forall (fun g => 0 <= g < 65536) y) as Hs.
    { intros tail x y. unfold side. case_bool_decide; [by intros [= <-]|]. apply groups_bound. }
    destruct (side false a) as [ga|] eqn:Ea; [|done]. destruct (side true b) as [gb|] eqn:Eb; [|done]. destruct (_ <=? _)%nat; [|done]. intros [= <-].
    apply Forall_app. split; [by eapply Hs|]. apply Forall_app. split; [|by eapply Hs]. apply Forall_forall. intros x Hx%list_elem_of_In%repeat_spec. lia.
  - destruct (groups true _) as [l'|] eqn:E; [|done]. destruct (_ =? _)%nat; [|done]. intros [= <-]. by eapply groups_bound.
Qed.

Lemma v6_prefix g0 g1 r : Forall (fun g => 0 <= g < 65536) r -> length r = 6%nat -> v6 (g0 :: g1 :: r) / 2 ^ (128 - 32) = g0 * 65536 + g1.
Proof.
  intros Hr Hl. change (2 ^ (128 - 32)) with (65536 * 65536 * 65536 * 65536 * 65536 * 65536).
  destruct r as [|a [|b [|c [|d [|e [|f [|]]]]]]]; try done. repeat match goal with H : Forall _ (_ :: _) |- _ => apply Forall_cons in H as [? H] end.
  unfold v6. cbn [fold_left]. symmetry. apply Z.div_unique with (((((a * 65536 + b) * 65536 + c) * 65536 + d) * 65536 + e) * 65536 + f); lia.
Qed.

Lemma not_local6 g0 g1 r : 0 <= g0 < 65536 -> 0 <= g1 < 65536 -> Forall (fun g => 0 <= g < 65536) r -> length r = 6%nat -> local6 g0 g1 = false ->
  existsb (inBlock 128 (v6 (g0 :: g1 :: r))) SPECIAL6 = false.
Proof.
  intros H0 H1 Hr Hl H. pose proof (v6_prefix g0 g1 r Hr Hl) as Hp. unfold local6 in H. unfold SPECIAL6. cbn [existsb].
  rewrite !orb_false_iff, !andb_false_iff, !Z.eqb_neq, !Z.leb_gt in H.
  set (x := v6 (g0 :: g1 :: r)) in *. clearbody x. clear Hr Hl.
  repeat (apply orb_false_iff; split); try reflexivity; outside_block 128 32 Hp; clear Hp; try Z.to_euclidean_division_equations; lia.
Qed.

Lemma not_reserved6 g0 g1 r : 0 <= g0 < 65536 -> 0 <= g1 < 65536 -> Forall (fun g => 0 <= g < 65536) r -> length r = 6%nat -> local6 g0 g1 = false ->
  existsb (inBlock 128 (v6 (g0 :: g1 :: r))) RESERVED6 && negb (overlooked (g0 :: g1 :: r)) = false.
Proof.
  intros H0 H1 Hr Hl H. unfold RESERVED6, overlooked. rewrite existsb_app, (not_local6 g0 g1 r) by done. cbn [existsb orb].
  destruct (inBlock 128 _ DOCUMENTATION6), (inBlock 128 _ ROUTING6); rewrite ?orb_true_r, ?andb_false_r; try done. cbn [orb]. rewrite orb_false_r.
  destruct (inBlock 128 _ PROTOCOL6) eqn:E; [|done]. cbn [andb]. apply negb_false_iff, Z.ltb_lt.
  pose proof (v6_prefix g0 g1 r Hr Hl) as Hp. unfold PROTOCOL6 in E. apply (block_prefix 128 32) in E; [|lia|lia]. destruct E as [E _].
  specialize (E ltac:(lia)). rewrite Hp in E. evaluate E. clear Hp. unfold local6 in H. rewrite !orb_false_iff, !andb_false_iff, !Z.eqb_neq, !Z.leb_gt in H.
  destruct H as [[[[_ H] _] _] _]. clear Hr Hl. Z.to_euclidean_division_equations. lia.
Qed.

(** ** An accepted address *)

Lemma printed_char s c : printed s = true -> c ∈ s -> (isDigit c || ((97 <=? c) && (c <=? 102)) || (c =? 58) || (c =? 46)) = true.
Proof.
  unfold printed. intros [[H _]%andb_true_iff _]%andb_true_iff Hc. rewrite forallb_forall in H. by apply H, list_elem_of_In.
Qed.
Lemma printed_not s c : printed s = true -> c ∈ s -> c <> 37 /\ c <> 91 /\ c <> 93 /\ lowerUnit c = c.
Proof.
  intros H Hc. pose proof (printed_char s c H Hc) as Hp. unfold isDigit in Hp. unfold lowerUnit.
  destruct (Z.leb_spec 65 c), (Z.leb_spec c 90); cbn [andb]; boolify; try lia; destruct Hp as [[[Hp|Hp]|Hp]|Hp]; boolify; lia.
Qed.
Lemma printed_lower s : printed s = true -> map lowerUnit s = s.
Proof.
  intros H. pose proof (fun c Hc => proj2 (proj2 (proj2 (printed_not s c H Hc)))) as Hl. clear H.
  induction s as [|c s IH]; cbn; [done|]. rewrite Hl by (by left). f_equal. apply IH. intros d Hd. apply Hl. by right.
Qed.
Lemma printed_host s : printed s = true -> map lowerUnit (dropLast 46 (dropLast 93 (dropFirst 91 s))) = s.
Proof.
  intros H. assert (dropFirst 91 s = s) as ->.
  { destruct s as [|c s]; [done|]. cbn. destruct (Z.eqb_spec c 91); [|done]. destruct (printed_not (c :: s) c H) as (_ & ? & _); [by left|done]. }
  assert (forall x, last s <> Some x -> dropLast x s = s) as Hl.
  { intros x Hx. unfold dropLast. destruct (reverse s) as [|c t] eqn:E; [by apply (f_equal reverse) in E; rewrite reverse_involutive in E; subst s|].
    apply (f_equal reverse) in E as E'. rewrite reverse_involutive, reverse_cons in E'. subst s. cbn [dropFirst]. rewrite last_snoc in Hx.
    destruct (Z.eqb_spec c x); [congruence|]. by rewrite reverse_cons. }
  rewrite (Hl 93), (Hl 46); [by apply printed_lower| |].
  - unfold printed in H. apply andb_true_iff in H as [[_ H]%andb_true_iff _]. by boolify.
  - intros Hx%last_Some_elem_of. by destruct (printed_not s 93 H Hx) as (_ & _ & ? & _).
Qed.
Lemma ipv6_plain s : 37 ∉ s -> ipv6 s = ipv6Groups s.
Proof.
  intros H. unfold ipv6. assert (beforeZone s = (s, None)) as ->; [|done].
  induction s as [|c s IH]; cbn; [done|]. apply not_elem_of_cons in H as [Hc Hs]. destruct (Z.eqb_spec c 37); [congruence|]. by rewrite IH.
Qed.
Lemma isIP_4 s : isIP s = 4 -> is_Some (ipv4 s).
Proof. unfold isIP. case_bool_decide; [done|]. by case_bool_decide. Qed.
Lemma isIP_6 s : isIP s = 6 -> is_Some (ipv6 s).
Proof. unfold isIP. case_bool_decide; [done|]. by case_bool_decide. Qed.

Lemma ipv4_chars s v : ipv4 s = Some v -> 58 ∉ s /\ hexGroup s = None.
Proof.
  unfold ipv4. destruct (splitUnits 46 s) as [|p [|q [|r [|t [|]]]]] eqn:Hs; try done. intros Hv.
  destruct (octet p) as [a|] eqn:Ea; [|done]. destruct (octet q) as [b|] eqn:Eb; [|done]. destruct (octet r) as [c|] eqn:Ec; [|done]. destruct (octet t) as [d|] eqn:Ed; [|done].
  apply octet_Some in Ea as (_ & _ & Dp & _), Eb as (_ & _ & Dq & _), Ec as (_ & _ & Dr & _), Ed as (_ & _ & Dt & _).
  assert (forall x, forallb isDigit x = true -> 58 ∉ x) as Hd.
  { intros x Hx Hin. rewrite forallb_forall in Hx. apply list_elem_of_In, Hx in Hin. done. }
  apply splitUnits_parts in Hs as (s1 & -> & Hs). apply splitUnits_parts in Hs as (s2 & -> & Hs).
  apply splitUnits_parts in Hs as (s3 & -> & Hs). apply splitUnits_parts in Hs as ->. split.
  - rewrite !not_elem_of_app, !not_elem_of_cons, !not_elem_of_app, !not_elem_of_cons, !not_elem_of_app, !not_elem_of_cons. split_and!; auto; done.
  - unfold hexGroup. assert (hexDigits (p ++ 46 :: q ++ 46 :: r ++ 46 :: t) = None) as ->; [|done].
    clear. induction p as [|c p IH]; cbn; [done|]. rewrite IH. by destruct (hexValue c).
Qed.

(** A text [::ffff:a.b.c.d] is the address that stands for [a.b.c.d]. *)
Lemma mapped_groups m a b c d : ipv4 m = Some (a, b, c, d) ->
  ipv6Groups (u "::ffff:" ++ m) = Some [0; 0; 0; 0; 0; 0xffff; a * 256 + b; c * 256 + d].
Proof.
  intros H. destruct (ipv4_chars _ _ H) as [H1 H2]. change (u "::ffff:" ++ m) with (58 :: 58 :: (u "ffff" ++ 58 :: m)).
  unfold ipv6Groups. cbn [cutDouble Z.eqb Pos.eqb andb head tail]. rewrite bool_decide_true by done. unfold side. rewrite bool_decide_true by done.
  rewrite bool_decide_false by done. rewrite splitUnits_join, (splitUnits_none 58 m) by (apply Forall_forall; intros x Hx ->; contradiction).
  change (splitUnits 58 (u "ffff")) with [u "ffff"]. cbn [app]. rewrite groups_cons. change (hexGroup (u "ffff")) with (Some 65535).
  cbn [groups]. by rewrite H2, H.
Qed.

Lemma mapped_blocks x y : 0 <= x < 65536 -> 0 <= y < 65536 -> existsb (inBlock 128 (v6 [0; 0; 0; 0; 0; 0xffff; x; y])) RESERVED6 = false.
Proof.
  intros Hx Hy. assert (v6 [0; 0; 0; 0; 0; 0xffff; x; y] / 2 ^ (128 - 96) = 65535) as Hp.
  { change (2 ^ (128 - 96)) with 4294967296. unfold v6. cbn [fold_left]. symmetry. apply Z.div_unique with (x * 65536 + y); lia. }
  set (a := v6 _) in *. clearbody a. unfold RESERVED6, SPECIAL6, PROTOCOL6, DOCUMENTATION6, ROUTING6. cbn [existsb app].
  repeat (apply orb_false_iff; split); try reflexivity; outside_block 128 96 Hp; match goal with H : _ = _ :> Z |- _ => vm_compute in H; discriminate end.
Qed.

(** Outside the special-purpose blocks. *)
Definition outsideSpecial (s : text) : Prop :=
  (exists a b c d, ipv4 s = Some (a, b, c, d) /\ special4 (v4 a b c d) = false)
  \/ (exists l, ipv6 s = Some l /\ special6 l = false).

Lemma relay_address_is_global s : (isIP s = 6 -> printed s = true) -> isGlobalRelayAddress s = true -> outsideSpecial s.
Proof.
  intros Hpr. unfold isGlobalRelayAddress. destruct (Z.eqb_spec (isIP s) 4) as [E4|]; [|destruct (Z.eqb_spec (isIP s) 6) as [E6|]; [|done]].
  - intros H%negb_true_iff. left. destruct (isIP_4 _ E4) as [[[[a b] c] d] Hv]. exists a, b, c, d. split; [done|].
    destruct (ipv4_Some _ _ _ _ _ Hv) as (El & ? & ? & ? & ?). apply not_local4; try done. by rewrite <- El.
  - intros H. right. destruct (isIP_6 _ E6) as [l Hl]. exists l. split; [done|]. specialize (Hpr E6). rewrite (printed_lower s Hpr) in H.
    destruct (isLocalRelayHost s) eqn:Hloc; [done|]. clear H. unfold isLocalRelayHost in Hloc. rewrite (printed_host s Hpr) in Hloc. cbn zeta in Hloc.
    destruct (_ || existsb _ _); [done|]. rewrite E6 in Hloc. cbn [Z.eqb Pos.eqb] in Hloc. destruct (_ || _); [done|].
    assert (37 ∉ s) as Hz by (intros Hin; by destruct (printed_not s 37 Hpr Hin)). rewrite (ipv6_plain s Hz) in Hl.
    destruct (startsWith (u "::ffff:") s) eqn:Hm.
    + apply startsWith_eq in Hm. change (length (u "::ffff:")) with 7%nat in Hm. destruct (Z.eqb_spec (isIP (drop 7 s)) 4) as [Em|]; [|done].
      destruct (isIP_4 _ Em) as [[[[a b] c] d] Hv]. rewrite Hm in Hl. rewrite (mapped_groups _ _ _ _ _ Hv) in Hl. injection Hl as <-.
      destruct (ipv4_Some _ _ _ _ _ Hv) as (El & ? & ? & ? & ?). rewrite El in Hloc. unfold special6. cbn [take drop].
      rewrite bool_decide_true by done. cbn [andb]. replace (v6 [a * 256 + b; c * 256 + d]) with (v4 a b c d) by (unfold v6, v4; cbn; lia).
      rewrite (not_local4 a b c d) by done. rewrite orb_false_r, mapped_blocks by lia. done.
    + destruct (ipv6_leading _ _ Hl) as (g0 & g1 & r & p & q & ps & -> & Hr & _).
      destruct (local6_spec _ _ _ _ Hpr Hl Hloc) as [Hg Hb]. pose proof (ipv6_bound _ _ Hl) as HB.
      apply Forall_cons in HB as [B0 HB]. apply Forall_cons in HB as [B1 HB]. unfold special6. rewrite (not_reserved6 g0 g1 r) by done.
      rewrite bool_decide_false; [done|]. cbn. intros [= -> _]. done.
Qed.

(** * Where a model is called in production *)

Section Production.
Context (parseUrl : string -> option Url) (dateParse : string -> option Z) (rateOk : string -> bool) (now : Z) (lookup : text -> option (list text)).
(** A web address that is printed, without a slash at its end, reads as the same one. *)
Hypothesis reparse : forall s url, parseUrl s = Some url -> url_protocol url ∈ ["http:"; "https:"]%string ->
  exists url', parseUrl (encode (dropLast 47 (decode (url_href url)))) = Some url' /\ url_protocol url' = url_protocol url
    /\ url_hostname url' = url_hostname url /\ url_username url' = url_username url /\ url_password url' = url_password url.

(** The name service gives addresses as [inet_ntop] prints them. *)
Hypothesis lookup_prints : forall host addresses, lookup host = Some addresses -> Forall (fun a => isIP a = 6 -> printed a = true) addresses.

Lemma config_Ok production v config : normalizeRuntimeProviderConfig parseUrl dateParse rateOk production now v = Ok config ->
  exists base url, parseUrl base = Some url /\ relayUrlOk production base url = true
    /\ mget "base_url" config = Some (JStr (encode (dropLast 47 (decode (url_href url)))))
    /\ mget "provider_version" config = None /\ mget "model_version" config = None
    /\ (forall e, mget "expires_at" config = Some e -> exists t, timeOf dateParse (Some e) = Some t /\ now < t).
Proof.
  destruct v as [| | | | | |raw]; try done. cbn [normalizeRuntimeProviderConfig].
  intros (u1 & _ & (u2 & _ & (url & Hu & (u3 & _ & (u4 & _ & (u5 & Hd%require_Ok & (u6 & He%require_Ok & (u7 & _ & (u8 & _ & (cap & _ & (pr & _ & [= <-])%bind_Ok)%bind_Ok)%bind_Ok)%bind_Ok)%bind_Ok)%bind_Ok)%bind_Ok)%bind_Ok)%bind_Ok)%bind_Ok)%bind_Ok.
  set (base := strOr (mget "base_url" raw) "") in *. destruct (parseUrl base) as [url'|] eqn:Hp; [|done]. destruct (relayUrlOk _ _ _) eqn:Hr; [|done]. injection Hu as ->.
  exists base, url. split_and!; [done|done|readMembers; reflexivity| | |].
  1,2: readMembers; unfold withoutVersions; by rewrite !mget_mdelete.
  intros e. readMembers. unfold withoutVersions. rewrite !mget_mdelete. cbn [String.eqb Ascii.eqb Bool.eqb]. intros Hx. rewrite Hx in *.
  apply andb_true_iff in Hd as [[_ Hd]%andb_true_iff _]. cbn [absentOr isDate] in Hd. destruct e as [| | | |s| |]; try done. cbn in Hd. boolify.
  destruct Hd as [t Ht]. exists t. unfold timeOf. cbn. split; [done|]. unfold notExpired, timeOf in He. cbn in He. rewrite Ht in He. boolify. lia.
Qed.

End Production.

(** * On concrete inputs *)

Example address_examples : map isGlobalRelayAddress
    [u "8.8.8.8"; u "169.254.169.254"; u "2606:4700::1111"; u "::ffff:10.0.0.1"; u "::ffff:8.8.8.8"; u "FE80::1"; u "2001:db8::1"; u "fe80::1%eth0"; u "8.8.8"]
  = [true; false; true; false; true; false; false; false; false].
Proof. vm_compute. reflexivity. Qed.

(** Reserved addresses of the three overlooked blocks pass. *)
Example overlooked_blocks_pass : map (fun s => (isGlobalRelayAddress s, match ipv6 s with Some l => existsb (inBlock 128 (v6 l)) RESERVED6 | None => false end))
    [u "3fff::1"; u "5f00::1"; u "2001:21::1"; u "2001:1ff::1"] = [(true, true); (true, true); (true, true); (true, true)].
Proof. vm_compute. reflexivity. Qed.
(** So does the older documentation block if its second group is written with a leading zero. *)
Example spelling_passes : map isGlobalRelayAddress [u "2001:db8::1"; u "2001:0db8::1"] = [false; true].
Proof. vm_compute. reflexivity. Qed.

Definition demoUrl : Url := mkUrl "https:" "" "" "" "" "/v1" (u "relay.example.com") "https://relay.example.com/v1".
Definition demoParseUrl (s : string) : option Url := if String.eqb s "https://relay.example.com/v1" then Some demoUrl else None.
Definition demoLookup (addresses : list string) (host : text) : option (list text) := if bool_decide (host = u "relay.example.com") then Some (map u addresses) else None.
Definition demoDate (s : string) : option Z := Some 5.
Definition demoPricing : json := JObj [("pricing_version", JInt 1); ("pricing_status", JStr "known"); ("billing_mode", JStr "token"); ("currency", JStr "USD"); ("effective_from", JStr "x");
  ("input_usd_per_million", JNull); ("output_usd_per_million", JNull); ("cache_read_usd_per_million", JNull); ("cache_write_usd_per_million", JNull); ("request_usd", JStr "1")]%string.
Definition demoRuntime : json := JObj [("base_url", JStr "https://relay.example.com/v1"); ("api_key", JStr "k"); ("model", JStr "m"); ("provider_ref", JStr "p");
  ("api_protocol", JStr "openai-responses"); ("version", JInt 1); ("expires_at", JStr "later"); ("pricing", demoPricing)]%string.
Definition demoNormalize (addresses : list string) : result manager_error fields :=
  normalizeRuntimeProviderConfigWithDns demoParseUrl demoDate (fun _ => true) true 4 (demoLookup addresses) demoRuntime.

Example demo_accepted : match demoNormalize ["8.8.8.8"; "2606:4700::1"]%string with Ok c => mget "base_url" c = Some (JStr "https://relay.example.com/v1") | Err _ => False end.
Proof. vm_compute. reflexivity. Qed.
Example demo_rebound : demoNormalize ["8.8.8.8"; "10.0.0.7"]%string = Err (ManagerUnavailableError "Manager returned a relay URL with an invalid production destination").
Proof. vm_compute. reflexivity. Qed.

Lemma demo_reparse s url : demoParseUrl s = Some url -> url_protocol url ∈ ["http:"; "https:"]%string ->
  exists url', demoParseUrl (encode (dropLast 47 (decode (url_href url)))) = Some url' /\ url_protocol url' = url_protocol url
    /\ url_hostname url' = url_hostname url /\ url_username url' = url_username url /\ url_password url' = url_password url.
Proof.
  unfold demoParseUrl at 1. destruct (String.eqb _ _); [|discriminate]. intros [= <-] _. exists demoUrl. split; [vm_compute; reflexivity|]. repeat split.
Qed.

Lemma demo_prints host addresses : demoLookup ["8.8.8.8"; "2606:4700::1"]%string host = Some addresses -> Forall (fun a => isIP a = 6 -> printed a = true) addresses.
Proof. unfold demoLookup. destruct (bool_decide _); [|discriminate]. intros [= <-]. repeat constructor; vm_compute; auto. Qed.

