(* ===== verification/TaskCreation.v ===== *)
(** Creating an automation task once ([create] of services/automation-tasks.ts with the checks it
    makes, [authorizedConnectors] and [validateConnectorSelection] of connectors.ts).

    A creation waits once, for the employee's session: [createBegin] runs up to there,
    [createFinish] from there on, and in between the process may do anything else or stop.  The
    hash of a request, the answer [get] builds (which no step of a creation reads), the local
    connector file, the time zones and the Temporal parser are arguments. *)

From Stdlib Require Import Ascii.
From S2P Require Import Prelude Decimal Sql Projections Conversations Schedule.
From S2P Require Automation.
Local Open Scope Z_scope.

Notation automation_error := Automation.automation_error.
Notation AutomationError := Automation.AutomationError.

Record TaskOwner : Type := mkTaskOwner { to_tenantId : string; to_memberId : string }.
Definition fail {A} (code : string) : result automation_error A := Err (AutomationError 422 code).

(** ** The checks of a request *)

Definition CATEGORIES : list string := ["report"; "monitor"; "reminder"; "other"]%string.
Definition textOf (v : option jsval) (name : string) (max : Z) : result automation_error string :=
  match v with
  | Some (VStr s) => if isBlank s || (max <? slen s) then fail (name +:+ "_invalid") else Ok s
  | _ => fail (name +:+ "_invalid")
  end.
Definition categoryOf (v : option jsval) : result automation_error string :=
  match v ≫= wordOf with Some s => if bool_decide (s ∈ CATEGORIES) then Ok s else fail "category_invalid" | None => fail "category_invalid" end.

Definition inRange (a b : N) (c : ascii) : bool := ((a <=? N_of_ascii c) && (N_of_ascii c <=? b))%N.
(** [/^[a-z][a-z0-9_-]{0,63}$/] *)
Definition isConnectorId (s : string) : bool :=
  match chars s with
  | c :: l => inRange 97 122 c && (length l <=? 63)%nat
              && forallb (fun c => inRange 97 122 c || inRange 48 57 c || bool_decide (c = "_"%char) || bool_decide (c = "-"%char)) l
  | [] => false
  end.
Definition stringItems (l : list jsval) : list string := omap (fun v => match v with VStr s => Some s | _ => None end) l.
Definition connectorIds (v : option jsval) : result automation_error (list string) :=
  match (match v with None | Some VOther => VArr [] | Some v => v end) with
  | VArr l =>
      if (length l <=? 10)%nat && forallb (fun v => match v with VStr s => isConnectorId s | _ => false end) l
         && (length (Projections.distinct [] (stringItems l)) =? length l)%nat
      then Ok (order_by String.leb (stringItems l)) else fail "connector_unavailable"
  | _ => fail "connector_unavailable"
  end.
(** [/^[\x21-\x7e]{1,128}$/] *)
Definition isKey (s : string) : bool := (1 <=? slen s) && (slen s <=? 128) && forallb (inRange 33 126) (chars s).

Definition TASK_KEYS : list string := ["name"; "prompt"; "category"; "employee_id"; "connector_ids"; "schedule"]%string.

(** ** Connectors *)

(** A connector of the local file; [lc_enabled] says that its token, if it needs one, is there. *)
Record LocalConnector : Type := mkConnector { lc_id : string; lc_enabled : bool }.

Definition runnable (e : fields) : bool :=
  match mget "revoked" e with Some (JBool true) => false | _ => true end
  && match mget "status" e with None | Some JNull | Some (JBool false) | Some (JInt 0) => true | Some (JStr s) => String.eqb s "" || String.eqb s "active" | _ => false end.
Definition permitsConnectorTool (snapshot : fields) (connector : string) : bool :=
  match mget "tool_policy" snapshot with
  | Some (JObj policy) =>
      match mget "allowed_tools" policy with
      | Some (JArr []) => true
      | Some (JArr l) => existsb (fun v => bool_decide (asStr (Some v) = Some ("connector_" +:+ connector)%string)) l
      | _ => true
      end
  | _ => true
  end.
Definition grants (connector : string) (e s : fields) : bool :=
  bool_decide (asStr (mget "employee_id" s) = asStr (mget "employee_id" e)) && bool_decide (asStr (mget "version" s) = asStr (mget "version" e))
  && match mget "connector_refs" s with Some (JArr l) => existsb (fun v => bool_decide (asStr (Some v) = Some connector)) l | _ => false end
  && permitsConnectorTool s connector.

Definition projectionsOf {A} (r : result projection_error A) : result automation_error A := match r with Ok a => Ok a | Err _ => Err (AutomationError 500 "SyntaxError") end.

Section Creation.
Context (zoneKnown : string -> bool) (dateParse : string -> option Z) (instantText : string -> option string).
Context (stringify : ConversationSchedule -> string) (parseObject : string -> option ConversationSchedule).
Context (sha256 : string * string * string * string * list string * ConversationSchedule -> string).
Context (localConnectors : TaskOwner -> option (list LocalConnector)).
Context (answerOf : Store -> ProjectionDb -> string -> TaskOwner -> result automation_error string).

Definition authorizedConnectors (db : ProjectionDb) (o : TaskOwner) (employeeId : string) : result automation_error (list LocalConnector) :=
  experts ← projectionsOf (listLoadedExperts db (Some (to_tenantId o)) (Some (to_memberId o)) false);
  snapshots ← projectionsOf (listSnapshots db (Some (to_tenantId o)) (Some (to_memberId o)));
  let experts := List.filter (fun e => runnable e && (String.eqb employeeId "" || bool_decide (asStr (mget "employee_id" e) = Some employeeId))) experts in
  match localConnectors o with
  | None => Err (AutomationError 503 "connector_configuration_invalid")
  | Some l => Ok (List.filter (fun c => existsb (fun e => existsb (grants (lc_id c) e) snapshots) experts) l)
  end.
Definition validateConnectorSelection (db : ProjectionDb) (o : TaskOwner) (employeeId : string) (ids : list string) : result automation_error unit :=
  if bool_decide (ids = []) then Ok tt
  else
    available ← authorizedConnectors db o employeeId;
    require (forallb (fun i => existsb (fun c => String.eqb (lc_id c) i && lc_enabled c) available) ids) (AutomationError 422 "connector_unavailable").

Definition employee (db : ProjectionDb) (o : TaskOwner) (i : string) : result automation_error unit :=
  experts ← projectionsOf (listLoadedExperts db (Some (to_tenantId o)) (Some (to_memberId o)) false);
  snapshots ← projectionsOf (listSnapshots db (Some (to_tenantId o)) (Some (to_memberId o)));
  let unrevoked e := match mget "revoked" e with Some (JBool true) => false | _ => true end in
  match List.find (fun e => bool_decide (asStr (mget "employee_id" e) = Some i) && unrevoked e) experts with
  | Some e =>
      require (runnable e && existsb (fun s => bool_decide (asStr (mget "employee_id" s) = Some i) && bool_decide (asStr (mget "version" s) = asStr (mget "version" e))) snapshots)
        (AutomationError 403 "employee_not_authorized")
  | None => Err (AutomationError 403 "employee_not_authorized")
  end.

(** ** Schedules of tasks *)

Definition base (id prompt : string) (revision : Z) (enabled : bool) : list (string * jsval) :=
  [("schedule_id", VStr id); ("revision", VInt revision); ("enabled", VBool enabled); ("prompt_template", VStr prompt)]%string.
Definition scheduleInvalid {A} (r : result schedule_error A) : result automation_error A :=
  match r with Ok a => Ok a | Err _ => fail "task_schedule_invalid" end.
Definition timestamp (v : option jsval) : option string := (v ≫= wordOf) ≫= instantText.

(** A calendar that was validated reads the same when [validateSchedule] validates it again. *)
Definition taskSchedule (value : option jsval) (prompt id : string) (revision : Z) (enabled : bool) : result automation_error ConversationSchedule :=
  match value with
  | Some (VObj rule) =>
      let b := base id prompt revision enabled in
      match prop rule "timezone" with
      | Some (VStr tz) =>
          if startsWithSign tz || negb (zoneKnown tz) then fail "task_schedule_invalid"
          else
            let mode := prop rule "mode" in
            let is_mode m := match mode with Some (VStr s) => String.eqb s m | _ => false end in
            if bool_decide (mode ≫= wordOf ∈ Some <$> ["daily"; "weekly"; "monthly"]%string) then
              scheduleInvalid (_ ← validateCalendar zoneKnown (VObj rule); validateSchedule zoneKnown dateParse (VObj (b ++ [("calendar"%string, VObj rule)])))
            else if is_mode "once" then
              match timestamp (prop rule "run_at") with
              | Some t => if onlyKeys ["mode"; "timezone"; "run_at"]%string rule
                          then scheduleInvalid (validateSchedule zoneKnown dateParse (VObj (b ++ [("one_shot", VBool true); ("at", VStr t)]%string)))
                          else fail "task_schedule_invalid"
              | None => fail "task_schedule_invalid"
              end
            else if is_mode "interval" then
              match prop rule "interval_seconds", timestamp (prop rule "starts_at") with
              | Some (VInt z), Some t =>
                  if onlyKeys ["mode"; "timezone"; "interval_seconds"; "starts_at"]%string rule && (300 <=? z) && (z <=? 315360000)
                  then scheduleInvalid (validateSchedule zoneKnown dateParse (VObj (b ++ [("at", VStr t); ("interval_seconds", VInt z)]%string)))
                  else fail "task_schedule_invalid"
              | _, _ => fail "task_schedule_invalid"
              end
            else fail "task_schedule_invalid"
      | _ => fail "task_schedule_invalid"
      end
  | _ => fail "validation_error"
  end.

(** ** Creation *)

Record TaskRequest : Type := mkRequest {
  rq_name : string; rq_prompt : string; rq_category : string; rq_employeeId : string; rq_connectorIds : list string; rq_schedule : option jsval;
}.
(** What [create] checks before it looks at the tables, with the hash of the request. *)
Definition checked (body : list (string * jsval)) (key : option string) : result automation_error (string * TaskRequest * string) :=
  _ ← require (onlyKeys TASK_KEYS body) (AutomationError 422 "validation_error");
  key ← match key with Some k => if isKey k then Ok k else fail "idempotency_key_required" | None => fail "idempotency_key_required" end;
  name ← textOf (prop body "name") "task_name" 120;
  prompt ← textOf (prop body "prompt") "prompt" 20000;
  category ← categoryOf (prop body "category");
  employeeId ← textOf (prop body "employee_id") "employee_id" 256;
  connectors ← connectorIds (prop body "connector_ids");
  schedule ← taskSchedule (prop body "schedule") prompt "fingerprint" 1 true;
  Ok (key, mkRequest name prompt category employeeId connectors (prop body "schedule"), sha256 (name, prompt, category, employeeId, connectors, schedule)).

Record InFlight : Type := mkInFlight { if_owner : TaskOwner; if_key : string; if_id : string; if_conversation : string; if_request : TaskRequest }.
Record TaskWorld : Type := mkTaskWorld { tw_store : Store; tw_projections : ProjectionDb; tw_creating : list string; tw_inFlight : list InFlight }.

Definition is_creation (o : TaskOwner) (key : string) (r : Automation.CreationRow) : bool :=
  String.eqb (Automation.cr_tenant_id r) (to_tenantId o) && String.eqb (Automation.cr_member_id r) (to_memberId o) && String.eqb (Automation.cr_key r) key.
Definition creationOf (s : Store) (o : TaskOwner) (key : string) : option Automation.CreationRow := sql_get (is_creation o key) (Automation.creations (automation s)).
Definition set_automation (a : Automation.AutomationDb) (s : Store) : Store :=
  mkStore (rows s) (participants s) (sources s) (failures s) (moves s) (files s) (retries s) (receipts s) (approvals s) a (work s) (segments s).
Definition set_creations (l : list Automation.CreationRow) (s : Store) : Store :=
  let a := automation s in set_automation (Automation.mkAutomation (Automation.tasks a) (Automation.bindings a) l (Automation.occurrences a)) s.
Definition newConversation (o : TaskOwner) (i title employeeId : string) (mode : PermissionMode) : ConversationRecord (Obj := ConversationSchedule) :=
  mkRecord i "" "" (Some title) None None (Some "private"%string) None None (Some employeeId) None None (Some (to_tenantId o)) (Some (to_memberId o)) None None
    (Some mode) None None None None.

(** The transaction of a new creation. *)
Definition insertCreation (s : Store) (o : TaskOwner) (key fingerprint taskId conversationId : string) (q : TaskRequest) (connectorText : string) (now : Z)
    : result automation_error Store :=
  match sql_insert (is_creation o key) (Automation.mkCreation (to_tenantId o) (to_memberId o) key fingerprint taskId conversationId false None)
          (Automation.creations (automation s)) with
  | None => Err Automation.AutomationConstraint
  | Some l =>
      let s := set_creations l s in
      let s := (createConversation stringify parseObject s (newConversation o conversationId (rq_name q) (rq_employeeId q) ReadOnly) now).1 in
      match Automation.insert (automation s)
              (Automation.mkTaskRow taskId (to_tenantId o) (to_memberId o) (rq_name q) (rq_category q) conversationId connectorText 1 now now None) with
      | (a, Ok _) => Ok (set_automation a s)
      | (_, Err e) => Err e
      end
  end.

(** [JSON.stringify] of the connectors. *)
Context (printIds : list string -> string).

(** From the checks of the employee on; [existing] is the creation the key has already. *)
Definition createNew (w : TaskWorld) (o : TaskOwner) (key : string) (q : TaskRequest) (fingerprint : string) (existing : option Automation.CreationRow)
    (now : Z) (uuid1 uuid2 : string) : TaskWorld * option (result automation_error string) :=
  let db := tw_projections w in
  match (_ ← employee db o (rq_employeeId q);
         _ ← validateConnectorSelection db o (rq_employeeId q) (rq_connectorIds q);
         configured ← taskSchedule (rq_schedule q) (rq_prompt q) "pending" 1 true;
         require (negb (bool_decide (existing = None) && one_shot configured && match at_ configured with Some t => t <=? now | None => false end))
           (AutomationError 422 "task_schedule_invalid")) with
  | Err e => (w, Some (Err e))
  | Ok _ =>
      let id := nullish (Automation.cr_task_id <$> existing) uuid1 in
      let conversationId := nullish (Automation.cr_conversation_id <$> existing) uuid2 in
      if bool_decide (id ∈ tw_creating w) then (w, Some (Err (AutomationError 409 "task_creation_pending")))
      else
        match (match existing with Some _ => Ok (tw_store w) | None => insertCreation (tw_store w) o key fingerprint id conversationId q (printIds (rq_connectorIds q)) now end) with
        | Err e => (w, Some (Err e))
        | Ok s => (mkTaskWorld s db (id :: tw_creating w) (tw_inFlight w ++ [mkInFlight o key id conversationId q]), None)
        end
  end.

(** Up to the wait: an answer, or nothing yet and a creation in flight. *)
Definition createBegin (w : TaskWorld) (body : list (string * jsval)) (o : TaskOwner) (key : option string) (now : Z) (uuid1 uuid2 : string)
    : TaskWorld * option (result automation_error string) :=
  match checked body key with
  | Err e => (w, Some (Err e))
  | Ok (key, q, fingerprint) =>
      let existing := creationOf (tw_store w) o key in
      match existing with
      | Some r =>
          if negb (String.eqb (Automation.cr_fingerprint r) fingerprint) then (w, Some (Err (AutomationError 409 "idempotency_key_reused")))
          else match Automation.cr_completed r, Automation.cr_response r with
               | true, Some answer => (w, Some (Ok answer))
               | _, _ => createNew w o key q fingerprint existing now uuid1 uuid2
               end
      | None => createNew w o key q fingerprint None now uuid1 uuid2
      end
  end.

Definition set_done (answer : option string) (r : Automation.CreationRow) : Automation.CreationRow :=
  Automation.mkCreation (Automation.cr_tenant_id r) (Automation.cr_member_id r) (Automation.cr_key r) (Automation.cr_fingerprint r) (Automation.cr_task_id r)
    (Automation.cr_conversation_id r) true (match answer with Some _ => answer | None => Automation.cr_response r end).
Definition completeCreation (o : TaskOwner) (key : string) (answer : option string) (s : Store) : Store :=
  set_creations (sql_update (is_creation o key) (set_done answer) (Automation.creations (automation s))) s.
Definition schedulePatch (c : ConversationSchedule) : Patch (Obj := ConversationSchedule) :=
  mkPatch None None None None None None None None None None None (Some (Some c)) None None None.
Definition storeError (e : store_error) : automation_error := match e with ScheduleGuarded e => e | _ => Automation.AutomationConstraint end.

(** The second transaction: all of it or nothing. *)
Definition finishCreation (s : Store) (db : ProjectionDb) (f : InFlight) (now : Z) : result automation_error (Store * string) :=
  let o := if_owner f in
  match Automation.get (automation s) (if_id f) (to_tenantId o) (to_memberId o) with
  | Some task =>
      _ ← require (bool_decide (Automation.at_deleted_at task = None)) (AutomationError 409 "task_creation_cancelled");
      let s := completeCreation o (if_key f) None s in
      schedule ← taskSchedule (rq_schedule (if_request f)) (rq_prompt (if_request f)) (if_id f) 1 true;
      match updateConversation stringify parseObject s (if_conversation f) (schedulePatch schedule) now with
      | (_, Err e) => Err (storeError e)
      | (s, Ok _) => answer ← answerOf s db (if_id f) o; Ok (completeCreation o (if_key f) (Some answer) s, answer)
      end
  | None => Err (AutomationError 409 "task_creation_cancelled")
  end.

(** After the wait, which [initialized] is the outcome of. *)
Definition createFinish (w : TaskWorld) (f : InFlight) (initialized : result automation_error unit) (now : Z) : TaskWorld * result automation_error string :=
  let creating := List.filter (fun i => negb (String.eqb i (if_id f))) (tw_creating w) in
  let inFlight := List.filter (fun g => negb (String.eqb (if_id g) (if_id f))) (tw_inFlight w) in
  match (_ ← initialized; finishCreation (tw_store w) (tw_projections w) f now) with
  | Ok (s, answer) => (mkTaskWorld s (tw_projections w) creating inFlight, Ok answer)
  | Err e => (mkTaskWorld (tw_store w) (tw_projections w) creating inFlight, Err e)
  end.

(** * Once *)

Record Answer : Type := mkAnswer { an_owner : TaskOwner; an_key : string; an_result : result automation_error string }.

(** What may happen: a request, the end of a wait, a restart of the process, and anything else that
    leaves the table of creations alone and removes no task. *)
Inductive task_step : TaskWorld -> option Answer -> TaskWorld -> Prop :=
| step_begin w body o key now uuid1 uuid2 w' r :
    createBegin w body o (Some key) now uuid1 uuid2 = (w', r) -> task_step w (mkAnswer o key <$> r) w'
| step_finish w f initialized now w' r : f ∈ tw_inFlight w ->
    createFinish w f initialized now = (w', r) -> task_step w (Some (mkAnswer (if_owner f) (if_key f) r)) w'
| step_restart w : task_step w None (mkTaskWorld (tw_store w) (tw_projections w) [] [])
| step_other w s db : Automation.creations (automation s) = Automation.creations (automation (tw_store w)) ->
    (forall i, i ∈ Automation.at_id <$> Automation.tasks (automation (tw_store w)) -> i ∈ Automation.at_id <$> Automation.tasks (automation s)) ->
    task_step w None (mkTaskWorld s db (tw_creating w) (tw_inFlight w)).
Inductive task_steps (w0 : TaskWorld) : list Answer -> TaskWorld -> Prop :=
| steps_none : task_steps w0 [] w0
| steps_more l w a w' : task_steps w0 l w -> task_step w a w' -> task_steps w0 (l ++ match a with Some a => [a] | None => [] end) w'.

(** ** What the transactions write *)

Lemma createConversation_automation s c now : automation (createConversation stringify parseObject s c now).1 = automation s.
Proof. reflexivity. Qed.
Lemma updateConversation_automation s i p now s' r : updateConversation stringify parseObject s i p now = (s', r) -> automation s' = automation s.
Proof.
  unfold updateConversation. destruct (getConversation _ _ _); [|by intros [= <- _]]. destruct (if match pt_schedule p with Some _ => true | None => false end then _ else _); [|by intros [= <- _]].
  intros [<- _]%pair_equal_spec. by destruct (pt_schedule p).
Qed.

Lemma insertCreation_Ok s o key fp i conv q ids now s' : insertCreation s o key fp i conv q ids now = Ok s' ->
  Automation.creations (automation s') = Automation.creations (automation s) ++ [Automation.mkCreation (to_tenantId o) (to_memberId o) key fp i conv false None]
  /\ (forall r, r ∈ Automation.creations (automation s) -> is_creation o key r = false)
  /\ Automation.at_id <$> Automation.tasks (automation s') = (Automation.at_id <$> Automation.tasks (automation s)) ++ [i]
  /\ i ∉ Automation.at_id <$> Automation.tasks (automation s).
Proof.
  unfold insertCreation, sql_insert. destruct (existsb (is_creation o key) _) eqn:Hc; [done|]. rewrite createConversation_automation.
  unfold Automation.insert, sql_insert. cbn [automation set_creations set_automation Automation.tasks Automation.bindings Automation.creations Automation.occurrences].
  destruct (existsb _ (Automation.tasks (automation s))) eqn:Ht; [done|]. unfold Automation.bind, sql_insert.
  cbn [Automation.tasks Automation.bindings Automation.creations Automation.occurrences]. destruct (existsb _ (Automation.bindings (automation s))); [done|].
  intros [= <-]. cbn [automation set_automation Automation.creations Automation.tasks]. split_and!; [done| | |].
  - intros r Hr. apply not_true_iff_false. intros E. apply not_true_iff_false in Hc. apply Hc, existsb_exists. exists r. by rewrite <- list_elem_of_In.
  - by rewrite fmap_app.
  - intros (t & Ei & Hin)%list_elem_of_fmap. apply not_true_iff_false in Ht. apply Ht, existsb_exists. exists t. rewrite <- list_elem_of_In. split; [done|].
    cbn. by rewrite <- Ei, String.eqb_refl.
Qed.

Lemma update_done_twice o key a (l : list Automation.CreationRow) :
  sql_update (is_creation o key) (set_done (Some a)) (sql_update (is_creation o key) (set_done None) l) = sql_update (is_creation o key) (set_done (Some a)) l.
Proof.
  unfold sql_update. rewrite map_map. apply map_ext. intros r. destruct (is_creation o key r) eqn:E; [|by rewrite E].
  assert (is_creation o key (set_done None r) = true) as -> by done. done.
Qed.

Lemma finishCreation_Ok s db f now s' a : finishCreation s db f now = Ok (s', a) ->
  Automation.creations (automation s') = sql_update (is_creation (if_owner f) (if_key f)) (set_done (Some a)) (Automation.creations (automation s))
  /\ Automation.tasks (automation s') = Automation.tasks (automation s).
Proof.
  unfold finishCreation. destruct (Automation.get _ _ _ _) as [task|]; [|done].
  intros (u1 & _ & (sched & _ & H)%bind_Ok)%bind_Ok. destruct (updateConversation _ _ _ _ _ _) as [s1 [x|e]] eqn:E; [|done].
  apply updateConversation_automation in E. apply bind_Ok in H as (a' & _ & [= <- <-]).
  unfold completeCreation at 1 2. cbn [automation set_creations set_automation Automation.creations Automation.tasks]. rewrite E.
  cbn [automation completeCreation set_creations set_automation Automation.creations Automation.tasks]. split; [apply update_done_twice|done].
Qed.

(** ** The invariant *)

Definition creationKey (r : Automation.CreationRow) : string * string * string := (Automation.cr_tenant_id r, Automation.cr_member_id r, Automation.cr_key r).
Definition answered (s : Store) (o : TaskOwner) (key a : string) : Prop := exists r, r ∈ Automation.creations (automation s)
  /\ is_creation o key r = true /\ Automation.cr_completed r = true /\ Automation.cr_response r = Some a.
Record creationsOk (w : TaskWorld) : Prop := mkCreationsOk {
  ck_keys : NoDup (creationKey <$> Automation.creations (automation (tw_store w)));
  ck_ids : NoDup (Automation.cr_task_id <$> Automation.creations (automation (tw_store w)));
  ck_tasks : forall r, r ∈ Automation.creations (automation (tw_store w)) -> Automation.cr_task_id r ∈ Automation.at_id <$> Automation.tasks (automation (tw_store w));
  ck_response : forall r, r ∈ Automation.creations (automation (tw_store w)) -> Automation.cr_completed r = true -> is_Some (Automation.cr_response r);
  ck_flight : forall f, f ∈ tw_inFlight w -> if_id f ∈ tw_creating w /\ exists r, r ∈ Automation.creations (automation (tw_store w))
    /\ is_creation (if_owner f) (if_key f) r = true /\ Automation.cr_task_id r = if_id f /\ Automation.cr_completed r = false;
}.

Lemma is_creation_key o key r : is_creation o key r = true <-> creationKey r = (to_tenantId o, to_memberId o, key).
Proof. unfold is_creation, creationKey. rewrite !andb_true_iff, !String.eqb_eq. split; [intros [[-> ->] ->]; done|intros [= -> -> ->]; done]. Qed.
Lemma set_done_key a r : creationKey (set_done a r) = creationKey r.
Proof. reflexivity. Qed.

Lemma createFinish_ok w f init now w' r : creationsOk w -> f ∈ tw_inFlight w -> createFinish w f init now = (w', r) ->
  creationsOk w' /\ (forall o key a, answered (tw_store w) o key a -> answered (tw_store w') o key a)
  /\ (forall a, r = Ok a -> answered (tw_store w') (if_owner f) (if_key f) a).
Proof.
  intros [Hk Hi Ht Hr Hf] Hin. unfold createFinish. set (creating := List.filter _ (tw_creating w)). set (inFlight := List.filter _ (tw_inFlight w)).
  assert (forall g, g ∈ inFlight -> g ∈ tw_inFlight w /\ if_id g <> if_id f) as Hg.
  { intros g. unfold inFlight. rewrite list_elem_of_In, filter_In, <- list_elem_of_In. intros [? Hne%negb_true_iff%String.eqb_neq]. done. }
  assert (forall i, i ∈ tw_creating w -> i <> if_id f -> i ∈ creating) as Hcr.
  { intros i ? ?%String.eqb_neq. unfold creating. apply list_elem_of_In, filter_In. rewrite <- list_elem_of_In. split; [done|]. by apply negb_true_iff. }
  match goal with |- context [match ?v with Ok _ => _ | Err _ => _ end] => destruct v as [[s' a]|e] eqn:E end.
  - intros [<- <-]%pair_equal_spec. apply bind_Ok in E as (_ & _ & E). destruct (finishCreation_Ok _ _ _ _ _ _ E) as [E1 E2].
    destruct (Hf f Hin) as (_ & r0 & Hr0 & Hc0 & Hid0 & Hn0). split_and!.
    + constructor; cbn [tw_store tw_inFlight tw_creating]; rewrite ?E1, ?E2.
      * rewrite keys_sql_update; [done|]. apply set_done_key.
      * rewrite keys_sql_update; [done|]. done.
      * intros r (x & Hx & ->)%elem_of_sql_update. destruct (is_creation _ _ x); exact (Ht x Hx).
      * intros r (x & Hx & ->)%elem_of_sql_update. destruct (is_creation _ _ x); [intros _; by eexists|by apply Hr].
      * intros g Hgin. destruct (Hg g Hgin) as [Hgf Hne]. destruct (Hf g Hgf) as (Hc & x & Hx & Hxk & Hxi & Hxn). split; [by apply Hcr|].
        exists x. split_and!; [|done..]. apply elem_of_sql_update. exists x. split; [done|].
        destruct (is_creation (if_owner f) (if_key f) x) eqn:Ex; [|done]. exfalso. apply Hne. apply is_creation_key in Ex, Hc0.
        assert (x = r0) as -> by (eapply (NoDup_key_eq creationKey); [exact Hk|done..|congruence]). congruence.
    + intros o key a0 (x & Hx & Hxk & Hxc & Hxa). cbn [tw_store]. exists x. rewrite E1. split_and!; [|done..]. apply elem_of_sql_update. exists x. split; [done|].
      destruct (is_creation (if_owner f) (if_key f) x) eqn:Ex; [|done]. exfalso. apply is_creation_key in Ex, Hc0.
      assert (x = r0) as -> by (eapply (NoDup_key_eq creationKey); [exact Hk|done..|congruence]). congruence.
    + intros a0 [= <-]. exists (set_done (Some a) r0). cbn [tw_store]. rewrite E1. split_and!; [|done..].
      apply elem_of_sql_update. exists r0. by rewrite Hc0.
  - intros [<- <-]%pair_equal_spec. split_and!; [|done|done]. constructor; cbn [tw_store tw_inFlight tw_creating]; try done.
    intros g Hgin. destruct (Hg g Hgin) as [Hgf Hne]. destruct (Hf g Hgf) as (Hc & x & Hx). split; [by apply Hcr|]. by exists x.
Qed.

Lemma checked_key body key k q fp : checked body (Some key) = Ok (k, q, fp) -> k = key.
Proof.
  intros (u1 & _ & (k' & Hk & (? & _ & (? & _ & (? & _ & (? & _ & (? & _ & (? & _ & [= <- _ _])%bind_Ok)%bind_Ok)%bind_Ok)%bind_Ok)%bind_Ok)%bind_Ok)%bind_Ok)%bind_Ok.
  destruct (isKey key); [|done]. by injection Hk.
Qed.

Lemma createNew_ok w o key q fp existing now u1 u2 w' r : creationsOk w -> existing = creationOf (tw_store w) o key ->
  (forall x, existing = Some x -> Automation.cr_completed x = false) -> createNew w o key q fp existing now u1 u2 = (w', r) ->
  creationsOk w' /\ (forall o key a, answered (tw_store w) o key a -> answered (tw_store w') o key a) /\ (forall a, r <> Some (Ok a)).
Proof.
  intros Hok He Hn. unfold createNew. match goal with |- context [match ?v with Ok _ => _ | Err _ => _ end] => destruct v end; [|by intros [<- <-]%pair_equal_spec].
  case_bool_decide as Hc; [by intros [<- <-]%pair_equal_spec|]. destruct existing as [x|].
  - intros [<- <-]%pair_equal_spec. split_and!; [|done|done]. destruct Hok as [Hk Hi Ht Hr Hf]. constructor; cbn [tw_store tw_inFlight tw_creating]; try done.
    intros f [Hin|Hin%list_elem_of_singleton]%elem_of_app; [destruct (Hf f Hin) as [? ?]; split; [by right|done]|]. subst f. cbn. split; [by left|].
    symmetry in He. apply sql_get_Some in He as [Hx Hxk]. exists x. split_and!; [done..|by apply Hn].
  - destruct (insertCreation _ _ _ _ _ _ _ _ _) as [s|] eqn:E; [|by intros [<- <-]%pair_equal_spec]. intros [<- <-]%pair_equal_spec.
    apply insertCreation_Ok in E as (E1 & E2 & E3 & E4). cbn [nullish default fmap option_fmap option_map] in *. destruct Hok as [Hk Hi Ht Hr Hf]. split_and!; [|intros o' key' t' (y & Hy & ?); exists y; cbn [tw_store]; rewrite E1; split; [apply elem_of_app; by left|done]|done].
    set (new := Automation.mkCreation _ _ _ _ _ _ _ _) in *.
    constructor; cbn [tw_store tw_inFlight tw_creating]; rewrite ?E1, ?E3.
    + rewrite fmap_app. apply NoDup_app. split_and!; [done| |apply NoDup_singleton]. intros k (y & -> & Hy)%list_elem_of_fmap Hin%list_elem_of_singleton.
      specialize (E2 y Hy). apply not_true_iff_false in E2. apply E2, is_creation_key. by rewrite Hin.
    + rewrite fmap_app. apply NoDup_app. split_and!; [done| |apply NoDup_singleton]. intros k (y & -> & Hy)%list_elem_of_fmap Hin%list_elem_of_singleton.
      apply E4. cbn in Hin. rewrite <- Hin. by apply Ht.
    + intros y [Hy|Hy%list_elem_of_singleton]%elem_of_app; apply elem_of_app; [left; by apply Ht|right]. subst y. by left.
    + intros y [Hy|Hy%list_elem_of_singleton]%elem_of_app; [by apply Hr|by subst y].
    + intros f [Hin|Hin%list_elem_of_singleton]%elem_of_app.
      * destruct (Hf f Hin) as (? & y & Hy & ?). split; [by right|]. exists y. split; [apply elem_of_app; by left|done].
      * subst f. cbn. split; [by left|]. exists new. split_and!; [apply elem_of_app; right; by left|by apply is_creation_key|done|done].
Qed.

Lemma createBegin_ok w body o key now u1 u2 w' r : creationsOk w -> createBegin w body o (Some key) now u1 u2 = (w', r) ->
  creationsOk w' /\ (forall o key a, answered (tw_store w) o key a -> answered (tw_store w') o key a)
  /\ (forall a, r = Some (Ok a) -> answered (tw_store w') o key a).
Proof.
  intros Hok. unfold createBegin. destruct (checked body (Some key)) as [[[k q] fp]|] eqn:Hc; [|by intros [<- <-]%pair_equal_spec].
  apply checked_key in Hc as ->. destruct (creationOf (tw_store w) o key) as [x|] eqn:Hx.
  - destruct (negb _); [by intros [<- <-]%pair_equal_spec|]. pose proof Hx as Hs. apply sql_get_Some in Hs as [Hin Hkey].
    destruct (Automation.cr_completed x) eqn:Hcx.
    + destruct (Automation.cr_response x) as [a|] eqn:Ha.
      * intros [<- <-]%pair_equal_spec. split_and!; [done|done|]. intros a' [= <-]. by exists x.
      * destruct (ck_response w Hok x Hin Hcx). congruence.
    + intros H. destruct (createNew_ok w o key q fp (Some x) now u1 u2 w' r Hok (eq_sym Hx)) as (H1 & H2 & H3); [by intros ? [= <-]| |].
      { by destruct (Automation.cr_response x). }
      split_and!; [done|done|]. intros a Hr. by destruct (H3 a).
  - intros H. destruct (createNew_ok w o key q fp None now u1 u2 w' r Hok (eq_sym Hx)) as (H1 & H2 & H3); [done|done|].
    split_and!; [done|done|]. intros a Hr. by destruct (H3 a).
Qed.

Lemma steps_ok w0 l w : creationsOk w0 -> task_steps w0 l w ->
  creationsOk w /\ (forall a t, a ∈ l -> an_result a = Ok t -> answered (tw_store w) (an_owner a) (an_key a) t).
Proof.
  intros H0. induction 1 as [|l w a w' Hs [IH1 IH2] Hstep]; [split; [done|by intros ? ? ?%not_elem_of_nil]|].
  assert (creationsOk w' /\ (forall o key t, answered (tw_store w) o key t -> answered (tw_store w') o key t)
    /\ (forall b t, a = Some b -> an_result b = Ok t -> answered (tw_store w') (an_owner b) (an_key b) t)) as (K1 & K2 & K3).
  { destruct Hstep as [w body o key now u1 u2 w' r E|w f init now w' r Hf E|w|w s db Hc Ht].
    - destruct (createBegin_ok _ _ _ _ _ _ _ _ _ IH1 E) as (? & ? & H3). split_and!; [done|done|]. intros b t Hb Hr. destruct r as [r|]; [|done]. injection Hb as <-. cbn in *. apply H3. congruence.
    - destruct (createFinish_ok _ _ _ _ _ _ IH1 Hf E) as (? & ? & H3). split_and!; [done|done|]. intros b t [= <-] Hr. cbn in *. by apply H3.
    - destruct IH1 as [Hk Hi Ht Hr Hf]. split_and!; [|done|done]. constructor; cbn [tw_store tw_inFlight tw_creating]; try done. by intros ? ?%not_elem_of_nil.
    - destruct IH1 as [Hk Hi Ht' Hr Hf]. split_and!; [|unfold answered; cbn [tw_store]; by rewrite Hc|done].
      constructor; cbn [tw_store tw_inFlight tw_creating]; rewrite ?Hc; try done. intros r Hin. by apply Ht, Ht'. }
  split; [done|]. intros b t [Hb|Hb]%elem_of_app Hr; [by apply K2, IH2|]. destruct a as [a|]; [|by apply not_elem_of_nil in Hb].
  apply list_elem_of_singleton in Hb as ->. by apply K3.
Qed.

(** C10. A task is created once per idempotency key, whatever requests overlap, whichever waits fail
    and wherever the process restarts: every successful answer to a key of an owner is the same
    one, there is one task for the key and no other key has it, and once answered the same request
    gets the answer at once while a different one with that key is refused, neither changing
    anything. *)
Theorem creation_is_idempotent w0 l w a b t1 t2 :
  Automation.creations (automation (tw_store w0)) = [] -> tw_inFlight w0 = [] -> task_steps w0 l w ->
  a ∈ l -> b ∈ l -> an_owner a = an_owner b -> an_key a = an_key b -> an_result a = Ok t1 -> an_result b = Ok t2 ->
  t1 = t2 /\ exists r, creationOf (tw_store w) (an_owner a) (an_key a) = Some r
    /\ (forall r', r' ∈ Automation.creations (automation (tw_store w)) -> Automation.cr_task_id r' = Automation.cr_task_id r \/ is_creation (an_owner a) (an_key a) r' = true -> r' = r)
    /\ (forall body q fp now u1 u2, checked body (Some (an_key a)) = Ok (an_key a, q, fp) ->
         createBegin w body (an_owner a) (Some (an_key a)) now u1 u2
         = (w, Some (if String.eqb (Automation.cr_fingerprint r) fp then Ok t1 else Err (AutomationError 409 "idempotency_key_reused")))).
Proof.
  intros Hc Hf Hs Ha Hb Ho Hk H1 H2.
  assert (creationsOk w0) as H0 by (constructor; rewrite ?Hc, ?Hf; first [apply NoDup_nil_2 | by intros ? ?%not_elem_of_nil]).
  destruct (steps_ok _ _ _ H0 Hs) as [[K1 K2 _ _ _] Hans].
  destruct (Hans a t1 Ha H1) as (r & Hr & Rk & Rc & Ra). destruct (Hans b t2 Hb H2) as (r' & Hr' & Rk' & _ & Ra').
  rewrite <- Ho, <- Hk in Rk'. assert (forall x, x ∈ Automation.creations (automation (tw_store w)) -> is_creation (an_owner a) (an_key a) x = true -> x = r) as Hu.
  { intros x Hx Hxk. apply is_creation_key in Hxk. pose proof Rk as Rk0. apply is_creation_key in Rk0. eapply (NoDup_key_eq creationKey); [exact K1|done..|congruence]. }
  rewrite (Hu r' Hr' Rk') in Ra'. split; [congruence|]. exists r.
  assert (creationOf (tw_store w) (an_owner a) (an_key a) = Some r) as Hget.
  { unfold creationOf. apply (sql_get_key creationKey); [done..|]. intros x Hx. apply is_creation_key in Hx, Rk. congruence. }
  split_and!; [done| |].
  - intros x Hx [Hid|Hxk]; [|by apply Hu]. by eapply (NoDup_key_eq Automation.cr_task_id); [exact K2|..].
  - intros body q fp now u1 u2 Hch. unfold createBegin. rewrite Hch, Hget. destruct (String.eqb _ fp); cbn [negb]; [|done]. by rewrite Rc, Ra.
Qed.
End Creation.

(** * On a concrete input *)

Definition demoTaskOwner : TaskOwner := mkTaskOwner "t" "m".
Definition demoZone (_ : string) : bool := true.
Definition demoParse (_ : string) : option Z := Some 5000.
Definition demoInstant (s : string) : option string := Some s.
Definition demoHash (x : string * string * string * string * list string * ConversationSchedule) : string := x.1.1.1.1.1.
Definition demoNoConnectors (_ : TaskOwner) : option (list LocalConnector) := None.
Definition demoAnswers (_ : Store) (_ : ProjectionDb) (i : string) (_ : TaskOwner) : result automation_error string := Ok ("task " +:+ i)%string.
Definition demoText (c : ConversationSchedule) : string := schedule_id c.
Definition demoNone (_ : string) : option ConversationSchedule := None.
Definition demoIds (_ : list string) : string := "[]".
Definition demoBody (name : string) : list (string * jsval) :=
  [("name", VStr name); ("prompt", VStr "report"); ("category", VStr "report"); ("employee_id", VStr "e1");
   ("schedule", VObj [("mode", VStr "once"); ("timezone", VStr "UTC"); ("run_at", VStr "later")])]%string.
Definition demoFresh : TaskWorld := mkTaskWorld demoStore (sync emptyProjections Projections.demoSync) [] [].
Definition demoBegin (w : TaskWorld) (name uuid1 uuid2 : string) :=
  createBegin demoZone demoParse demoInstant demoText demoNone demoHash demoNoConnectors demoIds w (demoBody name) demoTaskOwner (Some "k"%string) 1 uuid1 uuid2.
Definition demoFinish (w : TaskWorld) (f : InFlight) := createFinish demoZone demoParse demoInstant demoText demoNone demoAnswers w f (Ok tt) 2.
Definition demoFlight : InFlight := mkInFlight demoTaskOwner "k" "u1" "c1" (mkRequest "daily" "report" "report" "e1" [] (prop (demoBody "daily") "schedule")).
(** A request, the same again meanwhile, the end of the first, the same again, and another one. *)
Definition demoW1 : TaskWorld := (demoBegin demoFresh "daily" "u1" "c1").1.
Definition demoW2 : TaskWorld := (demoFinish demoW1 demoFlight).1.

Example demo_story :
  ((demoBegin demoFresh "daily" "u1" "c1").2, (demoBegin demoW1 "daily" "u2" "c2").2, (demoFinish demoW1 demoFlight).2,
   (demoBegin demoW2 "daily" "u3" "c3").2, (demoBegin demoW2 "weekly" "u4" "c4").2)
  = (None, Some (Err (AutomationError 409 "task_creation_pending")), Ok "task u1"%string, Some (Ok "task u1"%string), Some (Err (AutomationError 409 "idempotency_key_reused"))).
Proof. vm_compute. reflexivity. Qed.

Lemma demo_first : demoBegin demoFresh "daily" "u1" "c1" = (demoW1, None).
Proof. vm_compute. reflexivity. Qed.
Lemma demo_second : demoFinish demoW1 demoFlight = (demoW2, Ok "task u1"%string).
Proof. vm_compute. reflexivity. Qed.
Lemma demo_third : demoBegin demoW2 "daily" "u3" "c3" = (demoW2, Some (Ok "task u1"%string)).
Proof. vm_compute. reflexivity. Qed.
Lemma demo_flight : demoFlight ∈ tw_inFlight demoW1.
Proof. vm_compute. left. Qed.

Lemma demo_steps : task_steps demoZone demoParse demoInstant demoText demoNone demoHash demoNoConnectors demoAnswers demoIds demoFresh
  [mkAnswer demoTaskOwner "k" (Ok "task u1"%string); mkAnswer demoTaskOwner "k" (Ok "task u1"%string)] demoW2.
Proof.
  refine (steps_more _ _ _ _ _ _ _ _ _ _ [mkAnswer demoTaskOwner "k" (Ok "task u1"%string)] demoW2 (Some (mkAnswer demoTaskOwner "k" (Ok "task u1"%string))) demoW2 _
    (step_begin _ _ _ _ _ _ _ _ _ demoW2 (demoBody "daily") demoTaskOwner "k" 1 "u3" "c3" demoW2 _ demo_third)).
  refine (steps_more _ _ _ _ _ _ _ _ _ _ [] demoW1 (Some (mkAnswer demoTaskOwner "k" (Ok "task u1"%string))) demoW2 _
    (step_finish _ _ _ _ _ _ _ _ _ demoW1 demoFlight (Ok tt) 2 demoW2 _ demo_flight demo_second)).
  refine (steps_more _ _ _ _ _ _ _ _ _ _ [] demoFresh None demoW1 (steps_none _ _ _ _ _ _ _ _ _ _)
    (step_begin _ _ _ _ _ _ _ _ _ demoFresh (demoBody "daily") demoTaskOwner "k" 1 "u1" "c1" demoW1 _ demo_first)).
Qed.

Lemma creation_is_idempotent_witness : exists r, creationOf (tw_store demoW2) demoTaskOwner "k" = Some r /\ Automation.cr_task_id r = "u1"%string
  /\ demoBegin demoW2 "weekly" "u4" "c4" = (demoW2, Some (Err (AutomationError 409 "idempotency_key_reused"))).
Proof.
  destruct (creation_is_idempotent demoZone demoParse demoInstant demoText demoNone demoHash demoNoConnectors demoAnswers demoIds demoFresh
    [mkAnswer demoTaskOwner "k" (Ok "task u1"%string); mkAnswer demoTaskOwner "k" (Ok "task u1"%string)] demoW2
    (mkAnswer demoTaskOwner "k" (Ok "task u1"%string)) (mkAnswer demoTaskOwner "k" (Ok "task u1"%string)) "task u1" "task u1"
    eq_refl eq_refl demo_steps ltac:(left) ltac:(left) eq_refl eq_refl eq_refl eq_refl) as (_ & r & Hr & _ & H).
  exists r. split; [exact Hr|].
  assert ((Automation.cr_task_id <$> creationOf (tw_store demoW2) demoTaskOwner "k", Automation.cr_fingerprint <$> creationOf (tw_store demoW2) demoTaskOwner "k")
    = (Some "u1", Some "daily")%string) as E by (vm_compute; reflexivity).
  cbn [an_owner an_key] in Hr, H. rewrite Hr in E. injection E as E1 E2. split; [exact E1|].
  destruct (checked demoZone demoParse demoInstant demoHash (demoBody "weekly") (Some "k"%string)) as [[[k q] fp]|] eqn:Ec; [|vm_compute in Ec; discriminate].
  assert (k = "k"%string /\ fp = "weekly"%string) as [-> ->].
  { assert (match checked demoZone demoParse demoInstant demoHash (demoBody "weekly") (Some "k"%string) with Ok (k, _, fp) => (k, fp) | Err _ => ("", "") end = ("k", "weekly"))%string as E3
      by (vm_compute; reflexivity). rewrite Ec in E3. by injection E3. }
  unfold demoBegin. rewrite (H _ _ _ 1 "u4"%string "c4"%string Ec). rewrite E2. reflexivity.
Defined.
